(* ===== verification/_CoqProject ===== *)
-Q . S2P
Prelude.v
PyValue.v
Text.v
Sha256.v
Sha1.v
FinalizationDecision.v
FinalizationStore.v
FinalizationTxn.v
FinalizationOutcome.v
ConversationRecovery.v
MeetingReceipt.v
FinalizationScenario.v
FinalizationInv.v
FinalizationLease.v
FinalizationOps.v
FinalizationService.v
CutoverModel.v
CutoverStore.v
CutoverPlan.v
CutoverCodec.v
CutoverRace.v
CutoverOps.v
CutoverAccess.v
CutoverAccessOps.v
CircuitBreakers.v
BreakerOps.v
SyncMerge.v
QueuePolicy.v
QueueOps.v
SyncLedger.v
SyncLedgerOps.v
SyncJobs.v
SyncJobOps.v
Accounting.v
AccountingOps.v
JitBudget.v
JitBudgetOps.v
JitAttempt.v
SpeakerIdentity.v
TranscriptSegments.v
TranscriptOps.v
ManualSpeakers.v
ManualOps.v
ManualEdit.v
LiveTranscript.v
SyncAssign.v
SyncAssignOps.v
SyncLineage.v
SyncSpeech.v
SyncFind.v
SyncAgain.v
SyncRetry.v
SyncDemo.v
MemoryFacts.v
MemoryLedger.v
MemoryLedgerOps.v
MemoryReplay.v
MemoryHidden.v
ContentionRetry.v
ProjectionRepair.v
ProjectionOps.v
MemoryPrivacy.v
MemoryPrivacyOps.v
MemoryPurge.v
MemoryTombstones.v
MemoryDemo.v
OutboxWorker.v
OutboxOps.v
OutboxConvergence.v
OutboxPrivacy.v
OutboxDemo.v
LegalHolds.v
LegalHoldOps.v
LoopCollapse.v
LiveWindow.v
LiveWindowOps.v
LiveWindowClose.v
VadGate.v
VadGateOps.v
VadGateTime.v
