(* ===== verification/Prelude.v ===== *)
(** * Verified models of the backend

    Rocq models of the state-keeping core of the Python backend under
    [src/backend/], with the theorems that make it correct.  The code is
    translated definition by definition and keeps its names; a Python function
    that may raise is a function into [result], a Firestore transaction is a
    function from the documents before it to its answer and the documents after
    it, and concurrency is a step relation or a history of calls in which every
    interleaving of web, worker and reconciler processes is one sequence of
    steps.

    ** The parts and how they interact

    Seven groups of components are modelled.

    - _Conversation finalization_.  A conversation that stopped recording is
      finalized by a durable job: a web process admits an intent, a worker
      claims a lease on the job, delivers its external fanout and closes job and
      conversation; reconcilers replay lost hand-offs, abandon jobs whose key
      holder never returns and recover conversations left on [processing].
    - _Account cutover_.  An account moves between two backends under a
      generation number: a coordinator plans each move from a document it read
      and persists it by compare-and-swap; every request, session and queued
      task is admitted or refused by the state the document holds.
    - _Offline sync_.  Uploaded audio is processed by a job in Redis under a run
      lock whose epoch also fences a durable ledger in Firestore; the ledger
      records metering once and publishes the result; deduplication absorbs
      uploads that repeat.  One transaction then assigns the speech of a chunk
      to a conversation, absorbing the conversations it bridges.
    - _Transcripts and speakers_.  Segments from the speech providers are
      combined into a transcript, speakers are numbered per conversation, and
      what a person said about a speaker outlives every later write: the live
      loop, inference, absorption of segments and assignment all reapply the
      receipt of manual decisions last.
    - _Memory ledger_.  Facts about a user are kept as an append-only chain of
      commits under a head that moves by compare-and-set; facts at a time are
      replayed from it.  An append runs under the contention retry and then asks
      the repair queue for the projections of the facts it changed.  Deleting a
      memory purges the history that names it, and fences in the append keep it
      from coming back.  The outbox of the canonical store brings changes of
      memories to the search provider: workers lease its events, read the
      canonical state afresh and deliver it.  Legal holds and destructive work
      contend on one gate per account, which also fences the appends.
    - _Live speech_.  A voice gate keeps silence back from the provider and maps
      the provider's times back to the clock.  Audio of a live session is buffered
      behind an anchor and posted window by window to the speech service; the anchor
      moves behind what was handed on, and decoding loops of the model are collapsed.
    - _Shared guards_.  Circuit breakers around outside services, the back-off
      and repair queue, and the spend authority of budgeted gateway runs with
      the accounting it prices them by.

    ** Files

    General: [Prelude] (results, reachability, counts and sums, tactics, the
    hint database [remi]); [PyValue] (Python values, documents and field
    writes); [Text] (stripping, digits, [int] and [str]); [Sha256] and [Sha1]
    ([hashlib.sha256], and [uuid.uuid5] with the id of a legacy segment, both
    checked on known vectors).

    Finalization:
    - [FinalizationDecision]: [utils/conversations/finalization_decision.py] and
      the admission function of [lifecycle.py]; the reducer and its refinement
      of an abstract lifecycle.
    - [FinalizationStore], [FinalizationTxn], [FinalizationOutcome],
      [ConversationRecovery], [MeetingReceipt]:
      [database/conversation_finalization_jobs.py], one definition per
      transaction.  The store is a record of the job, conversation, projection
      shard and sweep-cursor collections.
    - [FinalizationScenario]: a conversation finalized step by step, at which
      the theorems are instantiated.
    - [FinalizationInv] (the transition system and its counters),
      [FinalizationLease] (what a lease protects), [FinalizationOps] (each
      operation on every branch), [FinalizationService]
      ([services/conversation_finalization.py]: the public operations and the
      reconcilers, refining an abstract recovery).

    Cutover:
    - [CutoverModel] ([models/account_cutover.py], [state.py] and [fence.py] of
      [utils/account_cutover/]), [CutoverStore] ([database/account_cutover.py],
      [coordinator.py]), [CutoverAccess] ([control.py], [access.py],
      [telemetry.py]).
    - [CutoverPlan] (what a call plans), [CutoverRace] (calls interleaved
      between read and write, related to atomic calls), [CutoverOps] and
      [CutoverAccessOps] (the guarantees), [CutoverCodec] (one instance of the
      interface below).

    Sync:
    - [SyncLedger] and [SyncLedgerOps] ([database/sync_ledger.py]); [SyncJobs]
      and [SyncJobOps] ([database/sync_jobs.py] and the binding step of
      [utils/sync/pipeline.py]); [SyncMerge] ([utils/sync/merge_dedupe.py]).
    - [SyncAssign] ([utils/sync/assignment.py], [assignment_index.py],
      [utils/conversation_continuity.py],
      [utils/conversations/fragment_visibility.py]): [assign_in_transaction]
      step by step, on a store of conversations and index documents.
    - [SyncAssignOps] (it ends, what it leaves alone, what becomes of the rows it
      absorbs), [SyncLineage] (redirects), [SyncSpeech] (the speech is kept, with
      its times), [SyncFind] (the index and the closed search), [SyncAgain] and
      [SyncRetry] (a chunk sent again), [SyncDemo] (a bridge between two
      conversations, at which the theorems are instantiated).

    Transcripts:
    - [SpeakerIdentity] ([utils/stt/speaker_identity.py]);
      [TranscriptSegments] and [TranscriptOps] ([combine_segments] of
      [models/transcript_segment.py]).
    - [ManualSpeakers], [ManualOps] and [ManualEdit]
      ([utils/manual_speaker_assignments.py]: applying a receipt, moving it
      along absorbed segments, editing it, teaching from it).
    - [LiveTranscript] ([merge_live_segments] and the transaction of
      [update_conversation_segments], [database/conversations.py]).

    Memory:
    - [MemoryFacts] (mutations and what they do to a fact, confidence of
      [models/memories.py]) and [MemoryLedger] ([database/memory_ledger.py] with
      its fences of [legal_holds.py] and [account_deletion_policy.py] and the head
      fields of [models/memory_state_head.py]): commits, appends, replay,
      differences.
    - [MemoryLedgerOps] (the chain, the appends against the plain history),
      [MemoryReplay] (replay and differences on a chain), [MemoryHidden]
      (retraction).
    - [ContentionRetry] ([database/firestore_transaction_retry.py]);
      [ProjectionRepair] and [ProjectionOps] ([database/projection_repair.py]:
      repairs of a commit, what a fact projects to, drift; [append_commit]).
    - [MemoryPrivacy] (the purge of the history page by page and the final
      removal), [MemoryPrivacyOps] (pages cover a collection once),
      [MemoryPurge] and [MemoryTombstones] (what a deletion leaves);
      [MemoryDemo], at which the theorems are instantiated.
    - [OutboxWorker] ([database/memory_outbox_worker.py] and
      [account_deletion_projection_fence.py]: leases, what an event asks for, its
      delivery, the settlement, the tick); [OutboxOps] (leases and settlements),
      [OutboxConvergence] (the provider and the canonical state under any number
      of workers), [OutboxPrivacy] (the events that
      [database/memory_apply_store.py] writes for a deleted memory);
      [OutboxDemo], at which the theorems are instantiated.
    - [LegalHolds] and [LegalHoldOps] ([database/legal_holds.py]).

    Live speech:
    - [LoopCollapse] ([collapse_decoder_loops] of [utils/stt/window_anchor.py]);
      [LiveWindow] ([decide_window] of the same file and
      [WindowedParakeetSocket] of [utils/stt/parakeet_window.py]: the buffer, the
      choice of a window, its answer).
    - [LiveWindowOps] (sessions in which calls and answers interleave),
      [LiveWindowClose] (whole samples, the closing loop, the theorems on concrete
      audio).
    - [VadGate] ([utils/stt/vad_gate.py]: the gate, its mapper of times, the gated
      socket), [VadGateOps] (the order of times, the counters), [VadGateTime] (the
      exactness of times, what is sent and reaches the provider, the theorems on
      concrete audio).

    Guards:
    - [CircuitBreakers] and [BreakerOps] ([utils/stt/provider_resilience.py],
      [utils/llm/gateway_resilience.py], [utils/pusher.py],
      [utils/http_client.py]); [QueuePolicy] and [QueueOps]
      ([utils/durable_queue_policy.py], [database/projection_repair.py]).
    - [Accounting] and [AccountingOps] ([llm_gateway/gateway/accounting.py]),
      [JitBudget] and [JitBudgetOps] ([llm_gateway/gateway/jit_budget.py]),
      [JitAttempt] (one provider attempt of [llm_gateway/gateway/executor.py]).

    ** What the theorems show

    Finalization.  The projection counters equal the jobs they count in every
    reachable store; no transaction in which a worker presents a lease that was
    taken over changes anything, and the receipt transactions, which present none,
    change only the meeting receipt; the outcome of a terminal job is final, and a success has its fanout delivered;
    admission is idempotent and claims are exclusive; abandonment and the orphan
    sweep close only what nobody owns, and the sweep examines a prefix and
    resumes behind it, except that it can report exhaustion one row early.

    Cutover.  Coordinator calls that interleave between read and write are
    linearizable: one after the other, in the order of their answers, they answer
    the same and leave the same documents; between any two moments of a race
    generations never decrease and an unbound account never leaves the early
    phases; admission, the write fence and the projection shown to clients
    agree, except that admission does not compare the generation a request carries
    to an account at generation zero; a stale writer stays fenced and unreadable state fails closed; a
    bound migration can always be completed.

    Sync.  The compare-and-set loops are atomic conditional writes; a displaced
    worker is refused by every later ledger call and job update; a completion
    is final and work is recorded once; a terminal job is kept, except against
    a status poll that read it earlier; deduplication is idempotent.  An
    assignment ends whatever the redirects and intervals are; it never writes a
    row that a user deleted or manages; an absorbed row lives on behind an
    acyclic redirect; every segment is in the survivor at the moment it was
    spoken, or what it repeats is; and sending a chunk again that was assigned
    without naming a conversation, in a store without manual labels, adds nothing
    (naming a live conversation, it can add its speech a second time).

    Transcripts.  Combining keeps every word in order, accounts for every
    segment, and keeps times in order when segments arrive in order (not
    otherwise: a late segment can be joined so that it ends before it starts).
    Speakers named by their segments keep one number through a reconnect.  A manual
    edit takes effect on exactly the segments its target names, the newest decision
    on a segment or its speaker is what the segment shows, and no live write or
    inference undoes it.

    Memory.  Whatever appends, builders, clocks and failures interleave, the
    commits form one chain from the root to the head that only grows; an append
    can be sent again, is applied at most once however often the provider aborts
    (and given up only when every attempt was aborted, or refused by the ledger),
    keeps the fields of the canonical stream, and refuses deleted memories; every
    fact it names is queued for projection.  On a chain whose clocks advance,
    replay is the fold of the chain's prefix, and differences are what was
    committed between two commits; a retracted fact stays hidden.  (Replay goes by
    the clock: a commit from a clock that is behind is misplaced.)  A purge ends
    and leaves no document that names the memory, and nothing else changed; the
    last rows go at once or not at all.  However many outbox workers run, crash and
    lose their leases, the provider shows the canonical state of a memory or an event
    of it is still to be delivered, as long as the read after a provider write fails
    only in the ways the worker names (on others a stale projection is forgotten); a
    settlement takes place only under the newest lease.  The events written for a
    deleted memory, however, are never projected: they miss the field the worker asks
    for.  A hold and a deletion exclude each other until the gate of the deletion is
    stale (which it becomes too early when a deletion resumes its own gate), an
    abandoned gate is taken over, and a block under the gate gives it back.

    Live speech.  The gate sends speech with its hangover and the audio before it,
    and when chunks arrive as they are spoken, maps the provider's time of each byte
    to the moment it was captured (but for a time exactly at a cut, and for times of
    a shadow phase); under any clock it keeps the order of times, and its counters
    never fall.  While a session lives, every byte of speech lies in a window that
    was answered or is still in the buffer; windows are exactly the audio received,
    in whole samples and within the context; what is handed on never goes back in
    time from one window to the next; and closing posts until all speech was answered, when each segment ends at
    least a sample into its window.  Collapsing loops ends, leaves none and is
    idempotent.

    Guards.  Benches are respected and probe slots given back, except by a
    webhook caller that records no outcome; the repair queue drains within its
    attempts whatever its repairs do.  A budgeted run stays within its attempts
    and its spend under any history of calls, its attempts do not overlap, a
    refused settlement closes it, and a response is handed out only with a
    receipt equal to the spend it added; the amount reserved covers the bill
    except for cache writes dearer than input; cost and savings add up.

    ** Bounds and fuel

    Recursion is structural where the code loops over a list.  A sweep over
    pages has the number of rows behind the cursor plus one as fuel: every page
    but the last consumes a row.  The repair queue is run for [max_attempts]
    passes per document, which is where its termination theorem ends.  The walk
    along redirects and the search of an assignment have the number of rows as
    fuel: a walk passes no row twice, a round of the search but the last matches
    a row more; running out is an error of the model that is proved unreachable.
    The walk along absorbed segments has the size of the map; the walk along a
    difference the number of commits, the search of an exception's causes the
    number of exceptions, a purge the number of documents, the collapsing of loops
    the number of tokens plus one, the closing loop of a session the bytes left: that
    these are enough is part of the theorems.  The delivery of an outbox event makes
    at most the five attempts of the code.  A fenced
    update makes at most five Redis commands after its guard, the retry limits
    of the code being its constants.  Integers are unbounded, as in Python;
    SHA-1 and SHA-256 words are reduced modulo [2^32].

    ** Assumptions

    - Reading a stored cutover record back is pydantic's: the theorems are
      proved against the interface [RecordCodec], whose laws are that a
      validated record meets the field constraints and that a persisted
      well-formed record reads back; [CutoverCodec] is an instance.
    - Transcript decoders, field-path parsing, the merge of a map into a stored
      map ([merge_maps]), repairs and loaders of the queue are arguments.
    - Construction and dump of segment models (pydantic), the codec that
      encrypts a conversation's body and the deterministic relevance rules are
      arguments; what is relied on is stated with the theorems: construction
      and dump keep ids and speaker numbers, the codec reads back what it wrote
      and a body holds a receipt exactly when it decodes to one.
    - A transcript text is a list of code points whose character classes are
      arguments, subject to: the space is white space.
    - Clock readings, drawn tokens and identifiers are arguments; where a
      theorem needs a token to be new, it says so.
    - Sorting is [merge_sort]; nothing is asked of the order of elements that
      compare equal, where Python keeps the order they came in.
    - A JSON or YAML text is represented by the value it holds; [lower] and
      [strip] act on ASCII; floats are exact rationals.
    - Firestore transactions are atomic and leave nothing when they raise (in the
      retry of appends only those that it aborts, any other error may leave any
      state); Redis commands and Lua scripts are atomic.
    - The models of outbox events, memories and their control documents are read
      back by arguments; of bookkeeping writes it is asked that an event they were
      made to stays readable, and of a content hash that equal hashes are of contents
      equally blank.
    - Live audio arrives in whole samples; the answers of the speech service are
      arguments, and a failure of it ends the session.
    - The text of [json.dumps] that a commit's id digests is an argument of which
      nothing is asked.  The ledger's commits share their collection with
      content-free commits of the canonical stream, which have no mutations and
      are not part of the model's chain; purges are modelled on all documents.

    ** Not modelled, and the plan

    Network and storage clients, routers, provider sockets, metrics and logs
    decide nothing that is not in the modelled functions, and are left out.  Of
    the modelled files these parts are missing: the receipt reconciler and the
    last-attempt handler of the finalization service, the transport of pusher
    and webhooks, the segment decoding of the sync pipeline, route resolution
    and streaming of the gateway executor.

    Of the transcript files: rendering a transcript as text, the compression
    and encryption of the stored field, the other operations of the conversation
    store, and [resumable_continuation].

    Of the memory files: the canonical apply store but for the events of its
    deletions, extraction and the sweeps of memories.

    Of the live windows: the audio levels, speaker numbers of segments, posting and
    parsing, admission and the waits of the open loop.

    Next, in this order: the canonical apply store, the relevance rules an
    assignment consults ([utils/conversations/relevance_rules.py]), the lanes of
    sync uploads, the output budgets of the gateway, overage and
    fair-use accounting. *)
From Stdlib Require Export Ascii String.
From stdpp Require Export base tactics option list numbers strings pretty gmap sets.
From Stdlib Require Export ZArith Lia QArith Qround.

#[global] Set Default Goal Selector "!".
Open Scope Z_scope.

(** ** Results of fallible code

    A Python function that may raise is a function into [result E A]: [Raise e]
    stands for the exception leaving the function, and no write made before it
    inside a transaction is kept. *)

Inductive result (E A : Type) : Type :=
| Ok (a : A)
| Raise (e : E).
Arguments Ok {E A} a.
Arguments Raise {E A} e.

Definition rbind {E A B : Type} (m : result E A) (k : A -> result E B) : result E B :=
  match m with
  | Ok a => k a
  | Raise e => Raise e
  end.

Definition is_ok {E A : Type} (m : result E A) : bool :=
  match m with Ok _ => true | Raise _ => false end.

Declare Scope remi_scope.
Delimit Scope remi_scope with remi.
Notation "'let*' x ':=' m 'in' k" := (rbind m (fun x => k))
  (at level 10, x name, m at level 100, k at level 200) : remi_scope.
Notation "'let*' ' p ':=' m 'in' k" := (rbind m (fun x => match x with p => k end))
  (at level 10, p pattern, m at level 100, k at level 200) : remi_scope.
Open Scope remi_scope.

(** Counting the entries of a finite map that satisfy a boolean test. *)
Definition count_if {K A : Type} `{Countable K} (f : A -> bool) (m : gmap K A) : Z :=
  map_fold (fun _ a n => (if f a then 1 else 0) + n) 0 m.

(** The sum of an integer-valued function over a list. *)
Definition sum_over {A : Type} (f : A -> Z) (l : list A) : Z := foldr (fun x acc => f x + acc) 0 l.

(** ** Reachability of a step relation *)

Inductive reachable {S : Type} (init : S -> Prop) (step : S -> S -> Prop) : S -> Prop :=
| reach_init s : init s -> reachable init step s
| reach_step s s' : reachable init step s -> step s s' -> reachable init step s'.

Inductive star {S : Type} (step : S -> S -> Prop) : S -> S -> Prop :=
| star_refl s : star step s s
| star_step s1 s2 s3 : step s1 s2 -> star step s2 s3 -> star step s1 s3.

(** ** Tactics *)

(** Split the first conditional or match of the goal or of a hypothesis and
    drop the branches it makes contradictory. *)
Ltac split_guard :=
  first [ case_decide | case_bool_decide | case_match ]; simplify_eq/=.

(** Follow every branch of a definition that has been unfolded in the goal or
    in the hypotheses. *)
Ltac follow := repeat (split_guard; try discriminate; try congruence).

(** Boolean connectives and comparisons as propositions. *)
Ltac to_prop :=
  repeat match goal with
  | H : andb _ _ = true |- _ => apply andb_prop in H; destruct H
  | H : orb _ _ = false |- _ => apply orb_false_elim in H; destruct H
  | H : negb _ = true |- _ => apply negb_true_iff in H
  | H : negb _ = false |- _ => apply negb_false_iff in H
  | H : Z.eqb _ _ = true |- _ => apply Z.eqb_eq in H
  | H : Z.eqb _ _ = false |- _ => apply Z.eqb_neq in H
  | H : Z.leb _ _ = true |- _ => apply Z.leb_le in H
  | H : Z.leb _ _ = false |- _ => apply Z.leb_gt in H
  | H : Z.ltb _ _ = true |- _ => apply Z.ltb_lt in H
  | H : Z.ltb _ _ = false |- _ => apply Z.ltb_ge in H
  | H : String.eqb _ _ = true |- _ => apply String.eqb_eq in H
  | H : String.eqb _ _ = false |- _ => apply String.eqb_neq in H
  | H : bool_decide _ = true |- _ => apply bool_decide_eq_true in H
  | H : bool_decide _ = false |- _ => apply bool_decide_eq_false in H
  end.

(** Membership of a word in a literal list of words. *)
Ltac word_cases :=
  repeat match goal with
  | H : context [_ ∈ _ :: _] |- _ => rewrite !elem_of_cons in H
  | H : context [_ ∈ []] |- _ => rewrite !elem_of_nil in H
  end;
  rewrite ?elem_of_cons, ?elem_of_nil; intuition congruence.

(** A closed decidable proposition, by computation. *)
Ltac decided := apply (bool_decide_unpack _); vm_compute; exact I.

(** The lemmas that close the common side conditions, and the equations that
    compute counts and sums; each component adds its own. *)
Create HintDb remi discriminated.
Create Rewrite HintDb remi.
#[export] Hint Constructors star reachable : remi.

(** ** Lemmas on results *)

Lemma rbind_ok {E A B} (m : result E A) (k : A -> result E B) b :
  rbind m k = Ok b <-> exists a, m = Ok a /\ k a = Ok b.
Proof. destruct m; simpl; naive_solver. Qed.

Lemma rbind_raise {E A B} (m : result E A) (k : A -> result E B) e :
  rbind m k = Raise e <-> m = Raise e \/ exists a, m = Ok a /\ k a = Raise e.
Proof. destruct m; simpl; naive_solver. Qed.

Lemma ok_inj {E A} (a b : A) : Ok (E := E) a = Ok b -> a = b.
Proof. by intros [= ->]. Qed.

Lemma ok_pair {E A B} (a a' : A) (b b' : B) :
  Ok (E := E) (a, b) = Ok (a', b') -> a = a' /\ b = b'.
Proof. by intros [= -> ->]. Qed.

(** Turn every hypothesis [rbind m k = Ok b] into its parts. *)
Ltac inv_bind :=
  repeat match goal with
  | H : rbind _ _ = Ok _ |- _ =>
      apply rbind_ok in H; destruct H as (? & ? & H)
  end.

(** ** Lemmas on counting *)

Section count_if.
Context {K A : Type} `{Countable K}.
Implicit Types (f g h : A -> bool) (m : gmap K A).

Lemma count_if_empty f : count_if f (∅ : gmap K A) = 0.
Proof. unfold count_if. by rewrite map_fold_empty. Qed.

Lemma count_if_insert_fresh f m k a :
  m !! k = None -> count_if f (<[k := a]> m) = (if f a then 1 else 0) + count_if f m.
Proof.
  intros Hk. unfold count_if.
  rewrite map_fold_insert_L; [done| |done].
  intros; lia.
Qed.

Lemma count_if_delete f m k a :
  m !! k = Some a -> count_if f m = (if f a then 1 else 0) + count_if f (delete k m).
Proof.
  intros Hk. rewrite <- (insert_delete_id m k a) at 1 by done.
  apply count_if_insert_fresh. apply lookup_delete_eq.
Qed.

(** Replacing the entry of [k] moves the count by the difference of the two
    indicators. *)
Lemma count_if_update f m k a b :
  m !! k = Some a ->
  count_if f (<[k := b]> m) =
    count_if f m + (if f b then 1 else 0) - (if f a then 1 else 0).
Proof.
  intros Hk. rewrite <- insert_delete_eq, count_if_insert_fresh by apply lookup_delete_eq.
  rewrite (count_if_delete f m k a Hk). lia.
Qed.

(** Writing the entry of [k], present before or not. *)
Lemma count_if_insert f m k b :
  count_if f (<[k := b]> m) =
    count_if f m + (if f b then 1 else 0)
    - match m !! k with Some a => if f a then 1 else 0 | None => 0 end.
Proof.
  destruct (m !! k) as [a|] eqn:Hk; [by rewrite (count_if_update f m k a)|].
  rewrite count_if_insert_fresh by done. lia.
Qed.

Lemma count_if_nonneg f m : 0 <= count_if f m.
Proof.
  unfold count_if. apply (map_fold_weak_ind (fun n _ => 0 <= n)); [lia|].
  intros k a m' n _ ?. destruct (f a); lia.
Qed.

Lemma count_if_ext f g m :
  (forall k a, m !! k = Some a -> f a = g a) -> count_if f m = count_if g m.
Proof.
  induction m as [|k a m Hk IH] using map_ind; intros Heq; [done|].
  rewrite !count_if_insert_fresh by done. rewrite (Heq k a) by apply lookup_insert_eq.
  f_equal. apply IH. intros k' a' Hk'. apply (Heq k'). rewrite lookup_insert_ne; [done|congruence].
Qed.

Lemma count_if_add f g h m :
  (forall a, (if h a then 1 else 0) = (if f a then 1 else 0) + (if g a then 1 else 0)) ->
  count_if h m = count_if f m + count_if g m.
Proof.
  intros Hh. induction m as [|k a m Hk IH] using map_ind; [done|].
  rewrite !count_if_insert_fresh by done. rewrite Hh. lia.
Qed.
End count_if.

#[export] Hint Resolve count_if_nonneg : remi.
#[export] Hint Rewrite @count_if_empty : remi.

(** ** Lemmas on sums *)

#[export] Instance sum_over_proper {A : Type} :
  Proper (pointwise_relation A eq ==> eq ==> eq) (@sum_over A).
Proof.
  intros f g Hfg l l' <-. unfold sum_over. induction l as [|x l IH]; simpl; [done|]. by rewrite Hfg, IH.
Qed.

Section sums.
Context {A : Type}.
Implicit Types (f g : A -> Z) (l : list A).

Lemma sum_over_cons f x l : sum_over f (x :: l) = f x + sum_over f l.
Proof. done. Qed.

Lemma sum_over_app f l1 l2 : sum_over f (l1 ++ l2) = sum_over f l1 + sum_over f l2.
Proof. induction l1 as [|x l1 IH]; [done|]. simpl. rewrite IH. lia. Qed.

Lemma sum_over_zero l : sum_over (fun _ => 0) l = 0.
Proof. induction l as [|x l IH]; [done|]. by rewrite sum_over_cons, IH. Qed.

Lemma sum_over_nonneg f l : (forall x, x ∈ l -> 0 <= f x) -> 0 <= sum_over f l.
Proof.
  induction l as [|x l IH]; intros Hf; [done|]. rewrite sum_over_cons.
  specialize (Hf x ltac:(set_solver)) as Hx. specialize (IH ltac:(set_solver)). lia.
Qed.

Lemma sum_over_member f l y : (forall x, x ∈ l -> 0 <= f x) -> y ∈ l -> f y <= sum_over f l.
Proof.
  induction l as [|x l IH]; intros Hf Hy; [set_solver|]. rewrite sum_over_cons.
  assert (0 <= f x) by (apply Hf; set_solver).
  assert (0 <= sum_over f l) by (apply sum_over_nonneg; set_solver).
  apply elem_of_cons in Hy as [->|Hy]; [lia|]. specialize (IH ltac:(set_solver) Hy). lia.
Qed.

Lemma sum_over_le_length f l b : (forall x, x ∈ l -> f x <= b) -> sum_over f l <= b * Z.of_nat (length l).
Proof.
  induction l as [|x l IH]; intros Hf; [simpl; lia|]. rewrite sum_over_cons, length_cons.
  specialize (Hf x ltac:(set_solver)) as Hx. specialize (IH ltac:(set_solver)). lia.
Qed.

Lemma sum_over_add f g l : sum_over (fun x => f x + g x) l = sum_over f l + sum_over g l.
Proof. induction l as [|x l IH]; [done|]. rewrite !sum_over_cons, IH. lia. Qed.

Lemma sum_over_ext_in f g l : (forall x, x ∈ l -> f x = g x) -> sum_over f l = sum_over g l.
Proof.
  induction l as [|x l IH]; intros Hfg; [done|]. rewrite !sum_over_cons, IH by set_solver.
  by rewrite Hfg by set_solver.
Qed.

Lemma sum_over_map {B : Type} (f : A -> Z) (h : B -> A) (l : list B) :
  sum_over f (map h l) = sum_over (fun x => f (h x)) l.
Proof. induction l as [|x l IH]; [done|]. simpl. by rewrite IH. Qed.
End sums.

#[export] Hint Resolve sum_over_nonneg : remi.
#[export] Hint Rewrite @sum_over_cons @sum_over_app @sum_over_zero @sum_over_map : remi.

(** A sum of counts is the count of a sum. *)
Lemma sum_count_if {K A B} `{Countable K} (f : B -> A -> bool) (g : A -> bool) (m : gmap K A) (l : list B) :
  (forall k a, m !! k = Some a ->
     (if g a then 1 else 0) = sum_over (fun x => if f x a then 1 else 0) l) ->
  count_if g m = sum_over (fun x => count_if (f x) m) l.
Proof.
  induction m as [|k a m Hk IH] using map_ind; intros Hg.
  - rewrite count_if_empty. etrans; [symmetry; apply (sum_over_zero l)|].
    apply sum_over_ext_in. intros x _. by rewrite count_if_empty.
  - rewrite count_if_insert_fresh, (Hg k a), IH by (done || apply lookup_insert_eq ||
      (intros k' a' Hk'; apply (Hg k'); rewrite lookup_insert_ne; congruence)).
    rewrite <- sum_over_add. apply sum_over_ext_in. intros x _. by rewrite count_if_insert_fresh.
Qed.

(** ** Lemmas on step relations *)

Section steps.
Context {S : Type} (init : S -> Prop) (step : S -> S -> Prop).

Lemma reachable_ind_inv (P : S -> Prop) :
  (forall s, init s -> P s) -> (forall s s', P s -> step s s' -> P s') ->
  forall s, reachable init step s -> P s.
Proof. intros Hi Hs s Hr. induction Hr; eauto. Qed.

Lemma star_preserves (P : S -> Prop) :
  (forall s s', P s -> step s s' -> P s') -> forall s s', star step s s' -> P s -> P s'.
Proof. intros Hs s s' Hst. induction Hst; eauto. Qed.

Lemma star_trans s1 s2 s3 : star step s1 s2 -> star step s2 s3 -> star step s1 s3.
Proof. induction 1; eauto with remi. Qed.

Lemma reachable_star s s' : reachable init step s -> star step s s' -> reachable init step s'.
Proof. intros Hr Hst. induction Hst; eauto with remi. Qed.
End steps.
