(* ===== verification/PyValue.v ===== *)
(** Python values as a Firestore document holds them, the operators the
    handlers apply to them ([or], [int], [==], [isinstance]) and the field
    writes of a transaction ([update], [set(merge=True)], [DELETE_FIELD],
    [Increment]).  A document is a finite map from field names to values, so a
    handler is modelled on every document, the malformed ones included. *)
From S2P Require Export Prelude.

(** ** Values *)

(** Datetimes are timezone-aware instants in microseconds (Python's own
    resolution); floats are their exact rational value (NaN and infinities are
    not values of the type). *)
Inductive pyval : Type :=
| PNone
| PBool (b : bool)
| PInt (z : Z)
| PFloat (q : Q)
| PStr (s : string)
| PTime (us : Z)
| PList (l : list pyval)
| PDict (d : list (string * pyval)).

Abbreviation doc := (gmap string pyval).

(** The exceptions raised by the modelled built-in operations, with the
    message the code supplies where it supplies one. *)
Inductive pyexc : Type :=
| ValueError (msg : string)
| TypeError (msg : string)
| RuntimeError (msg : string)
| KeyError (key : string)
| AttributeError (msg : string)
| InvalidArgument (msg : string)
| Unavailable.

#[export] Instance pyexc_eq_dec : EqDecision pyexc.
Proof. solve_decision. Defined.

(** ** Characters and text *)

Definition is_space (c : ascii) : bool :=
  let n := Z.of_N (N_of_ascii c) in
  ((9 <=? n) && (n <=? 13)) || ((28 <=? n) && (n <=? 32)).

Definition lower_char (c : ascii) : ascii :=
  let n := N_of_ascii c in
  if ((65 <=? n) && (n <=? 90))%N then ascii_of_N (n + 32) else c.

Fixpoint drop_spaces (l : list ascii) : list ascii :=
  match l with
  | c :: r => if is_space c then drop_spaces r else l
  | [] => []
  end.

Definition strip_chars (l : list ascii) : list ascii :=
  reverse (drop_spaces (reverse (drop_spaces l))).

(** [s.strip()] and [s.lower()] on ASCII text. *)
Definition py_strip (s : string) : string :=
  string_of_list_ascii (strip_chars (list_ascii_of_string s)).

Definition py_lower (s : string) : string :=
  string_of_list_ascii (map lower_char (list_ascii_of_string s)).

Definition digit_value (c : ascii) : option Z :=
  let n := Z.of_N (N_of_ascii c) in
  if (48 <=? n) && (n <=? 57) then Some (n - 48) else None.

(** Decimal digits with single underscores between digits, as [int] reads. *)
Fixpoint parse_digits (after_digit : bool) (acc : Z) (l : list ascii) : option Z :=
  match l with
  | [] => if after_digit then Some acc else None
  | c :: r =>
      match digit_value c with
      | Some d => parse_digits true (10 * acc + d) r
      | None => if Ascii.eqb c "_" && after_digit then parse_digits false acc r else None
      end
  end.

(** [int(text)]; [None] is the [ValueError]. *)
Definition parse_int (s : string) : option Z :=
  match strip_chars (list_ascii_of_string s) with
  | "-"%char :: r => Z.opp <$> parse_digits false 0 r
  | "+"%char :: r => parse_digits false 0 r
  | l => parse_digits false 0 l
  end.

(** [s.split(sep)] for a one-character separator. *)
Fixpoint split_on (sep : ascii) (s : string) : list string :=
  match s with
  | EmptyString => [EmptyString]
  | String c r =>
      if Ascii.eqb c sep then EmptyString :: split_on sep r
      else match split_on sep r with
           | w :: ws => String c w :: ws
           | [] => [String c EmptyString]
           end
  end.

(** Rounding to an integer with ties to even, and [max] and [min]. *)
Definition round_half_even (y : Q) : Z :=
  let f := Qfloor y in
  let r := (y - inject_Z f)%Q in
  match (r ?= 1 # 2)%Q with
  | Lt => f
  | Gt => f + 1
  | Eq => if Z.even f then f else f + 1
  end.

Definition Qmax (a b : Q) : Q := if Qle_bool a b then b else a.
Definition Qmin (a b : Q) : Q := if Qle_bool a b then a else b.

(** Characters of a text held as UTF-8: the bytes that do not continue one. *)
Definition continues_char (c : ascii) : bool :=
  let n := Z.of_N (N_of_ascii c) in (128 <=? n) && (n <? 192).

(** [len(s)] *)
Fixpoint py_len (s : string) : Z :=
  match s with
  | EmptyString => 0
  | String c r => (if continues_char c then 0 else 1) + py_len r
  end.

(** [s[:n]] *)
Fixpoint py_take (n : nat) (s : string) : string :=
  match s with
  | EmptyString => EmptyString
  | String c r =>
      if continues_char c then String c (py_take n r)
      else match n with
           | O => EmptyString
           | S n' => String c (py_take n' r)
           end
  end.

(** [str(z)] for an integer. *)
Definition Z_to_string (z : Z) : string := pretty z.

(** ** Operators *)

Definition truthy (v : pyval) : bool :=
  match v with
  | PNone => false
  | PBool b => b
  | PInt z => negb (z =? 0)
  | PFloat q => negb (Qeq_bool q 0)
  | PStr s => negb (String.eqb s "")
  | PTime _ => true
  | PList l => match l with [] => false | _ => true end
  | PDict d => match d with [] => false | _ => true end
  end.

(** [v or w] *)
Definition py_or (v w : pyval) : pyval := if truthy v then v else w.

(** [int(v)] *)
Definition py_int (v : pyval) : result pyexc Z :=
  match v with
  | PBool b => Ok (Z.b2z b)
  | PInt z => Ok z
  | PFloat q => Ok (Z.quot (Qnum q) (Zpos (Qden q)))
  | PStr s =>
      match parse_int s with
      | Some z => Ok z
      | None => Raise (ValueError "invalid literal for int()")
      end
  | _ => Raise (TypeError "int() argument")
  end.

(** The number a value compares as ([True == 1 == 1.0]). *)
Definition as_number (v : pyval) : option Q :=
  match v with
  | PBool b => Some (inject_Z (Z.b2z b))
  | PInt z => Some (inject_Z z)
  | PFloat q => Some q
  | _ => None
  end.

Fixpoint assoc_value (k : string) (d : list (string * pyval)) : option pyval :=
  match d with
  | [] => None
  | (k', v) :: r => if String.eqb k k' then Some v else assoc_value k r
  end.

(** [v == w] *)
Fixpoint py_eqb (v w : pyval) : bool :=
  match as_number v, as_number w with
  | Some p, Some q => Qeq_bool p q
  | _, _ =>
      match v, w with
      | PNone, PNone => true
      | PStr s, PStr t => String.eqb s t
      | PTime a, PTime b => a =? b
      | PList l, PList m =>
          (fix eq_list l m :=
             match l, m with
             | [], [] => true
             | x :: l', y :: m' => py_eqb x y && eq_list l' m'
             | _, _ => false
             end) l m
      | PDict d, PDict e =>
          Nat.eqb (length d) (length e) &&
          (fix sub d :=
             match d with
             | [] => true
             | (k, x) :: d' =>
                 match assoc_value k e with Some y => py_eqb x y | None => false end && sub d'
             end) d
      | _, _ => false
      end
  end.

Definition is_str (v : pyval) (s : string) : bool :=
  match v with PStr t => String.eqb t s | _ => false end.

(** [isinstance(v, str)], [isinstance(v, datetime)], [isinstance(v, int)]:
    the value, when the test succeeds ([bool] is a subclass of [int]). *)
Definition as_str (v : pyval) : option string :=
  match v with PStr s => Some s | _ => None end.
Definition as_time (v : pyval) : option Z :=
  match v with PTime t => Some t | _ => None end.
Definition as_int (v : pyval) : option Z :=
  match v with PInt z => Some z | PBool b => Some (Z.b2z b) | _ => None end.

(** A non-empty string, or nothing: [isinstance(v, str) and v]. *)
Definition nonempty_str (v : pyval) : option string :=
  match v with
  | PStr s => if String.eqb s "" then None else Some s
  | _ => None
  end.

(** [str(v)].  The text of a float, a datetime or a container is only ever
    compared with a fixed set of words in the modelled code; it is represented
    by the name of its type in angle brackets, which is none of them. *)
Definition py_str (v : pyval) : string :=
  match v with
  | PNone => "None"
  | PBool true => "True"
  | PBool false => "False"
  | PInt z => Z_to_string z
  | PStr s => s
  | PFloat _ => "<float>"
  | PTime _ => "<datetime>"
  | PList _ => "<list>"
  | PDict _ => "<dict>"
  end.

(** ** Documents *)

(** [d.get(k)] *)
Definition py_get (d : doc) (k : string) : pyval := default PNone (d !! k).

(** [int(d.get(k) or dflt)] *)
Definition get_int_or (d : doc) (k : string) (dflt : Z) : result pyexc Z :=
  py_int (py_or (py_get d k) (PInt dflt)).

(** [str(d.get(k) or dflt)] *)
Definition get_str_or (d : doc) (k dflt : string) : string :=
  py_str (py_or (py_get d k) (PStr dflt)).

(** What a transaction writes to one field. *)
Inductive field_write : Type :=
| Put (v : pyval)
| DeleteField
| Increment (n : Z).

(** Entries of a write dictionary. *)
Definition put_str (k v : string) : string * field_write := (k, Put (PStr v)).
Definition put_int (k : string) (v : Z) : string * field_write := (k, Put (PInt v)).
Definition put_time (k : string) (v : Z) : string * field_write := (k, Put (PTime v)).
Definition put_bool (k : string) (v : bool) : string * field_write := (k, Put (PBool v)).
Definition put_none (k : string) : string * field_write := (k, Put PNone).
Definition delete_key (k : string) : string * field_write := (k, DeleteField).

Definition apply_field (old : option pyval) (w : field_write) : option pyval :=
  match w with
  | Put v => Some v
  | DeleteField => None
  | Increment n =>
      match old with
      | Some (PInt z) => Some (PInt (z + n))
      | Some (PFloat q) => Some (PFloat (q + inject_Z n))
      | _ => Some (PInt n)
      end
  end.

Definition write_field (d : doc) (kw : string * field_write) : doc :=
  match apply_field (d !! kw.1) kw.2 with
  | Some v => <[kw.1 := v]> d
  | None => delete kw.1 d
  end.

(** [transaction.update(ref, fields)], and [set(ref, fields, merge=True)] on an
    existing document. *)
Definition doc_update (d : doc) (ws : list (string * field_write)) : doc :=
  foldl write_field d ws.

(** [transaction.set(ref, fields)] *)
Definition doc_set (ws : list (string * field_write)) : doc := doc_update ∅ ws.

(** ** Lemmas *)

Lemma lookup_write_field d kw k :
  write_field d kw !! k =
    if String.eqb k kw.1 then apply_field (d !! k) kw.2 else d !! k.
Proof.
  destruct kw as [k' w]; unfold write_field; simpl.
  destruct (String.eqb_spec k k') as [->|Hne].
  - destruct (apply_field (d !! k') w); simplify_map_eq; done.
  - destruct (apply_field (d !! k') w); by simplify_map_eq.
Qed.

(** A field after an update is the last write to it, or its old value. *)
Lemma lookup_doc_update d ws k :
  doc_update d ws !! k =
    foldl (fun o kw => if String.eqb k kw.1 then apply_field o kw.2 else o) (d !! k) ws.
Proof.
  revert d. induction ws as [|kw ws IH]; intros d; [done|].
  unfold doc_update in *; simpl. by rewrite IH, lookup_write_field.
Qed.

Lemma py_get_update d ws k :
  py_get (doc_update d ws) k =
    default PNone
      (foldl (fun o kw => if String.eqb k kw.1 then apply_field o kw.2 else o) (d !! k) ws).
Proof. unfold py_get. by rewrite lookup_doc_update. Qed.

(** A field no write names keeps its value. *)
Lemma py_get_update_other d ws k :
  Forall (fun kw => String.eqb k kw.1 = false) ws -> py_get (doc_update d ws) k = py_get d k.
Proof.
  intros Hws. rewrite py_get_update. unfold py_get. f_equal.
  induction Hws as [|kw ws Hk _ IH]; simpl; [done|]. by rewrite Hk.
Qed.

(** Read concrete fields of an updated document. *)
Ltac doc_simpl :=
  repeat match goal with
  | |- context [py_get (doc_update _ _) _] =>
      rewrite py_get_update; cbn [foldl String.eqb Ascii.eqb Bool.eqb fst snd apply_field default
        put_str put_int put_time put_bool put_none delete_key]
  | H : context [py_get (doc_update _ _) _] |- _ =>
      rewrite py_get_update in H;
      cbn [foldl String.eqb Ascii.eqb Bool.eqb fst snd apply_field default
        put_str put_int put_time put_bool put_none delete_key] in H
  end;
  repeat match goal with
  | |- context [default PNone (?d !! ?k)] => change (default PNone (d !! k)) with (py_get d k)
  | H : context [default PNone (?d !! ?k)] |- _ =>
      change (default PNone (d !! k)) with (py_get d k) in H
  end.

Lemma is_str_spec v s : is_str v s = true <-> v = PStr s.
Proof.
  destruct v; simpl; try (split; congruence).
  rewrite String.eqb_eq. split; congruence.
Qed.

Lemma py_or_str_nonempty s w : s <> "" -> py_or (PStr s) w = PStr s.
Proof. intros Hs. unfold py_or. simpl. by destruct (String.eqb_spec s ""). Qed.

Lemma py_eqb_str v s : py_eqb v (PStr s) = is_str v s.
Proof. by destruct v. Qed.
