(* ===== verification/Text.v ===== *)
(** Text lemmas: stripping and lower-casing, and the decimal digits that
    [str] prints and [int] reads back; runs of digits and prefixes. *)
From S2P Require Export PyValue.

(** ** Text *)

Lemma is_space_lower c : is_space (lower_char c) = is_space c.
Proof. by destruct c as [[] [] [] [] [] [] [] []]. Qed.

Lemma lower_lower c : lower_char (lower_char c) = lower_char c.
Proof. by destruct c as [[] [] [] [] [] [] [] []]. Qed.

Lemma drop_spaces_lower l : drop_spaces (map lower_char l) = map lower_char (drop_spaces l).
Proof.
  induction l as [|c l IH]; simpl; [done|]. rewrite is_space_lower. by destruct (is_space c).
Qed.

Lemma strip_lower l : strip_chars (map lower_char l) = map lower_char (strip_chars l).
Proof.
  unfold strip_chars. rewrite drop_spaces_lower.
  change (map lower_char) with (fmap (M := list) lower_char).
  rewrite <- fmap_reverse. change (fmap (M := list) lower_char) with (map lower_char).
  rewrite drop_spaces_lower. change (map lower_char) with (fmap (M := list) lower_char).
  by rewrite fmap_reverse.
Qed.

(** A list that does not start with a space. *)
Definition starts_solid (l : list ascii) : Prop :=
  match l with c :: _ => is_space c = false | [] => True end.

Lemma drop_spaces_solid l : starts_solid l -> drop_spaces l = l.
Proof. destruct l as [|c l]; simpl; [done|]. by intros ->. Qed.

Lemma starts_solid_drop l : starts_solid (drop_spaces l).
Proof. induction l as [|c l IH]; simpl; [done|]. destruct (is_space c) eqn:Hc; [done|]. exact Hc. Qed.

Lemma drop_spaces_suffix l : exists p, l = p ++ drop_spaces l.
Proof.
  induction l as [|c l [p IH]]; [by exists []|]. simpl. destruct (is_space c).
  - exists (c :: p). simpl. by rewrite <- IH.
  - by exists [].
Qed.

Lemma starts_solid_prefix l k : starts_solid (l ++ k) -> starts_solid l.
Proof. by destruct l. Qed.

Lemma strip_solid l :
  starts_solid l -> starts_solid (reverse l) -> strip_chars l = l.
Proof.
  intros Hl Hr. unfold strip_chars. by rewrite (drop_spaces_solid l), drop_spaces_solid, reverse_involutive.
Qed.

Lemma strip_strip l : strip_chars (strip_chars l) = strip_chars l.
Proof.
  apply strip_solid.
  - unfold strip_chars. destruct (drop_spaces_suffix (reverse (drop_spaces l))) as [p Hp].
    apply (f_equal reverse) in Hp. rewrite reverse_involutive, reverse_app in Hp.
    apply (starts_solid_prefix _ (reverse p)). rewrite <- Hp. apply starts_solid_drop.
  - unfold strip_chars. rewrite reverse_involutive. apply starts_solid_drop.
Qed.

(** ** Numbers in text *)

Definition is_digit (c : ascii) : Prop := is_Some (digit_value c).

Lemma pretty_N_char_value x : (x < 10)%N -> digit_value (pretty_N_char x) = Some (Z.of_N x).
Proof.
  intros Hx. assert (x = 0 \/ x = 1 \/ x = 2 \/ x = 3 \/ x = 4 \/ x = 5 \/ x = 6 \/ x = 7 \/ x = 8 \/ x = 9)%N
    as Hc by lia.
  by destruct Hc as [->|[->|[->|[->|[->|[->|[->|[->|[->| ->]]]]]]]]].
Qed.

Lemma parse_pretty_go x : forall b s, (0 < x)%N ->
  parse_digits b 0 (list_ascii_of_string (pretty_N_go x s)) =
  parse_digits true (Z.of_N x) (list_ascii_of_string s).
Proof.
  induction (N.lt_wf_0 x) as [x _ IH]. intros b s Hx. rewrite pretty_N_go_step by done.
  pose proof (N.mod_lt x 10 ltac:(lia)) as Hm.
  pose proof (N.div_mod' x 10) as Hdm.
  destruct (decide (x / 10 = 0)%N) as [Hz|Hnz].
  - rewrite Hz, pretty_N_go_0. cbn [list_ascii_of_string parse_digits].
    rewrite pretty_N_char_value by done. f_equal. lia.
  - rewrite IH by (try apply N.div_lt; lia). cbn [list_ascii_of_string parse_digits].
    rewrite pretty_N_char_value by done. f_equal. lia.
Qed.

Lemma digits_pretty_go x : forall s, Forall is_digit (list_ascii_of_string s) ->
  Forall is_digit (list_ascii_of_string (pretty_N_go x s)).
Proof.
  induction (N.lt_wf_0 x) as [x _ IH]. intros s Hs.
  destruct (decide (x = 0)%N) as [->|Hx]; [by rewrite pretty_N_go_0|].
  rewrite pretty_N_go_step by lia. apply IH; [apply N.div_lt; lia|].
  cbn [list_ascii_of_string]. constructor; [|done].
  exists (Z.of_N (x mod 10)). apply pretty_N_char_value. apply N.mod_lt. lia.
Qed.

Lemma pretty_nonneg n : 0 <= n ->
  Z_to_string n = "0" \/ exists x, (0 < x)%N /\ n = Z.of_N x /\ Z_to_string n = pretty_N_go x "".
Proof.
  intros Hn. destruct n as [|p|p]; [by left| |lia]. right. exists (Npos p).
  split; [lia|]. split; [done|]. reflexivity.
Qed.

Lemma digits_pretty n : 0 <= n -> Forall is_digit (list_ascii_of_string (Z_to_string n)).
Proof.
  intros [->|(x & _ & _ & ->)]%pretty_nonneg.
  - repeat constructor. by exists 0.
  - apply digits_pretty_go. constructor.
Qed.

Lemma digit_solid c : is_digit c -> is_space c = false.
Proof. intros [z Hz]. destruct c as [[] [] [] [] [] [] [] []]; done. Qed.

Lemma digit_not_plus c : is_digit c -> Ascii.eqb c "+" = false.
Proof. intros [z Hz]. by destruct c as [[] [] [] [] [] [] [] []]. Qed.

Lemma digits_solid l : Forall is_digit l -> starts_solid l.
Proof. destruct 1; simpl; [done|]. by apply digit_solid. Qed.

Lemma parse_int_digits l :
  Forall is_digit (list_ascii_of_string l) ->
  parse_int l = parse_digits false 0 (list_ascii_of_string l).
Proof.
  intros Hd. unfold parse_int.
  rewrite strip_solid by (apply digits_solid; rewrite ?Forall_reverse; done).
  destruct Hd as [|c r Hc _]; [done|]. destruct Hc as [z Hz].
  destruct c as [[] [] [] [] [] [] [] []]; done.
Qed.

Lemma parse_int_pretty n : 0 <= n -> parse_int (Z_to_string n) = Some n.
Proof.
  intros Hn. rewrite parse_int_digits by (by apply digits_pretty).
  destruct (pretty_nonneg n Hn) as [Heq|(x & Hx & -> & Heq)]; rewrite Heq.
  - destruct n as [|p|p]; [done| |lia]. exfalso.
    assert (Z_to_string (Zpos p) = Z_to_string 0) as E by done. by apply (inj pretty) in E.
  - rewrite parse_pretty_go by done. done.
Qed.

(** ** Runs of digits and prefixes *)

(** The value of a non-empty run of decimal digits. *)
Fixpoint digits_value (acc : Z) (l : list ascii) : option Z :=
  match l with
  | [] => Some acc
  | c :: r => match digit_value c with Some d => digits_value (10 * acc + d) r | None => None end
  end.

Definition parse_number (s : string) : option Z :=
  match list_ascii_of_string s with
  | [] => None
  | l => digits_value 0 l
  end.

(** [s.removeprefix(p)] when [s] starts with [p]. *)
Fixpoint without_prefix (p s : string) : option string :=
  match p, s with
  | EmptyString, _ => Some s
  | String a p', String b s' => if Ascii.eqb a b then without_prefix p' s' else None
  | _, _ => None
  end.
