(* ===== verification/Sha256.v ===== *)
(** [hashlib.sha256] on byte strings, as the document-id and shard helpers use
    it: FIPS 180-4 on 32-bit words written as [Z] with the wrap-around explicit. *)
From S2P Require Export Prelude.

Definition w32 (x : Z) : Z := x mod 4294967296.
Definition rotr (n x : Z) : Z := Z.lor (Z.shiftr x n) (w32 (Z.shiftl x (32 - n))).

(** The primes below a bound, by trial division. *)
Definition is_prime (n : Z) : bool :=
  forallb (fun d => negb (n mod Z.of_nat d =? 0)) (seq 2 (Z.to_nat (n - 2))).

Definition primes_below (n : nat) : list Z := filter is_prime (map Z.of_nat (seq 2 (n - 2))).

(** The integer cube root, bit by bit from the top. *)
Fixpoint cube_root (bits : nat) (x r : Z) : Z :=
  match bits with
  | O => r
  | S n => let r' := r + 2 ^ Z.of_nat n in cube_root n x (if r' ^ 3 <=? x then r' else r)
  end.

(** The constants are the first 32 fractional bits of the cube roots of the
    first 64 primes, and of the square roots of the first 8. *)
Definition round_constants : list Z :=
  Eval vm_compute in map (fun p => w32 (cube_root 40 (p * 2 ^ 96) 0)) (primes_below 312).

Definition initial_constant (i : nat) : Z := w32 (Z.sqrt (nth i (primes_below 20) 0 * 2 ^ 64)).

Record words8 := Words8 { wa : Z; wb : Z; wc : Z; wd : Z; we : Z; wf : Z; wg : Z; wh : Z }.

Definition initial_words : words8 :=
  Eval vm_compute in
  Words8 (initial_constant 0) (initial_constant 1) (initial_constant 2) (initial_constant 3)
         (initial_constant 4) (initial_constant 5) (initial_constant 6) (initial_constant 7).

(** Big-endian bytes of a word, and words of a byte block. *)
Definition be_bytes (n : nat) (x : Z) : list Z :=
  map (fun i => Z.land (Z.shiftr x (8 * Z.of_nat (n - 1 - i))) 255) (seq 0 n).

Definition be_word (bs : list Z) : Z := foldl (fun acc b => acc * 256 + b) 0 bs.

Fixpoint chunks (fuel n : nat) (l : list Z) : list (list Z) :=
  match fuel with
  | O => []
  | S fuel' => match l with [] => [] | _ => take n l :: chunks fuel' n (drop n l) end
  end.

(** One 0x80 byte, zeros up to 56 modulo 64, the bit length on eight bytes. *)
Definition pad (msg : list Z) : list Z :=
  let len := length msg in
  let zeros := Z.to_nat ((55 - Z.of_nat len) mod 64) in
  msg ++ [128] ++ replicate zeros 0 ++ be_bytes 8 (8 * Z.of_nat len).

(** The message schedule, newest word first. *)
Fixpoint schedule (n : nat) (ws : list Z) : list Z :=
  match n with
  | O => ws
  | S n' =>
      let x15 := nth 14 ws 0 in
      let x2 := nth 1 ws 0 in
      let s0 := Z.lxor (Z.lxor (rotr 7 x15) (rotr 18 x15)) (Z.shiftr x15 3) in
      let s1 := Z.lxor (Z.lxor (rotr 17 x2) (rotr 19 x2)) (Z.shiftr x2 10) in
      schedule n' (w32 (nth 15 ws 0 + s0 + nth 6 ws 0 + s1) :: ws)
  end.

Definition sha_round (v : words8) (kw : Z * Z) : words8 :=
  let '(k, w) := kw in
  let s1 := Z.lxor (Z.lxor (rotr 6 (we v)) (rotr 11 (we v))) (rotr 25 (we v)) in
  let ch := Z.lxor (Z.land (we v) (wf v)) (Z.land (4294967295 - we v) (wg v)) in
  let t1 := w32 (wh v + s1 + ch + k + w) in
  let s0 := Z.lxor (Z.lxor (rotr 2 (wa v)) (rotr 13 (wa v))) (rotr 22 (wa v)) in
  let maj := Z.lxor (Z.lxor (Z.land (wa v) (wb v)) (Z.land (wa v) (wc v))) (Z.land (wb v) (wc v)) in
  let t2 := w32 (s0 + maj) in
  Words8 (w32 (t1 + t2)) (wa v) (wb v) (wc v) (w32 (wd v + t1)) (we v) (wf v) (wg v).

Definition compress (h : words8) (block : list Z) : words8 :=
  let ws := reverse (schedule 48 (reverse (map be_word (chunks 16 4 block)))) in
  let v := foldl sha_round h (combine round_constants ws) in
  Words8 (w32 (wa h + wa v)) (w32 (wb h + wb v)) (w32 (wc h + wc v)) (w32 (wd h + wd v))
         (w32 (we h + we v)) (w32 (wf h + wf v)) (w32 (wg h + wg v)) (w32 (wh h + wh v)).

Definition sha256_bytes (msg : list Z) : list Z :=
  let p := pad msg in
  let h := foldl compress initial_words (chunks (S (length p)) 64 p) in
  mjoin (map (be_bytes 4) [wa h; wb h; wc h; wd h; we h; wf h; wg h; wh h]).

Definition string_bytes (s : string) : list Z :=
  map (fun c => Z.of_N (N_of_ascii c)) (list_ascii_of_string s).

(** [hashlib.sha256(text.encode('utf-8')).digest()]; a [string] is the UTF-8
    byte sequence of the text. *)
Definition sha256 (text : string) : list Z := sha256_bytes (string_bytes text).

Definition hex_digit (n : Z) : ascii :=
  ascii_of_N (Z.to_N (if n <? 10 then 48 + n else 87 + n)).

Definition hex_byte (b : Z) : string :=
  String (hex_digit (b / 16)) (String (hex_digit (b mod 16)) EmptyString).

Definition hex (bs : list Z) : string := String.concat "" (map hex_byte bs).

(** The published test vectors. *)
Example sha256_abc :
  hex (sha256 "abc") = "ba7816bf8f01cfea414140de5dae2223b00361a396177a9cb410ff61f20015ad".
Proof. vm_compute. reflexivity. Qed.

Example sha256_empty :
  hex (sha256 "") = "e3b0c44298fc1c149afbf4c8996fb92427ae41e4649b934ca495991b7852b855".
Proof. vm_compute. reflexivity. Qed.

(** The digest has 32 bytes, each below 256. *)
Lemma length_be_bytes n x : length (be_bytes n x) = n.
Proof. unfold be_bytes. by rewrite length_map, length_seq. Qed.

Lemma be_bytes_range n x : Forall (fun b => 0 <= b < 256) (be_bytes n x).
Proof.
  unfold be_bytes. apply Forall_map, Forall_true. intros i; simpl.
  rewrite (Z.land_ones _ 8) by lia. apply Z.mod_pos_bound. lia.
Qed.

Lemma length_sha256_bytes msg : length (sha256_bytes msg) = 32%nat.
Proof. unfold sha256_bytes; cbv zeta. generalize (foldl compress initial_words (chunks (S (length (pad msg))) 64 (pad msg))). reflexivity. Qed.

Lemma sha256_bytes_range msg : Forall (fun b => 0 <= b < 256) (sha256_bytes msg).
Proof.
  unfold sha256_bytes; cbv zeta.
  generalize (foldl compress initial_words (chunks (S (length (pad msg))) 64 (pad msg))); intros h.
  cbn [map mjoin list_join]. repeat (apply Forall_app; split; [apply be_bytes_range|]). constructor.
Qed.

Lemma be_word_range bs : Forall (fun b => 0 <= b < 256) bs -> 0 <= be_word bs.
Proof.
  unfold be_word. assert (Hg : forall acc, 0 <= acc -> Forall (fun b => 0 <= b < 256) bs ->
    0 <= foldl (fun acc b => acc * 256 + b) acc bs).
  { induction bs as [|b bs IH]; intros acc Ha Hb; simpl; [done|].
    apply Forall_cons in Hb as [? ?]. apply IH; [lia|done]. }
  intros. by apply Hg.
Qed.
