(* ===== verification/Sha1.v ===== *)
(** [uuid.uuid5], that is SHA-1 (FIPS 180-4) and the layout of a name-based
    UUID, as the stable ids of legacy transcript segments use it
    ([models/transcript_segment.py]).  Words are 32-bit values in [Z] with the
    wrap-around of Sha256.v. *)
From S2P Require Export Sha256.

Definition rotl (n x : Z) : Z := rotr (32 - n) x.

Record words5 := Words5 { ha : Z; hb : Z; hc : Z; hd : Z; he : Z }.

Definition sha1_initial : words5 := Words5 1732584193 4023233417 2562383102 271733878 3285377520.

(** The message schedule, newest word first. *)
Fixpoint sha1_schedule (n : nat) (ws : list Z) : list Z :=
  match n with
  | O => ws
  | S n' =>
      sha1_schedule n'
        (rotl 1 (Z.lxor (Z.lxor (nth 2 ws 0) (nth 7 ws 0)) (Z.lxor (nth 13 ws 0) (nth 15 ws 0))) :: ws)
  end.

(** The function and constant of round [t]. *)
Definition sha1_mix (t : nat) (b c d : Z) : Z * Z :=
  if (t <? 20)%nat then (Z.lxor (Z.land b c) (Z.land (4294967295 - b) d), 1518500249)
  else if (t <? 40)%nat then (Z.lxor (Z.lxor b c) d, 1859775393)
  else if (t <? 60)%nat then (Z.lxor (Z.lxor (Z.land b c) (Z.land b d)) (Z.land c d), 2400959708)
  else (Z.lxor (Z.lxor b c) d, 3395469782).

Definition sha1_round (v : words5) (tw : nat * Z) : words5 :=
  let '(t, w) := tw in
  let '(f, k) := sha1_mix t (hb v) (hc v) (hd v) in
  Words5 (w32 (rotl 5 (ha v) + f + he v + k + w)) (ha v) (rotl 30 (hb v)) (hc v) (hd v).

Definition sha1_compress (h : words5) (block : list Z) : words5 :=
  let ws := reverse (sha1_schedule 64 (reverse (map be_word (chunks 16 4 block)))) in
  let v := foldl sha1_round h (combine (seq 0 80) ws) in
  Words5 (w32 (ha h + ha v)) (w32 (hb h + hb v)) (w32 (hc h + hc v)) (w32 (hd h + hd v)) (w32 (he h + he v)).

Definition sha1_bytes (msg : list Z) : list Z :=
  let p := pad msg in
  let h := foldl sha1_compress sha1_initial (chunks (S (length p)) 64 p) in
  mjoin (map (be_bytes 4) [ha h; hb h; hc h; hd h; he h]).

Example sha1_abc : hex (sha1_bytes (string_bytes "abc")) = "a9993e364706816aba3e25717850c26c9cd0d89d".
Proof. vm_compute. reflexivity. Qed.

(** ** Name-based UUIDs *)

(** The first 16 bytes of the digest, with the version in byte 6 and the variant
    in byte 8. *)
Definition uuid5_bytes (namespace : list Z) (name : string) : list Z :=
  let d := take 16 (sha1_bytes (namespace ++ string_bytes name)) in
  take 6 d ++ [Z.lor (Z.land (nth 6 d 0) 15) 80; nth 7 d 0; Z.lor (Z.land (nth 8 d 0) 63) 128] ++ drop 9 d.

Definition uuid_text (d : list Z) : string :=
  hex (take 4 d) ++ "-" ++ hex (take 2 (drop 4 d)) ++ "-" ++ hex (take 2 (drop 6 d)) ++ "-"
  ++ hex (take 2 (drop 8 d)) ++ "-" ++ hex (drop 10 d).

(** [6ba7b811-9dad-11d1-80b4-00c04fd430c8]; the name-server namespace differs in
    its fourth byte. *)
Definition NAMESPACE_URL : list Z := [107; 167; 184; 17; 157; 173; 17; 209; 128; 180; 0; 192; 79; 212; 48; 200].

Example uuid5_python :
  uuid_text (uuid5_bytes (<[3%nat := 16]> NAMESPACE_URL) "python.org") = "886313e1-3b8a-5372-9b90-0c9aee199e5d".
Proof. vm_compute. reflexivity. Qed.

Definition legacy_conversation_segment_id (conversation_id : string) (index : Z) : string :=
  uuid_text (uuid5_bytes NAMESPACE_URL
    ("omi/conversations/" ++ conversation_id ++ "/transcript-segments/" ++ pretty index)).

(** The id is never empty. *)
Lemma legacy_id_nonempty conversation_id index : legacy_conversation_segment_id conversation_id index <> "".
Proof.
  unfold legacy_conversation_segment_id, uuid_text. destruct (hex (take 4 _)); discriminate.
Qed.
