(* ===== verification/FinalizationDecision.v ===== *)
(** The pure finalization reducer ([utils/conversations/finalization_decision.py])
    and the admission function the outbox transaction evaluates
    ([utils/conversations/lifecycle.py]: [_finalization_decision_state] and
    [_finalization_admission]). *)
From S2P Require Export PyValue.

(** ** Data *)

Inductive LifecyclePhase : Type :=
| IN_PROGRESS | PROCESSING | MERGING | COMPLETED | FAILED | DISCARDED.

#[export] Instance LifecyclePhase_eq_dec : EqDecision LifecyclePhase.
Proof. solve_decision. Defined.

Inductive FinalizationEvent : Type :=
| DISCONNECT | FINALIZE | REPROCESS | MERGE | MERGE_COMPLETED
| PROCESSING_COMPLETED | DISCARD | RESTART.

#[export] Instance FinalizationEvent_eq_dec : EqDecision FinalizationEvent.
Proof. solve_decision. Defined.

Definition TERMINAL_PHASES : list LifecyclePhase := [COMPLETED; FAILED; DISCARDED].

Record FinalizationDecisionState := MkDecisionState {
  phase : LifecyclePhase;
  terminal_outcome : option LifecyclePhase;
  emitted_fanout_keys : gset string;
}.

(** The dataclass defaults. *)
Definition initial_state : FinalizationDecisionState :=
  MkDecisionState IN_PROGRESS None ∅.

Definition is_terminal (s : FinalizationDecisionState) : bool :=
  bool_decide (phase s ∈ TERMINAL_PHASES).

Record FinalizationDecision := MkDecision {
  state : FinalizationDecisionState;
  fanout_key : option string;
  reason : string;
}.

Definition decision_same (s : FinalizationDecisionState) (why : string) : FinalizationDecision :=
  MkDecision s None why.

(** ** The reducer *)

Definition _terminal (s : FinalizationDecisionState) (p : LifecyclePhase) : FinalizationDecisionState :=
  match terminal_outcome s with
  | Some _ => s
  | None => MkDecisionState p (Some p) (emitted_fanout_keys s)
  end.

(** [fanout_key or f'conversation:{conversation_id}:finalization'] *)
Definition admission_key (conversation_id : string) (key : option string) : string :=
  match key with
  | Some k => if String.eqb k "" then "conversation:" ++ conversation_id ++ ":finalization" else k
  | None => "conversation:" ++ conversation_id ++ ":finalization"
  end%string.

Definition _admit_finalization (s : FinalizationDecisionState) (conversation_id : string)
    (key : option string) : FinalizationDecision :=
  let k := admission_key conversation_id key in
  if decide (k ∈ emitted_fanout_keys s) then decision_same s "duplicate_finalization"
  else MkDecision (MkDecisionState PROCESSING None (emitted_fanout_keys s ∪ {[k]})) (Some k) "accepted".

Definition decide_finalization (s : FinalizationDecisionState) (event : FinalizationEvent)
    (conversation_id : string) (key : option string) : FinalizationDecision :=
  if is_terminal s then decision_same s "terminal" else
  match event with
  | DISCONNECT | FINALIZE =>
      if decide (phase s = IN_PROGRESS) then _admit_finalization s conversation_id key
      else decision_same s "already_finalizing"
  | PROCESSING_COMPLETED =>
      if decide (phase s = PROCESSING) then decision_same (_terminal s COMPLETED) "accepted"
      else decision_same s "invalid_transition"
  | DISCARD =>
      if decide (phase s ∈ [IN_PROGRESS; PROCESSING; MERGING])
      then decision_same (_terminal s DISCARDED) "accepted"
      else decision_same s "invalid_transition"
  | MERGE =>
      if decide (phase s = IN_PROGRESS)
      then decision_same (MkDecisionState MERGING None (emitted_fanout_keys s)) "accepted"
      else decision_same s "invalid_transition"
  | MERGE_COMPLETED =>
      if decide (phase s = MERGING) then decision_same (_terminal s COMPLETED) "accepted"
      else decision_same s "invalid_transition"
  | RESTART => decision_same s "restart_replays_state"
  | REPROCESS => decision_same s "reprocess_requires_new_generation"
  end.

(** A delivery order of events for one generation, with the fanout keys the
    reducer hands out. *)
Fixpoint run_events (s : FinalizationDecisionState) (conversation_id : string)
    (events : list (FinalizationEvent * option string)) : FinalizationDecisionState * list string :=
  match events with
  | [] => (s, [])
  | (e, key) :: rest =>
      let d := decide_finalization s e conversation_id key in
      let '(s', keys) := run_events (state d) conversation_id rest in
      (s', option_list (fanout_key d) ++ keys)
  end.

(** ** Admission against a stored conversation *)

Definition next_revision (conversation : doc) : result pyexc Z :=
  let* r := get_int_or conversation "finalization_revision" 0 in Ok (r + 1).

Definition finalization_fanout_key (conversation_id : string) (revision : Z) : string :=
  ("conversation:" ++ conversation_id ++ ":finalization:" ++ Z_to_string revision)%string.

Definition _finalization_decision_state (conversation : doc) (conversation_id : string)
    : result pyexc FinalizationDecisionState :=
  if truthy (py_get conversation "discarded")
  then Ok (MkDecisionState DISCARDED (Some DISCARDED) ∅)
  else
    let status := get_str_or conversation "status" "in_progress" in
    let* revision := next_revision conversation in
    let fk := finalization_fanout_key conversation_id revision in
    if String.eqb status "completed" then Ok (MkDecisionState COMPLETED (Some COMPLETED) ∅)
    else if String.eqb status "failed" then Ok (MkDecisionState FAILED (Some FAILED) ∅)
    else if String.eqb status "processing" then Ok (MkDecisionState PROCESSING None {[fk]})
    else Ok initial_state.

Record FinalizationAdmission := MkAdmission {
  accepted : bool;
  terminal : bool;
  admission_reason : string;
  admission_fanout_key : option string;
}.

Definition _finalization_admission (conversation : doc) (conversation_id : string)
    : result pyexc FinalizationAdmission :=
  let* revision := next_revision conversation in
  let fk := finalization_fanout_key conversation_id revision in
  let* s := _finalization_decision_state conversation conversation_id in
  let d := decide_finalization s FINALIZE conversation_id (Some fk) in
  Ok (MkAdmission (bool_decide (is_Some (fanout_key d))) (String.eqb (reason d) "terminal")
        (reason d) (fanout_key d)).

(** ** Specification: the lifecycle of one generation

    The phases a generation may pass through, whatever the events. *)
Inductive lifecycle_edge : LifecyclePhase -> LifecyclePhase -> Prop :=
| edge_finalize : lifecycle_edge IN_PROGRESS PROCESSING
| edge_merge : lifecycle_edge IN_PROGRESS MERGING
| edge_processed : lifecycle_edge PROCESSING COMPLETED
| edge_merged : lifecycle_edge MERGING COMPLETED
| edge_discard p : p ∈ [IN_PROGRESS; PROCESSING; MERGING] -> lifecycle_edge p DISCARDED.

(** States of a generation: a terminal phase is recorded as its own outcome,
    and keys have been handed out only once finalization was admitted. *)
Definition decision_wf (s : FinalizationDecisionState) : Prop :=
  terminal_outcome s = (if is_terminal s then Some (phase s) else None) /\
  (phase s = IN_PROGRESS \/ phase s = MERGING -> emitted_fanout_keys s = ∅).

(** ** Proofs *)

Lemma is_terminal_spec s :
  is_terminal s = true <-> phase s = COMPLETED \/ phase s = FAILED \/ phase s = DISCARDED.
Proof.
  unfold is_terminal, TERMINAL_PHASES. rewrite bool_decide_eq_true. set_solver.
Qed.

(** Case analysis of one reducer step: phase, outcome, keys and result. *)
Ltac reduce_decision :=
  unfold decide_finalization, _admit_finalization, decision_same, _terminal in *;
  repeat (split_guard; try done).

Lemma initial_state_wf : decision_wf initial_state.
Proof. split; [reflexivity|done]. Qed.

Lemma decide_terminal s e c k :
  is_terminal s = true -> decide_finalization s e c k = decision_same s "terminal".
Proof. intros Ht. unfold decide_finalization. by rewrite Ht. Qed.

Lemma not_terminal_phase s :
  is_terminal s = false -> phase s = IN_PROGRESS \/ phase s = PROCESSING \/ phase s = MERGING.
Proof.
  unfold is_terminal, TERMINAL_PHASES. rewrite bool_decide_eq_false.
  destruct (phase s); set_solver.
Qed.

Lemma decide_preserves_wf s e c k :
  decision_wf s -> decision_wf (state (decide_finalization s e c k)).
Proof.
  intros Hwf. unfold decide_finalization. destruct (is_terminal s) eqn:Ht; [done|].
  pose proof Hwf as [Hout Hkeys]. rewrite Ht in Hout.
  unfold _terminal, _admit_finalization; rewrite Hout.
  destruct e; repeat case_decide; try exact Hwf; split; try reflexivity; simpl; auto;
    intros [Hp|Hp]; done.
Qed.

Lemma decide_emits_only_in_progress s e c k key :
  fanout_key (decide_finalization s e c k) = Some key ->
  phase s = IN_PROGRESS /\ phase (state (decide_finalization s e c k)) = PROCESSING /\
  (key ∉ emitted_fanout_keys s) /\
  emitted_fanout_keys (state (decide_finalization s e c k)) = emitted_fanout_keys s ∪ {[key]}.
Proof. unfold decide_finalization, _admit_finalization. follow; naive_solver. Qed.

Lemma decide_never_reopens s e c k :
  phase s <> IN_PROGRESS -> phase (state (decide_finalization s e c k)) <> IN_PROGRESS.
Proof.
  intros Hp. unfold decide_finalization, _admit_finalization, _terminal; follow; simpl; congruence.
Qed.

Lemma run_events_no_key s c events :
  phase s <> IN_PROGRESS -> (run_events s c events).2 = [].
Proof.
  revert s. induction events as [|[e k] events IH]; intros s Hp; simpl; [done|].
  destruct (run_events _ c events) as [s' keys] eqn:Hr; simpl.
  assert (keys = []) as -> by (change keys with ((s', keys).2); rewrite <- Hr;
    apply IH, decide_never_reopens, Hp).
  destruct (fanout_key _) eqn:Hk; [|done].
  apply decide_emits_only_in_progress in Hk as [? _]. done.
Qed.

Lemma run_events_terminal s c events :
  is_terminal s = true -> run_events s c events = (s, []).
Proof.
  intros Ht. induction events as [|[e k] events IH]; simpl; [done|].
  rewrite decide_terminal by done. simpl. by rewrite IH.
Qed.

(** C27: every step of the reducer is a stutter or one edge of the lifecycle. *)
Theorem decide_refines_lifecycle s e c k :
  decision_wf s ->
  let s' := state (decide_finalization s e c k) in
  s' = s \/ lifecycle_edge (phase s) (phase s').
Proof.
  intros [Hout _]. simpl. unfold decide_finalization.
  destruct (is_terminal s) eqn:Ht; [by left|].
  unfold _admit_finalization, _terminal; rewrite Hout.
  destruct e; repeat (case_decide; simpl); auto;
    try match goal with H : phase s = _ |- _ => rewrite H end;
    right; constructor; done.
Qed.
Lemma decide_refines_lifecycle_witness :
  let s' := state (decide_finalization initial_state FINALIZE "c1" None) in
  s' = initial_state \/ lifecycle_edge IN_PROGRESS (phase s').
Proof. apply (decide_refines_lifecycle initial_state FINALIZE "c1" None initial_state_wf). Defined.

(** However the events of one generation are duplicated and interleaved,
    and whatever keys the callers pass, the reducer hands out at most one
    durable fanout key. *)
Theorem at_most_one_fanout_key s c events :
  (length (run_events s c events).2 <= 1)%nat.
Proof.
  revert s. induction events as [|[e k] events IH]; intros s; simpl; [lia|].
  destruct (run_events _ c events) as [s' keys] eqn:Hr; simpl.
  destruct (fanout_key _) as [key|] eqn:Hk; simpl.
  - apply decide_emits_only_in_progress in Hk as (_ & Hp & _).
    assert (keys = []) as -> by (change keys with ((s', keys).2); rewrite <- Hr;
      apply run_events_no_key; congruence). simpl; lia.
  - change keys with ((s', keys).2). rewrite <- Hr. apply IH.
Qed.

(** The first terminal outcome wins: once a generation is terminal, no later
    event changes its state or emits a key. *)
Theorem terminal_is_absorbing s c events1 events2 :
  is_terminal (run_events s c events1).1 = true ->
  run_events s c (events1 ++ events2) = run_events s c events1.
Proof.
  revert s. induction events1 as [|[e k] events1 IH]; intros s Ht; simpl in *.
  - by apply run_events_terminal.
  - destruct (run_events _ c events1) as [s1 keys1] eqn:Hr1; simpl in *.
    rewrite IH by (by rewrite Hr1). by rewrite Hr1.
Qed.
Lemma terminal_is_absorbing_witness :
  let evs := [(FINALIZE, None); (PROCESSING_COMPLETED, None)] in
  run_events initial_state "c1" (evs ++ [(DISCARD, None); (FINALIZE, None)]) =
  run_events initial_state "c1" evs.
Proof. apply terminal_is_absorbing. vm_compute. reflexivity. Defined.

Lemma admission_accepts conversation c adm :
  _finalization_admission conversation c = Ok adm ->
  (accepted adm = true <->
     truthy (py_get conversation "discarded") = false /\
     get_str_or conversation "status" "in_progress" ∉ ["completed"; "failed"; "processing"]) /\
  (terminal adm = true <->
     truthy (py_get conversation "discarded") = true \/
     get_str_or conversation "status" "in_progress" ∈ ["completed"; "failed"]) /\
  (forall key, admission_fanout_key adm = Some key ->
     exists rev, next_revision conversation = Ok rev /\ key = finalization_fanout_key c rev).
Proof.
  unfold _finalization_admission, _finalization_decision_state. intros H.
  apply rbind_ok in H as (rev & Hrev & H). rewrite Hrev in H. simpl in H.
  destruct (truthy _) eqn:Hd; simpl in H.
  - injection H as <-; simpl. split; [naive_solver|]. split; [naive_solver|done].
  - destruct (String.eqb_spec (get_str_or conversation "status" "in_progress") "completed") as [->|Hc];
      [|destruct (String.eqb_spec (get_str_or conversation "status" "in_progress") "failed") as [->|Hf];
      [|destruct (String.eqb_spec (get_str_or conversation "status" "in_progress") "processing") as [->|Hp]]];
      simpl in H.
    1-3: injection H as <-; simpl; split; [|split]; [word_cases..|done].
    assert (Hk : finalization_fanout_key c rev <> "") by done.
    unfold decide_finalization, _admit_finalization, admission_key in H; simpl in H.
    rewrite decide_False in H by apply not_elem_of_empty.
    injection H as <-; simpl. split; [|split]; [word_cases..|naive_solver].
Qed.

(** What [_finalization_admission] accepts, from the stored row alone. *)
Theorem admission_accepts_iff conversation c adm :
  _finalization_admission conversation c = Ok adm ->
  (accepted adm = true <->
     truthy (py_get conversation "discarded") = false /\
     get_str_or conversation "status" "in_progress" ∉ ["completed"; "failed"; "processing"]) /\
  (terminal adm = true <->
     truthy (py_get conversation "discarded") = true \/
     get_str_or conversation "status" "in_progress" ∈ ["completed"; "failed"]) /\
  (forall key, admission_fanout_key adm = Some key ->
     exists rev, next_revision conversation = Ok rev /\ key = finalization_fanout_key c rev).
Proof. apply admission_accepts. Qed.
Lemma admission_accepts_iff_witness :
  truthy (py_get (∅ : doc) "discarded") = false /\
  (get_str_or ∅ "status" "in_progress" ∉ ["completed"; "failed"; "processing"]).
Proof.
  apply (admission_accepts_iff ∅ "c1" (MkAdmission true false "accepted" (Some (finalization_fanout_key "c1" 1)))).
  - vm_compute. reflexivity.
  - reflexivity.
Defined.
