(* ===== verification/FinalizationStore.v ===== *)
(** The Firestore state behind durable conversation finalization
    ([database/conversation_finalization_jobs.py], lines 28-330): constants,
    bounded delays, document references, projection shards, intents, and the
    projection fields a caller may bind to a conversation
    ([database/conversations.py]). *)
From S2P Require Export PyValue Sha256 FinalizationDecision.

(** ** Constants *)

Definition FINALIZATION_PROJECTION_GENERATION : string := "terminal-outcomes-v1".
Definition FINALIZATION_PROJECTION_SHARD_COUNT : Z := 16.
Definition TERMINAL_JOB_STATUSES : list string := ["completed"; "dead_letter"].
Definition NONTERMINAL_JOB_STATUSES : list string := ["queued"; "leased"; "blocked_byok"].
Definition DEFAULT_LEASE_SECONDS : Z := 1500.
Definition DEFAULT_RECONCILE_STALE_SECONDS : Z := 300.
Definition DEFAULT_ORPHAN_RECONCILE_STALE_SECONDS : Z := 900.
Definition DEFAULT_BYOK_ABANDONED_AFTER_SECONDS : Z := 14 * 86400.
Definition BYOK_ABANDONED_FAILURE_CODE : string := "byok_session_abandoned".
Definition MEETING_RECEIPT_SCHEMA_VERSION : Z := 1.

(** [timedelta(seconds=n)] in microseconds. *)
Definition seconds (n : Z) : Z := n * 1000000.

Definition MEETING_RECEIPT_RECONCILE_AFTER : Z := seconds (10 * 60).

(** ** Bounded delays read from the environment *)

Abbreviation environ := (gmap string string).

(** [int(os.getenv(name, str(dflt)))], falling back on [ValueError]. *)
Definition env_int (env : environ) (name : string) (dflt : Z) : Z :=
  match env !! name with
  | None => dflt
  | Some raw => default dflt (parse_int raw)
  end.

Definition get_finalization_reconcile_stale_after (env : environ) : Z :=
  seconds (Z.max 30
    (env_int env "LISTEN_FINALIZATION_RECONCILE_STALE_SECONDS" DEFAULT_RECONCILE_STALE_SECONDS)).

Definition get_stale_processing_orphan_after (env : environ) : Z :=
  seconds (Z.min 86400 (Z.max 300
    (env_int env "LISTEN_FINALIZATION_ORPHAN_STALE_SECONDS" DEFAULT_ORPHAN_RECONCILE_STALE_SECONDS))).

Definition get_byok_abandoned_after (env : environ) : Z :=
  seconds (Z.min (90 * 86400) (Z.max 86400
    (env_int env "LISTEN_FINALIZATION_BYOK_ABANDONED_SECONDS" DEFAULT_BYOK_ABANDONED_AFTER_SECONDS))).

(** ** The store *)

(** A conversation row: its fields, whether its [photos] subcollection has a
    document, and the server's last write instant. *)
Record conversation_row := MkRow {
  row_fields : doc;
  row_has_photo : bool;
  row_update_time : Z;
}.

Record store := MkStore {
  jobs : gmap string doc;
  conversations : gmap (string * string) conversation_row;
  shards : gmap string doc;
  sweep_state : gmap string doc;
}.

Definition with_jobs (s : store) (m : gmap string doc) : store :=
  MkStore m (conversations s) (shards s) (sweep_state s).
Definition with_conversations (s : store) (m : gmap (string * string) conversation_row) : store :=
  MkStore (jobs s) m (shards s) (sweep_state s).
Definition with_shards (s : store) (m : gmap string doc) : store :=
  MkStore (jobs s) (conversations s) m (sweep_state s).
Definition with_sweep_state (s : store) (m : gmap string doc) : store :=
  MkStore (jobs s) (conversations s) (shards s) m.

(** [transaction.update(job_ref, fields)] on a job that was read as [job]. *)
Definition update_job (s : store) (job_id : string) (job : doc)
    (ws : list (string * field_write)) : store :=
  with_jobs s (<[job_id := doc_update job ws]> (jobs s)).

(** [transaction.update(conversation_ref, fields)] committed at [now]. *)
Definition update_conversation (s : store) (ref : string * string) (row : conversation_row)
    (ws : list (string * field_write)) (now : Z) : store :=
  with_conversations s
    (<[ref := MkRow (doc_update (row_fields row) ws) (row_has_photo row) now]> (conversations s)).

(** ** Claims and leases *)

Record FinalizationClaim := MkClaim {
  claim_status : string;
  claim_lease_epoch : option Z;
  claim_attempt_count : Z;
  claim_created_at : option Z;
}.

Definition _claim_result (status : string) : FinalizationClaim := MkClaim status None 0 None.

Definition _is_current_lease (job : doc) (dispatch_generation lease_epoch : Z) : result pyexc bool :=
  if is_str (py_get job "status") "leased" then
    let* generation := get_int_or job "dispatch_generation" 1 in
    if generation =? dispatch_generation then
      let* epoch := get_int_or job "lease_epoch" 0 in
      Ok (epoch =? lease_epoch)
    else Ok false
  else Ok false.

(** [isinstance(job.get('lease_expires_at'), datetime) and ... > now] *)
Definition lease_is_live (job : doc) (now : Z) : bool :=
  match as_time (py_get job "lease_expires_at") with
  | Some t => now <? t
  | None => false
  end.

(** ** Projection shards *)

Definition _projection_shard (job_id : string) : Z :=
  be_word (take 4 (sha256 job_id)) mod FINALIZATION_PROJECTION_SHARD_COUNT.

Definition two_digits (n : Z) : string :=
  if (0 <=? n) && (n <? 10) then ("0" ++ Z_to_string n)%string else Z_to_string n.

Definition _projection_shard_id (generation : string) (shard : Z) : string :=
  (generation ++ "-" ++ two_digits shard)%string.

Definition _projection_ref_for_job (job : doc) : option string :=
  match as_str (py_get job "projection_generation"), as_int (py_get job "projection_shard") with
  | Some generation, Some shard =>
      if String.eqb generation FINALIZATION_PROJECTION_GENERATION
         && (0 <=? shard) && (shard <? FINALIZATION_PROJECTION_SHARD_COUNT)
      then Some (_projection_shard_id generation shard)
      else None
  | _, _ => None
  end.

Definition nonzero_increments (deltas : list (string * Z)) : list (string * field_write) :=
  map (fun nd => (nd.1, Increment nd.2)) (List.filter (fun nd => negb (nd.2 =? 0)) deltas).

(** [transaction.set(shard_ref, fields, merge=True)]; every wrapper passes the
    projection collection. *)
Definition _record_projection_delta (s : store) (job : doc) (deltas : list (string * Z)) : store :=
  match _projection_ref_for_job job with
  | None => s
  | Some shard_ref =>
      match nonzero_increments deltas with
      | [] => s
      | incs =>
          let shard := default 0 (as_int (py_get job "projection_shard")) in
          let old := default ∅ (shards s !! shard_ref) in
          with_shards s
            (<[shard_ref := doc_update old
                 (("generation", Put (PStr FINALIZATION_PROJECTION_GENERATION))
                  :: ("shard", Put (PInt shard)) :: incs)]> (shards s))
      end
  end.

(** ** Identifiers *)

(** [uuid.UUID(bytes=digest[:16], version=4)] in its canonical text form. *)
Definition uuid4_of_bytes (b : list Z) : string :=
  let nthb i := nth i b 0 in
  let b6 := Z.lor 64 (Z.land (nthb 6%nat) 15) in
  let b8 := Z.lor 128 (Z.land (nthb 8%nat) 63) in
  (hex (take 4 b) ++ "-" ++ hex (take 2 (drop 4 b)) ++ "-" ++ hex [b6; nthb 7%nat] ++ "-"
   ++ hex [b8; nthb 9%nat] ++ "-" ++ hex (take 6 (drop 10 b)))%string.

Definition document_id_from_seed (seed : string) : string := uuid4_of_bytes (take 16 (sha256 seed)).

Definition _job_id (uid conversation_id : string) (revision : Z) : string :=
  document_id_from_seed
    ("listen-finalization:" ++ uid ++ ":" ++ conversation_id ++ ":" ++ Z_to_string revision)%string.

(** ** Intents *)

Record FinalizationIntent := MkIntent {
  intent_job_id : option string;
  intent_status : string;
  intent_generation : option Z;
  intent_requires_byok : bool;
  intent_fanout_key : option string;
  intent_created : bool;
}.

Definition _intent_from_job (job_id : string) (data : doc) (created : bool)
    : result pyexc FinalizationIntent :=
  let* generation := get_int_or data "dispatch_generation" 1 in
  Ok (MkIntent (Some job_id) (get_str_or data "status" "queued") (Some generation)
        (truthy (py_get data "requires_byok")) (as_str (py_get data "fanout_key")) created).

Definition _no_finalization_intent (status : string) : FinalizationIntent :=
  MkIntent None status None false None false.

(** ** Conversation content and bound projections *)

Definition PROJECTION_FAMILY_FIELDS : list string := ["client_processing"].
Definition CLIENT_PROCESSING_BIND_REPORT_KEY : string := "_client_processing_bind_report".
Definition _CALLER_LIFECYCLE_METADATA : list string := ["external_data"].

Inductive ProcessingTrigger : Type :=
| CAPTURE_END | CLIENT_FINALIZE | SYNC_UPDATE | FIRST_OPEN | USER_REPROCESS | TRIGGER_MERGE.

Definition trigger_value (t : ProcessingTrigger) : string :=
  match t with
  | CAPTURE_END => "capture_end"
  | CLIENT_FINALIZE => "client_finalize"
  | SYNC_UPDATE => "sync_update"
  | FIRST_OPEN => "first_open"
  | USER_REPROCESS => "user_reprocess"
  | TRIGGER_MERGE => "merge"
  end.

Inductive RelevancePolicy : Type := ASSESS | KEEP.

Record ProcessingMode := MkMode {
  run_now : bool;
  reprocess : bool;
  bypass_jit_first_open : bool;
  relevance : RelevancePolicy;
}.

Definition PROCESSING_MODES (t : ProcessingTrigger) : ProcessingMode :=
  match t with
  | CAPTURE_END => MkMode false false false ASSESS
  | CLIENT_FINALIZE => MkMode true false false ASSESS
  | SYNC_UPDATE => MkMode true true true ASSESS
  | FIRST_OPEN => MkMode true false false KEEP
  | USER_REPROCESS => MkMode true true true KEEP
  | TRIGGER_MERGE => MkMode true false false KEEP
  end.

Definition trigger_of_value (v : string) : option ProcessingTrigger :=
  find (fun t => String.eqb (trigger_value t) v)
    [CAPTURE_END; CLIENT_FINALIZE; SYNC_UPDATE; FIRST_OPEN; USER_REPROCESS; TRIGGER_MERGE].

Definition trigger_for_finalization_job (job : doc) : ProcessingTrigger :=
  let legacy := if truthy (py_get job "force_process") then CLIENT_FINALIZE else CAPTURE_END in
  match as_str (py_get job "processing_trigger") with
  | Some stored => default legacy (trigger_of_value stored)
  | None => legacy
  end.

Section content.
(** Code outside the repository: the strict transcript decoder ends in zlib
    and the user-key cipher ([None] is its decoding error), the digest hashes
    the canonical transcript, and the field-path parser is the Firestore
    SDK's ([None] is its parse error). *)
Context (decode_segments : string -> pyval -> bool -> option (list pyval)).
Context (transcript_sha256_for_binding : list pyval -> option string).
Context (field_path_parts : string -> option (list string)).

Definition raw_conversation_has_content (uid : string) (conversation : doc) : bool :=
  if truthy (py_get conversation "has_content") || truthy (py_get conversation "photos") then true
  else
    let raw := py_get conversation "transcript_segments" in
    if truthy raw then
      match decode_segments uid raw (truthy (py_get conversation "transcript_segments_compressed")) with
      | None => true
      | Some segments => negb (Nat.eqb (length segments) 0)
      end
    else false.

Definition _conversation_has_finalization_content (uid : string) (row : conversation_row) : bool :=
  raw_conversation_has_content uid (row_fields row) || row_has_photo row.

Definition _projection_digest (candidate : pyval) : pyval :=
  match candidate with
  | PDict d => default PNone (assoc_value "transcript_sha256" d)
  | _ => PNone
  end.

Definition _is_unbound_projection_field_path (key : string) : bool :=
  match field_path_parts key with
  | None => false
  | Some [] => false
  | Some (root :: rest) =>
      if decide (root ∈ PROJECTION_FAMILY_FIELDS)
      then negb (Nat.eqb (length rest) 0) || negb (String.eqb key root)
      else false
  end.

(** Whether one submitted projection field binds to the stored transcript. *)
Definition projection_binds (uid : string) (current : doc) (candidate : pyval) : bool :=
  match decode_segments uid (py_get current "transcript_segments")
          (truthy (py_get current "transcript_segments_compressed")) with
  | None => false
  | Some segments =>
      match transcript_sha256_for_binding segments with
      | None => false
      | Some expected => is_str (_projection_digest candidate) expected
      end
  end.

Definition extra_updates_with_bound_client_processing (uid : string) (current : doc)
    (extra_updates : option doc) : doc :=
  let updates := delete CLIENT_PROCESSING_BIND_REPORT_KEY (default ∅ extra_updates) in
  let updates := filter (fun kv => _is_unbound_projection_field_path kv.1 = false) updates in
  filter (fun kv => kv.1 ∉ PROJECTION_FAMILY_FIELDS \/ projection_binds uid current kv.2 = true) updates.

Definition _snapshot_bound_projection_updates (uid : string) (conversation : doc)
    (extra_updates : option doc) : doc :=
  filter (fun kv => kv.1 ∈ PROJECTION_FAMILY_FIELDS)
    (extra_updates_with_bound_client_processing uid conversation extra_updates).

Definition _non_projection_extra_updates (extra_updates : option doc) : doc :=
  filter (fun kv => kv.1 ∈ _CALLER_LIFECYCLE_METADATA) (default ∅ extra_updates).

(** [key.split('.', 1)[0]] *)
Fixpoint root_segment (key : string) : string :=
  match key with
  | EmptyString => EmptyString
  | String c rest => if Ascii.eqb c "." then EmptyString else String c (root_segment rest)
  end.

(** The fields written to the conversation: the bound projection, then the
    lifecycle keys outside the projection family. *)
Definition bound_conversation_updates (uid : string) (conversation : doc) (extra_updates : option doc)
    (lifecycle_updates : doc) : doc :=
  filter (fun kv => root_segment kv.1 ∉ PROJECTION_FAMILY_FIELDS) lifecycle_updates
  ∪ _snapshot_bound_projection_updates uid conversation extra_updates.

Definition _apply_snapshot_bound_projection (s : store) (ref : string * string)
    (row : option conversation_row) (extra_updates : option doc) (lifecycle_updates : doc)
    (now : Z) : store :=
  match row with
  | None => s
  | Some row =>
      let updates := bound_conversation_updates ref.1 (row_fields row) extra_updates lifecycle_updates in
      if decide (updates = ∅) then s
      else with_conversations s
             (<[ref := MkRow (updates ∪ row_fields row) (row_has_photo row) now]> (conversations s))
  end.
End content.
