(* ===== verification/FinalizationTxn.v ===== *)
(** The job transactions of [database/conversation_finalization_jobs.py]: each
    [_..._txn] body as a function on the store (a Firestore transaction commits
    all of its writes or, when it raises, none), and the public operation that
    runs it.  Times are arguments: the wrappers read the clock once. *)
From S2P Require Export FinalizationStore.

(** ** Admission: the outbox transaction *)

Section create_intent.
Context (decode_segments : string -> pyval -> bool -> option (list pyval)).
Context (transcript_sha256_for_binding : list pyval -> option string).
Context (field_path_parts : string -> option (list string)).

(** The job document admitted for a new generation. *)
Definition new_finalization_job (uid conversation_id : string) (revision : Z) (job_id status fanout : string)
    (requires_byok : bool) (client_platform : pyval) (trigger : ProcessingTrigger)
    (now stale_after : Z) : doc :=
  doc_set
    ([ put_int "schema_version" 1; put_str "uid" uid; put_str "conversation_id" conversation_id;
       put_int "finalization_revision" revision; put_str "status" status;
       put_bool "requires_byok" requires_byok; ("client_platform", Put client_platform);
       put_str "processing_trigger" (trigger_value trigger);
       put_bool "force_process" (run_now (PROCESSING_MODES trigger));
       put_str "fanout_key" fanout; put_str "fanout_status" "pending";
       put_int "dispatch_generation" 1; put_int "attempt_count" 0; put_int "task_retry_count" 0;
       put_str "projection_generation" FINALIZATION_PROJECTION_GENERATION;
       put_int "projection_shard" (_projection_shard job_id);
       put_time "created_at" now; put_time "updated_at" now; put_time "dispatch_requested_at" now ]
     ++ if requires_byok then [] else [put_time "reconcile_after_at" (now + stale_after)]).

Definition lifecycle_fields (job_id : string) (revision : Z) (job_status : pyval) : doc :=
  <["status" := PStr "processing"]> (<["finalization_job_id" := PStr job_id]>
    (<["finalization_revision" := PInt revision]> {["finalization_status" := job_status]})).

Definition _create_or_get_finalization_intent_txn (s : store) (uid conversation_id : string)
    (requires_byok : bool) (finalization_admission : doc -> result pyexc FinalizationAdmission)
    (now stale_after : Z) (trigger : ProcessingTrigger) (extra_updates : option doc)
    : result pyexc (store * FinalizationIntent) :=
  let ref := (uid, conversation_id) in
  match conversations s !! ref with
  | None => Ok (s, _no_finalization_intent "missing")
  | Some row =>
      let loaded := row_fields row in
      let finish s' lifecycle intent :=
        Ok (_apply_snapshot_bound_projection decode_segments transcript_sha256_for_binding
              field_path_parts s' ref (Some row) extra_updates lifecycle now, intent) in
      if truthy (py_get loaded "deferred") then finish s ∅ (_no_finalization_intent "deferred")
      else if negb (_conversation_has_finalization_content decode_segments uid row)
      then finish s ∅ (_no_finalization_intent "no_content")
      else
      let* admission := finalization_admission loaded in
      if terminal admission then finish s ∅ (_no_finalization_intent (admission_reason admission))
      else
      let existing :=
        match nonempty_str (py_get loaded "finalization_job_id") with
        | Some j => (fun d => (j, d)) <$> (jobs s !! j)
        | None => None
        end in
      match existing with
      | Some (existing_job_id, job) =>
          let* intent := _intent_from_job existing_job_id job false in
          finish s ∅ intent
      | None =>
      match (if accepted admission then admission_fanout_key admission else None) with
      | None | Some EmptyString =>
          finish s ∅ (_no_finalization_intent (admission_reason admission))
      | Some fanout =>
      let* revision := next_revision loaded in
      let job_id := _job_id uid conversation_id revision in
      match jobs s !! job_id with
      | Some job =>
          let* intent := _intent_from_job job_id job false in
          finish s (lifecycle_fields job_id revision (default (PStr "queued") (job !! "status"))) intent
      | None =>
          let status := if requires_byok then "blocked_byok" else "queued" in
          let job := new_finalization_job uid conversation_id revision job_id status fanout
                       requires_byok (py_get loaded "client_platform") trigger now stale_after in
          let s1 := with_jobs s (<[job_id := job]> (jobs s)) in
          let s2 := _record_projection_delta s1 job
                      [("accepted", 1); ("blocked_byok", if requires_byok then 1 else 0);
                       ("queued", if requires_byok then 0 else 1)] in
          let* intent := _intent_from_job job_id job true in
          finish s2
            (lifecycle_fields job_id revision (PStr status) ∪ _non_projection_extra_updates extra_updates)
            intent
      end end end
  end.

Definition create_or_get_finalization_intent (env : environ) (s : store) (uid conversation_id : string)
    (requires_byok : bool) (finalization_admission : doc -> result pyexc FinalizationAdmission)
    (now : Z) (trigger : ProcessingTrigger) (extra_updates : option doc)
    : result pyexc (store * FinalizationIntent) :=
  _create_or_get_finalization_intent_txn s uid conversation_id requires_byok finalization_admission now
    (get_finalization_reconcile_stale_after env) trigger extra_updates.
End create_intent.

(** ** BYOK resume *)

Definition missing_intent : FinalizationIntent := MkIntent None "missing" None false None false.

Definition _resume_blocked_byok_job_txn (s : store) (job_id : string) (now : Z)
    : result pyexc (store * FinalizationIntent) :=
  match jobs s !! job_id with
  | None => Ok (s, missing_intent)
  | Some job =>
      if is_str (py_get job "status") "blocked_byok" && truthy (py_get job "requires_byok") then
        let s1 := update_job s job_id job
                    [ put_str "status" "queued"; put_time "updated_at" now;
                      put_time "last_byok_resume_at" now; delete_key "reconcile_after_at" ] in
        let s2 := _record_projection_delta s1 job [("blocked_byok", -1); ("queued", 1)] in
        let* intent := _intent_from_job job_id (<["status" := PStr "queued"]> job) false in
        Ok (s2, intent)
      else
        let* intent := _intent_from_job job_id job false in
        Ok (s, intent)
  end.

(** ** Claiming a lease *)

Definition expected_identity (job : doc) (field : string) (expected : option string) : bool :=
  match expected with
  | Some e => is_str (py_get job field) e
  | None => true
  end.

Definition claim_lease_fields (job : doc) (lease_epoch lease_expires_at now : Z)
    : list (string * field_write) :=
  [ put_str "status" "leased"; put_time "leased_at" now; put_time "lease_expires_at" lease_expires_at;
    put_int "lease_epoch" lease_epoch;
    (if truthy (py_get job "requires_byok") then delete_key "reconcile_after_at"
     else put_time "reconcile_after_at" lease_expires_at);
    put_time "updated_at" now ].

Definition _claim_finalization_job_txn (s : store) (job_id : string) (dispatch_generation : Z)
    (allow_byok : bool) (lease_seconds now : Z) (expected_uid expected_conversation_id : option string)
    : result pyexc (store * FinalizationClaim) :=
  match jobs s !! job_id with
  | None => Ok (s, _claim_result "missing")
  | Some job =>
      let status := get_str_or job "status" "" in
      let refuse why := Ok (s, _claim_result why) in
      if negb (expected_identity job "uid" expected_uid) then refuse "identity_mismatch" else
      if negb (expected_identity job "conversation_id" expected_conversation_id)
      then refuse "identity_mismatch" else
      if String.eqb status "completed" && is_str (py_get job "finalization_outcome") "fenced"
      then refuse "fenced" else
      if bool_decide (status ∈ TERMINAL_JOB_STATUSES) then refuse status else
      if truthy (py_get job "requires_byok") && negb allow_byok then refuse "blocked_byok" else
      if String.eqb status "blocked_byok" then refuse "blocked_byok" else
      let* generation := get_int_or job "dispatch_generation" 1 in
      if negb (generation =? dispatch_generation) then refuse "stale_generation" else
      if String.eqb status "leased" && lease_is_live job now then refuse "leased" else
      if negb (String.eqb status "queued" || String.eqb status "leased")
      then refuse "not_actionable" else
      let* epoch := get_int_or job "lease_epoch" 0 in
      let lease_epoch := epoch + 1 in
      let lease_expires_at := now + seconds lease_seconds in
      let* attempt_count := get_int_or job "attempt_count" 0 in
      let s1 := update_job s job_id job (claim_lease_fields job lease_epoch lease_expires_at now) in
      let s2 := if String.eqb status "queued"
                then _record_projection_delta s1 job [("queued", -1); ("leased", 1)] else s1 in
      Ok (s2, MkClaim "claimed" (Some lease_epoch) attempt_count (as_time (py_get job "created_at")))
  end.

(** ** Terminal outcomes *)

Definition completed_fields (now : Z) : list (string * field_write) :=
  [ put_str "status" "completed"; put_time "completed_at" now; put_str "terminal_outcome" "success";
    put_time "updated_at" now; put_time "lease_expires_at" now; delete_key "reconcile_after_at";
    put_none "last_failure_code" ].

Definition _mark_finalization_completed_txn (s : store) (job_id : string)
    (dispatch_generation lease_epoch now : Z) : result pyexc (store * bool) :=
  match jobs s !! job_id with
  | None => Ok (s, false)
  | Some job =>
      if is_str (py_get job "status") "completed" then
        let* epoch := get_int_or job "lease_epoch" 0 in Ok (s, epoch =? lease_epoch)
      else
      let* current := _is_current_lease job dispatch_generation lease_epoch in
      if negb current then Ok (s, false) else
      if negb (is_str (py_get job "fanout_status") "completed") then Ok (s, false) else
      let s1 := update_job s job_id job (completed_fields now) in
      Ok (_record_projection_delta s1 job [("leased", -1); ("completed", 1); ("success", 1)], true)
  end.

Definition _fenced_finalization_update (now : Z) : list (string * field_write) :=
  [ put_str "status" "completed"; put_time "completed_at" now; put_time "updated_at" now;
    put_time "lease_expires_at" now; delete_key "reconcile_after_at"; put_none "last_failure_code";
    put_str "finalization_outcome" "fenced"; put_str "terminal_outcome" "stale";
    put_str "fanout_status" "fenced"; put_time "fanout_fenced_at" now ].

Definition stale_delta : list (string * Z) := [("leased", -1); ("completed", 1); ("stale", 1)].

(** [job.get('fanout_status') in (None, 'pending')] *)
Definition fanout_unclaimed (job : doc) : bool :=
  match py_get job "fanout_status" with
  | PNone => true
  | v => is_str v "pending"
  end.

Definition _mark_finalization_fenced_txn (s : store) (job_id : string)
    (dispatch_generation lease_epoch now : Z) : result pyexc (store * bool) :=
  match jobs s !! job_id with
  | None => Ok (s, false)
  | Some job =>
      if is_str (py_get job "status") "completed" then
        if is_str (py_get job "finalization_outcome") "fenced" then
          let* epoch := get_int_or job "lease_epoch" 0 in Ok (s, epoch =? lease_epoch)
        else Ok (s, false)
      else
      let* current := _is_current_lease job dispatch_generation lease_epoch in
      if negb current then Ok (s, false) else
      if negb (fanout_unclaimed job) then Ok (s, false) else
      let s1 := update_job s job_id job (_fenced_finalization_update now) in
      Ok (_record_projection_delta s1 job stale_delta, true)
  end.
