(* ===== verification/FinalizationOutcome.v ===== *)
(** The remaining job transactions of
    [database/conversation_finalization_jobs.py]: external fanout, retry,
    dead-lettering, replay of missed hand-offs and the disposition of abandoned
    BYOK jobs. *)
From S2P Require Export FinalizationTxn.

(** ** External fanout *)

Record FinalizationFanoutClaim := MkFanoutClaim {
  fanout_claim_status : string;
  fanout_claim_key : option string;
}.

Definition _fanout_key (job : doc) : result pyexc string :=
  match nonempty_str (py_get job "fanout_key") with
  | Some key => Ok key
  | None =>
      let* revision := get_int_or job "finalization_revision" 1 in
      Ok ("conversation:" ++ py_str (default (PStr "") (job !! "conversation_id"))
          ++ ":finalization:" ++ Z_to_string revision)%string
  end.

(** [int(a or 0) == int(b or 0)], [False] on [TypeError] or [ValueError]. *)
Definition same_revision (conversation job : doc) : bool :=
  match get_int_or conversation "finalization_revision" 0, get_int_or job "finalization_revision" 0 with
  | Ok a, Ok b => a =? b
  | _, _ => false
  end.

Definition _conversation_admits_fanout (conversation job : doc) (job_id : string) : bool :=
  negb (truthy (py_get conversation "discarded"))
  && is_str (py_get conversation "status") "completed"
  && is_str (py_get conversation "finalization_job_id") job_id
  && same_revision conversation job.

(** The bound conversation of a job, when the job names one. *)
Definition bound_conversation (s : store) (job : doc) : option ((string * string) * option conversation_row) :=
  match nonempty_str (py_get job "uid"), nonempty_str (py_get job "conversation_id") with
  | Some uid, Some conversation_id =>
      Some ((uid, conversation_id), conversations s !! (uid, conversation_id))
  | _, _ => None
  end.

Definition fanout_lease_fields (fanout_key : string) (lease_epoch now : Z) : list (string * field_write) :=
  [ put_str "fanout_key" fanout_key; put_str "fanout_status" "leased";
    put_int "fanout_lease_epoch" lease_epoch; put_time "fanout_started_at" now;
    put_time "updated_at" now ].

Definition _claim_finalization_fanout_txn (s : store) (job_id : string)
    (dispatch_generation lease_epoch now : Z) : result pyexc (store * FinalizationFanoutClaim) :=
  match jobs s !! job_id with
  | None => Ok (s, MkFanoutClaim "missing" None)
  | Some job =>
      let* fanout_key := _fanout_key job in
      if is_str (py_get job "fanout_status") "completed"
      then Ok (s, MkFanoutClaim "completed" (Some fanout_key)) else
      let* current := _is_current_lease job dispatch_generation lease_epoch in
      if negb current then Ok (s, MkFanoutClaim "lease_conflict" (Some fanout_key)) else
      let admitted :=
        match bound_conversation s job with
        | Some (_, Some row) => _conversation_admits_fanout (row_fields row) job job_id
        | _ => false
        end in
      if negb admitted then
        let s1 := update_job s job_id job (_fenced_finalization_update now) in
        Ok (_record_projection_delta s1 job stale_delta, MkFanoutClaim "fenced" (Some fanout_key))
      else
        Ok (update_job s job_id job (fanout_lease_fields fanout_key lease_epoch now),
            MkFanoutClaim "claimed" (Some fanout_key))
  end.

Definition fanout_completed_fields (now : Z) : list (string * field_write) :=
  [ put_str "fanout_status" "completed"; put_time "fanout_completed_at" now; put_time "updated_at" now ].

Definition _mark_finalization_fanout_completed_txn (s : store) (job_id : string)
    (dispatch_generation lease_epoch now : Z) : result pyexc (store * bool) :=
  match jobs s !! job_id with
  | None => Ok (s, false)
  | Some job =>
      if is_str (py_get job "fanout_status") "completed" then
        let* epoch := get_int_or job "fanout_lease_epoch" 0 in Ok (s, epoch =? lease_epoch)
      else
      let* current := _is_current_lease job dispatch_generation lease_epoch in
      if negb current then Ok (s, false)
      else Ok (update_job s job_id job (fanout_completed_fields now), true)
  end.

(** ** Failures *)

Definition retryable_fields (job : doc) (attempt_count : Z) (failure_code : string) (now stale_after : Z)
    : list (string * field_write) :=
  [ put_str "status" "queued"; put_time "updated_at" now; put_time "lease_expires_at" now;
    put_int "attempt_count" attempt_count;
    (if truthy (py_get job "requires_byok") then delete_key "reconcile_after_at"
     else put_time "reconcile_after_at" (now + stale_after));
    put_str "last_failure_code" failure_code ].

Definition _mark_finalization_retryable_txn (s : store) (job_id : string)
    (dispatch_generation lease_epoch : Z) (failure_code : string) (now stale_after : Z)
    : result pyexc (store * bool) :=
  match jobs s !! job_id with
  | None => Ok (s, false)
  | Some job =>
      let* current := _is_current_lease job dispatch_generation lease_epoch in
      if negb current then Ok (s, false) else
      let* attempts := get_int_or job "attempt_count" 0 in
      let s1 := update_job s job_id job (retryable_fields job (attempts + 1) failure_code now stale_after) in
      Ok (_record_projection_delta s1 job [("leased", -1); ("queued", 1)], true)
  end.

Definition dead_letter_fields (retry_count now : Z) : list (string * field_write) :=
  [ put_str "status" "dead_letter"; put_time "updated_at" now; put_time "terminal_at" now;
    put_str "terminal_outcome" "failure"; put_time "lease_expires_at" now;
    delete_key "reconcile_after_at"; put_int "task_retry_count" retry_count;
    put_str "last_failure_code" "final_attempt_failed" ].

(** The conversation is still the processing generation this job finalizes. *)
Definition still_processing_generation (conversation job : doc) (job_id : string) : bool :=
  is_str (py_get conversation "status") "processing"
  && negb (truthy (py_get conversation "discarded"))
  && is_str (py_get conversation "finalization_job_id") job_id
  && py_eqb (py_get conversation "finalization_revision") (py_get job "finalization_revision").

Definition failed_conversation_fields : list (string * field_write) :=
  [ put_str "status" "failed"; put_bool "discarded" true; put_str "finalization_status" "dead_letter" ].

Definition _mark_finalization_dead_letter_txn (s : store) (job_id : string)
    (dispatch_generation lease_epoch retry_count now : Z) : result pyexc (store * bool) :=
  match jobs s !! job_id with
  | None => Ok (s, false)
  | Some job =>
      let* current := _is_current_lease job dispatch_generation lease_epoch in
      if negb current then Ok (s, false) else
      let s1 := update_job s job_id job (dead_letter_fields retry_count now) in
      let s2 := _record_projection_delta s1 job [("leased", -1); ("dead_letter", 1); ("failure", 1)] in
      match bound_conversation s job with
      | Some (ref, Some row) =>
          if still_processing_generation (row_fields row) job job_id
          then Ok (update_conversation s2 ref row failed_conversation_fields now, true)
          else Ok (s2, true)
      | _ => Ok (s2, true)
      end
  end.

(** ** Replay of a missed hand-off *)

Definition replay_fields (generation stale_after now : Z) : list (string * field_write) :=
  [ put_str "status" "queued"; put_int "dispatch_generation" generation;
    put_time "dispatch_requested_at" now; put_time "updated_at" now; put_time "lease_expires_at" now;
    put_time "reconcile_after_at" (now + stale_after) ].

(** Whether the last dispatch request is younger than the replay delay. *)
Definition recently_dispatched (job : doc) (stale_after now : Z) : bool :=
  match as_time (py_get job "dispatch_requested_at") with
  | Some t => now - stale_after <? t
  | None => false
  end.

Definition _claim_finalization_replay_txn (s : store) (job_id : string) (stale_after now : Z)
    : result pyexc (store * FinalizationIntent) :=
  match jobs s !! job_id with
  | None => Ok (s, missing_intent)
  | Some job =>
      let status := get_str_or job "status" "" in
      let keep := let* intent := _intent_from_job job_id job false in Ok (s, intent) in
      if String.eqb status "blocked_byok" || bool_decide (status ∈ TERMINAL_JOB_STATUSES) then keep else
      if String.eqb status "leased" && lease_is_live job now then keep else
      if String.eqb status "queued" && recently_dispatched job stale_after now then keep else
      if negb (String.eqb status "queued" || String.eqb status "leased") then keep else
      let* old_generation := get_int_or job "dispatch_generation" 1 in
      let generation := old_generation + 1 in
      let s1 := update_job s job_id job (replay_fields generation stale_after now) in
      let s2 := if String.eqb status "leased"
                then _record_projection_delta s1 job [("leased", -1); ("queued", 1)] else s1 in
      let* intent := _intent_from_job job_id
        (<["dispatch_generation" := PInt generation]> (<["status" := PStr "queued"]> job)) false in
      Ok (s2, intent)
  end.

(** [get_finalization_replay_candidates]: the rows a page of the
    [reconcile_after_at <= now] query returns, in the order Firestore returned
    them. *)
Definition get_finalization_replay_candidates (limit : Z) (page : list (string * doc))
    : list (string * doc) :=
  List.filter (fun jd => is_str (py_get jd.2 "status") "queued" || is_str (py_get jd.2 "status") "leased")
    (take (Z.to_nat (Z.max 1 (Z.min limit 100))) page).

(** ** Abandoned BYOK jobs *)

Record ByokAbandonment := MkAbandonment {
  abandonment_status : string;
  conversation_outcome : string;
}.

(** [_job_last_activity_at] *)
Definition _job_last_activity_at (job : doc) : option Z :=
  match as_time (py_get job "updated_at") with
  | Some t => Some t
  | None => as_time (py_get job "created_at")
  end.

(** The eligibility test shared by the sweep and by the terminal transaction:
    non-terminal, no live lease, and last active at or before the cutoff. *)
Definition byok_unowned_since (job : doc) (cutoff now : Z) : bool :=
  let status := get_str_or job "status" "" in
  (String.eqb status "queued" || String.eqb status "leased")
  && negb (String.eqb status "leased" && lease_is_live job now)
  && match _job_last_activity_at job with Some t => t <=? cutoff | None => false end.

Definition abandoned_fields (now : Z) : list (string * field_write) :=
  [ put_str "status" "dead_letter"; put_time "updated_at" now; put_time "terminal_at" now;
    put_str "terminal_outcome" "failure"; put_str "finalization_outcome" BYOK_ABANDONED_FAILURE_CODE;
    put_time "lease_expires_at" now; delete_key "reconcile_after_at"; put_str "fanout_status" "fenced";
    put_time "fanout_fenced_at" now; put_str "last_failure_code" BYOK_ABANDONED_FAILURE_CODE ].

Definition closed_conversation_fields : list (string * field_write) :=
  [ put_str "status" "completed"; put_str "finalization_status" "dead_letter" ].

Definition _abandon_byok_finalization_job_txn (s : store) (job_id expected_status : string)
    (expected_dispatch_generation expected_lease_epoch cutoff now : Z)
    : result pyexc (store * ByokAbandonment) :=
  match jobs s !! job_id with
  | None => Ok (s, MkAbandonment "missing" "none")
  | Some job =>
      let status := get_str_or job "status" "" in
      let fenced := Ok (s, MkAbandonment "fenced" "none") in
      if negb (truthy (py_get job "requires_byok")) then fenced else
      if negb (String.eqb status "queued" || String.eqb status "leased")
         || negb (String.eqb status expected_status) then fenced else
      let* generation := get_int_or job "dispatch_generation" 1 in
      if negb (generation =? expected_dispatch_generation) then fenced else
      let* epoch := get_int_or job "lease_epoch" 0 in
      if negb (epoch =? expected_lease_epoch) then fenced else
      if negb (byok_unowned_since job cutoff now) then fenced else
      let s1 := update_job s job_id job (abandoned_fields now) in
      let s2 := _record_projection_delta s1 job
                  [ ("queued", if String.eqb status "queued" then -1 else 0);
                    ("leased", if String.eqb status "leased" then -1 else 0);
                    ("dead_letter", 1); ("failure", 1) ] in
      let abandoned why := Ok (s2, MkAbandonment "abandoned" why) in
      match bound_conversation s job with
      | Some (ref, Some row) =>
          let conversation := row_fields row in
          if negb (is_str (py_get conversation "finalization_job_id") job_id)
             || negb (py_eqb (py_get conversation "finalization_revision")
                        (py_get job "finalization_revision")) then abandoned "unbound" else
          if negb (is_str (py_get conversation "status") "processing")
             || truthy (py_get conversation "discarded") then abandoned "already_terminal" else
          if truthy (py_get conversation "deferred") then abandoned "deferred" else
          Ok (update_conversation s2 ref row closed_conversation_fields now,
              MkAbandonment "abandoned" "closed")
      | _ => abandoned "missing"
      end
  end.

Definition abandon_byok_finalization_job (s : store) (job_id expected_status : string)
    (expected_dispatch_generation expected_lease_epoch abandoned_after now : Z)
    : result pyexc (store * ByokAbandonment) :=
  _abandon_byok_finalization_job_txn s job_id expected_status expected_dispatch_generation
    expected_lease_epoch (now - abandoned_after) now.
