(* ===== verification/ConversationRecovery.v ===== *)
(** Recovery of conversations left on [processing]
    ([database/conversation_finalization_jobs.py], lines 1400-1850): the
    admission fence, the orphan terminals, deferred enrichment, and the bounded
    sweeps with their persisted cursor. *)
From S2P Require Export FinalizationOutcome.

(** ** Transactions on one conversation row *)

Abbreviation conversation_ref := (string * string)%type (only parsing).

Definition _stamp_processing_admission_if_absent_txn (s : store) (ref : conversation_ref) (now : Z)
    : store * bool :=
  match conversations s !! ref with
  | None => (s, false)
  | Some row =>
      let data := row_fields row in
      if negb (is_str (py_get data "status") "processing") then (s, false) else
      match as_time (py_get data "processing_admitted_at") with
      | Some _ => (s, false)
      | None => (update_conversation s ref row [put_time "processing_admitted_at" now] now, true)
      end
  end.

(** [data.get('discarded') or data.get('deferred') or data.get('finalization_job_id')] *)
Definition otherwise_owned (data : doc) : bool :=
  truthy (py_get data "discarded") || truthy (py_get data "deferred")
  || truthy (py_get data "finalization_job_id").

Definition _complete_unstampable_orphan_conversation_txn (s : store) (ref : conversation_ref)
    (stale_before now : Z) : store * bool :=
  match conversations s !! ref with
  | None => (s, false)
  | Some row =>
      let data := row_fields row in
      if negb (is_str (py_get data "status") "processing") then (s, false) else
      if otherwise_owned data then (s, false) else
      match as_time (py_get data "processing_admitted_at") with
      | Some _ => (s, false)
      | None =>
          if stale_before <? row_update_time row then (s, false)
          else (update_conversation s ref row [put_str "status" "completed"] now, true)
      end
  end.

Definition complete_unstampable_orphan_conversation (s : store) (ref : conversation_ref)
    (stale_after now : Z) : store * bool :=
  _complete_unstampable_orphan_conversation_txn s ref (now - stale_after) now.

Definition _complete_orphan_conversation_txn (s : store) (ref : conversation_ref)
    (expected_admitted_at : option Z) (now : Z) : store * bool :=
  match conversations s !! ref with
  | None => (s, false)
  | Some row =>
      let data := row_fields row in
      if negb (is_str (py_get data "status") "processing") then (s, false) else
      if otherwise_owned data then (s, false) else
      match as_time (py_get data "processing_admitted_at") with
      | None => (s, false)
      | Some admitted_at =>
          if decide (expected_admitted_at = Some admitted_at)
          then (update_conversation s ref row [put_str "status" "completed"] now, true)
          else (s, false)
      end
  end.

Definition _renew_processing_lease_txn (s : store) (ref : conversation_ref) (now : Z) : store * bool :=
  match conversations s !! ref with
  | None => (s, false)
  | Some row =>
      let data := row_fields row in
      if negb (is_str (py_get data "status") "processing") || truthy (py_get data "discarded")
      then (s, false)
      else (update_conversation s ref row [put_time "processing_admitted_at" now] now, true)
  end.

(** [data.get('status') in {'processing', 'completed'}] *)
Definition processing_or_completed (data : doc) : bool :=
  is_str (py_get data "status") "processing" || is_str (py_get data "status") "completed".

(** [data.get('deferred') is b] *)
Definition deferred_is (data : doc) (b : bool) : bool :=
  match py_get data "deferred" with PBool b' => Bool.eqb b b' | _ => false end.

Definition _reacquire_deferred_processing_txn (s : store) (ref : conversation_ref) (now : Z)
    : store * bool :=
  match conversations s !! ref with
  | None => (s, false)
  | Some row =>
      let data := row_fields row in
      if negb (processing_or_completed data) || truthy (py_get data "discarded")
         || negb (deferred_is data true) then (s, false)
      else (update_conversation s ref row
              [ put_str "status" "processing"; put_bool "deferred" false;
                put_time "processing_admitted_at" now ] now, true)
  end.

Definition _recover_deferred_processing_failure_txn (s : store) (ref : conversation_ref) (now : Z)
    : store * bool :=
  match conversations s !! ref with
  | None => (s, false)
  | Some row =>
      let data := row_fields row in
      if negb (processing_or_completed data) || truthy (py_get data "discarded")
         || negb (deferred_is data false) then (s, false)
      else (update_conversation s ref row [put_str "status" "completed"; put_bool "deferred" true] now, true)
  end.

(** ** The persisted sweep cursor *)

Definition STALE_PROCESSING_SWEEP_STATE_DOC : string := "stale_processing_sweep".
Definition MEETING_RECEIPT_SWEEP_STATE_DOC : string := "meeting_receipt_backfill_sweep".
Definition BYOK_ABANDONMENT_SWEEP_STATE_DOC : string := "byok_abandonment_sweep".

Record sweep_cursor := MkCursor {
  resume_after_path : option string;
  cursor_generation : Z;
}.

(** [int(data.get('generation', 0))] *)
Definition stored_generation (data : doc) : result pyexc Z :=
  py_int (default (PInt 0) (data !! "generation")).

Definition get_sweep_cursor (s : store) (name : string) : result pyexc sweep_cursor :=
  match sweep_state s !! name with
  | None => Ok (MkCursor None 0)
  | Some data =>
      let* generation := stored_generation data in
      Ok (MkCursor (as_str (py_get data "resume_after_path")) generation)
  end.

Definition get_stale_processing_sweep_cursor (s : store) : result pyexc sweep_cursor :=
  get_sweep_cursor s STALE_PROCESSING_SWEEP_STATE_DOC.
Definition get_meeting_receipt_backfill_cursor (s : store) : result pyexc sweep_cursor :=
  get_sweep_cursor s MEETING_RECEIPT_SWEEP_STATE_DOC.
Definition get_byok_abandonment_sweep_cursor (s : store) : result pyexc sweep_cursor :=
  get_sweep_cursor s BYOK_ABANDONMENT_SWEEP_STATE_DOC.

Definition _advance_stale_processing_sweep_cursor_txn (s : store) (name : string)
    (expected_generation : Z) (new_resume_after_path : option string) (now : Z)
    : result pyexc (store * bool) :=
  let* current_generation :=
    match sweep_state s !! name with
    | None => Ok 0
    | Some data => stored_generation data
    end in
  if negb (current_generation =? expected_generation) then Ok (s, false)
  else
    Ok (with_sweep_state s
          (<[name := doc_set
               [ ("resume_after_path",
                  Put (match new_resume_after_path with Some p => PStr p | None => PNone end));
                 put_int "generation" (current_generation + 1); put_time "updated_at" now ]]>
             (sweep_state s)), true).

(** ** Bounded sweeps *)

(** A document the sweep query returns. *)
Record swept_row := MkSwept {
  swept_path : string;
  swept_id : string;
  swept_data : doc;
}.

Record sweep_progress (A : Type) := MkProgress {
  collected : list A;
  scanned : Z;
  last_path : option string;
}.
Arguments MkProgress {A} _ _ _.
Arguments collected {A} _.
Arguments scanned {A} _.
Arguments last_path {A} _.

Record sweep_result (A : Type) := MkSweep {
  candidates : list A;
  next_path : option string;
  exhausted : bool;
}.
Arguments MkSweep {A} _ _ _.
Arguments candidates {A} _.
Arguments next_path {A} _.
Arguments exhausted {A} _.

Section sweep.
Context {A : Type} (classify : swept_row -> option A) (limit max_scan : Z).

Definition page_size : Z := Z.max 1 (Z.min limit 100).

(** The [for snapshot in page] loop, with its two [break]s. *)
Fixpoint scan_page (page : list swept_row) (st : sweep_progress A) : sweep_progress A :=
  match page with
  | [] => st
  | row :: rest =>
      let n := scanned st + 1 in
      if max_scan <? n then MkProgress (collected st) n (last_path st)
      else
        match classify row with
        | None => scan_page rest (MkProgress (collected st) n (Some (swept_path row)))
        | Some c =>
            let st' := MkProgress (collected st ++ [c]) n (Some (swept_path row)) in
            if limit <=? Z.of_nat (length (collected st')) then st' else scan_page rest st'
        end
  end.

(** The [while] loop over pages.  [rest] holds the matching rows after the
    cursor in query order: [start_after(page[-1])] continues with the rows
    behind the page.  Every turn that continues consumes a full page, so
    [length rest + 1] turns are enough. *)
Fixpoint sweep_pages (fuel : nat) (rest : list swept_row) (st : sweep_progress A)
    : sweep_progress A * bool :=
  match fuel with
  | O => (st, false)
  | S fuel' =>
      if (Z.of_nat (length (collected st)) <? limit) && (scanned st <? max_scan) then
        let page := take (Z.to_nat page_size) rest in
        match page with
        | [] => (st, true)
        | _ =>
            let st' := scan_page page st in
            if max_scan <? scanned st' then (st', false)
            else if Z.of_nat (length page) <? page_size then (st', true)
            else sweep_pages fuel' (drop (Z.to_nat page_size) rest) st'
        end
      else (st, false)
  end.

Definition run_sweep (rest : list swept_row) : sweep_result A :=
  let '(st, done) := sweep_pages (S (length rest)) rest (MkProgress [] 0 None) in
  MkSweep (collected st) (if done then None else last_path st) done.
End sweep.

(** [_uid_from_conversation_path] *)
Definition _uid_from_conversation_path (path : string) : option string :=
  match split_on "/" path with
  | [users; uid; coll; _] =>
      if String.eqb users "users" && String.eqb coll "conversations" then Some uid else None
  | _ => None
  end.

Record orphan_candidate := MkOrphan {
  orphan_uid : string;
  orphan_id : string;
  orphan_admitted_at : option Z;
  orphan_legacy : bool;
}.

Definition classify_orphan (cutoff : Z) (row : swept_row) : option orphan_candidate :=
  match _uid_from_conversation_path (swept_path row) with
  | None => None
  | Some uid =>
      let data := swept_data row in
      if truthy (py_get data "deferred") || truthy (py_get data "finalization_job_id") then None
      else
        match as_time (py_get data "processing_admitted_at") with
        | Some t => if cutoff <? t then None else Some (MkOrphan uid (swept_id row) (Some t) false)
        | None => Some (MkOrphan uid (swept_id row) None true)
        end
  end.

Definition get_stale_processing_orphan_candidates (stale_after limit max_scan now : Z)
    (rows : list swept_row) : sweep_result orphan_candidate :=
  run_sweep (classify_orphan (now - stale_after)) limit max_scan rows.

Record byok_candidate := MkByokCandidate {
  byok_job_id : string;
  byok_job : doc;
  byok_last_activity_at : Z;
}.

Definition classify_abandoned_byok (cutoff now : Z) (row : swept_row) : option byok_candidate :=
  let job := swept_data row in
  if byok_unowned_since job cutoff now then
    MkByokCandidate (swept_id row) job <$> _job_last_activity_at job
  else None.

Definition get_abandoned_byok_job_candidates (abandoned_after limit max_scan now : Z)
    (rows : list swept_row) : sweep_result byok_candidate :=
  run_sweep (classify_abandoned_byok (now - abandoned_after) now) limit max_scan rows.

Definition classify_unreceipted_meeting (row : swept_row) : option (string * string) :=
  match _uid_from_conversation_path (swept_path row) with
  | None => None
  | Some uid =>
      let data := swept_data row in
      match py_or (py_get data "external_data") (PDict []) with
      | PDict external =>
          if is_str (py_get data "source") "desktop"
             && is_str (default PNone (assoc_value "conversation_role" external)) "meeting"
             && negb (truthy (py_get data "meeting_treatment_reason"))
          then Some (uid, swept_id row) else None
      | _ => None
      end
  end.

Definition get_meeting_receipt_backfill_candidates (limit max_scan : Z) (rows : list swept_row)
    : sweep_result (string * string) :=
  run_sweep classify_unreceipted_meeting limit max_scan rows.

(** A stranded conversation and a deferred one. *)
Module RecoveryScenario.
Definition stranded : conversation_row :=
  MkRow (<["status" := PStr "processing"]> {["processing_admitted_at" := PTime 5]}) false 5.
Definition parked : conversation_row :=
  MkRow (<["status" := PStr "completed"]> {["deferred" := PBool true]}) false 5.
Definition start : store := MkStore ∅ (<[("u", "c") := stranded]> {[("u", "d") := parked]}) ∅ ∅.
End RecoveryScenario.

(** ** Orphan terminals *)

Lemma update_row_status row v now k ws :
  ws = [put_str "status" v] -> k <> "status" ->
  py_get (row_fields (MkRow (doc_update (row_fields row) ws) (row_has_photo row) now)) k = py_get (row_fields row) k.
Proof.
  intros -> Hk. cbn [row_fields]. apply py_get_update_other. repeat constructor. by apply String.eqb_neq.
Qed.

(** The sweep closes a conversation only if the row is still [processing], unowned, and carries the
    very admission instant the sweep read; it then changes the status and nothing else. *)
Theorem orphan_completion_is_fenced s ref expected now s' b :
  _complete_orphan_conversation_txn s ref expected now = (s', b) ->
  (b = false -> s' = s) /\
  (b = true -> exists row t row',
     conversations s !! ref = Some row /\ expected = Some t /\
     py_get (row_fields row) "processing_admitted_at" = PTime t /\
     py_get (row_fields row) "status" = PStr "processing" /\ otherwise_owned (row_fields row) = false /\
     s' = with_conversations s (<[ref := row']> (conversations s)) /\
     py_get (row_fields row') "status" = PStr "completed" /\
     forall k, k <> "status" -> py_get (row_fields row') k = py_get (row_fields row) k).
Proof.
  unfold _complete_orphan_conversation_txn. intros Hr.
  destruct (conversations s !! ref) as [row|] eqn:Hrow; [|by injection Hr as <- <-].
  destruct (is_str _ _) eqn:Hst; cbn [negb] in Hr; [|by injection Hr as <- <-].
  destruct (otherwise_owned _) eqn:Hown; [by injection Hr as <- <-|].
  destruct (as_time _) as [t|] eqn:Ht; [|by injection Hr as <- <-].
  case_decide as Hexp; injection Hr as <- <-; [|done]. split; [done|]. intros _.
  assert (Hadm : py_get (row_fields row) "processing_admitted_at" = PTime t)
    by (destruct (py_get (row_fields row) "processing_admitted_at"); simpl in Ht; congruence).
  eexists row, t, _. do 3 (split; [done|]). split; [by apply is_str_spec|]. do 2 (split; [done|]).
  split; [cbn [row_fields]; by doc_simpl|]. intros k. by apply (update_row_status row "completed").
Qed.
Lemma orphan_completion_is_fenced_witness :
  exists row', (_complete_orphan_conversation_txn RecoveryScenario.start ("u", "c") (Some 5) 100).1
      = with_conversations RecoveryScenario.start (<[("u", "c") := row']> (conversations RecoveryScenario.start)) /\
    py_get (row_fields row') "status" = PStr "completed".
Proof.
  destruct (proj2 (orphan_completion_is_fenced RecoveryScenario.start ("u", "c") (Some 5) 100
    (_complete_orphan_conversation_txn RecoveryScenario.start ("u", "c") (Some 5) 100).1 true eq_refl) eq_refl)
    as (row & t & row' & _ & _ & _ & _ & _ & Hs & Hst & _).
  exists row'. split; [exact Hs|exact Hst].
Defined.

(** An owner that renewed its lease after the sweep read the row keeps the conversation. *)
Theorem renewed_owner_is_never_closed s ref expected now1 now2 s1 :
  _renew_processing_lease_txn s ref now1 = (s1, true) -> expected <> Some now1 ->
  _complete_orphan_conversation_txn s1 ref expected now2 = (s1, false).
Proof.
  unfold _renew_processing_lease_txn. intros Hr Hne.
  destruct (conversations s !! ref) as [row|] eqn:Hrow; [|done].
  destruct (_ || _) in Hr; [done|]. injection Hr as <-.
  unfold _complete_orphan_conversation_txn. cbn [conversations update_conversation with_conversations].
  rewrite lookup_insert_eq. cbn [row_fields].
  destruct (is_str _ _); [|done]. cbn [negb]. destruct (otherwise_owned _); [done|].
  assert (Hget : py_get (doc_update (row_fields row) [put_time "processing_admitted_at" now1]) "processing_admitted_at"
    = PTime now1) by (doc_simpl; done).
  rewrite Hget. cbn [as_time]. by case_decide.
Qed.
Lemma renewed_owner_is_never_closed_witness :
  let s1 := (_renew_processing_lease_txn RecoveryScenario.start ("u", "c") 50).1 in
  _complete_orphan_conversation_txn s1 ("u", "c") (Some 5) 100 = (s1, false).
Proof. apply (renewed_owner_is_never_closed RecoveryScenario.start ("u", "c") (Some 5) 50); [reflexivity|discriminate]. Defined.

(** ** Deferred enrichment *)

(** Of two workers that find the same deferred conversation one wins: after a successful
    reacquisition every other attempt is refused until a failed enrichment hands the row back, and the
    row handed back can be reacquired. *)
Theorem deferred_enrichment_has_one_owner s ref now1 s1 :
  _reacquire_deferred_processing_txn s ref now1 = (s1, true) ->
  (forall now2, _reacquire_deferred_processing_txn s1 ref now2 = (s1, false)) /\
  (forall now2, exists s2, _recover_deferred_processing_failure_txn s1 ref now2 = (s2, true) /\
     (forall now3, exists s3, _reacquire_deferred_processing_txn s2 ref now3 = (s3, true)) /\
     forall now3, _recover_deferred_processing_failure_txn s2 ref now3 = (s2, false)).
Proof.
  unfold _reacquire_deferred_processing_txn at 1. intros Hr.
  destruct (conversations s !! ref) as [row|] eqn:Hrow; [|done].
  destruct (_ || _) eqn:Hg in Hr; [done|]. injection Hr as <-. to_prop.
  set (d1 := doc_update (row_fields row)
    [put_str "status" "processing"; put_bool "deferred" false; put_time "processing_admitted_at" now1]).
  assert (Hd1 : py_get d1 "status" = PStr "processing" /\ py_get d1 "deferred" = PBool false /\
    py_get d1 "discarded" = py_get (row_fields row) "discarded") by (unfold d1; doc_simpl; done).
  destruct Hd1 as (Hs1 & Hf1 & Hx1).
  set (d2 := doc_update d1 [put_str "status" "completed"; put_bool "deferred" true]).
  assert (Hd2 : py_get d2 "status" = PStr "completed" /\ py_get d2 "deferred" = PBool true /\
    py_get d2 "discarded" = py_get (row_fields row) "discarded") by (unfold d2; doc_simpl; done).
  destruct Hd2 as (Hs2 & Hf2 & Hx2).
  unfold _reacquire_deferred_processing_txn, _recover_deferred_processing_failure_txn, processing_or_completed,
    deferred_is, update_conversation. cbn [conversations with_conversations].
  setoid_rewrite lookup_insert_eq. cbn [row_fields row_has_photo]. fold d1. rewrite Hs1, Hf1, Hx1.
  match goal with H : truthy _ = false |- _ => rewrite H end. cbn [is_str String.eqb Ascii.eqb Bool.eqb negb orb].
  split; [done|]. intros now2. eexists. split; [reflexivity|]. cbn [conversations with_conversations].
  setoid_rewrite lookup_insert_eq. cbn [row_fields row_has_photo]. fold d2. rewrite Hs2, Hf2, Hx2.
  match goal with H : truthy _ = false |- _ => rewrite H end. cbn [is_str String.eqb Ascii.eqb Bool.eqb negb orb].
  split; [|done]. intros now3. by eexists.
Qed.
Lemma deferred_enrichment_has_one_owner_witness :
  let s1 := (_reacquire_deferred_processing_txn RecoveryScenario.start ("u", "d") 50).1 in
  _reacquire_deferred_processing_txn s1 ("u", "d") 51 = (s1, false).
Proof. apply (deferred_enrichment_has_one_owner RecoveryScenario.start ("u", "d") 50). reflexivity. Defined.

(** ** The sweep cursor *)

(** Of the sweeps that read one cursor generation exactly one advances it: after the first, every
    other advance that expects the same generation is refused and changes nothing. *)
Theorem cursor_advance_is_exclusive s name g p1 now1 s1 :
  _advance_stale_processing_sweep_cursor_txn s name g p1 now1 = Ok (s1, true) ->
  get_sweep_cursor s1 name = Ok (MkCursor p1 (g + 1)) /\
  forall p2 now2, _advance_stale_processing_sweep_cursor_txn s1 name g p2 now2 = Ok (s1, false).
Proof.
  unfold _advance_stale_processing_sweep_cursor_txn at 1. intros Hr.
  apply rbind_ok in Hr as (cur & _ & Hr). destruct (cur =? g) eqn:Hg; cbn [negb] in Hr; [|done].
  apply Z.eqb_eq in Hg. subst cur.
  injection Hr as <-.
  set (d := doc_set _).
  assert (Hgen : stored_generation d = Ok (g + 1)).
  { unfold stored_generation, d, doc_set. rewrite lookup_doc_update.
    by cbn [foldl String.eqb Ascii.eqb Bool.eqb fst snd apply_field put_int put_time default]. }
  assert (Hpath : py_get d "resume_after_path" = match p1 with Some p => PStr p | None => PNone end)
    by (unfold d, doc_set; by doc_simpl).
  split.
  - unfold get_sweep_cursor. cbn [sweep_state with_sweep_state]. rewrite lookup_insert_eq, Hgen, Hpath.
    cbn [rbind]. by destruct p1.
  - intros p2 now2. unfold _advance_stale_processing_sweep_cursor_txn. cbn [sweep_state with_sweep_state].
    rewrite lookup_insert_eq, Hgen. cbn [rbind].
    destruct (Z.eqb_spec (g + 1) g) as [Heq|]; [lia|done].
Qed.
Lemma cursor_advance_is_exclusive_witness :
  let s1 := match _advance_stale_processing_sweep_cursor_txn RecoveryScenario.start STALE_PROCESSING_SWEEP_STATE_DOC
                    0 (Some "users/u/conversations/c") 10 with Ok (s, _) => s | Raise _ => RecoveryScenario.start end in
  _advance_stale_processing_sweep_cursor_txn s1 STALE_PROCESSING_SWEEP_STATE_DOC 0 None 11 = Ok (s1, false).
Proof.
  apply (cursor_advance_is_exclusive RecoveryScenario.start STALE_PROCESSING_SWEEP_STATE_DOC 0
    (Some "users/u/conversations/c") 10). reflexivity.
Defined.

(** ** What a bounded sweep examines *)

Section sweep_proofs.
Context {A : Type} (classify : swept_row -> option A) (limit max_scan : Z).
#[local] Abbreviation scan := (scan_page classify limit max_scan).
#[local] Abbreviation size := (page_size limit).

Lemma page_size_pos : 1 <= size <= 100.
Proof. unfold page_size. lia. Qed.

(** [st'] results from [st] by examining the rows [pre] in order. *)
Definition examined (st st' : sweep_progress A) (pre : list swept_row) : Prop :=
  collected st' = collected st ++ omap classify pre /\
  last_path st' = match last (map swept_path pre) with Some p => Some p | None => last_path st end /\
  scanned st + Z.of_nat (length pre) <= scanned st' <= scanned st + Z.of_nat (length pre) + 1.

(** Why a loop over rows stopped before its end. *)
Definition stopped (st' : sweep_progress A) (post : list swept_row) : Prop :=
  post = [] \/ max_scan < scanned st' \/ limit <= Z.of_nat (length (collected st')).

Definition within (st : sweep_progress A) : Prop :=
  Z.of_nat (length (collected st)) <= Z.max 0 limit /\ scanned st <= Z.max 0 max_scan.

Lemma last_cons_default {B} (x : B) l : last (x :: l) = Some (default x (last l)).
Proof. rewrite last_cons. by destruct (last l). Qed.

Lemma examined_cons st st1 st' row pre :
  collected st1 = collected st ++ omap classify [row] -> last_path st1 = Some (swept_path row) ->
  scanned st1 = scanned st + 1 -> examined st1 st' pre -> examined st st' (row :: pre).
Proof.
  intros Hc Hp Hn (Hc' & Hp' & Hn'). unfold examined. split; [|split].
  - rewrite Hc', Hc, <- (assoc_L (++)), <- omap_app. done.
  - rewrite Hp', Hp. cbn [map]. rewrite last_cons_default. by destruct (last (map swept_path pre)).
  - cbn [length]. lia.
Qed.

Lemma scan_page_spec page st :
  0 < limit -> scanned st <= max_scan -> Z.of_nat (length (collected st)) < limit ->
  exists pre post, page = pre ++ post /\ examined st (scan page st) pre /\ stopped (scan page st) post /\
    Z.of_nat (length (collected (scan page st))) <= limit /\
    scanned (scan page st) <= max_scan + 1 /\
    (scanned (scan page st) <= max_scan -> scanned (scan page st) = scanned st + Z.of_nat (length pre)) /\
    (max_scan < scanned (scan page st) -> scanned st + Z.of_nat (length pre) = max_scan).
Proof.
  intros Hlim. revert st. induction page as [|row page IH]; intros st Hscan Hlen; cbn [scan_page].
  { exists [], []. split; [done|]. split; [|split; [by left|]; cbn [length]; lia].
    unfold examined. cbn. rewrite app_nil_r. split; [done|]. split; [done|lia]. }
  destruct (Z.ltb_spec max_scan (scanned st + 1)).
  { exists [], (row :: page). split; [done|]. unfold examined, stopped. cbn. rewrite app_nil_r.
    split; [split; [done|split; [done|lia]]|]. split; [right; left; lia|]. lia. }
  destruct (classify row) as [c|] eqn:Hc.
  - destruct (Z.leb_spec limit (Z.of_nat (length (collected st ++ [c])))) as [Hfull|Hfull].
    + cbn [collected]. rewrite (proj2 (Z.leb_le _ _)) by exact Hfull.
      exists [row], page. split; [done|]. unfold examined, stopped. cbn [collected scanned last_path omap list_omap].
      rewrite Hc. cbn. rewrite length_app in *. cbn [length] in *.
      split; [split; [done|split; [done|lia]]|]. split; [right; right; lia|]. lia.
    + cbn [collected]. rewrite (proj2 (Z.leb_gt _ _)) by exact Hfull.
      destruct (IH (MkProgress (collected st ++ [c]) (scanned st + 1) (Some (swept_path row))))
        as (pre & post & -> & Hex & Hstop & Hb & Hs & He1 & He2); [cbn; lia|cbn [collected]; lia|].
      exists (row :: pre), post. split; [done|]. split.
      { eapply examined_cons; [| | |exact Hex]; [cbn [collected]; cbn; by rewrite Hc|done|done]. }
      split; [exact Hstop|]. split; [exact Hb|]. split; [exact Hs|]. cbn [scanned length] in *. lia.
  - destruct (IH (MkProgress (collected st) (scanned st + 1) (Some (swept_path row))))
      as (pre & post & -> & Hex & Hstop & Hb & Hs & He1 & He2); [cbn; lia|cbn [collected]; lia|].
    exists (row :: pre), post. split; [done|]. split.
    { eapply examined_cons; [| | |exact Hex]; [cbn; by rewrite Hc, app_nil_r|done|done]. }
    split; [exact Hstop|]. split; [exact Hb|]. split; [exact Hs|]. cbn [scanned length] in *. lia.
Qed.

Lemma examined_app st1 st2 st3 pre1 pre2 :
  examined st1 st2 pre1 -> scanned st2 = scanned st1 + Z.of_nat (length pre1) ->
  examined st2 st3 pre2 -> examined st1 st3 (pre1 ++ pre2).
Proof.
  intros (Hc1 & Hp1 & Hn1) Hs (Hc2 & Hp2 & Hn2). unfold examined. split; [|split].
  - by rewrite Hc2, Hc1, omap_app, (assoc_L (++)).
  - rewrite Hp2, Hp1, map_app, last_app. by destruct (last (map swept_path pre2)).
  - rewrite length_app. lia.
Qed.

(** The whole sweep from [st]. *)
Lemma sweep_pages_spec fuel rest st st' done :
  scanned st <= Z.max 0 max_scan -> Z.of_nat (length (collected st)) <= Z.max 0 limit ->
  sweep_pages classify limit max_scan fuel rest st = (st', done) ->
  exists pre post, rest = pre ++ post /\ examined st st' pre /\
    Z.of_nat (length (collected st')) <= Z.max 0 limit /\
    scanned st + Z.of_nat (length pre) <= Z.max 0 max_scan /\
    (done = true -> post = [] \/ limit <= Z.of_nat (length (collected st'))) /\
    ((length rest < fuel)%nat -> done = false ->
       limit <= Z.of_nat (length (collected st')) \/ max_scan <= scanned st + Z.of_nat (length pre)).
Proof.
  revert rest st. induction fuel as [|fuel IH]; intros rest st Hscan Hlen; cbn [sweep_pages].
  { intros [= <- <-]. exists [], rest. unfold examined. cbn. rewrite app_nil_r.
    split; [done|]. split; [split; [done|split; [done|lia]]|]. split; [lia|]. split; [lia|]. split; [done|lia]. }
  destruct (_ && _) eqn:Hgo.
  2:{ intros [= <- <-]. exists [], rest. unfold examined. cbn. rewrite app_nil_r.
    split; [done|]. split; [split; [done|split; [done|lia]]|]. split; [lia|]. split; [lia|]. split; [done|].
    intros _ _. apply andb_false_iff in Hgo as [Hgo|Hgo]; to_prop; lia. }
  to_prop. assert (Hlim : 0 < limit) by lia.
  destruct rest as [|row rest'].
  { rewrite take_nil. intros [= <- <-]. exists [], []. unfold examined. cbn. rewrite app_nil_r.
    split; [done|]. split; [split; [done|split; [done|lia]]|]. split; [lia|]. split; [lia|]. split; [by left|done]. }
  pose proof page_size_pos as Hps. set (rest := row :: rest') in *. set (page := take (Z.to_nat size) rest).
  assert (Hpage : page <> []).
  { unfold page, rest. destruct (Z.to_nat size) eqn:Hz; [lia|done]. }
  destruct (scan_page_spec page st Hlim ltac:(lia) ltac:(lia)) as (pre & post & Hsplit & Hex & Hstop & Hb & Hs & He1 & He2).
  assert (Hmatch : forall T (a b : T), match page with [] => a | _ :: _ => b end = b) by (by destruct page).
  rewrite Hmatch. clear Hmatch Hpage.
  assert (Hrest : rest = pre ++ post ++ drop (Z.to_nat size) rest).
  { rewrite (assoc_L (++)), <- Hsplit. unfold page. by rewrite take_drop. }
  destruct (Z.ltb_spec max_scan (scanned (scan page st))) as [Hmax|Hmax].
  { intros [= <- <-]. exists pre, (post ++ drop (Z.to_nat size) rest). split; [exact Hrest|].
    split; [exact Hex|]. split; [lia|]. specialize (He2 Hmax). split; [lia|]. split; [done|]. intros _ _. right. lia. }
  specialize (He1 Hmax).
  destruct (Z.ltb_spec (Z.of_nat (length page)) size) as [Hpart|Hfull].
  { intros [= <- <-]. exists pre, post. split.
    { rewrite <- Hsplit. symmetry. unfold page. apply take_ge. unfold page in Hpart. rewrite length_take in Hpart. lia. }
    split; [exact Hex|]. split; [lia|]. split; [lia|]. split; [|done]. intros _.
    destruct Hstop as [H1|[H1|H1]]; [by left|lia|by right]. }
  intros Hrec.
  destruct Hstop as [->|[H1|H1]]; [|lia|].
  - rewrite app_nil_r in Hsplit. subst pre.
    destruct (IH (drop (Z.to_nat size) rest) (scan page st)) as (pre2 & post2 & Hd & Hex2 & Hb2 & Hl2 & Hdone & Hfuel);
      [lia|lia|exact Hrec|].
    exists (page ++ pre2), post2. split; [rewrite <- (assoc_L (++)), <- Hd; by rewrite Hrest at 1|].
    split; [by eapply examined_app|]. rewrite length_app. split; [exact Hb2|]. split; [lia|].
    split; [exact Hdone|]. intros Hf Hd0. specialize (Hfuel ltac:(rewrite length_drop; unfold rest in *; cbn [length] in *; lia) Hd0). lia.
  - (* the page loop stopped at the limit: the next turn ends the sweep *)
    assert (Hend : (st', done) = (scan page st, false)).
    { rewrite <- Hrec. destruct fuel; cbn [sweep_pages]; [done|].
      rewrite (proj2 (Z.ltb_ge _ _)) by lia. done. }
    injection Hend as -> ->. exists pre, (post ++ drop (Z.to_nat size) rest). split; [exact Hrest|].
    split; [exact Hex|]. split; [lia|]. split; [lia|]. split; [done|]. intros _ _. left. lia.
Qed.
End sweep_proofs.

(** A bounded sweep examines a prefix of the rows behind its cursor and returns exactly the eligible
    ones among them, within both bounds; when it is not exhausted it resumes behind the last examined row
    and stopped because a bound was reached; when it reports exhaustion the rows are all examined or the
    result is full. *)
Theorem sweep_examines_prefix {A} (classify : swept_row -> option A) limit max_scan rows :
  let res := run_sweep classify limit max_scan rows in
  exists pre post, rows = pre ++ post /\ candidates res = omap classify pre /\
    Z.of_nat (length (candidates res)) <= Z.max 0 limit /\ Z.of_nat (length pre) <= Z.max 0 max_scan /\
    (exhausted res = false -> next_path res = last (map swept_path pre) /\
       (limit <= Z.of_nat (length (candidates res)) \/ max_scan <= Z.of_nat (length pre))) /\
    (exhausted res = true -> next_path res = None /\
       (post = [] \/ limit <= Z.of_nat (length (candidates res)))).
Proof.
  unfold run_sweep. cbv zeta.
  destruct (sweep_pages _ _ _ _ _ _) as [st' d] eqn:Hrun.
  destruct (sweep_pages_spec classify limit max_scan _ rows (MkProgress [] 0 None) _ _ ltac:(cbn; lia) ltac:(cbn; lia) Hrun)
    as (pre & post & -> & (Hc & Hp & _) & Hlen & Hscan & Hdone & Hfuel).
  exists pre, post. cbn [candidates next_path exhausted scanned collected last_path app] in *.
  split; [done|]. split; [exact Hc|]. split; [exact Hlen|]. split; [lia|]. split.
  - intros ->. split; [rewrite Hp; by destruct (last (map swept_path pre))|].
    destruct (Hfuel ltac:(lia) eq_refl); [by left|right; lia].
  - intros ->. split; [done|]. auto.
Qed.

(** The orphan sweep can report the collection exhausted, and so restart from the top, while an eligible row of
    the last partial page was never examined. *)
Theorem exhausted_sweep_skips_a_row :
  exists rows row, row ∈ rows /\ is_Some (classify_orphan 0 row) /\
    let res := get_stale_processing_orphan_candidates 0 3 2000 0 rows in
    exhausted res = true /\ next_path res = None /\ swept_id row ∉ map orphan_id (candidates res).
Proof.
  set (orphan := fun n => MkSwept ("users/u/conversations/" ++ n)%string n ∅).
  set (busy := MkSwept "users/u/conversations/b" "b" {["deferred" := PBool true]}).
  exists [orphan "1"; orphan "2"; busy; orphan "3"; orphan "4"]%string, (orphan "4"%string).
  split; [set_solver|]. split; [vm_compute; by eexists|]. cbv zeta.
  split; [vm_compute; reflexivity|]. split; [vm_compute; reflexivity|]. decided.
Qed.
