(* ===== verification/MeetingReceipt.v ===== *)
(** Meeting receipts attached to finalization jobs, and the bounded summary of
    the projection shards ([database/conversation_finalization_jobs.py], lines
    1069-1290 and 2070-2222). *)
From S2P Require Export FinalizationOutcome.

(** ** Receipts *)

Definition RECEIPT_KEYS : list string :=
  [ "meeting_receipt_schema_version"; "meeting_treatment_eligible"; "meeting_treatment_reason";
    "meeting_duration_s"; "meeting_dedup_speech_s"; "meeting_receipt_created_at";
    "meeting_receipt_updated_at"; "meeting_receipt_reconcile_after_at"; "meeting_receipt_intent_id";
    "meeting_receipt_intent_persisted_at"; "meeting_receipt_materialized_at" ].

Definition new_receipt (eligible : bool) (reason : string) (duration_s dedup_speech_s : Q) (now : Z)
    : list (string * field_write) :=
  [ put_int "meeting_receipt_schema_version" MEETING_RECEIPT_SCHEMA_VERSION;
    put_bool "meeting_treatment_eligible" eligible; put_str "meeting_treatment_reason" reason;
    ("meeting_duration_s", Put (PFloat duration_s));
    ("meeting_dedup_speech_s", Put (PFloat dedup_speech_s));
    put_time "meeting_receipt_created_at" now; put_time "meeting_receipt_updated_at" now;
    put_time "meeting_receipt_reconcile_after_at" (now + MEETING_RECEIPT_RECONCILE_AFTER);
    put_none "meeting_receipt_intent_id"; put_none "meeting_receipt_intent_persisted_at";
    put_none "meeting_receipt_materialized_at" ].

(** [{key: job.get(key) for key in (...) if key in job}] *)
Definition stored_receipt (job : doc) : doc := filter (fun kv => kv.1 ∈ RECEIPT_KEYS) job.

Definition has_receipt (job : doc) : bool :=
  py_eqb (py_get job "meeting_receipt_schema_version") (PInt MEETING_RECEIPT_SCHEMA_VERSION).

(** The job written when a receipt is recorded for a conversation that was
    never finalized durably. *)
Definition receipt_only_job (uid conversation_id : string) (revision : Z) (now : Z)
    : list (string * field_write) :=
  [ put_int "schema_version" 1; put_str "uid" uid; put_str "conversation_id" conversation_id;
    put_int "finalization_revision" revision; put_str "status" "completed";
    put_bool "requires_byok" false; put_str "processing_trigger" (trigger_value CAPTURE_END);
    put_bool "force_process" false;
    put_str "fanout_key" ("conversation:" ++ conversation_id ++ ":finalization")%string;
    put_str "fanout_status" "completed"; put_time "fanout_completed_at" now;
    put_str "finalization_outcome" "success"; put_str "terminal_outcome" "success";
    put_time "terminal_at" now; put_int "dispatch_generation" 1; put_int "attempt_count" 1;
    put_int "task_retry_count" 0; put_time "created_at" now; put_time "updated_at" now ].

(** [receipt[key]] *)
Definition receipt_field (receipt : doc) (key : string) : result pyexc pyval :=
  match receipt !! key with
  | Some v => Ok v
  | None => Raise (KeyError key)
  end.

Record receipt_result := MkReceipt {
  receipt_status : string;
  receipt_job_id : option string;
  receipt_fields : doc;
}.

Definition _record_meeting_receipt_txn (s : store) (uid conversation_id : string)
    (finalization_job_id : option string) (eligible : bool) (reason : string)
    (duration_s dedup_speech_s : Q) (now : Z) : result pyexc (store * receipt_result) :=
  let ref := (uid, conversation_id) in
  match conversations s !! ref with
  | None => Ok (s, MkReceipt "missing" None ∅)
  | Some row =>
      let conversation := row_fields row in
      let existing_job_id := py_get conversation "finalization_job_id" in
      let given :=
        match finalization_job_id with
        | Some j => if String.eqb j "" then None else Some j
        | None => None
        end in
      let* job_id :=
        match given with
        | Some j => Ok j
        | None =>
            match nonempty_str existing_job_id with
            | Some j => Ok j
            | None => let* revision := next_revision conversation in
                      Ok (_job_id uid conversation_id revision)
            end
        end in
      let job := default ∅ (jobs s !! job_id) in
      let present := negb (bool_decide (job = ∅)) in
      if present && negb (is_str (py_get job "uid") uid && is_str (py_get job "conversation_id") conversation_id)
      then Ok (s, MkReceipt "identity_mismatch" None ∅) else
      let fresh := new_receipt eligible reason duration_s dedup_speech_s now in
      let* '(s1, receipt) :=
        if has_receipt job then Ok (s, stored_receipt job)
        else if present then Ok (update_job s job_id job fresh, doc_set fresh)
        else
          let* revision := next_revision conversation in
          Ok (with_jobs s
                (<[job_id := doc_set (receipt_only_job uid conversation_id revision now ++ fresh)]> (jobs s)),
              doc_set fresh) in
      let* eligible_v := receipt_field receipt "meeting_treatment_eligible" in
      let* reason_v := receipt_field receipt "meeting_treatment_reason" in
      let* duration_v := receipt_field receipt "meeting_duration_s" in
      let* dedup_v := receipt_field receipt "meeting_dedup_speech_s" in
      let* extra :=
        if truthy existing_job_id then Ok []
        else let* revision := next_revision conversation in
             Ok [put_int "finalization_revision" revision; put_str "finalization_status" "completed"] in
      let s2 := update_conversation s1 ref row
                  ([ put_str "finalization_job_id" job_id;
                     put_bool "meeting_treatment_eligible" (truthy eligible_v);
                     ("meeting_treatment_reason", Put reason_v); ("meeting_duration_s", Put duration_v);
                     ("meeting_dedup_speech_s", Put dedup_v) ] ++ extra) now in
      Ok (s2, MkReceipt "recorded" (Some job_id) receipt)
  end.

Definition mark_meeting_receipt_intent_persisted (s : store) (job_id intent_id : string) (now : Z)
    : store * bool :=
  match jobs s !! job_id with
  | None => (s, false)
  | Some job =>
      match as_str (py_get job "meeting_receipt_intent_id") with
      | Some existing => (s, String.eqb existing intent_id)
      | None =>
          (update_job s job_id job
             [ put_str "meeting_receipt_intent_id" intent_id;
               put_time "meeting_receipt_intent_persisted_at" now;
               put_time "meeting_receipt_updated_at" now ], true)
      end
  end.

Definition mark_meeting_receipt_materialized (s : store) (uid conversation_id intent_id : string)
    (materialized_at : Z) : store * bool :=
  match conversations s !! (uid, conversation_id) with
  | None => (s, false)
  | Some row =>
      match nonempty_str (py_get (row_fields row) "finalization_job_id") with
      | None => (s, false)
      | Some job_id =>
          match jobs s !! job_id with
          | None => (s, false)
          | Some job =>
              if negb (is_str (py_get job "meeting_receipt_intent_id") intent_id) then (s, false)
              else
                match py_get job "meeting_receipt_materialized_at" with
                | PNone =>
                    (update_job s job_id job
                       [ put_time "meeting_receipt_materialized_at" materialized_at;
                         put_time "meeting_receipt_updated_at" materialized_at ], true)
                | _ => (s, true)
                end
          end
      end
  end.

(** ** The projection summary *)

(** [int(value)] of a stored counter, zero when the value is not a number. *)
Definition counter_value (v : pyval) : Z :=
  match v with
  | PInt z => z
  | PBool b => Z.b2z b
  | PFloat q => Z.quot (Qnum q) (Zpos (Qden q))
  | _ => 0
  end.

Definition shard_is_current (data : doc) (shard : Z) : bool :=
  is_str (py_get data "generation") FINALIZATION_PROJECTION_GENERATION
  && py_eqb (py_get data "shard") (PInt shard).

Definition shard_total (s : store) (shard : Z) (name : string) : Z :=
  match shards s !! _projection_shard_id FINALIZATION_PROJECTION_GENERATION shard with
  | None => 0
  | Some data => if shard_is_current data shard then counter_value (py_get data name) else 0
  end.

Definition shard_numbers : list Z := map Z.of_nat (seq 0 (Z.to_nat FINALIZATION_PROJECTION_SHARD_COUNT)).

(** [totals[name]] of [get_finalization_job_summary]. *)
Definition projection_total (s : store) (name : string) : Z :=
  sum_over (fun shard => shard_total s shard name) shard_numbers.

Record job_summary := MkSummary {
  sum_accepted : Z; sum_success : Z; sum_failure : Z; sum_stale : Z; sum_nonterminal : Z;
  sum_queued : Z; sum_leased : Z; sum_blocked_byok : Z; sum_completed : Z; sum_dead_letter : Z;
  sum_terminal_unknown : Z; sum_oldest_nonterminal_age : Z;
}.

(** The order of an index on one field: values by type (null, booleans, numbers,
    timestamps, strings, arrays, maps), timestamps by instant.  Within the other
    types no order is needed below. *)
Definition type_rank (v : pyval) : Z :=
  match v with
  | PNone => 0
  | PBool _ => 1
  | PInt _ | PFloat _ => 2
  | PTime _ => 3
  | PStr _ => 4
  | PList _ => 5
  | PDict _ => 6
  end.

Definition index_before (v w : pyval) : bool :=
  match v, w with
  | PTime a, PTime b => a <=? b
  | _, _ => type_rank v <=? type_rank w
  end.

(** The [created_at] of the first row the query on one status returns when it
    is ordered by that field; rows without the field are not in the index. *)
Definition first_created (s : store) (status : string) : option pyval :=
  map_fold (fun _ job first =>
    if is_str (py_get job "status") status then
      match job !! "created_at", first with
      | Some v, Some w => if index_before w v then Some w else Some v
      | Some v, None => Some v
      | None, _ => first
      end
    else first) None (jobs s).

Definition oldest_nonterminal_age (s : store) (now : Z) : Z :=
  foldr (fun status acc =>
    match first_created s status with
    | Some (PTime t) => Z.max acc (Z.max 0 (now - t))
    | _ => acc
    end) 0 NONTERMINAL_JOB_STATUSES.

Definition get_finalization_job_summary (s : store) (now : Z) : job_summary :=
  let total := projection_total s in
  {| sum_accepted := total "accepted"; sum_success := total "success"; sum_failure := total "failure";
     sum_stale := total "stale"; sum_nonterminal := total "queued" + total "leased";
     sum_queued := total "queued"; sum_leased := total "leased";
     sum_blocked_byok := total "blocked_byok"; sum_completed := total "completed";
     sum_dead_letter := total "dead_letter"; sum_terminal_unknown := 0;
     sum_oldest_nonterminal_age := oldest_nonterminal_age s now |}.
