(* ===== verification/FinalizationScenario.v ===== *)
(** One conversation finalized step by step: the concrete stores the theorems
    about the finalization transactions are instantiated at. *)
From S2P Require Export ConversationRecovery MeetingReceipt.

(** The store a transaction commits; an exception commits nothing. *)
Definition committed {A : Type} (s : store) (r : result pyexc (store * A)) : store :=
  match r with
  | Ok (s', _) => s'
  | Raise _ => s
  end.

(** What the caller of a transaction sees. *)
Definition answer {A : Type} (r : result pyexc (store * A)) : option A :=
  match r with
  | Ok (_, a) => Some a
  | Raise _ => None
  end.

Module Scenario.
(** Concrete stand-ins for the decoders: no transcript, single-part paths. *)
Definition no_transcript (_ : string) (_ : pyval) (_ : bool) : option (list pyval) := None.
Definition no_digest (_ : list pyval) : option string := None.
Definition plain_path (k : string) : option (list string) := Some [k].

Definition conv : string * string := ("u", "c").
Definition job_id : string := _job_id "u" "c" 1.
Definition admission (d : doc) : result pyexc FinalizationAdmission := _finalization_admission d "c".

Definition open_row : conversation_row :=
  MkRow (<["status" := PStr "in_progress"]> {["has_content" := PBool true]}) false 0.

Definition empty_store : store := MkStore ∅ {[conv := open_row]} ∅ ∅.

(** Admission of a job, with or without the user's own keys. *)
Definition admit_job (byok : bool) (s : store) (now : Z) : result pyexc (store * FinalizationIntent) :=
  _create_or_get_finalization_intent_txn no_transcript no_digest plain_path s "u" "c" byok admission now
    (seconds 300) CAPTURE_END None.

Definition claim (s : store) (now : Z) : result pyexc (store * FinalizationClaim) :=
  _claim_finalization_job_txn s job_id 1 true 10 now (Some "u") (Some "c").

(** A first worker claims the job, dies, and a second one claims it again. *)
Definition queued : store := committed empty_store (admit_job false empty_store 0).
Definition leased_once : store := committed queued (claim queued (seconds 1)).
Definition leased_twice : store := committed leased_once (claim leased_once (seconds 20)).

Definition queued_job : doc := default ∅ (jobs queued !! job_id).
Definition leased_job : doc := default ∅ (jobs leased_twice !! job_id).
Definition leased_row : conversation_row := default open_row (conversations leased_twice !! conv).
Definition dead_letter : store :=
  committed leased_twice (_mark_finalization_dead_letter_txn leased_twice job_id 1 2 5 (seconds 25)).

(** Processing completes the conversation, then the second worker fans out
    and completes the job. *)
Definition processed_row : conversation_row :=
  match conversations leased_twice !! conv with
  | Some row => MkRow (doc_update (row_fields row) [put_str "status" "completed"]) false (seconds 21)
  | None => open_row
  end.
Definition processed : store :=
  with_conversations leased_twice (<[conv := processed_row]> (conversations leased_twice)).
Definition fanning_out : store :=
  committed processed (_claim_finalization_fanout_txn processed job_id 1 2 (seconds 22)).
Definition fanned_out : store :=
  committed fanning_out (_mark_finalization_fanout_completed_txn fanning_out job_id 1 2 (seconds 23)).
Definition completed : store :=
  committed fanned_out (_mark_finalization_completed_txn fanned_out job_id 1 2 (seconds 24)).

Definition completed_job : doc := default ∅ (jobs completed !! job_id).

(** A BYOK job whose worker never returns. *)
Definition byok_queued : store :=
  let s := committed empty_store (admit_job true empty_store 0) in
  committed s (_resume_blocked_byok_job_txn s job_id (seconds 1)).
Definition byok_abandoned : store :=
  committed byok_queued
    (abandon_byok_finalization_job byok_queued job_id "queued" 1 0 (seconds 100) (seconds 200)).
End Scenario.
