(* ===== verification/FinalizationInv.v ===== *)
(** The finalization store as a transition system: its steps, the well-formedness
    of stored jobs, and the agreement of the projection shards with the job
    collection in every reachable store. *)
From S2P Require Export FinalizationScenario.

(** ** Steps *)

Section steps.
Context (decode_segments : string -> pyval -> bool -> option (list pyval)).
Context (transcript_sha256_for_binding : list pyval -> option string).
Context (field_path_parts : string -> option (list string)).

(** One committed transaction on the jobs, with arbitrary arguments: a step of
    the fleet of web, worker and reconciler processes in any interleaving. *)
Inductive job_step (s s' : store) : Prop :=
| step_create_intent uid c byok adm now stale trig extra i :
    _create_or_get_finalization_intent_txn decode_segments transcript_sha256_for_binding
      field_path_parts s uid c byok adm now stale trig extra = Ok (s', i) -> job_step s s'
| step_resume j now i : _resume_blocked_byok_job_txn s j now = Ok (s', i) -> job_step s s'
| step_claim j gen byok lease now u c r :
    _claim_finalization_job_txn s j gen byok lease now u c = Ok (s', r) -> job_step s s'
| step_completed j gen ep now b :
    _mark_finalization_completed_txn s j gen ep now = Ok (s', b) -> job_step s s'
| step_fenced j gen ep now b :
    _mark_finalization_fenced_txn s j gen ep now = Ok (s', b) -> job_step s s'
| step_claim_fanout j gen ep now r :
    _claim_finalization_fanout_txn s j gen ep now = Ok (s', r) -> job_step s s'
| step_fanout_completed j gen ep now b :
    _mark_finalization_fanout_completed_txn s j gen ep now = Ok (s', b) -> job_step s s'
| step_retryable j gen ep code now stale b :
    _mark_finalization_retryable_txn s j gen ep code now stale = Ok (s', b) -> job_step s s'
| step_dead_letter j gen ep rc now b :
    _mark_finalization_dead_letter_txn s j gen ep rc now = Ok (s', b) -> job_step s s'
| step_replay j stale now i :
    _claim_finalization_replay_txn s j stale now = Ok (s', i) -> job_step s s'
| step_abandon j st gen ep cutoff now r :
    _abandon_byok_finalization_job_txn s j st gen ep cutoff now = Ok (s', r) -> job_step s s'
| step_receipt uid c j el re d sp now r :
    _record_meeting_receipt_txn s uid c j el re d sp now = Ok (s', r) -> job_step s s'
| step_receipt_intent j i now b :
    mark_meeting_receipt_intent_persisted s j i now = (s', b) -> job_step s s'
| step_receipt_materialized uid c i at_ b :
    mark_meeting_receipt_materialized s uid c i at_ = (s', b) -> job_step s s'
| step_conversation m : s' = with_conversations s m -> job_step s s'
| step_sweep_state m : s' = with_sweep_state s m -> job_step s s'.
End steps.

(** No job and no shard exists before the first admission. *)
Definition initial_store (s : store) : Prop := jobs s = ∅ /\ shards s = ∅.

(** ** What the shards count *)

Definition COUNTER_NAMES : list string :=
  [ "accepted"; "queued"; "leased"; "blocked_byok"; "completed"; "dead_letter"; "success"; "failure"; "stale" ].
Definition OUTCOME_NAMES : list string := ["success"; "failure"; "stale"].
Definition ALL_JOB_STATUSES : list string := NONTERMINAL_JOB_STATUSES ++ TERMINAL_JOB_STATUSES.

(** Whether a job belongs under a counter: every job is accepted, a status
    counter counts that status, an outcome counter that terminal outcome. *)
Definition counts_as (name : string) (job : doc) : bool :=
  if String.eqb name "accepted" then true
  else if bool_decide (name ∈ OUTCOME_NAMES) then is_str (py_get job "terminal_outcome") name
  else is_str (py_get job "status") name.

(** The shard of a job of the current projection generation. *)
Definition tracked_shard (job : doc) : option Z :=
  match _projection_ref_for_job job with
  | Some _ => as_int (py_get job "projection_shard")
  | None => None
  end.

Definition in_shard (n : Z) (job : doc) : bool := bool_decide (tracked_shard job = Some n).

Definition is_tracked (job : doc) : bool := bool_decide (is_Some (tracked_shard job)).

(** The terminal outcome a status goes with: none before a terminal status. *)
Definition outcome_fits (w : string) (outcome : pyval) : bool :=
  if String.eqb w "completed" then is_str outcome "success" || is_str outcome "stale"
  else if String.eqb w "dead_letter" then is_str outcome "failure"
  else match outcome with PNone => true | _ => false end.

(** A stored job has one of the five statuses and the outcome that goes with it. *)
Definition job_ok (job : doc) : Prop :=
  exists w, w ∈ ALL_JOB_STATUSES /\ py_get job "status" = PStr w /\
    outcome_fits w (py_get job "terminal_outcome") = true.

(** A shard document of the current generation with integer counters. *)
Definition shard_ok (n : Z) (data : doc) : Prop :=
  shard_is_current data n = true /\
  forall name, name ∈ COUNTER_NAMES -> data !! name = None \/ exists z, data !! name = Some (PInt z).

Definition shard_agrees (s : store) (n : Z) : Prop :=
  (forall data, shards s !! _projection_shard_id FINALIZATION_PROJECTION_GENERATION n = Some data ->
     shard_ok n data) /\
  forall name, name ∈ COUNTER_NAMES ->
    shard_total s n name = count_if (fun job => in_shard n job && counts_as name job) (jobs s).

Definition store_ok (s : store) : Prop :=
  (forall j job, jobs s !! j = Some job -> job_ok job) /\
  (forall n, 0 <= n < FINALIZATION_PROJECTION_SHARD_COUNT -> shard_agrees s n).

(** The net change a list of deltas makes to a counter. *)
Definition delta_of (deltas : list (string * Z)) (name : string) : Z :=
  sum_over (fun nd => if String.eqb nd.1 name then nd.2 else 0) deltas.

Definition indicator (b : bool) : Z := if b then 1 else 0.

(** The shard document a delta writes. *)
Definition shard_after (old : doc) (n : Z) (deltas : list (string * Z)) : doc :=
  doc_update old (("generation", Put (PStr FINALIZATION_PROJECTION_GENERATION))
                  :: ("shard", Put (PInt n)) :: nonzero_increments deltas).

(** [counts_as] as a function of the two fields it reads. *)
Definition counts_of (name : string) (status outcome : pyval) : bool :=
  if String.eqb name "accepted" then true
  else if bool_decide (name ∈ OUTCOME_NAMES) then is_str outcome name
  else is_str status name.

(** A list of deltas moves every counter as a change of status and terminal
    outcome requires. *)
Definition delta_matches (deltas : list (string * Z)) (status outcome status' outcome' : pyval) : bool :=
  forallb (fun name => delta_of deltas name =?
      indicator (counts_of name status' outcome') - indicator (counts_of name status outcome)) COUNTER_NAMES
  && forallb (fun nd => bool_decide (nd.1 ∈ COUNTER_NAMES)) deltas.

Definition PROJECTION_FIELDS : list string := ["projection_generation"; "projection_shard"].

(** A list of writes that leaves the named fields alone. *)
Definition leaves (keys : list string) (ws : list (string * field_write)) : bool :=
  forallb (fun kw => negb (bool_decide (kw.1 ∈ keys))) ws.

(** ** Shards *)

Lemma shard_id_inj a b :
  0 <= a < 16 -> 0 <= b < 16 ->
  _projection_shard_id FINALIZATION_PROJECTION_GENERATION a =
  _projection_shard_id FINALIZATION_PROJECTION_GENERATION b -> a = b.
Proof.
  intros Ha Hb. unfold _projection_shard_id, two_digits.
  assert (Hin : forall x, 0 <= x < 16 -> x ∈ shard_numbers).
  { intros x Hx. unfold shard_numbers. apply list_elem_of_fmap. exists (Z.to_nat x).
    split; [lia|]. apply elem_of_seq. unfold FINALIZATION_PROJECTION_SHARD_COUNT. lia. }
  assert (Hall : forallb (fun x => forallb (fun y => Bool.eqb
    (String.eqb (_projection_shard_id FINALIZATION_PROJECTION_GENERATION x)
               (_projection_shard_id FINALIZATION_PROJECTION_GENERATION y)) (Z.eqb x y))
    shard_numbers) shard_numbers = true) by (vm_compute; reflexivity).
  rewrite forallb_forall in Hall. specialize (Hall a ltac:(by apply list_elem_of_In, Hin)).
  rewrite forallb_forall in Hall. specialize (Hall b ltac:(by apply list_elem_of_In, Hin)).
  apply Bool.eqb_prop in Hall. unfold _projection_shard_id, two_digits in Hall.
  intros Heq. apply Z.eqb_eq. rewrite <- Hall. by apply String.eqb_eq.
Qed.

Lemma tracked_shard_spec job n :
  tracked_shard job = Some n ->
  0 <= n < FINALIZATION_PROJECTION_SHARD_COUNT /\
  _projection_ref_for_job job = Some (_projection_shard_id FINALIZATION_PROJECTION_GENERATION n).
Proof.
  unfold tracked_shard, _projection_ref_for_job.
  destruct (as_str _) as [g|]; [|done]. destruct (as_int _) as [k|]; [|done].
  destruct (_ && _) eqn:Hg; [|done]. intros [= ->]. to_prop. subst. done.
Qed.

Lemma untracked_ref job : tracked_shard job = None -> _projection_ref_for_job job = None.
Proof.
  unfold tracked_shard, _projection_ref_for_job.
  destruct (as_str _); [|done]. destruct (as_int _); [|done]. by destruct (_ && _).
Qed.

Lemma delta_of_nonzero deltas name :
  sum_over (fun nd => if String.eqb nd.1 name then nd.2 else 0)
    (List.filter (fun nd => negb (nd.2 =? 0)) deltas) = delta_of deltas name.
Proof.
  unfold delta_of, sum_over. induction deltas as [|[k z] deltas IH]; simpl; [done|].
  destruct (Z.eqb_spec z 0) as [->|]; simpl; rewrite IH; [|done].
  destruct (String.eqb k name); lia.
Qed.

(** A run of increments adds their sum to an integer or absent field. *)
Lemma increments_lookup (incs : list (string * Z)) (o : option pyval) name :
  (o = None \/ exists z, o = Some (PInt z)) ->
  let o' := foldl (fun o kw => if String.eqb name kw.1 then apply_field o kw.2 else o) o
              (map (fun nd => (nd.1, Increment nd.2)) incs) in
  (o' = None \/ exists z, o' = Some (PInt z)) /\
  counter_value (default PNone o') = counter_value (default PNone o)
    + sum_over (fun nd => if String.eqb nd.1 name then nd.2 else 0) incs.
Proof.
  unfold sum_over. revert o. induction incs as [|[k z] incs IH]; intros o Ho;
    cbn [foldl map fst snd foldr]; [split; [done|lia]|].
  rewrite (String.eqb_sym k name). destruct (String.eqb name k).
  - destruct (IH (apply_field o (Increment z))) as [H1 H2].
    { right. destruct Ho as [->|[y ->]]; simpl; eauto. }
    split; [done|]. rewrite H2. destruct Ho as [->|[y ->]]; simpl; lia.
  - destruct (IH o Ho) as [H1 H2]. split; [done|]. rewrite H2. lia.
Qed.

(** ** Recording a delta *)

Lemma foldl_puts_other (ws : list (string * field_write)) name (o : option pyval) :
  Forall (fun kw => String.eqb name kw.1 = false) ws ->
  foldl (fun o kw => if String.eqb name kw.1 then apply_field o kw.2 else o) o ws = o.
Proof. intros Hws. induction Hws as [|kw ws Hk _ IH]; simpl; [done|]. by rewrite Hk. Qed.

Lemma nonzero_increments_names deltas :
  Forall (fun nd => nd.1 ∈ COUNTER_NAMES) deltas ->
  Forall (fun kw : string * field_write => kw.1 ∈ COUNTER_NAMES) (nonzero_increments deltas).
Proof.
  intros Hd. unfold nonzero_increments. induction Hd as [|[k z] ds Hk _ IH]; simpl; [constructor|].
  destruct (negb (z =? 0)); [by constructor|done].
Qed.

Lemma shard_after_current old n deltas :
  Forall (fun nd => nd.1 ∈ COUNTER_NAMES) deltas -> shard_is_current (shard_after old n deltas) n = true.
Proof.
  intros Hd. apply nonzero_increments_names in Hd. unfold shard_is_current, shard_after.
  assert (Hkeep : forall key o, key ∉ COUNTER_NAMES ->
    foldl (fun o kw => if String.eqb key kw.1 then apply_field o kw.2 else o) o (nonzero_increments deltas) = o).
  { intros key o Hkey. apply foldl_puts_other. eapply Forall_impl; [exact Hd|].
    intros kw Hin. apply String.eqb_neq. intros ->. contradiction. }
  rewrite !py_get_update. cbn [foldl fst snd apply_field].
  change ("generation" =? "shard")%string with false.
  change ("shard" =? "generation")%string with false.
  rewrite !(String.eqb_refl "generation"), !(String.eqb_refl "shard").
  rewrite !Hkeep by (unfold COUNTER_NAMES; word_cases). simpl.
  apply Qeq_bool_iff. reflexivity.
Qed.

Lemma shard_after_counter old n deltas name :
  name ∈ COUNTER_NAMES ->
  (old !! name = None \/ exists z, old !! name = Some (PInt z)) ->
  let new := shard_after old n deltas in
  (new !! name = None \/ exists z, new !! name = Some (PInt z)) /\
  counter_value (py_get new name) = counter_value (py_get old name) + delta_of deltas name.
Proof.
  intros Hname Hold. unfold shard_after, py_get. rewrite lookup_doc_update.
  assert (Hne : String.eqb name "generation" = false /\ String.eqb name "shard" = false).
  { unfold COUNTER_NAMES in Hname. split; apply String.eqb_neq; intros ->; word_cases. }
  destruct Hne as [Hg Hs]. cbn [foldl fst snd]. rewrite Hg, Hs.
  unfold nonzero_increments. rewrite <- (delta_of_nonzero deltas name).
  apply (increments_lookup _ (old !! name) name Hold).
Qed.


(** Recording a delta for a tracked job adds it to that job's shard and leaves
    the other shards alone. *)
Lemma record_delta_total s job deltas n name :
  0 <= n < FINALIZATION_PROJECTION_SHARD_COUNT ->
  Forall (fun nd => nd.1 ∈ COUNTER_NAMES) deltas ->
  (forall data, shards s !! _projection_shard_id FINALIZATION_PROJECTION_GENERATION n = Some data ->
     shard_ok n data) ->
  (forall data, shards (_record_projection_delta s job deltas)
                  !! _projection_shard_id FINALIZATION_PROJECTION_GENERATION n = Some data ->
     shard_ok n data) /\
  (name ∈ COUNTER_NAMES ->
   shard_total (_record_projection_delta s job deltas) n name =
     shard_total s n name + if in_shard n job then delta_of deltas name else 0).
Proof.
  intros Hn Hd Hok. unfold _record_projection_delta, in_shard.
  destruct (tracked_shard job) as [k|] eqn:Hk.
  2:{ rewrite (untracked_ref job Hk). rewrite bool_decide_false by congruence. split; [done|lia]. }
  destruct (tracked_shard_spec job k Hk) as [Hkr ->].
  assert (Has : as_int (py_get job "projection_shard") = Some k).
  { unfold tracked_shard in Hk. by destruct (_projection_ref_for_job job). }
  rewrite Has. cbn [default].
  destruct (nonzero_increments deltas) as [|i incs] eqn:Hincs.
  { split; [done|]. intros Hname. pose proof (delta_of_nonzero deltas name) as H0.
    unfold nonzero_increments in Hincs. apply map_eq_nil in Hincs. rewrite Hincs in H0. simpl in H0.
    rewrite <- H0. destruct (bool_decide _); lia. }
  rewrite <- Hincs.
  change (doc_update ?o (_ :: _ :: nonzero_increments deltas)) with (shard_after o k deltas).
  destruct (decide (n = k)) as [->|Hne].
  - rewrite bool_decide_true by done. unfold shard_total, with_shards. cbn [shards]. rewrite lookup_insert_eq.
    set (old := default ∅ (shards s !! _)).
    assert (Hold : forall name, name ∈ COUNTER_NAMES -> old !! name = None \/ exists z, old !! name = Some (PInt z)).
    { intros m Hm. unfold old. revert Hok. destruct (shards s !! _) as [data|] eqn:Hs; intros Hok; cbn [default]; [|left; apply lookup_empty].
      by apply (Hok data). }
    split.
    + intros data [= <-]. split; [by apply shard_after_current|].
      intros m Hm. exact (proj1 (shard_after_counter old k deltas m Hm (Hold m Hm))).
    + intros Hname. rewrite shard_after_current by done.
      destruct (shard_after_counter old k deltas name Hname (Hold name Hname)) as [_ ->].
      unfold old. revert Hok. destruct (shards s !! _) as [data|] eqn:Hs; intros Hok; cbn [default]; [|done].
      destruct (Hok data eq_refl) as [-> _]. done.
  - rewrite bool_decide_false by congruence. simpl. unfold shard_total. simpl.
    rewrite lookup_insert_ne.
    + split; [done|lia].
    + intros Heq. apply Hne. symmetry. by apply shard_id_inj.
Qed.

(** ** Job updates that keep the store consistent *)

Lemma leaves_get keys ws d k :
  leaves keys ws = true -> k ∈ keys -> py_get (doc_update d ws) k = py_get d k.
Proof.
  intros Hl Hk. apply py_get_update_other. unfold leaves in Hl. rewrite forallb_forall in Hl.
  apply Forall_forall. intros kw Hin. apply String.eqb_neq. intros ->.
  specialize (Hl kw (proj1 (list_elem_of_In _ _) Hin)). to_prop. contradiction.
Qed.

Lemma leaves_tracked ws d : leaves PROJECTION_FIELDS ws = true -> tracked_shard (doc_update d ws) = tracked_shard d.
Proof.
  intros Hl. unfold tracked_shard, _projection_ref_for_job.
  rewrite !(leaves_get _ _ _ _ Hl) by (unfold PROJECTION_FIELDS; set_solver). done.
Qed.

Lemma counts_as_of name job :
  counts_as name job = counts_of name (py_get job "status") (py_get job "terminal_outcome").
Proof. done. Qed.

Lemma record_delta_jobs s job deltas : jobs (_record_projection_delta s job deltas) = jobs s.
Proof. unfold _record_projection_delta. follow; done. Qed.

Lemma record_delta_conversations s job deltas :
  conversations (_record_projection_delta s job deltas) = conversations s.
Proof. unfold _record_projection_delta. follow; done. Qed.

Lemma delta_matches_spec deltas st out st' out' name :
  delta_matches deltas st out st' out' = true -> name ∈ COUNTER_NAMES ->
  delta_of deltas name = indicator (counts_of name st' out') - indicator (counts_of name st out).
Proof.
  unfold delta_matches. intros Hm Hname. to_prop.
  match goal with H : forallb _ COUNTER_NAMES = true |- _ => rewrite forallb_forall in H;
    specialize (H name (proj1 (list_elem_of_In _ _) Hname)) end.
  by apply Z.eqb_eq.
Qed.

Lemma delta_matches_names deltas st out st' out' :
  delta_matches deltas st out st' out' = true -> Forall (fun nd => nd.1 ∈ COUNTER_NAMES) deltas.
Proof.
  unfold delta_matches. intros Hm. to_prop.
  match goal with H : forallb _ deltas = true |- _ => rewrite forallb_forall in H; rename H into Hd end.
  apply Forall_forall. intros nd Hin. specialize (Hd nd (proj1 (list_elem_of_In _ _) Hin)). by to_prop.
Qed.

(** Writing a job and recording the matching delta keeps every shard in
    agreement with the jobs. *)
Lemma write_job_agrees s s1 j job' ref_job deltas :
  jobs s1 = <[j := job']> (jobs s) -> shards s1 = shards s ->
  tracked_shard ref_job = tracked_shard job' ->
  (forall job, jobs s !! j = Some job -> tracked_shard job = tracked_shard job') ->
  Forall (fun nd => nd.1 ∈ COUNTER_NAMES) deltas ->
  (forall name, name ∈ COUNTER_NAMES -> is_Some (tracked_shard job') ->
     delta_of deltas name = indicator (counts_as name job')
       - match jobs s !! j with Some job => indicator (counts_as name job) | None => 0 end) ->
  forall n, 0 <= n < FINALIZATION_PROJECTION_SHARD_COUNT ->
    shard_agrees s n -> shard_agrees (_record_projection_delta s1 ref_job deltas) n.
Proof.
  intros Hjobs Hshards Href Hold Hnames Hdelta n Hn [Hok Htot].
  assert (Hrec := fun name => record_delta_total s1 ref_job deltas n name Hn Hnames).
  rewrite Hshards in Hrec. split; [by apply (Hrec "accepted" Hok)|].
  intros name Hname. rewrite (proj2 (Hrec name Hok) Hname).
  assert (Hs : shard_total s1 n name = shard_total s n name) by (unfold shard_total; by rewrite Hshards).
  rewrite Hs, Htot by done. rewrite record_delta_jobs, Hjobs, count_if_insert.
  unfold in_shard in *. rewrite Href.
  destruct (decide (tracked_shard job' = Some n)) as [Ht|Ht].
  - rewrite (bool_decide_true _ Ht), (Hdelta name Hname) by (by eexists).
    destruct (jobs s !! j) as [job|] eqn:Hj; simpl; unfold indicator; [|lia].
    rewrite (Hold job eq_refl). rewrite (bool_decide_true _ Ht). simpl. lia.
  - rewrite (bool_decide_false _ Ht). simpl.
    destruct (jobs s !! j) as [job|] eqn:Hj; [|lia].
    rewrite (Hold job eq_refl), (bool_decide_false _ Ht). simpl. lia.
Qed.

Lemma live_no_outcome w o : w ∈ NONTERMINAL_JOB_STATUSES -> outcome_fits w o = true -> o = PNone.
Proof.
  unfold NONTERMINAL_JOB_STATUSES, outcome_fits. rewrite !elem_of_cons, elem_of_nil.
  intros [->|[->|[->|[]]]]; simpl; by destruct o.
Qed.

(** A transition of a live job. *)
Lemma transition_ok s s1 j job ws deltas w w' o' :
  store_ok s -> jobs s !! j = Some job ->
  jobs s1 = <[j := doc_update job ws]> (jobs s) -> shards s1 = shards s ->
  leaves PROJECTION_FIELDS ws = true ->
  py_get job "status" = PStr w -> w ∈ NONTERMINAL_JOB_STATUSES ->
  py_get (doc_update job ws) "status" = PStr w' -> w' ∈ ALL_JOB_STATUSES ->
  (py_get job "terminal_outcome" = PNone -> py_get (doc_update job ws) "terminal_outcome" = o') ->
  outcome_fits w' o' = true ->
  delta_matches deltas (PStr w) PNone (PStr w') o' = true ->
  store_ok (_record_projection_delta s1 job deltas).
Proof.
  intros [Hjobs Hsh] Hj Hjobs1 Hsh1 Hl Hw Hwn Hw' Hw'a Ho Ho' Hd.
  assert (Hout : py_get job "terminal_outcome" = PNone).
  { destruct (Hjobs j job Hj) as (x & _ & Hx & Hxo). rewrite Hw in Hx. injection Hx as <-.
    apply (live_no_outcome w); done. }
  specialize (Ho Hout). split.
  - intros i d. rewrite record_delta_jobs, Hjobs1.
    destruct (decide (i = j)) as [->|Hne]; [rewrite lookup_insert_eq|rewrite lookup_insert_ne by done; apply Hjobs].
    intros [= <-]. exists w'. split; [done|]. split; [done|]. rewrite Ho. done.
  - intros n Hn. apply (write_job_agrees s s1 j (doc_update job ws)); try done.
    + symmetry. by apply leaves_tracked.
    + rewrite Hj. intros d [= <-]. symmetry. by apply leaves_tracked.
    + by eapply delta_matches_names.
    + intros name Hname _. rewrite Hj, !counts_as_of, Hw, Hw', Ho, Hout.
      by apply delta_matches_spec.
    + by apply Hsh.
Qed.

(** An update that leaves status, outcome and projection fields alone. *)
Lemma quiet_update_ok s j job ws :
  store_ok s -> jobs s !! j = Some job ->
  leaves ("status" :: "terminal_outcome" :: PROJECTION_FIELDS) ws = true ->
  store_ok (update_job s j job ws).
Proof.
  intros [Hjobs Hsh] Hj Hl.
  assert (Hst : forall k, k ∈ "status" :: "terminal_outcome" :: PROJECTION_FIELDS ->
            py_get (doc_update job ws) k = py_get job k) by (intros k Hk; by eapply leaves_get).
  assert (Htr : tracked_shard (doc_update job ws) = tracked_shard job).
  { unfold tracked_shard, _projection_ref_for_job. rewrite !Hst by (unfold PROJECTION_FIELDS; set_solver). done. }
  split.
  - intros i d. unfold update_job. cbn [jobs with_jobs].
    destruct (decide (i = j)) as [->|Hne]; [rewrite lookup_insert_eq|rewrite lookup_insert_ne by done; apply Hjobs].
    intros [= <-]. unfold job_ok. rewrite !Hst by set_solver. by apply (Hjobs j).
  - intros n Hn.
    assert (Heq : update_job s j job ws = _record_projection_delta (update_job s j job ws) job []).
    { unfold _record_projection_delta. destruct (_projection_ref_for_job job); done. }
    rewrite Heq. apply (write_job_agrees s _ j (doc_update job ws)); try done.
    + rewrite Hj. intros d [= <-]. done.
    + intros name _ _. rewrite Hj, !counts_as_of, !Hst by set_solver. simpl. lia.
    + by apply Hsh.
Qed.

(** A job created under a fresh identifier. *)
Lemma fresh_job_ok s s1 j job deltas :
  store_ok s -> jobs s !! j = None -> jobs s1 = <[j := job]> (jobs s) -> shards s1 = shards s ->
  job_ok job -> Forall (fun nd => nd.1 ∈ COUNTER_NAMES) deltas ->
  (forall name, name ∈ COUNTER_NAMES -> is_Some (tracked_shard job) ->
     delta_of deltas name = indicator (counts_as name job)) ->
  store_ok (_record_projection_delta s1 job deltas).
Proof.
  intros [Hjobs Hsh] Hj Hjobs1 Hsh1 Hok Hn Hd. split.
  - intros i d. rewrite record_delta_jobs, Hjobs1.
    destruct (decide (i = j)) as [->|Hne]; [rewrite lookup_insert_eq|rewrite lookup_insert_ne by done; apply Hjobs].
    by intros [= <-].
  - intros n Hr. apply (write_job_agrees s s1 j job); try done.
    + rewrite Hj. done.
    + intros name Hname Ht. rewrite Hj, Hd by done. lia.
    + by apply Hsh.
Qed.

(** The shards and jobs decide consistency. *)
Lemma store_ok_ext s s' : jobs s' = jobs s -> shards s' = shards s -> store_ok s -> store_ok s'.
Proof.
  intros Hj Hs. unfold store_ok, shard_agrees, shard_total. rewrite Hj, Hs. done.
Qed.

(** ** Every transaction keeps the store consistent *)

Lemma job_ok_status job :
  job_ok job -> exists w, w ∈ ALL_JOB_STATUSES /\ py_get job "status" = PStr w /\
    (forall dflt, get_str_or job "status" dflt = w).
Proof.
  intros (w & Hw & Hs & _). exists w. split; [done|]. split; [done|].
  intros dflt. unfold get_str_or. rewrite Hs, py_or_str_nonempty; [done|].
  intros ->. unfold ALL_JOB_STATUSES, NONTERMINAL_JOB_STATUSES, TERMINAL_JOB_STATUSES in Hw. simpl in Hw. word_cases.
Qed.

Lemma lookup_default_status job w : py_get job "status" = PStr w -> job !! "status" = Some (PStr w).
Proof. unfold py_get. destruct (job !! "status"); simpl; congruence. Qed.

Lemma current_lease_leased job gen ep : _is_current_lease job gen ep = Ok true -> py_get job "status" = PStr "leased".
Proof. unfold _is_current_lease. destruct (is_str _ _) eqn:H; [|done]. intros _. by apply is_str_spec. Qed.

(** Discharge the side conditions of [transition_ok] for concrete writes. *)
Ltac closed_writes :=
  repeat match goal with
  | |- context [if truthy ?x then _ else _] => destruct (truthy x)
  end; vm_compute; reflexivity.

Ltac split_truthy :=
  repeat match goal with |- context [if truthy ?x then _ else _] => destruct (truthy x) end.

Ltac finish_transition :=
  match goal with
  | |- store_ok _ => done
  | |- _ !! _ = Some _ => done
  | |- jobs _ = _ => reflexivity
  | |- shards _ = _ => reflexivity
  | |- leaves _ _ = true => closed_writes
  | |- delta_matches _ _ _ _ _ = true => vm_compute; reflexivity
  | |- py_get (doc_update _ _) _ = _ => split_truthy; doc_simpl; done
  | |- py_get _ _ = PNone -> _ => intros ?; split_truthy; doc_simpl; done
  | |- _ ∈ _ => unfold ALL_JOB_STATUSES, NONTERMINAL_JOB_STATUSES, TERMINAL_JOB_STATUSES; set_solver
  | |- outcome_fits _ _ = true => reflexivity
  | |- _ => done
  end.

Lemma completed_ok s j gen ep now s' b :
  store_ok s -> _mark_finalization_completed_txn s j gen ep now = Ok (s', b) -> store_ok s'.
Proof.
  intros Hs. unfold _mark_finalization_completed_txn.
  destruct (jobs s !! j) as [job|] eqn:Hj; [|by intros [= <- _]].
  destruct (is_str (py_get job "status") "completed"); [intros Hr; inv_bind; by simplify_eq|].
  intros Hr; inv_bind. destruct x; cbn [negb] in Hr; [|by simplify_eq].
  destruct (negb _); [by simplify_eq|]. simplify_eq.
  match goal with H : _ = Ok true |- _ => apply current_lease_leased in H end.
  eapply (transition_ok s _ j job _ _ "leased" "completed" (PStr "success")); finish_transition.
Qed.

(** Walk the early returns of a transaction; they leave the store as it was. *)
Ltac early_returns :=
  repeat match goal with
  | H : Ok _ = Ok _ |- _ => injection H as H; subst; try done
  | H : (_, _) = (_, _) |- _ => injection H as H; subst; try done
  | H : rbind _ _ = Ok _ |- _ => apply rbind_ok in H; destruct H as (? & ? & H)
  | H : (if negb ?b then _ else _) = _ |- _ => destruct b eqn:?; cbn [negb] in H
  | H : (if ?b then _ else _) = _ |- _ => destruct b eqn:?
  | H : match ?x with Some _ => _ | None => _ end = _ |- _ => destruct x eqn:?
  | H : match ?x with PNone => _ | _ => _ end = _ |- _ => destruct x eqn:?
  end.

Ltac leased_now :=
  match goal with H : _is_current_lease _ _ _ = Ok true |- _ => apply current_lease_leased in H end.

Lemma fenced_ok s j gen ep now s' b :
  store_ok s -> _mark_finalization_fenced_txn s j gen ep now = Ok (s', b) -> store_ok s'.
Proof.
  intros Hs Hr. unfold _mark_finalization_fenced_txn in Hr. early_returns. leased_now.
  eapply (transition_ok s _ j _ _ _ "leased" "completed" (PStr "stale")); finish_transition.
Qed.

Lemma retryable_ok s j gen ep code now stale s' b :
  store_ok s -> _mark_finalization_retryable_txn s j gen ep code now stale = Ok (s', b) -> store_ok s'.
Proof.
  intros Hs Hr. unfold _mark_finalization_retryable_txn in Hr. early_returns. leased_now.
  eapply (transition_ok s _ j _ _ _ "leased" "queued" PNone); unfold retryable_fields; finish_transition.
Qed.

Lemma fanout_completed_ok s j gen ep now s' b :
  store_ok s -> _mark_finalization_fanout_completed_txn s j gen ep now = Ok (s', b) -> store_ok s'.
Proof.
  intros Hs Hr. unfold _mark_finalization_fanout_completed_txn in Hr. early_returns.
  by eapply quiet_update_ok.
Qed.

Lemma claim_fanout_ok s j gen ep now s' r :
  store_ok s -> _claim_finalization_fanout_txn s j gen ep now = Ok (s', r) -> store_ok s'.
Proof.
  intros Hs Hr. unfold _claim_finalization_fanout_txn in Hr.
  destruct (jobs s !! j) as [job|] eqn:Hj; [|by early_returns].
  inv_bind. destruct (is_str _ "completed"); [by early_returns|].
  inv_bind. destruct x0; cbn [negb] in Hr; [|by early_returns]. leased_now.
  match type of Hr with (if ?b then _ else _) = _ => destruct b end; simplify_eq; [|by eapply quiet_update_ok].
  eapply (transition_ok s _ j job _ _ "leased" "completed" (PStr "stale")); finish_transition.
Qed.

Lemma dead_letter_ok s j gen ep rc now s' b :
  store_ok s -> _mark_finalization_dead_letter_txn s j gen ep rc now = Ok (s', b) -> store_ok s'.
Proof.
  intros Hs Hr. unfold _mark_finalization_dead_letter_txn in Hr.
  destruct (jobs s !! j) as [job|] eqn:Hj; [|by early_returns].
  inv_bind. destruct x; cbn [negb] in Hr; [|by early_returns]. leased_now.
  assert (Hok : store_ok (_record_projection_delta (update_job s j job (dead_letter_fields rc now)) job
                  [("leased", -1); ("dead_letter", 1); ("failure", 1)])).
  { eapply (transition_ok s _ j job _ _ "leased" "dead_letter" (PStr "failure")); finish_transition. }
  revert Hr. follow; intros; simplify_eq; done.
Qed.

Lemma resume_ok s j now s' i :
  store_ok s -> _resume_blocked_byok_job_txn s j now = Ok (s', i) -> store_ok s'.
Proof.
  intros Hs Hr. unfold _resume_blocked_byok_job_txn in Hr. early_returns. to_prop.
  match goal with H : is_str _ _ = true |- _ => apply is_str_spec in H end.
  eapply (transition_ok s _ j _ _ _ "blocked_byok" "queued" PNone); finish_transition.
Qed.

(** Facts about a stored job's status as the handlers read it. *)
Ltac job_status Hs Hj :=
  let w := fresh "w" in let Hw := fresh "Hw" in let Hst := fresh "Hst" in let Hg := fresh "Hget" in
  destruct (job_ok_status _ (proj1 Hs _ _ Hj)) as (w & Hw & Hst & Hg); rewrite ?Hg in *.

Lemma claim_ok s j gen byok lease now u c s' r :
  store_ok s -> _claim_finalization_job_txn s j gen byok lease now u c = Ok (s', r) -> store_ok s'.
Proof.
  intros Hs Hr. unfold _claim_finalization_job_txn in Hr.
  destruct (jobs s !! j) as [job|] eqn:Hj; [|by early_returns].
  job_status Hs Hj. cbv zeta in Hr.
  repeat match type of Hr with (if ?b then Ok _ else _) = _ => destruct b eqn:?; [by early_returns|] end.
  apply rbind_ok in Hr as (g & Hg & Hr).
  repeat match type of Hr with (if ?b then Ok _ else _) = _ => destruct b eqn:?; [by early_returns|] end.
  inv_bind. simplify_eq.
  match goal with H : negb (_ || _) = false |- _ => apply negb_false_iff, orb_true_iff in H as [Hq|Hq] end;
    apply String.eqb_eq in Hq; subst w.
  - eapply (transition_ok s _ j job _ _ "queued" "leased" PNone); unfold claim_lease_fields; finish_transition.
  - assert (Heq : update_job s j job (claim_lease_fields job (x + 1) (now + seconds lease) now)
        = _record_projection_delta (update_job s j job (claim_lease_fields job (x + 1) (now + seconds lease) now)) job []).
    { unfold _record_projection_delta. by destruct (_projection_ref_for_job job). }
    simpl. rewrite Heq.
    eapply (transition_ok s _ j job _ _ "leased" "leased" PNone); unfold claim_lease_fields; finish_transition.
Qed.

Lemma replay_ok s j stale now s' i :
  store_ok s -> _claim_finalization_replay_txn s j stale now = Ok (s', i) -> store_ok s'.
Proof.
  intros Hs Hr. unfold _claim_finalization_replay_txn in Hr.
  destruct (jobs s !! j) as [job|] eqn:Hj; [|by early_returns].
  job_status Hs Hj. cbv zeta in Hr.
  repeat match type of Hr with (if ?b then rbind _ _ else _) = _ => destruct b eqn:?; [by early_returns|] end.
  inv_bind. simplify_eq.
  match goal with H : negb (_ || _) = false |- _ => apply negb_false_iff, orb_true_iff in H as [Hq|Hq] end;
    apply String.eqb_eq in Hq; subst w.
  - assert (Heq : update_job s j job (replay_fields (x + 1) stale now)
        = _record_projection_delta (update_job s j job (replay_fields (x + 1) stale now)) job []).
    { unfold _record_projection_delta. by destruct (_projection_ref_for_job job). }
    simpl. rewrite Heq.
    eapply (transition_ok s _ j job _ _ "queued" "queued" PNone); finish_transition.
  - simpl. eapply (transition_ok s _ j job _ _ "leased" "queued" PNone); finish_transition.
Qed.

Lemma abandon_ok s j st gen ep cutoff now s' r :
  store_ok s -> _abandon_byok_finalization_job_txn s j st gen ep cutoff now = Ok (s', r) -> store_ok s'.
Proof.
  intros Hs Hr. unfold _abandon_byok_finalization_job_txn in Hr.
  destruct (jobs s !! j) as [job|] eqn:Hj; [|by early_returns].
  job_status Hs Hj. cbv zeta in Hr.
  repeat match type of Hr with (if ?b then Ok _ else _) = _ => destruct b eqn:?; [by early_returns|] end.
  apply rbind_ok in Hr as (g & Hg & Hr).
  repeat match type of Hr with (if ?b then Ok _ else _) = _ => destruct b eqn:?; [by early_returns|] end.
  apply rbind_ok in Hr as (e & He & Hr).
  repeat match type of Hr with (if negb ?b then Ok (s, _) else _) = _ => destruct (negb b) eqn:?; [by early_returns|] end.
  to_prop.
  assert (Hok : store_ok (_record_projection_delta (update_job s j job (abandoned_fields now)) job
     [ ("queued", if String.eqb w "queued" then -1 else 0); ("leased", if String.eqb w "leased" then -1 else 0);
       ("dead_letter", 1); ("failure", 1) ])).
  { match goal with H : (_ || _) = true |- _ => apply orb_true_iff in H as [Hq|Hq] end;
      apply String.eqb_eq in Hq; subst w; simpl.
    - eapply (transition_ok s _ j job _ _ "queued" "dead_letter" (PStr "failure")); finish_transition.
    - eapply (transition_ok s _ j job _ _ "leased" "dead_letter" (PStr "failure")); finish_transition. }
  revert Hr. follow; intros; simplify_eq; done.
Qed.

Lemma receipt_intent_ok s j i now s' b :
  store_ok s -> mark_meeting_receipt_intent_persisted s j i now = (s', b) -> store_ok s'.
Proof.
  intros Hs Hr. unfold mark_meeting_receipt_intent_persisted in Hr. early_returns.
  by eapply quiet_update_ok.
Qed.

Lemma receipt_materialized_ok s uid c i at_ s' b :
  store_ok s -> mark_meeting_receipt_materialized s uid c i at_ = (s', b) -> store_ok s'.
Proof.
  intros Hs Hr. unfold mark_meeting_receipt_materialized in Hr. early_returns.
  all: by eapply quiet_update_ok.
Qed.

Lemma receipt_job_fields uid c rev el re d sp now :
  let job := doc_set (receipt_only_job uid c rev now ++ new_receipt el re d sp now) in
  py_get job "status" = PStr "completed" /\ py_get job "terminal_outcome" = PStr "success" /\
    py_get job "projection_generation" = PNone /\ py_get job "fanout_status" = PStr "completed".
Proof.
  unfold doc_set, receipt_only_job, new_receipt, py_get. rewrite !lookup_doc_update.
  cbn [app foldl String.eqb Ascii.eqb Bool.eqb fst snd apply_field default put_str put_int put_bool put_time put_none].
  by rewrite lookup_empty.
Qed.

Lemma receipt_ok s uid c jid el re d sp now s' r :
  store_ok s -> _record_meeting_receipt_txn s uid c jid el re d sp now = Ok (s', r) -> store_ok s'.
Proof.
  intros Hs Hr. unfold _record_meeting_receipt_txn in Hr.
  destruct (conversations s !! (uid, c)) as [row|] eqn:Hrow; [|by early_returns].
  cbv zeta in Hr. apply rbind_ok in Hr as (job_id & Hid & Hr).
  destruct (negb (bool_decide _) && _) eqn:Hident; [by early_returns|].
  apply rbind_ok in Hr as ([s1 receipt] & Hs1 & Hr). do 5 (apply rbind_ok in Hr as (? & _ & Hr)). injection Hr as <- _.
  apply (store_ok_ext s1); [done|done|].
  destruct (has_receipt _); [by simplify_eq|].
  destruct (negb (bool_decide (default ∅ (jobs s !! job_id) = ∅))) eqn:Hp.
  - simplify_eq. destruct (jobs s !! job_id) as [job|] eqn:Hj; [|done].
    by eapply quiet_update_ok.
  - apply rbind_ok in Hs1 as (rev & _ & Hs1). injection Hs1 as <- <-.
    destruct (jobs s !! job_id) as [job|] eqn:Hj.
    { exfalso. to_prop. simpl in Hp. subst job. destruct (proj1 Hs _ _ Hj) as (w & Hw & Hst & _).
      unfold py_get in Hst. by rewrite lookup_empty in Hst. }
    match goal with |- store_ok (with_jobs s (<[_ := ?j]> _)) => set (job := j) end.
    assert (Hf : py_get job "status" = PStr "completed" /\ py_get job "terminal_outcome" = PStr "success" /\
    py_get job "projection_generation" = PNone)
      by (destruct (receipt_job_fields uid c rev el re d sp now) as (H1 & H2 & H3 & _); exact (conj H1 (conj H2 H3))).
    destruct Hf as (Hst & Hout & Hgen). clearbody job.
    assert (Hun : tracked_shard job = None).
    { unfold tracked_shard, _projection_ref_for_job. by rewrite Hgen. }
    assert (Heq : with_jobs s (<[job_id := job]> (jobs s))
      = _record_projection_delta (with_jobs s (<[job_id := job]> (jobs s))) job []).
    { unfold _record_projection_delta. by rewrite untracked_ref. }
    rewrite Heq. apply (fresh_job_ok s _ job_id); try done.
    + exists "completed". rewrite Hst, Hout. unfold ALL_JOB_STATUSES, TERMINAL_JOB_STATUSES. split; [set_solver|done].
    + intros name _ [? Hx]. congruence.
Qed.

Lemma projection_shard_range j : 0 <= _projection_shard j < FINALIZATION_PROJECTION_SHARD_COUNT.
Proof. unfold _projection_shard. apply Z.mod_pos_bound. unfold FINALIZATION_PROJECTION_SHARD_COUNT. lia. Qed.

Lemma new_job_fields uid c rev j st fo byok plat tr now stale :
  let job := new_finalization_job uid c rev j st fo byok plat tr now stale in
  py_get job "status" = PStr st /\ py_get job "terminal_outcome" = PNone /\
  py_get job "projection_generation" = PStr FINALIZATION_PROJECTION_GENERATION /\
  py_get job "projection_shard" = PInt (_projection_shard j).
Proof.
  unfold new_finalization_job, doc_set, py_get. cbv zeta. rewrite !lookup_doc_update.
  destruct byok;
    cbn [app foldl String.eqb Ascii.eqb Bool.eqb fst snd apply_field default put_str put_int put_bool put_time];
    rewrite ?lookup_empty; done.
Qed.

Lemma new_job_ok s j job st (byok : bool) :
  store_ok s -> jobs s !! j = None ->
  st = (if byok then "blocked_byok" else "queued")%string ->
  py_get job "status" = PStr st -> py_get job "terminal_outcome" = PNone ->
  store_ok (_record_projection_delta (with_jobs s (<[j := job]> (jobs s))) job
              [("accepted", 1); ("blocked_byok", if byok then 1 else 0); ("queued", if byok then 0 else 1)]).
Proof.
  intros Hs Hj -> Hst Hout. apply (fresh_job_ok s _ j); try done.
  - eexists. split; [|split; [exact Hst|rewrite Hout; by destruct byok]].
    unfold ALL_JOB_STATUSES, NONTERMINAL_JOB_STATUSES. destruct byok; set_solver.
  - unfold COUNTER_NAMES. repeat constructor; simpl; set_solver.
  - intros name Hname _. rewrite counts_as_of, Hst, Hout.
    assert (Hall : forallb (fun name => delta_of [("accepted", 1); ("blocked_byok", if byok then 1 else 0); ("queued", if byok then 0 else 1)] name
      =? indicator (counts_of name (PStr (if byok then "blocked_byok" else "queued")) PNone)) COUNTER_NAMES = true)
      by (destruct byok; vm_compute; reflexivity).
    rewrite forallb_forall in Hall. by apply Z.eqb_eq, Hall, list_elem_of_In.
Qed.

Lemma apply_bound_keeps dec sha fpp s ref row extra lc now :
  jobs (_apply_snapshot_bound_projection dec sha fpp s ref row extra lc now) = jobs s /\
  shards (_apply_snapshot_bound_projection dec sha fpp s ref row extra lc now) = shards s.
Proof. unfold _apply_snapshot_bound_projection. cbv zeta. follow; done. Qed.

Lemma apply_bound_ok dec sha fpp s ref row extra lc now :
  store_ok s -> store_ok (_apply_snapshot_bound_projection dec sha fpp s ref row extra lc now).
Proof. intros Hs. by eapply store_ok_ext; [apply apply_bound_keeps|apply apply_bound_keeps|]. Qed.

(** Only the conversation changed. *)
Ltac same_jobs H := apply ok_pair in H as [<- _]; by apply apply_bound_ok.

Lemma create_ok dec sha fpp s uid c byok adm now stale trig extra s' i :
  store_ok s ->
  _create_or_get_finalization_intent_txn dec sha fpp s uid c byok adm now stale trig extra = Ok (s', i) ->
  store_ok s'.
Proof.
  intros Hs Hr. unfold _create_or_get_finalization_intent_txn in Hr.
  destruct (conversations s !! (uid, c)) as [row|] eqn:Hrow; [|by early_returns].
  cbv zeta in Hr.
  repeat match type of Hr with (if ?b then Ok _ else _) = _ => destruct b; [same_jobs Hr|] end.
  apply rbind_ok in Hr as (adm' & _ & Hr).
  destruct (terminal adm'); [same_jobs Hr|].
  destruct (match nonempty_str _ with Some _ => _ | None => _ end) as [[ej ejob]|].
  { inv_bind. same_jobs Hr. }
  destruct (if accepted adm' then _ else _) as [[|a fo]|];
    [same_jobs Hr| |
     same_jobs Hr].
  apply rbind_ok in Hr as (rev & _ & Hr).
  destruct (jobs s !! _job_id uid c rev) as [job|] eqn:Hj.
  { inv_bind. same_jobs Hr. }
  inv_bind. apply ok_pair in Hr as [<- _]. apply apply_bound_ok.
  pose proof (new_job_fields uid c rev (_job_id uid c rev) (if byok then "blocked_byok" else "queued")%string
    (String a fo) byok (py_get (row_fields row) "client_platform") trig now stale) as (Hst & Hout & _).
  exact (new_job_ok s _ _ _ byok Hs Hj eq_refl Hst Hout).
Qed.

Lemma job_step_ok dec sha fpp s s' : store_ok s -> job_step dec sha fpp s s' -> store_ok s'.
Proof.
  intros Hs Hst. destruct Hst; match goal with H : _ = _ |- _ => rename H into H0 end.
  - eapply create_ok; [exact Hs|exact H0].
  - eapply resume_ok; [exact Hs|exact H0].
  - eapply claim_ok; [exact Hs|exact H0].
  - eapply completed_ok; [exact Hs|exact H0].
  - eapply fenced_ok; [exact Hs|exact H0].
  - eapply claim_fanout_ok; [exact Hs|exact H0].
  - eapply fanout_completed_ok; [exact Hs|exact H0].
  - eapply retryable_ok; [exact Hs|exact H0].
  - eapply dead_letter_ok; [exact Hs|exact H0].
  - eapply replay_ok; [exact Hs|exact H0].
  - eapply abandon_ok; [exact Hs|exact H0].
  - eapply receipt_ok; [exact Hs|exact H0].
  - eapply receipt_intent_ok; [exact Hs|exact H0].
  - eapply receipt_materialized_ok; [exact Hs|exact H0].
  - subst. by apply (store_ok_ext s).
  - subst. by apply (store_ok_ext s).
Qed.

Lemma initial_store_ok s : initial_store s -> store_ok s.
Proof.
  intros [Hj Hs]. split; rewrite ?Hj; [by intros ??; rewrite lookup_empty|].
  intros n Hn. unfold shard_agrees, shard_total. rewrite Hs, Hj, lookup_empty. split; [done|].
  intros name _. by rewrite count_if_empty.
Qed.

Lemma reachable_store_ok dec sha fpp s : reachable initial_store (job_step dec sha fpp) s -> store_ok s.
Proof. apply reachable_ind_inv; [apply initial_store_ok|intros; by eapply job_step_ok]. Qed.


(** ** The summary counts the jobs *)

(** A tracked job is in exactly one shard. *)
Lemma sum_in_shard job b :
  sum_over (fun n => indicator (in_shard n job && b)) shard_numbers = indicator (is_tracked job && b).
Proof.
  destruct b; [|by setoid_rewrite andb_false_r].
  setoid_rewrite andb_true_r. unfold in_shard, is_tracked.
  destruct (tracked_shard job) as [k|] eqn:Hk; [|reflexivity].
  destruct (tracked_shard_spec job k Hk) as [Hr _].
  rewrite (bool_decide_true (is_Some (Some k))) by eauto. unfold FINALIZATION_PROJECTION_SHARD_COUNT in Hr.
  assert (Hin : k ∈ shard_numbers).
  { unfold shard_numbers. apply list_elem_of_fmap. exists (Z.to_nat k). split; [lia|].
    apply elem_of_seq. unfold FINALIZATION_PROJECTION_SHARD_COUNT. lia. }
  assert (Hall : forallb (fun k => sum_over (fun n => indicator (bool_decide (Some k = Some n))) shard_numbers =? 1)
    shard_numbers = true) by (vm_compute; reflexivity).
  rewrite forallb_forall in Hall. apply Z.eqb_eq, Hall. by apply list_elem_of_In.
Qed.

Lemma shard_numbers_range n : n ∈ shard_numbers -> 0 <= n < FINALIZATION_PROJECTION_SHARD_COUNT.
Proof.
  unfold shard_numbers. intros Hn. apply list_elem_of_fmap in Hn as (i & -> & Hi).
  apply elem_of_seq in Hi. unfold FINALIZATION_PROJECTION_SHARD_COUNT in *. lia.
Qed.

Lemma projection_total_counts s name :
  store_ok s -> name ∈ COUNTER_NAMES ->
  projection_total s name = count_if (fun job => is_tracked job && counts_as name job) (jobs s).
Proof.
  intros [_ Hsh] Hname. unfold projection_total. symmetry.
  rewrite (sum_count_if (fun n job => in_shard n job && counts_as name job) _ _ shard_numbers).
  - apply sum_over_ext_in. intros n Hn. symmetry. by apply Hsh; [apply shard_numbers_range|].
  - intros j job _. symmetry. apply sum_in_shard.
Qed.

(** The counters whose indicators add up to another's for every job whose
    outcome fits its status. *)
Definition balances (g : string) (fs : list string) : Prop :=
  forall job, job_ok job -> indicator (counts_as g job) = sum_over (fun f => indicator (counts_as f job)) fs.

Lemma job_ok_balance job : job_ok job -> 
  indicator (counts_as "accepted" job) = sum_over (fun f => indicator (counts_as f job))
    ["queued"; "leased"; "blocked_byok"; "completed"; "dead_letter"] /\
  indicator (counts_as "completed" job) = sum_over (fun f => indicator (counts_as f job)) ["success"; "stale"] /\
  indicator (counts_as "dead_letter" job) = sum_over (fun f => indicator (counts_as f job)) ["failure"].
Proof.
  intros (w & Hw & Hst & Hout). unfold sum_over. cbn [foldr]. rewrite !counts_as_of, Hst.
  unfold ALL_JOB_STATUSES, NONTERMINAL_JOB_STATUSES, TERMINAL_JOB_STATUSES in Hw. simpl in Hw.
  rewrite !elem_of_cons, elem_of_nil in Hw.
  revert Hout. generalize (py_get job "terminal_outcome"). intros o Hout.
  destruct Hw as [->|[->|[->|[->|[->|[]]]]]]; unfold outcome_fits in Hout; simpl in Hout.
  1-3: destruct o; done.
  - apply orb_true_iff in Hout as [H|H]; apply is_str_spec in H; subst o; done.
  - apply is_str_spec in Hout. subst o. done.
Qed.

Lemma balances_totals s g fs :
  store_ok s -> balances g fs -> g ∈ COUNTER_NAMES -> (forall f, f ∈ fs -> f ∈ COUNTER_NAMES) ->
  projection_total s g = sum_over (projection_total s) fs.
Proof.
  intros Hs Hb Hg Hfs. rewrite projection_total_counts by done.
  rewrite (sum_count_if (fun f job => is_tracked job && counts_as f job) _ _ fs).
  - apply sum_over_ext_in. intros f Hf. by rewrite projection_total_counts by auto.
  - intros j job Hj. specialize (Hb job (proj1 Hs j job Hj)). unfold indicator in Hb.
    destruct (is_tracked job); simpl; [exact Hb|]. by rewrite sum_over_zero.
Qed.

(** ** The scenario is reachable *)

Lemma committed_ok {A} s (r : result pyexc (store * A)) :
  is_ok r = true -> exists a, r = Ok (committed s r, a).
Proof. destruct r as [[s' a]|e]; [by exists a|done]. Qed.

Lemma committed_answer {A} s (r : result pyexc (store * A)) a :
  answer r = Some a -> r = Ok (committed s r, a).
Proof. destruct r as [[s' a']|e]; [by intros [= ->]|done]. Qed.

Lemma found_default (o : option doc) : bool_decide (is_Some o) = true -> o = Some (default ∅ o).
Proof. by destruct o. Qed.

Section scenario.
Import Scenario.
#[local] Abbreviation step := (job_step no_transcript no_digest plain_path).

Lemma scenario_initial : initial_store empty_store.
Proof. done. Qed.

Lemma scenario_admission : step empty_store queued.
Proof. destruct (committed_ok empty_store (admit_job false empty_store 0)) as [i Hi]; [by vm_compute|].
  exact (step_create_intent _ _ _ empty_store queued "u" "c" false admission 0 (seconds 300) CAPTURE_END None i Hi). Qed.

Lemma first_claim :
  _claim_finalization_job_txn queued job_id 1 true 10 (seconds 1) (Some "u") (Some "c")
  = Ok (leased_once, MkClaim "claimed" (Some 1) 0 (Some 0)).
Proof. apply committed_answer. vm_compute. reflexivity. Qed.

Lemma second_claim :
  _claim_finalization_job_txn leased_once job_id 1 true 10 (seconds 20) (Some "u") (Some "c")
  = Ok (leased_twice, MkClaim "claimed" (Some 2) 0 (Some 0)).
Proof. apply committed_answer. vm_compute. reflexivity. Qed.

Lemma scenario_claim : step queued leased_once.
Proof. exact (step_claim _ _ _ _ _ _ _ _ _ _ _ _ _ first_claim). Qed.

Lemma scenario_reclaim : step leased_once leased_twice.
Proof. exact (step_claim _ _ _ _ _ _ _ _ _ _ _ _ _ second_claim). Qed.

Lemma scenario_finish : star step leased_twice completed.
Proof.
  apply (star_step _ leased_twice processed);
    [exact (step_conversation _ _ _ leased_twice processed (<[conv := processed_row]> (conversations leased_twice)) eq_refl)|].
  destruct (committed_ok processed (_claim_finalization_fanout_txn processed job_id 1 2 (seconds 22))) as [r1 H1];
    [by vm_compute|].
  apply (star_step _ processed fanning_out);
    [exact (step_claim_fanout _ _ _ processed fanning_out job_id 1 2 (seconds 22) r1 H1)|].
  destruct (committed_ok fanning_out (_mark_finalization_fanout_completed_txn fanning_out job_id 1 2 (seconds 23)))
    as [r2 H2]; [by vm_compute|].
  apply (star_step _ fanning_out fanned_out);
    [exact (step_fanout_completed _ _ _ fanning_out fanned_out job_id 1 2 (seconds 23) r2 H2)|].
  destruct (committed_ok fanned_out (_mark_finalization_completed_txn fanned_out job_id 1 2 (seconds 24)))
    as [r3 H3]; [by vm_compute|].
  apply (star_step _ fanned_out completed);
    [exact (step_completed _ _ _ fanned_out completed job_id 1 2 (seconds 24) r3 H3)|]. apply star_refl.
Qed.

Lemma completed_job_stored : jobs completed !! job_id = Some completed_job.
Proof. apply found_default. vm_compute. reflexivity. Qed.

Lemma queued_reachable : reachable initial_store step queued.
Proof. eapply reach_step; [apply reach_init, scenario_initial|apply scenario_admission]. Qed.

Lemma leased_reachable : reachable initial_store step leased_twice.
Proof. eapply reach_step; [eapply reach_step; [apply queued_reachable|apply scenario_claim]|apply scenario_reclaim]. Qed.

Lemma completed_reachable : reachable initial_store step completed.
Proof. eapply reachable_star; [apply leased_reachable|apply scenario_finish]. Qed.
End scenario.

Ltac counter := unfold COUNTER_NAMES; set_solver.

(** C1: in every store the finalization transactions can reach, each counter of the projection
    summary equals the number of tracked jobs that belong under it. *)
Theorem projection_counts_jobs decode_segments transcript_sha256 field_path_parts s name :
  reachable initial_store (job_step decode_segments transcript_sha256 field_path_parts) s ->
  name ∈ COUNTER_NAMES ->
  projection_total s name = count_if (fun job => is_tracked job && counts_as name job) (jobs s).
Proof. intros Hr. apply projection_total_counts. by eapply reachable_store_ok. Qed.
Lemma projection_counts_jobs_witness :
  projection_total Scenario.completed "success" =
    count_if (fun job => is_tracked job && counts_as "success" job) (jobs Scenario.completed) /\
  projection_total Scenario.completed "success" = 1.
Proof.
  split; [|by vm_compute].
  apply (projection_counts_jobs _ _ _ _ "success" completed_reachable). counter.
Defined.

(** The summary balances. *)
Theorem summary_balances decode_segments transcript_sha256 field_path_parts s now :
  reachable initial_store (job_step decode_segments transcript_sha256 field_path_parts) s ->
  let sm := get_finalization_job_summary s now in
  sum_accepted sm = sum_nonterminal sm + sum_blocked_byok sm + sum_success sm + sum_failure sm + sum_stale sm /\
  sum_completed sm = sum_success sm + sum_stale sm /\ sum_dead_letter sm = sum_failure sm /\
  0 <= sum_nonterminal sm <= sum_accepted sm.
Proof.
  intros Hr%reachable_store_ok. cbn -[projection_total].
  assert (Hpos : forall name, name ∈ COUNTER_NAMES -> 0 <= projection_total s name).
  { intros name Hn. rewrite projection_total_counts by done. auto with remi. }
  assert (Hb : forall g fs, balances g fs -> g ∈ COUNTER_NAMES -> (forall f, f ∈ fs -> f ∈ COUNTER_NAMES) ->
    projection_total s g = sum_over (projection_total s) fs) by (intros; by apply balances_totals).
  pose proof (Hb "accepted" ["queued"; "leased"; "blocked_byok"; "completed"; "dead_letter"]
    (fun job Hj => proj1 (job_ok_balance job Hj)) ltac:(counter) ltac:(counter)).
  pose proof (Hb "completed" ["success"; "stale"]
    (fun job Hj => proj1 (proj2 (job_ok_balance job Hj))) ltac:(counter) ltac:(counter)).
  pose proof (Hb "dead_letter" ["failure"]
    (fun job Hj => proj2 (proj2 (job_ok_balance job Hj))) ltac:(counter) ltac:(counter)).
  unfold sum_over in *; cbn [foldr] in *.
  pose proof (Hpos "queued" ltac:(counter)).
  pose proof (Hpos "leased" ltac:(counter)).
  pose proof (Hpos "blocked_byok" ltac:(counter)).
  pose proof (Hpos "success" ltac:(counter)).
  pose proof (Hpos "stale" ltac:(counter)).
  pose proof (Hpos "failure" ltac:(counter)).
  repeat split; lia.
Qed.
Lemma summary_balances_witness :
  sum_completed (get_finalization_job_summary Scenario.completed (seconds 30)) =
  sum_success (get_finalization_job_summary Scenario.completed (seconds 30))
    + sum_stale (get_finalization_job_summary Scenario.completed (seconds 30)).
Proof.
  exact (proj1 (proj2 (summary_balances _ _ _ Scenario.completed (seconds 30) completed_reachable))).
Defined.
