(* ===== verification/FinalizationLease.v ===== *)
(** Leases over the finalization transition system: the epoch fence between
    workers, and the finality of terminal outcomes. *)
From S2P Require Export FinalizationInv.

(** ** What a worker holding a lease may do

    The transactions that present a [(dispatch_generation, lease_epoch)] pair,
    whatever they answer. *)
Inductive worker_step (s : store) (j : string) (gen ep : Z) (s' : store) : Prop :=
| worker_completed now b :
    _mark_finalization_completed_txn s j gen ep now = Ok (s', b) -> worker_step s j gen ep s'
| worker_fenced now b :
    _mark_finalization_fenced_txn s j gen ep now = Ok (s', b) -> worker_step s j gen ep s'
| worker_claim_fanout now r :
    _claim_finalization_fanout_txn s j gen ep now = Ok (s', r) -> worker_step s j gen ep s'
| worker_fanout_completed now b :
    _mark_finalization_fanout_completed_txn s j gen ep now = Ok (s', b) -> worker_step s j gen ep s'
| worker_retryable code now stale b :
    _mark_finalization_retryable_txn s j gen ep code now stale = Ok (s', b) -> worker_step s j gen ep s'
| worker_dead_letter rc now b :
    _mark_finalization_dead_letter_txn s j gen ep rc now = Ok (s', b) -> worker_step s j gen ep s'.

(** The lease epoch of a stored job, as the transactions read it. *)
Definition lease_epoch_is (s : store) (j : string) (e : Z) : Prop :=
  exists job, jobs s !! j = Some job /\ get_int_or job "lease_epoch" 0 = Ok e.

(** A job reports success only with a completed external fanout. *)
Definition fanout_settled (job : doc) : Prop :=
  py_get job "terminal_outcome" = PStr "success" -> py_get job "fanout_status" = PStr "completed".

(** What every step does to the jobs: a stored job stays as it was or is
    updated by a list of writes, and a created job has a settled fanout. *)
Definition job_evolves (P : doc -> list (string * field_write) -> Prop) (s s' : store) : Prop :=
  (forall j job, jobs s !! j = Some job ->
     jobs s' !! j = Some job \/ exists ws, jobs s' !! j = Some (doc_update job ws) /\ P job ws) /\
  (forall j job, jobs s !! j = None -> jobs s' !! j = Some job -> fanout_settled job).

(** Writes to a job: either the lease epoch is left alone, or it is raised by
    one in a claim. *)
Definition epoch_writes (job : doc) (ws : list (string * field_write)) : Prop :=
  leaves ["lease_epoch"] ws = true \/
  exists e, get_int_or job "lease_epoch" 0 = Ok e /\
    py_get (doc_update job ws) "lease_epoch" = PInt (e + 1).

(** Writes to a job as far as its verdict goes: they leave status and outcome
    of a terminal job alone. *)
Definition verdict_writes (job : doc) (ws : list (string * field_write)) : Prop :=
  leaves ["status"; "terminal_outcome"] ws = true \/
  exists w, py_get job "status" = PStr w /\ w ∈ NONTERMINAL_JOB_STATUSES.

(** Writes to a job that keep "success" behind a completed fanout. *)
Definition fanout_writes (job : doc) (ws : list (string * field_write)) : Prop :=
  leaves ["terminal_outcome"; "fanout_status"] ws = true \/
  is_str (py_get (doc_update job ws) "terminal_outcome") "success" = false \/
  is_str (py_get (doc_update job ws) "fanout_status") "completed" = true.

Definition disciplined (job : doc) (ws : list (string * field_write)) : Prop :=
  epoch_writes job ws /\ verdict_writes job ws /\ (job_ok job -> fanout_writes job ws).

(** ** Every transaction is disciplined *)

Lemma evolves_same P s s' : jobs s' = jobs s -> job_evolves P s s'.
Proof. intros Heq. split; intros j job Hj; rewrite Heq; [by left|congruence]. Qed.

Lemma evolves_update (P : doc -> list (string * field_write) -> Prop) s s' j job ws :
  jobs s !! j = Some job -> jobs s' = <[j := doc_update job ws]> (jobs s) -> P job ws -> job_evolves P s s'.
Proof.
  intros Hj Heq HP. split; intros i d Hi; rewrite Heq; (destruct (decide (i = j)) as [->|Hne];
    [rewrite lookup_insert_eq|rewrite lookup_insert_ne by done]); try (intros; congruence).
  - rewrite Hj in Hi. injection Hi as <-. right. by exists ws.
  - by left.
Qed.

Lemma evolves_fresh P s s' j job :
  jobs s !! j = None -> jobs s' = <[j := job]> (jobs s) -> fanout_settled job -> job_evolves P s s'.
Proof.
  intros Hj Heq HP. split; intros i d Hi; rewrite Heq; (destruct (decide (i = j)) as [->|Hne];
    [rewrite lookup_insert_eq|rewrite lookup_insert_ne by done]); try (intros; congruence); [by left|].
  by intros [= <-].
Qed.

Ltac evolve j :=
  eapply (evolves_update _ _ _ j);
  [eassumption | cbn [jobs with_jobs update_job update_conversation with_conversations];
    rewrite ?record_delta_jobs; reflexivity | ].

Lemma live_verdict job ws w :
  py_get job "status" = PStr w -> bool_decide (w ∈ NONTERMINAL_JOB_STATUSES) = true -> verdict_writes job ws.
Proof. intros Hs Hw. right. exists w. by apply bool_decide_eq_true in Hw. Qed.

Lemma disciplined_live job ws w :
  py_get job "status" = PStr w -> bool_decide (w ∈ NONTERMINAL_JOB_STATUSES) = true ->
  epoch_writes job ws -> fanout_writes job ws -> disciplined job ws.
Proof. intros Hs Hw He Hf. split; [done|]. split; [by eapply live_verdict|done]. Qed.

Lemma disciplined_quiet job ws :
  leaves ["lease_epoch"; "status"; "terminal_outcome"; "fanout_status"] ws = true -> disciplined job ws.
Proof.
  intros Hl. assert (Hsub : forall keys, keys ⊆ ["lease_epoch"; "status"; "terminal_outcome"; "fanout_status"] ->
    leaves keys ws = true).
  { intros keys Hk. unfold leaves in *. rewrite forallb_forall in *. intros kw Hin. specialize (Hl kw Hin).
    to_prop. apply negb_true_iff, bool_decide_eq_false. intros Hin'. by apply Hl, Hk. }
  split; [left; apply Hsub; set_solver|]. split; [left; apply Hsub; set_solver|].
  left. apply Hsub. set_solver.
Qed.

Lemma job_live_outcome job w :
  job_ok job -> py_get job "status" = PStr w -> w ∈ NONTERMINAL_JOB_STATUSES -> py_get job "terminal_outcome" = PNone.
Proof.
  intros (w' & _ & Hs & Ho) Hs' Hw. rewrite Hs' in Hs. injection Hs as <-. by eapply live_no_outcome.
Qed.

(** Show the write lists, one case per conditional entry. *)
Ltac unfold_writes :=
  unfold claim_lease_fields, completed_fields, _fenced_finalization_update, fanout_lease_fields,
    fanout_completed_fields, retryable_fields, dead_letter_fields, replay_fields, abandoned_fields;
  split_truthy.

Ltac quiet_fields := first [reflexivity | unfold_writes; vm_compute; reflexivity].

Ltac read_field :=
  unfold_writes; doc_simpl;
  first [done | match goal with H : py_get _ "terminal_outcome" = PNone |- _ => rewrite H; reflexivity end].

(** The outcome of a job just seen in a live status. *)
Ltac no_outcome Hs :=
  match goal with H : jobs _ !! _ = Some ?job, Hl : py_get ?job "status" = PStr ?w |- _ =>
    assert (py_get job "terminal_outcome" = PNone) by
      (apply (job_live_outcome job w (proj1 Hs _ _ H) Hl); unfold NONTERMINAL_JOB_STATUSES; set_solver) end.

(** A transition of a live job that does not claim success. *)
Ltac live_transition w :=
  eapply (disciplined_live _ _ w);
  [ eassumption | vm_compute; reflexivity | left; quiet_fields | right; left; read_field ].

Lemma completed_disciplined s j gen ep now s' b :
  _mark_finalization_completed_txn s j gen ep now = Ok (s', b) -> job_evolves disciplined s s'.
Proof.
  intros Hr. unfold _mark_finalization_completed_txn in Hr.
  early_returns; try by apply evolves_same. leased_now. evolve j.
  eapply (disciplined_live _ _ "leased"); [eassumption|vm_compute; reflexivity|left; quiet_fields|].
  right. right. doc_simpl. done.
Qed.

Lemma fenced_disciplined s j gen ep now s' b :
  _mark_finalization_fenced_txn s j gen ep now = Ok (s', b) -> job_evolves disciplined s s'.
Proof.
  intros Hr. unfold _mark_finalization_fenced_txn in Hr. early_returns; try by apply evolves_same.
  leased_now. evolve j. live_transition "leased".
Qed.

Lemma retryable_disciplined s j gen ep code now stale s' b :
  store_ok s -> _mark_finalization_retryable_txn s j gen ep code now stale = Ok (s', b) -> job_evolves disciplined s s'.
Proof.
  intros Hs Hr. unfold _mark_finalization_retryable_txn in Hr. early_returns; try by apply evolves_same.
  leased_now. evolve j.
  no_outcome Hs.
  live_transition "leased".
Qed.

Lemma fanout_completed_disciplined s j gen ep now s' b :
  _mark_finalization_fanout_completed_txn s j gen ep now = Ok (s', b) -> job_evolves disciplined s s'.
Proof.
  intros Hr. unfold _mark_finalization_fanout_completed_txn in Hr. early_returns; try by apply evolves_same.
  leased_now. evolve j. eapply (disciplined_live _ _ "leased"); [eassumption|vm_compute; reflexivity|left; quiet_fields|].
  right. right. doc_simpl. done.
Qed.

Lemma claim_fanout_disciplined s j gen ep now s' r :
  store_ok s -> _claim_finalization_fanout_txn s j gen ep now = Ok (s', r) -> job_evolves disciplined s s'.
Proof.
  intros Hs Hr. unfold _claim_finalization_fanout_txn in Hr.
  destruct (jobs s !! j) as [job|] eqn:Hj; [|early_returns; by apply evolves_same].
  inv_bind. destruct (is_str _ "completed"); [early_returns; by apply evolves_same|].
  inv_bind. destruct x0; cbn [negb] in Hr; [|early_returns; by apply evolves_same]. leased_now. no_outcome Hs.
  match type of Hr with (if ?b then _ else _) = _ => destruct b end;
    apply ok_pair in Hr as [<- _]; evolve j; live_transition "leased".
Qed.

Lemma dead_letter_disciplined s j gen ep rc now s' b :
  _mark_finalization_dead_letter_txn s j gen ep rc now = Ok (s', b) -> job_evolves disciplined s s'.
Proof.
  intros Hr. unfold _mark_finalization_dead_letter_txn in Hr.
  destruct (jobs s !! j) as [job|] eqn:Hj; [|early_returns; by apply evolves_same].
  inv_bind. destruct x; cbn [negb] in Hr; [|early_returns; by apply evolves_same]. leased_now.
  assert (Heq : jobs s' = <[j := doc_update job (dead_letter_fields rc now)]> (jobs s)).
  { revert Hr. destruct (bound_conversation s job) as [[ref [row|]]|]; cbv zeta;
      [destruct (still_processing_generation _ _ _)| |]; intros Hr; apply ok_pair in Hr as [<- _];
      cbn [jobs with_jobs update_job update_conversation with_conversations]; by rewrite record_delta_jobs. }
  eapply (evolves_update _ _ _ j); [eassumption|exact Heq|]. live_transition "leased".
Qed.

Lemma resume_disciplined s j now s' i :
  store_ok s -> _resume_blocked_byok_job_txn s j now = Ok (s', i) -> job_evolves disciplined s s'.
Proof.
  intros Hs Hr. unfold _resume_blocked_byok_job_txn in Hr. early_returns; try by apply evolves_same.
  to_prop. match goal with H : is_str _ _ = true |- _ => apply is_str_spec in H end.
  no_outcome Hs. evolve j. live_transition "blocked_byok".
Qed.

Lemma claim_disciplined s j gen byok lease now u c s' r :
  store_ok s -> _claim_finalization_job_txn s j gen byok lease now u c = Ok (s', r) -> job_evolves disciplined s s'.
Proof.
  intros Hs Hr. unfold _claim_finalization_job_txn in Hr.
  destruct (jobs s !! j) as [job|] eqn:Hj; [|early_returns; by apply evolves_same].
  job_status Hs Hj. cbv zeta in Hr.
  repeat match type of Hr with (if ?b then Ok _ else _) = _ =>
    destruct b eqn:?; [apply ok_pair in Hr as [<- _]; by apply evolves_same|] end.
  apply rbind_ok in Hr as (g & Hg & Hr).
  repeat match type of Hr with (if ?b then Ok _ else _) = _ =>
    destruct b eqn:?; [apply ok_pair in Hr as [<- _]; by apply evolves_same|] end.
  apply rbind_ok in Hr as (e & He & Hr). apply rbind_ok in Hr as (a & Ha & Hr). apply ok_pair in Hr as [<- _].
  assert (Hepoch : epoch_writes job (claim_lease_fields job (e + 1) (now + seconds lease) now)).
  { right. exists e. split; [done|]. unfold claim_lease_fields. split_truthy; doc_simpl; done. }
  match goal with H : negb (_ || _) = false |- _ => apply negb_false_iff, orb_true_iff in H as [Hq|Hq] end;
    apply String.eqb_eq in Hq; subst w; no_outcome Hs; cbn [String.eqb Ascii.eqb Bool.eqb]; evolve j.
  - eapply (disciplined_live _ _ "queued"); [eassumption|vm_compute; reflexivity|exact Hepoch|].
    right; left; read_field.
  - eapply (disciplined_live _ _ "leased"); [eassumption|vm_compute; reflexivity|exact Hepoch|].
    right; left; read_field.
Qed.

Lemma replay_disciplined s j stale now s' i :
  store_ok s -> _claim_finalization_replay_txn s j stale now = Ok (s', i) -> job_evolves disciplined s s'.
Proof.
  intros Hs Hr. unfold _claim_finalization_replay_txn in Hr.
  destruct (jobs s !! j) as [job|] eqn:Hj; [|early_returns; by apply evolves_same].
  job_status Hs Hj. cbv zeta in Hr.
  repeat match type of Hr with (if ?b then rbind _ _ else _) = _ =>
    destruct b eqn:?; [early_returns; by apply evolves_same|] end.
  inv_bind. apply ok_pair in Hr as [<- _].
  match goal with H : negb (_ || _) = false |- _ => apply negb_false_iff, orb_true_iff in H as [Hq|Hq] end;
    apply String.eqb_eq in Hq; subst w; no_outcome Hs; cbn [String.eqb Ascii.eqb Bool.eqb]; evolve j;
    [live_transition "queued"|live_transition "leased"].
Qed.

Lemma abandon_disciplined s j st gen ep cutoff now s' r :
  store_ok s -> _abandon_byok_finalization_job_txn s j st gen ep cutoff now = Ok (s', r) -> job_evolves disciplined s s'.
Proof.
  intros Hs Hr. unfold _abandon_byok_finalization_job_txn in Hr.
  destruct (jobs s !! j) as [job|] eqn:Hj; [|early_returns; by apply evolves_same].
  job_status Hs Hj. cbv zeta in Hr.
  repeat match type of Hr with (if ?b then Ok (s, _) else _) = _ =>
    destruct b eqn:?; [apply ok_pair in Hr as [<- _]; by apply evolves_same|] end.
  apply rbind_ok in Hr as (g & Hg & Hr).
  repeat match type of Hr with (if ?b then Ok (s, _) else _) = _ =>
    destruct b eqn:?; [apply ok_pair in Hr as [<- _]; by apply evolves_same|] end.
  apply rbind_ok in Hr as (e & He & Hr).
  repeat match type of Hr with (if ?b then Ok (s, _) else _) = _ =>
    destruct b eqn:?; [apply ok_pair in Hr as [<- _]; by apply evolves_same|] end.
  to_prop.
  assert (Heq : jobs s' = <[j := doc_update job (abandoned_fields now)]> (jobs s)).
  { revert Hr. destruct (bound_conversation s job) as [[ref [row|]]|]; cbv zeta;
      repeat match goal with |- (if ?b then _ else _) = _ -> _ => destruct b end;
      intros Hr; apply ok_pair in Hr as [<- _];
      cbn [jobs with_jobs update_job update_conversation with_conversations]; by rewrite record_delta_jobs. }
  eapply (evolves_update _ _ _ j); [eassumption|exact Heq|].
  match goal with H : (_ || _) = true |- _ => apply orb_true_iff in H as [Hq|Hq] end;
    apply String.eqb_eq in Hq; subst w; [live_transition "queued"|live_transition "leased"].
Qed.

Lemma receipt_intent_disciplined s j i now s' b :
  mark_meeting_receipt_intent_persisted s j i now = (s', b) -> job_evolves disciplined s s'.
Proof.
  intros Hr. unfold mark_meeting_receipt_intent_persisted in Hr. early_returns; try by apply evolves_same.
  evolve j. by apply disciplined_quiet.
Qed.

Lemma receipt_materialized_disciplined s uid c i at_ s' b :
  mark_meeting_receipt_materialized s uid c i at_ = (s', b) -> job_evolves disciplined s s'.
Proof.
  intros Hr. unfold mark_meeting_receipt_materialized in Hr. early_returns; try by apply evolves_same.
  all: match goal with H : jobs _ !! ?k = Some _ |- _ => evolve k end; by apply disciplined_quiet.
Qed.

Lemma receipt_disciplined s uid c jid el re d sp now s' r :
  store_ok s -> _record_meeting_receipt_txn s uid c jid el re d sp now = Ok (s', r) -> job_evolves disciplined s s'.
Proof.
  intros Hs Hr. unfold _record_meeting_receipt_txn in Hr.
  destruct (conversations s !! (uid, c)) as [row|] eqn:Hrow; [|early_returns; by apply evolves_same].
  cbv zeta in Hr. apply rbind_ok in Hr as (job_id & Hid & Hr).
  destruct (negb (bool_decide _) && _); [apply ok_pair in Hr as [<- _]; by apply evolves_same|].
  apply rbind_ok in Hr as ([s1 receipt] & Hs1 & Hr).
  do 5 (apply rbind_ok in Hr as (? & _ & Hr)). apply ok_pair in Hr as [<- _].
  assert (Hev : job_evolves disciplined s s1); [|exact Hev].
  destruct (has_receipt _); [apply ok_pair in Hs1 as [<- _]; by apply evolves_same|].
  destruct (negb (bool_decide (default ∅ (jobs s !! job_id) = ∅))) eqn:Hp.
  - apply ok_pair in Hs1 as [<- _]. destruct (jobs s !! job_id) as [job|] eqn:Hj; [|done].
    evolve job_id. by apply disciplined_quiet.
  - apply rbind_ok in Hs1 as (rev & _ & Hs1). apply ok_pair in Hs1 as [<- _].
    destruct (jobs s !! job_id) as [job|] eqn:Hj; [|eapply (evolves_fresh _ _ _ job_id); [done|reflexivity|]].
    2:{ intros _. apply (receipt_job_fields uid c rev el re d sp now). }
    exfalso. to_prop. simpl in Hp. subst job. destruct (proj1 Hs _ _ Hj) as (w & Hw & Hst & _).
    unfold py_get in Hst. by rewrite lookup_empty in Hst.
Qed.

Ltac unchanged_jobs H :=
  apply ok_pair in H as [<- _]; apply evolves_same, apply_bound_keeps.

Lemma create_disciplined dec sha fpp s uid c byok adm now stale trig extra s' i :
  _create_or_get_finalization_intent_txn dec sha fpp s uid c byok adm now stale trig extra = Ok (s', i) ->
  job_evolves disciplined s s'.
Proof.
  intros Hr. unfold _create_or_get_finalization_intent_txn in Hr.
  destruct (conversations s !! (uid, c)) as [row|] eqn:Hrow; [|early_returns; by apply evolves_same].
  cbv zeta in Hr.
  repeat match type of Hr with (if ?b then Ok _ else _) = _ => destruct b; [unchanged_jobs Hr|] end.
  apply rbind_ok in Hr as (adm' & _ & Hr). destruct (terminal adm'); [unchanged_jobs Hr|].
  destruct (match nonempty_str _ with Some _ => _ | None => _ end) as [[ej ejob]|]; [inv_bind; unchanged_jobs Hr|].
  destruct (if accepted adm' then _ else _) as [[|a fo]|]; [unchanged_jobs Hr| |unchanged_jobs Hr].
  apply rbind_ok in Hr as (rev & _ & Hr).
  destruct (jobs s !! _job_id uid c rev) as [job|] eqn:Hj; [inv_bind; unchanged_jobs Hr|].
  apply rbind_ok in Hr as (i' & _ & Hr). apply ok_pair in Hr as [<- _].
  eapply (evolves_fresh _ _ _ (_job_id uid c rev)); [done| |].
  { rewrite (proj1 (apply_bound_keeps _ _ _ _ _ _ _ _ _)), record_delta_jobs. reflexivity. }
  intros Hsuc. destruct (new_job_fields uid c rev (_job_id uid c rev) (if byok then "blocked_byok" else "queued")%string
    (String a fo) byok (py_get (row_fields row) "client_platform") trig now stale) as (_ & Hout & _).
  exfalso. clear -Hsuc Hout. congruence.
Qed.

Lemma job_step_disciplined dec sha fpp s s' : store_ok s -> job_step dec sha fpp s s' -> job_evolves disciplined s s'.
Proof.
  intros Hs Hst. destruct Hst; match goal with H : _ = _ |- _ => rename H into H0 end.
  - eapply create_disciplined; exact H0.
  - eapply resume_disciplined; [exact Hs|exact H0].
  - eapply claim_disciplined; [exact Hs|exact H0].
  - eapply completed_disciplined; exact H0.
  - eapply fenced_disciplined; exact H0.
  - eapply claim_fanout_disciplined; [exact Hs|exact H0].
  - eapply fanout_completed_disciplined; exact H0.
  - eapply retryable_disciplined; [exact Hs|exact H0].
  - eapply dead_letter_disciplined; exact H0.
  - eapply replay_disciplined; [exact Hs|exact H0].
  - eapply abandon_disciplined; [exact Hs|exact H0].
  - eapply receipt_disciplined; [exact Hs|exact H0].
  - eapply receipt_intent_disciplined; exact H0.
  - eapply receipt_materialized_disciplined; exact H0.
  - subst. by apply evolves_same.
  - subst. by apply evolves_same.
Qed.


(** ** Epochs *)

Lemma get_int_or_put d k z : py_get d k = PInt z -> get_int_or d k 0 = Ok z.
Proof.
  unfold get_int_or, py_or. intros ->. simpl. by destruct (Z.eqb_spec z 0) as [->|].
Qed.

Lemma get_int_or_ext d d' k n : py_get d k = py_get d' k -> get_int_or d k n = get_int_or d' k n.
Proof. unfold get_int_or. by intros ->. Qed.

Lemma epoch_evolves s s' j e :
  job_evolves disciplined s s' -> lease_epoch_is s j e -> exists e', e <= e' /\ lease_epoch_is s' j e'.
Proof.
  intros Hev (job & Hj & He). destruct (proj1 Hev j job Hj) as [Hs|(ws & Hs & [Hl|(e' & He' & Hput)] & _)].
  - exists e. split; [lia|]. by exists job.
  - exists e. split; [lia|]. eexists. split; [exact Hs|]. rewrite <- He.
    apply get_int_or_ext. eapply leaves_get; [exact Hl|set_solver].
  - exists (e + 1). split; [lia|]. eexists. split; [exact Hs|]. rewrite He in He'. injection He' as <-.
    by apply get_int_or_put.
Qed.

Section fleet.
Context (dec : string -> pyval -> bool -> option (list pyval)).
Context (sha : list pyval -> option string) (fpp : string -> option (list string)).
Implicit Types s : store.
#[local] Abbreviation step := (job_step dec sha fpp).
#[local] Abbreviation reach := (reachable initial_store (job_step dec sha fpp)).

Lemma star_epoch s s' j e :
  reach s -> star step s s' -> lease_epoch_is s j e -> exists e', e <= e' /\ lease_epoch_is s' j e'.
Proof.
  intros Hr Hst. revert e. induction Hst as [s|s1 s2 s3 H12 _ IH]; intros e He; [by exists e|].
  destruct (epoch_evolves s1 s2 j e) as (e' & Hle & He'); [|done|].
  { eapply job_step_disciplined; [by eapply reachable_store_ok|exact H12]. }
  destruct (IH (reach_step _ _ _ _ Hr H12) e' He') as (e'' & ? & ?). exists e''. split; [lia|done].
Qed.

Lemma star_evolves_inv s s' (P : store -> Prop) :
  (forall s1 s2, store_ok s1 -> job_evolves disciplined s1 s2 -> P s1 -> P s2) ->
  reach s -> star step s s' -> P s -> P s'.
Proof.
  intros HP Hr Hst. induction Hst as [s|s1 s2 s3 H12 _ IH]; intros H1; [done|].
  apply IH; [by eapply reach_step|]. pose proof (reachable_store_ok _ _ _ _ Hr) as Hok.
  eapply HP; [exact Hok| |exact H1]. by eapply job_step_disciplined.
Qed.
End fleet.

Lemma claim_result_epoch s j gen byok lease now u c s' r ep :
  _claim_finalization_job_txn s j gen byok lease now u c = Ok (s', r) -> claim_lease_epoch r = Some ep ->
  exists job e, jobs s !! j = Some job /\ get_int_or job "lease_epoch" 0 = Ok e /\ ep = e + 1 /\
    jobs s' = <[j := doc_update job (claim_lease_fields job (e + 1) (now + seconds lease) now)]> (jobs s).
Proof.
  intros Hr Hep. unfold _claim_finalization_job_txn in Hr.
  destruct (jobs s !! j) as [job|] eqn:Hj; [|apply ok_pair in Hr as [_ <-]; done].
  cbv zeta in Hr.
  repeat match type of Hr with (if ?b then Ok _ else _) = _ =>
    destruct b; [apply ok_pair in Hr as [_ <-]; done|] end.
  apply rbind_ok in Hr as (g & Hg & Hr).
  repeat match type of Hr with (if ?b then Ok _ else _) = _ =>
    destruct b; [apply ok_pair in Hr as [_ <-]; done|] end.
  apply rbind_ok in Hr as (e & He & Hr). apply rbind_ok in Hr as (a & Ha & Hr). apply ok_pair in Hr as [<- <-].
  injection Hep as <-. exists job, e. split; [done|]. split; [done|]. split; [done|].
  destruct (String.eqb _ _); by rewrite ?record_delta_jobs.
Qed.

Lemma claim_epoch_is s j gen byok lease now u c s' r ep :
  _claim_finalization_job_txn s j gen byok lease now u c = Ok (s', r) -> claim_lease_epoch r = Some ep ->
  lease_epoch_is s' j ep.
Proof.
  intros Hr Hep. destruct (claim_result_epoch _ _ _ _ _ _ _ _ _ _ _ Hr Hep) as (job & e & _ & _ & -> & Hs').
  eexists. rewrite Hs', lookup_insert_eq. split; [done|]. apply get_int_or_put.
  unfold_writes; doc_simpl; done.
Qed.

Lemma current_lease_epoch job gen ep :
  _is_current_lease job gen ep = Ok true -> get_int_or job "lease_epoch" 0 = Ok ep.
Proof.
  unfold _is_current_lease. intros H. destruct (is_str _ _); [|done].
  apply rbind_ok in H as (g & _ & H). destruct (g =? gen); [|done].
  apply rbind_ok in H as (e & -> & H). injection H as H. by apply Z.eqb_eq in H as ->.
Qed.

(** A worker whose epoch is not the stored one changes nothing. *)
Lemma worker_step_stale s j gen ep e s' :
  lease_epoch_is s j e -> e <> ep -> worker_step s j gen ep s' -> s' = s.
Proof.
  intros (job & Hj & He) Hne Hw.
  assert (Hnot : _is_current_lease job gen ep <> Ok true).
  { intros Hc%current_lease_epoch. congruence. }
  destruct Hw as [now b Hr|now b Hr|now r Hr|now b Hr|code now stale b Hr|rc now b Hr];
    [unfold _mark_finalization_completed_txn in Hr|unfold _mark_finalization_fenced_txn in Hr
    |unfold _claim_finalization_fanout_txn in Hr|unfold _mark_finalization_fanout_completed_txn in Hr
    |unfold _mark_finalization_retryable_txn in Hr|unfold _mark_finalization_dead_letter_txn in Hr];
    rewrite Hj in Hr; cbv zeta in Hr;
    destruct (_is_current_lease job gen ep) as [[|]|]; try done; cbn [rbind negb] in Hr;
    repeat match type of Hr with
    | (if ?b then _ else _) = _ => destruct b
    | rbind _ _ = _ => apply rbind_ok in Hr as (? & _ & Hr); cbn [rbind negb] in Hr
    end;
    try (apply ok_pair in Hr as [<- _]); done.
Qed.

(** ** What a worker writes without its lease

    The finalizer records the meeting receipt of its job, and the intent made
    from it, naming the job alone. *)
Inductive receipt_step (s : store) (j : string) (s' : store) : Prop :=
| worker_receipt uid c eligible reason duration dedup now r :
    j <> "" ->
    _record_meeting_receipt_txn s uid c (Some j) eligible reason duration dedup now = Ok (s', r) -> receipt_step s j s'
| worker_receipt_intent i now b :
    mark_meeting_receipt_intent_persisted s j i now = (s', b) -> receipt_step s j s'.

(** The fields of a conversation that a receipt is projected to. *)
Definition RECEIPT_ROW_KEYS : list string :=
  [ "finalization_job_id"; "meeting_treatment_eligible"; "meeting_treatment_reason"; "meeting_duration_s";
    "meeting_dedup_speech_s"; "finalization_revision"; "finalization_status" ].

Definition differs_in (keys : list string) (d d' : doc) : Prop := forall k, k ∉ keys -> py_get d' k = py_get d k.

(** Only the receipt of the job, and its projection on conversations, differ. *)
Record receipt_only (s : store) (j : string) (s' : store) : Prop := {
  receipt_shards : shards s' = shards s;
  receipt_sweeps : sweep_state s' = sweep_state s;
  receipt_others : forall i, i <> j -> jobs s' !! i = jobs s !! i;
  receipt_job : forall job, jobs s !! j = Some job ->
    exists job', jobs s' !! j = Some job' /\ differs_in RECEIPT_KEYS job job';
  receipt_rows : forall ref, option_Forall2 (fun row row' => differs_in RECEIPT_ROW_KEYS (row_fields row) (row_fields row'))
    (conversations s !! ref) (conversations s' !! ref);
}.

Lemma differs_update keys d ws :
  forallb (fun kw => bool_decide (kw.1 ∈ keys)) ws = true -> differs_in keys d (doc_update d ws).
Proof.
  intros Hws k Hk. apply py_get_update_other, Forall_forall. intros kw Hin. apply String.eqb_neq. intros ->.
  rewrite forallb_forall in Hws. specialize (Hws kw (proj1 (list_elem_of_In _ _) Hin)). by to_prop.
Qed.

Lemma differs_refl keys d : differs_in keys d d.
Proof. by intros k _. Qed.

Lemma rows_same s s' : conversations s' = conversations s -> forall ref,
  option_Forall2 (fun row row' => differs_in RECEIPT_ROW_KEYS (row_fields row) (row_fields row'))
    (conversations s !! ref) (conversations s' !! ref).
Proof. intros -> ref. destruct (conversations s !! ref); constructor. apply differs_refl. Qed.

Lemma receipt_only_refl s j : receipt_only s j s.
Proof. split; [done|done|done| |by apply rows_same]. intros job Hj. exists job. split; [done|apply differs_refl]. Qed.

Lemma receipt_only_update s j job ws :
  jobs s !! j = Some job -> forallb (fun kw => bool_decide (kw.1 ∈ RECEIPT_KEYS)) ws = true ->
  receipt_only s j (update_job s j job ws).
Proof.
  intros Hj Hws. split; cbn [update_job with_jobs shards sweep_state jobs conversations]; [done|done| | |by apply rows_same].
  - intros i Hi. by rewrite lookup_insert_ne.
  - intros job0 Hj0. assert (job0 = job) as -> by congruence. rewrite lookup_insert_eq.
    eexists. split; [done|]. by apply differs_update.
Qed.

(** The projection of the receipt on the conversation. *)
Lemma receipt_only_row s j s1 ref row ws now :
  receipt_only s j s1 -> conversations s1 = conversations s -> conversations s !! ref = Some row ->
  forallb (fun kw => bool_decide (kw.1 ∈ RECEIPT_ROW_KEYS)) ws = true ->
  receipt_only s j (update_conversation s1 ref row ws now).
Proof.
  intros [Hsh Hsw Ho Hj _] Hc Hrow Hws. split; [done..|]. intros ref'.
  cbn [update_conversation with_conversations conversations]. rewrite Hc.
  destruct (decide (ref' = ref)) as [->|Hne].
  - rewrite lookup_insert_eq, Hrow. constructor. by apply differs_update.
  - rewrite lookup_insert_ne by done. destruct (conversations s !! ref'); constructor. apply differs_refl.
Qed.

Lemma receipt_step_only s j job s' :
  store_ok s -> jobs s !! j = Some job -> receipt_step s j s' -> receipt_only s j s'.
Proof.
  intros Hs Hj [uid c el re d sp now r Hne Hr|i now b Hr].
  - unfold _record_meeting_receipt_txn in Hr.
    destruct (conversations s !! (uid, c)) as [row|] eqn:Hrow; [|early_returns; apply receipt_only_refl].
    cbv zeta in Hr. rewrite (proj2 (String.eqb_neq _ _) Hne) in Hr. cbn [rbind] in Hr. rewrite Hj in Hr. cbn [default] in Hr.
    assert (job <> ∅) as Hsome.
    { intros ->. destruct (proj1 Hs _ _ Hj) as (w & Hw & Hst & _). unfold py_get in Hst. by rewrite lookup_empty in Hst. }
    unfold from_option, id in Hr. rewrite (bool_decide_eq_false_2 (job = ∅) Hsome) in Hr. cbn [negb andb] in Hr.
    destruct (negb _); [apply ok_pair in Hr as [<- _]; apply receipt_only_refl|].
    apply rbind_ok in Hr as ([s1 receipt] & Hs1 & Hr).
    do 4 (apply rbind_ok in Hr as (? & _ & Hr)). apply rbind_ok in Hr as (extra & Hextra & Hr).
    apply ok_pair in Hr as [<- _].
    assert (receipt_only s j s1 /\ conversations s1 = conversations s) as [Honly Hconv].
    { destruct (has_receipt job); apply ok_pair in Hs1 as [<- _]; (split; [|done]);
        [apply receipt_only_refl|by apply receipt_only_update]. }
    apply receipt_only_row; [done|done|done|].
    destruct (truthy _); [by injection Hextra as <-|].
    apply rbind_ok in Hextra as (rev & _ & Hextra). by injection Hextra as <-.
  - unfold mark_meeting_receipt_intent_persisted in Hr. rewrite Hj in Hr.
    destruct (as_str _); injection Hr as <- _; [apply receipt_only_refl|by apply receipt_only_update].
Qed.

(** C2: once a second worker has claimed a job, the first worker's epoch is
    smaller, and no transaction in which it presents its lease, however long it
    was delayed, changes the store.  The transactions of the finalizer that
    present none record the meeting receipt; in them it can change the receipt
    fields of its job and their projection on the conversation, and nothing
    else: no other field of the job, no other job and no counter. *)
Theorem superseded_worker_is_fenced dec sha fpp s0 s1 s2 s3 s4 j ep1 ep2
    gen1 byok1 lease1 now1 u1 c1 r1 gen2 byok2 lease2 now2 u2 c2 r2 :
  reachable initial_store (job_step dec sha fpp) s0 ->
  _claim_finalization_job_txn s0 j gen1 byok1 lease1 now1 u1 c1 = Ok (s1, r1) -> claim_lease_epoch r1 = Some ep1 ->
  star (job_step dec sha fpp) s1 s2 ->
  _claim_finalization_job_txn s2 j gen2 byok2 lease2 now2 u2 c2 = Ok (s3, r2) -> claim_lease_epoch r2 = Some ep2 ->
  star (job_step dec sha fpp) s3 s4 ->
  ep1 < ep2 /\
  (forall gen s5, worker_step s4 j gen ep1 s5 -> s5 = s4) /\
  (forall s5, receipt_step s4 j s5 -> receipt_only s4 j s5).
Proof.
  intros Hr0 Hc1 He1 H12 Hc2 He2 H34.
  pose proof (reach_step _ _ _ _ Hr0 (step_claim _ _ _ _ _ _ _ _ _ _ _ _ _ Hc1)) as Hr1.
  pose proof (reachable_star _ _ _ _ Hr1 H12) as Hr2.
  pose proof (reach_step _ _ _ _ Hr2 (step_claim _ _ _ _ _ _ _ _ _ _ _ _ _ Hc2)) as Hr3.
  destruct (star_epoch _ _ _ _ _ j ep1 Hr1 H12 (claim_epoch_is _ _ _ _ _ _ _ _ _ _ _ Hc1 He1))
    as (e & Hle & job & Hj & He).
  destruct (claim_result_epoch _ _ _ _ _ _ _ _ _ _ _ Hc2 He2) as (job' & e' & Hj' & He' & -> & _).
  assert (e' = e) as -> by congruence.
  destruct (star_epoch _ _ _ _ _ j (e + 1) Hr3 H34 (claim_epoch_is _ _ _ _ _ _ _ _ _ _ _ Hc2 He2)) as (e4 & Hle4 & He4).
  split; [lia|split].
  - intros gen s5 Hw. apply (worker_step_stale _ _ _ _ _ _ He4) in Hw; [done|lia].
  - intros s5. destruct He4 as (job4 & Hj4 & _). apply (receipt_step_only _ _ job4); [|done].
    eapply reachable_store_ok, reachable_star; [exact Hr3|exact H34].
Qed.

Lemma superseded_worker_is_fenced_witness :
  1 < 2 /\ (forall gen s5, worker_step Scenario.completed Scenario.job_id gen 1 s5 -> s5 = Scenario.completed) /\
  (forall s5, receipt_step Scenario.completed Scenario.job_id s5 -> receipt_only Scenario.completed Scenario.job_id s5).
Proof.
  exact (superseded_worker_is_fenced _ _ _ _ _ _ _ _ _ 1 2 _ _ _ _ _ _ _ _ _ _ _ _ _ _
    queued_reachable first_claim eq_refl (star_refl _ _) second_claim eq_refl scenario_finish).
Defined.

(** The exception is real: with the second worker done, a receipt is still
    recorded, and the conversation is bound to its job. *)
Definition late_receipt : result pyexc (store * receipt_result) :=
  _record_meeting_receipt_txn Scenario.completed "u" "c" (Some Scenario.job_id) true "eligible" 600 300 (seconds 30).

Lemma receipt_needs_no_lease :
  is_ok late_receipt = true /\
  receipt_step Scenario.completed Scenario.job_id (committed Scenario.completed late_receipt) /\
  has_receipt Scenario.completed_job = false /\
  (has_receipt <$> jobs (committed Scenario.completed late_receipt) !! Scenario.job_id) = Some true.
Proof.
  assert (is_ok late_receipt = true) as Hok by (vm_compute; reflexivity).
  split; [exact Hok|]. split; [|split; vm_compute; reflexivity].
  destruct late_receipt as [[s' r]|e] eqn:E; [|discriminate].
  apply (worker_receipt _ _ _ "u" "c" true "eligible" 600 300 (seconds 30) r); [|exact E].
  apply (bool_decide_unpack _). vm_compute. exact I.
Qed.

(** A terminal verdict is final. *)
Theorem terminal_job_is_final dec sha fpp s s' j job :
  reachable initial_store (job_step dec sha fpp) s -> star (job_step dec sha fpp) s s' ->
  jobs s !! j = Some job -> get_str_or job "status" "" ∈ TERMINAL_JOB_STATUSES ->
  exists job', jobs s' !! j = Some job' /\ py_get job' "status" = py_get job "status" /\
    py_get job' "terminal_outcome" = py_get job "terminal_outcome".
Proof.
  intros Hr Hst Hj Ht.
  destruct (job_ok_status job (proj1 (reachable_store_ok _ _ _ _ Hr) _ _ Hj)) as (w & _ & Hw & Hget).
  rewrite Hget in Ht.
  eapply (star_evolves_inv dec sha fpp s s' (fun s => exists job', jobs s !! j = Some job' /\
    py_get job' "status" = py_get job "status" /\ py_get job' "terminal_outcome" = py_get job "terminal_outcome"));
    [|done|done|by exists job].
  intros s1 s2 _ Hev (job' & Hj' & Hs' & Ho').
  destruct (proj1 Hev j job' Hj') as [Hs2|(ws & Hs2 & _ & [Hl|(w' & Hw' & Hn)] & _)].
  - by exists job'.
  - eexists. split; [exact Hs2|]. rewrite !(leaves_get _ _ _ _ Hl) by set_solver. done.
  - exfalso. rewrite Hs', Hw in Hw'. injection Hw' as <-.
    unfold NONTERMINAL_JOB_STATUSES, TERMINAL_JOB_STATUSES in *. word_cases.
Qed.

Lemma terminal_job_is_final_witness :
  exists job', jobs Scenario.completed !! Scenario.job_id = Some job' /\
    py_get job' "status" = py_get Scenario.completed_job "status" /\
    py_get job' "terminal_outcome" = py_get Scenario.completed_job "terminal_outcome".
Proof.
  apply (terminal_job_is_final _ _ _ _ _ _ Scenario.completed_job completed_reachable (star_refl _ _)
    completed_job_stored).
  vm_compute. apply list_elem_of_here.
Defined.

(** C12: a job reports success only when its external fanout completed. *)
Theorem success_has_completed_fanout dec sha fpp s j job :
  reachable initial_store (job_step dec sha fpp) s -> jobs s !! j = Some job ->
  py_get job "terminal_outcome" = PStr "success" -> py_get job "fanout_status" = PStr "completed".
Proof.
  intros Hr. revert j job. induction Hr as [s [Hj _]|s s' Hr IH Hst]; intros j job Hjob.
  { rewrite Hj, lookup_empty in Hjob. done. }
  pose proof (reachable_store_ok _ _ _ _ Hr) as Hok.
  destruct (job_step_disciplined _ _ _ _ _ Hok Hst) as [Hold Hnew].
  destruct (jobs s !! j) as [old|] eqn:Hj; [|by eapply Hnew].
  destruct (Hold j old Hj) as [Hs|(ws & Hs & _ & _ & Hf)]; rewrite Hs in Hjob; injection Hjob as <-; [by eapply IH|].
  destruct (Hf (proj1 Hok _ _ Hj)) as [Hl|[Hno|Hyes]]; intros Hsuc.
  - rewrite (leaves_get _ _ _ "terminal_outcome" Hl) in Hsuc by set_solver.
    rewrite (leaves_get _ _ _ "fanout_status" Hl) by set_solver. by eapply IH.
  - by rewrite Hsuc in Hno.
  - by apply is_str_spec.
Qed.
Lemma success_has_completed_fanout_witness :
  py_get Scenario.completed_job "fanout_status" = PStr "completed".
Proof.
  apply (success_has_completed_fanout _ _ _ _ _ Scenario.completed_job completed_reachable completed_job_stored).
  vm_compute. reflexivity.
Defined.
