(* ===== verification/FinalizationOps.v ===== *)
(** What each finalization operation does on every branch: admission, claims,
    external fanout, dead-lettering and the disposition of abandoned jobs. *)
From S2P Require Export FinalizationLease.

(** When a claim succeeds. *)
Definition claimable (job : doc) (gen : Z) (byok : bool) (now : Z) (u c : option string) : bool :=
  expected_identity job "uid" u && expected_identity job "conversation_id" c
  && (is_str (py_get job "status") "queued" || is_str (py_get job "status") "leased" && negb (lease_is_live job now))
  && (negb (truthy (py_get job "requires_byok")) || byok)
  && match get_int_or job "dispatch_generation" 1 with Ok g => g =? gen | Raise _ => false end.

(** A job whose counters are numbers. *)
Definition numeric_job (job : doc) : Prop :=
  forall k n, k ∈ ["dispatch_generation"; "lease_epoch"; "attempt_count"] -> is_ok (get_int_or job k n) = true.

(** ** The scenario, transaction by transaction *)

Section scenario.
Import Scenario.

Lemma first_admission :
  _create_or_get_finalization_intent_txn no_transcript no_digest plain_path empty_store "u" "c" false
    (fun d => _finalization_admission d "c") 0 (seconds 300) CAPTURE_END None
  = Ok (queued, MkIntent (Some job_id) "queued" (Some 1) false (Some "conversation:c:finalization:1") true).
Proof. apply committed_answer. vm_compute. reflexivity. Qed.

Lemma queued_job_stored : jobs queued !! job_id = Some queued_job.
Proof. apply found_default. vm_compute. reflexivity. Qed.

Lemma leased_job_stored : jobs leased_twice !! job_id = Some leased_job.
Proof. apply found_default. vm_compute. reflexivity. Qed.

Lemma fanout_claimed :
  _claim_finalization_fanout_txn processed job_id 1 2 (seconds 22)
  = Ok (fanning_out, MkFanoutClaim "claimed" (Some "conversation:c:finalization:1")).
Proof. apply committed_answer. vm_compute. reflexivity. Qed.

Lemma dead_lettered :
  _mark_finalization_dead_letter_txn leased_twice job_id 1 2 5 (seconds 25) = Ok (dead_letter, true).
Proof. apply committed_answer. vm_compute. reflexivity. Qed.

Lemma byok_abandonment :
  _abandon_byok_finalization_job_txn byok_queued job_id "queued" 1 0 (seconds 100) (seconds 200)
  = Ok (byok_abandoned, MkAbandonment "abandoned" "closed").
Proof. apply committed_answer. vm_compute. reflexivity. Qed.
End scenario.

(** ** Claims *)

Lemma is_ok_spec {E A} (r : result E A) : is_ok r = true -> exists a, r = Ok a.
Proof. destruct r; [eauto|done]. Qed.

(** A transaction that refuses: nothing changes. *)
Ltac refused s :=
  rewrite ?andb_false_r; cbn [andb]; eexists s, _; split; [reflexivity|]; split; [by simpl; split; intros; discriminate|]; by split.

(** Evaluate the guards on literal words. *)
Ltac guards :=
  cbn [String.eqb Ascii.eqb Bool.eqb negb andb orb is_str];
  repeat match goal with
  | |- context [bool_decide (?x ∈ ?l)] =>
      first [ rewrite (bool_decide_true (x ∈ l)) by (vm_compute; set_solver)
            | rewrite (bool_decide_false (x ∈ l)) by (unfold TERMINAL_JOB_STATUSES; set_solver) ]
  end.

(** The five statuses. *)
Ltac status_cases Hw :=
  unfold ALL_JOB_STATUSES, NONTERMINAL_JOB_STATUSES, TERMINAL_JOB_STATUSES in Hw; simpl in Hw;
  rewrite !elem_of_cons, elem_of_nil in Hw;
  destruct Hw as [->|[->|[->|[->|[->|[]]]]]].

(** A claim answers without raising, succeeds exactly on a claimable job, then raises the epoch by
    one and writes the lease, and otherwise changes nothing. *)
Theorem claim_succeeds_iff s j job gen byok lease now u c :
  jobs s !! j = Some job -> job_ok job -> numeric_job job ->
  exists s' r, _claim_finalization_job_txn s j gen byok lease now u c = Ok (s', r) /\
    (claim_status r = "claimed" <-> claimable job gen byok now u c = true) /\
    (claim_status r <> "claimed" -> s' = s /\ claim_lease_epoch r = None) /\
    (claim_status r = "claimed" -> exists e,
       get_int_or job "lease_epoch" 0 = Ok e /\ claim_lease_epoch r = Some (e + 1) /\
       jobs s' = <[j := doc_update job (claim_lease_fields job (e + 1) (now + seconds lease) now)]> (jobs s) /\
       conversations s' = conversations s).
Proof.
  intros Hj Hok Hnum.
  destruct (is_ok_spec _ (Hnum "dispatch_generation" 1 ltac:(set_solver))) as [g Hg].
  destruct (is_ok_spec _ (Hnum "lease_epoch" 0 ltac:(set_solver))) as [e He].
  destruct (is_ok_spec _ (Hnum "attempt_count" 0 ltac:(set_solver))) as [a Ha].
  destruct (job_ok_status job Hok) as (w & Hw & Hst & Hget).
  unfold _claim_finalization_job_txn, claimable. rewrite Hj, Hget, Hg, He, Ha, Hst. cbn [rbind is_str].
  destruct (expected_identity job "uid" u); cbn [negb andb]; [|refused s].
  destruct (expected_identity job "conversation_id" c); cbn [negb andb]; [|refused s].
  status_cases Hw; guards; try (destruct (is_str (py_get job "finalization_outcome") "fenced"); refused s);
    try refused s; (destruct (truthy (py_get job "requires_byok")), byok; guards; try refused s);
    (destruct (g =? gen); guards; [|refused s]);
    try (destruct (lease_is_live job now); guards; [refused s|]).
  all: eexists _, _; split; [reflexivity|]; split; [done|]; split; [done|]; intros _; exists e;
    rewrite ?record_delta_jobs, ?record_delta_conversations; do 3 (split; [reflexivity|]); reflexivity.
Qed.
Lemma claim_succeeds_iff_witness :
  exists s' r, _claim_finalization_job_txn Scenario.queued Scenario.job_id 1 true 10 (seconds 1) (Some "u") (Some "c")
      = Ok (s', r) /\ claim_status r = "claimed".
Proof.
  destruct (claim_succeeds_iff Scenario.queued Scenario.job_id Scenario.queued_job 1 true 10 (seconds 1)
    (Some "u") (Some "c") queued_job_stored) as (s' & r & Hr & Hiff & _).
  - exists "queued". vm_compute. repeat constructor.
  - intros k n Hk. unfold numeric_job. rewrite !elem_of_cons, elem_of_nil in Hk.
    destruct Hk as [->|[->|[->|[]]]]; unfold get_int_or; vm_compute; by destruct n.
  - exists s', r. split; [exact Hr|]. apply Hiff. vm_compute. reflexivity.
Defined.


(** ** Admission *)

Lemma bound_updates_lookup dec sha fpp uid conversation extra lc k :
  k ∉ PROJECTION_FAMILY_FIELDS -> root_segment k ∉ PROJECTION_FAMILY_FIELDS ->
  bound_conversation_updates dec sha fpp uid conversation extra lc !! k = lc !! k.
Proof.
  intros Hk Hr. unfold bound_conversation_updates, _snapshot_bound_projection_updates.
  assert (Hf : forall m : doc, filter (fun kv => kv.1 ∈ PROJECTION_FAMILY_FIELDS) m !! k = None).
  { intros m. apply map_lookup_filter_None. right. intros v _. done. }
  rewrite lookup_union_l by apply Hf.
  destruct (lc !! k) as [v|] eqn:Hlc.
  - by apply map_lookup_filter_Some.
  - apply map_lookup_filter_None. by left.
Qed.

(** The lifecycle fields written with a new job, as read back from the row. *)
Lemma admitted_row_lookup dec sha fpp uid row extra jid rev st k :
  k ∉ ["client_processing"; "external_data"] -> root_segment k ∉ PROJECTION_FAMILY_FIELDS ->
  (bound_conversation_updates dec sha fpp uid row extra
     (lifecycle_fields jid rev st ∪ _non_projection_extra_updates extra) ∪ row) !! k =
  match lifecycle_fields jid rev st !! k with Some v => Some v | None => row !! k end.
Proof.
  intros Hk Hr. rewrite !lookup_union, bound_updates_lookup by (unfold PROJECTION_FAMILY_FIELDS; set_solver).
  assert (Hn : _non_projection_extra_updates extra !! k = None).
  { apply map_lookup_filter_None. right. intros v _. unfold _CALLER_LIFECYCLE_METADATA. simpl. set_solver. }
  rewrite lookup_union, Hn. by destruct (lifecycle_fields _ _ _ !! k), (row !! k).
Qed.

Lemma job_id_nonempty uid c rev : _job_id uid c rev <> "".
Proof.
  unfold _job_id, document_id_from_seed, uuid4_of_bytes.
  generalize (hex (take 4 (take 16 (sha256 ("listen-finalization:" ++ uid ++ ":" ++ c ++ ":" ++ Z_to_string rev)%string)))).
  intros h. by destruct h.
Qed.

Lemma lifecycle_fields_lookup jid rev st :
  let m := lifecycle_fields jid rev st in
  m !! "status" = Some (PStr "processing") /\ m !! "finalization_job_id" = Some (PStr jid) /\
  m !! "finalization_revision" = Some (PInt rev) /\ m !! "finalization_status" = Some st /\
  forall k, k ∉ ["status"; "finalization_job_id"; "finalization_revision"; "finalization_status"] -> m !! k = None.
Proof.
  unfold lifecycle_fields. cbv zeta. repeat split; try by simplify_map_eq.
  intros k Hk. rewrite !lookup_insert_ne by set_solver. apply lookup_singleton_ne. set_solver.
Qed.

Section admission.
Context (dec : string -> pyval -> bool -> option (list pyval)).
Context (sha : list pyval -> option string) (fpp : string -> option (list string)).
#[local] Abbreviation create := (_create_or_get_finalization_intent_txn dec sha fpp).

(** The transaction created a job: what it read and what it wrote. *)
Lemma created_inv s uid c byok now stale trig extra s1 i1 :
  create s uid c byok (fun d => _finalization_admission d c) now stale trig extra = Ok (s1, i1) ->
  intent_created i1 = true ->
  exists row rev,
    let jid := _job_id uid c rev in
    let st := (if byok then "blocked_byok" else "queued")%string in
    let job := new_finalization_job uid c rev jid st (finalization_fanout_key c rev) byok
                 (py_get (row_fields row) "client_platform") trig now stale in
    conversations s !! (uid, c) = Some row /\ next_revision (row_fields row) = Ok rev /\
    truthy (py_get (row_fields row) "deferred") = false /\
    truthy (py_get (row_fields row) "discarded") = false /\
    (get_str_or (row_fields row) "status" "in_progress" ∉ ["completed"; "failed"; "processing"]) /\
    _conversation_has_finalization_content dec uid row = true /\
    jobs s !! jid = None /\ jobs s1 = <[jid := job]> (jobs s) /\ _intent_from_job jid job true = Ok i1 /\
    conversations s1 = <[(uid, c) := MkRow (bound_conversation_updates dec sha fpp uid (row_fields row) extra
        (lifecycle_fields jid rev (PStr st) ∪ _non_projection_extra_updates extra) ∪ row_fields row)
        (row_has_photo row) now]> (conversations s).
Proof.
  intros Hr Hc. unfold _create_or_get_finalization_intent_txn in Hr.
  assert (Hno : forall j d i, _intent_from_job j d false = Ok i -> intent_created i = true -> False).
  { intros j d i Hi Hci. unfold _intent_from_job in Hi. inv_bind. injection Hi as <-. done. }
  destruct (conversations s !! (uid, c)) as [row|] eqn:Hrow; [|apply ok_pair in Hr as [_ <-]; done].
  cbv zeta in Hr.
  destruct (truthy (py_get (row_fields row) "deferred")) eqn:Hdef; [apply ok_pair in Hr as [_ <-]; done|].
  destruct (_conversation_has_finalization_content dec uid row) eqn:Hcont; cbn [negb] in Hr;
    [|apply ok_pair in Hr as [_ <-]; done].
  apply rbind_ok in Hr as (adm & Hadm & Hr).
  destruct (admission_accepts _ _ _ Hadm) as (Hacc & Hterm & Hkey).
  destruct (terminal adm); [apply ok_pair in Hr as [_ <-]; done|].
  destruct (match nonempty_str _ with Some _ => _ | None => _ end) as [[ej ejob]|].
  { apply rbind_ok in Hr as (i & Hi & Hr). apply ok_pair in Hr as [_ <-]. exfalso. by eapply Hno. }
  destruct (accepted adm) eqn:Hac; [|apply ok_pair in Hr as [_ <-]; done].
  destruct (admission_fanout_key adm) as [[|a fo]|] eqn:Hfk; [apply ok_pair in Hr as [_ <-]; done| |apply ok_pair in Hr as [_ <-]; done].
  apply rbind_ok in Hr as (rev & Hrev & Hr).
  destruct (jobs s !! _job_id uid c rev) as [job|] eqn:Hj.
  { apply rbind_ok in Hr as (i & Hi & Hr). apply ok_pair in Hr as [_ <-]. exfalso. by eapply Hno. }
  apply rbind_ok in Hr as (i & Hi & Hr). apply ok_pair in Hr as [<- <-].
  destruct (proj1 Hacc eq_refl) as [Hdisc Hstat]. destruct (Hkey _ eq_refl) as (rev' & Hrev' & Hfo).
  assert (rev' = rev) as -> by congruence. rewrite Hfo in *.
  exists row, rev. cbv zeta. do 7 (split; [done|]). split; [|split; [exact Hi|]].
  - by rewrite (proj1 (apply_bound_keeps _ _ _ _ _ _ _ _ _)), record_delta_jobs.
  - unfold _apply_snapshot_bound_projection. cbv zeta.
    rewrite decide_False; [by rewrite record_delta_conversations|].
    intros Hem. apply (f_equal (fun m : doc => m !! "status")) in Hem. revert Hem.
    rewrite bound_updates_lookup by decided.
    rewrite lookup_union, (proj1 (lifecycle_fields_lookup _ _ _)), lookup_empty.
    by destruct (_ !! "status").
Qed.
End admission.

Lemma new_job_intent uid c rev jid st fo (byok : bool) plat trig now stale b :
  st = (if byok then "blocked_byok" else "queued")%string ->
  _intent_from_job jid (new_finalization_job uid c rev jid st fo byok plat trig now stale) b =
    Ok (MkIntent (Some jid) st (Some 1) byok (Some fo) b).
Proof.
  intros ->. unfold _intent_from_job, get_int_or, get_str_or, new_finalization_job, doc_set, py_get. cbv zeta.
  rewrite !lookup_doc_update.
  destruct byok;
    cbn [app foldl String.eqb Ascii.eqb Bool.eqb fst snd apply_field default put_str put_int put_bool put_time];
    reflexivity.
Qed.

(** When admission creates a job, the same transaction binds the conversation to it: the row was open
    with content, becomes [processing] and names the new job and generation; the job is fresh, carries the
    generation's fanout key and is counted once. *)
Theorem create_intent_binds dec sha fpp s uid c byok now stale trig extra s1 i1 :
  _create_or_get_finalization_intent_txn dec sha fpp s uid c byok (fun d => _finalization_admission d c)
    now stale trig extra = Ok (s1, i1) ->
  intent_created i1 = true ->
  exists row row1 rev jid,
    conversations s !! (uid, c) = Some row /\ conversations s1 !! (uid, c) = Some row1 /\
    next_revision (row_fields row) = Ok rev /\ jid = _job_id uid c rev /\
    (get_str_or (row_fields row) "status" "in_progress" ∉ ["completed"; "failed"; "processing"]) /\
    py_get (row_fields row1) "status" = PStr "processing" /\
    py_get (row_fields row1) "finalization_job_id" = PStr jid /\
    py_get (row_fields row1) "finalization_revision" = PInt rev /\
    jobs s !! jid = None /\ (exists job, jobs s1 = <[jid := job]> (jobs s) /\ is_tracked job = true) /\
    i1 = MkIntent (Some jid) (if byok then "blocked_byok" else "queued")%string (Some 1) byok
           (Some (finalization_fanout_key c rev)) true.
Proof.
  intros Hr Hc. destruct (created_inv _ _ _ _ _ _ _ _ _ _ _ _ _ Hr Hc) as
    (row & rev & Hrow & Hrev & _ & _ & Hst & _ & Hj & Hjobs & Hi & Hconv).
  rewrite new_job_intent in Hi by done. injection Hi as <-.
  eexists row, _, rev, _. rewrite Hconv, lookup_insert_eq.
  do 5 (split; [done|]). unfold py_get. cbn [row_fields].
  rewrite !admitted_row_lookup by decided.
  destruct (lifecycle_fields_lookup (_job_id uid c rev) rev (PStr (if byok then "blocked_byok" else "queued")%string))
    as (-> & -> & -> & _ & _).
  do 4 (split; [done|]). split; [|done]. eexists. split; [exact Hjobs|].
  unfold is_tracked. apply bool_decide_eq_true.
  destruct (new_job_fields uid c rev (_job_id uid c rev) (if byok then "blocked_byok" else "queued")%string
    (finalization_fanout_key c rev) byok (py_get (row_fields row) "client_platform") trig now stale) as (_ & _ & Hg & Hs).
  pose proof (projection_shard_range (_job_id uid c rev)).
  unfold tracked_shard, _projection_ref_for_job. rewrite Hg, Hs. cbn [as_str as_int].
  rewrite String.eqb_refl. rewrite (proj2 (Z.leb_le _ _)), (proj2 (Z.ltb_lt _ _)) by lia. by eexists.
Qed.
Lemma create_intent_binds_witness :
  exists row1, conversations Scenario.queued !! ("u", "c") = Some row1 /\
    py_get (row_fields row1) "finalization_job_id" = PStr Scenario.job_id.
Proof.
  destruct (create_intent_binds _ _ _ _ _ _ _ _ _ _ _ _ _ first_admission eq_refl)
    as (row & row1 & rev & jid & _ & Hrow1 & _ & _ & _ & _ & Hj & _ & _ & _ & Hi).
  exists row1. split; [exact Hrow1|]. rewrite Hj. f_equal. injection Hi as Hid. by rewrite Hid.
Defined.

(** Admission is idempotent. *)
Theorem create_intent_idempotent dec sha fpp s uid c byok now stale trig extra s1 i1
    byok' now' stale' trig' extra' :
  _create_or_get_finalization_intent_txn dec sha fpp s uid c byok (fun d => _finalization_admission d c)
    now stale trig extra = Ok (s1, i1) ->
  intent_created i1 = true ->
  exists s2 i2,
    _create_or_get_finalization_intent_txn dec sha fpp s1 uid c byok' (fun d => _finalization_admission d c)
      now' stale' trig' extra' = Ok (s2, i2) /\
    intent_created i2 = false /\ intent_job_id i2 = intent_job_id i1 /\
    intent_requires_byok i2 = byok /\ intent_fanout_key i2 = intent_fanout_key i1 /\
    jobs s2 = jobs s1 /\ shards s2 = shards s1.
Proof.
  intros Hr Hc. destruct (created_inv _ _ _ _ _ _ _ _ _ _ _ _ _ Hr Hc) as
    (row & rev & Hrow & Hrev & Hdef & Hdisc & Hst & Hcont & Hj & Hjobs & Hi & Hconv).
  rewrite new_job_intent in Hi by done. injection Hi as <-.
  set (st := (if byok then "blocked_byok" else "queued")%string) in *.
  destruct (lifecycle_fields_lookup (_job_id uid c rev) rev (PStr st)) as (Ls & Lj & Lr & _ & Lo).
  unfold _create_or_get_finalization_intent_txn. rewrite Hconv, lookup_insert_eq. cbv zeta. cbn [row_fields].
  set (row1 := bound_conversation_updates _ _ _ _ _ _ _ ∪ row_fields row).
  assert (Hsame : forall k, k ∉ ["status"; "finalization_job_id"; "finalization_revision"; "finalization_status";
      "client_processing"; "external_data"] -> root_segment k ∉ PROJECTION_FAMILY_FIELDS ->
      py_get row1 k = py_get (row_fields row) k).
  { intros k Hk Hroot. unfold py_get, row1. rewrite admitted_row_lookup by (clear -Hk Hroot; set_solver).
    by rewrite Lo by (clear -Hk; set_solver). }
  assert (Hjid : py_get row1 "finalization_job_id" = PStr (_job_id uid c rev)).
  { unfold py_get, row1. rewrite admitted_row_lookup by decided. by rewrite Lj. }
  assert (Hstatus : py_get row1 "status" = PStr "processing").
  { unfold py_get, row1. rewrite admitted_row_lookup by decided. by rewrite Ls. }
  assert (Hrev1 : py_get row1 "finalization_revision" = PInt rev).
  { unfold py_get, row1. rewrite admitted_row_lookup by decided. by rewrite Lr. }
  rewrite (Hsame "deferred") by decided. rewrite Hdef.
  assert (Hcont1 : _conversation_has_finalization_content dec uid
     {| row_fields := row1; row_has_photo := row_has_photo row; row_update_time := now |} = true).
  { rewrite <- Hcont. unfold _conversation_has_finalization_content, raw_conversation_has_content. cbn [row_fields row_has_photo].
    rewrite !Hsame by decided. done. }
  rewrite Hcont1. cbn [negb].
  assert (Hadm : _finalization_admission row1 c = Ok (MkAdmission false false "already_finalizing" None)).
  { unfold _finalization_admission, _finalization_decision_state, next_revision.
    rewrite (get_int_or_put row1 _ _ Hrev1), (Hsame "discarded"), Hdisc by decided.
    unfold get_str_or. rewrite Hstatus. cbn [rbind]. reflexivity. }
  rewrite Hadm. cbn [rbind terminal accepted]. rewrite Hjid. unfold nonempty_str.
  destruct (String.eqb_spec (_job_id uid c rev) "") as [He|_]; [by apply job_id_nonempty in He|].
  rewrite Hjobs, lookup_insert_eq. cbn [fmap option_fmap option_map]. rewrite new_job_intent by done. cbn [rbind].
  eexists _, _. split; [reflexivity|]. split; [done|]. split; [done|]. split; [done|]. split; [done|].
  destruct (apply_bound_keeps dec sha fpp s1 (uid, c) (Some (MkRow row1 (row_has_photo row) now)) extra' ∅ now') as [Ha Hb].
  rewrite Hjobs in Ha. done.
Qed.
Lemma create_intent_idempotent_witness :
  exists s2 i2, _create_or_get_finalization_intent_txn Scenario.no_transcript Scenario.no_digest Scenario.plain_path
      Scenario.queued "u" "c" true (fun d => _finalization_admission d "c") (seconds 5) (seconds 300)
      CLIENT_FINALIZE None = Ok (s2, i2) /\ intent_created i2 = false.
Proof.
  destruct (create_intent_idempotent _ _ _ _ _ _ _ _ _ _ _ _ _ true (seconds 5) (seconds 300) CLIENT_FINALIZE None
    first_admission eq_refl) as (s2 & i2 & H2 & Hc & _).
  exists s2, i2. split; [exact H2|exact Hc].
Defined.


(** ** Leases exclude the reconcilers *)

Definition leased_live (s : store) (j : string) (now : Z) : Prop :=
  exists job, jobs s !! j = Some job /\ py_get job "status" = PStr "leased" /\ lease_is_live job now = true.

Lemma get_str_or_str job w dflt : w <> "" -> py_get job "status" = PStr w -> get_str_or job "status" dflt = w.
Proof. intros Hw Hs. unfold get_str_or. by rewrite Hs, py_or_str_nonempty. Qed.

(** While a lease is live nobody else takes the job: another claim, the replay of a missed hand-off and
    the disposition of abandoned jobs all leave the store as it is. *)
Theorem live_lease_is_exclusive s j now :
  leased_live s j now ->
  (forall gen byok lease u c s' r, _claim_finalization_job_txn s j gen byok lease now u c = Ok (s', r) ->
     s' = s /\ claim_lease_epoch r = None) /\
  (forall stale s' i, _claim_finalization_replay_txn s j stale now = Ok (s', i) -> s' = s) /\
  (forall st gen ep cutoff s' r, _abandon_byok_finalization_job_txn s j st gen ep cutoff now = Ok (s', r) ->
     s' = s /\ abandonment_status r = "fenced").
Proof.
  intros (job & Hj & Hst & Hlive). pose proof (fun d => get_str_or_str job "leased" d ltac:(done) Hst) as Hget.
  split; [|split].
  - intros gen byok lease u c s' r Hr. unfold _claim_finalization_job_txn in Hr. rewrite Hj, Hget, Hlive in Hr.
    cbv zeta in Hr.
    repeat match type of Hr with (if ?b then Ok _ else _) = _ =>
      destruct b; [apply ok_pair in Hr as [<- <-]; done|] end.
    apply rbind_ok in Hr as (g & _ & Hr). destruct (negb _); apply ok_pair in Hr as [<- <-]; done.
  - intros stale s' i Hr. unfold _claim_finalization_replay_txn in Hr. rewrite Hj, Hget, Hlive in Hr.
    cbv zeta in Hr. cbn [String.eqb Ascii.eqb Bool.eqb andb] in Hr.
    destruct (_ || _) in Hr; apply rbind_ok in Hr as (i' & _ & Hr); by apply ok_pair in Hr as [<- _].
  - intros st gen ep cutoff s' r Hr. unfold _abandon_byok_finalization_job_txn in Hr. rewrite Hj, Hget in Hr.
    cbv zeta in Hr.
    assert (Hun : byok_unowned_since job cutoff now = false).
    { unfold byok_unowned_since. by rewrite Hget, Hlive. }
    rewrite Hun in Hr.
    repeat first [ match type of Hr with
                   | (if negb false then _ else _) = _ => by apply ok_pair in Hr as [<- <-]
                   | (if ?b then Ok _ else _) = _ => destruct b; [by apply ok_pair in Hr as [<- <-]|]
                   end
                 | apply rbind_ok in Hr as (? & _ & Hr) ].
Qed.
Lemma live_lease_is_exclusive_witness :
  committed Scenario.leased_twice
    (_claim_finalization_replay_txn Scenario.leased_twice Scenario.job_id 0 (seconds 25)) = Scenario.leased_twice.
Proof.
  destruct (committed_ok Scenario.leased_twice
    (_claim_finalization_replay_txn Scenario.leased_twice Scenario.job_id 0 (seconds 25))) as [i Hi].
  - vm_compute. reflexivity.
  - apply (proj1 (proj2 (live_lease_is_exclusive Scenario.leased_twice Scenario.job_id (seconds 25)
      ltac:(exists Scenario.leased_job; split; [exact leased_job_stored|split; vm_compute; reflexivity])))
      0 _ i Hi).
Defined.

(** ** External fanout *)

(** A worker is handed the fanout key only under its current lease and only for a completed, not
    discarded conversation that still names this job and generation; otherwise a current lease is fenced
    as stale, and no external delivery can follow. *)
Theorem fanout_claim_is_admitted s j gen ep now s' r :
  _claim_finalization_fanout_txn s j gen ep now = Ok (s', r) ->
  (fanout_claim_status r = "claimed" -> exists job ref row,
     jobs s !! j = Some job /\ _is_current_lease job gen ep = Ok true /\
     bound_conversation s job = Some (ref, Some row) /\
     is_str (py_get (row_fields row) "status") "completed" = true /\
     truthy (py_get (row_fields row) "discarded") = false /\
     is_str (py_get (row_fields row) "finalization_job_id") j = true /\
     same_revision (row_fields row) job = true) /\
  (fanout_claim_status r = "fenced" -> exists job,
     jobs s' !! j = Some job /\ py_get job "status" = PStr "completed" /\
     py_get job "terminal_outcome" = PStr "stale" /\ py_get job "fanout_status" = PStr "fenced") /\
  (fanout_claim_status r <> "claimed" -> fanout_claim_status r <> "fenced" -> s' = s).
Proof.
  intros Hr. unfold _claim_finalization_fanout_txn in Hr.
  destruct (jobs s !! j) as [job|] eqn:Hj; [|apply ok_pair in Hr as [<- <-]; done].
  apply rbind_ok in Hr as (key & _ & Hr).
  destruct (is_str (py_get job "fanout_status") "completed"); [apply ok_pair in Hr as [<- <-]; done|].
  apply rbind_ok in Hr as (cur & Hcur & Hr). destruct cur; cbn [negb] in Hr; [|apply ok_pair in Hr as [<- <-]; done].
  cbv zeta in Hr.
  destruct (bound_conversation s job) as [[ref [row|]]|] eqn:Hb;
    [destruct (_conversation_admits_fanout (row_fields row) job j) eqn:Hadm| |]; cbn [negb] in Hr;
    apply ok_pair in Hr as [<- <-].
  - split; [|done]. intros _. exists job, ref, row. unfold _conversation_admits_fanout in Hadm. to_prop. done.
  - split; [done|split; [|done]]. intros _. eexists. rewrite record_delta_jobs. cbn [update_job with_jobs jobs].
    rewrite lookup_insert_eq. split; [done|]. unfold_writes. doc_simpl. done.
  - split; [done|split; [|done]]. intros _. eexists. rewrite record_delta_jobs. cbn [update_job with_jobs jobs].
    rewrite lookup_insert_eq. split; [done|]. unfold_writes. doc_simpl. done.
  - split; [done|split; [|done]]. intros _. eexists. rewrite record_delta_jobs. cbn [update_job with_jobs jobs].
    rewrite lookup_insert_eq. split; [done|]. unfold_writes. doc_simpl. done.
Qed.
Lemma fanout_claim_is_admitted_witness :
  exists job ref row, jobs Scenario.processed !! Scenario.job_id = Some job /\
    bound_conversation Scenario.processed job = Some (ref, Some row) /\
    is_str (py_get (row_fields row) "status") "completed" = true.
Proof.
  destruct (proj1 (fanout_claim_is_admitted _ _ _ _ _ _ _ fanout_claimed) eq_refl)
    as (job & ref & row & Hj & _ & Hb & Hs & _).
  exists job, ref, row. split; [exact Hj|]. split; [exact Hb|exact Hs].
Defined.

(** ** Dead letters *)

(** Exhausting the retries ends the job as a failure and, in the same transaction, takes the
    conversation it still owns out of [processing]; any other conversation keeps its row. *)
Theorem dead_letter_closes_conversation s j gen ep rc now s' job :
  _mark_finalization_dead_letter_txn s j gen ep rc now = Ok (s', true) -> jobs s !! j = Some job ->
  (exists job', jobs s' !! j = Some job' /\ py_get job' "status" = PStr "dead_letter" /\
     py_get job' "terminal_outcome" = PStr "failure") /\
  (forall ref row, bound_conversation s job = Some (ref, Some row) ->
     still_processing_generation (row_fields row) job j = true ->
     exists row', conversations s' !! ref = Some row' /\ py_get (row_fields row') "status" = PStr "failed" /\
       py_get (row_fields row') "discarded" = PBool true) /\
  (forall ref, (forall row, bound_conversation s job = Some (ref, Some row) ->
       still_processing_generation (row_fields row) job j = false) ->
     conversations s' !! ref = conversations s !! ref).
Proof.
  intros Hr Hj. unfold _mark_finalization_dead_letter_txn in Hr. rewrite Hj in Hr.
  apply rbind_ok in Hr as (cur & _ & Hr). destruct cur; cbn [negb] in Hr; [|done]. cbv zeta in Hr.
  set (s2 := _record_projection_delta _ _ _) in Hr.
  assert (Hjobs : jobs s2 = <[j := doc_update job (dead_letter_fields rc now)]> (jobs s)) by (unfold s2; by rewrite record_delta_jobs).
  assert (Hconv : conversations s2 = conversations s) by (unfold s2; by rewrite record_delta_conversations).
  assert (Hjob : exists job', jobs s2 !! j = Some job' /\ py_get job' "status" = PStr "dead_letter" /\
     py_get job' "terminal_outcome" = PStr "failure").
  { eexists. rewrite Hjobs, lookup_insert_eq. split; [done|]. unfold_writes. doc_simpl. done. }
  destruct (bound_conversation s job) as [[ref [row|]]|] eqn:Hb;
    [destruct (still_processing_generation (row_fields row) job j) eqn:Hp| |];
    apply ok_pair in Hr as [<- _].
  - split; [exact Hjob|]. cbn [conversations update_conversation with_conversations]. rewrite Hconv. split.
    + intros ref' row' [= <- <-] _. eexists. rewrite lookup_insert_eq. split; [done|].
      cbn [row_fields]. unfold failed_conversation_fields. doc_simpl. done.
    + intros ref' Hno. destruct (decide (ref' = ref)) as [->|Hne]; [by rewrite (Hno row eq_refl) in Hp|].
      by rewrite lookup_insert_ne.
  - split; [exact Hjob|]. rewrite Hconv. split; [|done]. intros ref' row' [= <- <-]. congruence.
  - split; [exact Hjob|]. by rewrite Hconv.
  - split; [exact Hjob|]. by rewrite Hconv.
Qed.
Lemma dead_letter_closes_conversation_witness :
  exists row', conversations Scenario.dead_letter !! ("u", "c") = Some row' /\
    py_get (row_fields row') "status" = PStr "failed".
Proof.
  destruct (dead_letter_closes_conversation _ _ _ _ _ _ _ _ dead_lettered leased_job_stored) as (_ & Hclose & _).
  destruct (Hclose ("u", "c") Scenario.leased_row) as (row' & Hrow & Hs & _).
  - vm_compute. reflexivity.
  - vm_compute. reflexivity.
  - exists row'. split; [exact Hrow|exact Hs].
Defined.

(** ** Abandoned BYOK jobs *)

(** The conversation row a disposition leaves, by outcome. *)
Definition disposed_conversation (s s' : store) (outcome : string) (job : doc) (j : string) : Prop :=
  (outcome = "closed" -> exists ref row row',
     bound_conversation s job = Some (ref, Some row) /\
     py_get (row_fields row) "status" = PStr "processing" /\
     truthy (py_get (row_fields row) "discarded") = false /\
     truthy (py_get (row_fields row) "deferred") = false /\
     py_get (row_fields row) "finalization_job_id" = PStr j /\
     conversations s' = <[ref := row']> (conversations s) /\
     py_get (row_fields row') "status" = PStr "completed" /\
     (forall k, k ∉ ["status"; "finalization_status"] -> py_get (row_fields row') k = py_get (row_fields row) k)) /\
  (outcome <> "closed" -> conversations s' = conversations s).

(** The job a disposition may end: the generation and epoch the sweep saw, unfinished, with no live lease
    and inactive since the cutoff. *)
Definition abandonable (s : store) (j st : string) (gen ep cutoff now : Z) (job : doc) : Prop :=
  jobs s !! j = Some job /\ truthy (py_get job "requires_byok") = true /\
  get_str_or job "status" "" = st /\ st ∈ ["queued"; "leased"] /\
  get_int_or job "dispatch_generation" 1 = Ok gen /\ get_int_or job "lease_epoch" 0 = Ok ep /\
  ~ (st = "leased" /\ lease_is_live job now = true) /\
  (exists t, _job_last_activity_at job = Some t /\ t <= cutoff).

(** The store after the job part of a disposition. *)
Definition job_disposed (s s2 : store) (j : string) (job : doc) (now : Z) : Prop :=
  jobs s2 = <[j := doc_update job (abandoned_fields now)]> (jobs s) /\ conversations s2 = conversations s.

Lemma unowned_since_spec job st cutoff now :
  get_str_or job "status" "" = st -> byok_unowned_since job cutoff now = true ->
  ~ (st = "leased" /\ lease_is_live job now = true) /\ exists t, _job_last_activity_at job = Some t /\ t <= cutoff.
Proof.
  intros Hst Hun. unfold byok_unowned_since in Hun. rewrite Hst in Hun. to_prop. split.
  - intros [-> Hl]. rewrite Hl in *. done.
  - destruct (_job_last_activity_at job) as [t|]; [|done]. exists t. to_prop. done.
Qed.

(** A disposition refuses, or ends an abandonable job and goes on to its conversation. *)
Lemma abandon_inv s j st gen ep cutoff now s' r :
  _abandon_byok_finalization_job_txn s j st gen ep cutoff now = Ok (s', r) ->
  s' = s /\ abandonment_status r <> "abandoned" \/
  exists job s2, abandonable s j st gen ep cutoff now job /\ job_disposed s s2 j job now /\
    match bound_conversation s job with
    | Some (ref, Some row) =>
        if negb (is_str (py_get (row_fields row) "finalization_job_id") j)
           || negb (py_eqb (py_get (row_fields row) "finalization_revision") (py_get job "finalization_revision"))
        then Ok (s2, MkAbandonment "abandoned" "unbound") else
        if negb (is_str (py_get (row_fields row) "status") "processing") || truthy (py_get (row_fields row) "discarded")
        then Ok (s2, MkAbandonment "abandoned" "already_terminal") else
        if truthy (py_get (row_fields row) "deferred") then Ok (s2, MkAbandonment "abandoned" "deferred") else
        Ok (update_conversation s2 ref row closed_conversation_fields now, MkAbandonment "abandoned" "closed")
    | _ => Ok (s2, MkAbandonment "abandoned" "missing")
    end = Ok (E := pyexc) (s', r).
Proof.
  intros Hr. unfold _abandon_byok_finalization_job_txn in Hr.
  destruct (jobs s !! j) as [job|] eqn:Hj; [|left; by apply ok_pair in Hr as [<- <-]]. cbv zeta in Hr.
  destruct (truthy (py_get job "requires_byok")) eqn:Hbyok; cbn [negb] in Hr; [|left; by apply ok_pair in Hr as [<- <-]].
  match type of Hr with (if ?b then _ else _) = _ => destruct b eqn:Hstat; [left; by apply ok_pair in Hr as [<- <-]|] end.
  apply rbind_ok in Hr as (g & Hg & Hr).
  destruct (Z.eqb_spec g gen) as [->|]; cbn [negb] in Hr; [|left; by apply ok_pair in Hr as [<- <-]].
  apply rbind_ok in Hr as (e & He & Hr).
  destruct (Z.eqb_spec e ep) as [->|]; cbn [negb] in Hr; [|left; by apply ok_pair in Hr as [<- <-]].
  destruct (byok_unowned_since job cutoff now) eqn:Hun; cbn [negb] in Hr; [|left; by apply ok_pair in Hr as [<- <-]].
  apply orb_false_elim in Hstat as [Hs1 Hs2]. apply negb_false_iff in Hs1, Hs2. apply String.eqb_eq in Hs2.
  right. exists job. eexists. split; [|split; [|exact Hr]].
  - do 3 (split; [done|]). split; [|do 2 (split; [done|]); by apply unowned_since_spec].
    rewrite <- Hs2. apply orb_true_iff in Hs1 as [H|H]; apply String.eqb_eq in H; rewrite H; set_solver.
  - split; [by rewrite record_delta_jobs|by rewrite record_delta_conversations].
Qed.

(** A BYOK job is abandoned only as the exact generation and epoch the sweep saw, unfinished, with no
    live lease and inactive since the cutoff; it ends dead-lettered with its fanout fenced.  Its
    conversation is closed only while it is still this job's own processing generation and the recording
    keeps every other field; in every other case nothing but the job changes, and a refused disposition
    changes nothing at all. *)
Theorem abandonment_is_safe s j st gen ep cutoff now s' r :
  _abandon_byok_finalization_job_txn s j st gen ep cutoff now = Ok (s', r) ->
  (abandonment_status r <> "abandoned" -> s' = s) /\
  (abandonment_status r = "abandoned" -> exists job,
     abandonable s j st gen ep cutoff now job /\
     (exists job', jobs s' = <[j := job']> (jobs s) /\ py_get job' "status" = PStr "dead_letter" /\
        py_get job' "terminal_outcome" = PStr "failure" /\ py_get job' "fanout_status" = PStr "fenced") /\
     disposed_conversation s s' (conversation_outcome r) job j).
Proof.
  intros [[-> Hno]|(job & s2 & Hab & [Hjobs Hconv] & Hr)]%abandon_inv; [by split|].
  assert (Hcore : forall s3 outcome, jobs s3 = jobs s2 -> disposed_conversation s s3 outcome job j ->
    s' = s3 -> r = MkAbandonment "abandoned" outcome -> abandonment_status r = "abandoned" /\
    (exists job', jobs s' = <[j := job']> (jobs s) /\ py_get job' "status" = PStr "dead_letter" /\
        py_get job' "terminal_outcome" = PStr "failure" /\ py_get job' "fanout_status" = PStr "fenced") /\
    disposed_conversation s s' (conversation_outcome r) job j).
  { intros s3 outcome Hs3 Hdisp -> ->. split; [done|]. split; [|exact Hdisp].
    eexists. rewrite Hs3, Hjobs. split; [done|]. unfold_writes. doc_simpl. done. }
  cut (abandonment_status r = "abandoned" /\
    (exists job', jobs s' = <[j := job']> (jobs s) /\ py_get job' "status" = PStr "dead_letter" /\
        py_get job' "terminal_outcome" = PStr "failure" /\ py_get job' "fanout_status" = PStr "fenced") /\
    disposed_conversation s s' (conversation_outcome r) job j).
  { intros (Hst & Hj & Hd). split; [done|]. intros _. exists job. by split; [|split]. }
  destruct (bound_conversation s job) as [[ref [row|]]|] eqn:Hb;
    [|apply ok_pair in Hr as [<- <-]; refine (Hcore _ _ eq_refl _ eq_refl eq_refl); by split..].
  destruct (_ || _) eqn:Hown in Hr; [apply ok_pair in Hr as [<- <-]; refine (Hcore _ _ eq_refl _ eq_refl eq_refl); by split|].
  destruct (_ || _) eqn:Hopen in Hr; [apply ok_pair in Hr as [<- <-]; refine (Hcore _ _ eq_refl _ eq_refl eq_refl); by split|].
  destruct (truthy (py_get (row_fields row) "deferred")) eqn:Hdef;
    [apply ok_pair in Hr as [<- <-]; refine (Hcore _ _ eq_refl _ eq_refl eq_refl); by split|].
  apply ok_pair in Hr as [<- <-]. refine (Hcore (update_conversation s2 ref row closed_conversation_fields now) _ eq_refl _ eq_refl eq_refl).
  split; [|done]. intros _. to_prop.
  eexists ref, row, _. split; [done|]. do 2 (split; [by try apply is_str_spec|]). split; [done|].
  split; [by apply is_str_spec|]. cbn [conversations update_conversation with_conversations]. rewrite Hconv.
  split; [done|]. cbn [row_fields]. unfold closed_conversation_fields. split; [doc_simpl; done|].
  intros k Hk. apply py_get_update_other. rewrite !not_elem_of_cons in Hk. destruct Hk as (Hk1 & Hk2 & _).
  repeat constructor; cbn [fst put_str]; by apply String.eqb_neq.
Qed.
Lemma abandonment_is_safe_witness :
  exists job', jobs Scenario.byok_abandoned = <[Scenario.job_id := job']> (jobs Scenario.byok_queued) /\
    py_get job' "terminal_outcome" = PStr "failure".
Proof.
  destruct (proj2 (abandonment_is_safe _ _ _ _ _ _ _ _ _ byok_abandonment) eq_refl)
    as (job & _ & (job' & Hj & _ & Ho & _) & _).
  exists job'. split; [exact Hj|exact Ho].
Defined.
