(* ===== verification/FinalizationService.v ===== *)
(** The public operations of the job store, each one transaction at one clock
    reading, and the periodic reconcilers built on them
    ([services/conversation_finalization.py]). *)
From S2P Require Export FinalizationOps.

(** ** Public operations of [database/conversation_finalization_jobs.py] *)

Definition resume_blocked_byok_job_for_live_session (now : Z) (s : store) (job_id : string) :=
  _resume_blocked_byok_job_txn s job_id now.

Definition claim_finalization_job (now : Z) (s : store) (job_id : string) (dispatch_generation : Z)
    (allow_byok : bool) (lease_seconds : Z) (expected_uid expected_conversation_id : option string) :=
  _claim_finalization_job_txn s job_id dispatch_generation allow_byok lease_seconds now
    expected_uid expected_conversation_id.

Definition mark_finalization_completed (now : Z) (s : store) (job_id : string) (dispatch_generation lease_epoch : Z) :=
  _mark_finalization_completed_txn s job_id dispatch_generation lease_epoch now.

Definition mark_finalization_fenced (now : Z) (s : store) (job_id : string) (dispatch_generation lease_epoch : Z) :=
  _mark_finalization_fenced_txn s job_id dispatch_generation lease_epoch now.

Definition claim_finalization_fanout (now : Z) (s : store) (job_id : string) (dispatch_generation lease_epoch : Z) :=
  _claim_finalization_fanout_txn s job_id dispatch_generation lease_epoch now.

Definition mark_finalization_fanout_completed (now : Z) (s : store) (job_id : string)
    (dispatch_generation lease_epoch : Z) :=
  _mark_finalization_fanout_completed_txn s job_id dispatch_generation lease_epoch now.

Definition mark_finalization_retryable (env : environ) (now : Z) (s : store) (job_id : string)
    (dispatch_generation lease_epoch : Z) (failure_code : string) :=
  _mark_finalization_retryable_txn s job_id dispatch_generation lease_epoch failure_code now
    (get_finalization_reconcile_stale_after env).

Definition mark_finalization_dead_letter (now : Z) (s : store) (job_id : string)
    (dispatch_generation lease_epoch retry_count : Z) :=
  _mark_finalization_dead_letter_txn s job_id dispatch_generation lease_epoch retry_count now.

Definition get_finalization_job (s : store) (job_id : string) : option doc := jobs s !! job_id.

Definition record_meeting_receipt (now : Z) (s : store) (uid conversation_id : string)
    (finalization_job_id : option string) (eligible : bool) (reason : string) (duration_s dedup_speech_s : Q) :=
  _record_meeting_receipt_txn s uid conversation_id finalization_job_id eligible reason duration_s dedup_speech_s now.

(** The rows of the due-receipts query, in its order, as [(job_id, job)]. *)
Definition get_meeting_receipt_reconcile_candidates (limit : Z) (page : list (string * doc)) : list (string * doc) :=
  take (Z.to_nat (Z.max 1 (Z.min limit 100))) page.

Definition claim_finalization_replay (now : Z) (s : store) (job_id : string) (stale_after : Z) :=
  _claim_finalization_replay_txn s job_id stale_after now.

Definition stamp_processing_admission_if_absent (now : Z) (s : store) (uid conversation_id : string) :=
  _stamp_processing_admission_if_absent_txn s (uid, conversation_id) now.

Definition complete_orphan_conversation (now : Z) (s : store) (uid conversation_id : string)
    (expected_admitted_at : option Z) :=
  _complete_orphan_conversation_txn s (uid, conversation_id) expected_admitted_at now.

Definition renew_processing_lease (now : Z) (s : store) (uid conversation_id : string) :=
  _renew_processing_lease_txn s (uid, conversation_id) now.

Definition reacquire_deferred_processing (now : Z) (s : store) (uid conversation_id : string) :=
  _reacquire_deferred_processing_txn s (uid, conversation_id) now.

Definition recover_deferred_processing_failure (now : Z) (s : store) (uid conversation_id : string) :=
  _recover_deferred_processing_failure_txn s (uid, conversation_id) now.

Definition advance_stale_processing_sweep_cursor (now : Z) (s : store) (expected_generation : Z)
    (new_resume_after_path : option string) :=
  _advance_stale_processing_sweep_cursor_txn s STALE_PROCESSING_SWEEP_STATE_DOC expected_generation
    new_resume_after_path now.

Definition advance_meeting_receipt_backfill_cursor (now : Z) (s : store) (expected_generation : Z)
    (new_resume_after_path : option string) :=
  _advance_stale_processing_sweep_cursor_txn s MEETING_RECEIPT_SWEEP_STATE_DOC expected_generation
    new_resume_after_path now.

Definition advance_byok_abandonment_sweep_cursor (now : Z) (s : store) (expected_generation : Z)
    (new_resume_after_path : option string) :=
  _advance_stale_processing_sweep_cursor_txn s BYOK_ABANDONMENT_SWEEP_STATE_DOC expected_generation
    new_resume_after_path now.

(** ** A process among others

    Between two database calls of a reconciler other processes may commit; a
    call may be answered, be lost before it commits, or commit without an
    answer. *)

Inductive call_fate : Type :=
| Answered | Lost | Unacknowledged.

Record world := MkWorld {
  w_store : store;
  w_calls : nat;
  w_tasks : list (string * Z);
}.

Definition env_flag (env : environ) (name dflt : string) : bool :=
  bool_decide (py_lower (py_strip (default dflt (env !! name))) ∈ ["1"; "true"; "yes"; "on"]).

Definition is_byok_abandonment_sweep_enabled (env : environ) : bool :=
  env_flag env "LISTEN_FINALIZATION_BYOK_ABANDONMENT_ENABLED" "true".

Definition is_listen_finalization_dispatch_enabled (env : environ) : bool :=
  String.eqb (default "inline" (env !! "LISTEN_FINALIZATION_DISPATCH_MODE")) "cloud_tasks".

Record orphan_report := MkOrphanReport {
  completed_rows : Z; migrated_rows : Z; skipped_rows : Z; error_rows : Z;
}.

Record byok_report := MkByokReport {
  abandoned_jobs : Z; conversations_closed : Z; skipped_jobs : Z; error_jobs : Z;
}.

Record replay_report := MkReplayReport {
  requeued_jobs : Z; skipped_replays : Z; enqueue_failed : Z; replay_error : Z;
}.

Definition count_completed (r : orphan_report) : orphan_report :=
  MkOrphanReport (completed_rows r + 1) (migrated_rows r) (skipped_rows r) (error_rows r).
Definition count_migrated (r : orphan_report) : orphan_report :=
  MkOrphanReport (completed_rows r) (migrated_rows r + 1) (skipped_rows r) (error_rows r).
Definition count_skipped (r : orphan_report) : orphan_report :=
  MkOrphanReport (completed_rows r) (migrated_rows r) (skipped_rows r + 1) (error_rows r).
Definition count_error (r : orphan_report) : orphan_report :=
  MkOrphanReport (completed_rows r) (migrated_rows r) (skipped_rows r) (error_rows r + 1).

Section reconcilers.
(** The environment of one run: the clock at each call, each call's fate, what
    other processes commit before it, the rows a query returns behind a cursor
    in the store it reads, the conversations at the document size limit, and
    whether the task queue takes a hand-off. *)
Context (clock : nat -> Z) (fate : nat -> call_fate) (others : nat -> store -> store).
Context (orphan_query byok_query : store -> option string -> list swept_row).
Context (replay_query : store -> Z -> list (string * doc)).
Context (oversize : string * string -> bool) (enqueues : string -> Z -> bool).
Context (env : environ).

Definition db_call {A : Type} (m : Z -> store -> result pyexc (store * A)) (w : world) : world * result pyexc A :=
  let k := w_calls w in
  let s := others k (w_store w) in
  match fate k with
  | Lost => (MkWorld s (S k) (w_tasks w), Raise Unavailable)
  | Unacknowledged => (MkWorld (committed s (m (clock k) s)) (S k) (w_tasks w), Raise Unavailable)
  | Answered =>
      (MkWorld (committed s (m (clock k) s)) (S k) (w_tasks w),
       match m (clock k) s with Ok (_, a) => Ok a | Raise e => Raise e end)
  end.

Definition read {A : Type} (q : Z -> store -> result pyexc A) : Z -> store -> result pyexc (store * A) :=
  fun now s => let* a := q now s in Ok (s, a).

(** A stamp that would grow a document beyond its ceiling is rejected. *)
Definition stamp_call (ref : string * string) (now : Z) (s : store) : result pyexc (store * bool) :=
  let '(s', b) := stamp_processing_admission_if_absent now s ref.1 ref.2 in
  if b && oversize ref then Raise (InvalidArgument "maximum size") else Ok (s', b).

Definition migrate_legacy_row (ref : string * string) (stale_after : Z) (wr : world * orphan_report)
    : world * orphan_report :=
  let '(w, r) := wr in
  let '(w1, stamped) := db_call (stamp_call ref) w in
  match stamped with
  | Ok true => (w1, count_migrated r)
  | Ok false => (w1, count_skipped r)
  | Raise (InvalidArgument _) =>
      let '(w2, closed) :=
        db_call (fun now s => Ok (complete_unstampable_orphan_conversation s ref stale_after now)) w1 in
      match closed with
      | Ok true => (w2, count_completed r)
      | Ok false => (w2, count_skipped r)
      | Raise _ => (w2, count_error r)
      end
  | Raise _ => (w1, count_error r)
  end.

Definition reconcile_orphan_candidate (stale_after : Z) (wr : world * orphan_report) (c : orphan_candidate)
    : world * orphan_report :=
  if orphan_legacy c then migrate_legacy_row (orphan_uid c, orphan_id c) stale_after wr
  else
    let '(w, r) := wr in
    let '(w1, closed) :=
      db_call (fun now s => Ok (complete_orphan_conversation now s (orphan_uid c) (orphan_id c) (orphan_admitted_at c))) w in
    match closed with
    | Ok true => (w1, count_completed r)
    | Ok false => (w1, count_skipped r)
    | Raise _ => (w1, count_error r)
    end.

(** The cursor a sweep starts from; a failed read starts at the top. *)
Definition cursor_or_top (c : result pyexc sweep_cursor) : sweep_cursor :=
  match c with
  | Ok cursor => cursor
  | Raise _ => MkCursor None 0
  end.

Definition sweep_next {A : Type} (sweep : sweep_result A) : option string :=
  if exhausted sweep then None else next_path sweep.

Definition reconcile_stale_processing_conversations (limit : Z) (w : world) : world * orphan_report :=
  let stale_after := get_stale_processing_orphan_after env in
  let '(w1, c) := db_call (read (fun _ s => get_stale_processing_sweep_cursor s)) w in
  let cursor := cursor_or_top c in
  let '(w2, found) := db_call (read (fun now s =>
      Ok (get_stale_processing_orphan_candidates stale_after limit 2000 now
            (orphan_query s (resume_after_path cursor))))) w1 in
  match found with
  | Raise _ => (w2, MkOrphanReport 0 0 0 1)
  | Ok sweep =>
      let '(w3, _) := db_call (fun now s =>
          advance_stale_processing_sweep_cursor now s (cursor_generation cursor) (sweep_next sweep)) w2 in
      foldl (reconcile_orphan_candidate stale_after) (w3, MkOrphanReport 0 0 0 0) (candidates sweep)
  end.

(** [str(candidate.get('status') or '')] and the two counters are read from
    the swept row; a counter that is not a number fails the row. *)
Definition reconcile_byok_candidate (abandoned_after : Z) (wr : world * byok_report) (c : byok_candidate)
    : world * byok_report :=
  let '(w, r) := wr in
  let failed w := (w, MkByokReport (abandoned_jobs r) (conversations_closed r) (skipped_jobs r) (error_jobs r + 1)) in
  let skipped w := (w, MkByokReport (abandoned_jobs r) (conversations_closed r) (skipped_jobs r + 1) (error_jobs r)) in
  if String.eqb (byok_job_id c) "" then skipped w else
  match get_int_or (byok_job c) "dispatch_generation" 1, get_int_or (byok_job c) "lease_epoch" 0 with
  | Ok generation, Ok epoch =>
      let '(w1, d) := db_call (fun now s =>
          abandon_byok_finalization_job s (byok_job_id c) (get_str_or (byok_job c) "status" "")
            generation epoch abandoned_after now) w in
      match d with
      | Raise _ => failed w1
      | Ok disposition =>
          if String.eqb (abandonment_status disposition) "abandoned" then
            let closed := if String.eqb (conversation_outcome disposition) "closed" then 1 else 0 in
            (w1, MkByokReport (abandoned_jobs r + 1) (conversations_closed r + closed) (skipped_jobs r) (error_jobs r))
          else skipped w1
      end
  | _, _ => failed w
  end.

Definition reconcile_abandoned_byok_finalization_jobs (limit : Z) (w : world) : world * byok_report :=
  if negb (is_byok_abandonment_sweep_enabled env) then (w, MkByokReport 0 0 0 0) else
  let abandoned_after := get_byok_abandoned_after env in
  let '(w1, c) := db_call (read (fun _ s => get_byok_abandonment_sweep_cursor s)) w in
  let cursor := cursor_or_top c in
  let '(w2, found) := db_call (read (fun now s =>
      Ok (get_abandoned_byok_job_candidates abandoned_after limit 2000 now
            (byok_query s (resume_after_path cursor))))) w1 in
  match found with
  | Raise _ => (w2, MkByokReport 0 0 0 1)
  | Ok sweep =>
      let '(w3, _) := db_call (fun now s =>
          advance_byok_abandonment_sweep_cursor now s (cursor_generation cursor) (sweep_next sweep)) w2 in
      foldl (reconcile_byok_candidate abandoned_after) (w3, MkByokReport 0 0 0 0) (candidates sweep)
  end.

Definition replay_candidate (stale_after : Z) (wr : world * replay_report) (c : string * doc)
    : world * replay_report :=
  let '(w, r) := wr in
  let job_id := c.1 in
  let skipped w := (w, MkReplayReport (requeued_jobs r) (skipped_replays r + 1) (enqueue_failed r) (replay_error r)) in
  if String.eqb job_id "" then skipped w else
  let '(w1, claimed) := db_call (fun now s => claim_finalization_replay now s job_id stale_after) w in
  match claimed with
  | Raise _ => skipped w1
  | Ok intent =>
      if negb (String.eqb (intent_status intent) "queued") then skipped w1 else
      match intent_generation intent with
      | None => skipped w1
      | Some generation =>
          if enqueues job_id generation then
            (MkWorld (w_store w1) (w_calls w1) (w_tasks w1 ++ [(job_id, generation)]),
             MkReplayReport (requeued_jobs r + 1) (skipped_replays r) (enqueue_failed r) (replay_error r))
          else (w1, MkReplayReport (requeued_jobs r) (skipped_replays r) (enqueue_failed r + 1) (replay_error r))
      end
  end.

Definition reconcile_listen_finalization_jobs (limit : Z) (w : world) : world * replay_report :=
  if negb (is_listen_finalization_dispatch_enabled env) then (w, MkReplayReport 0 0 0 0) else
  let stale_after := get_finalization_reconcile_stale_after env in
  let '(w1, found) := db_call (read (fun now s =>
      Ok (get_finalization_replay_candidates limit (replay_query s now)))) w in
  match found with
  | Raise _ => (w1, MkReplayReport 0 0 0 1)
  | Ok page => foldl (replay_candidate stale_after) (w1, MkReplayReport 0 0 0 0) page
  end.
End reconcilers.


(** ** What the orphan sweep may write *)

(** One write of the recovery of stranded conversations, for an age bound and a
    clock: stamping an unstamped processing row, closing an unowned one whose
    admission (or, when it cannot be stamped, whose last write) is older than
    the bound, or moving a cursor. *)
Inductive recovery_write (clock : nat -> Z) (stale_after : Z) (s s' : store) : Prop :=
| write_stamp ref row t :
    conversations s !! ref = Some row -> py_get (row_fields row) "status" = PStr "processing" ->
    as_time (py_get (row_fields row) "processing_admitted_at") = None ->
    s' = update_conversation s ref row [put_time "processing_admitted_at" t] t ->
    recovery_write clock stale_after s s'
| write_close ref row t k now :
    conversations s !! ref = Some row -> py_get (row_fields row) "status" = PStr "processing" ->
    otherwise_owned (row_fields row) = false ->
    as_time (py_get (row_fields row) "processing_admitted_at") = Some t -> t + stale_after <= clock k ->
    s' = update_conversation s ref row [put_str "status" "completed"] now ->
    recovery_write clock stale_after s s'
| write_close_unstampable ref row k :
    conversations s !! ref = Some row -> py_get (row_fields row) "status" = PStr "processing" ->
    otherwise_owned (row_fields row) = false ->
    as_time (py_get (row_fields row) "processing_admitted_at") = None ->
    row_update_time row + stale_after <= clock k ->
    s' = update_conversation s ref row [put_str "status" "completed"] (clock k) ->
    recovery_write clock stale_after s s'
| write_cursor m : s' = with_sweep_state s m -> recovery_write clock stale_after s s'.

(** ** Candidates *)

Lemma sweep_candidates {A} (classify : swept_row -> option A) limit max_scan rows :
  Forall (fun c => exists row, classify row = Some c) (candidates (run_sweep classify limit max_scan rows)).
Proof.
  unfold run_sweep. destruct (sweep_pages _ _ _ _ _ _) as [st' d] eqn:Hrun.
  destruct (sweep_pages_spec classify limit max_scan _ rows (MkProgress [] 0 None) _ _ ltac:(cbn; lia) ltac:(cbn; lia) Hrun)
    as (pre & post & -> & (Hc & _) & _).
  cbn [candidates collected app] in *. rewrite Hc. clear. induction pre as [|row pre IH]; cbn; [constructor|].
  destruct (classify row) eqn:Hr; [constructor; [by exists row|exact IH]|exact IH].
Qed.

Section runs.
Context (clock : nat -> Z) (fate : nat -> call_fate) (others : nat -> store -> store).
Context (orphan_query : store -> option string -> list swept_row).
Context (oversize : string * string -> bool) (env : environ) (E : store -> store -> Prop).

(** What the other processes commit. *)
Hypothesis others_step : forall k s, star E s (others k s).

Abbreviation run R := (star (fun a b => E a b \/ R a b)).

Lemma star_weaken (R : store -> store -> Prop) s s' : star E s s' -> run R s s'.
Proof. induction 1; [apply star_refl|]. eapply star_step; [by left|done]. Qed.

(** A call commits at most one write of its own, after those of the others. *)
Lemma db_call_run {A} (R : store -> store -> Prop) (m : Z -> store -> result pyexc (store * A)) w w' r :
  (forall k s s' a, m (clock k) s = Ok (s', a) -> s' = s \/ R s s') ->
  db_call clock fate others m w = (w', r) -> run R (w_store w) (w_store w').
Proof.
  intros Hm. unfold db_call. cbv zeta. intros Hr.
  eapply star_trans; [apply star_weaken, (others_step (w_calls w))|]. revert Hr.
  set (s := others _ _). intros Hr.
  assert (Hc : run R s (committed s (m (clock (w_calls w)) s))).
  { destruct (m (clock (w_calls w)) s) as [[s' a]|e] eqn:Hs; cbn [committed]; [|apply star_refl].
    destruct (Hm _ _ _ _ Hs) as [->|HR]; [apply star_refl|]. eapply star_step; [by right|apply star_refl]. }
  destruct (fate _); injection Hr as <- _; [exact Hc|apply star_refl|exact Hc].
Qed.

Lemma read_run {A} R (q : Z -> store -> result pyexc A) w w' r :
  db_call clock fate others (read q) w = (w', r) -> run R (w_store w) (w_store w').
Proof.
  apply db_call_run. intros k s s' a Hq. left. unfold read in Hq.
  apply rbind_ok in Hq as (x & _ & Hq). by apply ok_pair in Hq as [<- _].
Qed.

Lemma read_answer {A} (q : Z -> store -> result pyexc A) w w' a :
  db_call clock fate others (read q) w = (w', Ok a) -> exists k s, q (clock k) s = Ok a.
Proof.
  unfold db_call, read. cbv zeta. intros Hr. destruct (fate _); [|congruence|congruence].
  exists (w_calls w), (others (w_calls w) (w_store w)).
  destruct (q _ _); cbn [rbind] in Hr; congruence.
Qed.

Lemma stamp_write stale ref now s s' b :
  _stamp_processing_admission_if_absent_txn s ref now = (s', b) -> s' = s \/ recovery_write clock stale s s'.
Proof.
  unfold _stamp_processing_admission_if_absent_txn. intros Hr.
  destruct (conversations s !! ref) as [row|] eqn:Hrow; [|injection Hr as <- _; by left].
  destruct (is_str _ _) eqn:Hst; cbn [negb] in Hr; [|injection Hr as <- _; by left].
  destruct (as_time _) eqn:Ht; injection Hr as <- _; [by left|]. right.
  eapply write_stamp; [exact Hrow|by apply is_str_spec|exact Ht|reflexivity].
Qed.

Lemma close_write stale ref expected now s s' b :
  (forall t, expected = Some t -> exists k, t + stale <= clock k) ->
  _complete_orphan_conversation_txn s ref expected now = (s', b) -> s' = s \/ recovery_write clock stale s s'.
Proof.
  unfold _complete_orphan_conversation_txn. intros Hold Hr.
  destruct (conversations s !! ref) as [row|] eqn:Hrow; [|injection Hr as <- _; by left].
  destruct (is_str _ _) eqn:Hst; cbn [negb] in Hr; [|injection Hr as <- _; by left].
  destruct (otherwise_owned _) eqn:Hown; [injection Hr as <- _; by left|].
  destruct (as_time _) as [t|] eqn:Ht; [|injection Hr as <- _; by left].
  case_decide as Hexp; injection Hr as <- _; [|by left]. right. destruct (Hold t Hexp) as [k Hk].
  eapply (write_close _ _ _ _ ref row t k now); [exact Hrow|by apply is_str_spec|done|exact Ht|exact Hk|reflexivity].
Qed.

Lemma close_unstampable_write stale ref k s s' b :
  complete_unstampable_orphan_conversation s ref stale (clock k) = (s', b) ->
  s' = s \/ recovery_write clock stale s s'.
Proof.
  unfold complete_unstampable_orphan_conversation, _complete_unstampable_orphan_conversation_txn. intros Hr.
  destruct (conversations s !! ref) as [row|] eqn:Hrow; [|injection Hr as <- _; by left].
  destruct (is_str _ _) eqn:Hst; cbn [negb] in Hr; [|injection Hr as <- _; by left].
  destruct (otherwise_owned _) eqn:Hown; [injection Hr as <- _; by left|].
  destruct (as_time _) as [t|] eqn:Ht; [injection Hr as <- _; by left|].
  destruct (Z.ltb_spec (clock k - stale) (row_update_time row)); injection Hr as <- _; [by left|]. right.
  eapply (write_close_unstampable _ _ _ _ ref row k); [exact Hrow|by apply is_str_spec|done|exact Ht|lia|reflexivity].
Qed.

Lemma cursor_write stale name g p now s s' b :
  _advance_stale_processing_sweep_cursor_txn s name g p now = Ok (s', b) -> s' = s \/ recovery_write clock stale s s'.
Proof.
  unfold _advance_stale_processing_sweep_cursor_txn. intros Hr. apply rbind_ok in Hr as (cur & _ & Hr).
  destruct (negb _); apply ok_pair in Hr as [<- _]; [by left|]. right. by eapply write_cursor.
Qed.

Lemma total_step stale wr c :
  let r := wr.2 in let r' := (reconcile_orphan_candidate clock fate others oversize stale wr c).2 in
  completed_rows r' + migrated_rows r' + skipped_rows r' + error_rows r' =
  completed_rows r + migrated_rows r + skipped_rows r + error_rows r + 1.
Proof.
  destruct wr as [w r]. cbv zeta. unfold reconcile_orphan_candidate, migrate_legacy_row.
  destruct (orphan_legacy c).
  - destruct (db_call _ _ _ (stamp_call _ _) _) as [w1 [[|]|[]]]; cbn; try lia.
    destruct (db_call _ _ _ _ w1) as [w2 [[|]|]]; cbn; lia.
  - destruct (db_call _ _ _ _ w) as [w1 [[|]|]]; cbn; lia.
Qed.

Lemma candidate_run stale wr c :
  (orphan_legacy c = false -> forall t, orphan_admitted_at c = Some t -> exists k, t + stale <= clock k) ->
  run (recovery_write clock stale) (w_store wr.1)
    (w_store (reconcile_orphan_candidate clock fate others oversize stale wr c).1).
Proof.
  intros Hold. destruct wr as [w r]. unfold reconcile_orphan_candidate, migrate_legacy_row. cbn [fst].
  destruct (orphan_legacy c).
  - destruct (db_call _ _ _ (stamp_call _ _) w) as [w1 st] eqn:H1.
    assert (Hrun1 : run (recovery_write clock stale) (w_store w) (w_store w1)).
    { eapply db_call_run; [|exact H1]. intros k s s' b Hs. unfold stamp_call, stamp_processing_admission_if_absent in Hs.
      destruct (_stamp_processing_admission_if_absent_txn s _ (clock k)) as [s2 b2] eqn:Hst.
      destruct (b2 && _); [done|]. apply ok_pair in Hs as [<- _]. by eapply stamp_write. }
    destruct st as [[|]|[]]; try exact Hrun1.
    destruct (db_call _ _ _ _ w1) as [w2 cl] eqn:H2.
    assert (Hrun2 : run (recovery_write clock stale) (w_store w1) (w_store w2)).
    { eapply db_call_run; [|exact H2]. intros k s s' b Hs. injection Hs as Hs. by eapply close_unstampable_write. }
    destruct cl as [[|]|]; by eapply star_trans.
  - destruct (db_call _ _ _ _ w) as [w1 cl] eqn:H1.
    assert (Hrun1 : run (recovery_write clock stale) (w_store w) (w_store w1)).
    { eapply db_call_run; [|exact H1]. intros k s s' b Hs. injection Hs as Hs.
      eapply close_write; [by apply Hold|exact Hs]. }
    by destruct cl as [[|]|].
Qed.
End runs.

(** C22: whatever fails and whatever other processes commit in between, the stranded-conversation sweep
    only ever stamps an unstamped processing row, closes an unowned row older than the bound, or moves its
    cursor: an owner with a recent admission is never closed. *)
Theorem orphan_sweep_refines_recovery clock fate others orphan_query oversize env E limit w :
  (forall k s, star E s (others k s)) ->
  star (fun a b => E a b \/ recovery_write clock (get_stale_processing_orphan_after env) a b) (w_store w)
    (w_store (reconcile_stale_processing_conversations clock fate others orphan_query oversize env limit w).1).
Proof.
  intros Hothers. unfold reconcile_stale_processing_conversations.
  destruct (db_call _ _ _ _ w) as [w1 c] eqn:H1. destruct (db_call _ _ _ _ w1) as [w2 found] eqn:H2.
  pose proof (read_run _ _ _ _ Hothers (recovery_write clock (get_stale_processing_orphan_after env)) _ _ _ _ H1) as R1.
  pose proof (read_run _ _ _ _ Hothers (recovery_write clock (get_stale_processing_orphan_after env)) _ _ _ _ H2) as R2.
  destruct found as [sweep|e]; [|by eapply star_trans].
  apply read_answer in H2 as (k & s & Hsweep). injection Hsweep as <-.
  destruct (db_call _ _ _ _ w2) as [w3 adv] eqn:H3.
  assert (R3 : star (fun a b => E a b \/ recovery_write clock (get_stale_processing_orphan_after env) a b)
    (w_store w2) (w_store w3)).
  { eapply db_call_run; [exact Hothers| |exact H3]. intros k' s' s'' b Hs.
    unfold advance_stale_processing_sweep_cursor in Hs. by eapply cursor_write. }
  eapply star_trans; [exact R1|]. eapply star_trans; [exact R2|]. eapply star_trans; [exact R3|]. clear R1 R2 R3 H1 H3.
  pose proof (sweep_candidates (classify_orphan (clock k - get_stale_processing_orphan_after env)) limit 2000
    (orphan_query s (resume_after_path (cursor_or_top c)))) as Hall.
  unfold get_stale_processing_orphan_candidates. revert Hall. generalize (candidates (run_sweep
    (classify_orphan (clock k - get_stale_processing_orphan_after env)) limit 2000
    (orphan_query s (resume_after_path (cursor_or_top c))))). intros cs Hall.
  change (w_store w3) with (w_store (w3, MkOrphanReport 0 0 0 0).1). generalize (w3, MkOrphanReport 0 0 0 0).
  induction Hall as [|x cs [row Hrow] _ IH]; intros wr; cbn [foldl]; [apply star_refl|].
  eapply star_trans; [|apply IH]. apply candidate_run; [exact Hothers|].
  intros Hleg t Ht. exists k. unfold classify_orphan in Hrow.
  destruct (_uid_from_conversation_path _); [|done]. destruct (_ || _) in Hrow; [done|].
  destruct (as_time _) as [a|]; [|injection Hrow as <-; done].
  destruct (Z.ltb_spec (clock k - get_stale_processing_orphan_after env) a); [done|].
  injection Hrow as <-. injection Ht as <-. lia.
Qed.
Lemma orphan_sweep_refines_recovery_witness :
  star (fun a b => False \/ recovery_write (fun k => seconds 2000) (get_stale_processing_orphan_after ∅) a b)
    RecoveryScenario.start
    (w_store (reconcile_stale_processing_conversations (fun k => seconds 2000) (fun _ => Answered) (fun _ s => s)
      (fun _ _ => [MkSwept "users/u/conversations/c" "c" (row_fields RecoveryScenario.stranded)])
      (fun _ => false) ∅ 100 (MkWorld RecoveryScenario.start 0 [])).1).
Proof.
  apply (orphan_sweep_refines_recovery _ _ _ _ _ _ (fun _ _ => False) 100 (MkWorld RecoveryScenario.start 0 [])).
  intros k s. apply star_refl.
Defined.

(** Each candidate of the sweep is counted exactly once, as completed, migrated, skipped or failed. *)
Theorem orphan_sweep_accounts clock fate others orphan_query oversize env limit w w1 w2 c sweep :
  db_call clock fate others (read (fun _ s => get_stale_processing_sweep_cursor s)) w = (w1, c) ->
  db_call clock fate others (read (fun now s =>
      Ok (get_stale_processing_orphan_candidates (get_stale_processing_orphan_after env) limit 2000 now
            (orphan_query s (resume_after_path (cursor_or_top c)))))) w1 = (w2, Ok sweep) ->
  let r := (reconcile_stale_processing_conversations clock fate others orphan_query oversize env limit w).2 in
  completed_rows r + migrated_rows r + skipped_rows r + error_rows r = Z.of_nat (length (candidates sweep)).
Proof.
  intros H1 H2. cbv zeta. unfold reconcile_stale_processing_conversations. rewrite H1, H2.
  destruct (db_call _ _ _ _ w2) as [w3 adv].
  assert (Hg : forall cs wr, let r := (foldl (reconcile_orphan_candidate clock fate others oversize
      (get_stale_processing_orphan_after env)) wr cs).2 in
    completed_rows r + migrated_rows r + skipped_rows r + error_rows r =
    completed_rows wr.2 + migrated_rows wr.2 + skipped_rows wr.2 + error_rows wr.2 + Z.of_nat (length cs)).
  { induction cs as [|x cs IH]; intros wr; cbn [foldl length]; [lia|].
    specialize (IH (reconcile_orphan_candidate clock fate others oversize (get_stale_processing_orphan_after env) wr x)).
    cbv zeta in IH. rewrite IH.
    pose proof (total_step clock fate others oversize (get_stale_processing_orphan_after env) wr x) as Hs.
    cbv zeta in Hs. rewrite Hs. lia. }
  specialize (Hg (candidates sweep) (w3, MkOrphanReport 0 0 0 0)). cbv zeta in Hg. rewrite Hg. cbn. lia.
Qed.

Lemma get_int_or_pos d k n z : py_get d k = PInt z -> z <> 0 -> get_int_or d k n = Ok z.
Proof. unfold get_int_or, py_or. intros -> Hz. simpl. by destruct (Z.eqb_spec z 0). Qed.

(** A replay of a stranded hand-off opens one generation per delay: it requeues the job under the next
    generation, and a second replay within the delay returns that generation and changes nothing, so both
    wake the same named task. *)
Theorem replay_opens_one_generation s j job stale now1 now2 g :
  jobs s !! j = Some job -> get_int_or job "dispatch_generation" 1 = Ok g -> 0 <= g -> now2 < now1 + stale ->
  (py_get job "status" = PStr "leased" /\ lease_is_live job now1 = false) \/
    (py_get job "status" = PStr "queued" /\ recently_dispatched job stale now1 = false) ->
  exists s1 i1 i2,
    _claim_finalization_replay_txn s j stale now1 = Ok (s1, i1) /\
    intent_status i1 = "queued" /\ intent_generation i1 = Some (g + 1) /\
    _claim_finalization_replay_txn s1 j stale now2 = Ok (s1, i2) /\
    intent_status i2 = "queued" /\ intent_generation i2 = Some (g + 1).
Proof.
  intros Hj Hg Hpos Hnow Hstate.
  set (job1 := doc_update job (replay_fields (g + 1) stale now1)).
  assert (Hj1 : py_get job1 "status" = PStr "queued" /\ py_get job1 "dispatch_generation" = PInt (g + 1) /\
    py_get job1 "dispatch_requested_at" = PTime now1) by (unfold job1, replay_fields; doc_simpl; done).
  destruct Hj1 as (Hst1 & Hgen1 & Hreq1).
  assert (Hintent : forall d b, py_get d "status" = PStr "queued" -> py_get d "dispatch_generation" = PInt (g + 1) ->
    exists i, _intent_from_job j d b = Ok i /\ intent_status i = "queued" /\ intent_generation i = Some (g + 1)).
  { intros d b Hs Hd. unfold _intent_from_job. rewrite (get_int_or_pos d _ 1 (g + 1) Hd) by lia. cbn [rbind].
    eexists. split; [reflexivity|]. cbn. by rewrite (get_str_or_str d "queued" "queued" ltac:(done) Hs). }
  destruct (Hintent (<["dispatch_generation" := PInt (g + 1)]> (<["status" := PStr "queued"]> job)) false)
    as (i1 & Hi1 & Hs1 & Hg1); [unfold py_get; by simplify_map_eq..|].
  destruct (Hintent job1 false Hst1 Hgen1) as (i2 & Hi2 & Hs2 & Hg2).
  assert (Hfirst : exists s1, _claim_finalization_replay_txn s j stale now1 = Ok (s1, i1) /\ jobs s1 !! j = Some job1).
  { unfold _claim_finalization_replay_txn. rewrite Hj. cbv zeta.
    destruct Hstate as [[Hst Hf]|[Hst Hf]].
    - rewrite (get_str_or_str job "leased" "" ltac:(done) Hst), Hf, Hg. cbn [rbind].
      rewrite (bool_decide_false ("leased" ∈ TERMINAL_JOB_STATUSES)) by decided.
      cbn [String.eqb Ascii.eqb Bool.eqb orb andb negb]. rewrite Hi1. cbn [rbind]. eexists. split; [reflexivity|].
      rewrite record_delta_jobs. cbn [update_job with_jobs jobs]. by rewrite lookup_insert_eq.
    - rewrite (get_str_or_str job "queued" "" ltac:(done) Hst), Hf, Hg. cbn [rbind].
      rewrite (bool_decide_false ("queued" ∈ TERMINAL_JOB_STATUSES)) by decided.
      cbn [String.eqb Ascii.eqb Bool.eqb orb andb negb]. rewrite Hi1. cbn [rbind]. eexists. split; [reflexivity|].
      cbn [update_job with_jobs jobs]. by rewrite lookup_insert_eq. }
  destruct Hfirst as (s1 & H1 & Hjob1). exists s1, i1, i2. do 3 (split; [done|]). split; [|by split].
  unfold _claim_finalization_replay_txn. rewrite Hjob1. cbv zeta. rewrite (get_str_or_str job1 "queued" "" ltac:(done) Hst1).
  rewrite (bool_decide_false ("queued" ∈ TERMINAL_JOB_STATUSES)) by decided.
  unfold recently_dispatched. rewrite Hreq1. cbn [as_time String.eqb Ascii.eqb Bool.eqb orb andb].
  rewrite (proj2 (Z.ltb_lt _ _)) by lia. rewrite Hi2. done.
Qed.
Lemma replay_opens_one_generation_witness :
  exists s1 i1, _claim_finalization_replay_txn Scenario.queued Scenario.job_id (seconds 30) (seconds 60) = Ok (s1, i1) /\
    intent_generation i1 = Some 2.
Proof.
  destruct (replay_opens_one_generation Scenario.queued Scenario.job_id Scenario.queued_job (seconds 30) (seconds 60)
    (seconds 61) 1 queued_job_stored) as (s1 & i1 & _ & H1 & _ & Hg & _).
  - vm_compute. reflexivity.
  - lia.
  - unfold seconds. lia.
  - right. split; vm_compute; reflexivity.
  - exists s1, i1. split; [exact H1|exact Hg].
Defined.
