(* ===== verification/CutoverModel.v ===== *)
(** Whole-account cutover: the persisted record and the transition request with
    their field constraints ([models/account_cutover.py]), the transition
    function ([utils/account_cutover/state.py]) and the generation fence for
    legacy writes ([utils/account_cutover/fence.py]).

    The account-wide state moves legacy -> migrating -> new, with a lossy
    rollback to [rolled_back_stranded]; everything here is a pure function on
    one record. *)
From S2P Require Export PyValue.

(** ** The enumerations *)

Inductive AccountCutoverState : Type :=
| legacy
| migrating
| new
| rolled_back_stranded.

(** The members [none] of the two enumerations below carry the name of their
    type, since Rocq constructors share one name space. *)
Inductive OfflineQueueInstruction : Type :=
| queue_none
| drain
| quarantine.

Inductive AccountCutoverClientAction : Type :=
| action_none
| force_upgrade
| migration_maintenance.

Inductive AccountCutoverCheckpointPhase : Type :=
| not_started
| inventory
| offline_queue_fenced
| exporting
| importing
| verifying
| cutover_ready
| completed
| failed
| paused.

#[export] Instance state_eq_dec : EqDecision AccountCutoverState.
Proof. solve_decision. Defined.
#[export] Instance instruction_eq_dec : EqDecision OfflineQueueInstruction.
Proof. solve_decision. Defined.
#[export] Instance action_eq_dec : EqDecision AccountCutoverClientAction.
Proof. solve_decision. Defined.
#[export] Instance phase_eq_dec : EqDecision AccountCutoverCheckpointPhase.
Proof. solve_decision. Defined.

(** [.value] of each enumeration. *)
Definition state_value (s : AccountCutoverState) : string :=
  match s with
  | legacy => "legacy"
  | migrating => "migrating"
  | new => "new"
  | rolled_back_stranded => "rolled_back_stranded"
  end.

Definition instruction_value (i : OfflineQueueInstruction) : string :=
  match i with
  | queue_none => "none"
  | drain => "drain"
  | quarantine => "quarantine"
  end.

Definition action_value (a : AccountCutoverClientAction) : string :=
  match a with
  | action_none => "none"
  | force_upgrade => "force_upgrade"
  | migration_maintenance => "migration_maintenance"
  end.

Definition phase_value (p : AccountCutoverCheckpointPhase) : string :=
  match p with
  | not_started => "not_started"
  | inventory => "inventory"
  | offline_queue_fenced => "offline_queue_fenced"
  | exporting => "exporting"
  | importing => "importing"
  | verifying => "verifying"
  | cutover_ready => "cutover_ready"
  | completed => "completed"
  | failed => "failed"
  | paused => "paused"
  end.

(** ** Field constraints *)

Definition is_alnum_ascii (c : ascii) : bool :=
  let n := Z.of_N (N_of_ascii c) in
  ((48 <=? n) && (n <=? 57)) || ((65 <=? n) && (n <=? 90)) || ((97 <=? n) && (n <=? 122)).

(** [[A-Za-z0-9._:-]] *)
Definition is_stable_char (c : ascii) : bool :=
  is_alnum_ascii c || Ascii.eqb c "." || Ascii.eqb c "_" || Ascii.eqb c ":" || Ascii.eqb c "-".

Fixpoint all_chars (f : ascii -> bool) (s : string) : bool :=
  match s with
  | EmptyString => true
  | String c r => f c && all_chars f r
  end.

(** The [StableId] annotation: 1 to 128 characters of the pattern
    [^[A-Za-z0-9][A-Za-z0-9._:-]*$]. *)
Definition StableId (s : string) : bool :=
  match s with
  | EmptyString => false
  | String c r => is_alnum_ascii c && all_chars is_stable_char r
  end && (py_len s <=? 128).

(** [Optional[...]] with a constraint on the value. *)
Definition opt_ok {A : Type} (f : A -> bool) (o : option A) : bool :=
  match o with None => true | Some a => f a end.

Definition token_ok (t : string) : bool := py_len t <=? 128.

(** ** The persisted record *)

(** [schema_version] is [Literal[1]]: it has one value and is written by
    [persisted_payload]. *)
Record AccountCutoverRecord : Type := {
  uid : string;
  state : AccountCutoverState;
  account_generation : Z;
  ui_generation : Z;
  api_generation : Z;
  stranded_new_data : bool;
  offline_queue_instruction : OfflineQueueInstruction;
  checkpoint_phase : AccountCutoverCheckpointPhase;
  checkpoint_token : option string;
  manifest_id : option string;
  destination_backend_bound : bool;
}.

#[export] Instance record_eq_dec : EqDecision AccountCutoverRecord.
Proof. solve_decision. Defined.

Definition ACCOUNT_CUTOVER_SCHEMA_VERSION : Z := 1.

(** The constraints pydantic enforces when a record is validated. *)
Definition record_ok (r : AccountCutoverRecord) : bool :=
  (1 <=? py_len (uid r)) && (0 <=? account_generation r) && (0 <=? ui_generation r) &&
  (0 <=? api_generation r) && opt_ok token_ok (checkpoint_token r) &&
  opt_ok StableId (manifest_id r).

Definition opt_str (o : option string) : pyval :=
  match o with Some s => PStr s | None => PNone end.

Definition persisted_payload (r : AccountCutoverRecord) : doc :=
  doc_set [put_int "schema_version" ACCOUNT_CUTOVER_SCHEMA_VERSION;
           put_str "uid" (uid r);
           put_str "state" (state_value (state r));
           put_int "account_generation" (account_generation r);
           put_int "ui_generation" (ui_generation r);
           put_int "api_generation" (api_generation r);
           put_bool "stranded_new_data" (stranded_new_data r);
           put_str "offline_queue_instruction" (instruction_value (offline_queue_instruction r));
           put_str "checkpoint_phase" (phase_value (checkpoint_phase r));
           ("checkpoint_token", Put (opt_str (checkpoint_token r)));
           ("manifest_id", Put (opt_str (manifest_id r)));
           put_bool "destination_backend_bound" (destination_backend_bound r)].

(** ** The transition request *)

Record AccountCutoverTransitionRequest : Type := {
  target_state : AccountCutoverState;
  expected_account_generation : Z;
  next_account_generation : option Z;
  req_stranded_new_data : option bool;
  req_offline_queue_instruction : option OfflineQueueInstruction;
  req_checkpoint_phase : option AccountCutoverCheckpointPhase;
  req_checkpoint_token : option string;
  req_manifest_id : option string;
  reason : string;
}.

Definition request_ok (q : AccountCutoverTransitionRequest) : bool :=
  (0 <=? expected_account_generation q) && opt_ok (fun n => 0 <=? n) (next_account_generation q) &&
  opt_ok token_ok (req_checkpoint_token q) && opt_ok StableId (req_manifest_id q) &&
  (1 <=? py_len (reason q)) && (py_len (reason q) <=? 64).

(** ** Errors *)

(** The exceptions of the component: the transition and concurrency errors with
    their [code], pydantic's validation error, a malformed document with the
    types it reports, the generation fence's error and [ValueError]. *)
Inductive cutover_error : Type :=
| AccountCutoverTransitionError (code : string)
| AccountCutoverConcurrencyError (code : string)
| AccountCutoverGenerationMismatchError (message : string)
| MalformedDocError (error_type : string)
| ValidationError
| CutoverValueError (message : string).

#[export] Instance cutover_error_eq_dec : EqDecision cutover_error.
Proof. solve_decision. Defined.

(** ** Transitions *)

Definition _FORWARD (s : AccountCutoverState) : list AccountCutoverState :=
  match s with
  | legacy => [migrating]
  | migrating => [new; rolled_back_stranded]
  | new => [rolled_back_stranded]
  | rolled_back_stranded => [migrating]
  end.

Definition _QUARANTINE_REQUIRED_STATES : list AccountCutoverState := [migrating; new].
Definition _GENERATION_BUMP_STATES : list AccountCutoverState := [migrating; new].

Definition state_in (s : AccountCutoverState) (l : list AccountCutoverState) : bool :=
  bool_decide (s ∈ l).

Definition legal_transitions (s : AccountCutoverState) : list AccountCutoverState := _FORWARD s.

Definition _assert_offline_instruction_legal (s : AccountCutoverState)
    (i : OfflineQueueInstruction) : result cutover_error unit :=
  if state_in s _QUARANTINE_REQUIRED_STATES && negb (bool_decide (i = quarantine)) then
    Raise (AccountCutoverTransitionError "illegal_offline_queue_instruction")
  else if bool_decide (s = rolled_back_stranded) && bool_decide (i = drain) then
    Raise (AccountCutoverTransitionError "illegal_offline_queue_instruction")
  else Ok tt.

(** [a if a is not None else b] *)
Definition or_else {A : Type} (o : option A) (b : A) : A := default b o.

(** A refresh that keeps the state; a field the request leaves out keeps its
    value. *)
Definition _refresh_same_state (r : AccountCutoverRecord) (q : AccountCutoverTransitionRequest)
    : result cutover_error AccountCutoverRecord :=
  let* _ := match req_offline_queue_instruction q with
            | Some i => _assert_offline_instruction_legal (state r) i
            | None => Ok tt
            end in
  Ok {| uid := uid r;
        state := state r;
        account_generation := account_generation r;
        ui_generation := ui_generation r;
        api_generation := api_generation r;
        stranded_new_data := or_else (req_stranded_new_data q) (stranded_new_data r);
        offline_queue_instruction :=
          or_else (req_offline_queue_instruction q) (offline_queue_instruction r);
        checkpoint_phase := or_else (req_checkpoint_phase q) (checkpoint_phase r);
        checkpoint_token :=
          match req_checkpoint_token q with Some t => Some t | None => checkpoint_token r end;
        manifest_id := match req_manifest_id q with Some i => Some i | None => manifest_id r end;
        destination_backend_bound := destination_backend_bound r |}.

(** The generation a transition requests. *)
Definition requested_generation (r : AccountCutoverRecord) (q : AccountCutoverTransitionRequest) : Z :=
  match next_account_generation q with
  | Some n => n
  | None =>
      if state_in (target_state q) _GENERATION_BUMP_STATES then account_generation r + 1
      else account_generation r
  end.

Definition generation_regresses (r : AccountCutoverRecord) (q : AccountCutoverTransitionRequest) : bool :=
  let next_generation := requested_generation r q in
  if state_in (target_state q) _GENERATION_BUMP_STATES then
    next_generation <=? account_generation r
  else next_generation <? account_generation r.

Definition requested_stranded (r : AccountCutoverRecord) (q : AccountCutoverTransitionRequest) : bool :=
  match req_stranded_new_data q with
  | Some b => b
  | None => if bool_decide (target_state q = rolled_back_stranded) then true else stranded_new_data r
  end.

Definition requested_offline (q : AccountCutoverTransitionRequest) : OfflineQueueInstruction :=
  match req_offline_queue_instruction q with
  | Some i => i
  | None =>
      match target_state q with
      | migrating | new | rolled_back_stranded => quarantine
      | legacy => queue_none
      end
  end.

Definition apply_cutover_transition (r : AccountCutoverRecord) (q : AccountCutoverTransitionRequest)
    : result cutover_error AccountCutoverRecord :=
  if negb (expected_account_generation q =? account_generation r) then
    Raise (AccountCutoverTransitionError "account_generation_mismatch")
  else if bool_decide (target_state q = state r) then _refresh_same_state r q
  else if negb (state_in (target_state q) (legal_transitions (state r))) then
    Raise (AccountCutoverTransitionError "illegal_cutover_transition")
  else if generation_regresses r q then
    Raise (AccountCutoverTransitionError "account_generation_regression")
  else
    let* _ := _assert_offline_instruction_legal (target_state q) (requested_offline q) in
    Ok {| uid := uid r;
          state := target_state q;
          account_generation := requested_generation r q;
          ui_generation := ui_generation r;
          api_generation := api_generation r;
          stranded_new_data := requested_stranded r q;
          offline_queue_instruction := requested_offline q;
          checkpoint_phase := or_else (req_checkpoint_phase q) (checkpoint_phase r);
          checkpoint_token :=
            match req_checkpoint_token q with Some t => Some t | None => checkpoint_token r end;
          manifest_id := match req_manifest_id q with Some i => Some i | None => manifest_id r end;
          destination_backend_bound := destination_backend_bound r |}.

(** ** The write fence *)

Definition legacy_writes_allowed_for_state (s : AccountCutoverState) : bool :=
  state_in s [legacy; rolled_back_stranded].

(** The decision dictionary: [allowed], [state], [account_generation],
    [reason]. *)
Record fence_decision : Type := {
  fence_allowed : bool;
  fence_state : string;
  fence_generation : Z;
  fence_reason : string;
}.

Definition evaluate_write_fence (r : AccountCutoverRecord) (expected : option Z) : fence_decision :=
  let answer allowed reason :=
    {| fence_allowed := allowed; fence_state := state_value (state r);
       fence_generation := account_generation r; fence_reason := reason |} in
  if negb (legacy_writes_allowed_for_state (state r)) then
    answer false ("blocked_" ++ state_value (state r))%string
  else if (0 <? account_generation r) && bool_decide (expected = None) then
    answer false "generation_mismatch"
  else
    let generation_ok := match expected with None => true | Some n => n =? account_generation r end in
    answer generation_ok (if generation_ok then "allowed" else "generation_mismatch")%string.

Definition assert_legacy_product_write_allowed (r : AccountCutoverRecord) (expected : option Z)
    : result cutover_error unit :=
  let decision := evaluate_write_fence r expected in
  if fence_allowed decision then Ok tt
  else if String.eqb (fence_reason decision) "generation_mismatch" then
    Raise (AccountCutoverGenerationMismatchError
      ("expected generation " ++ match expected with Some n => Z_to_string n | None => "None" end ++
       " != " ++ Z_to_string (account_generation r)))
  else
    Raise (AccountCutoverGenerationMismatchError
      ("legacy product writes blocked in state=" ++ state_value (state r))).

Definition background_job_should_skip_account (r : AccountCutoverRecord) : bool :=
  state_in (state r) [migrating; new].

(** ** Well-formedness and the lifecycle *)

(** The queue instruction of a fenced account. *)
Definition quarantined (r : AccountCutoverRecord) : bool :=
  negb (state_in (state r) _QUARANTINE_REQUIRED_STATES) ||
  bool_decide (offline_queue_instruction r = quarantine).

(** One lawful move of an account: within its state it keeps its generation;
    it enters [migrating] and [new] under a larger generation and returns to
    the legacy plane only as [rolled_back_stranded]. *)
Inductive lawful_move (r r' : AccountCutoverRecord) : Prop :=
| stays :
    state r' = state r -> account_generation r' = account_generation r -> lawful_move r r'
| enters_fence :
    state r' ∈ _FORWARD (state r) -> state r' ∈ [migrating; new] ->
    account_generation r < account_generation r' -> lawful_move r r'
| rolls_back :
    state r ∈ [migrating; new] -> state r' = rolled_back_stranded ->
    account_generation r <= account_generation r' -> lawful_move r r'.

Lemma state_in_spec s l : state_in s l = true <-> s ∈ l.
Proof. unfold state_in. apply bool_decide_eq_true. Qed.

Lemma state_in_false s l : state_in s l = false <-> s ∉ l.
Proof. unfold state_in. apply bool_decide_eq_false. Qed.

Lemma instruction_legal_quarantined s i x :
  _assert_offline_instruction_legal s i = Ok x ->
  state_in s _QUARANTINE_REQUIRED_STATES = true -> i = quarantine.
Proof.
  unfold _assert_offline_instruction_legal. intros H Hs. rewrite Hs in H.
  destruct (decide (i = quarantine)) as [|Hne]; [done|].
  rewrite (bool_decide_eq_false_2 _ Hne) in H. discriminate.
Qed.

(** The branches of a transition that succeeds. *)
Lemma apply_cutover_transition_inv r q r' :
  apply_cutover_transition r q = Ok r' ->
  expected_account_generation q = account_generation r /\
  ((target_state q = state r /\ _refresh_same_state r q = Ok r') \/
   (target_state q <> state r /\ target_state q ∈ _FORWARD (state r) /\
    generation_regresses r q = false /\
    (exists x, _assert_offline_instruction_legal (target_state q) (requested_offline q) = Ok x) /\
    state r' = target_state q /\ account_generation r' = requested_generation r q /\
    offline_queue_instruction r' = requested_offline q)).
Proof.
  unfold apply_cutover_transition. intros H.
  destruct (expected_account_generation q =? account_generation r) eqn:Hg; [|discriminate].
  apply Z.eqb_eq in Hg. split; [done|]. simpl in H.
  case_bool_decide as Hs; [left; done|right].
  destruct (state_in (target_state q) (legal_transitions (state r))) eqn:Hl; [|discriminate].
  apply state_in_spec in Hl. simpl in H.
  destruct (generation_regresses r q) eqn:Hr; [discriminate|].
  destruct (_assert_offline_instruction_legal _ _) as [x|] eqn:Hi; simpl in H; [|discriminate].
  injection H as <-. simpl. eauto 10.
Qed.

Lemma refresh_same_state_inv r q r' :
  _refresh_same_state r q = Ok r' ->
  state r' = state r /\ account_generation r' = account_generation r /\
  (exists x, match req_offline_queue_instruction q with
             | Some i => _assert_offline_instruction_legal (state r) i
             | None => Ok tt
             end = Ok x) /\
  offline_queue_instruction r' =
    or_else (req_offline_queue_instruction q) (offline_queue_instruction r).
Proof.
  unfold _refresh_same_state. intros H.
  destruct (match req_offline_queue_instruction q with Some _ => _ | None => _ end) as [x|] eqn:Hi;
    simpl in H; [|discriminate].
  injection H as <-. simpl. eauto.
Qed.

(** The fields a transition never writes. *)
Lemma apply_cutover_transition_frame r q r' :
  apply_cutover_transition r q = Ok r' ->
  uid r' = uid r /\ destination_backend_bound r' = destination_backend_bound r /\
  ui_generation r' = ui_generation r /\ api_generation r' = api_generation r /\
  checkpoint_phase r' = or_else (req_checkpoint_phase q) (checkpoint_phase r) /\
  checkpoint_token r' =
    match req_checkpoint_token q with Some t => Some t | None => checkpoint_token r end /\
  manifest_id r' = match req_manifest_id q with Some i => Some i | None => manifest_id r end.
Proof.
  unfold apply_cutover_transition, _refresh_same_state. intros H.
  repeat (first [case_bool_decide | case_match]; simpl in H; try discriminate);
    repeat match type of H with
    | rbind ?m _ = _ => destruct m; simpl in H; [|discriminate]
    end; injection H as <-; simpl; eauto 10.
Qed.

Lemma transition_is_lawful r q r' :
  apply_cutover_transition r q = Ok r' -> lawful_move r r'.
Proof.
  intros H. apply apply_cutover_transition_inv in H as
    [_ [[_ (Hs & Hg & _)%refresh_same_state_inv]|(_ & Hl & Hr & _ & Hs & Hg & _)]].
  - by apply stays.
  - unfold generation_regresses in Hr.
    destruct (state_in (target_state q) _GENERATION_BUMP_STATES) eqn:Hb; to_prop.
    + apply enters_fence; [by rewrite Hs|rewrite Hs; by apply state_in_spec in Hb|lia].
    + apply state_in_false in Hb. apply rolls_back; [| |lia].
      * destruct (state r), (target_state q); unfold _FORWARD, _GENERATION_BUMP_STATES in *; set_solver.
      * rewrite Hs. destruct (state r), (target_state q);
          unfold _FORWARD, _GENERATION_BUMP_STATES in *; set_solver.
Qed.

Lemma transition_keeps_quarantine r q r' :
  apply_cutover_transition r q = Ok r' -> quarantined r = true -> quarantined r' = true.
Proof.
  intros H Hq. unfold quarantined in *.
  destruct (state_in (state r') _QUARANTINE_REQUIRED_STATES) eqn:Hs'; [simpl|done].
  apply bool_decide_eq_true.
  apply apply_cutover_transition_inv in H as
    [_ [[_ (Hs & _ & [x Hx] & ->)%refresh_same_state_inv]|(_ & _ & _ & [x Hx] & Hs & _ & ->)]].
  - rewrite Hs in Hs'. rewrite Hs' in Hq. simpl in Hq. to_prop.
    destruct (req_offline_queue_instruction q); [|done]. simpl.
    by eapply instruction_legal_quarantined.
  - rewrite Hs in Hs'. by eapply instruction_legal_quarantined.
Qed.

Lemma transition_keeps_record_ok r q r' :
  request_ok q = true -> record_ok r = true -> apply_cutover_transition r q = Ok r' ->
  record_ok r' = true.
Proof.
  intros Hq Hr H. unfold request_ok, record_ok in *. to_prop.
  pose proof (apply_cutover_transition_frame _ _ _ H) as (Hu & _ & Hui & Hapi & _ & Htok & Hman).
  assert (0 <= account_generation r') as Hg.
  { apply transition_is_lawful in H as []; lia. }
  rewrite Hu, Hui, Hapi, Htok, Hman.
  repeat (apply andb_true_intro; split); try (by apply Z.leb_le).
  - by destruct (req_checkpoint_token q).
  - by destruct (req_manifest_id q).
Qed.

(** C39: a transition copies fields into the record without validating the
    result, and needs no validation: from a well-formed record and a validated
    request, a transition that succeeds gives a well-formed record whose
    offline queues are quarantined whenever the new state is fenced, reached by
    a lawful move (the generation never decreases, and increases on entering
    [migrating] or [new]). *)
Theorem transition_preserves_invariant r q r' :
  record_ok r = true -> quarantined r = true -> request_ok q = true ->
  apply_cutover_transition r q = Ok r' ->
  record_ok r' = true /\ quarantined r' = true /\ lawful_move r r' /\
  uid r' = uid r /\ destination_backend_bound r' = destination_backend_bound r.
Proof.
  intros Hr Hq Hok H.
  pose proof (apply_cutover_transition_frame _ _ _ H) as (? & ? & _).
  repeat split;
    eauto using transition_keeps_record_ok, transition_keeps_quarantine, transition_is_lawful.
Qed.

Definition example_record : AccountCutoverRecord :=
  {| uid := "u1"; state := legacy; account_generation := 0; ui_generation := 0;
     api_generation := 0; stranded_new_data := false; offline_queue_instruction := drain;
     checkpoint_phase := not_started; checkpoint_token := Some "t0"; manifest_id := None;
     destination_backend_bound := false |}.

Definition example_request : AccountCutoverTransitionRequest :=
  {| target_state := migrating; expected_account_generation := 0; next_account_generation := None;
     req_stranded_new_data := None; req_offline_queue_instruction := None;
     req_checkpoint_phase := Some inventory; req_checkpoint_token := Some "t1";
     req_manifest_id := Some "cutover-u1-0a"; reason := "begin" |}.

Definition example_migrating : AccountCutoverRecord :=
  {| uid := "u1"; state := migrating; account_generation := 1; ui_generation := 0;
     api_generation := 0; stranded_new_data := false; offline_queue_instruction := quarantine;
     checkpoint_phase := inventory; checkpoint_token := Some "t1";
     manifest_id := Some "cutover-u1-0a"; destination_backend_bound := false |}.

Lemma transition_preserves_invariant_witness :
  apply_cutover_transition example_record example_request = Ok example_migrating /\
  record_ok example_migrating = true /\ quarantined example_migrating = true /\
  lawful_move example_record example_migrating /\
  uid example_migrating = uid example_record /\
  destination_backend_bound example_migrating = destination_backend_bound example_record.
Proof.
  split; [vm_compute; reflexivity|].
  apply (transition_preserves_invariant example_record example_request example_migrating);
    vm_compute; reflexivity.
Defined.

(** ** Moves and the write fence *)

Lemma lawful_move_generation r r' :
  lawful_move r r' -> account_generation r <= account_generation r'.
Proof. intros []; lia. Qed.

Lemma star_generation r r' :
  star lawful_move r r' -> account_generation r <= account_generation r'.
Proof. induction 1 as [|? ? ? ?%lawful_move_generation]; lia. Qed.

Lemma fence_admits_inv r g :
  fence_allowed (evaluate_write_fence r (Some g)) = true ->
  state r ∈ [legacy; rolled_back_stranded] /\ g = account_generation r.
Proof.
  unfold evaluate_write_fence, legacy_writes_allowed_for_state.
  destruct (state_in (state r) _) eqn:Hs; simpl; [|done].
  apply state_in_spec in Hs. rewrite andb_false_r. simpl.
  intros ->%Z.eqb_eq. done.
Qed.

(** After an account leaves a legacy-plane state its generation has grown. *)
Lemma leaving_legacy_plane_grows r m r' :
  state r ∈ [legacy; rolled_back_stranded] -> star lawful_move r m -> star lawful_move m r' ->
  state m <> state r -> account_generation r < account_generation r'.
Proof.
  intros Hs Hrm Hmr' Hne. apply star_generation in Hmr'.
  enough (account_generation r < account_generation m) by lia. clear Hmr'.
  induction Hrm as [r|r n m Hrn Hnm IH]; [done|].
  destruct Hrn as [Hst Hg|Hf Hb Hlt|Hb Hst Hg].
  - rewrite <- Hg. apply IH; rewrite ?Hst; done.
  - apply star_generation in Hnm. lia.
  - exfalso. destruct (state r); set_solver.
Qed.

(** A writer that passed the fence under generation [g] never passes it
    again with [g] once the account has been anything but what it was: if the
    same generation is admitted at a later record, then no cutover happened in
    between. *)
Theorem stale_writer_stays_fenced r m r' g :
  fence_allowed (evaluate_write_fence r (Some g)) = true ->
  star lawful_move r m -> star lawful_move m r' -> state m <> state r ->
  fence_allowed (evaluate_write_fence r' (Some g)) = false.
Proof.
  intros [Hs ->]%fence_admits_inv Hrm Hmr' Hne.
  pose proof (leaving_legacy_plane_grows _ _ _ Hs Hrm Hmr' Hne).
  apply not_true_is_false. intros [_ ?]%fence_admits_inv. lia.
Qed.

Definition example_stranded : AccountCutoverRecord :=
  {| uid := "u1"; state := rolled_back_stranded; account_generation := 1; ui_generation := 0;
     api_generation := 0; stranded_new_data := true; offline_queue_instruction := quarantine;
     checkpoint_phase := inventory; checkpoint_token := Some "t2";
     manifest_id := Some "cutover-u1-0a"; destination_backend_bound := false |}.

Lemma stale_writer_stays_fenced_witness :
  fence_allowed (evaluate_write_fence example_record (Some 0)) = true /\
  fence_allowed (evaluate_write_fence example_stranded (Some 0)) = false.
Proof.
  split; [reflexivity|].
  apply (stale_writer_stays_fenced example_record example_migrating example_stranded 0).
  - reflexivity.
  - eapply star_step; [|apply star_refl]. apply enters_fence; [decided|decided|reflexivity].
  - eapply star_step; [|apply star_refl]. apply rolls_back; [decided|reflexivity|].
    simpl. lia.
  - discriminate.
Defined.

(** The assertion and the decision agree: a write is refused exactly when
    the fence says so, always as a generation mismatch, and a positive
    generation must be presented explicitly. *)
Theorem write_fence_exact r expected :
  match assert_legacy_product_write_allowed r expected with
  | Ok _ => legacy_writes_allowed_for_state (state r) = true /\
            (expected = Some (account_generation r) \/
             (expected = None /\ account_generation r <= 0))
  | Raise e => (exists m, e = AccountCutoverGenerationMismatchError m) /\
               (legacy_writes_allowed_for_state (state r) = false \/
                (expected = None /\ 0 < account_generation r) \/
                (exists n, expected = Some n /\ n <> account_generation r))
  end.
Proof.
  unfold assert_legacy_product_write_allowed, evaluate_write_fence.
  destruct (legacy_writes_allowed_for_state (state r)) eqn:Hs; simpl.
  2:{ split; eauto. }
  destruct expected as [n|]; simpl.
  - rewrite andb_false_r. simpl. destruct (Z.eqb_spec n (account_generation r)) as [->|Hn]; simpl.
    + split; [done|left; done].
    + split; [eauto|]. right; right; eauto.
  - rewrite andb_true_r. destruct (Z.ltb_spec 0 (account_generation r)); simpl.
    + split; [eauto|]. right; left; done.
    + split; [done|]. right; split; [done|lia].
Qed.
