(* ===== verification/CutoverStore.v ===== *)
(** Persistence and coordination of account cutover: the control documents and
    their compare-and-swap write ([database/account_cutover.py]), the cohort
    ([config/account_cutover.py]) and the six operations of the coordinator
    ([utils/account_cutover/coordinator.py]).

    Each operation reads the account's document, plans a write from it and
    persists the plan with a compare-and-swap on generation and checkpoint
    token.  The read and the write are separate: [CutoverRace.v] interleaves
    them. *)
From S2P Require Export CutoverModel.

(** ** Validation of stored documents

    Reading a document back is the work of pydantic, which is not part of the
    code.  What the component relies on: a validated record satisfies the field
    constraints of the model, and a persisted well-formed record reads back as
    itself. *)
Class RecordCodec : Type := {
  model_validate : doc -> option AccountCutoverRecord;
  model_validate_ok : forall d r, model_validate d = Some r -> record_ok r = true;
  model_validate_payload :
    forall r, record_ok r = true -> model_validate (persisted_payload r) = Some r;
}.

(** The control documents, by the uid of their path. *)
Abbreviation cutover_db := (gmap string doc).

(** ** Cohort *)

Definition ACCOUNT_CUTOVER_COHORT : gset string := ∅.

Definition is_account_cutover_cohort_member (cohort : gset string) (u : string) : bool :=
  negb (String.eqb u "") && bool_decide (u ∈ cohort).

(** ** Documents *)

(** A record built by the pydantic constructor, or by [model_validate] on typed
    values, satisfies the field constraints or is refused. *)
Definition validated (r : AccountCutoverRecord) : result cutover_error AccountCutoverRecord :=
  if record_ok r then Ok r else Raise ValidationError.

Definition default_legacy_record (u : string) : result cutover_error AccountCutoverRecord :=
  validated {| uid := u; state := legacy; account_generation := 0; ui_generation := 0;
               api_generation := 0; stranded_new_data := false;
               offline_queue_instruction := queue_none; checkpoint_phase := not_started;
               checkpoint_token := None; manifest_id := None;
               destination_backend_bound := false |}.

(** What a Firestore client offers to the write: a process lock, a transaction
    factory with its decorator importable, a document [set], or only the rows
    of the hermetic test store. *)
Record cutover_client : Type := {
  has_lock : bool;
  has_transaction : bool;
  transactional_importable : bool;
  ref_has_set : bool;
  exposes_rows : bool;
}.

Definition production_client : cutover_client :=
  {| has_lock := false; has_transaction := true; transactional_importable := true;
     ref_has_set := true; exposes_rows := false |}.

(** The random draws of one call: [secrets.token_hex(8)] and
    [secrets.token_hex(4)]. *)
Record draw : Type := { drawn_token : string; drawn_suffix : string }.

Section Documents.
Context `{RecordCodec}.

Definition _parse_bound_record (u : string) (d : doc) : result cutover_error AccountCutoverRecord :=
  match model_validate d with
  | None => Raise (MalformedDocError "validation_error")
  | Some r =>
      if String.eqb (uid r) u then Ok r else Raise (MalformedDocError "uid_binding_mismatch")
  end.

Definition get_account_cutover_record (db : cutover_db) (u : string)
    : result cutover_error AccountCutoverRecord :=
  match db !! u with
  | None => default_legacy_record u
  | Some d => _parse_bound_record u d
  end.

Definition get_account_cutover_record_optional (db : cutover_db) (u : string)
    : result cutover_error (option AccountCutoverRecord) :=
  match db !! u with
  | None => Ok None
  | Some d => let* r := _parse_bound_record u d in Ok (Some r)
  end.

Definition _read_current_generation_and_token (u : string) (snapshot : option doc)
    (require_existing : bool) : result cutover_error (Z * option string) :=
  match snapshot with
  | None =>
      if require_existing then
        Raise (AccountCutoverConcurrencyError "cutover_missing_during_cas")
      else Ok (0, None)
  | Some d =>
      let* current := _parse_bound_record u d in
      Ok (account_generation current, checkpoint_token current)
  end.

Definition _assert_cas_matches (current_generation : Z) (current_token : option string)
    (expected_generation : Z) (expected_token : option string) (document_exists : bool)
    : result cutover_error unit :=
  if negb (current_generation =? expected_generation) then
    Raise (AccountCutoverConcurrencyError "cutover_generation_cas_mismatch")
  else if document_exists && negb (bool_decide (current_token = None)) then
    if bool_decide (expected_token = None) || negb (bool_decide (current_token = expected_token)) then
      Raise (AccountCutoverConcurrencyError "cutover_checkpoint_cas_mismatch")
    else Ok tt
  else if negb (bool_decide (expected_token = None)) &&
          negb (bool_decide (current_token = expected_token)) then
    Raise (AccountCutoverConcurrencyError "cutover_checkpoint_cas_mismatch")
  else Ok tt.

Definition _write_document (c : cutover_client) (db : cutover_db) (u : string) (payload : doc)
    : result cutover_error cutover_db :=
  if ref_has_set c then Ok (<[u := payload]> db)
  else if exposes_rows c then Ok (<[u := payload]> db)
  else Raise (AccountCutoverConcurrencyError "cutover_cas_unsupported").

Definition set_account_cutover_record (c : cutover_client) (db : cutover_db) (u : string)
    (r : AccountCutoverRecord) : result cutover_error cutover_db :=
  if negb (String.eqb (uid r) u) then Raise (CutoverValueError "cutover record uid mismatch")
  else _write_document c db u (persisted_payload r).

(** The read and the comparison inside the lock or the transaction. *)
Definition cas_check (db : cutover_db) (u : string) (expected_generation : Z)
    (expected_token : option string) (require_existing : bool) : result cutover_error unit :=
  let* ' (generation, token) := _read_current_generation_and_token u (db !! u) require_existing in
  _assert_cas_matches generation token expected_generation expected_token
    (bool_decide (is_Some (db !! u))).

(** One atomic read, comparison and write. *)
Definition cas_set_account_cutover_record (c : cutover_client) (db : cutover_db) (u : string)
    (r : AccountCutoverRecord) (expected_generation : Z) (expected_token : option string)
    (require_existing : bool) : result cutover_error (cutover_db * AccountCutoverRecord) :=
  if negb (String.eqb (uid r) u) then Raise (CutoverValueError "cutover record uid mismatch")
  else if has_lock c then
    let* _ := cas_check db u expected_generation expected_token require_existing in
    let* db' := _write_document c db u (persisted_payload r) in
    Ok (db', r)
  else if has_transaction c then
    if negb (transactional_importable c) then
      Raise (AccountCutoverConcurrencyError "cutover_cas_unsupported")
    else
      let* _ := cas_check db u expected_generation expected_token require_existing in
      Ok (<[u := persisted_payload r]> db, r)
  else Raise (AccountCutoverConcurrencyError "cutover_cas_unsupported").

(** ** The coordinator *)

Definition _CHECKPOINT_FORWARD (p : AccountCutoverCheckpointPhase)
    : list AccountCutoverCheckpointPhase :=
  match p with
  | not_started => [inventory; paused; failed]
  | inventory => [offline_queue_fenced; paused; failed]
  | offline_queue_fenced => [exporting; paused; failed]
  | exporting => [importing; paused; failed]
  | importing => [verifying; paused; failed]
  | verifying => [cutover_ready; paused; failed]
  | cutover_ready => [paused; failed]
  | completed => []
  | failed => [inventory; offline_queue_fenced; exporting; paused]
  | paused => [inventory; offline_queue_fenced; exporting; importing; verifying; failed]
  end.

Definition _MAX_CHECKPOINT_TOKEN_LEN : Z := 128.

Definition _mint_checkpoint_token (fresh : draw) (explicit : option string)
    : result cutover_error string :=
  match explicit with
  | None => Ok (drawn_token fresh)
  | Some token =>
      if String.eqb token "" || (_MAX_CHECKPOINT_TOKEN_LEN <? py_len token) then
        Raise (AccountCutoverTransitionError "invalid_checkpoint_token")
      else Ok token
  end.

(** [_rebuild_record(current, ...)]: the record with some fields replaced,
    validated again. *)
Definition _rebuild_record (r : AccountCutoverRecord) (ui api : Z)
    (offline : OfflineQueueInstruction) (phase : AccountCutoverCheckpointPhase) (token : string)
    : result cutover_error AccountCutoverRecord :=
  validated {| uid := uid r; state := state r; account_generation := account_generation r;
               ui_generation := ui; api_generation := api;
               stranded_new_data := stranded_new_data r;
               offline_queue_instruction := offline; checkpoint_phase := phase;
               checkpoint_token := Some token; manifest_id := manifest_id r;
               destination_backend_bound := destination_backend_bound r |}.

(** A request built by the pydantic constructor, then applied. *)
Definition request_transition (r : AccountCutoverRecord) (q : AccountCutoverTransitionRequest)
    : result cutover_error AccountCutoverRecord :=
  if request_ok q then apply_cutover_transition r q else Raise ValidationError.

(** What an operation does after its read: return the record it read, or
    persist [next] over it. *)
Inductive plan : Type :=
| Done
| Persist (next : AccountCutoverRecord) (require_existing : bool).

Definition prepare_offline_drain (fresh : draw) (current : AccountCutoverRecord)
    : result cutover_error plan :=
  if negb (state_in (state current) [legacy; rolled_back_stranded]) then
    Raise (AccountCutoverTransitionError "offline_drain_after_fence")
  else if bool_decide (offline_queue_instruction current = drain) then Ok Done
  else
    let* token := _mint_checkpoint_token fresh None in
    let* updated := _rebuild_record current (ui_generation current) (api_generation current)
                      drain (checkpoint_phase current) token in
    Ok (Persist updated false).

Definition begin (u text : string) (fresh : draw) (current : AccountCutoverRecord)
    : result cutover_error plan :=
  let truthy_manifest := match manifest_id current with
                         | Some i => negb (String.eqb i "")
                         | None => false
                         end in
  if bool_decide (state current = migrating) && truthy_manifest then Ok Done
  else if negb (state_in (state current) [legacy; rolled_back_stranded]) then
    Raise (AccountCutoverTransitionError "illegal_cutover_transition")
  else
    let manifest := ("cutover-" ++ py_take 8 u ++ "-" ++ drawn_suffix fresh)%string in
    let* token := _mint_checkpoint_token fresh None in
    let* next := request_transition current
      {| target_state := migrating;
         expected_account_generation := account_generation current;
         next_account_generation := None;
         req_stranded_new_data := None;
         req_offline_queue_instruction := Some quarantine;
         req_checkpoint_phase := Some inventory;
         req_checkpoint_token := Some token;
         req_manifest_id := Some manifest;
         reason := py_take 64 text |} in
    Ok (Persist next false).

Definition checkpoint (phase : AccountCutoverCheckpointPhase) (expected next_token : option string)
    (fresh : draw) (current : AccountCutoverRecord) : result cutover_error plan :=
  if negb (bool_decide (state current = migrating)) then
    Raise (AccountCutoverTransitionError "illegal_cutover_transition")
  else if negb (bool_decide (expected = None)) &&
          negb (bool_decide (checkpoint_token current = expected)) then
    Raise (AccountCutoverTransitionError "checkpoint_token_mismatch")
  else if bool_decide (phase = checkpoint_phase current) then Ok Done
  else if bool_decide (phase = completed) then
    Raise (AccountCutoverTransitionError "illegal_checkpoint_transition")
  else if negb (bool_decide (phase ∈ _CHECKPOINT_FORWARD (checkpoint_phase current))) then
    Raise (AccountCutoverTransitionError "illegal_checkpoint_transition")
  else if bool_decide (phase ∈ [importing; verifying]) && negb (destination_backend_bound current) then
    Raise (AccountCutoverTransitionError "destination_backend_unbound")
  else
    let* token := _mint_checkpoint_token fresh next_token in
    let* updated := _rebuild_record current (ui_generation current) (api_generation current)
                      (offline_queue_instruction current) phase token in
    Ok (Persist updated true).

Definition bind_destination_product_generations (ui api expected : Z) (fresh : draw)
    (current : AccountCutoverRecord) : result cutover_error plan :=
  if negb (account_generation current =? expected) then
    Raise (AccountCutoverTransitionError "account_generation_mismatch")
  else if negb (destination_backend_bound current) then
    Raise (AccountCutoverTransitionError "destination_backend_unbound")
  else if (ui <? ui_generation current) || (api <? api_generation current) then
    Raise (AccountCutoverTransitionError "product_generation_regression")
  else
    let* token := _mint_checkpoint_token fresh None in
    let* updated := _rebuild_record current ui api (offline_queue_instruction current)
                      (checkpoint_phase current) token in
    Ok (Persist updated true).

Definition complete_to_new (expected : Z) (fresh : draw) (current : AccountCutoverRecord)
    : result cutover_error plan :=
  if bool_decide (state current = new) && bool_decide (checkpoint_phase current = completed) then
    if negb (account_generation current =? expected) then
      Raise (AccountCutoverTransitionError "account_generation_mismatch")
    else Ok Done
  else if negb (bool_decide (checkpoint_phase current = cutover_ready)) then
    Raise (AccountCutoverTransitionError "checkpoint_not_ready")
  else if negb (destination_backend_bound current) then
    Raise (AccountCutoverTransitionError "destination_backend_unbound")
  else
    let* token := _mint_checkpoint_token fresh None in
    let* next := request_transition current
      {| target_state := new;
         expected_account_generation := expected;
         next_account_generation := None;
         req_stranded_new_data := None;
         req_offline_queue_instruction := Some quarantine;
         req_checkpoint_phase := Some completed;
         req_checkpoint_token := Some token;
         req_manifest_id := None;
         reason := "complete_forward_migration" |} in
    Ok (Persist next true).

Definition rollback_lossy (expected : Z) (stranded : bool) (fresh : draw)
    (current : AccountCutoverRecord) : result cutover_error plan :=
  let* token := _mint_checkpoint_token fresh None in
  let* next := request_transition current
    {| target_state := rolled_back_stranded;
       expected_account_generation := expected;
       next_account_generation := None;
       req_stranded_new_data := Some stranded;
       req_offline_queue_instruction := Some quarantine;
       req_checkpoint_phase := None;
       req_checkpoint_token := Some token;
       req_manifest_id := None;
       reason := "lossy_rollback" |} in
  Ok (Persist next true).

(** The coordinator's calls with their arguments. *)
Inductive operation : Type :=
| PrepareOfflineDrain
| Begin (text : string)
| Checkpoint (phase : AccountCutoverCheckpointPhase) (expected next_token : option string)
| BindGenerations (ui api expected : Z)
| CompleteToNew (expected : Z)
| RollbackLossy (expected : Z) (stranded : bool).

(** The guards that precede the read of the document. *)
Definition guard (cohort : gset string) (u : string) (o : operation) : result cutover_error unit :=
  match o with
  | Begin _ =>
      if is_account_cutover_cohort_member cohort u then Ok tt
      else Raise (AccountCutoverTransitionError "cutover_not_enrolled")
  | BindGenerations ui api _ =>
      if (ui <? 0) || (api <? 0) then
        Raise (AccountCutoverTransitionError "invalid_product_generation")
      else Ok tt
  | _ => Ok tt
  end.

Definition plan_of (u : string) (o : operation) (fresh : draw) (current : AccountCutoverRecord)
    : result cutover_error plan :=
  match o with
  | PrepareOfflineDrain => prepare_offline_drain fresh current
  | Begin text => begin u text fresh current
  | Checkpoint phase expected next_token => checkpoint phase expected next_token fresh current
  | BindGenerations ui api expected =>
      bind_destination_product_generations ui api expected fresh current
  | CompleteToNew expected => complete_to_new expected fresh current
  | RollbackLossy expected stranded => rollback_lossy expected stranded fresh current
  end.

(** The first half of a call: guard, read, plan. *)
Definition read_and_plan (cohort : gset string) (db : cutover_db) (u : string) (o : operation)
    (fresh : draw) : result cutover_error (AccountCutoverRecord * plan) :=
  let* _ := guard cohort u o in
  let* current := get_account_cutover_record db u in
  let* p := plan_of u o fresh current in
  Ok (current, p).

(** The second half: the compare-and-swap against what was read. *)
Definition _persist_cas (c : cutover_client) (db : cutover_db) (u : string)
    (current next : AccountCutoverRecord) (require_existing : bool)
    : result cutover_error (cutover_db * AccountCutoverRecord) :=
  cas_set_account_cutover_record c db u next (account_generation current)
    (checkpoint_token current) require_existing.

(** [CoordinatorResult]; the operations other than [begin] return the record
    alone. *)
Record CoordinatorResult : Type := {
  result_record : AccountCutoverRecord;
  created : bool;
  resumed : bool;
}.

(** A whole call with nothing in between. *)
Definition coordinate (c : cutover_client) (cohort : gset string) (db : cutover_db) (u : string)
    (o : operation) (fresh : draw) : result cutover_error (cutover_db * CoordinatorResult) :=
  let* ' (current, p) := read_and_plan cohort db u o fresh in
  match p with
  | Done => Ok (db, {| result_record := current; created := false; resumed := true |})
  | Persist next require_existing =>
      let* ' (db', persisted) := _persist_cas c db u current next require_existing in
      Ok (db', {| result_record := persisted; created := true; resumed := false |})
  end.

End Documents.
