(* ===== verification/CutoverPlan.v ===== *)
(** What the coordinator's operations plan: every write they propose is a
    well-formed record, one lawful move away from the record that was read,
    under a token that was drawn or supplied. *)
From S2P Require Export CutoverStore.

(** ** Case analysis on a call *)

(** Take a planned call apart: conditions become hypotheses, refused branches
    disappear. *)
Ltac plan_cases H :=
  repeat match type of H with
  | (if ?b then _ else _) = _ => let E := fresh "Hg" in destruct b eqn:E; simpl in H; try discriminate H
  | rbind ?m _ = _ => let E := fresh "Hm" in destruct m eqn:E; simpl in H; [|discriminate H]
  | Ok _ = Ok _ => first [discriminate H | injection H; clear H; intros; subst]
  end.

(** A plan rebuilds the record, or applies a transition to it. *)
Inductive proposes (u : string) (o : operation) (r next : AccountCutoverRecord) : Prop :=
| proposes_rebuild ui api offline phase token :
    _rebuild_record r ui api offline phase token = Ok next ->
    offline = offline_queue_instruction r \/ state r ∈ [legacy; rolled_back_stranded] ->
    phase = checkpoint_phase r \/
      (state r = migrating /\ phase ∈ _CHECKPOINT_FORWARD (checkpoint_phase r) /\
       (phase ∈ [importing; verifying] -> destination_backend_bound r = true)) ->
    ui_generation r <= ui -> api_generation r <= api ->
    proposes u o r next
| proposes_transition q token :
    request_transition r q = Ok next -> req_checkpoint_token q = Some token ->
    (target_state q = migrating /\ (exists text, o = Begin text) /\
     state r ∈ [legacy; rolled_back_stranded] /\ req_checkpoint_phase q = Some inventory) \/
    (target_state q = new /\ checkpoint_phase r = cutover_ready /\
     destination_backend_bound r = true /\ req_checkpoint_phase q = Some completed) \/
    (target_state q = rolled_back_stranded /\ req_checkpoint_phase q = None) ->
    proposes u o r next.

Lemma mint_ok fresh explicit t :
  _mint_checkpoint_token fresh explicit = Ok t ->
  t = match explicit with None => drawn_token fresh | Some x => x end.
Proof.
  unfold _mint_checkpoint_token. destruct explicit; [|congruence].
  intros H. plan_cases H; congruence.
Qed.

Lemma prepare_offline_drain_proposes u fresh r next req :
  prepare_offline_drain fresh r = Ok (Persist next req) -> proposes u PrepareOfflineDrain r next.
Proof.
  unfold prepare_offline_drain. intros H. plan_cases H. to_prop.
  eapply proposes_rebuild; [eassumption|right|left; done|lia|lia]. by apply state_in_spec.
Qed.

Lemma checkpoint_proposes u phase e n fresh r next req :
  checkpoint phase e n fresh r = Ok (Persist next req) -> proposes u (Checkpoint phase e n) r next.
Proof.
  unfold checkpoint, _mint_checkpoint_token. intros H.
  destruct n as [n|]; plan_cases H; to_prop;
    (eapply proposes_rebuild; [eassumption|by left|right|lia|lia]);
    (split_and!; [done|done|]); intros Hin; destruct (destination_backend_bound r); try done;
    match goal with
    | Hb : _ && _ = false |- _ => rewrite (bool_decide_eq_true_2 _ Hin) in Hb; discriminate
    end.
Qed.

Lemma bind_generations_proposes u ui api g fresh r next req :
  bind_destination_product_generations ui api g fresh r = Ok (Persist next req) ->
  proposes u (BindGenerations ui api g) r next.
Proof.
  unfold bind_destination_product_generations. intros H. plan_cases H. to_prop.
  eapply proposes_rebuild; [eassumption|by left|by left|lia|lia].
Qed.

Lemma begin_proposes u text fresh r next req :
  begin u text fresh r = Ok (Persist next req) -> proposes u (Begin text) r next.
Proof.
  unfold begin. intros H. plan_cases H. to_prop.
  eapply proposes_transition; [eassumption|done|left].
  split_and!; [done|by exists text|by apply state_in_spec|done].
Qed.

Lemma complete_proposes u g fresh r next req :
  complete_to_new g fresh r = Ok (Persist next req) -> proposes u (CompleteToNew g) r next.
Proof.
  unfold complete_to_new. intros H. plan_cases H. to_prop.
  eapply proposes_transition; [eassumption|done|right; left]. done.
Qed.

Lemma rollback_proposes u g b fresh r next req :
  rollback_lossy g b fresh r = Ok (Persist next req) -> proposes u (RollbackLossy g b) r next.
Proof.
  unfold rollback_lossy. intros H. plan_cases H.
  eapply proposes_transition; [eassumption|done|right; right]. done.
Qed.

Lemma plan_proposes u o fresh r next req :
  plan_of u o fresh r = Ok (Persist next req) -> proposes u o r next.
Proof.
  destruct o; simpl; eauto using prepare_offline_drain_proposes, checkpoint_proposes,
    bind_generations_proposes, begin_proposes, complete_proposes, rollback_proposes.
Qed.

(** ** What is proposed is sound *)

Lemma rebuild_inv r ui api offline phase token next :
  _rebuild_record r ui api offline phase token = Ok next ->
  record_ok next = true /\ uid next = uid r /\ state next = state r /\
  account_generation next = account_generation r /\ offline_queue_instruction next = offline /\
  checkpoint_phase next = phase /\ checkpoint_token next = Some token /\
  destination_backend_bound next = destination_backend_bound r /\
  ui_generation next = ui /\ api_generation next = api.
Proof.
  unfold _rebuild_record, validated. intros H. plan_cases H. done.
Qed.

Lemma request_transition_inv r q next :
  request_transition r q = Ok next -> request_ok q = true /\ apply_cutover_transition r q = Ok next.
Proof. unfold request_transition. intros H. plan_cases H. done. Qed.

Lemma proposes_record_ok u o r next :
  record_ok r = true -> proposes u o r next -> record_ok next = true.
Proof.
  intros Hok [? ? ? ? ? (? & _)%rebuild_inv | ? ? [? ?]%request_transition_inv]; [done|].
  eauto using transition_keeps_record_ok.
Qed.

Lemma proposes_frame u o r next :
  proposes u o r next ->
  uid next = uid r /\ destination_backend_bound next = destination_backend_bound r /\
  (exists t, checkpoint_token next = Some t) /\
  ui_generation r <= ui_generation next /\ api_generation r <= api_generation next.
Proof.
  intros [? ? ? ? ? (_ & ? & _ & _ & _ & _ & ? & ? & ? & ?)%rebuild_inv|
          q t [_ (? & ? & ? & ? & _ & Ht & _)%apply_cutover_transition_frame]%request_transition_inv Hq].
  - split_and!; [done|done|eauto|lia|lia].
  - rewrite Hq in Ht. split_and!; [done|done|eauto|lia|lia].
Qed.

Lemma proposes_lawful u o r next : proposes u o r next -> lawful_move r next.
Proof.
  intros [? ? ? ? ? (_ & _ & ? & ? & _)%rebuild_inv | ? ? [_ ?]%request_transition_inv].
  - by apply stays.
  - by eapply transition_is_lawful.
Qed.

Lemma proposes_quarantined u o r next :
  quarantined r = true -> proposes u o r next -> quarantined next = true.
Proof.
  intros Hq [? ? off ? ? (_ & _ & Hs & _ & Hi & _)%rebuild_inv Hoff|
             ? ? [_ ?]%request_transition_inv]; [|by eapply transition_keeps_quarantine].
  unfold quarantined in *. rewrite Hs, Hi. destruct Hoff as [->|Hl]; [done|].
  replace (state_in (state r) _QUARANTINE_REQUIRED_STATES) with false; [done|].
  symmetry. apply state_in_false. intros Hin.
  unfold _QUARANTINE_REQUIRED_STATES in Hin. destruct (state r); set_solver.
Qed.

(** The only way into [new], into [migrating] and into the import phases. *)
Lemma proposes_new u o r next :
  proposes u o r next -> state next = new -> state r <> new ->
  state r = migrating /\ checkpoint_phase r = cutover_ready /\ destination_backend_bound r = true /\
  checkpoint_phase next = completed.
Proof.
  intros Hp Hn Hr.
  destruct (proposes_lawful _ _ _ _ Hp) as [|Hf _ _|_ ? _]; [congruence| |congruence].
  destruct Hp as [? ? ? ? ? (_ & _ & ? & _)%rebuild_inv|
                  q t [_ Ha]%request_transition_inv _ Hq]; [congruence|].
  assert (state next = target_state q) as Ht.
  { apply apply_cutover_transition_inv in Ha as
      [_ [[Ht (? & _)%refresh_same_state_inv]|(_ & _ & _ & _ & ? & _)]]; congruence. }
  apply apply_cutover_transition_frame in Ha as (_ & _ & _ & _ & Hph & _).
  destruct Hq as [(? & _)|[(_ & ? & ? & Hq)|(? & _)]]; [congruence| |congruence].
  rewrite Hq in Hph. split_and!; try done.
  rewrite Hn in Hf. destruct (state r); unfold _FORWARD in Hf; set_solver.
Qed.

Lemma proposes_migrating u o r next :
  proposes u o r next -> state next = migrating -> state r <> migrating -> exists text, o = Begin text.
Proof.
  intros [? ? ? ? ? (_ & _ & ? & _)%rebuild_inv|
          q t [_ Ha]%request_transition_inv _ Hq] Hn Hr; [congruence|].
  assert (state next = target_state q) as Ht.
  { apply apply_cutover_transition_inv in Ha as
      [_ [[Ht (? & _)%refresh_same_state_inv]|(_ & _ & _ & _ & ? & _)]]; congruence. }
  destruct Hq as [(_ & ? & _)|[(? & _)|(? & _)]]; [done|congruence|congruence].
Qed.
