(* ===== verification/CutoverCodec.v ===== *)
(** A strict reading of a persisted cutover document: every field present with
    the type [persisted_payload] writes, and the field constraints.  It is one
    instance of the interface [RecordCodec], which shows that the laws assumed
    of validation can be met; the theorems do not depend on it. *)
From S2P Require Export CutoverStore.

Definition state_of_value (s : string) : option AccountCutoverState :=
  if String.eqb s "legacy" then Some legacy
  else if String.eqb s "migrating" then Some migrating
  else if String.eqb s "new" then Some new
  else if String.eqb s "rolled_back_stranded" then Some rolled_back_stranded
  else None.

Definition instruction_of_value (s : string) : option OfflineQueueInstruction :=
  if String.eqb s "none" then Some queue_none
  else if String.eqb s "drain" then Some drain
  else if String.eqb s "quarantine" then Some quarantine
  else None.

Definition all_phases : list AccountCutoverCheckpointPhase :=
  [not_started; inventory; offline_queue_fenced; exporting; importing; verifying; cutover_ready;
   completed; failed; paused].

Definition phase_of_value (s : string) : option AccountCutoverCheckpointPhase :=
  List.find (fun p => String.eqb (phase_value p) s) all_phases.

Definition read_bool (v : pyval) : option bool :=
  match v with PBool b => Some b | _ => None end.
Definition read_int (v : pyval) : option Z :=
  match v with PInt z => Some z | _ => None end.
Definition read_opt_str (v : pyval) : option (option string) :=
  match v with PNone => Some None | PStr s => Some (Some s) | _ => None end.

Definition decode_record (d : doc) : option AccountCutoverRecord :=
  u ← as_str (py_get d "uid");
  s ← as_str (py_get d "state") ≫= state_of_value;
  g ← read_int (py_get d "account_generation");
  ui ← read_int (py_get d "ui_generation");
  api ← read_int (py_get d "api_generation");
  b ← read_bool (py_get d "stranded_new_data");
  i ← as_str (py_get d "offline_queue_instruction") ≫= instruction_of_value;
  p ← as_str (py_get d "checkpoint_phase") ≫= phase_of_value;
  t ← read_opt_str (py_get d "checkpoint_token");
  m ← read_opt_str (py_get d "manifest_id");
  bound ← read_bool (py_get d "destination_backend_bound");
  let r := {| uid := u; state := s; account_generation := g; ui_generation := ui;
              api_generation := api; stranded_new_data := b; offline_queue_instruction := i;
              checkpoint_phase := p; checkpoint_token := t; manifest_id := m;
              destination_backend_bound := bound |} in
  if record_ok r then Some r else None.

Lemma state_of_state_value s : state_of_value (state_value s) = Some s.
Proof. by destruct s. Qed.

Lemma instruction_of_instruction_value i : instruction_of_value (instruction_value i) = Some i.
Proof. by destruct i. Qed.

Lemma phase_of_phase_value p : phase_of_value (phase_value p) = Some p.
Proof. by destruct p. Qed.

Lemma read_opt_str_value o : read_opt_str (opt_str o) = Some o.
Proof. by destruct o. Qed.

Lemma decode_record_ok d r : decode_record d = Some r -> record_ok r = true.
Proof.
  unfold decode_record. intros H.
  repeat (apply bind_Some in H as (? & _ & H)).
  case_match; congruence.
Qed.

(** A persisted record reads back as itself. *)
Lemma decode_persisted_payload r :
  record_ok r = true -> decode_record (persisted_payload r) = Some r.
Proof.
  intros Hok. unfold decode_record, persisted_payload, doc_set. doc_simpl.
  unfold id. cbn [as_str option_bind mbind read_int read_bool].
  rewrite state_of_state_value, instruction_of_instruction_value, phase_of_phase_value,
    !read_opt_str_value. simpl.
  destruct r. simpl in *. by rewrite Hok.
Qed.

#[export] Instance strict_codec : RecordCodec := {
  model_validate := decode_record;
  model_validate_ok := decode_record_ok;
  model_validate_payload := decode_persisted_payload;
}.
