(* ===== verification/CutoverRace.v ===== *)
(** Concurrent coordinator calls on the cutover documents.

    A call reads its document and plans its write at one moment and persists the
    plan at a later one; any number of calls, on any accounts, may be between
    the two.  [race_event] is a step of that interleaving, with the answer given in
    it, and [race_run] a sequence of steps with its answers.  The theorems relate
    it to [atomic_run], in which every call runs from its read to its write with
    nothing in between, and carry properties of the atomic calls over to every
    interleaving. *)
From S2P Require Export CutoverPlan.

Section Race.
Context `{RecordCodec}.
Context (client : cutover_client) (cohort : gset string).

(** A call between its read and its write. *)
Record pending : Type := {
  p_uid : string;
  p_op : operation;
  p_draw : draw;
  p_current : AccountCutoverRecord;
  p_next : AccountCutoverRecord;
  p_require_existing : bool;
}.

(** The documents, the calls in flight, and the tokens handed out so far (a
    history variable: the code does not store it). *)
Record race : Type := {
  documents : cutover_db;
  in_flight : list pending;
  tokens : gset string;
}.

(** The compare-and-swap of a call in flight. *)
Definition commit_result (db : cutover_db) (p : pending)
    : result cutover_error (cutover_db * AccountCutoverRecord) :=
  _persist_cas client db (p_uid p) (p_current p) (p_next p) (p_require_existing p).

(** One call from read to write. *)
Definition atomic_step (db db' : cutover_db) : Prop :=
  exists u o fresh outcome, coordinate client cohort db u o fresh = Ok (db', outcome).

(** What a finished call told its caller. *)
Record answer : Type := {
  a_uid : string;
  a_op : operation;
  a_draw : draw;
  a_result : CoordinatorResult;
}.

Definition answer_of (p : pending) (r : AccountCutoverRecord) : answer :=
  {| a_uid := p_uid p; a_op := p_op p; a_draw := p_draw p;
     a_result := {| result_record := r; created := true; resumed := false |} |}.

(** A call whose plan is a write joins the calls in flight; the token of its
    record, drawn at random or supplied by the caller, is assumed new.  A call
    with nothing to write answers at its read.  A call in flight commits and
    answers, or loses its race and raises. *)
Inductive race_event : race -> option answer -> race -> Prop :=
| race_read w u o fresh current next require_existing token :
    read_and_plan cohort (documents w) u o fresh = Ok (current, Persist next require_existing) ->
    checkpoint_token next = Some token ->
    token ∉ tokens w ->
    race_event w None
      {| documents := documents w;
         in_flight := in_flight w ++
           [{| p_uid := u; p_op := o; p_draw := fresh; p_current := current; p_next := next;
               p_require_existing := require_existing |}];
         tokens := {[ token ]} ∪ tokens w |}
| race_resume w u o fresh current :
    read_and_plan cohort (documents w) u o fresh = Ok (current, Done) ->
    race_event w
      (Some {| a_uid := u; a_op := o; a_draw := fresh;
               a_result := {| result_record := current; created := false; resumed := true |} |}) w
| race_commit w before p after db' r :
    in_flight w = before ++ p :: after ->
    commit_result (documents w) p = Ok (db', r) ->
    race_event w (Some (answer_of p r))
      {| documents := db'; in_flight := before ++ after; tokens := tokens w |}
| race_lose w before p after e :
    in_flight w = before ++ p :: after ->
    commit_result (documents w) p = Raise e ->
    race_event w None {| documents := documents w; in_flight := before ++ after; tokens := tokens w |}.

Definition race_step (w w' : race) : Prop := exists a, race_event w a w'.

(** A run, with the answers given in it in the order they were given. *)
Inductive race_run : race -> list answer -> race -> Prop :=
| run_done w : race_run w [] w
| run_event w a w1 answers w2 :
    race_event w a w1 -> race_run w1 answers w2 -> race_run w (option_list a ++ answers) w2.

(** The same calls one after the other, each from its read to its write,
    giving the same answers. *)
Inductive atomic_run : cutover_db -> list answer -> cutover_db -> Prop :=
| atomic_done db : atomic_run db [] db
| atomic_call db a db1 answers db2 :
    coordinate client cohort db (a_uid a) (a_op a) (a_draw a) = Ok (db1, a_result a) ->
    atomic_run db1 answers db2 -> atomic_run db (a :: answers) db2.

(** No call in flight, and the history holds the tokens of the documents. *)
Definition race_start (w : race) : Prop :=
  in_flight w = [] /\
  forall u d r t, documents w !! u = Some d -> model_validate d = Some r ->
    checkpoint_token r = Some t -> t ∈ tokens w.

(** ** Lemmas on the store *)

Lemma validated_inv r r' : validated r = Ok r' -> r' = r /\ record_ok r = true.
Proof. unfold validated. destruct (record_ok r); [intros [= <-]; done|discriminate]. Qed.

Lemma get_ok db u r :
  get_account_cutover_record db u = Ok r ->
  record_ok r = true /\ uid r = u /\
  ((db !! u = None /\ checkpoint_token r = None /\ account_generation r = 0) \/
   (exists d, db !! u = Some d /\ model_validate d = Some r)).
Proof.
  unfold get_account_cutover_record, _parse_bound_record. intros Hg.
  destruct (db !! u) as [d|] eqn:Hd.
  - destruct (model_validate d) as [r0|] eqn:Hv; [|discriminate].
    destruct (String.eqb_spec (uid r0) u); [|discriminate]. injection Hg as ->.
    split_and!; [by eapply model_validate_ok|done|right; by exists d].
  - unfold default_legacy_record in Hg. apply validated_inv in Hg as [-> Hok].
    split_and!; [done|done|by left].
Qed.

Lemma get_after_write db u r :
  record_ok r = true -> uid r = u ->
  get_account_cutover_record (<[u := persisted_payload r]> db) u = Ok r.
Proof.
  intros Hok Hu. unfold get_account_cutover_record, _parse_bound_record.
  rewrite lookup_insert_eq, model_validate_payload by done.
  by rewrite Hu, String.eqb_refl.
Qed.

Lemma get_elsewhere db u v d :
  v <> u ->
  get_account_cutover_record (<[u := d]> db) v = get_account_cutover_record db v.
Proof. intros Hne. unfold get_account_cutover_record. by rewrite lookup_insert_ne. Qed.

(** A compare-and-swap that succeeds found what it expected and wrote exactly
    its record. *)
Lemma cas_inv db u r g t req db' r' :
  cas_set_account_cutover_record client db u r g t req = Ok (db', r') ->
  r' = r /\ uid r = u /\ db' = <[u := persisted_payload r]> db /\
  cas_check db u g t req = Ok tt.
Proof.
  unfold cas_set_account_cutover_record, _write_document. intros Hc.
  destruct (String.eqb_spec (uid r) u) as [Hu|]; [|discriminate]. simpl in Hc.
  destruct (cas_check db u g t req) as [[]|]; simpl in Hc.
  - destruct (has_lock client); [|destruct (has_transaction client); [|discriminate]].
    + destruct (ref_has_set client); [|destruct (exposes_rows client); [|discriminate]];
        simpl in Hc; injection Hc as <- <-; done.
    + destruct (transactional_importable client); [|discriminate].
      simpl in Hc; injection Hc as <- <-; done.
  - destruct (has_lock client); [discriminate|].
    destruct (has_transaction client); [|discriminate].
    destruct (transactional_importable client); discriminate.
Qed.

(** What the comparison compares. *)
Lemma assert_cas_inv g t g' t' e :
  _assert_cas_matches g t g' t' e = Ok tt ->
  g = g' /\ (if e then t = t' \/ (t = None /\ t' = None) else t' = None \/ t = t').
Proof.
  unfold _assert_cas_matches. intros Hc.
  destruct (Z.eqb_spec g g') as [->|]; [|discriminate]. simpl in Hc. split; [done|].
  destruct e; simpl in Hc; destruct t as [t|], t' as [t'|]; simpl in Hc;
    repeat (case_bool_decide; simplify_eq/=); try discriminate; auto.
Qed.

Lemma cas_check_inv db u g t req :
  cas_check db u g t req = Ok tt ->
  (db !! u = None /\ g = 0 /\ t = None /\ req = false) \/
  (exists d r, db !! u = Some d /\ _parse_bound_record u d = Ok r /\
     account_generation r = g /\ checkpoint_token r = t).
Proof.
  unfold cas_check, _read_current_generation_and_token. intros Hc.
  destruct (db !! u) as [d|] eqn:Hd.
  - destruct (_parse_bound_record u d) as [r|] eqn:Hp; [|discriminate]. simpl in Hc.
    apply assert_cas_inv in Hc as [Hg Ht]. right. exists d, r.
    split_and!; [done|done|done|]. by destruct Ht as [|[-> ->]].
  - destruct req; [discriminate|]. simpl in Hc.
    apply assert_cas_inv in Hc as [<- [-> | <-]]; auto.
Qed.

Lemma cas_check_elsewhere db u v d g t req :
  v <> u -> cas_check (<[u := d]> db) v g t req = cas_check db v g t req.
Proof. intros Hne. unfold cas_check. by rewrite lookup_insert_ne. Qed.

(** The comparison against a document that was just written. *)
Lemma cas_check_written db u r g t req :
  record_ok r = true -> uid r = u -> is_Some (checkpoint_token r) ->
  cas_check (<[u := persisted_payload r]> db) u g t req =
    if bool_decide (account_generation r = g /\ checkpoint_token r = t) then Ok tt
    else if account_generation r =? g then
      Raise (AccountCutoverConcurrencyError "cutover_checkpoint_cas_mismatch")
    else Raise (AccountCutoverConcurrencyError "cutover_generation_cas_mismatch").
Proof.
  intros Hok Hu [s Hs].
  unfold cas_check, _read_current_generation_and_token, _parse_bound_record, _assert_cas_matches.
  rewrite lookup_insert_eq, model_validate_payload, Hu, String.eqb_refl by done.
  cbn [rbind]. rewrite Hs.
  rewrite (bool_decide_eq_true_2 (is_Some _)) by eauto.
  destruct (Z.eqb_spec (account_generation r) g) as [->|]; cbn [negb andb].
  - repeat (case_bool_decide; simpl); try done; exfalso; intuition congruence.
  - rewrite (bool_decide_eq_false_2 (_ /\ _)) by (intros [? _]; done). done.
Qed.

(** ** The invariant of the calls in flight *)

Definition planned (p : pending) : Prop :=
  guard cohort (p_uid p) (p_op p) = Ok tt /\
  record_ok (p_current p) = true /\ uid (p_current p) = p_uid p /\
  plan_of (p_uid p) (p_op p) (p_draw p) (p_current p)
    = Ok (Persist (p_next p) (p_require_existing p)).

Definition next_token (p : pending) : option string := checkpoint_token (p_next p).

Record race_ok (w : race) : Prop := {
  race_planned : forall p, p ∈ in_flight w -> planned p;
  race_history : forall p, p ∈ in_flight w ->
    (exists t, next_token p = Some t /\ t ∈ tokens w) /\
    (forall t, checkpoint_token (p_current p) = Some t -> t ∈ tokens w);
  race_stored : forall u r t, get_account_cutover_record (documents w) u = Ok r ->
    checkpoint_token r = Some t ->
    t ∈ tokens w /\ forall p, p ∈ in_flight w -> next_token p <> Some t;
  race_distinct : NoDup (map next_token (in_flight w));
  race_apart : forall p q, p ∈ in_flight w -> q ∈ in_flight w ->
    checkpoint_token (p_current p) <> next_token q;
  race_current : forall p, p ∈ in_flight w ->
    cas_check (documents w) (p_uid p) (account_generation (p_current p))
      (checkpoint_token (p_current p)) (p_require_existing p) = Ok tt ->
    get_account_cutover_record (documents w) (p_uid p) = Ok (p_current p);
}.

Lemma planned_next p :
  planned p -> record_ok (p_next p) = true /\ uid (p_next p) = p_uid p /\
    exists t, next_token p = Some t.
Proof.
  intros (_ & Hok & Hu & Hp%plan_proposes).
  pose proof (proposes_frame _ _ _ _ Hp) as (Hu' & _ & Ht & _).
  split_and!; [by eapply proposes_record_ok|congruence|done].
Qed.

Lemma race_ok_start w : race_start w -> race_ok w.
Proof.
  intros [Hf Ht]. split; rewrite ?Hf; try (intros; set_solver); [|by constructor].
  intros u r t (_ & _ & [(_ & Hn & _)|(d & Hd & Hv)])%get_ok Hr; [congruence|].
  split; [eauto|]. intros p Hp. set_solver.
Qed.

(** Dropping a call that lost its race. *)
Lemma race_ok_drop w before p after :
  race_ok w -> in_flight w = before ++ p :: after ->
  race_ok {| documents := documents w; in_flight := before ++ after; tokens := tokens w |}.
Proof.
  intros [Hpl Hh Hst Hd Ha Hc] Hf. rewrite Hf in *.
  assert (forall q, q ∈ before ++ after -> q ∈ before ++ p :: after) as Hin by set_solver.
  split; simpl; eauto.
  - intros u r t Hg Ht. destruct (Hst u r t Hg Ht). split; eauto.
  - rewrite map_app in Hd |- *. simpl in Hd. rewrite NoDup_app in Hd |- *.
    destruct Hd as (Hd1 & Hd2 & Hd3). apply NoDup_cons in Hd3 as [_ ?]. set_solver.
Qed.

Lemma race_ok_read w u o fresh current next req token :
  race_ok w ->
  read_and_plan cohort (documents w) u o fresh = Ok (current, Persist next req) ->
  checkpoint_token next = Some token -> token ∉ tokens w ->
  race_ok {| documents := documents w;
             in_flight := in_flight w ++
               [{| p_uid := u; p_op := o; p_draw := fresh; p_current := current; p_next := next;
                   p_require_existing := req |}];
             tokens := {[ token ]} ∪ tokens w |}.
Proof.
  intros [Hpl Hh Hst Hd Ha Hc] Hr Ht Hfresh. unfold read_and_plan in Hr.
  destruct (guard cohort u o) as [[]|] eqn:Hgd; [|discriminate]. simpl in Hr.
  destruct (get_account_cutover_record (documents w) u) as [r|] eqn:Hget; [|discriminate].
  simpl in Hr. destruct (plan_of u o fresh r) as [p|] eqn:Hplan; [|discriminate]. simpl in Hr.
  injection Hr as -> ->. pose proof (get_ok _ _ _ Hget) as (Hok & Hu & _).
  assert (forall t, checkpoint_token current = Some t ->
            t ∈ tokens w /\ forall p, p ∈ in_flight w -> next_token p <> Some t) as Hcur by eauto.
  split; simpl.
  - intros p [?| ->%list_elem_of_singleton]%elem_of_app; [by apply Hpl|done].
  - intros p [Hp| ->%list_elem_of_singleton]%elem_of_app; simpl.
    + destruct (Hh p Hp) as [(t & ? & ?) ?]. split; [exists t|]; set_solver.
    + split; [exists token; set_solver|]. intros t Htc. apply Hcur in Htc. set_solver.
  - intros v r t Hg Hrt. destruct (Hst v r t Hg Hrt) as [? Hn]. split; [set_solver|].
    intros p [Hp| ->%list_elem_of_singleton]%elem_of_app; [by apply Hn|].
    unfold next_token. simpl. rewrite Ht. set_solver.
  - rewrite map_app. simpl. apply NoDup_app. split_and!; [done| |apply NoDup_singleton].
    intros x (p & -> & Hp)%list_elem_of_fmap. unfold next_token at 2. simpl. rewrite Ht.
    intros Heq%list_elem_of_singleton. destruct (Hh p Hp) as [(t & ? & ?) _]. congruence.
  - intros p q [Hp| ->%list_elem_of_singleton]%elem_of_app [Hq| ->%list_elem_of_singleton]%elem_of_app;
      unfold next_token in *; simpl.
    + by apply Ha.
    + rewrite Ht. intros Heq. apply Hfresh. by apply (Hh p Hp).
    + intros Heq. destruct (Hh q Hq) as [(t & Hqt & _) _]. unfold next_token in Hqt.
      rewrite Hqt in Heq. by apply (proj2 (Hcur _ Heq) q Hq).
    + rewrite Ht. intros Heq%Hcur. naive_solver.
  - intros p [Hp| ->%list_elem_of_singleton]%elem_of_app; simpl; [by apply Hc|done].
Qed.

Lemma race_ok_commit w before p after db' r :
  race_ok w -> in_flight w = before ++ p :: after ->
  commit_result (documents w) p = Ok (db', r) ->
  race_ok {| documents := db'; in_flight := before ++ after; tokens := tokens w |}.
Proof.
  intros Hw Hf Hcr. pose proof (race_ok_drop w before p after Hw Hf) as [Hpl Hh Hst Hd Ha Hc].
  simpl in *. apply cas_inv in Hcr as (-> & Hu & -> & Hcas).
  destruct Hw as [Hpl' Hh' _ Hd' Ha' Hc']. rewrite Hf in *.
  assert (p ∈ before ++ p :: after) as Hp by set_solver.
  destruct (planned_next p (Hpl' p Hp)) as (Hok & _ & t & Htok).
  split; simpl; try done.
  - intros u r s Hg Hs. destruct (decide (u = p_uid p)) as [->|Hne].
    + rewrite get_after_write in Hg by done. injection Hg as <-.
      unfold next_token in Htok. rewrite Htok in Hs. injection Hs as <-.
      destruct (Hh' p Hp) as [(t' & Ht' & Hin) _]. unfold next_token in Ht'.
      rewrite Htok in Ht'. injection Ht' as <-. split; [done|]. intros q Hq Heq.
      rewrite map_app in Hd'. simpl in Hd'. rewrite NoDup_app in Hd'.
      destruct Hd' as (_ & Hd2 & Hd3). apply NoDup_cons in Hd3 as [Hd3 _].
      rewrite elem_of_app in Hq. destruct Hq as [Hq|Hq].
      * apply (Hd2 (next_token q)); [by apply list_elem_of_fmap_2|].
        rewrite Heq. unfold next_token. rewrite Htok. set_solver.
      * apply Hd3. unfold next_token at 1. rewrite Htok, <- Heq. by apply list_elem_of_fmap_2.
    + rewrite get_elsewhere in Hg by done. eauto.
  - intros q Hq Hcas'. destruct (decide (p_uid q = p_uid p)) as [Heq|Hne].
    + exfalso. rewrite Heq, cas_check_written in Hcas' by (done || by exists t).
      case_bool_decide as Hm; [|by destruct (_ =? _)].
      apply (Ha' q p); [set_solver|done|]. destruct Hm as [_ Hm]. by symmetry.
    + rewrite cas_check_elsewhere in Hcas' by done. rewrite get_elsewhere by done. auto.
Qed.

Lemma race_ok_step w w' : race_ok w -> race_step w w' -> race_ok w'.
Proof.
  intros Hw [a Hs]. destruct Hs.
  - by eapply race_ok_read.
  - done.
  - by eapply race_ok_commit.
  - by eapply race_ok_drop.
Qed.

Lemma race_ok_reachable w : reachable race_start race_step w -> race_ok w.
Proof. apply reachable_ind_inv; eauto using race_ok_start, race_ok_step. Qed.

(** ** Refinement *)

(** A call in flight that commits does what it would have done atomically. *)
Lemma commit_is_atomic w p db' r :
  race_ok w -> p ∈ in_flight w -> commit_result (documents w) p = Ok (db', r) ->
  coordinate client cohort (documents w) (p_uid p) (p_op p) (p_draw p) =
    Ok (db', {| result_record := r; created := true; resumed := false |}).
Proof.
  intros Hw Hp Hcr. pose proof Hcr as (_ & _ & _ & Hcas)%cas_inv.
  pose proof (race_current w Hw p Hp Hcas) as Hget.
  destruct (race_planned w Hw p Hp) as (Hg & _ & _ & Hplan).
  unfold coordinate, read_and_plan. rewrite Hg, Hget. simpl. rewrite Hplan. simpl.
  unfold commit_result in Hcr. by rewrite Hcr.
Qed.

Lemma race_event_atomic w a w' :
  race_ok w -> race_event w a w' -> atomic_run (documents w) (option_list a) (documents w').
Proof.
  intros Hw Hs.
  destruct Hs as [| w u o fresh current Hr | w before p after db' r Hf Hcr |]; simpl;
    try apply atomic_done.
  - eapply atomic_call; [|apply atomic_done]. simpl. unfold coordinate. by rewrite Hr.
  - eapply atomic_call; [|apply atomic_done]. simpl.
    eapply commit_is_atomic; [done|rewrite Hf; set_solver|done].
Qed.

Lemma atomic_run_app db l1 db1 l2 db2 :
  atomic_run db l1 db1 -> atomic_run db1 l2 db2 -> atomic_run db (l1 ++ l2) db2.
Proof. intros H1 H2. induction H1; [done|]. simpl. eapply atomic_call; eauto. Qed.

Lemma race_run_atomic w answers w' :
  race_ok w -> race_run w answers w' -> atomic_run (documents w) answers (documents w').
Proof.
  intros Hw Hr. induction Hr as [w|w a w1 l w2 Hs _ IH]; [apply atomic_done|].
  eapply atomic_run_app; [by eapply race_event_atomic|]. apply IH.
  eapply race_ok_step; [done|by exists a].
Qed.

Lemma steps_run w w' : star race_step w w' -> exists answers, race_run w answers w'.
Proof.
  induction 1 as [w|w w1 w2 [a Hs] _ [l IH]]; [exists []; apply run_done|].
  exists (option_list a ++ l). by eapply run_event.
Qed.

Lemma atomic_run_steps db l db' : atomic_run db l db' -> star atomic_step db db'.
Proof.
  induction 1; [apply star_refl|]. eapply star_step; [|done]. unfold atomic_step. eauto 6.
Qed.

Lemma races_are_atomic w w' :
  race_ok w -> star race_step w w' -> star atomic_step (documents w) (documents w').
Proof.
  intros Hw [l Hr]%steps_run. eapply atomic_run_steps. by eapply race_run_atomic.
Qed.

(** ** Properties of one atomic call *)

(** What a call does to the documents: nothing, or one proposed record. *)
Lemma coordinate_inv db u o fresh db' outcome :
  coordinate client cohort db u o fresh = Ok (db', outcome) ->
  guard cohort u o = Ok tt /\ exists r, get_account_cutover_record db u = Ok r /\
  ((db' = db /\ result_record outcome = r /\ plan_of u o fresh r = Ok Done) \/
   (exists next req, plan_of u o fresh r = Ok (Persist next req) /\ proposes u o r next /\
      uid next = u /\ record_ok next = true /\
      db' = <[u := persisted_payload next]> db /\ result_record outcome = next)).
Proof.
  unfold coordinate, read_and_plan. intros Hc.
  destruct (guard cohort u o) as [[]|] eqn:Hg; [|discriminate]. simpl in Hc. split; [done|].
  destruct (get_account_cutover_record db u) as [r|] eqn:Hget; [|discriminate]. simpl in Hc.
  destruct (plan_of u o fresh r) as [[|next req]|] eqn:Hp; simpl in Hc; [| |discriminate].
  - injection Hc as <- <-. exists r. split; [done|]. by left.
  - unfold _persist_cas in Hc.
    destruct (cas_set_account_cutover_record client db u next _ _ req) as [[db1 r1]|] eqn:Hcas;
      simpl in Hc; [|discriminate].
    injection Hc as <- <-. apply cas_inv in Hcas as (-> & Hu & -> & _).
    pose proof (get_ok _ _ _ Hget) as (Hok & _).
    pose proof (plan_proposes _ _ _ _ _ _ Hp) as Hpr.
    exists r. split; [done|right]. exists next, req.
    split_and!; try done. by eapply proposes_record_ok.
Qed.

(** A relation between successive records of an account that every call
    respects holds between the records at the two ends of any history. *)
Lemma history_relation (R : AccountCutoverRecord -> AccountCutoverRecord -> Prop) u :
  (forall r, R r r) -> (forall a b c, R a b -> R b c -> R a c) ->
  (forall o r r', guard cohort u o = Ok tt -> proposes u o r r' -> R r r') ->
  forall db db' r, star atomic_step db db' -> get_account_cutover_record db u = Ok r ->
  exists r', get_account_cutover_record db' u = Ok r' /\ R r r'.
Proof.
  intros Hrefl Htrans Hprop db db' r Hst. revert r.
  induction Hst as [db|db db1 db2 (v & o & fresh & out & Hc) _ IH]; intros r Hr; [eauto|].
  apply coordinate_inv in Hc as (Hg & r0 & Hr0 & [(-> & _)|(next & req & _ & Hp & Hu & Hok & -> & _)]).
  - by apply IH.
  - destruct (decide (v = u)) as [->|Hne].
    + rewrite Hr in Hr0. injection Hr0 as <-.
      destruct (IH next) as (r' & ? & ?); [by apply get_after_write|]. eauto.
    + apply IH. by rewrite get_elsewhere.
Qed.

End Race.
