(* ===== verification/CutoverOps.v ===== *)
(** What the cutover coordinator guarantees to its callers, under any
    interleaving of calls, and the scenarios that show each guarantee applies. *)
From S2P Require Export CutoverRace CutoverCodec.

(** ** A scenario *)

Definition demo_cohort : gset string := {[ "u1" ]}.
Definition demo_draw (t : string) : draw := {| drawn_token := t; drawn_suffix := "0a1b2c3d" |}.
Definition put_record (r : AccountCutoverRecord) : cutover_db := {[ uid r := persisted_payload r ]}.

Definition with_phase (r : AccountCutoverRecord) (p : AccountCutoverCheckpointPhase) (bound : bool)
    : AccountCutoverRecord :=
  {| uid := uid r; state := state r; account_generation := account_generation r;
     ui_generation := ui_generation r; api_generation := api_generation r;
     stranded_new_data := stranded_new_data r;
     offline_queue_instruction := offline_queue_instruction r; checkpoint_phase := p;
     checkpoint_token := checkpoint_token r; manifest_id := manifest_id r;
     destination_backend_bound := bound |}.

Definition demo_bound : AccountCutoverRecord := with_phase example_migrating inventory true.

(** A checkpoint that is not an import or a verification stays early. *)
Lemma early_forward p p' :
  p' ∈ _CHECKPOINT_FORWARD p ->
  p ∉ [importing; verifying; cutover_ready; completed] ->
  p' ∉ [importing; verifying] ->
  p' ∉ [importing; verifying; cutover_ready; completed].
Proof. destruct p, p'; decided. Qed.

(** A forward checkpoint moves, and never to the terminal phase. *)
Lemma forward_moves p p' : p' ∈ _CHECKPOINT_FORWARD p -> p' <> p /\ p' <> completed.
Proof. destruct p, p'; decided. Qed.

Section Guarantees.
Context `{RecordCodec}.

(** ** Refinement *)

(** C8: calls that interleave between their reads and their compare-and-swap
    writes are linearizable, provided the tokens drawn are new.  From any state
    a race can reach, with any calls in flight, taking the calls of a run that
    answered one after the other, in the order of their answers, each from its
    read to its write, gives every caller the answer it was given and leaves
    the documents the run left; the calls that raised wrote nothing. *)
Theorem interleaved_calls_are_atomic client cohort w answers w' :
  reachable race_start (race_step client cohort) w ->
  race_run client cohort w answers w' ->
  atomic_run client cohort (documents w) answers (documents w').
Proof. intros Hw%race_ok_reachable Hr. by eapply race_run_atomic. Qed.

(** A commit defeats every other call in flight on the same account: what
    they would write is refused as a concurrency conflict. *)
Theorem commit_defeats_rivals client cohort w before p after q db' r :
  reachable race_start (race_step client cohort) w ->
  in_flight w = before ++ p :: after -> q ∈ before ++ after -> p_uid q = p_uid p ->
  commit_result client (documents w) p = Ok (db', r) ->
  exists code, commit_result client db' q = Raise (AccountCutoverConcurrencyError code).
Proof.
  intros Hw%race_ok_reachable Hf Hq Hu Hc.
  assert (p ∈ in_flight w /\ q ∈ in_flight w) as [Hp Hq'] by (rewrite Hf; set_solver).
  destruct (planned_next cohort p (race_planned cohort w Hw p Hp)) as (Hok & Hup & t & Ht).
  destruct (planned_next cohort q (race_planned cohort w Hw q Hq')) as (_ & Huq & _).
  apply cas_inv in Hc as (-> & _ & -> & _).
  pose proof (race_apart cohort w Hw q p Hq' Hp) as Hne.
  unfold commit_result, _persist_cas, cas_set_account_cutover_record.
  rewrite Huq, String.eqb_refl, Hu, cas_check_written by (done || by exists t).
  rewrite bool_decide_eq_false_2 by (intros [_ Heq]; by apply Hne). simpl.
  destruct (account_generation (p_next p) =? account_generation (p_current q)),
    (has_lock client), (has_transaction client), (transactional_importable client); simpl; eauto.
Qed.

(** ** Account histories *)

(** A property of an account's records that every proposal keeps. *)
Lemma account_relation (R : AccountCutoverRecord -> AccountCutoverRecord -> Prop) client cohort w w' u r :
  (forall a, R a a) -> (forall a b c, R a b -> R b c -> R a c) ->
  (forall o a b, guard cohort u o = Ok tt -> proposes u o a b -> R a b) ->
  reachable race_start (race_step client cohort) w -> star (race_step client cohort) w w' ->
  get_account_cutover_record (documents w) u = Ok r ->
  exists r', get_account_cutover_record (documents w') u = Ok r' /\ R r r'.
Proof.
  intros Hrefl Htrans Hp Hw Hst. eapply history_relation; [done|done|exact Hp|].
  eapply races_are_atomic; [by eapply race_ok_reachable|done].
Qed.

(** C18: whatever calls interleave, between any two moments of a race, with
    calls in flight at both, an account's record stays readable and moves
    lawfully: its generation never decreases, its product generations
    never regress, its fenced states keep the offline queues quarantined, and
    the coordinator never claims that the destination is bound. *)
Theorem account_history_is_lawful client cohort w w' u r :
  reachable race_start (race_step client cohort) w -> star (race_step client cohort) w w' ->
  get_account_cutover_record (documents w) u = Ok r ->
  exists r', get_account_cutover_record (documents w') u = Ok r' /\
    star lawful_move r r' /\ account_generation r <= account_generation r' /\
    ui_generation r <= ui_generation r' /\ api_generation r <= api_generation r' /\
    destination_backend_bound r' = destination_backend_bound r /\
    (quarantined r = true -> quarantined r' = true).
Proof.
  intros Hw Hst Hr.
  destruct (account_relation (fun a b => star lawful_move a b /\
      ui_generation a <= ui_generation b /\ api_generation a <= api_generation b /\
      destination_backend_bound b = destination_backend_bound a /\
      (quarantined a = true -> quarantined b = true)) client cohort w w' u r)
    as (r' & Hr' & Hl & Hrest); [| | |done|done|done|].
  - intros a. split_and!; (apply star_refl || done || lia).
  - intros a b c (Hab & ?) (Hbc & ?). split; [by eapply star_trans|].
    intuition (congruence || lia).
  - intros o a b _ Hp. pose proof (proposes_frame _ _ _ _ Hp) as (_ & ? & _ & ? & ?).
    split_and!; [|done|done|done|eauto using proposes_quarantined].
    eapply star_step; [by eapply proposes_lawful|apply star_refl].
  - exists r'. split; [done|]. split; [done|]. split; [by apply star_generation|done].
Qed.

(** The destination binding guards the switch: while an account is not
    bound, no interleaving of calls brings it to [new] or past the export
    phase. *)
Theorem unbound_account_stays_off_new client cohort w w' u r :
  reachable race_start (race_step client cohort) w -> star (race_step client cohort) w w' ->
  get_account_cutover_record (documents w) u = Ok r ->
  destination_backend_bound r = false -> state r <> new ->
  checkpoint_phase r ∉ [importing; verifying; cutover_ready; completed] ->
  exists r', get_account_cutover_record (documents w') u = Ok r' /\ state r' <> new /\
    checkpoint_phase r' ∉ [importing; verifying; cutover_ready; completed].
Proof.
  intros Hw Hst Hr Hb Hn Hph.
  set (early a := destination_backend_bound a = false /\ state a <> new /\
         checkpoint_phase a ∉ [importing; verifying; cutover_ready; completed]).
  destruct (account_relation (fun a b => early a -> early b) client cohort w w' u r)
    as (r' & Hr' & Hl); [by auto|by auto| |done|done|done|].
  - intros o a b _ Hp (Ha1 & Ha2 & Ha3).
    pose proof (proposes_frame _ _ _ _ Hp) as (_ & Hbd & _). split_and!; [congruence| |].
    + intros Hb2. pose proof (proposes_new _ _ _ _ Hp Hb2 Ha2) as (_ & _ & ? & _). congruence.
    + destruct Hp as [? ? ? ph ? (_ & _ & _ & _ & _ & -> & _)%rebuild_inv _ Hph' _ _|
                      q t [_ (_ & _ & _ & _ & -> & _)%apply_cutover_transition_frame]%request_transition_inv _ Hq].
      * destruct Hph' as [->|(_ & Hf & Hi)]; [done|].
        apply (early_forward (checkpoint_phase a)); [done|done|].
        intros Him%Hi. congruence.
      * destruct Hq as [(_ & _ & _ & ->)|[(_ & _ & ? & _)|(_ & ->)]]; simpl; [decided|congruence|done].
  - destruct Hl as (_ & ? & ?); [done|]. eauto.
Qed.

(** With the shipped enrollment set, which is empty, no interleaving of
    calls moves an account off the legacy state. *)
Theorem shipped_cohort_migrates_nobody client w w' u r :
  reachable race_start (race_step client ACCOUNT_CUTOVER_COHORT) w ->
  star (race_step client ACCOUNT_CUTOVER_COHORT) w w' ->
  get_account_cutover_record (documents w) u = Ok r -> state r = legacy ->
  exists r', get_account_cutover_record (documents w') u = Ok r' /\ state r' = legacy /\
    account_generation r' = account_generation r.
Proof.
  intros Hw Hst Hr Hl.
  destruct (account_relation (fun a b => state a = legacy ->
      state b = legacy /\ account_generation b = account_generation a)
      client ACCOUNT_CUTOVER_COHORT w w' u r) as (r' & Hr' & Hl'); [by auto| | |done|done|done|].
  - intros a b c Hab Hbc Ha. destruct (Hab Ha) as [Hb ->%eq_sym]. by apply Hbc.
  - intros o a b Hg Hp Ha.
    destruct (proposes_lawful _ _ _ _ Hp) as [|Hf _ _|Hf _ _].
    + split; congruence.
    + exfalso. rewrite Ha in Hf. assert (state b = migrating) as Hb by (unfold _FORWARD in Hf; set_solver).
      destruct (proposes_migrating _ _ _ _ Hp Hb) as [text ->]; [congruence|].
      simpl in Hg. unfold is_account_cutover_cohort_member, ACCOUNT_CUTOVER_COHORT in Hg.
      rewrite bool_decide_eq_false_2 in Hg by set_solver. by rewrite andb_false_r in Hg.
    + exfalso. rewrite Ha in Hf. set_solver.
  - destruct (Hl' Hl). eauto.
Qed.

(** A malformed control document fails closed: no interleaving of calls
    overwrites it, and every read of it keeps raising. *)
Theorem malformed_document_is_kept client cohort w w' u d e :
  reachable race_start (race_step client cohort) w -> star (race_step client cohort) w w' ->
  documents w !! u = Some d -> _parse_bound_record u d = Raise e ->
  documents w' !! u = Some d /\ get_account_cutover_record (documents w') u = Raise e.
Proof.
  intros Hw Hst Hd He.
  assert (star (atomic_step client cohort) (documents w) (documents w')) as Ha.
  { eapply races_are_atomic; [by eapply race_ok_reachable|done]. }
  assert (documents w' !! u = Some d) as Hd'.
  { refine (star_preserves _ (fun db => db !! u = Some d) _ _ _ Ha Hd).
    intros db db' Hdb (v & o & fresh & out & Hc).
    apply coordinate_inv in Hc as (_ & r & Hr & [(-> & _)|(next & req & _ & _ & _ & _ & -> & _)]);
      [done|].
    rewrite lookup_insert_ne; [done|]. intros ->.
    unfold get_account_cutover_record in Hr. rewrite Hdb in Hr. congruence. }
  split; [done|]. unfold get_account_cutover_record. by rewrite Hd'.
Qed.

(** ** Retries *)

(** The compare-and-swap succeeds on the document its caller just read. *)
Lemma cas_succeeds db u r next req :
  get_account_cutover_record db u = Ok r -> uid next = u ->
  (req = true -> is_Some (db !! u)) ->
  _persist_cas production_client db u r next req = Ok (<[u := persisted_payload next]> db, next).
Proof.
  intros Hr Hu Hreq. unfold _persist_cas, cas_set_account_cutover_record. simpl.
  rewrite Hu, String.eqb_refl. simpl.
  enough (cas_check db u (account_generation r) (checkpoint_token r) req = Ok tt) as -> by done.
  unfold cas_check, _read_current_generation_and_token.
  pose proof (get_ok _ _ _ Hr) as (_ & _ & Hcase). unfold get_account_cutover_record in Hr.
  destruct (db !! u) as [d|].
  - rewrite Hr. simpl. unfold _assert_cas_matches. rewrite Z.eqb_refl. simpl.
    rewrite (bool_decide_eq_true_2 (checkpoint_token r = checkpoint_token r)) by done.
    destruct (checkpoint_token r); done.
  - destruct Hcase as [(_ & -> & ->)|(? & ? & _)]; [|done].
    destruct req; [destruct Hreq; done|done].
Qed.

Lemma coordinate_succeeds cohort db u o fresh r next req :
  guard cohort u o = Ok tt -> get_account_cutover_record db u = Ok r ->
  plan_of u o fresh r = Ok (Persist next req) -> (req = true -> is_Some (db !! u)) ->
  coordinate production_client cohort db u o fresh =
    Ok (<[u := persisted_payload next]> db,
        {| result_record := next; created := true; resumed := false |}) /\
  get_account_cutover_record (<[u := persisted_payload next]> db) u = Ok next.
Proof.
  intros Hg Hr Hp Hreq. pose proof (get_ok _ _ _ Hr) as (Hok & Hu & _).
  pose proof (plan_proposes _ _ _ _ _ _ Hp) as Hpr.
  pose proof (proposes_frame _ _ _ _ Hpr) as (Hu' & _).
  split.
  - unfold coordinate, read_and_plan. rewrite Hg, Hr. simpl. rewrite Hp. simpl.
    rewrite (cas_succeeds db u r next req) by (done || congruence). done.
  - apply get_after_write; [by eapply proposes_record_ok|congruence].
Qed.

(** A call repeated on the documents it left behind. *)
Lemma repeat_is_done client cohort db u o fresh r :
  guard cohort u o = Ok tt -> get_account_cutover_record db u = Ok r ->
  plan_of u o fresh r = Ok Done ->
  coordinate client cohort db u o fresh =
    Ok (db, {| result_record := r; created := false; resumed := true |}).
Proof.
  intros Hg Hr Hp. unfold coordinate, read_and_plan. rewrite Hg, Hr. simpl. by rewrite Hp.
Qed.

(** A migrating record that [begin] wrote carries a manifest. *)
Lemma begin_plan_inv u text fresh r next req :
  begin u text fresh r = Ok (Persist next req) ->
  state next = migrating /\ manifest_id next = Some ("cutover-" ++ py_take 8 u ++ "-" ++ drawn_suffix fresh)%string.
Proof.
  unfold begin. intros H'. plan_cases H'. to_prop.
  match goal with Hm : request_transition _ _ = Ok _ |- _ =>
    apply request_transition_inv in Hm as [_ Ha] end.
  pose proof (apply_cutover_transition_frame _ _ _ Ha) as (_ & _ & _ & _ & _ & _ & Hman).
  split; [|exact Hman].
  apply apply_cutover_transition_inv in Ha as
    [_ [[Ht (Hs & _)%refresh_same_state_inv]|(_ & _ & _ & _ & Hs & _)]]; simpl in *; congruence.
Qed.

(** Asking twice is safe: a [begin] or a [prepare_offline_drain] repeated
    after it succeeded returns the record of the first call as a resumption and
    writes nothing, whatever tokens the second call draws. *)
Theorem repeated_start_resumes client cohort db u o fresh again db' outcome :
  (exists text, o = Begin text) \/ o = PrepareOfflineDrain ->
  coordinate client cohort db u o fresh = Ok (db', outcome) ->
  coordinate client cohort db' u o again =
    Ok (db', {| result_record := result_record outcome; created := false; resumed := true |}).
Proof.
  intros Ho (Hg & r & Hr & Hc)%coordinate_inv.
  destruct Hc as [(-> & -> & Hp)|(next & req & Hp & _ & Hu & Hok & -> & ->)].
  - apply repeat_is_done; [done|done|]. destruct Ho as [[text ->]| ->]; simpl in *.
    + unfold begin in *. plan_cases Hp; done.
    + unfold prepare_offline_drain in *. plan_cases Hp; done.
  - apply repeat_is_done; [done|by apply get_after_write|]. destruct Ho as [[text ->]| ->]; simpl in *.
    + apply begin_plan_inv in Hp as [Hs Hm]. unfold begin. by rewrite Hs, Hm.
    + unfold prepare_offline_drain in *. plan_cases Hp.
      match goal with Hb : _rebuild_record _ _ _ _ _ _ = Ok _ |- _ =>
        apply rebuild_inv in Hb as (_ & _ & Hs & _ & Hi & _) end.
      rewrite Hs, Hi. by match goal with Hst : negb _ = false |- _ => rewrite Hst end.
Qed.

(** A completion that succeeded and whose response was lost cannot be
    retried with the arguments of the first call: completing a migrating
    account raises its generation, so the same expected generation is refused
    as a mismatch; only the generation of the lost response is accepted. *)
Theorem completion_retry_needs_new_generation cohort db u g fresh again db' outcome r :
  get_account_cutover_record db u = Ok r -> state r = migrating ->
  coordinate production_client cohort db u (CompleteToNew g) fresh = Ok (db', outcome) ->
  coordinate production_client cohort db' u (CompleteToNew g) again =
    Raise (AccountCutoverTransitionError "account_generation_mismatch") /\
  coordinate production_client cohort db' u
      (CompleteToNew (account_generation (result_record outcome))) again =
    Ok (db', {| result_record := result_record outcome; created := false; resumed := true |}).
Proof.
  intros Hr Hs (Hg & r0 & Hr0 & Hc)%coordinate_inv. rewrite Hr in Hr0. injection Hr0 as <-.
  destruct Hc as [(_ & _ & Hp)|(next & req & Hp & _ & Hu & Hok & -> & ->)]; simpl in Hp;
    unfold complete_to_new in Hp; rewrite Hs in Hp; simpl in Hp; [plan_cases Hp|].
  pose proof (get_after_write db u next Hok Hu) as Hget. clear Hu. plan_cases Hp.
  match goal with Hm : request_transition _ _ = Ok _ |- _ =>
    apply request_transition_inv in Hm as [_ Ha] end.
  pose proof (apply_cutover_transition_frame _ _ _ Ha) as (_ & _ & _ & _ & Hph & _).
  apply apply_cutover_transition_inv in Ha as
    [Hgen [[Ht _]|(_ & _ & _ & _ & Hst & Hnext & _)]]; [simpl in Ht; congruence|].
  simpl in Hph, Hst, Hnext, Hgen.
  split.
  - unfold coordinate, read_and_plan. rewrite Hget. simpl. unfold complete_to_new.
    rewrite Hst, Hph. simpl. rewrite Hnext. unfold requested_generation. simpl.
    destruct (Z.eqb_spec (account_generation r + 1) g); [lia|done].
  - apply repeat_is_done; [done|done|]. simpl. unfold complete_to_new.
    rewrite Hst, Hph. simpl. by rewrite Z.eqb_refl.
Qed.

(** ** Progress *)

Definition with_token (r : AccountCutoverRecord) (p : AccountCutoverCheckpointPhase) (t : string)
    : AccountCutoverRecord :=
  {| uid := uid r; state := state r; account_generation := account_generation r;
     ui_generation := ui_generation r; api_generation := api_generation r;
     stranded_new_data := stranded_new_data r;
     offline_queue_instruction := offline_queue_instruction r; checkpoint_phase := p;
     checkpoint_token := Some t; manifest_id := manifest_id r;
     destination_backend_bound := destination_backend_bound r |}.

Lemma record_ok_with_token r p t :
  record_ok r = true -> token_ok t = true -> record_ok (with_token r p t) = true.
Proof. unfold record_ok. cbn. rewrite !andb_true_iff. intuition. Qed.

Lemma rebuild_with_token r p t :
  record_ok r = true -> token_ok t = true ->
  _rebuild_record r (ui_generation r) (api_generation r) (offline_queue_instruction r) p t =
    Ok (with_token r p t).
Proof.
  intros Hr Ht. change (validated (with_token r p t) = Ok (with_token r p t)).
  unfold validated. by rewrite record_ok_with_token.
Qed.

Lemma migrating_is_stored db u r :
  get_account_cutover_record db u = Ok r -> state r <> legacy -> is_Some (db !! u).
Proof.
  unfold get_account_cutover_record. destruct (db !! u); [by eauto|].
  intros [-> _]%validated_inv. done.
Qed.

(** One checkpoint of a bound, migrating account. *)
Lemma checkpoint_plan r phase fresh :
  record_ok r = true -> state r = migrating -> destination_backend_bound r = true ->
  phase ∈ _CHECKPOINT_FORWARD (checkpoint_phase r) -> token_ok (drawn_token fresh) = true ->
  checkpoint phase None None fresh r = Ok (Persist (with_token r phase (drawn_token fresh)) true).
Proof.
  intros Hok Hs Hb Hf Ht. unfold checkpoint. rewrite Hs, Hb. simpl.
  pose proof (forward_moves _ _ Hf) as [Hne Hnc].
  rewrite (bool_decide_eq_false_2 _ Hne), (bool_decide_eq_false_2 _ Hnc),
    (bool_decide_eq_true_2 _ Hf), andb_false_r. simpl.
  by rewrite rebuild_with_token.
Qed.

Lemma checkpoint_succeeds cohort db u r phase fresh :
  get_account_cutover_record db u = Ok r -> state r = migrating ->
  destination_backend_bound r = true -> phase ∈ _CHECKPOINT_FORWARD (checkpoint_phase r) ->
  token_ok (drawn_token fresh) = true ->
  exists db', coordinate production_client cohort db u (Checkpoint phase None None) fresh =
      Ok (db', {| result_record := with_token r phase (drawn_token fresh);
                  created := true; resumed := false |}) /\
    get_account_cutover_record db' u = Ok (with_token r phase (drawn_token fresh)).
Proof.
  intros Hr Hs Hb Hf Ht. pose proof (get_ok _ _ _ Hr) as (Hok & _).
  eexists. apply coordinate_succeeds with (r := r) (req := true); [done|done| |].
  - by apply checkpoint_plan.
  - intros _. eapply migrating_is_stored; [done|congruence].
Qed.

Definition completed_record (r : AccountCutoverRecord) (t : string) : AccountCutoverRecord :=
  {| uid := uid r; state := new; account_generation := account_generation r + 1;
     ui_generation := ui_generation r; api_generation := api_generation r;
     stranded_new_data := stranded_new_data r; offline_queue_instruction := quarantine;
     checkpoint_phase := completed; checkpoint_token := Some t; manifest_id := manifest_id r;
     destination_backend_bound := destination_backend_bound r |}.

Lemma complete_plan r fresh :
  state r = migrating -> checkpoint_phase r = cutover_ready ->
  destination_backend_bound r = true -> 0 <= account_generation r ->
  token_ok (drawn_token fresh) = true ->
  complete_to_new (account_generation r) fresh r =
    Ok (Persist (completed_record r (drawn_token fresh)) true).
Proof.
  intros Hs Hph Hb Hg Ht. unfold complete_to_new. rewrite Hs, Hph, Hb. simpl.
  unfold request_transition.
  assert (forall q, expected_account_generation q = account_generation r ->
    next_account_generation q = None -> req_checkpoint_token q = Some (drawn_token fresh) ->
    req_manifest_id q = None -> reason q = "complete_forward_migration" -> request_ok q = true) as Hq.
  { intros q Hq1 Hq2 Hq3 Hq4 Hq5. unfold request_ok. rewrite Hq1, Hq2, Hq3, Hq4, Hq5.
    unfold opt_ok. rewrite Ht, (proj2 (Z.leb_le _ _) Hg). reflexivity. }
  rewrite Hq by reflexivity. clear Hq.
  unfold apply_cutover_transition, generation_regresses, requested_generation.
  cbn -[Z.leb Z.add]. rewrite Z.eqb_refl, Hs. cbn -[Z.leb Z.add].
  change (bool_decide (new = migrating)) with false.
  change (state_in new [new; rolled_back_stranded]) with true.
  change (state_in new _GENERATION_BUMP_STATES) with true. cbn -[Z.leb Z.add].
  rewrite (proj2 (Z.leb_gt _ _)) by lia. done.
Qed.

Lemma completion_succeeds cohort db u r fresh :
  get_account_cutover_record db u = Ok r -> state r = migrating ->
  destination_backend_bound r = true -> checkpoint_phase r = cutover_ready ->
  token_ok (drawn_token fresh) = true ->
  exists db' r', coordinate production_client cohort db u (CompleteToNew (account_generation r)) fresh =
      Ok (db', {| result_record := r'; created := true; resumed := false |}) /\
    get_account_cutover_record db' u = Ok r' /\ state r' = new /\
    account_generation r' = account_generation r + 1.
Proof.
  intros Hr Hs Hb Hph Ht. pose proof (get_ok _ _ _ Hr) as (Hok & _).
  assert (0 <= account_generation r) as Hg by (unfold record_ok in Hok; by to_prop).
  pose proof (complete_plan r fresh Hs Hph Hb Hg Ht) as Hp.
  edestruct (coordinate_succeeds cohort db u (CompleteToNew (account_generation r)) fresh r)
    as [Hc Hget]; [done|done|exact Hp| |eauto 10].
  intros _. eapply migrating_is_stored; [done|congruence].
Qed.

(** A sequence of calls on one account. *)
Fixpoint run_calls (cohort : gset string) (db : cutover_db) (u : string)
    (calls : list (operation * draw)) : result cutover_error cutover_db :=
  match calls with
  | [] => Ok db
  | (o, fresh) :: rest =>
      let* ' (db', _) := coordinate production_client cohort db u o fresh in
      run_calls cohort db' u rest
  end.

(** The forward migration after [begin]. *)
Definition forward_phases : list AccountCutoverCheckpointPhase :=
  [offline_queue_fenced; exporting; importing; verifying; cutover_ready].

Definition forward_calls (g : Z) (fresh : draw) : list (operation * draw) :=
  map (fun p => (Checkpoint p None None, fresh)) forward_phases ++ [(CompleteToNew g, fresh)].

(** C38: a migration whose destination is bound can always be finished: from
    the inventory checkpoint the five forward checkpoints and the completion
    succeed one after the other and leave the account [new] under the next
    generation. *)
Theorem bound_migration_completes cohort db u r fresh :
  get_account_cutover_record db u = Ok r -> state r = migrating ->
  checkpoint_phase r = inventory -> destination_backend_bound r = true ->
  token_ok (drawn_token fresh) = true ->
  exists db' r', run_calls cohort db u (forward_calls (account_generation r) fresh) = Ok db' /\
    get_account_cutover_record db' u = Ok r' /\ state r' = new /\
    account_generation r' = account_generation r + 1.
Proof.
  intros Hr Hs Hph Hb Ht.
  set (t := drawn_token fresh) in *.
  assert (forall l db r, get_account_cutover_record db u = Ok r -> state r = migrating ->
            destination_backend_bound r = true ->
            (fix chain (p : AccountCutoverCheckpointPhase) l := match l with
               | [] => p = cutover_ready
               | q :: l' => q ∈ _CHECKPOINT_FORWARD p /\ chain q l'
               end) (checkpoint_phase r) l ->
            exists db' r', run_calls cohort db u
                (map (fun p => (Checkpoint p None None, fresh)) l ++
                 [(CompleteToNew (account_generation r), fresh)]) = Ok db' /\
              get_account_cutover_record db' u = Ok r' /\ state r' = new /\
              account_generation r' = account_generation r + 1) as Hrun.
  { clear db r Hr Hs Hph Hb. intros l. induction l as [|p l IH]; intros db r Hr Hs Hb Hch.
    - destruct (completion_succeeds cohort db u r fresh) as (db' & r' & Hc & Hrest); [done..|].
      exists db', r'. split; [|done]. cbn [map app run_calls]. by rewrite Hc.
    - destruct Hch as [Hin Hch].
      destruct (checkpoint_succeeds cohort db u r p fresh) as (db1 & Hc & Hr1); [done..|].
      destruct (IH db1 _ Hr1 Hs Hb Hch) as (db' & r' & Hrun & Hrest).
      exists db', r'. split; [|done]. cbn [map app run_calls]. by rewrite Hc. }
  apply (Hrun forward_phases db r Hr Hs Hb). rewrite Hph. simpl. split_and!; (decided || done).
Qed.

(** ** A token the caller supplies *)

(** A checkpoint may be given its next token, and nothing keeps that token
    from being the current one: then two checkpoints planned from the same read
    both commit, and the second overwrites the first. *)
Theorem supplied_token_defeats_cas cohort :
  exists db p q db1 db2 r1 r2,
    planned cohort p /\ planned cohort q /\ p_uid q = p_uid p /\ p_current q = p_current p /\
    get_account_cutover_record db (p_uid p) = Ok (p_current p) /\
    commit_result production_client db p = Ok (db1, r1) /\
    commit_result production_client db1 q = Ok (db2, r2) /\
    get_account_cutover_record db1 (p_uid q) <> Ok (p_current q) /\
    checkpoint_phase r1 = paused /\ checkpoint_phase r2 = offline_queue_fenced.
Proof.
  set (db := put_record example_migrating).
  set (p := {| p_uid := "u1"; p_op := Checkpoint paused None (Some "t1"); p_draw := demo_draw "";
               p_current := example_migrating; p_next := with_token example_migrating paused "t1";
               p_require_existing := true |}).
  set (q := {| p_uid := "u1"; p_op := Checkpoint offline_queue_fenced None (Some "t1");
               p_draw := demo_draw ""; p_current := example_migrating;
               p_next := with_token example_migrating offline_queue_fenced "t1";
               p_require_existing := true |}).
  set (db1 := <["u1" := persisted_payload (p_next p)]> db).
  assert (get_account_cutover_record db "u1" = Ok example_migrating) as Hget.
  { apply (get_after_write ∅); reflexivity. }
  assert (get_account_cutover_record db1 "u1" = Ok (p_next p)) as Hget1.
  { apply get_after_write; reflexivity. }
  exists db, p, q, db1, (<["u1" := persisted_payload (p_next q)]> db1), (p_next p), (p_next q).
  split_and!; try (reflexivity || done || (split_and!; reflexivity)).
  - apply cas_succeeds; [done|reflexivity|]. intros _. by eapply migrating_is_stored.
  - exact (cas_succeeds db1 "u1" (p_next p) (p_next q) true Hget1 eq_refl
             (fun _ => migrating_is_stored db1 "u1" _ Hget1 ltac:(discriminate))).
  - simpl. rewrite Hget1. discriminate.
Qed.

End Guarantees.

(** ** The guarantees apply *)

(** A bound, migrating account with two checkpoints planned from one read; the
    first of them commits. *)
Definition demo_paused : pending :=
  {| p_uid := "u1"; p_op := Checkpoint paused None None; p_draw := demo_draw "t2";
     p_current := demo_bound; p_next := with_token demo_bound paused "t2";
     p_require_existing := true |}.

Definition demo_fenced : pending :=
  {| p_uid := "u1"; p_op := Checkpoint offline_queue_fenced None None; p_draw := demo_draw "t3";
     p_current := demo_bound; p_next := with_token demo_bound offline_queue_fenced "t3";
     p_require_existing := true |}.

Definition race_of (db : cutover_db) (ps : list pending) (used : gset string) : race :=
  {| documents := db; in_flight := ps; tokens := used |}.

Definition race0 (r : AccountCutoverRecord) : race := race_of (put_record r) [] {[ "t1" ]}.
Definition race2 : race :=
  race_of (put_record demo_bound) [demo_paused; demo_fenced] ({[ "t3" ]} ∪ ({[ "t2" ]} ∪ {[ "t1" ]})).
Definition race3 : race :=
  race_of (<["u1" := persisted_payload (p_next demo_paused)]> (put_record demo_bound)) [demo_fenced]
    ({[ "t3" ]} ∪ ({[ "t2" ]} ∪ {[ "t1" ]})).

Lemma get_put_record r : record_ok r = true -> get_account_cutover_record (put_record r) (uid r) = Ok r.
Proof. intros Hr. by apply (get_after_write ∅). Qed.

Lemma race0_start r :
  record_ok r = true -> checkpoint_token r = Some "t1" -> race_start (race0 r).
Proof.
  intros Hr Ht. split; [done|]. simpl. intros u d r' t Hd Hv Ht'.
  unfold put_record in Hd. apply lookup_singleton_Some in Hd as [<- <-].
  cbn [model_validate strict_codec] in Hv. rewrite decode_persisted_payload in Hv by done.
  injection Hv as <-. rewrite Ht in Ht'. injection Ht' as <-. set_solver.
Qed.

Lemma demo_read db ps used phase t :
  get_account_cutover_record db "u1" = Ok demo_bound ->
  phase = paused \/ phase = offline_queue_fenced -> token_ok t = true -> t ∉ used ->
  race_step production_client demo_cohort (race_of db ps used)
    (race_of db (ps ++ [{| p_uid := "u1"; p_op := Checkpoint phase None None;
                           p_draw := demo_draw t; p_current := demo_bound;
                           p_next := with_token demo_bound phase t; p_require_existing := true |}])
       ({[ t ]} ∪ used)).
Proof.
  intros Hget Hph Ht Hu.
  exists None. apply (race_read _ _ (race_of db ps used) "u1" (Checkpoint phase None None) (demo_draw t)
           demo_bound (with_token demo_bound phase t) true t); [|done|done].
  unfold read_and_plan. simpl. rewrite Hget. simpl.
  rewrite (checkpoint_plan demo_bound phase (demo_draw t)); try reflexivity; [|exact Ht].
  destruct Hph as [-> | ->]; decided.
Qed.

Lemma demo_commit_result :
  commit_result production_client (put_record demo_bound) demo_paused =
    Ok (documents race3, p_next demo_paused).
Proof.
  apply (cas_succeeds (put_record demo_bound) "u1" demo_bound (p_next demo_paused) true).
  - by apply (get_put_record demo_bound).
  - reflexivity.
  - intros _. by exists (persisted_payload demo_bound).
Qed.

Lemma demo_reads : star (race_step production_client demo_cohort) (race0 demo_bound) race2.
Proof.
  eapply star_step; [|eapply star_step; [|apply star_refl]].
  - apply (demo_read (put_record demo_bound) [] {[ "t1" ]} paused "t2");
      [by apply (get_put_record demo_bound)|by left|reflexivity|decided].
  - apply (demo_read (put_record demo_bound) [demo_paused] _ offline_queue_fenced "t3");
      [by apply (get_put_record demo_bound)|by right|reflexivity|decided].
Qed.

Lemma demo_commit :
  race_event production_client demo_cohort race2 (Some (answer_of demo_paused (p_next demo_paused))) race3.
Proof. exact (race_commit _ _ race2 [] demo_paused [demo_fenced] _ _ eq_refl demo_commit_result). Qed.

Lemma demo_start : race_start (race0 demo_bound).
Proof. by apply race0_start. Qed.

(** Both checkpoints are in flight here. *)
Lemma demo_reachable : reachable race_start (race_step production_client demo_cohort) race2.
Proof. exact (reachable_star _ _ _ _ (reach_init _ _ _ demo_start) demo_reads). Qed.

Lemma interleaved_calls_are_atomic_witness :
  atomic_run production_client demo_cohort (put_record demo_bound)
    [answer_of demo_paused (p_next demo_paused)] (documents race3).
Proof.
  exact (interleaved_calls_are_atomic production_client demo_cohort race2 _ race3 demo_reachable
           (run_event _ _ _ _ _ _ _ demo_commit (run_done _ _ race3))).
Defined.

Lemma commit_defeats_rivals_witness :
  exists code, commit_result production_client (documents race3) demo_fenced =
    Raise (AccountCutoverConcurrencyError code).
Proof.
  exact (commit_defeats_rivals production_client demo_cohort race2 [] demo_paused [demo_fenced]
           demo_fenced (documents race3) (p_next demo_paused)
           demo_reachable eq_refl ltac:(by apply list_elem_of_here) eq_refl demo_commit_result).
Defined.

Lemma account_history_is_lawful_witness :
  exists r', get_account_cutover_record (documents race3) "u1" = Ok r' /\
    star lawful_move demo_bound r' /\ account_generation demo_bound <= account_generation r' /\
    ui_generation demo_bound <= ui_generation r' /\ api_generation demo_bound <= api_generation r' /\
    destination_backend_bound r' = destination_backend_bound demo_bound /\
    (quarantined demo_bound = true -> quarantined r' = true).
Proof.
  exact (account_history_is_lawful production_client demo_cohort race2 race3 "u1" demo_bound
           demo_reachable (star_step _ _ _ _ (ex_intro _ _ demo_commit) (star_refl _ _))
           (get_put_record demo_bound eq_refl)).
Defined.

(** A new account asked to drain, next to an account whose document is
    malformed. *)
Definition demo_legacy : AccountCutoverRecord :=
  {| uid := "u1"; state := legacy; account_generation := 0; ui_generation := 0;
     api_generation := 0; stranded_new_data := false; offline_queue_instruction := queue_none;
     checkpoint_phase := not_started; checkpoint_token := None; manifest_id := None;
     destination_backend_bound := false |}.

Definition demo_drained : AccountCutoverRecord :=
  {| uid := "u1"; state := legacy; account_generation := 0; ui_generation := 0;
     api_generation := 0; stranded_new_data := false; offline_queue_instruction := drain;
     checkpoint_phase := not_started; checkpoint_token := Some "t1"; manifest_id := None;
     destination_backend_bound := false |}.

Definition demo_drain : pending :=
  {| p_uid := "u1"; p_op := PrepareOfflineDrain; p_draw := demo_draw "t1";
     p_current := demo_legacy; p_next := demo_drained; p_require_existing := false |}.

Definition torn_db : cutover_db := {[ "u2" := ∅ ]}.
Definition drained_race : race :=
  race_of (<["u1" := persisted_payload demo_drained]> torn_db) [] ({[ "t1" ]} ∪ ∅).

Lemma torn_start : race_start (race_of torn_db [] ∅).
Proof.
  split; [done|]. simpl. intros u d r t Hd Hv Ht. unfold torn_db in Hd.
  apply lookup_singleton_Some in Hd as [<- <-]. discriminate.
Qed.

Lemma torn_reachable cohort :
  reachable race_start (race_step production_client cohort) (race_of torn_db [] ∅).
Proof. apply reach_init, torn_start. Qed.

Lemma torn_get : get_account_cutover_record torn_db "u1" = Ok demo_legacy.
Proof. reflexivity. Qed.

Lemma drain_commit :
  commit_result production_client torn_db demo_drain = Ok (documents drained_race, demo_drained).
Proof. by apply (cas_succeeds torn_db "u1" demo_legacy demo_drained false torn_get). Qed.

Lemma drain_run cohort : star (race_step production_client cohort) (race_of torn_db [] ∅) drained_race.
Proof.
  eapply star_step; [|eapply star_step; [|apply star_refl]].
  - exists None. apply (race_read _ _ (race_of torn_db [] ∅) "u1" PrepareOfflineDrain (demo_draw "t1")
             demo_legacy demo_drained false "t1"); [reflexivity|reflexivity|decided].
  - eexists. exact (race_commit _ cohort (race_of torn_db [demo_drain] ({[ "t1" ]} ∪ ∅)) []
                      demo_drain [] _ _ eq_refl drain_commit).
Qed.

Lemma unbound_account_stays_off_new_witness :
  exists r', get_account_cutover_record (documents drained_race) "u1" = Ok r' /\ state r' <> new /\
    checkpoint_phase r' ∉ [importing; verifying; cutover_ready; completed].
Proof.
  exact (unbound_account_stays_off_new production_client demo_cohort (race_of torn_db [] ∅)
           drained_race "u1" demo_legacy (torn_reachable demo_cohort) (drain_run demo_cohort) torn_get eq_refl
           ltac:(discriminate) ltac:(decided)).
Defined.

Lemma shipped_cohort_migrates_nobody_witness :
  exists r', get_account_cutover_record (documents drained_race) "u1" = Ok r' /\ state r' = legacy /\
    account_generation r' = account_generation demo_legacy.
Proof.
  exact (shipped_cohort_migrates_nobody production_client (race_of torn_db [] ∅) drained_race "u1"
           demo_legacy (torn_reachable _) (drain_run ACCOUNT_CUTOVER_COHORT) torn_get eq_refl).
Defined.

Lemma malformed_document_is_kept_witness :
  documents drained_race !! "u2" = Some ∅ /\
  get_account_cutover_record (documents drained_race) "u2" = Raise (MalformedDocError "validation_error").
Proof.
  exact (malformed_document_is_kept production_client demo_cohort (race_of torn_db [] ∅) drained_race
           "u2" ∅ (MalformedDocError "validation_error") (torn_reachable demo_cohort) (drain_run demo_cohort)
           eq_refl eq_refl).
Defined.

(** ** Retries and progress *)

Lemma demo_drain_call cohort :
  coordinate production_client cohort torn_db "u1" PrepareOfflineDrain (demo_draw "t1") =
    Ok (documents drained_race,
        {| result_record := demo_drained; created := true; resumed := false |}).
Proof.
  apply (coordinate_succeeds cohort torn_db "u1" PrepareOfflineDrain (demo_draw "t1") demo_legacy
           demo_drained false); [done|exact torn_get|reflexivity|done].
Qed.

Lemma repeated_start_resumes_witness :
  coordinate production_client demo_cohort (documents drained_race) "u1" PrepareOfflineDrain
      (demo_draw "t9") =
    Ok (documents drained_race, {| result_record := demo_drained; created := false; resumed := true |}).
Proof.
  exact (repeated_start_resumes production_client demo_cohort torn_db "u1" PrepareOfflineDrain
           (demo_draw "t1") (demo_draw "t9") (documents drained_race)
           {| result_record := demo_drained; created := true; resumed := false |}
           (or_intror eq_refl) (demo_drain_call demo_cohort)).
Defined.

Lemma bound_migration_completes_witness :
  exists db' r',
    run_calls demo_cohort (put_record demo_bound) "u1" (forward_calls 1 (demo_draw "t7")) = Ok db' /\
    get_account_cutover_record db' "u1" = Ok r' /\ state r' = new /\ account_generation r' = 2.
Proof.
  exact (bound_migration_completes demo_cohort (put_record demo_bound) "u1" demo_bound
           (demo_draw "t7") (get_put_record demo_bound eq_refl) eq_refl eq_refl eq_refl eq_refl).
Defined.

Definition demo_ready : AccountCutoverRecord := with_phase example_migrating cutover_ready true.
Definition demo_new : AccountCutoverRecord := completed_record demo_ready "t5".

Lemma demo_complete :
  coordinate production_client demo_cohort (put_record demo_ready) "u1" (CompleteToNew 1) (demo_draw "t5") =
    Ok (<["u1" := persisted_payload demo_new]> (put_record demo_ready),
        {| result_record := demo_new; created := true; resumed := false |}).
Proof.
  apply (coordinate_succeeds demo_cohort (put_record demo_ready) "u1" (CompleteToNew 1)
           (demo_draw "t5") demo_ready demo_new true);
    [done|by apply (get_put_record demo_ready)|reflexivity|].
  intros _. by exists (persisted_payload demo_ready).
Qed.

Lemma completion_retry_needs_new_generation_witness :
  coordinate production_client demo_cohort
      (<["u1" := persisted_payload demo_new]> (put_record demo_ready)) "u1" (CompleteToNew 1)
      (demo_draw "t6") = Raise (AccountCutoverTransitionError "account_generation_mismatch") /\
  coordinate production_client demo_cohort
      (<["u1" := persisted_payload demo_new]> (put_record demo_ready)) "u1" (CompleteToNew 2)
      (demo_draw "t6") =
    Ok (<["u1" := persisted_payload demo_new]> (put_record demo_ready),
        {| result_record := demo_new; created := false; resumed := true |}).
Proof.
  exact (completion_retry_needs_new_generation demo_cohort (put_record demo_ready) "u1" 1
           (demo_draw "t5") (demo_draw "t6") _ _ demo_ready
           (get_put_record demo_ready eq_refl) eq_refl demo_complete).
Defined.
