(* ===== verification/CutoverAccess.v ===== *)
(** Account cutover at the request boundary: the control projection
    ([utils/account_cutover/control.py], [routers/account_cutover.py]), the
    admission of HTTP requests, WebSocket sessions and queued work
    ([utils/account_cutover/access.py]) and the closed label sets of its
    metrics ([utils/account_cutover/telemetry.py]). *)
From stdpp Require Import sorting.
From S2P Require Export CutoverRace.

(** ** Text *)

Definition upper_char (c : ascii) : ascii :=
  let n := N_of_ascii c in
  if ((97 <=? n) && (n <=? 122))%N then ascii_of_N (n - 32) else c.

Definition py_upper (s : string) : string :=
  string_of_list_ascii (map upper_char (list_ascii_of_string s)).

Fixpoint contains_char (c : ascii) (s : string) : bool :=
  match s with
  | EmptyString => false
  | String x r => Ascii.eqb x c || contains_char c r
  end.

Definition or_empty (o : option string) : string := default "" o.

(** [x or None] on a text *)
Definition nonempty (s : string) : option string := if String.eqb s "" then None else Some s.

(** ** Client builds *)

(** A decimal integer that is not negative. *)
Definition nonnegative_int (text : string) : option Z :=
  match parse_int text with
  | Some n => if 0 <=? n then Some n else None
  | None => None
  end.

Definition parse_client_build (raw : option string) : option Z :=
  match raw with
  | None => None
  | Some raw =>
      let text := py_strip raw in
      if String.eqb text "" then None
      else
        let text := if contains_char "+" text then List.last (split_on "+" text) "" else text in
        nonnegative_int text
  end.

Definition MINIMUM_SUPPORTED_BUILDS : gmap string Z :=
  {[ "ios" := 0; "android" := 0; "macos" := 0; "windows" := 0; "linux" := 0; "web" := 0 ]}.

Definition DEFAULT_UI_GENERATION : Z := 0.
Definition DEFAULT_API_GENERATION : Z := 0.

Record PlatformMinimumBuild : Type := { platform : string; minimum_supported_build : Z }.

Definition platform_build_ok (b : PlatformMinimumBuild) : bool :=
  (1 <=? py_len (platform b)) && (py_len (platform b) <=? 32) && (0 <=? minimum_supported_build b).

Definition normal_platform (k : string) : string := py_lower (py_strip k).

(** [sorted(merged.items())]: the platforms of a dict are distinct, so the order
    is the order of the names. *)
Definition by_platform (a b : string * Z) : Prop := String.leb a.1 b.1 = true.
#[export] Instance by_platform_dec a b : Decision (by_platform a b).
Proof. unfold by_platform. apply _. Defined.

Record AccountCutoverManifestSummary : Type := {
  sum_manifest_id : option string;
  sum_schema_version : Z;
  sum_checkpoint_phase : AccountCutoverCheckpointPhase;
  sum_checkpoint_token : option string;
  sum_destination_backend_bound : bool;
  sum_stranded_new_data : bool;
}.

Record AccountCutoverControl : Type := {
  ctl_state : AccountCutoverState;
  ctl_account_generation : Z;
  ctl_ui_generation : Z;
  ctl_api_generation : Z;
  ctl_client_action : AccountCutoverClientAction;
  ctl_offline_queue_instruction : OfflineQueueInstruction;
  ctl_stranded_new_data : bool;
  ctl_legacy_writes_allowed : bool;
  ctl_product_traffic_allowed : bool;
  ctl_auth_bootstrap_reachable : bool;
  ctl_minimum_supported_builds : list PlatformMinimumBuild;
  ctl_migration : AccountCutoverManifestSummary;
}.

Definition control_ok (c : AccountCutoverControl) : bool :=
  (0 <=? ctl_account_generation c) && (0 <=? ctl_ui_generation c) && (0 <=? ctl_api_generation c) &&
  opt_ok StableId (sum_manifest_id (ctl_migration c)) && (1 <=? sum_schema_version (ctl_migration c)) &&
  opt_ok token_ok (sum_checkpoint_token (ctl_migration c)).

(** ** The control projection

    [floors] is the table [MINIMUM_SUPPORTED_BUILDS], all zero as shipped and
    raised by operators after the bridge release. *)
Section Control.
Context (floors : gmap string Z).

Definition merge_override (m : gmap string Z) (kv : string * Z) : gmap string Z :=
  if 0 <=? kv.2 then <[normal_platform kv.1 := kv.2]> m else m.

Definition merged_builds (overrides : option (list (string * Z))) : gmap string Z :=
  foldl merge_override floors (default [] overrides).

Definition minimum_builds_projection (overrides : option (list (string * Z)))
    : result cutover_error (list PlatformMinimumBuild) :=
  let builds := map (fun kv => {| platform := kv.1; minimum_supported_build := kv.2 |})
                  (merge_sort by_platform (map_to_list (merged_builds overrides))) in
  if forallb platform_build_ok builds then Ok builds else Raise ValidationError.

Definition action_floors (minimum_builds : option (list (string * Z))) : gmap string Z :=
  foldl (fun m kv => <[normal_platform kv.1 := kv.2]> m) floors (default [] minimum_builds).

(** Whether the build floor of the platform refuses the client. *)
Definition below_floor (table : gmap string Z) (platform : option string) (build : option Z) : bool :=
  match nonempty (normal_platform (or_empty platform)) with
  | None => false
  | Some key =>
      match table !! key with
      | None => false
      | Some floor =>
          (0 <? floor) && match build with None => true | Some b => b <? floor end
      end
  end.

Definition resolve_client_action (r : AccountCutoverRecord) (platform : option string)
    (client_build : option Z) (minimum_builds : option (list (string * Z)))
    : AccountCutoverClientAction :=
  if below_floor (action_floors minimum_builds) platform client_build then force_upgrade
  else if bool_decide (state r = migrating) then migration_maintenance
  else if bool_decide (state r = new) then migration_maintenance
  else action_none.

Definition product_traffic_allowed (r : AccountCutoverRecord) (a : AccountCutoverClientAction) : bool :=
  if negb (bool_decide (a = action_none)) then false
  else if state_in (state r) [migrating; new] then false
  else true.

(** The build a caller presents: explicit, or the build header, or the version
    header. *)
Definition presented_build (client_build : option Z) (x_app_build x_app_version : option string)
    : option Z :=
  match client_build with
  | Some b => Some b
  | None =>
      match parse_client_build x_app_build with
      | Some b => Some b
      | None => parse_client_build x_app_version
      end
  end.

(** The queue instruction a client is shown. *)
Definition projected_offline (r : AccountCutoverRecord) : OfflineQueueInstruction :=
  if state_in (state r) [migrating; new; rolled_back_stranded] &&
     negb (bool_decide (offline_queue_instruction r = quarantine))
  then quarantine else offline_queue_instruction r.

Definition build_account_cutover_control (r : AccountCutoverRecord) (platform : option string)
    (client_build : option Z) (x_app_build x_app_version : option string)
    (minimum_builds : option (list (string * Z))) : result cutover_error AccountCutoverControl :=
  let build := presented_build client_build x_app_build x_app_version in
  let* builds := minimum_builds_projection minimum_builds in
  let action := resolve_client_action r platform build minimum_builds in
  let c :=
    {| ctl_state := state r;
       ctl_account_generation := account_generation r;
       ctl_ui_generation :=
         if bool_decide (state r = legacy) then DEFAULT_UI_GENERATION else ui_generation r;
       ctl_api_generation :=
         if bool_decide (state r = legacy) then DEFAULT_API_GENERATION else api_generation r;
       ctl_client_action := action;
       ctl_offline_queue_instruction := projected_offline r;
       ctl_stranded_new_data := stranded_new_data r;
       ctl_legacy_writes_allowed :=
         legacy_writes_allowed_for_state (state r) && bool_decide (action = action_none);
       ctl_product_traffic_allowed := product_traffic_allowed r action;
       ctl_auth_bootstrap_reachable := true;
       ctl_minimum_supported_builds := builds;
       ctl_migration :=
         {| sum_manifest_id := manifest_id r;
            sum_schema_version := 1;
            sum_checkpoint_phase := checkpoint_phase r;
            sum_checkpoint_token := checkpoint_token r;
            sum_destination_backend_bound := destination_backend_bound r;
            sum_stranded_new_data := stranded_new_data r |} |} in
  if control_ok c then Ok c else Raise ValidationError.

End Control.

(** ** Telemetry labels *)

Definition _KNOWN_TRANSITION_REASONS : list string :=
  ["prepare_offline_drain"; "begin_forward_migration"; "complete_forward_migration";
   "lossy_rollback"; "other"].
Definition _KNOWN_ACCESS_DECISIONS : list string := ["allow"; "deny"; "other"].
Definition _KNOWN_CLIENT_ACTIONS : list string :=
  ["none"; "force_upgrade"; "migration_maintenance"; "other"].
Definition _KNOWN_STATES : list string := ["legacy"; "migrating"; "new"; "rolled_back_stranded"; "other"].

Definition label_char (c : ascii) : ascii :=
  if is_stable_char c then c else "_"%char.

Definition clean_text (s : string) : string :=
  string_of_list_ascii (map label_char (list_ascii_of_string s)).

Definition str_or (a b : string) : string := if String.eqb a "" then b else a.

Definition _safe (value dflt : string) (max_len : nat) : string :=
  let text := str_or (py_lower (py_strip (str_or value dflt))) dflt in
  str_or (py_take max_len (clean_text text)) dflt.

Definition _bounded (value : string) (allowed : list string) (dflt : string) : string :=
  let label := _safe value dflt 64 in
  if bool_decide (label ∈ allowed) then label else dflt.

(** The labels of the two counters. *)
Definition record_cutover_transition (from_state to_state reason : string) : string * string * string :=
  (_bounded from_state _KNOWN_STATES "other", _bounded to_state _KNOWN_STATES "other",
   _bounded reason _KNOWN_TRANSITION_REASONS "other").

Definition record_cutover_access_decision (st decision client_action : string)
    : string * string * string :=
  (_bounded st _KNOWN_STATES "other", _bounded decision _KNOWN_ACCESS_DECISIONS "other",
   _bounded client_action _KNOWN_CLIENT_ACTIONS "other").

(** ** Admission *)

Definition WS_AUTH_CODE_ACCOUNT_CUTOVER : Z := 4006.

Definition cutover_enforcement_enabled (env : option string) : bool :=
  bool_decide (py_lower (py_strip (default "off" env)) ∈ ["1"; "true"; "on"; "yes"]).

Definition _ALWAYS_REACHABLE_PREFIXES : list string :=
  ["/v1/auth"; "/v1/users/delete-account"; "/v1/account/cutover"; "/v2/desktop/update-policy";
   "/v1/updates"; "/health"; "/v1/health"].

Definition _MUTATING_METHODS : list string := ["POST"; "PUT"; "PATCH"; "DELETE"].

Definition is_cutover_control_path (path : string) : bool :=
  let normalized := List.hd "" (split_on "?" path) in
  existsb (fun p => String.eqb normalized p || String.prefix (p ++ "/") normalized)
    _ALWAYS_REACHABLE_PREFIXES.

(** Headers in the order the mapping iterates them. *)
Definition _headers_get (headers : list (string * string)) (name : string) : option string :=
  snd <$> List.find (fun kv => String.eqb (py_lower kv.1) (py_lower name)) headers.

Definition parse_account_generation_header (headers : list (string * string)) : option Z :=
  match _headers_get headers "X-Account-Generation" with
  | None => None
  | Some raw =>
      let text := py_strip raw in
      if String.eqb text "" then None else nonnegative_int text
  end.

(** [AccountCutoverAccessDenial]. *)
Record denial : Type := {
  denial_code : string;
  denial_action : AccountCutoverClientAction;
  denial_detail : list (string * pyval);
}.

(** What leaves the evaluation: a denial, or an exception it does not handle. *)
Inductive access_error : Type :=
| Denied (d : denial)
| Escaped (e : cutover_error).

Definition opt_int (o : option Z) : pyval := match o with Some z => PInt z | None => PNone end.

Definition _deny_generation_mismatch (r : AccountCutoverRecord) (client_generation : option Z) : denial :=
  {| denial_code := "account_generation_mismatch";
     denial_action := action_none;
     denial_detail :=
       [("code", PStr "account_generation_mismatch"); ("state", PStr (state_value (state r)));
        ("account_generation", PInt (account_generation r));
        ("client_account_generation", opt_int client_generation); ("retryable", PBool false)] |}.

Definition deny_unavailable : denial :=
  {| denial_code := "account_cutover_state_unavailable";
     denial_action := migration_maintenance;
     denial_detail := [("code", PStr "account_cutover_state_unavailable"); ("retryable", PBool true)] |}.

Definition deny_upgrade (r : AccountCutoverRecord) (a : AccountCutoverClientAction) : denial :=
  {| denial_code := "force_upgrade_required";
     denial_action := a;
     denial_detail :=
       [("code", PStr "force_upgrade_required"); ("client_action", PStr (action_value a));
        ("state", PStr (state_value (state r))); ("account_generation", PInt (account_generation r));
        ("retryable", PBool false)] |}.

Definition deny_maintenance (r : AccountCutoverRecord) (c : AccountCutoverControl) : denial :=
  {| denial_code := "migration_maintenance";
     denial_action := ctl_client_action c;
     denial_detail :=
       [("code", PStr "migration_maintenance"); ("client_action", PStr (action_value (ctl_client_action c)));
        ("state", PStr (state_value (state r))); ("account_generation", PInt (account_generation r));
        ("offline_queue_instruction", PStr (instruction_value (ctl_offline_queue_instruction c)));
        ("stranded_new_data", PBool (ctl_stranded_new_data c)); ("retryable", PBool true)] |}.

Definition deny_closed (r : AccountCutoverRecord) : denial :=
  {| denial_code := "legacy_plane_closed";
     denial_action := action_none;
     denial_detail :=
       [("code", PStr "legacy_plane_closed"); ("state", PStr (state_value (state r)));
        ("account_generation", PInt (account_generation r)); ("retryable", PBool false)] |}.

(** The HTTP exception with its status, and the WebSocket exception. *)
Inductive endpoint_error : Type :=
| HTTPException (status : Z) (detail : list (string * pyval))
| WebSocketException (code : Z) (reason : string)
| Unhandled (e : cutover_error).

Section Access.
Context `{RecordCodec}.
Context (floors : gmap string Z).
Context (env : option string).

(** The decision on a record that was read. *)
Definition decide_access (r : AccountCutoverRecord) (method : string)
    (headers : list (string * string)) (mutating : option bool) : result access_error unit :=
  let client_generation := parse_account_generation_header headers in
  let mutates := match mutating with
                 | Some b => b
                 | None => bool_decide (py_upper method ∈ _MUTATING_METHODS)
                 end in
  if mutates && (0 <? account_generation r) &&
     (bool_decide (client_generation = None) ||
      negb (bool_decide (client_generation = Some (account_generation r)))) then
    Raise (Denied (_deny_generation_mismatch r client_generation))
  else
    let platform := nonempty (normal_platform (or_empty (_headers_get headers "X-App-Platform"))) in
    let parsed_build := parse_client_build (_headers_get headers "X-App-Build") in
    let build := match parsed_build with
                 | Some b => Some b
                 | None => parse_client_build (_headers_get headers "X-App-Version")
                 end in
    match build_account_cutover_control floors r platform build None None None with
    | Raise e => Raise (Escaped e)
    | Ok control =>
        if bool_decide (state r = legacy) && (account_generation r =? 0) then
          if bool_decide (ctl_client_action control = force_upgrade) then
            Raise (Denied (deny_upgrade r (ctl_client_action control)))
          else Ok tt
        else if bool_decide (ctl_client_action control = force_upgrade) then
          Raise (Denied (deny_upgrade r (ctl_client_action control)))
        else if bool_decide (ctl_client_action control = migration_maintenance) &&
                negb (bool_decide (state r = rolled_back_stranded)) then
          Raise (Denied (deny_maintenance r control))
        else if bool_decide (state r = new) && mutates then Raise (Denied (deny_closed r))
        else Ok tt
    end.

Definition evaluate_account_cutover_access (db : cutover_db) (u method path : string)
    (headers : list (string * string)) (force : bool) (mutating : option bool)
    : result access_error unit :=
  if negb force && negb (cutover_enforcement_enabled env) then Ok tt
  else if is_cutover_control_path path then Ok tt
  else
    match get_account_cutover_record db u with
    | Raise (MalformedDocError _) => Raise (Denied deny_unavailable)
    | Raise e => Raise (Escaped e)
    | Ok r => decide_access r method headers mutating
    end.

Definition http_status (code : string) : Z :=
  if String.eqb code "force_upgrade_required" then 426
  else if String.eqb code "account_cutover_state_unavailable" then 503
  else 403.

Definition enforce_account_cutover_http_access (db : cutover_db) (u method path : string)
    (headers : list (string * string)) : result endpoint_error unit :=
  match evaluate_account_cutover_access db u method path headers false None with
  | Ok _ => Ok tt
  | Raise (Denied d) => Raise (HTTPException (http_status (denial_code d)) (denial_detail d))
  | Raise (Escaped e) => Raise (Unhandled e)
  end.

Definition enforce_account_cutover_ws_access (db : cutover_db) (u path : string)
    (headers : list (string * string)) : result endpoint_error unit :=
  match evaluate_account_cutover_access db u "GET" path headers false (Some true) with
  | Ok _ => Ok tt
  | Raise (Denied d) => Raise (WebSocketException WS_AUTH_CODE_ACCOUNT_CUTOVER (denial_code d))
  | Raise (Escaped e) => Raise (Unhandled e)
  end.

Definition should_skip_background_account_mutation (db : cutover_db) (u : string)
    : result cutover_error bool :=
  if negb (cutover_enforcement_enabled env) then Ok false
  else
    match get_account_cutover_record db u with
    | Raise (MalformedDocError _) => Ok true
    | Raise e => Raise e
    | Ok r => Ok (background_job_should_skip_account r)
    end.

(** [GET /v1/account/cutover/control]. *)
Definition get_account_cutover_control (db : cutover_db) (u : string)
    (x_app_platform x_app_build x_app_version : option string)
    : result endpoint_error AccountCutoverControl :=
  match get_account_cutover_record db u with
  | Raise (MalformedDocError _) =>
      Raise (HTTPException 503
        [("code", PStr "account_cutover_state_unavailable"); ("retryable", PBool true)])
  | Raise e => Raise (Unhandled e)
  | Ok r =>
      match build_account_cutover_control floors r x_app_platform None x_app_build x_app_version None with
      | Ok c => Ok c
      | Raise e => Raise (Unhandled e)
      end
  end.

End Access.
