(* ===== verification/CutoverAccessOps.v ===== *)
(** What the request boundary guarantees: which requests are admitted, that
    admission agrees with the write fence and with the projection a client is
    shown, and that unreadable state is refused. *)
From stdpp Require Import sorting.
From S2P Require Export Text CutoverAccess CutoverOps.

Lemma normal_platform_normal s : normal_platform (normal_platform s) = normal_platform s.
Proof.
  unfold normal_platform, py_lower, py_strip. rewrite !list_ascii_of_string_of_list_ascii.
  f_equal. rewrite strip_lower, strip_strip, map_map. apply map_ext. apply lower_lower.
Qed.

Lemma normal_platform_request s :
  normal_platform (or_empty (nonempty (normal_platform s))) = normal_platform s.
Proof.
  unfold nonempty. destruct (String.eqb_spec (normal_platform s) "") as [->|]; [done|].
  apply normal_platform_normal.
Qed.

Lemma nonnegative_int_pretty n : 0 <= n -> nonnegative_int (Z_to_string n) = Some n.
Proof.
  intros Hn. unfold nonnegative_int. rewrite parse_int_pretty by done.
  by rewrite (proj2 (Z.leb_le 0 n)).
Qed.

(** ** The version header *)

Lemma split_on_nonempty c s : split_on c s <> [].
Proof. induction s as [|x s IH]; simpl; [done|]. destruct (Ascii.eqb x c), (split_on c s); done. Qed.

Lemma last_split_cons c a s :
  Ascii.eqb a c = false -> (exists w ws, split_on c s = w :: ws /\ ws <> []) ->
  List.last (split_on c (String a s)) "" = List.last (split_on c s) "".
Proof. intros Ha (w & ws & Hs & Hws). simpl. rewrite Ha, Hs. by destruct ws. Qed.

Lemma split_after c p s :
  (exists w ws, split_on c (p ++ String c s) = w :: ws /\ ws <> []) /\
  List.last (split_on c (p ++ String c s)) "" = List.last (split_on c s) "".
Proof.
  induction p as [|x p [(w & ws & Hs & Hws) IH]]; simpl.
  - rewrite Ascii.eqb_refl. pose proof (split_on_nonempty c s).
    split; [eauto|]. by destruct (split_on c s).
  - destruct (Ascii.eqb x c) eqn:Hx; simpl in *; rewrite Hs in *.
    + split; [eauto|]. by rewrite <- IH.
    + split; [eauto|]. rewrite <- IH. by destruct ws.
Qed.

Lemma split_on_without c s :
  Forall (fun x => Ascii.eqb x c = false) (list_ascii_of_string s) -> split_on c s = [s].
Proof.
  induction s as [|x s IH]; simpl; intros Hs; [done|].
  apply Forall_cons in Hs as [Hx Hs]. by rewrite Hx, IH.
Qed.

Lemma drop_spaces_app l k : starts_solid k -> k <> [] -> drop_spaces (l ++ k) = drop_spaces l ++ k.
Proof.
  intros Hk Hne. induction l as [|c l IH]; simpl.
  - destruct k as [|c k]; [done|]. simpl in *. by rewrite Hk.
  - destruct (is_space c); [exact IH|done].
Qed.

Lemma string_of_app l k :
  string_of_list_ascii (l ++ k) = (string_of_list_ascii l ++ string_of_list_ascii k)%string.
Proof. induction l as [|c l IH]; simpl; [done|]. by rewrite IH. Qed.

Lemma list_of_append (a b : string) :
  list_ascii_of_string (a ++ b)%string = list_ascii_of_string a ++ list_ascii_of_string b.
Proof. induction a as [|c a IH]; simpl; [done|]. by rewrite IH. Qed.

(** Stripping a version header only touches the part before the build. *)
Lemma strip_version version n :
  0 <= n -> exists v, py_strip (version ++ "+" ++ Z_to_string n)%string = (v ++ "+" ++ Z_to_string n)%string.
Proof.
  intros Hn. pose proof (digits_pretty n Hn) as Hd. unfold py_strip.
  rewrite !list_of_append. set (ds := list_ascii_of_string (Z_to_string n)) in *.
  unfold strip_chars. simpl.
  rewrite drop_spaces_app by done. rewrite (drop_spaces_solid (reverse _)).
  - rewrite reverse_involutive. exists (string_of_list_ascii (drop_spaces (list_ascii_of_string version))).
    rewrite string_of_app. simpl. unfold ds. by rewrite string_of_list_ascii_of_string.
  - assert (ds <> []) as Hne.
    { unfold ds. destruct (pretty_nonneg n Hn) as [->|(x & Hx & -> & _)]; [done|]. intros He.
      pose proof (nonnegative_int_pretty (Z.of_N x) ltac:(lia)) as Hi. revert Hi.
      unfold nonnegative_int. rewrite parse_int_digits by done. by rewrite He. }
    rewrite reverse_app, reverse_cons.
    assert (Forall is_digit (reverse ds)) as Hdr by (by apply Forall_reverse).
    assert (reverse ds <> []) as Hnr.
    { intros He. apply Hne. apply (f_equal reverse) in He. by rewrite reverse_involutive in He. }
    destruct (reverse ds) as [|c r]; [done|]. simpl.
    apply Forall_cons in Hdr as [Hc _]. by apply digit_solid.
Qed.

Lemma contains_char_app c p s : contains_char c (p ++ String c s) = true.
Proof.
  induction p as [|x p IH]; simpl; [by rewrite Ascii.eqb_refl|]. by rewrite IH, orb_true_r.
Qed.

(** A build survives its header: whatever the version text, the build
    printed after the last plus sign of [version+build] is the build parsed. *)
Theorem version_header_roundtrip version build :
  0 <= build -> parse_client_build (Some (version ++ "+" ++ Z_to_string build)%string) = Some build.
Proof.
  intros Hb. unfold parse_client_build. destruct (strip_version version build Hb) as [v ->].
  change ("+" ++ Z_to_string build)%string with (String "+" (Z_to_string build)).
  rewrite contains_char_app. destruct (split_after "+" v (Z_to_string build)) as [_ ->].
  rewrite split_on_without by (eapply Forall_impl; [by apply digits_pretty|]; apply digit_not_plus).
  assert (String.eqb (v ++ String "+" (Z_to_string build)) "" = false) as -> by (by destruct v).
  by apply nonnegative_int_pretty.
Qed.

Lemma version_header_roundtrip_witness :
  parse_client_build (Some " 1.0.12+beta+2041") = Some 2041.
Proof. exact (version_header_roundtrip " 1.0.12+beta" 2041 ltac:(lia)). Defined.

(** ** The decision *)

(** The table of floors holds well-formed platforms and builds. *)
Definition floors_ok (floors : gmap string Z) : Prop :=
  map_Forall (fun k b => platform_build_ok {| platform := k; minimum_supported_build := b |} = true)
    floors.

(** The floor test on the headers of a request. *)
Definition request_below_floor (floors : gmap string Z) (headers : list (string * string)) : bool :=
  below_floor floors (_headers_get headers "X-App-Platform")
    (presented_build None (_headers_get headers "X-App-Build") (_headers_get headers "X-App-Version")).

Definition request_mutates (method : string) (mutating : option bool) : bool :=
  match mutating with Some b => b | None => bool_decide (py_upper method ∈ _MUTATING_METHODS) end.

Lemma projection_ok floors :
  floors_ok floors -> exists bs, minimum_builds_projection floors None = Ok bs.
Proof.
  intros Hf. unfold minimum_builds_projection, merged_builds. simpl.
  rewrite (proj2 (forallb_forall _ _)); [eauto|].
  intros b (kv & <- & Hin)%in_map_iff. apply list_elem_of_In in Hin.
  rewrite (merge_sort_Permutation by_platform) in Hin. destruct kv as [k v].
  apply elem_of_map_to_list in Hin. by apply Hf.
Qed.

(** The projection of a well-formed record is never refused. *)
Lemma control_built floors r platform build xb xv :
  floors_ok floors -> record_ok r = true ->
  exists c, build_account_cutover_control floors r platform build xb xv None = Ok c /\
    ctl_client_action c = resolve_client_action floors r platform (presented_build build xb xv) None /\
    ctl_offline_queue_instruction c = projected_offline r /\
    ctl_stranded_new_data c = stranded_new_data r /\
    ctl_legacy_writes_allowed c = legacy_writes_allowed_for_state (state r) &&
      bool_decide (ctl_client_action c = action_none) /\
    ctl_product_traffic_allowed c = product_traffic_allowed r (ctl_client_action c).
Proof.
  intros Hf Hr. destruct (projection_ok floors Hf) as [bs Hbs].
  unfold build_account_cutover_control. rewrite Hbs. simpl.
  match goal with |- context [control_ok ?c] => assert (control_ok c = true) as -> end; [|eauto 10].
  unfold record_ok in Hr. rewrite !andb_true_iff in Hr.
  unfold control_ok, DEFAULT_UI_GENERATION, DEFAULT_API_GENERATION. simpl. rewrite !andb_true_iff.
  case_bool_decide; intuition.
Qed.

(** The admission rule, written from its parts: the account is on the legacy
    plane, the client is not below its floor, and a mutation carries the
    account's generation once there is one. *)
Definition admissible (floors : gmap string Z) (r : AccountCutoverRecord) (mutates : bool)
    (headers : list (string * string)) : bool :=
  legacy_writes_allowed_for_state (state r) && negb (request_below_floor floors headers) &&
  (negb mutates || (account_generation r =? 0) ||
   bool_decide (parse_account_generation_header headers = Some (account_generation r))).

Lemma below_floor_request floors headers :
  below_floor floors (nonempty (normal_platform (or_empty (_headers_get headers "X-App-Platform"))))
    (presented_build (match parse_client_build (_headers_get headers "X-App-Build") with
                      | Some b => Some b
                      | None => parse_client_build (_headers_get headers "X-App-Version")
                      end) None None) = request_below_floor floors headers.
Proof.
  unfold request_below_floor, below_floor. rewrite normal_platform_request.
  unfold presented_build. simpl. by repeat case_match; simplify_eq.
Qed.

(** The generation check of a request. *)
Lemma generation_check (m : bool) gen (g : option Z) :
  0 <= gen ->
  negb (m && (0 <? gen) && (bool_decide (g = None) || negb (bool_decide (g = Some gen)))) =
  negb m || (gen =? 0) || bool_decide (g = Some gen).
Proof.
  intros Hg. destruct m; simpl; [|done].
  destruct (Z.ltb_spec 0 gen), (Z.eqb_spec gen 0); try lia; simpl; try done.
  destruct g as [k|]; simpl; [|done].
  destruct (decide (Some k = Some gen)) as [He|He]; [by rewrite bool_decide_eq_true_2 by done|].
  by rewrite bool_decide_eq_false_2 by done.
Qed.

Lemma resolved_action floors r headers :
  resolve_client_action floors r
    (nonempty (normal_platform (or_empty (_headers_get headers "X-App-Platform"))))
    (presented_build (match parse_client_build (_headers_get headers "X-App-Build") with
                      | Some b => Some b
                      | None => parse_client_build (_headers_get headers "X-App-Version")
                      end) None None) None =
  if request_below_floor floors headers then force_upgrade
  else if legacy_writes_allowed_for_state (state r) then action_none else migration_maintenance.
Proof.
  unfold resolve_client_action, action_floors. cbn [default foldl]. rewrite below_floor_request.
  destruct (request_below_floor floors headers); [done|]. by destruct (state r).
Qed.

Lemma decide_access_exact floors r method headers mutating :
  floors_ok floors -> record_ok r = true ->
  is_ok (decide_access floors r method headers mutating) =
    admissible floors r (request_mutates method mutating) headers.
Proof.
  intros Hf Hr. assert (0 <= account_generation r) as Hg.
  { unfold record_ok in Hr. by to_prop. }
  unfold decide_access, admissible. cbn zeta. fold (request_mutates method mutating).
  rewrite <- (generation_check _ _ _ Hg).
  match goal with |- context [if ?b then Raise (Denied (_deny_generation_mismatch _ _)) else _] =>
    destruct b end; simpl; [by rewrite andb_false_r|]. rewrite andb_true_r.
  edestruct (control_built floors r) as (c & -> & Hact & _); [done|done|].
  rewrite resolved_action in Hact. rewrite Hact.
  destruct (request_below_floor floors headers); simpl.
  - rewrite andb_false_r. by destruct (_ && _).
  - rewrite andb_true_r. destruct (state r); simpl; try done. by destruct (_ =? _).
Qed.

(** The code of a denial, from the first rule the request breaks. *)
Lemma decide_access_code floors r method headers mutating e :
  floors_ok floors -> record_ok r = true ->
  decide_access floors r method headers mutating = Raise e ->
  exists d, e = Denied d /\ denial_code d =
    if negb (negb (request_mutates method mutating) || (account_generation r =? 0) ||
             bool_decide (parse_account_generation_header headers = Some (account_generation r)))
    then "account_generation_mismatch"
    else if request_below_floor floors headers then "force_upgrade_required"
    else "migration_maintenance".
Proof.
  intros Hf Hr Hd. assert (0 <= account_generation r) as Hg.
  { unfold record_ok in Hr. by to_prop. }
  rewrite <- (generation_check _ _ _ Hg), negb_involutive.
  unfold decide_access in Hd. cbn zeta in Hd. fold (request_mutates method mutating) in Hd.
  match type of Hd with context [if ?b then Raise (Denied (_deny_generation_mismatch _ _)) else _] =>
    destruct b end; simpl in Hd |- *; [injection Hd as <-; eauto|].
  edestruct (control_built floors r) as (c & Hc & Hact & _); [done|done|].
  rewrite Hc in Hd. rewrite resolved_action in Hact. rewrite Hact in Hd.
  destruct (request_below_floor floors headers); simpl in Hd.
  - destruct (_ && _); injection Hd as <-; eauto.
  - destruct (state r); simpl in Hd; repeat case_match; try discriminate; injection Hd as <-; eauto.
Qed.

Lemma fence_for_request r header :
  record_ok r = true ->
  fence_allowed (evaluate_write_fence r header) || ((account_generation r =? 0) && legacy_writes_allowed_for_state (state r)) =
    legacy_writes_allowed_for_state (state r) &&
    ((account_generation r =? 0) || bool_decide (header = Some (account_generation r))).
Proof.
  intros Hr. assert (0 <= account_generation r) as Hg by (unfold record_ok in Hr; by to_prop).
  unfold evaluate_write_fence. destruct (legacy_writes_allowed_for_state (state r)); [simpl|by rewrite andb_false_r].
  destruct (Z.eqb_spec (account_generation r) 0) as [->|Hne]; [by rewrite orb_true_r|].
  rewrite orb_false_r, (proj2 (Z.ltb_lt 0 (account_generation r))) by lia. simpl.
  destruct header as [k|]; simpl; [|done].
  destruct (Z.eqb_spec k (account_generation r)) as [->|Hk].
  - by rewrite bool_decide_eq_true_2.
  - rewrite bool_decide_eq_false_2; [done|congruence].
Qed.

Section Boundary.
Context `{RecordCodec}.
Context (floors : gmap string Z) (env : option string).

(** An enforced request on a product path to a readable account. *)
Lemma evaluate_enforced db u r method path headers mutating :
  cutover_enforcement_enabled env = true -> is_cutover_control_path path = false ->
  get_account_cutover_record db u = Ok r ->
  evaluate_account_cutover_access floors env db u method path headers false mutating =
    decide_access floors r method headers mutating.
Proof. intros He Hp Hr. unfold evaluate_account_cutover_access. by rewrite He, Hp, Hr. Qed.

(** C28: with enforcement on, a product request to a readable account is
    admitted exactly when its client is not below the build floor and, for a
    read, the account is on the legacy plane; for a mutation, the write fence
    of the account admits the generation the request carries, or the account is
    on the legacy plane at generation zero, where the carried generation is not
    compared. *)
Theorem admission_matches_write_fence db u r method path headers mutating :
  cutover_enforcement_enabled env = true -> is_cutover_control_path path = false ->
  floors_ok floors -> get_account_cutover_record db u = Ok r ->
  is_ok (evaluate_account_cutover_access floors env db u method path headers false mutating) =
    negb (request_below_floor floors headers) &&
    (if request_mutates method mutating
     then fence_allowed (evaluate_write_fence r (parse_account_generation_header headers)) ||
          ((account_generation r =? 0) && legacy_writes_allowed_for_state (state r))
     else legacy_writes_allowed_for_state (state r)).
Proof.
  intros He Hp Hf Hr. pose proof (get_ok _ _ _ Hr) as (Hok & _).
  rewrite (evaluate_enforced db u r) by done. rewrite decide_access_exact by done.
  rewrite fence_for_request by done. unfold admissible.
  destruct (request_mutates method mutating), (legacy_writes_allowed_for_state (state r)),
    (request_below_floor floors headers), (account_generation r =? 0), (bool_decide _);
    simpl; done.
Qed.

(** The two guards part at generation zero: a mutation that carries another
    generation is admitted, and the fence asked with that generation refuses
    the write. *)
Lemma generation_zero_guards_differ db u r method path headers k :
  cutover_enforcement_enabled env = true -> is_cutover_control_path path = false ->
  floors_ok floors -> get_account_cutover_record db u = Ok r ->
  legacy_writes_allowed_for_state (state r) = true -> account_generation r = 0 ->
  parse_account_generation_header headers = Some k -> k <> 0 ->
  request_below_floor floors headers = false ->
  is_ok (evaluate_account_cutover_access floors env db u method path headers false (Some true)) = true /\
  fence_allowed (evaluate_write_fence r (Some k)) = false.
Proof.
  intros He Hp Hf Hr Hl Hg Hk Hne Hb. split.
  - pose proof (get_ok _ _ _ Hr) as (Hok & _).
    rewrite (evaluate_enforced db u r), decide_access_exact by done.
    unfold admissible. by rewrite Hl, Hb, Hg.
  - unfold evaluate_write_fence. rewrite Hl, Hg. simpl. by rewrite (proj2 (Z.eqb_neq k 0)).
Qed.

(** A refused request says why, by the first rule it breaks: the
    generation (403), the build floor (426) or the migration (403); a WebSocket
    is closed with 4006 and the same code.  The code [legacy_plane_closed]
    is never produced. *)
Theorem denial_is_classified db u r method path headers :
  cutover_enforcement_enabled env = true -> is_cutover_control_path path = false ->
  floors_ok floors -> get_account_cutover_record db u = Ok r ->
  let carries := (account_generation r =? 0) ||
    bool_decide (parse_account_generation_header headers = Some (account_generation r)) in
  let code (mutates : bool) :=
    (if mutates && negb carries then "account_generation_mismatch"
     else if request_below_floor floors headers then "force_upgrade_required"
     else "migration_maintenance")%string in
  (enforce_account_cutover_http_access floors env db u method path headers = Ok tt \/
   exists detail, enforce_account_cutover_http_access floors env db u method path headers =
     Raise (HTTPException (http_status (code (request_mutates method None))) detail)) /\
  (enforce_account_cutover_ws_access floors env db u path headers = Ok tt \/
   enforce_account_cutover_ws_access floors env db u path headers =
     Raise (WebSocketException 4006 (code true))).
Proof.
  intros He Hp Hf Hr carries code. pose proof (get_ok _ _ _ Hr) as (Hok & _).
  unfold enforce_account_cutover_http_access, enforce_account_cutover_ws_access.
  rewrite !(evaluate_enforced db u r) by done. split.
  - destruct (decide_access floors r method headers None) as [[]|e] eqn:Hd; [by left|right].
    apply decide_access_code in Hd as (d & -> & Hc); [|done|done].
    exists (denial_detail d). rewrite Hc. unfold code, carries.
    rewrite !negb_orb, negb_involutive, <- andb_assoc. done.
  - destruct (decide_access floors r "GET" headers (Some true)) as [[]|e] eqn:Hd; [by left|right].
    apply decide_access_code in Hd as (d & -> & Hc); [|done|done].
    rewrite Hc. unfold code, carries. rewrite !negb_orb. done.
Qed.

(** Unreadable cutover state fails closed everywhere: with enforcement on,
    product requests get 503 (retryable), WebSockets 4006, queued work is
    skipped, and the control endpoint answers 503 too. *)
Theorem unreadable_state_fails_closed db u d e method path headers p b v :
  cutover_enforcement_enabled env = true -> is_cutover_control_path path = false ->
  db !! u = Some d -> _parse_bound_record u d = Raise e ->
  enforce_account_cutover_http_access floors env db u method path headers =
    Raise (HTTPException 503
      [("code", PStr "account_cutover_state_unavailable"); ("retryable", PBool true)]) /\
  enforce_account_cutover_ws_access floors env db u path headers =
    Raise (WebSocketException 4006 "account_cutover_state_unavailable") /\
  should_skip_background_account_mutation env db u = Ok true /\
  get_account_cutover_control floors db u p b v =
    Raise (HTTPException 503
      [("code", PStr "account_cutover_state_unavailable"); ("retryable", PBool true)]).
Proof.
  intros He Hp Hd Hx.
  assert (exists t, get_account_cutover_record db u = Raise (MalformedDocError t)) as [t Hg].
  { unfold get_account_cutover_record, _parse_bound_record in *. rewrite Hd.
    destruct (model_validate d); [|eauto]. destruct (String.eqb _ _); [discriminate|eauto]. }
  unfold enforce_account_cutover_http_access, enforce_account_cutover_ws_access,
    evaluate_account_cutover_access, should_skip_background_account_mutation,
    get_account_cutover_control.
  by rewrite He, Hp, Hg.
Qed.

(** The projection and the gate agree: for the same headers, the control
    endpoint tells a client that product traffic is allowed exactly when its
    reads are admitted, and then also that legacy writes are. *)
Theorem control_agrees_with_admission db u r path headers :
  cutover_enforcement_enabled env = true -> is_cutover_control_path path = false ->
  floors_ok floors -> get_account_cutover_record db u = Ok r ->
  exists c,
    get_account_cutover_control floors db u (_headers_get headers "X-App-Platform")
      (_headers_get headers "X-App-Build") (_headers_get headers "X-App-Version") = Ok c /\
    ctl_product_traffic_allowed c =
      is_ok (enforce_account_cutover_http_access floors env db u "GET" path headers) /\
    ctl_legacy_writes_allowed c = ctl_product_traffic_allowed c.
Proof.
  intros He Hp Hf Hr. pose proof (get_ok _ _ _ Hr) as (Hok & _).
  edestruct (control_built floors r) as (c & Hc & Hact & _ & _ & Hw & Ht); [done|done|].
  exists c. unfold get_account_cutover_control. rewrite Hr, Hc. split; [done|].
  assert (is_ok (enforce_account_cutover_http_access floors env db u "GET" path headers) =
    negb (request_below_floor floors headers) && legacy_writes_allowed_for_state (state r)) as ->.
  { unfold enforce_account_cutover_http_access. rewrite (evaluate_enforced db u r) by done.
    pose proof (decide_access_exact floors r "GET" headers None Hf Hok) as Hd.
    unfold admissible in Hd. simpl in Hd. rewrite andb_true_r, andb_comm in Hd. rewrite <- Hd.
    destruct (decide_access floors r "GET" headers None) as [|[|]]; done. }
  rewrite Hw, Ht. unfold resolve_client_action, action_floors in Hact. cbn [default foldl] in Hact.
  fold (request_below_floor floors headers) in Hact. rewrite Hact.
  destruct (request_below_floor floors headers); simpl; [by rewrite andb_false_r|].
  unfold product_traffic_allowed. destruct (state r); split; reflexivity.
Qed.

End Boundary.

(** As shipped (all floors zero), an account that never migrated is left
    alone even with enforcement on: every request on every path is admitted
    over HTTP and WebSocket, and its queued work runs. *)
Theorem legacy_accounts_undisturbed `{RecordCodec} env db u r method path headers :
  get_account_cutover_record db u = Ok r -> state r = legacy -> account_generation r = 0 ->
  enforce_account_cutover_http_access MINIMUM_SUPPORTED_BUILDS env db u method path headers = Ok tt /\
  enforce_account_cutover_ws_access MINIMUM_SUPPORTED_BUILDS env db u path headers = Ok tt /\
  should_skip_background_account_mutation env db u = Ok false.
Proof.
  intros Hr Hs Hg. pose proof (get_ok _ _ _ Hr) as (Hok & _).
  assert (floors_ok MINIMUM_SUPPORTED_BUILDS) as Hf by (unfold floors_ok; decided).
  assert (request_below_floor MINIMUM_SUPPORTED_BUILDS headers = false) as Hb.
  { unfold request_below_floor, below_floor. destruct (nonempty _) as [k|]; [|done].
    destruct (MINIMUM_SUPPORTED_BUILDS !! k) as [z|] eqn:Hk; [|done].
    assert (map_Forall (fun _ b => b = 0) MINIMUM_SUPPORTED_BUILDS) as Hz by decided.
    by rewrite (Hz k z Hk). }
  assert (forall m b, evaluate_account_cutover_access MINIMUM_SUPPORTED_BUILDS env db u m path
            headers false b = Ok tt) as Hev.
  { intros m b. unfold evaluate_account_cutover_access. rewrite Hr.
    destruct (negb false && _); [done|]. destruct (is_cutover_control_path path); [done|].
    pose proof (decide_access_exact MINIMUM_SUPPORTED_BUILDS r m headers b Hf Hok) as Hd.
    unfold admissible in Hd. rewrite Hs, Hb, Hg in Hd. simpl in Hd. rewrite orb_true_r in Hd.
    by destruct (decide_access _ _ _ _ _) as [[]|]. }
  unfold enforce_account_cutover_http_access, enforce_account_cutover_ws_access,
    should_skip_background_account_mutation, background_job_should_skip_account.
  rewrite !Hev, Hr, Hs. split_and!; [done|done|]. by destruct (negb _).
Qed.

(** Draining a rolled-back account never reaches a client: the operation
    records the instruction, and the projection of that very record still says
    quarantine. *)
Theorem stranded_drain_is_not_shown r fresh floors platform build xb xv :
  record_ok r = true -> state r = rolled_back_stranded -> token_ok (drawn_token fresh) = true ->
  offline_queue_instruction r <> drain -> floors_ok floors ->
  exists next c, prepare_offline_drain fresh r = Ok (Persist next false) /\
    offline_queue_instruction next = drain /\
    build_account_cutover_control floors next platform build xb xv None = Ok c /\
    ctl_offline_queue_instruction c = quarantine.
Proof.
  intros Hr Hs Ht Hi Hf. unfold prepare_offline_drain. rewrite Hs. simpl.
  rewrite bool_decide_eq_false_2 by done. simpl.
  unfold _rebuild_record, validated.
  match goal with |- context [record_ok ?n] => set (next := n) end.
  assert (record_ok next = true) as Hok.
  { unfold record_ok in *. subst next. cbn. rewrite !andb_true_iff in *. intuition. }
  rewrite Hok. simpl.
  destruct (control_built floors next platform build xb xv Hf Hok) as (c & Hc & _ & Hq & _).
  exists next, c. split_and!; [done|done|done|]. rewrite Hq. unfold projected_offline, next.
  cbn [state offline_queue_instruction]. by rewrite ?Hs.
Qed.

(** The decision label of a denied request is always [other]: none of the
    denial codes belongs to the closed set of decisions the metric knows. *)
Theorem denied_decision_label_is_other st action code :
  code ∈ ["account_generation_mismatch"; "force_upgrade_required"; "migration_maintenance";
          "account_cutover_state_unavailable"; "legacy_plane_closed"] ->
  (record_cutover_access_decision st code action).1.2 = "other".
Proof.
  intros Hc. assert (Forall (fun c => _bounded c _KNOWN_ACCESS_DECISIONS "other" = "other")
    ["account_generation_mismatch"; "force_upgrade_required"; "migration_maintenance";
     "account_cutover_state_unavailable"; "legacy_plane_closed"]) as Hall by decided.
  rewrite Forall_forall in Hall. exact (Hall code Hc).
Qed.

(** ** The guarantees apply *)

(** A rolled-back account, a mutation that carries its generation, and floors
    that an operator has raised. *)
Definition demo_headers : list (string * string) :=
  [("x-account-generation", " 1 "); ("X-App-Platform", "iOS "); ("X-App-Version", "1.0.12+2041")].

Definition raised_floors : gmap string Z := <["ios" := 2000]> MINIMUM_SUPPORTED_BUILDS.

Lemma raised_floors_ok : floors_ok raised_floors.
Proof. unfold floors_ok. decided. Qed.

Definition get_stranded := get_put_record example_stranded eq_refl.

Lemma admission_matches_write_fence_witness :
  is_ok (evaluate_account_cutover_access raised_floors (Some "on") (put_record example_stranded) "u1"
           "post" "/v1/conversations" demo_headers false None) = true.
Proof.
  exact (admission_matches_write_fence raised_floors (Some "on") (put_record example_stranded) "u1"
           example_stranded "post" "/v1/conversations" demo_headers None eq_refl eq_refl
           raised_floors_ok get_stranded).
Defined.

Lemma denial_is_classified_witness :
  (enforce_account_cutover_http_access raised_floors (Some "on") (put_record example_stranded) "u1"
     "POST" "/v1/conversations" [] = Ok tt \/
   exists detail, enforce_account_cutover_http_access raised_floors (Some "on")
     (put_record example_stranded) "u1" "POST" "/v1/conversations" [] =
     Raise (HTTPException 403 detail)) /\
  (enforce_account_cutover_ws_access raised_floors (Some "on") (put_record example_stranded) "u1"
     "/v1/conversations" [] = Ok tt \/
   enforce_account_cutover_ws_access raised_floors (Some "on") (put_record example_stranded) "u1"
     "/v1/conversations" [] = Raise (WebSocketException 4006 "account_generation_mismatch")).
Proof.
  exact (denial_is_classified raised_floors (Some "on") (put_record example_stranded) "u1"
           example_stranded "POST" "/v1/conversations" [] eq_refl eq_refl raised_floors_ok
           get_stranded).
Defined.

Lemma unreadable_state_fails_closed_witness :
  enforce_account_cutover_http_access raised_floors (Some "1") torn_db "u2" "GET" "/v1/conversations" [] =
    Raise (HTTPException 503
      [("code", PStr "account_cutover_state_unavailable"); ("retryable", PBool true)]) /\
  enforce_account_cutover_ws_access raised_floors (Some "1") torn_db "u2" "/v1/conversations" [] =
    Raise (WebSocketException 4006 "account_cutover_state_unavailable") /\
  should_skip_background_account_mutation (Some "1") torn_db "u2" = Ok true /\
  get_account_cutover_control raised_floors torn_db "u2" None None None =
    Raise (HTTPException 503
      [("code", PStr "account_cutover_state_unavailable"); ("retryable", PBool true)]).
Proof.
  exact (unreadable_state_fails_closed raised_floors (Some "1") torn_db "u2" ∅
           (MalformedDocError "validation_error") "GET" "/v1/conversations" [] None None None
           eq_refl eq_refl eq_refl eq_refl).
Defined.

Lemma control_agrees_with_admission_witness :
  exists c,
    get_account_cutover_control raised_floors (put_record example_stranded) "u1"
      (Some "iOS ") None (Some "1.0.12+2041") = Ok c /\
    ctl_product_traffic_allowed c =
      is_ok (enforce_account_cutover_http_access raised_floors (Some "on")
               (put_record example_stranded) "u1" "GET" "/v1/conversations" demo_headers) /\
    ctl_legacy_writes_allowed c = ctl_product_traffic_allowed c.
Proof.
  exact (control_agrees_with_admission raised_floors (Some "on") (put_record example_stranded) "u1"
           example_stranded "/v1/conversations" demo_headers eq_refl eq_refl raised_floors_ok
           get_stranded).
Defined.

Lemma legacy_accounts_undisturbed_witness :
  enforce_account_cutover_http_access MINIMUM_SUPPORTED_BUILDS (Some "on") ∅ "u1" "DELETE"
      "/v1/conversations" demo_headers = Ok tt /\
  enforce_account_cutover_ws_access MINIMUM_SUPPORTED_BUILDS (Some "on") ∅ "u1"
      "/v1/conversations" demo_headers = Ok tt /\
  should_skip_background_account_mutation (Some "on") ∅ "u1" = Ok false.
Proof.
  exact (legacy_accounts_undisturbed (Some "on") ∅ "u1" demo_legacy "DELETE" "/v1/conversations"
           demo_headers eq_refl eq_refl eq_refl).
Defined.

Lemma stranded_drain_is_not_shown_witness :
  exists next c, prepare_offline_drain (demo_draw "t8") example_stranded = Ok (Persist next false) /\
    offline_queue_instruction next = drain /\
    build_account_cutover_control raised_floors next (Some "ios") (Some 2041) None None None = Ok c /\
    ctl_offline_queue_instruction c = quarantine.
Proof.
  exact (stranded_drain_is_not_shown example_stranded (demo_draw "t8") raised_floors (Some "ios")
           (Some 2041) None None eq_refl eq_refl eq_refl ltac:(discriminate) raised_floors_ok).
Defined.

Lemma denied_decision_label_is_other_witness :
  (record_cutover_access_decision "migrating" "migration_maintenance" "migration_maintenance").1.2
    = "other".
Proof. exact (denied_decision_label_is_other _ _ "migration_maintenance" ltac:(decided)). Defined.
