(* ===== verification/CircuitBreakers.v ===== *)
(** The four process-local circuit breakers: for speech-to-text providers
    ([utils/stt/provider_resilience.py]), for the language-model gateway
    ([utils/llm/gateway_resilience.py]), for the pusher connection
    ([utils/pusher.py]) and for webhook targets ([utils/http_client.py]).

    Each is a record of the object's fields and one function per method; a
    method that reads the clock takes the reading as [now].  Clock readings and
    durations are integers of microseconds.  Every method runs under the
    object's lock, or without an [await], so a history is a sequence of calls. *)
From S2P Require Export PyValue.

Definition micros (n : Z) : Z := n * 1000000.

(** The three states of a breaker. *)
Inductive circuit_state : Type := Closed | Open | HalfOpen.

#[export] Instance circuit_state_eq_dec : EqDecision circuit_state.
Proof. solve_decision. Defined.

(** ** Speech-to-text providers *)
Module Provider.

Record config : Type := {
  failure_threshold : Z;
  cooldown : Z;
  serve_error_cooldown : Z;
  serve_error_successes_to_close : Z;
}.

Record breaker : Type := {
  failures : Z;
  opened_at : Z;
  state : circuit_state;
  probes_in_flight : Z;
  opened_by_serve_error : bool;
  remaining_successes_to_close : Z;
  account_cooldown : option Z;
  generation : Z;
}.

(** [__init__]: the checked configuration and the initial fields. *)
Definition make_config (threshold cool : Z) (serve_cool : option Z) (successes : Z)
    : result pyexc config :=
  if threshold <? 1 then Raise (ValueError "failure_threshold must be >= 1")
  else if cool <=? 0 then Raise (ValueError "cooldown_seconds must be > 0")
  else if successes <? 1 then Raise (ValueError "serve_error_successes_to_close must be >= 1")
  else
    let serve := match serve_cool with None => micros 180 | Some c => c end in
    if serve <=? 0 then Raise (ValueError "serve_error_cooldown_seconds must be > 0")
    else Ok {| failure_threshold := threshold; cooldown := cool; serve_error_cooldown := serve;
               serve_error_successes_to_close := successes |}.

Definition initial : breaker :=
  {| failures := 0; opened_at := 0; state := Closed; probes_in_flight := 0;
     opened_by_serve_error := false; remaining_successes_to_close := 1;
     account_cooldown := None; generation := 0 |}.

Section Methods.
Context (cfg : config).

Definition _active_cooldown (b : breaker) : Z :=
  match account_cooldown b with
  | Some c => c
  | None => if opened_by_serve_error b then serve_error_cooldown cfg else cooldown cfg
  end.

Definition cooldown_elapsed (b : breaker) (now : Z) : bool :=
  if negb (bool_decide (state b = Open)) then true
  else _active_cooldown b <=? now - opened_at b.

Definition claim_probe (b : breaker) (s : circuit_state) (probes : Z) : breaker :=
  {| failures := failures b; opened_at := opened_at b; state := s; probes_in_flight := probes;
     opened_by_serve_error := opened_by_serve_error b;
     remaining_successes_to_close := remaining_successes_to_close b;
     account_cooldown := account_cooldown b; generation := generation b |}.

(** [allow_request(max_probes=, force=)] *)
Definition allow_request (b : breaker) (now max_probes : Z) (force : bool) : breaker * bool :=
  let limit := match account_cooldown b with Some _ => 1 | None => Z.max 1 max_probes end in
  let probe b := if limit <=? probes_in_flight b then (b, false)
                 else (claim_probe b HalfOpen (probes_in_flight b + 1), true) in
  match state b with
  | Closed => (b, true)
  | Open =>
      let since := now - opened_at b in
      if match account_cooldown b with Some c => since <? c | None => false end then (b, false)
      else if negb force && (since <? _active_cooldown b) then (b, false)
      else probe (claim_probe b HalfOpen 0)
  | HalfOpen => probe b
  end.

Definition closed (b : breaker) (probes : Z) : breaker :=
  {| failures := 0; opened_at := opened_at b; state := Closed; probes_in_flight := probes;
     opened_by_serve_error := false; remaining_successes_to_close := 1;
     account_cooldown := None; generation := generation b |}.

Definition record_success (b : breaker) (respect_open : bool) : breaker :=
  if respect_open && bool_decide (state b = Open) then b
  else
    let probes := Z.max 0 (probes_in_flight b - 1) in
    if opened_by_serve_error b && (1 <? remaining_successes_to_close b) then
      {| failures := failures b; opened_at := opened_at b; state := state b;
         probes_in_flight := probes; opened_by_serve_error := true;
         remaining_successes_to_close := remaining_successes_to_close b - 1;
         account_cooldown := account_cooldown b; generation := generation b |}
    else closed b probes.

(** The circuit opens (again) at [now]. *)
Definition opened (b : breaker) (n now : Z) (by_serve : bool) (remaining : Z) (account : option Z)
    : breaker :=
  {| failures := n; opened_at := now; state := Open; probes_in_flight := 0;
     opened_by_serve_error := by_serve; remaining_successes_to_close := remaining;
     account_cooldown := account; generation := generation b + 1 |}.

Definition record_failure (b : breaker) (now : Z) : breaker :=
  match state b with
  | HalfOpen =>
      opened b (failures b) now (opened_by_serve_error b)
        (if opened_by_serve_error b then serve_error_successes_to_close cfg
         else remaining_successes_to_close b) (account_cooldown b)
  | _ =>
      let n := failures b + 1 in
      if failure_threshold cfg <=? n then opened b n now false 1 (account_cooldown b)
      else {| failures := n; opened_at := opened_at b; state := state b; probes_in_flight := 0;
              opened_by_serve_error := opened_by_serve_error b;
              remaining_successes_to_close := remaining_successes_to_close b;
              account_cooldown := account_cooldown b; generation := generation b |}
  end.

Definition record_serve_failure (b : breaker) (now : Z) : breaker :=
  opened b (failures b) now true (serve_error_successes_to_close cfg) (account_cooldown b).

Definition EXPECTED_REJECTIONS : list string := ["capacity_full"; "allocation_rejected"].

Definition record_rejection (b : breaker) (reason : string) (now : Z) : breaker :=
  if bool_decide (reason ∈ EXPECTED_REJECTIONS) then record_success b false else record_failure b now.

Definition release_probe (b : breaker) : breaker :=
  claim_probe b (state b) (Z.max 0 (probes_in_flight b - 1)).

Definition record_account_failure (b : breaker) (now cooldown_seconds : Z) : breaker :=
  opened b (failures b) now false 1 (Some (Z.max (micros 1) cooldown_seconds)).

(** The closure of [deferred_result_callbacks]: what it captured, and whether it
    already settled. *)
Record deferred : Type := { d_generation : Z; d_probe : bool; d_settled : bool }.

Definition deferred_result_callbacks (b : breaker) : deferred :=
  {| d_generation := generation b; d_probe := bool_decide (state b = HalfOpen); d_settled := false |}.

Definition settle (b : breaker) (d : deferred) (success : bool) : breaker * deferred :=
  if d_settled d then (b, d)
  else
    let d' := {| d_generation := d_generation d; d_probe := d_probe d; d_settled := true |} in
    if negb (d_generation d =? generation b) then (b, d')
    else if success && (d_probe d || bool_decide (state b = Closed)) then (record_success b true, d')
    else if d_probe d then (release_probe b, d')
    else (b, d').

End Methods.
End Provider.

(** ** The language-model gateway *)
Module Gateway.

Record breaker : Type := { consecutive_failures : Z; open_until : Z }.

Definition initial : breaker := {| consecutive_failures := 0; open_until := 0 |}.

Definition allow_request (b : breaker) (now : Z) : breaker * bool :=
  if open_until b <=? now then
    (if open_until b =? 0 then b else initial, true)
  else (b, false).

Definition record_transport_success (b : breaker) : breaker := initial.

Definition record_transport_failure (threshold cooldown : Z) (b : breaker) (now : Z) : breaker :=
  let n := consecutive_failures b + 1 in
  if n <? threshold then {| consecutive_failures := n; open_until := open_until b |}
  else {| consecutive_failures := n; open_until := now + cooldown |}.

(** [_positive_int(env_var, default)] *)
Definition _positive_int (env : option string) (dflt : Z) : Z :=
  let raw := py_strip (default "" env) in
  if String.eqb raw "" then dflt
  else match parse_int raw with
       | None => dflt
       | Some v => if 0 <? v then v else dflt
       end.

End Gateway.

(** ** The pusher connection *)
Module Pusher.

Record config : Type := { failure_threshold : Z; failure_window : Z; cooldown : Z }.

Record breaker : Type := {
  state : circuit_state;
  failures : list Z;
  opened_at : Z;
  probe_in_progress : bool;
}.

Definition initial : breaker :=
  {| state := Closed; failures := []; opened_at := 0; probe_in_progress := false |}.

Section Methods.
Context (cfg : config).

(** The [state] property, which moves an expired open circuit to half-open. *)
Definition read_state (b : breaker) (now : Z) : breaker :=
  if bool_decide (state b = Open) && (cooldown cfg <=? now - opened_at b) then
    {| state := HalfOpen; failures := failures b; opened_at := opened_at b;
       probe_in_progress := probe_in_progress b |}
  else b.

Definition record_failure (b : breaker) (now : Z) : breaker :=
  let recent := filter (fun t => now - failure_window cfg < t) (failures b ++ [now]) in
  match state b with
  | Closed =>
      if failure_threshold cfg <=? Z.of_nat (length recent) then
        {| state := Open; failures := recent; opened_at := now;
           probe_in_progress := probe_in_progress b |}
      else {| state := Closed; failures := recent; opened_at := opened_at b;
              probe_in_progress := probe_in_progress b |}
  | HalfOpen => {| state := Open; failures := recent; opened_at := now; probe_in_progress := false |}
  | Open => {| state := Open; failures := recent; opened_at := opened_at b;
               probe_in_progress := probe_in_progress b |}
  end.

Definition record_success (b : breaker) (is_probe : bool) : breaker :=
  if negb (bool_decide (state b = Closed)) &&
     negb (is_probe && bool_decide (state b = HalfOpen)) then b
  else {| state := Closed; failures := []; opened_at := opened_at b; probe_in_progress := false |}.

Definition can_attempt (b : breaker) (now : Z) : breaker * bool :=
  let b := read_state b now in
  (b, match state b with
      | Closed => true
      | HalfOpen => negb (probe_in_progress b)
      | Open => false
      end).

Definition acquire_probe (b : breaker) (now : Z) : breaker * bool :=
  let b := read_state b now in
  if bool_decide (state b = HalfOpen) && negb (probe_in_progress b) then
    ({| state := state b; failures := failures b; opened_at := opened_at b;
        probe_in_progress := true |}, true)
  else (b, false).

(** The part of one connection attempt before its [await]: refused (the
    exception), or started, as the probe or not. *)
Definition start_attempt (b : breaker) (now : Z) : breaker * option bool :=
  let '(b1, allowed) := can_attempt b now in
  if negb allowed then (b1, None)
  else
    let b2 := read_state b1 now in
    if bool_decide (state b2 = HalfOpen) then
      let '(b3, acquired) := acquire_probe b2 now in
      (b3, if acquired then Some true else None)
    else (b2, Some false).

(** How a connection attempt ends. *)
Inductive ending : Type := Connected | Failed | Cancelled.

(** The part after the [await]. *)
Definition finish_attempt (b : breaker) (now : Z) (is_probe : bool) (e : ending) : breaker :=
  match e with
  | Connected => record_success b is_probe
  | Failed => record_failure b now
  | Cancelled => if is_probe then record_failure b now else b
  end.

End Methods.
End Pusher.

(** ** Webhook targets *)
Module Webhook.

Definition _CIRCUIT_BREAKER_FAILURE_THRESHOLD : Z := 5.
Definition _CIRCUIT_BREAKER_RECOVERY_TIMEOUT : Z := micros 30.
Definition _CIRCUIT_BREAKER_HALF_OPEN_MAX : Z := 1.
Definition _CIRCUIT_BREAKER_MAX_ENTRIES : Z := 500.
Definition _CIRCUIT_BREAKER_IDLE_TTL : Z := micros 3600.

Record breaker : Type := {
  failures : Z;
  last_failure_time : Z;
  last_access_time : Z;
  state : circuit_state;
  half_open_in_flight : Z;
}.

Definition initial (now : Z) : breaker :=
  {| failures := 0; last_failure_time := 0; last_access_time := now; state := Closed;
     half_open_in_flight := 0 |}.

Definition read_state (b : breaker) (now : Z) : breaker :=
  if bool_decide (state b = Open) &&
     (_CIRCUIT_BREAKER_RECOVERY_TIMEOUT <=? now - last_failure_time b) then
    {| failures := failures b; last_failure_time := last_failure_time b;
       last_access_time := last_access_time b; state := HalfOpen; half_open_in_flight := 0 |}
  else b.

Definition touched (b : breaker) (now probes : Z) : breaker :=
  {| failures := failures b; last_failure_time := last_failure_time b; last_access_time := now;
     state := state b; half_open_in_flight := probes |}.

Definition allow_request (b : breaker) (now : Z) : breaker * bool :=
  let b := read_state (touched b now (half_open_in_flight b)) now in
  match state b with
  | Closed => (b, true)
  | HalfOpen =>
      if half_open_in_flight b <? _CIRCUIT_BREAKER_HALF_OPEN_MAX
      then (touched b now (half_open_in_flight b + 1), true)
      else (b, false)
  | Open => (b, false)
  end.

Definition record_success (b : breaker) : breaker :=
  {| failures := 0; last_failure_time := last_failure_time b; last_access_time := last_access_time b;
     state := Closed; half_open_in_flight := 0 |}.

Definition record_failure (b : breaker) (now : Z) : breaker :=
  {| failures := failures b + 1; last_failure_time := now; last_access_time := last_access_time b;
     state := if _CIRCUIT_BREAKER_FAILURE_THRESHOLD <=? failures b + 1 then Open else state b;
     half_open_in_flight := half_open_in_flight b |}.

(** The registry, keyed by the URL without its query and fragment. *)
Definition registry_key (url : string) : string :=
  List.hd "" (split_on "#" (List.hd "" (split_on "?" url))).

Definition _evict_stale_circuit_breakers (reg : gmap string breaker) (now : Z) : gmap string breaker :=
  filter (fun kb => ~ _CIRCUIT_BREAKER_IDLE_TTL < now - last_access_time kb.2) reg.

Definition get_webhook_circuit_breaker (reg : gmap string breaker) (url : string) (now : Z)
    : gmap string breaker * breaker :=
  let key := registry_key url in
  match reg !! key with
  | Some b => (reg, b)
  | None =>
      let reg := if _CIRCUIT_BREAKER_MAX_ENTRIES <? Z.of_nat (size reg)
                 then _evict_stale_circuit_breakers reg now else reg in
      (<[key := initial now]> reg, initial now)
  end.

End Webhook.
