(* ===== verification/BreakerOps.v ===== *)
(** What the circuit breakers guarantee over histories of calls: benches are
    respected, half-open circuits admit their probes and no more, a probe slot
    that is claimed is given back, and where it is not. *)
From S2P Require Export CircuitBreakers.

(** ** Speech-to-text providers *)
Section ProviderHistories.
Import Provider.
Context (cfg : config).

(** The calls of a history; a deferred result settles as one of them. *)
Inductive call : Type :=
| Allow (max_probes : Z) (force : bool)
| Success (respect_open : bool)
| Failure
| ServeFailure
| Rejection (reason : string)
| Release
| AccountFailure (cooldown : Z).

(** One call at a clock reading; the second component is the answer of
    [allow_request]. *)
Definition perform (b : breaker) (now : Z) (c : call) : breaker * option bool :=
  match c with
  | Allow k force => let '(b', ok) := allow_request cfg b now k force in (b', Some ok)
  | Success r => (record_success b r, None)
  | Failure => (record_failure cfg b now, None)
  | ServeFailure => (record_serve_failure cfg b now, None)
  | Rejection reason => (record_rejection cfg b reason now, None)
  | Release => (release_probe b, None)
  | AccountFailure c => (record_account_failure b now c, None)
  end.

Fixpoint perform_all (b : breaker) (cs : list (Z * call)) : breaker * list bool :=
  match cs with
  | [] => (b, [])
  | (now, c) :: rest =>
      let '(b1, answer) := perform b now c in
      let '(b2, answers) := perform_all b1 rest in
      (b2, match answer with Some a => a :: answers | None => answers end)
  end.

(** Well-formed fields: a closed circuit carries nothing of its last outage. *)
Record breaker_ok (b : breaker) : Prop := {
  ok_probes : 0 <= probes_in_flight b;
  ok_failures : 0 <= failures b;
  ok_remaining : 1 <= remaining_successes_to_close b <= serve_error_successes_to_close cfg;
  ok_remaining_plain : opened_by_serve_error b = false -> remaining_successes_to_close b = 1;
  ok_account : forall c, account_cooldown b = Some c -> micros 1 <= c;
  ok_closed : state b = Closed ->
    account_cooldown b = None /\ opened_by_serve_error b = false /\ failures b < failure_threshold cfg;
}.

Definition config_ok : Prop :=
  1 <= failure_threshold cfg /\ 0 < cooldown cfg /\ 0 < serve_error_cooldown cfg /\
  1 <= serve_error_successes_to_close cfg.

Lemma initial_ok : config_ok -> breaker_ok initial.
Proof.
  intros (? & _ & _ & ?). split; simpl; try lia; try discriminate; intros; split_and!; (done || lia).
Qed.

Lemma claim_probe_ok b s n : breaker_ok b -> s <> Closed -> 0 <= n -> breaker_ok (claim_probe b s n).
Proof. intros [] ? ?. by split. Qed.

Lemma allow_request_ok b now k force b' a :
  breaker_ok b -> allow_request cfg b now k force = (b', a) -> breaker_ok b'.
Proof.
  intros Hb. pose proof (ok_probes b Hb). unfold allow_request. intros Ha.
  destruct (state b); repeat case_match; simplify_eq/=; try done;
    repeat apply claim_probe_ok; (done || lia).
Qed.

Lemma record_success_ok b r : config_ok -> breaker_ok b -> breaker_ok (record_success b r).
Proof.
  intros (? & _ & _ & ?) [H1 H2 H3 H4 H5 H6]. unfold record_success, closed.
  destruct (r && _); [done|]. destruct (opened_by_serve_error b && _) eqn:Hb.
  - to_prop. split; simpl; try done; try lia. intros Hs. destruct (H6 Hs) as (_ & ? & _). congruence.
  - split; simpl; try done; try lia. intros _. split_and!; (done || lia).
Qed.

Lemma opened_ok b n now by_serve remaining account :
  0 <= n -> 1 <= remaining <= serve_error_successes_to_close cfg ->
  (by_serve = false -> remaining = 1) -> (forall c, account = Some c -> micros 1 <= c) ->
  breaker_ok (opened b n now by_serve remaining account).
Proof. intros. split; simpl; (done || lia). Qed.

Lemma record_failure_ok b now : config_ok -> breaker_ok b -> breaker_ok (record_failure cfg b now).
Proof.
  intros (? & _ & _ & ?) [H1 H2 H3 H4 H5 H6]. unfold record_failure.
  destruct (state b) eqn:Hs.
  3:{ apply opened_ok; [done| |intros Hb; rewrite Hb; auto|done]. destruct (opened_by_serve_error b); lia. }
  all: destruct (Z.leb_spec (failure_threshold cfg) (failures b + 1));
    [apply opened_ok; (done || lia)|]; split; simpl; rewrite ?Hs; try (done || lia).
  intros _. destruct (H6 eq_refl) as (? & ? & _). auto.
Qed.

Lemma perform_ok b now c b' a :
  config_ok -> breaker_ok b -> perform b now c = (b', a) -> breaker_ok b'.
Proof.
  intros Hc Hb. destruct c; simpl; intros Hp; [|simplify_eq..].
  - destruct (allow_request cfg b now max_probes force) as [b1 ok] eqn:Ha. simplify_eq.
    by eapply allow_request_ok.
  - by apply record_success_ok.
  - by apply record_failure_ok.
  - destruct Hc as (_ & _ & _ & ?), Hb. apply opened_ok; (done || lia).
  - unfold record_rejection. case_match; [by apply record_success_ok|by apply record_failure_ok].
  - destruct Hb as [? ? ? ? ? ?]. split; simpl; (done || lia).
  - destruct Hc as (_ & _ & _ & ?), Hb. apply opened_ok; [done|lia|done|].
    intros c [= <-]. lia.
Qed.

(** Whatever calls arrive, at whatever times, a provider circuit stays
    well formed: the probe count never goes below zero, the successes still
    owed are between one and the configured number, and a closed circuit
    carries no account bench, no serve-error bench and fewer failures than the
    threshold. *)
Theorem provider_circuit_wellformed cs :
  config_ok -> breaker_ok (perform_all initial cs).1.
Proof.
  intros Hc. pose proof (initial_ok Hc) as Hb. revert Hb. generalize initial.
  induction cs as [|[now c] cs IH]; intros b Hb; simpl; [done|].
  destruct (perform b now c) as [b1 a] eqn:Hp. pose proof (perform_ok _ _ _ _ _ Hc Hb Hp) as Hb1.
  specialize (IH b1 Hb1). destruct (perform_all b1 cs) as [b2 l]. exact IH.
Qed.

(** Calls that bring no new evidence about the provider: admission without
    force, a deferred success or a released probe. *)
Definition quiet (c : call) : Prop :=
  match c with
  | Allow _ force => force = false
  | Success respect_open => respect_open = true
  | Release => True
  | _ => False
  end.

(** A bench is respected: from the moment a provider circuit opens until
    its cooldown has passed, no admission succeeds and the circuit stays open,
    whatever admissions, deferred successes and released probes arrive; an
    account bench is not even lifted by force. *)
Theorem bench_is_respected b cs :
  state b = Open ->
  Forall (fun e => e.1 < opened_at b + _active_cooldown cfg b /\
            (quiet e.2 \/ (account_cooldown b <> None /\ exists k f, e.2 = Allow k f))) cs ->
  state (perform_all b cs).1 = Open /\ Forall (eq false) (perform_all b cs).2.
Proof.
  intros Hs Hcs.
  enough (forall b', state b' = Open -> opened_at b' = opened_at b ->
            account_cooldown b' = account_cooldown b ->
            opened_by_serve_error b' = opened_by_serve_error b ->
            state (perform_all b' cs).1 = Open /\ Forall (eq false) (perform_all b' cs).2) as Hall by auto.
  clear Hs. induction Hcs as [|[now c] cs [Ht Hq] _ IH]; intros b' Hs Ho Ha Hb; simpl; [done|].
  assert (_active_cooldown cfg b' = _active_cooldown cfg b) as Hac.
  { unfold _active_cooldown. by rewrite Ha, Hb. }
  simpl in Ht, Hq. destruct c; simpl; try (destruct Hq as [[]|(_ & ? & ? & ?)]; discriminate).
  - assert (allow_request cfg b' now max_probes force = (b', false)) as ->.
    { unfold allow_request. rewrite Hs, Hac, Ho, Ha. unfold _active_cooldown in *.
      destruct (account_cooldown b) as [c|].
      - destruct (Z.ltb_spec (now - opened_at b) c); [done|lia].
      - destruct Hq as [Hq|[? _]]; [simpl in Hq; subst; simpl|done].
        destruct (Z.ltb_spec (now - opened_at b)
          (if opened_by_serve_error b then serve_error_cooldown cfg else cooldown cfg)); [done|lia]. }
    specialize (IH b' Hs Ho Ha Hb). destruct (perform_all b' cs). simpl in *.
    destruct IH. split; [done|by constructor].
  - assert (record_success b' respect_open = b') as ->.
    { destruct Hq as [Hq|(_ & ? & ? & ?)]; [simpl in Hq; subst|discriminate].
      unfold record_success. by rewrite Hs. }
    specialize (IH b' Hs Ho Ha Hb). by destruct (perform_all b' cs).
  - specialize (IH (release_probe b') Hs Ho Ha Hb). by destruct (perform_all (release_probe b') cs).
Qed.

(** Admissions only, with the same quota. *)
Definition admissions (k : Z) (times : list Z) : list (Z * call) :=
  map (fun t => (t, Allow k false)) times.

Definition probe_limit (b : breaker) (k : Z) : Z :=
  match account_cooldown b with Some _ => 1 | None => Z.max 1 k end.

Lemma half_open_admission b now k :
  state b = HalfOpen ->
  allow_request cfg b now k false =
    if probe_limit b k <=? probes_in_flight b then (b, false)
    else (claim_probe b HalfOpen (probes_in_flight b + 1), true).
Proof. intros Hs. unfold allow_request, probe_limit. by rewrite Hs. Qed.

Lemma half_open_admissions times : forall b k,
  state b = HalfOpen -> 0 <= probes_in_flight b <= probe_limit b k ->
  (perform_all b (admissions k times)).2 =
    take (length times) (replicate (Z.to_nat (probe_limit b k - probes_in_flight b)) true) ++
    replicate (length times - Z.to_nat (probe_limit b k - probes_in_flight b)) false.
Proof.
  induction times as [|t times IH]; intros b k Hs Hp; [done|].
  cbn [admissions map perform_all perform]. rewrite half_open_admission by done.
  destruct (Z.leb_spec (probe_limit b k) (probes_in_flight b)) as [Hle|Hlt].
  - specialize (IH b k Hs Hp). fold (admissions k times).
    destruct (perform_all b (admissions k times)) as [b2 l]. simpl in IH |- *. rewrite IH.
    replace (Z.to_nat (probe_limit b k - probes_in_flight b)) with 0%nat by lia. simpl.
    by rewrite take_nil, Nat.sub_0_r.
  - specialize (IH (claim_probe b HalfOpen (probes_in_flight b + 1)) k eq_refl).
    fold (admissions k times).
    destruct (perform_all (claim_probe b HalfOpen (probes_in_flight b + 1)) (admissions k times))
      as [b2 l]. simpl in IH |- *. unfold probe_limit in *. simpl in IH. rewrite IH by lia.
    replace (Z.to_nat (match account_cooldown b with Some _ => 1 | None => Z.max 1 k end
               - probes_in_flight b)) with
      (S (Z.to_nat (match account_cooldown b with Some _ => 1 | None => Z.max 1 k end
               - (probes_in_flight b + 1)))) by lia.
    done.
Qed.

(** Once the cooldown of an open circuit has passed, a burst of admissions
    lets exactly the quota of probes through (one on an account bench), first
    come first served, and refuses the rest until a probe reports. *)
Theorem half_open_admits_its_quota b k t times :
  state b = Open -> opened_at b + _active_cooldown cfg b <= t ->
  (perform_all b (admissions k (t :: times))).2 =
    take (S (length times)) (replicate (Z.to_nat (probe_limit b k)) true) ++
    replicate (S (length times) - Z.to_nat (probe_limit b k)) false.
Proof.
  intros Hs Ht.
  assert (allow_request cfg b t k false =
    allow_request cfg (claim_probe b HalfOpen 0) t k false) as Heq.
  { unfold allow_request at 1. rewrite Hs, half_open_admission by done.
    unfold _active_cooldown, probe_limit in *. simpl.
    destruct (account_cooldown b) as [c|].
    - destruct (Z.ltb_spec (t - opened_at b) c); [lia|done].
    - simpl. destruct (Z.ltb_spec (t - opened_at b)
        (if opened_by_serve_error b then serve_error_cooldown cfg else cooldown cfg)); [lia|done]. }
  assert ((perform_all b (admissions k (t :: times))).2 =
          (perform_all (claim_probe b HalfOpen 0) (admissions k (t :: times))).2) as ->.
  { cbn [admissions map perform_all perform]. by rewrite Heq. }
  rewrite half_open_admissions; [|done|].
  - unfold probe_limit. simpl. by rewrite Z.sub_0_r.
  - unfold probe_limit. simpl. destruct (account_cooldown b); lia.
Qed.

(** The successes a half-open circuit has recorded. *)
Lemma serve_successes n : forall b,
  state b = HalfOpen -> opened_by_serve_error b = true ->
  1 <= remaining_successes_to_close b ->
  state (Nat.iter n (fun b => record_success b true) b) =
    if Z.of_nat n <? remaining_successes_to_close b then HalfOpen else Closed.
Proof.
  induction n as [|n IH]; intros b Hs Hb Hr.
  - simpl. destruct (Z.ltb_spec (Z.of_nat 0) (remaining_successes_to_close b)); [done|lia].
  - rewrite Nat.iter_succ_r. unfold record_success at 2. rewrite Hs, Hb. simpl.
    destruct (Z.ltb_spec 1 (remaining_successes_to_close b)).
    + rewrite IH by (simpl; (done || lia)). simpl.
      destruct (Z.ltb_spec (Z.of_nat n) (remaining_successes_to_close b - 1)),
        (Z.ltb_spec (Z.of_nat (S n)) (remaining_successes_to_close b)); (done || lia).
    + destruct (Z.ltb_spec (Z.of_nat (S n)) (remaining_successes_to_close b)); [lia|].
      clear. assert (forall c, state c = Closed -> opened_by_serve_error c = false ->
        state (Nat.iter n (fun b => record_success b true) c) = Closed /\
        opened_by_serve_error (Nat.iter n (fun b => record_success b true) c) = false) as Hc.
      { intros c Hc1 Hc2. induction n as [|n [IH1 IH2]]; [done|]. simpl.
        unfold record_success at 1 3. by rewrite IH1, IH2. }
      by apply Hc.
Qed.

Lemma serve_successes_keep n : forall b,
  state b = HalfOpen -> opened_by_serve_error b = true ->
  Z.of_nat n < remaining_successes_to_close b ->
  opened_by_serve_error (Nat.iter n (fun b => record_success b true) b) = true /\
  account_cooldown (Nat.iter n (fun b => record_success b true) b) = account_cooldown b.
Proof.
  induction n as [|n IH]; intros b Hs Hb Hlt; [done|]. rewrite Nat.iter_succ_r.
  assert (record_success b true =
    {| failures := failures b; opened_at := opened_at b; state := HalfOpen;
       probes_in_flight := Z.max 0 (probes_in_flight b - 1); opened_by_serve_error := true;
       remaining_successes_to_close := remaining_successes_to_close b - 1;
       account_cooldown := account_cooldown b; generation := generation b |}) as ->.
  { unfold record_success. rewrite Hs, Hb. simpl.
    by destruct (Z.ltb_spec 1 (remaining_successes_to_close b)); [|lia]. }
  match goal with |- context [Nat.iter n _ ?c] =>
    destruct (IH c) as [-> ->]; simpl; [done|done|lia|done] end.
Qed.

(** A provider that died while serving is only trusted again after the
    configured number of successes in a row: once its bench has passed and a
    probe is admitted, fewer successes leave the circuit half-open, and a
    failure in between benches it again with the full number owed. *)
Theorem serve_storm_needs_successes b t0 t1 n :
  config_ok -> cooldown_elapsed cfg (record_serve_failure cfg b t0) t1 = true ->
  let probing := (allow_request cfg (record_serve_failure cfg b t0) t1 1 false).1 in
  state (Nat.iter n (fun b => record_success b true) probing) =
    (if Z.of_nat n <? serve_error_successes_to_close cfg then HalfOpen else Closed) /\
  (Z.of_nat n < serve_error_successes_to_close cfg ->
   let again := record_failure cfg (Nat.iter n (fun b => record_success b true) probing) t1 in
   state again = Open /\ opened_at again = t1 /\
   remaining_successes_to_close again = serve_error_successes_to_close cfg /\
   _active_cooldown cfg again = _active_cooldown cfg (record_serve_failure cfg b t0)).
Proof.
  intros (_ & _ & _ & Hn) He probing.
  assert (state probing = HalfOpen /\ opened_by_serve_error probing = true /\
          remaining_successes_to_close probing = serve_error_successes_to_close cfg /\
          account_cooldown probing = account_cooldown b) as (Hs & Hb & Hr & Ha).
  { subst probing. unfold cooldown_elapsed, _active_cooldown, record_serve_failure in *. simpl in *.
    apply Z.leb_le in He. unfold allow_request, _active_cooldown. simpl.
    destruct (account_cooldown b) as [c|].
    - destruct (Z.ltb_spec (t1 - t0) c); [lia|done].
    - simpl. destruct (Z.ltb_spec (t1 - t0) (serve_error_cooldown cfg)); [lia|done]. }
  pose proof (serve_successes n probing Hs Hb ltac:(lia)) as Hst. rewrite Hr in Hst.
  split; [done|]. intros Hlt again.
  rewrite (proj2 (Z.ltb_lt _ _) Hlt) in Hst.
  assert (opened_by_serve_error (Nat.iter n (fun b => record_success b true) probing) = true /\
          account_cooldown (Nat.iter n (fun b => record_success b true) probing) = account_cooldown b)
    as [Hb' Ha'].
  { rewrite <- Ha. apply serve_successes_keep; (done || lia). }
  subst again. unfold record_failure. rewrite Hst, Hb', Ha'.
  unfold record_serve_failure, _active_cooldown. by simpl.
Qed.

(** A serve-error bench can be cut short: failures counted before the
    death still count, so when one more connection attempt fails late and
    reaches the threshold, the circuit forgets that it was opened by a serve
    error, and the short bench and a single success suffice again. *)
Theorem late_failure_shortens_bench b t0 t1 :
  failure_threshold cfg <= failures b + 1 -> account_cooldown b = None ->
  let bench := record_serve_failure cfg b t0 in
  let late := record_failure cfg bench t1 in
  _active_cooldown cfg bench = serve_error_cooldown cfg /\
  remaining_successes_to_close bench = serve_error_successes_to_close cfg /\
  _active_cooldown cfg late = cooldown cfg /\ remaining_successes_to_close late = 1.
Proof.
  intros Hf Ha bench late. subst bench late.
  unfold record_serve_failure, record_failure, _active_cooldown. simpl.
  rewrite (proj2 (Z.leb_le _ _) Hf). simpl. by rewrite Ha.
Qed.

(** A deferred result counts at most once, and not at all once the circuit
    has opened again since it was handed out. *)
Theorem deferred_result_is_fenced b d success again :
  d_settled (settle b d success).2 = true /\
  settle (settle b d success).1 (settle b d success).2 again = settle b d success /\
  (d_generation d <> generation b -> (settle b d success).1 = b).
Proof.
  assert (d_settled (settle b d success).2 = true) as Hs.
  { unfold settle. repeat case_match; simpl; congruence. }
  split_and!; [done| |].
  - unfold settle at 1. rewrite Hs. by destruct (settle b d success).
  - intros Hne. unfold settle. destruct (d_settled d); [done|].
    by rewrite (proj2 (Z.eqb_neq _ _)) by done.
Qed.

End ProviderHistories.

(** ** The pusher connection *)
Section PusherHistories.
Import Pusher.
Context (cfg : config).

(** The breaker of a process and the connection attempts it has under way, each
    the probe or not. *)
Record connections : Type := { circuit : breaker; under_way : list bool }.

(** A session reads the state, starts an attempt, or ends one that is under
    way; attempts of different sessions interleave at their [await]. *)
Inductive connect_step : connections -> connections -> Prop :=
| peek s now :
    connect_step s {| circuit := (can_attempt cfg (circuit s) now).1; under_way := under_way s |}
| start s now b' is_probe :
    start_attempt cfg (circuit s) now = (b', Some is_probe) ->
    connect_step s {| circuit := b'; under_way := is_probe :: under_way s |}
| refused s now b' :
    start_attempt cfg (circuit s) now = (b', None) ->
    connect_step s {| circuit := b'; under_way := under_way s |}
| finish s now before is_probe after e :
    under_way s = before ++ is_probe :: after ->
    connect_step s {| circuit := finish_attempt cfg (circuit s) now is_probe e;
                      under_way := before ++ after |}.

Definition fresh_process (s : connections) : Prop := circuit s = initial /\ under_way s = [].

(** A claimed probe slot belongs to a probe that is under way. *)
Definition slot_owned (s : connections) : Prop :=
  probe_in_progress (circuit s) = true -> state (circuit s) = HalfOpen /\ true ∈ under_way s.

Lemma read_state_slot b now :
  probe_in_progress (read_state cfg b now) = probe_in_progress b /\
  (state b = HalfOpen -> state (read_state cfg b now) = HalfOpen).
Proof. unfold read_state. by destruct (_ && _). Qed.

Lemma start_attempt_inv b now b' o :
  start_attempt cfg b now = (b', o) ->
  (probe_in_progress b' = probe_in_progress b /\ (state b = HalfOpen -> state b' = HalfOpen) /\
   o <> Some true) \/
  (o = Some true /\ state b' = HalfOpen).
Proof.
  unfold start_attempt, can_attempt, acquire_probe. intros Ha.
  set (b1 := read_state cfg b now) in *. set (b2 := read_state cfg b1 now) in *.
  set (b3 := read_state cfg b2 now) in *.
  pose proof (read_state_slot b now) as [E1 F1]. pose proof (read_state_slot b1 now) as [E2 F2].
  pose proof (read_state_slot b2 now) as [E3 F3]. fold b1 b2 b3 in E1, F1, E2, F2, E3, F3.
  destruct (negb _); [simplify_eq; left; done|].
  destruct (bool_decide (state b2 = HalfOpen)) eqn:Hh; [|simplify_eq; left; split_and!; auto; congruence].
  to_prop. destruct (bool_decide (state b3 = HalfOpen) && negb (probe_in_progress b3)); simplify_eq/=.
  - right. split; [done|]. by apply F3.
  - left. split_and!; [congruence|auto|done].
Qed.

Lemma slot_owned_finish s now before is_probe after e :
  slot_owned s -> under_way s = before ++ is_probe :: after ->
  slot_owned {| circuit := finish_attempt cfg (circuit s) now is_probe e;
                under_way := before ++ after |}.
Proof.
  unfold slot_owned, finish_attempt. intros Ho Hu. simpl. destruct e.
  - unfold record_success. destruct is_probe; simpl.
    + destruct (state (circuit s)) eqn:Hs; simpl; try done. intros [? _]%Ho. congruence.
    + destruct (state (circuit s)) eqn:Hs; simpl; try done; intros Hp; specialize (Ho Hp);
        rewrite Hu in Ho; set_solver.
  - unfold record_failure. destruct (state (circuit s)) eqn:Hs; simpl; try done;
      [case_match; simpl|]; intros [? _]%Ho; congruence.
  - destruct is_probe; [|intros Hp; specialize (Ho Hp); rewrite Hu in Ho; set_solver].
    unfold record_failure. destruct (state (circuit s)) eqn:Hs; simpl; try done;
      [case_match; simpl|]; intros [? _]%Ho; congruence.
Qed.

Lemma slot_owned_step s s' : slot_owned s -> connect_step s s' -> slot_owned s'.
Proof.
  intros Ho Hs. destruct Hs as [s now|s now b' is_probe Ha|s now b' Ha|s now before is_probe after e Hu].
  - unfold slot_owned, can_attempt in *. simpl. destruct (read_state_slot (circuit s) now) as [-> Hh].
    intros Hp. destruct (Ho Hp). auto.
  - unfold slot_owned in *. simpl. apply start_attempt_inv in Ha as [(-> & Hh & Hn)|[[= ->] Hh]].
    + intros [? ?]%Ho. split; [auto|set_solver].
    + intros _. split; [done|set_solver].
  - unfold slot_owned in *. simpl. apply start_attempt_inv in Ha as [(-> & Hh & _)|[? _]]; [|done].
    intros [? ?]%Ho. auto.
  - by apply slot_owned_finish.
Qed.

(** The probe slot of the pusher circuit is never stranded: under any
    interleaving of attempts, successes, failures and cancellations, when the
    circuit is half-open or its cooldown has passed and no probe is under way,
    the next attempt is admitted as the probe. *)
Theorem pusher_probe_slot_never_stranded s now :
  reachable fresh_process connect_step s -> true ∉ under_way s ->
  state (circuit s) = HalfOpen \/
    (state (circuit s) = Open /\ opened_at (circuit s) + cooldown cfg <= now) ->
  exists b', start_attempt cfg (circuit s) now = (b', Some true) /\ state b' = HalfOpen.
Proof.
  intros Hr Hn Hs.
  assert (slot_owned s) as Ho.
  { revert Hr. apply reachable_ind_inv; [|by apply slot_owned_step].
    intros s0 [Hc _] Hp. rewrite Hc in Hp. discriminate. }
  assert (probe_in_progress (circuit s) = false) as Hp.
  { apply not_true_is_false. intros [_ ?]%Ho. done. }
  assert (forall b, state b = HalfOpen -> read_state cfg b now = b) as Hid.
  { intros b Hb. unfold read_state. by rewrite Hb. }
  assert (state (read_state cfg (circuit s) now) = HalfOpen /\
          probe_in_progress (read_state cfg (circuit s) now) = false) as [Hs1 Hp1].
  { destruct (read_state_slot (circuit s) now) as [-> Hh]. split; [|done].
    destruct Hs as [?|[Ho' Ht]]; [auto|]. unfold read_state. rewrite Ho'. simpl.
    by rewrite (proj2 (Z.leb_le _ _)) by lia. }
  unfold start_attempt, can_attempt, acquire_probe. rewrite !Hs1, !Hp1. simpl.
  rewrite (Hid _ Hs1). rewrite !Hs1. simpl. rewrite (Hid _ Hs1), Hs1, Hp1. simpl. eauto.
Qed.

End PusherHistories.

(** ** Webhook targets *)
Section WebhookHistories.
Import Webhook.

(** Requests asking for admission, one after the other. *)
Fixpoint ask_all (b : breaker) (times : list Z) : breaker * list bool :=
  match times with
  | [] => (b, [])
  | t :: rest =>
      let '(b1, ok) := allow_request b t in
      let '(b2, oks) := ask_all b1 rest in
      (b2, ok :: oks)
  end.

Lemma stuck_half_open times : forall b,
  state b = HalfOpen -> half_open_in_flight b = 1 ->
  state (ask_all b times).1 = HalfOpen /\ half_open_in_flight (ask_all b times).1 = 1 /\
  Forall (eq false) (ask_all b times).2.
Proof.
  induction times as [|t times IH]; intros b Hs Hp; [done|]. cbn [ask_all].
  assert (allow_request b t = (touched b t 1, false)) as ->.
  { unfold allow_request, read_state, touched. simpl. by rewrite Hs, Hp. }
  destruct (IH (touched b t 1)) as (H1 & H2 & H3); [done|done|].
  destruct (ask_all (touched b t 1) times) as [b2 oks]. simpl in *. split_and!; [done|done|].
  by constructor.
Qed.

(** A webhook probe whose caller returns without recording an outcome
    disables its target for good: once the recovery time has passed and such a
    call was admitted, every later request, at whatever time, is refused and
    the circuit never leaves half-open. *)
Theorem unrecorded_probe_is_permanent b t times :
  state b = Open -> last_failure_time b + _CIRCUIT_BREAKER_RECOVERY_TIMEOUT <= t ->
  let '(b1, admitted) := allow_request b t in
  admitted = true /\ state (ask_all b1 times).1 = HalfOpen /\ Forall (eq false) (ask_all b1 times).2.
Proof.
  intros Hs Ht. unfold allow_request, read_state. simpl. rewrite Hs. simpl.
  rewrite (proj2 (Z.leb_le _ _)) by lia. simpl. split; [done|].
  match goal with |- context [ask_all ?b1 times] =>
    destruct (stuck_half_open times b1) as (H1 & _ & H3); [done|done|] end.
  done.
Qed.

(** A recorded probe settles the target: a success closes the circuit and
    forgets its failures; a failure opens it for another recovery time. *)
Theorem recorded_probe_settles b t t' :
  state b = Open -> last_failure_time b + _CIRCUIT_BREAKER_RECOVERY_TIMEOUT <= t ->
  _CIRCUIT_BREAKER_FAILURE_THRESHOLD <= failures b + 1 ->
  let b1 := (allow_request b t).1 in
  (forall now, (allow_request (record_success b1) now).2 = true /\ failures (record_success b1) = 0) /\
  (forall now, (allow_request (record_failure b1 t') now).2 =
     (t' + _CIRCUIT_BREAKER_RECOVERY_TIMEOUT <=? now)).
Proof.
  intros Hs Ht Hf b1. split; [intros now; done|]. intros now.
  assert (failures b1 = failures b) as Hf1.
  { subst b1. unfold allow_request, read_state. simpl. rewrite Hs. simpl.
    rewrite (proj2 (Z.leb_le _ _)) by lia. done. }
  unfold record_failure, allow_request, read_state. simpl. rewrite Hf1, (proj2 (Z.leb_le _ _) Hf). simpl.
  destruct (Z.leb_spec _CIRCUIT_BREAKER_RECOVERY_TIMEOUT (now - t')),
    (Z.leb_spec (t' + _CIRCUIT_BREAKER_RECOVERY_TIMEOUT) now); try lia; done.
Qed.

End WebhookHistories.

(** ** The language-model gateway *)
Section GatewayHistories.
Import Gateway.
Context (threshold cooldown : Z).

Definition fail_all (times : list Z) : breaker :=
  foldl (record_transport_failure threshold cooldown) initial times.

Lemma fail_all_count times :
  consecutive_failures (fail_all times) = Z.of_nat (length times).
Proof.
  unfold fail_all. induction times as [|t times IH] using rev_ind; [done|].
  rewrite foldl_app, length_app. simpl. unfold record_transport_failure at 1.
  rewrite IH. destruct (_ <? _); simpl; lia.
Qed.

(** The gateway circuit refuses exactly during the cooldown that follows
    the last of enough failures in a row, and the first request after it finds
    a circuit with no failures. *)
Theorem gateway_refuses_exactly_the_cooldown times t now :
  1 <= threshold -> 0 < cooldown -> 0 <= t -> 0 <= now ->
  let b := fail_all (times ++ [t]) in
  let refuses := (threshold <=? Z.of_nat (S (length times))) && (now <? t + cooldown) in
  (allow_request b now).2 = negb refuses /\
  (threshold <= Z.of_nat (S (length times)) -> refuses = false -> (allow_request b now).1 = initial).
Proof.
  intros Ht Hc Ht0 Hn b refuses.
  assert (threshold <= Z.of_nat (S (length times)) -> open_until b = t + cooldown) as Hopen.
  { intros Hle. subst b. unfold fail_all. rewrite foldl_app. simpl. fold (fail_all times).
    unfold record_transport_failure. rewrite fail_all_count.
    destruct (Z.ltb_spec (Z.of_nat (length times) + 1) threshold); [lia|done]. }
  assert (Z.of_nat (S (length times)) < threshold -> open_until b = 0) as Hclosed.
  { subst b.
    assert (forall l, Z.of_nat (length l) < threshold -> open_until (fail_all l) = 0) as Hl.
    { intros l. unfold fail_all. induction l as [|x l IH] using rev_ind; intros Hlt; [done|].
      rewrite foldl_app. simpl. rewrite length_app in Hlt. simpl in Hlt.
      pose proof (fail_all_count l) as Hcount. unfold fail_all in Hcount.
      unfold record_transport_failure at 1. rewrite Hcount.
      destruct (Z.ltb_spec (Z.of_nat (length l) + 1) threshold); [simpl; apply IH; lia|lia]. }
    intros Hlt. apply Hl. rewrite length_app. simpl. lia. }
  subst refuses. unfold allow_request.
  destruct (Z.leb_spec threshold (Z.of_nat (S (length times)))) as [Hle|Hlt]; simpl.
  - rewrite (Hopen Hle). destruct (Z.ltb_spec now (t + cooldown)), (Z.leb_spec (t + cooldown) now);
      try lia; simpl; [done|]. rewrite (proj2 (Z.eqb_neq _ _)) by lia. done.
  - rewrite (Hclosed Hlt), (proj2 (Z.leb_le _ _) Hn). simpl. split; [done|]. lia.
Qed.

End GatewayHistories.

(** ** The guarantees apply *)
Section Examples.
Import Provider.

(** The provider circuit of the production defaults: three failures, 30 s, 180 s
    and three successes after a serve error. *)
Definition demo_config : config :=
  {| failure_threshold := 3; cooldown := micros 30; serve_error_cooldown := micros 180;
     serve_error_successes_to_close := 3 |}.

Lemma demo_config_ok : config_ok demo_config.
Proof. unfold config_ok, demo_config, micros. simpl. lia. Qed.

Lemma provider_circuit_wellformed_witness :
  breaker_ok demo_config
    (perform_all demo_config initial
       [(micros 1, Failure); (micros 2, ServeFailure); (micros 190, Allow 1 false);
        (micros 191, AccountFailure 0); (micros 192, Allow 4 true)]).1.
Proof. exact (provider_circuit_wellformed demo_config _ demo_config_ok). Defined.

Definition demo_bench : breaker := record_serve_failure demo_config initial (micros 100).

Lemma bench_is_respected_witness :
  state (perform_all demo_config demo_bench
           [(micros 110, Allow 1 false); (micros 120, Success true); (micros 279, Allow 5 false)]).1 = Open /\
  Forall (eq false) (perform_all demo_config demo_bench
           [(micros 110, Allow 1 false); (micros 120, Success true); (micros 279, Allow 5 false)]).2.
Proof.
  apply (bench_is_respected demo_config demo_bench); [reflexivity|].
  repeat constructor; simpl; lia.
Defined.

Lemma half_open_admits_its_quota_witness :
  (perform_all demo_config demo_bench (admissions 2 [micros 280; micros 281; micros 282])).2 =
    [true; true; false].
Proof.
  exact (half_open_admits_its_quota demo_config demo_bench 2 (micros 280) [micros 281; micros 282]
           eq_refl ltac:(vm_compute; discriminate)).
Defined.

Lemma serve_storm_needs_successes_witness :
  let probing := (allow_request demo_config demo_bench (micros 281) 1 false).1 in
  state (Nat.iter 2 (fun b => record_success b true) probing) = HalfOpen /\
  (2 < 3 ->
   let again := record_failure demo_config (Nat.iter 2 (fun b => record_success b true) probing) (micros 281) in
   state again = Open /\ opened_at again = micros 281 /\
   remaining_successes_to_close again = 3 /\
   _active_cooldown demo_config again = _active_cooldown demo_config demo_bench).
Proof.
  exact (serve_storm_needs_successes demo_config initial (micros 100) (micros 281) 2 demo_config_ok eq_refl).
Defined.

Definition demo_two_failures : breaker :=
  record_failure demo_config (record_failure demo_config initial (micros 1)) (micros 2).

Lemma late_failure_shortens_bench_witness :
  _active_cooldown demo_config (record_serve_failure demo_config demo_two_failures (micros 3)) = micros 180 /\
  remaining_successes_to_close (record_serve_failure demo_config demo_two_failures (micros 3)) = 3 /\
  _active_cooldown demo_config
    (record_failure demo_config (record_serve_failure demo_config demo_two_failures (micros 3)) (micros 4))
    = micros 30 /\
  remaining_successes_to_close
    (record_failure demo_config (record_serve_failure demo_config demo_two_failures (micros 3)) (micros 4))
    = 1.
Proof.
  exact (late_failure_shortens_bench demo_config demo_two_failures (micros 3) (micros 4)
           ltac:(vm_compute; discriminate) eq_refl).
Defined.
End Examples.

Section PusherExample.
Import Pusher.

Definition pusher_defaults : config :=
  {| failure_threshold := 20; failure_window := micros 30; cooldown := micros 60 |}.

(** One failure short of nothing: a threshold of one shows the probe quickly. *)
Definition quick_pusher : config :=
  {| failure_threshold := 1; failure_window := micros 30; cooldown := micros 60 |}.

Definition tripped : connections :=
  {| circuit := record_failure quick_pusher initial (micros 5); under_way := [] |}.

Lemma tripped_reachable : reachable fresh_process (connect_step quick_pusher) tripped.
Proof.
  eapply reach_step; [eapply reach_step; [by apply (reach_init _ _ {| circuit := initial; under_way := [] |})|]|].
  - apply (start _ {| circuit := initial; under_way := [] |} (micros 4) initial false). reflexivity.
  - exact (finish quick_pusher {| circuit := initial; under_way := [false] |} (micros 5) [] false [] Failed
             eq_refl).
Qed.

Lemma pusher_probe_slot_never_stranded_witness :
  exists b', start_attempt quick_pusher (circuit tripped) (micros 65) = (b', Some true) /\
    state b' = HalfOpen.
Proof.
  apply (pusher_probe_slot_never_stranded quick_pusher tripped (micros 65) tripped_reachable).
  - simpl. decided.
  - right. split; [reflexivity|vm_compute; discriminate].
Defined.
End PusherExample.

Section WebhookExample.
Import Webhook.

Definition demo_target : breaker :=
  Nat.iter 5 (fun b => record_failure b (micros 10)) (initial 0).

Lemma unrecorded_probe_is_permanent_witness :
  let '(b1, admitted) := allow_request demo_target (micros 40) in
  admitted = true /\ state (ask_all b1 [micros 100; micros 5000; micros 900000]).1 = HalfOpen /\
  Forall (eq false) (ask_all b1 [micros 100; micros 5000; micros 900000]).2.
Proof.
  exact (unrecorded_probe_is_permanent demo_target (micros 40) [micros 100; micros 5000; micros 900000]
           eq_refl ltac:(vm_compute; discriminate)).
Defined.

Lemma recorded_probe_settles_witness :
  let b1 := (allow_request demo_target (micros 40)).1 in
  (forall now, (allow_request (record_success b1) now).2 = true /\ failures (record_success b1) = 0) /\
  (forall now, (allow_request (record_failure b1 (micros 41)) now).2 =
     (micros 41 + _CIRCUIT_BREAKER_RECOVERY_TIMEOUT <=? now)).
Proof.
  exact (recorded_probe_settles demo_target (micros 40) (micros 41) eq_refl
           ltac:(vm_compute; discriminate) ltac:(vm_compute; discriminate)).
Defined.
End WebhookExample.

Section GatewayExample.
Import Gateway.

Lemma gateway_refuses_exactly_the_cooldown_witness :
  (allow_request (fail_all 2 (micros 30) [micros 1; micros 2]) (micros 31)).2 = false /\
  (2 <= 2 -> false = true -> (allow_request (fail_all 2 (micros 30) [micros 1; micros 2]) (micros 31)).1 = initial).
Proof.
  split; [|discriminate].
  exact (proj1 (gateway_refuses_exactly_the_cooldown 2 (micros 30) [micros 1] (micros 2) (micros 31)
    ltac:(lia) ltac:(unfold micros; lia) ltac:(unfold micros; lia) ltac:(unfold micros; lia))).
Defined.
End GatewayExample.
