(* ===== verification/SyncMerge.v ===== *)
(** Deduplication of offline-sync segments ([utils/sync/merge_dedupe.py]).

    A segment is a dictionary; a missing or non-numeric time raises, as in the
    code.  Times are exact rationals: float subtraction is taken as exact.
    [round(x, 2)] is only ever compared, and two rounded floats are equal
    exactly when their hundredths are, so it is represented by the integer
    number of hundredths. *)
From S2P Require Export PyValue.

(** ** Numbers and text *)

(** [round(x, 2)], in hundredths. *)
Definition round2 (x : Q) : Z := round_half_even (x * inject_Z 100)%Q.

Definition Qabs_diff (a b : Q) : Q := if Qle_bool a b then (b - a)%Q else (a - b)%Q.

(** A run of decimal digits: its value and length. *)
Fixpoint read_digits (acc : Z) (n : nat) (l : list ascii) : Z * nat * list ascii :=
  match l with
  | c :: r => match digit_value c with
              | Some d => read_digits (10 * acc + d) (S n) r
              | None => (acc, n, l)
              end
  | [] => (acc, n, [])
  end.

(** Plain decimal text, with an optional sign and fraction.  Exponents,
    underscores, infinities and NaN are not numbers here. *)
Definition parse_float (s : string) : option Q :=
  let chars := strip_chars (list_ascii_of_string s) in
  let '(negative, body) := match chars with
                           | "-"%char :: r => (true, r)
                           | "+"%char :: r => (false, r)
                           | l => (false, l)
                           end in
  let '(whole, n, rest) := read_digits 0 0 body in
  let finish (num : Z) (places digits : nat) :=
    match digits with
    | O => None
    | _ => Some (inject_Z (if negative then - num else num) / inject_Z (10 ^ Z.of_nat places))%Q
    end in
  match rest with
  | [] => finish whole O n
  | "."%char :: frac =>
      match read_digits whole O frac with
      | (num, m, []) => finish num m (n + m)%nat
      | _ => None
      end
  | _ => None
  end.

(** [float(v)] *)
Definition py_float (v : pyval) : result pyexc Q :=
  match v with
  | PBool b => Ok (inject_Z (Z.b2z b))
  | PInt z => Ok (inject_Z z)
  | PFloat q => Ok q
  | PStr s => match parse_float s with
              | Some q => Ok q
              | None => Raise (ValueError "could not convert string to float")
              end
  | _ => Raise (TypeError "float() argument")
  end.

(** [float(segment[k])] *)
Definition float_field (seg : doc) (k : string) : result pyexc Q :=
  match seg !! k with
  | None => Raise (KeyError k)
  | Some v => py_float v
  end.

(** [text.split()]: the words between runs of white space. *)
Fixpoint split_words (word : string) (s : string) : list string :=
  match s with
  | EmptyString => if String.eqb word "" then [] else [word]
  | String c r =>
      if is_space c then (if String.eqb word "" then split_words "" r else word :: split_words "" r)
      else split_words (word ++ String c "")%string r
  end.

Definition py_split (s : string) : list string := split_words "" s.

Definition _normalize_merge_segment_text (text : pyval) : result pyexc string :=
  match py_or text (PStr "") with
  | PStr s => Ok (String.concat " " (py_split (py_lower (py_strip s))))
  | _ => Raise (AttributeError "strip")
  end.

(** ** Deduplication *)

Definition _MERGE_TEXT_DUP_SLOP_SECONDS : Q := inject_Z 600.
Definition _MERGE_TEXT_DUP_DURATION_RATIO : Q := 1 # 4.
Definition _MERGE_TEXT_DUP_MIN_CHARS : Z := 20.
Definition _MERGE_TEXT_DUP_MIN_WORDS : Z := 4.

Definition _text_eligible_for_slop_dedupe (text : string) : bool :=
  (_MERGE_TEXT_DUP_MIN_CHARS <=? py_len text) ||
  (_MERGE_TEXT_DUP_MIN_WORDS <=? Z.of_nat (length (py_split text))).

Definition _segment_abs_range (seg : doc) : result pyexc (Q * Q) :=
  let* abs_start := float_field seg "timestamp" in
  let* e := float_field seg "end" in
  let* s := float_field seg "start" in
  Ok (abs_start, (abs_start + (e - s))%Q).

Record text_entry : Type := { entry_text : string; entry_abs_start : Q; entry_duration : Q }.

Definition entry_matches (slop ratio : Q) (text : string) (abs_start duration : Q) (x : text_entry)
    : bool :=
  if negb (String.eqb (entry_text x) text) then false
  else
    let max_duration := Qmax (Qmax duration (entry_duration x)) (1 # 1000) in
    if negb (Qle_bool (Qabs_diff duration (entry_duration x) / max_duration)%Q ratio) then false
    else Qle_bool (Qabs_diff abs_start (entry_abs_start x)) slop.

Definition _is_text_clock_offset_duplicate (slop ratio : Q) (text : string) (abs_start duration : Q)
    (index : list text_entry) : bool :=
  _text_eligible_for_slop_dedupe text && existsb (entry_matches slop ratio text abs_start duration) index.


Definition range_key (a b : Q) : Z * Z := (round2 a, round2 b).

(** The three collections built from the segments already stored. *)
Record seen : Type := { seen_abs : list (Z * Z); seen_rel : list (Z * Z); seen_text : list text_entry }.

Definition nothing_seen : seen := {| seen_abs := []; seen_rel := []; seen_text := [] |}.

Definition see (acc : seen) (seg : doc) : result pyexc seen :=
  let* ' (abs_start, abs_end) := _segment_abs_range seg in
  let* rel_start := float_field seg "start" in
  let* rel_end := float_field seg "end" in
  let* text := _normalize_merge_segment_text (py_get seg "text") in
  Ok {| seen_abs := seen_abs acc ++ [range_key abs_start abs_end];
        seen_rel := seen_rel acc ++ [range_key rel_start rel_end];
        seen_text := if String.eqb text "" then seen_text acc
                     else seen_text acc ++
                       [{| entry_text := text; entry_abs_start := abs_start;
                           entry_duration := Qmax 0 (abs_end - abs_start)%Q |}] |}.

Fixpoint see_all (acc : seen) (segs : list doc) : result pyexc seen :=
  match segs with
  | [] => Ok acc
  | seg :: rest => let* acc' := see acc seg in see_all acc' rest
  end.

(** The incoming segments at no stored place, in order. *)
Fixpoint unplaced (origin : Q) (known : seen) (segs : list doc) : result pyexc (list doc) :=
  match segs with
  | [] => Ok []
  | seg :: rest =>
      let* ' (abs_start, abs_end) := _segment_abs_range seg in
      let placed := bool_decide (range_key abs_start abs_end ∈ seen_abs known) ||
                    bool_decide (range_key (abs_start - origin)%Q (abs_end - origin)%Q ∈ seen_rel known) in
      let* kept := unplaced origin known rest in
      Ok (if placed then kept else seg :: kept)
  end.

(** Whether each survivor repeats stored words. *)
Fixpoint text_dup_flags (slop ratio : Q) (index : list text_entry) (segs : list doc)
    : result pyexc (list bool) :=
  match segs with
  | [] => Ok []
  | seg :: rest =>
      let* ' (abs_start, abs_end) := _segment_abs_range seg in
      let* text := _normalize_merge_segment_text (py_get seg "text") in
      let flag := _is_text_clock_offset_duplicate slop ratio text abs_start
                    (Qmax 0 (abs_end - abs_start)%Q) index in
      let* flags := text_dup_flags slop ratio index rest in
      Ok (flag :: flags)
  end.

Definition unflagged (segs : list doc) (flags : list bool) : list doc :=
  map fst (List.filter (fun sf => negb (snd sf)) (zip segs flags)).

Definition dedupe_segments_for_merge (conversation_started_at : Q)
    (existing_segments incoming_segments : list doc) (text_match_slop_seconds duration_ratio_slop : Q)
    : result pyexc (list doc) :=
  let* known := see_all nothing_seen existing_segments in
  let* survivors := unplaced conversation_started_at known incoming_segments in
  match survivors, seen_text known with
  | [], _ | _, [] => Ok survivors
  | _, index =>
      let* flags := text_dup_flags text_match_slop_seconds duration_ratio_slop index survivors in
      let text_dup_count := length (List.filter id flags) in
      if (2 <=? text_dup_count)%nat ||
         (Nat.eqb text_dup_count (length survivors) && (1 <=? text_dup_count)%nat)
      then Ok (unflagged survivors flags)
      else Ok survivors
  end.

(** ** What each segment contributes *)

Definition abs_of (seg : doc) : list (Z * Z) :=
  match _segment_abs_range seg with Ok (a, b) => [range_key a b] | Raise _ => [] end.

Definition rel_of (seg : doc) : list (Z * Z) :=
  match float_field seg "start", float_field seg "end" with
  | Ok a, Ok b => [range_key a b]
  | _, _ => []
  end.

Definition text_of (seg : doc) : list text_entry :=
  match _segment_abs_range seg, _normalize_merge_segment_text (py_get seg "text") with
  | Ok (a, b), Ok t =>
      if String.eqb t "" then []
      else [{| entry_text := t; entry_abs_start := a; entry_duration := Qmax 0 (b - a)%Q |}]
  | _, _ => []
  end.

Definition readable (seg : doc) : Prop := is_ok (see nothing_seen seg) = true.

Definition see_more (acc : seen) (segs : list doc) : seen :=
  {| seen_abs := seen_abs acc ++ flat_map abs_of segs;
     seen_rel := seen_rel acc ++ flat_map rel_of segs;
     seen_text := seen_text acc ++ flat_map text_of segs |}.

Lemma see_readable acc seg : readable seg -> see acc seg = Ok (see_more acc [seg]).
Proof.
  unfold readable, see, see_more, abs_of, rel_of, text_of. simpl.
  destruct (_segment_abs_range seg) as [[a b]|]; [simpl|done].
  destruct (float_field seg "start") as [x|]; [simpl|done].
  destruct (float_field seg "end") as [y|]; [simpl|done].
  destruct (_normalize_merge_segment_text _) as [t|]; [simpl|done]. intros _.
  destruct (String.eqb t ""); simpl; by rewrite ?app_nil_r.
Qed.

Lemma see_ok_readable acc seg acc' : see acc seg = Ok acc' -> readable seg.
Proof.
  unfold readable, see. destruct (_segment_abs_range seg) as [[a b]|]; [simpl|done].
  destruct (float_field seg "start"), (float_field seg "end"); simpl; try done.
  by destruct (_normalize_merge_segment_text _).
Qed.

Lemma see_all_inv segs : forall acc k,
  see_all acc segs = Ok k -> Forall readable segs /\ k = see_more acc segs.
Proof.
  induction segs as [|seg segs IH]; intros acc k; simpl.
  - intros [= <-]. split; [done|]. unfold see_more. simpl. rewrite !app_nil_r. by destruct acc.
  - destruct (see acc seg) as [acc'|] eqn:Hs; simpl; [|done]. intros Hk.
    pose proof (see_ok_readable _ _ _ Hs) as Hr. rewrite see_readable in Hs by done.
    injection Hs as <-. apply IH in Hk as [Hrs ->]. split; [by constructor|].
    unfold see_more. simpl. by rewrite !app_nil_r, !app_assoc.
Qed.

(** ** Survivors and flags as filters *)

Definition placed (origin : Q) (known : seen) (seg : doc) : bool :=
  match _segment_abs_range seg with
  | Ok (a, b) => bool_decide (range_key a b ∈ seen_abs known) ||
                 bool_decide (range_key (a - origin)%Q (b - origin)%Q ∈ seen_rel known)
  | Raise _ => false
  end.

Definition repeated (slop ratio : Q) (index : list text_entry) (seg : doc) : bool :=
  match _segment_abs_range seg, _normalize_merge_segment_text (py_get seg "text") with
  | Ok (a, b), Ok t => _is_text_clock_offset_duplicate slop ratio t a (Qmax 0 (b - a)%Q) index
  | _, _ => false
  end.

Definition ranged (seg : doc) : Prop := is_ok (_segment_abs_range seg) = true.
Definition worded (seg : doc) : Prop :=
  ranged seg /\ is_ok (_normalize_merge_segment_text (py_get seg "text")) = true.

Lemma placed_ranged origin known seg a b :
  _segment_abs_range seg = Ok (a, b) ->
  placed origin known seg = bool_decide (range_key a b ∈ seen_abs known) ||
    bool_decide (range_key (a - origin)%Q (b - origin)%Q ∈ seen_rel known).
Proof. intros Hr. unfold placed. by rewrite Hr. Qed.

Lemma unplaced_inv origin known segs : forall kept,
  unplaced origin known segs = Ok kept ->
  Forall ranged segs /\ kept = List.filter (fun s => negb (placed origin known s)) segs.
Proof.
  induction segs as [|seg segs IH]; intros kept; simpl; [intros [= <-]; done|].
  destruct (_segment_abs_range seg) as [[a b]|] eqn:Hr; simpl; [|done].
  destruct (unplaced origin known segs) as [rest|]; simpl; [|done].
  destruct (IH rest eq_refl) as [Hrs ->]. intros [= <-]. split.
  - constructor; [|done]. unfold ranged. by rewrite Hr.
  - rewrite (placed_ranged _ _ _ _ _ Hr). by destruct (_ || _).
Qed.

Lemma unplaced_ranged origin known segs :
  Forall ranged segs ->
  unplaced origin known segs = Ok (List.filter (fun s => negb (placed origin known s)) segs).
Proof.
  induction 1 as [|seg segs Hr _ IH]; simpl; [done|]. unfold ranged in Hr.
  destruct (_segment_abs_range seg) as [[a b]|] eqn:Hab; [|done]. simpl.
  rewrite IH, (placed_ranged _ _ _ _ _ Hab). simpl. by destruct (_ || _).
Qed.

Lemma flags_inv slop ratio index segs : forall flags,
  text_dup_flags slop ratio index segs = Ok flags ->
  Forall worded segs /\ flags = map (repeated slop ratio index) segs.
Proof.
  induction segs as [|seg segs IH]; intros flags; simpl; [intros [= <-]; done|].
  unfold repeated at 1. destruct (_segment_abs_range seg) as [[a b]|] eqn:Hr; simpl; [|done].
  destruct (_normalize_merge_segment_text _) as [t|] eqn:Ht; simpl; [|done].
  destruct (text_dup_flags slop ratio index segs) as [rest|]; simpl; [|done].
  destruct (IH rest eq_refl) as [Hw ->]. intros [= <-]. split; [|done].
  constructor; [|done]. unfold worded, ranged. by rewrite Hr, Ht.
Qed.

Lemma flags_worded slop ratio index segs :
  Forall worded segs ->
  text_dup_flags slop ratio index segs = Ok (map (repeated slop ratio index) segs).
Proof.
  induction 1 as [|seg segs [Hr Ht] _ IH]; simpl; [done|]. unfold ranged in Hr.
  unfold repeated at 1. destruct (_segment_abs_range seg) as [[a b]|]; [|done]. simpl.
  destruct (_normalize_merge_segment_text _) as [t|]; [|done]. simpl. by rewrite IH.
Qed.

Lemma unflagged_filter (f : doc -> bool) segs :
  unflagged segs (map f segs) = List.filter (fun s => negb (f s)) segs.
Proof.
  unfold unflagged. induction segs as [|seg segs IH]; simpl; [done|].
  destruct (f seg); simpl; by rewrite IH.
Qed.

Lemma count_flags (f : doc -> bool) segs :
  length (List.filter id (map f segs)) = length (List.filter f segs).
Proof.
  induction segs as [|seg segs IH]; simpl; [done|].
  change (id (f seg)) with (f seg).
  destruct (f seg); simpl; by rewrite IH.
Qed.

(** The whole function, over what the stored segments contribute. *)
Lemma dedupe_inv origin existing incoming slop ratio kept :
  dedupe_segments_for_merge origin existing incoming slop ratio = Ok kept ->
  let known := see_more nothing_seen existing in
  let survivors := List.filter (fun s => negb (placed origin known s)) incoming in
  Forall readable existing /\ Forall ranged incoming /\
  (kept = survivors \/
   (Forall worded survivors /\
    kept = List.filter (fun s => negb (repeated slop ratio (seen_text known) s)) survivors)).
Proof.
  intros Hd known survivors. unfold dedupe_segments_for_merge in Hd.
  destruct (see_all nothing_seen existing) as [k|] eqn:Hk; [|done]. cbn [rbind] in Hd.
  apply see_all_inv in Hk as [Hre ->]. fold known in Hd.
  destruct (unplaced origin known incoming) as [sv|] eqn:Hu; [|done]. cbn [rbind] in Hd.
  apply unplaced_inv in Hu as [Hra ->]. fold survivors in Hd. split_and!; [done|done|].
  destruct survivors as [|seg rest] eqn:Hsv; [injection Hd as <-; by left|].
  destruct (seen_text known) as [|x index] eqn:Hx; [injection Hd as <-; by left|].
  destruct (text_dup_flags slop ratio (x :: index) (seg :: rest)) as [flags|] eqn:Hf; [|done].
  apply flags_inv in Hf as [Hw ->]. cbn [rbind] in Hd. rewrite unflagged_filter in Hd.
  destruct (_ || _); injection Hd as <-; [right|left]; done.
Qed.

(** Deduplication only ever drops segments, and only segments already
    represented: what it returns is a sublist of the incoming segments in their
    order, and every segment it leaves out is at a stored place (by wall clock
    or on the conversation's own timeline) or repeats long enough stored
    words. *)
Theorem dedupe_is_shrink_only origin existing incoming slop ratio kept :
  dedupe_segments_for_merge origin existing incoming slop ratio = Ok kept ->
  let known := see_more nothing_seen existing in
  kept `sublist_of` incoming /\
  forall seg, seg ∈ incoming ->
    seg ∈ kept \/ placed origin known seg = true \/ repeated slop ratio (seen_text known) seg = true.
Proof.
  intros (_ & _ & Hk)%dedupe_inv known.
  assert (forall (f : doc -> bool) l, List.filter f l `sublist_of` l) as Hsub.
  { intros f l. induction l as [|x l IH]; simpl; [constructor|]. destruct (f x); by constructor. }
  split.
  - destruct Hk as [->|[_ ->]]; [apply Hsub|]. etrans; apply Hsub.
  - intros seg Hin. apply list_elem_of_In in Hin.
    destruct (placed origin known seg) eqn:Hp; [by right; left|].
    destruct (repeated slop ratio (seen_text known) seg) eqn:Hr; [by right; right|]. left.
    apply list_elem_of_In. destruct Hk as [->|[_ ->]]; repeat (apply filter_In; split); fold known; try done;
      by rewrite ?Hp, ?Hr.
Qed.

(** ** Re-uploading *)

Lemma see_all_readable segs : forall acc,
  Forall readable segs -> see_all acc segs = Ok (see_more acc segs).
Proof.
  induction segs as [|seg segs IH]; intros acc Hs.
  - unfold see_more. simpl. rewrite !app_nil_r. by destruct acc.
  - apply Forall_cons in Hs as [Hr Hs]. cbn [see_all]. rewrite see_readable by done. cbn [rbind].
    rewrite IH by done. unfold see_more. simpl. by rewrite !app_nil_r, !app_assoc.
Qed.

(** More stored segments contribute more. *)
Definition covers (k k' : seen) : Prop :=
  (forall x, x ∈ seen_abs k -> x ∈ seen_abs k') /\ (forall x, x ∈ seen_rel k -> x ∈ seen_rel k') /\
  (forall x, x ∈ seen_text k -> x ∈ seen_text k').

Lemma flat_map_covers {A} (f : doc -> list A) segs stored x :
  (forall s, s ∈ segs -> s ∈ stored) -> x ∈ flat_map f segs -> x ∈ flat_map f stored.
Proof.
  intros Hs Hx. apply list_elem_of_In, in_flat_map in Hx as (s & Hin & Hf).
  apply list_elem_of_In, in_flat_map. exists s. split; [|done].
  apply list_elem_of_In, Hs, list_elem_of_In, Hin.
Qed.

Lemma see_more_covers segs stored :
  (forall s, s ∈ segs -> s ∈ stored) ->
  covers (see_more nothing_seen segs) (see_more nothing_seen stored).
Proof. intros Hs. split_and!; simpl; intros x; by apply flat_map_covers. Qed.

Lemma placed_covers origin k k' seg : covers k k' -> placed origin k seg = true -> placed origin k' seg = true.
Proof.
  intros (Ha & Hr & _). unfold placed. destruct (_segment_abs_range seg) as [[a b]|]; [|done].
  rewrite !orb_true_iff, !bool_decide_eq_true. naive_solver.
Qed.

Lemma repeated_covers slop ratio k k' seg :
  covers k k' -> repeated slop ratio (seen_text k) seg = true ->
  repeated slop ratio (seen_text k') seg = true.
Proof.
  intros (_ & _ & Ht). unfold repeated, _is_text_clock_offset_duplicate.
  destruct (_segment_abs_range seg) as [[a b]|]; [|done].
  destruct (_normalize_merge_segment_text _) as [t|]; [|done].
  rewrite !andb_true_iff, !existsb_exists. intros [? (x & Hx & ?)]. split; [done|].
  exists x. split; [|done]. by apply list_elem_of_In, Ht, list_elem_of_In.
Qed.

Lemma stored_is_placed origin stored seg :
  seg ∈ stored -> ranged seg -> placed origin (see_more nothing_seen stored) seg = true.
Proof.
  intros Hin Hr. unfold placed, ranged in *.
  destruct (_segment_abs_range seg) as [[a b]|] eqn:Hab; [|done].
  apply orb_true_iff. left. apply bool_decide_eq_true. simpl.
  apply list_elem_of_In, in_flat_map. exists seg. split; [by apply list_elem_of_In|].
  unfold abs_of. rewrite Hab. by left.
Qed.

(** When every survivor repeats stored words, nothing is kept. *)
Lemma all_repeated_kept_none origin stored incoming slop ratio :
  Forall readable stored -> Forall ranged incoming ->
  (forall s, s ∈ incoming -> placed origin (see_more nothing_seen stored) s = false ->
     worded s /\ repeated slop ratio (seen_text (see_more nothing_seen stored)) s = true) ->
  dedupe_segments_for_merge origin stored incoming slop ratio = Ok [].
Proof.
  intros Hr Hg Hall. set (k := see_more nothing_seen stored) in *.
  unfold dedupe_segments_for_merge. rewrite see_all_readable by done. cbn [rbind].
  rewrite unplaced_ranged by done. cbn [rbind]. fold k.
  set (sv := List.filter _ incoming).
  assert (Forall (fun s => worded s /\ repeated slop ratio (seen_text k) s = true) sv) as Hsv.
  { apply Forall_forall. intros s Hs%list_elem_of_In. apply filter_In in Hs as [Hi Hp].
    apply Hall; [by apply list_elem_of_In|by apply negb_true_iff]. }
  clearbody sv. destruct sv as [|s rest]; [done|].
  destruct (seen_text k) as [|x index] eqn:Hx.
  { apply Forall_cons in Hsv as [[_ Hrep] _]. exfalso. unfold repeated, _is_text_clock_offset_duplicate in Hrep.
    repeat case_match; simpl in Hrep; rewrite ?andb_false_r in Hrep; done. }
  apply Forall_and in Hsv as [Hw Hrep].
  rewrite flags_worded by done. cbn [rbind].
  rewrite count_flags, unflagged_filter.
  assert (List.filter (repeated slop ratio (x :: index)) (s :: rest) = s :: rest) as ->.
  { clear Hw. induction Hrep as [|y l Hy _ IH]; simpl in *; [done|]. by rewrite Hy, IH. }
  assert (List.filter (fun z => negb (repeated slop ratio (x :: index) z)) (s :: rest) = []) as ->.
  { clear Hw. induction Hrep as [|y l Hy _ IH]; simpl in *; [done|]. by rewrite Hy, IH. }
  rewrite Nat.eqb_refl. simpl. by rewrite orb_true_r.
Qed.

(** Uploading the same batch again adds nothing: once what deduplication
    kept has been stored with the segments it was compared to, in any order,
    deduplicating the same incoming segments keeps none of them. *)
Theorem reupload_is_absorbed origin existing incoming slop ratio kept stored :
  dedupe_segments_for_merge origin existing incoming slop ratio = Ok kept ->
  stored ≡ₚ existing ++ kept -> Forall readable kept ->
  dedupe_segments_for_merge origin stored incoming slop ratio = Ok [].
Proof.
  intros (He & Hg & Hk)%dedupe_inv Hst Hkr.
  set (known := see_more nothing_seen existing) in *.
  assert (forall s, s ∈ existing -> s ∈ stored) as Hsub by (intros s; rewrite Hst; set_solver).
  pose proof (see_more_covers existing stored Hsub) as Hcov.
  apply all_repeated_kept_none; [rewrite Hst; by apply Forall_app|done|].
  intros s Hs Hp. rewrite Forall_forall in Hg.
  assert (placed origin known s = false) as Hp0.
  { apply not_true_is_false. intros Hpl. by rewrite (placed_covers origin _ _ s Hcov Hpl) in Hp. }
  assert (s ∉ kept) as Hnk.
  { intros Hin. rewrite (stored_is_placed origin stored s) in Hp; [done| |by apply Hg].
    rewrite Hst. set_solver. }
  assert (s ∈ List.filter (fun s => negb (placed origin known s)) incoming) as Hsv.
  { apply list_elem_of_In, filter_In. split; [by apply list_elem_of_In|by rewrite Hp0]. }
  destruct Hk as [->|[Hw ->]]; [done|].
  rewrite Forall_forall in Hw. split; [by apply Hw|].
  apply (repeated_covers _ _ _ _ s Hcov). fold known.
  destruct (repeated slop ratio (seen_text known) s) eqn:Hrep; [done|]. exfalso. apply Hnk.
  apply list_elem_of_In, filter_In. split; [by apply list_elem_of_In|by rewrite Hrep].
Qed.

(** ** The guarantees apply *)

Definition demo_segment (timestamp start e : Z) (text : string) : doc :=
  doc_set [put_int "timestamp" timestamp; put_int "start" start; put_int "end" e; put_str "text" text].

(** A stored line, and an upload that repeats it at a clock offset together with
    a retried line, a short reply and a new line. *)
Definition demo_existing : list doc :=
  [demo_segment 1000 0 5 "We should ship on Friday"; demo_segment 1010 10 14 "I will write the release notes"].
Definition demo_incoming : list doc :=
  [demo_segment 1000 0 5 "We should ship on Friday";
   demo_segment 1070 70 75 "we should  ship on friday ";
   demo_segment 1081 81 85 "I will write the release notes";
   demo_segment 1090 90 91 "okay"].

Definition demo_kept : list doc := [demo_segment 1090 90 91 "okay"].

Lemma demo_dedupe :
  dedupe_segments_for_merge (inject_Z 1000) demo_existing demo_incoming _MERGE_TEXT_DUP_SLOP_SECONDS
    _MERGE_TEXT_DUP_DURATION_RATIO = Ok demo_kept.
Proof. vm_compute. reflexivity. Qed.

Lemma demo_kept_readable : Forall readable demo_kept.
Proof. repeat constructor. Qed.

Lemma reupload_is_absorbed_witness :
  dedupe_segments_for_merge (inject_Z 1000) (demo_kept ++ demo_existing) demo_incoming
    _MERGE_TEXT_DUP_SLOP_SECONDS _MERGE_TEXT_DUP_DURATION_RATIO = Ok [].
Proof.
  exact (reupload_is_absorbed (inject_Z 1000) demo_existing demo_incoming _ _ demo_kept
           (demo_kept ++ demo_existing) demo_dedupe (Permutation_app_comm _ _)
           demo_kept_readable).
Defined.

Lemma dedupe_is_shrink_only_witness :
  demo_kept `sublist_of` demo_incoming /\
  forall seg, seg ∈ demo_incoming ->
    seg ∈ demo_kept \/ placed (inject_Z 1000) (see_more nothing_seen demo_existing) seg = true \/
    repeated _MERGE_TEXT_DUP_SLOP_SECONDS _MERGE_TEXT_DUP_DURATION_RATIO
      (seen_text (see_more nothing_seen demo_existing)) seg = true.
Proof.
  exact (dedupe_is_shrink_only (inject_Z 1000) demo_existing demo_incoming _ _ demo_kept demo_dedupe).
Defined.
