(* ===== verification/QueuePolicy.v ===== *)
(** The durable-queue policy ([utils/durable_queue_policy.py]) and the
    projection-repair queue that runs on it ([database/projection_repair.py]).

    Durations are exact rationals of seconds, datetimes integers of
    microseconds; [timedelta] rounds to the nearest microsecond. *)
From S2P Require Export PyValue.

(** ** Outcomes *)

Inductive OutcomeKind : Type := ACK | RETRY | REJECT.

#[export] Instance outcome_kind_eq_dec : EqDecision OutcomeKind.
Proof. solve_decision. Defined.

Record ProcessOutcome : Type := {
  kind : OutcomeKind;
  error_text : option string;
  outcome_reason : option string;
}.

Definition _MAX_ERROR_TEXT : nat := 2000.
Definition _MAX_BACKOFF_EXPONENT : Z := 30.

Definition _bound_error (text : string) : string := py_take _MAX_ERROR_TEXT text.

Definition ack : ProcessOutcome := {| kind := ACK; error_text := None; outcome_reason := None |}.
Definition retry (text reason : string) : ProcessOutcome :=
  {| kind := RETRY; error_text := Some (_bound_error text); outcome_reason := Some reason |}.
Definition reject (text reason : string) : ProcessOutcome :=
  {| kind := REJECT; error_text := Some (_bound_error text); outcome_reason := Some reason |}.

(** ** Attempts *)

Record QueuePolicy : Type := {
  max_attempts : Z;
  base_backoff_seconds : Q;
  max_backoff_seconds : Q;
}.

Record AttemptDecision : Type := {
  terminal : bool;
  attempt_count : Z;
  available_at : option Z;
  decision_error_text : string;
  decision_reason : string;
  decision_status : string;
}.

Definition backoff_seconds (policy : QueuePolicy) (attempts : Z) : Q :=
  let exponent := Z.min (Z.max (attempts - 1) 0) _MAX_BACKOFF_EXPONENT in
  Qmin (max_backoff_seconds policy) (base_backoff_seconds policy * inject_Z (2 ^ exponent))%Q.

(** [timedelta(seconds=q)] *)
Definition timedelta_seconds (q : Q) : Z := round_half_even (q * inject_Z 1000000)%Q.

(** [o or dflt] on an optional text *)
Definition text_or (o : option string) (dflt : string) : string :=
  match o with
  | Some s => if String.eqb s "" then dflt else s
  | None => dflt
  end.

Definition decide_attempt (attempts : Z) (outcome : ProcessOutcome) (policy : QueuePolicy) (now : Z)
    : result pyexc AttemptDecision :=
  if bool_decide (kind outcome = ACK) then Raise (ValueError "ack is not an attempt failure")
  else if attempts <? 1 then Raise (ValueError "attempt_count must be at least 1")
  else
    let text := _bound_error (text_or (error_text outcome) "") in
    let reason := text_or (outcome_reason outcome) "unspecified" in
    if bool_decide (kind outcome = REJECT) || (max_attempts policy <=? attempts) then
      Ok {| terminal := true; attempt_count := attempts; available_at := None;
            decision_error_text := text; decision_reason := reason; decision_status := "dead_letter" |}
    else
      Ok {| terminal := false; attempt_count := attempts;
            available_at := Some (now + timedelta_seconds (backoff_seconds policy attempts));
            decision_error_text := text; decision_reason := reason; decision_status := "retrying" |}.

(** [adopt_on_identity]: whether an existing item is adopted. *)
Definition adopt_on_identity (existing_id : option string) (item_id : string) : result pyexc bool :=
  if String.eqb item_id "" then Raise (ValueError "item_id is required")
  else match existing_id with
       | None => Ok false
       | Some e => if negb (String.eqb e item_id) then Raise (ValueError "enqueue identity mismatch")
                   else Ok true
       end.

(** Ages of the items that are ready; a naive datetime is read as UTC, so every
    one is an instant. *)
Definition oldest_ready_age_seconds (created_ats : list (option Z)) (now : Z) : option Q :=
  match omap id created_ats with
  | [] => None
  | t :: rest => Some (inject_Z (Z.max 0 (now - foldl Z.min t rest)) / inject_Z 1000000)%Q
  end.

(** ** Draining *)

Record IsolatedResult (A : Type) : Type := { item : A; outcome : ProcessOutcome; raised : bool }.
Arguments item {A}.
Arguments outcome {A}.
Arguments raised {A}.

(** What a processor does with an item: return an outcome, return something
    else, or raise with the text of the exception. *)
Inductive processed : Type :=
| Returned (o : ProcessOutcome)
| NotAnOutcome
| Raised (text : string).

Fixpoint drain_isolated {A : Type} (items : list A) (process_one : A -> processed)
    : list (IsolatedResult A) :=
  match items with
  | [] => []
  | x :: rest =>
      match process_one x with
      | Returned o => {| item := x; outcome := o; raised := false |}
      | NotAnOutcome =>
          {| item := x; outcome := reject "processor returned a non-outcome" "invalid_outcome"; raised := true |}
      | Raised text => {| item := x; outcome := reject text "processor_exception"; raised := true |}
      end :: drain_isolated rest process_one
  end.

(** ** Projection repairs *)

(** The repair documents of a user in the order of their names, which is the
    order in which Firestore streams a query. *)
Abbreviation repairs := (list (string * doc)).

Definition PROCESSABLE_REPAIR_STATUSES : list string := ["queued"; "failed"].

Definition with_status (s : string) (docs : repairs) : repairs :=
  List.filter (fun kd => is_str (py_get kd.2 "status") s) docs.

(** [collection_ref.where('status', '==', s).limit(n).stream()] *)
Definition stream (docs : repairs) (s : string) (limit : nat) : repairs :=
  take limit (with_status s docs).

(** Append the streamed documents not seen yet, up to the limit. *)
Fixpoint collect (limit : nat) (chosen streamed : repairs) : repairs :=
  match streamed with
  | [] => chosen
  | kd :: rest =>
      if bool_decide (kd.1 ∈ map fst chosen) then collect limit chosen rest
      else
        let chosen := chosen ++ [kd] in
        if (limit <=? length chosen)%nat then chosen else collect limit chosen rest
  end.

Fixpoint choose (limit : nat) (docs chosen : repairs) (statuses : list string) : repairs :=
  match statuses with
  | [] => chosen
  | s :: rest =>
      let chosen := collect limit chosen (stream docs s limit) in
      if (limit <=? length chosen)%nat then chosen else choose limit docs chosen rest
  end.

(** How the callbacks and the status write of one document end: the loader or
    the repair raises; the repair acts and the write succeeds; the repair acts
    and the write raises. *)
Inductive repair_run : Type :=
| RepairRaised (text : string)
| Repaired (action : string)
| WriteRaised (text : string).

Definition process_one (runs : string -> repair_run) (kd : string * doc) : processed :=
  match runs kd.1 with
  | RepairRaised text => Returned (retry text "projection_repair_failed")
  | Repaired _ => Returned ack
  | WriteRaised text => Raised text
  end.

Definition repaired_fields (action : string) (now : Z) : list (string * field_write) :=
  [put_str "status" "repaired"; put_str "repair_action" action; put_time "updated_at" now].

Definition failed_fields (d : AttemptDecision) (now : Z) : list (string * field_write) :=
  [put_str "status" (if terminal d then "dead_letter" else "failed");
   put_int "attempt_count" (attempt_count d);
   put_str "error" (decision_error_text d);
   put_str "last_error_text" (decision_error_text d);
   (if terminal d then put_str "dead_letter_reason" (decision_reason d)
    else put_none "dead_letter_reason");
   put_time "updated_at" now].

Definition set_doc (docs : repairs) (k : string) (d : doc) : repairs :=
  map (fun kd => if String.eqb kd.1 k then (k, d) else kd) docs.

(** The writes of the successful repairs, made while draining. *)
Definition write_repaired (runs : string -> repair_run) (now : Z) (docs : repairs) (kd : string * doc)
    : repairs :=
  match runs kd.1 with
  | Repaired action => set_doc docs kd.1 (doc_update kd.2 (repaired_fields action now))
  | _ => docs
  end.

(** The decision on one failed result and its write. *)
Definition write_failed (policy : QueuePolicy) (now : Z) (docs : repairs)
    (r : IsolatedResult (string * doc)) : result pyexc repairs :=
  if bool_decide (kind (outcome r) = ACK) then Ok docs
  else
    let '(k, d) := item r in
    let* attempts := get_int_or d "attempt_count" 0 in
    let* decision := decide_attempt (attempts + 1) (outcome r) policy now in
    Ok (set_doc docs k (doc_update d (failed_fields decision now))).

Fixpoint write_all_failed (policy : QueuePolicy) (now : Z) (docs : repairs)
    (rs : list (IsolatedResult (string * doc))) : result pyexc repairs :=
  match rs with
  | [] => Ok docs
  | r :: rest => let* docs := write_failed policy now docs r in write_all_failed policy now docs rest
  end.

Definition default_policy (attempts : Z) : QueuePolicy :=
  {| max_attempts := attempts; base_backoff_seconds := inject_Z 1; max_backoff_seconds := inject_Z 1800 |}.

Definition process_projection_repairs (docs : repairs) (runs : string -> repair_run)
    (limit attempts now : Z) : result pyexc repairs :=
  if limit <? 1 then Raise (ValueError "limit must be positive")
  else if attempts <? 1 then Raise (ValueError "max_attempts must be positive")
  else
    let chosen := choose (Z.to_nat limit) docs [] PROCESSABLE_REPAIR_STATUSES in
    let results := drain_isolated chosen (process_one runs) in
    let docs := foldl (write_repaired runs now) docs chosen in
    write_all_failed (default_policy attempts) now docs results.
