(* ===== verification/QueueOps.v ===== *)
(** What the durable queue guarantees: bounded, growing back-off, and a repair
    queue that drains whatever the repairs do. *)
From S2P Require Export QueuePolicy.

(** ** Back-off *)

Lemma Qmin_le_l a b : (Qmin a b <= a)%Q.
Proof. unfold Qmin. destruct (Qle_bool a b) eqn:H; [apply Qle_refl|].
  apply Qnot_lt_le. intros Hlt. apply Qlt_le_weak, Qle_bool_iff in Hlt. congruence. Qed.

Lemma Qmin_mono a b c : (b <= c)%Q -> (Qmin a b <= Qmin a c)%Q.
Proof.
  intros Hbc. unfold Qmin.
  destruct (Qle_bool a b) eqn:H1, (Qle_bool a c) eqn:H2; try apply Qle_refl; try done.
  - apply Qle_bool_iff in H1. exfalso. assert (a <= c)%Q as Hac by (by eapply Qle_trans).
    apply Qle_bool_iff in Hac. congruence.
  - apply Qnot_lt_le. intros Hlt. apply Qlt_le_weak, Qle_bool_iff in Hlt. congruence.
Qed.

(** Back-off never exceeds its ceiling, never shrinks from one attempt to
    the next, and stops growing after thirty doublings, so that no attempt
    count overflows it. *)
Theorem backoff_is_bounded_and_monotone policy a b :
  (0 <= base_backoff_seconds policy)%Q -> a <= b ->
  (backoff_seconds policy a <= backoff_seconds policy b)%Q /\
  (backoff_seconds policy b <= max_backoff_seconds policy)%Q /\
  (_MAX_BACKOFF_EXPONENT < a -> backoff_seconds policy a = backoff_seconds policy b).
Proof.
  intros Hbase Hab. unfold backoff_seconds. split_and!; [|apply Qmin_le_l|].
  - apply Qmin_mono. rewrite !(Qmult_comm (base_backoff_seconds policy)).
    apply Qmult_le_compat_r; [|done]. rewrite <- Zle_Qle. apply Z.pow_le_mono_r; lia.
  - unfold _MAX_BACKOFF_EXPONENT. intros Ha. do 4 f_equal. lia.
Qed.

Lemma backoff_is_bounded_and_monotone_witness :
  (backoff_seconds (default_policy 3) 2 <= backoff_seconds (default_policy 3) 12)%Q /\
  (backoff_seconds (default_policy 3) 12 <= 1800)%Q /\
  (30 < 2 -> backoff_seconds (default_policy 3) 2 = backoff_seconds (default_policy 3) 12).
Proof.
  exact (backoff_is_bounded_and_monotone (default_policy 3) 2 12 ltac:(vm_compute; discriminate) ltac:(lia)).
Defined.

(** ** The repair queue drains *)

Definition processable (d : doc) : bool :=
  is_str (py_get d "status") "queued" || is_str (py_get d "status") "failed".

Definition attempts_of (d : doc) : Z :=
  match get_int_or d "attempt_count" 0 with Ok n => n | Raise _ => 0 end.

(** The attempts a document may still take. *)
Definition budget (limit : Z) (kd : string * doc) : Z :=
  if processable kd.2 then Z.max 1 (limit - attempts_of kd.2) else 0.

(** Distinct names, and a readable attempt count on every processable document. *)
Definition docs_ok (docs : repairs) : Prop :=
  NoDup (map fst docs) /\
  forall kd, kd ∈ docs -> processable kd.2 = true ->
    exists n, get_int_or kd.2 "attempt_count" 0 = Ok n /\ 0 <= n.

Lemma processable_repaired d action now : processable (doc_update d (repaired_fields action now)) = false.
Proof. unfold processable, repaired_fields. by doc_simpl. Qed.

Lemma failed_document d dec now :
  let d' := doc_update d (failed_fields dec now) in
  processable d' = negb (terminal dec) /\ get_int_or d' "attempt_count" 0 = Ok (attempt_count dec).
Proof.
  intros d'. subst d'. unfold processable, get_int_or, failed_fields.
  destruct (terminal dec); doc_simpl; simpl; (split; [done|]);
    unfold py_or; simpl; destruct (Z.eqb_spec (attempt_count dec) 0) as [->|]; done.
Qed.

Lemma in_set_doc docs k d kd :
  kd ∈ set_doc docs k d -> kd = (k, d) \/ (kd ∈ docs /\ kd.1 <> k).
Proof.
  unfold set_doc. intros (x & -> & Hx)%list_elem_of_fmap.
  destruct (String.eqb_spec x.1 k); [by left|by right].
Qed.

Lemma set_doc_other docs k d kd : kd ∈ docs -> kd.1 <> k -> kd ∈ set_doc docs k d.
Proof.
  intros Hin Hne. unfold set_doc. apply list_elem_of_fmap. exists kd. split; [|done].
  by destruct (String.eqb_spec kd.1 k).
Qed.

Lemma set_doc_names docs k d : map fst (set_doc docs k d) = map fst docs.
Proof.
  unfold set_doc. induction docs as [|x docs IH]; simpl; [done|]. rewrite IH.
  by destruct (String.eqb_spec x.1 k) as [<-|].
Qed.

Lemma set_doc_absent docs k d : k ∉ map fst docs -> set_doc docs k d = docs.
Proof.
  unfold set_doc. induction docs as [|x docs IH]; simpl; intros Hk; [done|].
  destruct (String.eqb_spec x.1 k); [set_solver|]. rewrite IH by set_solver. done.
Qed.

Lemma set_doc_sum (f : string * doc -> Z) docs k d d' :
  NoDup (map fst docs) -> (k, d) ∈ docs ->
  sum_over f (set_doc docs k d') = sum_over f docs - f (k, d) + f (k, d').
Proof.
  induction docs as [|x docs IH]; intros Hnd Hin; [set_solver|]. cbn [set_doc map] in *.
  fold (set_doc docs k d'). apply NoDup_cons in Hnd as [Hx Hnd]. rewrite !sum_over_cons. apply elem_of_cons in Hin as [<-|Hin].
  - cbn [fst] in *. rewrite String.eqb_refl. rewrite (set_doc_absent docs k d' Hx). lia.
  - assert (x.1 <> k) as Hne.
    { intros <-. apply Hx. apply list_elem_of_fmap. by exists (x.1, d). }
    destruct (String.eqb_spec x.1 k); [done|]. rewrite IH by done. lia.
Qed.

(** A write that takes one document a step closer to the end. *)
Lemma improve docs max k d d' :
  docs_ok docs -> (k, d) ∈ docs -> budget max (k, d') <= budget max (k, d) - 1 ->
  (processable d' = true -> exists n, get_int_or d' "attempt_count" 0 = Ok n /\ 0 <= n) ->
  docs_ok (set_doc docs k d') /\
  sum_over (budget max) (set_doc docs k d') <= sum_over (budget max) docs - 1.
Proof.
  intros [Hnd Hok] Hin Hb Hp. split.
  - split; [by rewrite set_doc_names|].
    intros kd [->|[Hkd _]]%in_set_doc; [done|by apply Hok].
  - rewrite (set_doc_sum _ docs k d d') by done. lia.
Qed.

Definition is_repaired (r : repair_run) : bool := match r with Repaired _ => true | _ => false end.

(** The writes made while draining. *)
Lemma repaired_phase runs now max chosen : forall docs,
  docs_ok docs -> NoDup (map fst chosen) ->
  (forall kd, kd ∈ chosen -> kd ∈ docs /\ processable kd.2 = true) ->
  let docs1 := foldl (write_repaired runs now) docs chosen in
  docs_ok docs1 /\ map fst docs1 = map fst docs /\
  (forall kd, kd ∈ docs -> kd.1 ∉ map fst chosen \/ is_repaired (runs kd.1) = false -> kd ∈ docs1) /\
  sum_over (budget max) docs1 <=
    sum_over (budget max) docs - sum_over (fun kd => if is_repaired (runs kd.1) then 1 else 0) chosen.
Proof.
  induction chosen as [|[k d] chosen IH]; intros docs Hok Hnd Hc.
  { simpl. split_and!; [done|done|auto|lia]. }
  cbn [map fst] in Hnd. apply NoDup_cons in Hnd as [Hk Hnd].
  destruct (Hc (k, d)) as [Hin Hp]; [set_solver|].
  cbn [foldl map fst]. rewrite sum_over_cons. cbn [fst].
  destruct (is_repaired (runs k)) eqn:Hr.
  2: { assert (write_repaired runs now docs (k, d) = docs) as ->
         by (unfold write_repaired; simpl; by destruct (runs k)).
       destruct (IH docs Hok Hnd) as (H1 & H2 & H3 & H4); [set_solver|].
       split_and!; [done|done| |lia]. intros kd Hkd [Hx|Hx]; apply H3; set_solver. }
  destruct (runs k) as [text|action|text] eqn:Hrun; try done.
  set (d' := doc_update d (repaired_fields action now)).
  assert (write_repaired runs now docs (k, d) = set_doc docs k d') as ->
    by (unfold write_repaired; simpl; by rewrite Hrun).
  destruct (improve docs max k d d') as [Hok' Hle]; [done|done| | |].
  { unfold budget. cbn [snd] in *. rewrite Hp. unfold d'. rewrite processable_repaired. lia. }
  { unfold d'. rewrite processable_repaired. done. }
  destruct (IH (set_doc docs k d') Hok' Hnd) as (H1 & H2 & H3 & H4).
  { intros kd Hkd. destruct (Hc kd) as [? ?]; [set_solver|]. split; [|done].
    apply set_doc_other; [done|]. intros <-. apply Hk, list_elem_of_fmap. by exists kd. }
  rewrite set_doc_names in H2. split_and!; [done|done| |lia].
  intros kd Hkd Hx. apply H3.
  - apply set_doc_other; [done|]. intros Heq. rewrite Heq in Hx. destruct Hx as [Hx|Hx]; [set_solver|].
    rewrite Hrun in Hx. done.
  - destruct Hx; [left; set_solver|by right].
Qed.

Lemma decide_failure o policy n now :
  kind o <> ACK -> 0 <= n ->
  exists dec, decide_attempt (n + 1) o policy now = Ok dec /\
    attempt_count dec = n + 1 /\ (terminal dec = false -> n + 1 < max_attempts policy).
Proof.
  intros Hk Hn. unfold decide_attempt. rewrite bool_decide_false by done.
  destruct (Z.ltb_spec (n + 1) 1); [lia|].
  destruct (Z.leb_spec (max_attempts policy) (n + 1)); rewrite ?orb_true_r, ?orb_false_r.
  - eexists. split; [reflexivity|]. done.
  - destruct (bool_decide _); (eexists; split; [reflexivity|]; simpl; split; [done|lia || done]).
Qed.

Lemma write_failed_ok policy now docs k d o r n :
  kind o <> ACK -> get_int_or d "attempt_count" 0 = Ok n -> 0 <= n ->
  exists dec,
    write_failed policy now docs {| item := (k, d); outcome := o; raised := r |} =
      Ok (set_doc docs k (doc_update d (failed_fields dec now))) /\
    attempt_count dec = n + 1 /\ (terminal dec = false -> n + 1 < max_attempts policy).
Proof.
  intros Hk Hn Hn0. destruct (decide_failure o policy n now) as (dec & Hdec & ? & ?); [done..|].
  exists dec. split; [|done]. unfold write_failed. cbn [outcome item].
  rewrite bool_decide_false by done. rewrite Hn. cbn [rbind]. by rewrite Hdec.
Qed.

(** How a run that repairs nothing is reported. *)
Definition failure_of (r : repair_run) : ProcessOutcome :=
  match r with
  | RepairRaised text => retry text "projection_repair_failed"
  | Repaired _ => ack
  | WriteRaised text => reject text "processor_exception"
  end.
Definition raised_of (r : repair_run) : bool := match r with WriteRaised _ => true | _ => false end.

Lemma drain_cons runs kd rest :
  drain_isolated (kd :: rest) (process_one runs) =
    {| item := kd; outcome := failure_of (runs kd.1); raised := raised_of (runs kd.1) |}
      :: drain_isolated rest (process_one runs).
Proof. cbn [drain_isolated]. unfold process_one at 1. by destruct (runs kd.1). Qed.

(** One failure spends one of its document's attempts. *)
Lemma failed_write runs now max docs k d :
  1 <= max -> docs_ok docs -> (k, d) ∈ docs -> processable d = true -> is_repaired (runs k) = false ->
  exists d', (forall rest,
      write_all_failed (default_policy max) now docs (drain_isolated ((k, d) :: rest) (process_one runs)) =
      write_all_failed (default_policy max) now (set_doc docs k d') (drain_isolated rest (process_one runs))) /\
    docs_ok (set_doc docs k d') /\
    sum_over (budget max) (set_doc docs k d') <= sum_over (budget max) docs - 1.
Proof.
  intros Hmax Hok Hin Hp Hr. destruct (proj2 Hok _ Hin Hp) as (n & Hn & Hn0). cbn [snd] in Hn.
  destruct (write_failed_ok (default_policy max) now docs k d (failure_of (runs k)) (raised_of (runs k)) n)
    as (dec & Hw & Hdec & Hterm); [by destruct (runs k)|done|done|].
  destruct (failed_document d dec now) as [Hp' Ha'].
  set (d' := doc_update d (failed_fields dec now)) in *.
  exists d'. split; [intros rest; rewrite drain_cons; cbn [write_all_failed fst]; by rewrite Hw|].
  apply (improve docs max k d d'); [done|done| |].
  - unfold budget, attempts_of. cbn [snd]. rewrite Hp, Hp', Ha', Hn, Hdec.
    destruct (terminal dec); simpl; [lia|]. specialize (Hterm eq_refl).
    cbn [default_policy max_attempts] in Hterm. lia.
  - intros _. exists (attempt_count dec). split; [done|lia].
Qed.

(** The writes made for the failures. *)
Lemma failed_phase runs now max chosen : 1 <= max -> forall docs,
  docs_ok docs -> NoDup (map fst chosen) ->
  (forall kd, kd ∈ chosen -> is_repaired (runs kd.1) = false -> kd ∈ docs /\ processable kd.2 = true) ->
  exists docs1,
    write_all_failed (default_policy max) now docs (drain_isolated chosen (process_one runs)) = Ok docs1 /\
    docs_ok docs1 /\ map fst docs1 = map fst docs /\
    (forall kd, kd ∈ docs -> kd.1 ∉ map fst chosen -> kd ∈ docs1) /\
    sum_over (budget max) docs1 <=
      sum_over (budget max) docs - sum_over (fun kd => if is_repaired (runs kd.1) then 0 else 1) chosen.
Proof.
  intros Hmax. induction chosen as [|[k d] chosen IH]; intros docs Hok Hnd Hc.
  { exists docs. simpl. split_and!; [done..|auto|lia]. }
  cbn [map fst] in Hnd. apply NoDup_cons in Hnd as [Hk Hnd]. rewrite sum_over_cons. cbn [fst].
  destruct (is_repaired (runs k)) eqn:Hr.
  - destruct (IH docs Hok Hnd) as (docs1 & Hw & ? & ? & Hkeep & ?).
    { intros kd Hkd Hx. apply Hc; [set_solver|done]. }
    exists docs1. split_and!; [|done|done|intros; apply Hkeep; set_solver|lia]. rewrite drain_cons. cbn [write_all_failed fst].
    unfold write_failed at 1. cbn [outcome]. rewrite bool_decide_true by (by destruct (runs k)). done.
  - destruct (failed_write runs now max docs k d Hmax) as (d' & Hd' & Hok' & Hle); [done|apply (Hc (k, d)); set_solver..|done|].
    destruct (IH (set_doc docs k d') Hok' Hnd) as (docs1 & Hw & ? & Hnames & Hkeep & ?).
    { intros kd Hkd Hx. destruct (Hc kd) as [? ?]; [set_solver|done|]. split; [|done].
      apply set_doc_other; [done|]. intros <-. apply Hk, list_elem_of_fmap. by exists kd. }
    rewrite set_doc_names in Hnames. exists docs1.
    split_and!; [by rewrite Hd'|done|done| |lia].
    intros kd Hkd Hx. apply Hkeep; [|set_solver]. apply set_doc_other; [done|set_solver].
Qed.

(** What is chosen for a pass. *)
Lemma collect_spec (P : string * doc -> Prop) limit streamed : forall chosen,
  NoDup (map fst chosen) -> (forall kd, kd ∈ chosen -> P kd) -> (forall kd, kd ∈ streamed -> P kd) ->
  let out := collect limit chosen streamed in
  NoDup (map fst out) /\ (forall kd, kd ∈ out -> P kd) /\
  (length chosen <= length out)%nat /\ (streamed <> [] -> out <> []).
Proof.
  induction streamed as [|kd rest IH]; intros chosen Hnd Hc Hs; simpl; [done|].
  destruct (bool_decide_reflect (kd.1 ∈ map fst chosen)) as [Hin|Hout].
  - destruct (IH chosen) as (? & ? & Hlen & ?); [done|done|set_solver|]. split_and!; [done..|].
    intros _ Hnil. rewrite Hnil in Hlen. destruct chosen; [simpl in Hin; set_solver|simpl in Hlen; lia].
  - assert (NoDup (map fst (chosen ++ [kd]))) as Hnd'.
    { rewrite map_app. apply NoDup_app. split_and!; [done| |apply NoDup_singleton]. set_solver. }
    assert (forall x, x ∈ chosen ++ [kd] -> P x) as Hc' by set_solver.
    destruct (_ <=? _)%nat.
    + split_and!; [done|done|rewrite length_app; lia|intros _ Hnil; by destruct chosen].
    + destruct (IH (chosen ++ [kd])) as (? & ? & Hlen & ?); [done|done|set_solver|].
      rewrite length_app in Hlen. simpl in Hlen. split_and!; [done|done|lia|].
      intros _ Hnil. rewrite Hnil in Hlen. simpl in Hlen. lia.
Qed.

Lemma in_stream docs s limit kd :
  kd ∈ stream docs s limit -> kd ∈ docs /\ is_str (py_get kd.2 "status") s = true.
Proof.
  unfold stream, with_status. intros Hin%subseteq_take%list_elem_of_In.
  by apply filter_In in Hin as [?%list_elem_of_In ?].
Qed.

Lemma stream_nonempty docs s limit kd :
  (1 <= limit)%nat -> kd ∈ docs -> is_str (py_get kd.2 "status") s = true -> stream docs s limit <> [].
Proof.
  intros Hlim Hin%list_elem_of_In Hs. unfold stream, with_status.
  assert (In kd (List.filter (fun kd => is_str (py_get kd.2 "status") s) docs)) as Hf by (by apply filter_In).
  destruct (List.filter _ docs); [done|]. destruct limit; [lia|done].
Qed.

Lemma choose_spec docs limit :
  (1 <= limit)%nat ->
  let chosen := choose limit docs [] PROCESSABLE_REPAIR_STATUSES in
  NoDup (map fst chosen) /\ (forall kd, kd ∈ chosen -> kd ∈ docs /\ processable kd.2 = true) /\
  forall kd, kd ∈ docs -> processable kd.2 = true -> chosen <> [].
Proof.
  intros Hlim. cbn [choose PROCESSABLE_REPAIR_STATUSES].
  set (P := fun kd : string * doc => kd ∈ docs /\ processable kd.2 = true).
  destruct (collect_spec P limit (stream docs "queued" limit) []) as (Hn1 & HP1 & _ & Hne1);
    [constructor|set_solver|..].
  { intros kd [? Hs]%in_stream. split; [done|]. unfold processable. by rewrite Hs. }
  set (c1 := collect limit [] (stream docs "queued" limit)) in *.
  destruct (collect_spec P limit (stream docs "failed" limit) c1) as (Hn2 & HP2 & Hlen & Hne2); [done|done|..].
  { intros kd [? Hs]%in_stream. split; [done|]. unfold processable. by rewrite Hs, orb_true_r. }
  set (c2 := collect limit c1 (stream docs "failed" limit)) in *.
  destruct (Nat.leb_spec limit (length c1)) as [Hfull|_].
  - split_and!; [done|done|]. intros kd _ _ Hnil. rewrite Hnil in Hfull. simpl in Hfull. lia.
  - destruct (limit <=? length c2)%nat; (split_and!; [done|done|]);
      intros kd Hin [Hs|Hs]%orb_true_iff; try (apply Hne2; by eapply stream_nonempty);
      intros Hnil; rewrite Hnil in Hlen; apply Hne1; try (by eapply stream_nonempty);
      destruct c1; done || (simpl in Hlen; lia).
Qed.

Lemma sum_over_flag {A : Type} (b : A -> bool) (x y : Z) l :
  0 <= x -> 0 <= y -> 0 <= sum_over (fun a => if b a then x else y) l.
Proof. intros Hx Hy. apply sum_over_nonneg. intros a _. by destruct (b a). Qed.

Lemma nodup_name (docs : repairs) x y :
  NoDup (map fst docs) -> x ∈ docs -> y ∈ docs -> x.1 = y.1 -> x = y.
Proof.
  intros Hnd (i & Hi)%list_elem_of_lookup (j & Hj)%list_elem_of_lookup Heq.
  assert (i = j) as <-; [|congruence].
  eapply (NoDup_lookup (map fst docs)); [done| |].
  - rewrite list_lookup_fmap, Hi. done.
  - rewrite list_lookup_fmap, Hj. simpl. by rewrite Heq.
Qed.

(** One pass succeeds, leaves what is settled alone, and spends at least one
    attempt when anything is left to repair. *)
Lemma pass_progress docs runs limit max now :
  docs_ok docs -> 1 <= limit -> 1 <= max ->
  exists docs', process_projection_repairs docs runs limit max now = Ok docs' /\
    docs_ok docs' /\ map fst docs' = map fst docs /\
    (forall kd, kd ∈ docs -> processable kd.2 = false -> kd ∈ docs') /\
    (sum_over (budget max) docs' < sum_over (budget max) docs \/
     docs' = docs /\ forall kd, kd ∈ docs -> processable kd.2 = false).
Proof.
  intros Hok Hlim Hmax. unfold process_projection_repairs.
  destruct (Z.ltb_spec limit 1); [lia|]. destruct (Z.ltb_spec max 1); [lia|].
  destruct (choose_spec docs (Z.to_nat limit)) as (Hnd & Hc & Hne); [lia|].
  set (chosen := choose _ docs [] _) in *.
  destruct (repaired_phase runs now max chosen docs) as (Hok1 & Hn1 & Hk1 & Hs1); [done..|].
  destruct (failed_phase runs now max chosen Hmax (foldl (write_repaired runs now) docs chosen))
    as (docs' & Hw & Hok' & Hn' & Hk' & Hs'); [done|done| |].
  { intros kd Hin Hr. destruct (Hc kd Hin). split; [apply Hk1; by auto|done]. }
  exists docs'. split_and!; [done|done|by rewrite Hn'| |].
  { intros kd Hin Hp. assert (kd.1 ∉ map fst chosen) as Hout.
    { intros (x & Hx & Hxc)%list_elem_of_fmap. destruct (Hc x Hxc) as [Hxd Hxp].
      rewrite (nodup_name docs kd x) in Hp by (done || apply Hok). congruence. }
    apply Hk'; [apply Hk1; by auto|done]. }
  destruct chosen as [|kd rest] eqn:Hch.
  - right. simpl in Hw. split; [by injection Hw|]. intros kd Hin.
    destruct (processable kd.2) eqn:Hp; [|done]. by destruct (Hne kd Hin Hp).
  - left. rewrite sum_over_cons in Hs1, Hs'.
    pose proof (sum_over_flag (fun kd => is_repaired (runs kd.1)) 1 0 rest ltac:(lia) ltac:(lia)).
    pose proof (sum_over_flag (fun kd => is_repaired (runs kd.1)) 0 1 rest ltac:(lia) ltac:(lia)).
    simpl in *.
    destruct (is_repaired (runs kd.1)); lia.
Qed.

(** Passes one after the other, each with the behaviour of its callbacks and
    its clock reading. *)
Fixpoint run_passes (limit max : Z) (passes : list ((string -> repair_run) * Z)) (docs : repairs)
    : result pyexc repairs :=
  match passes with
  | [] => Ok docs
  | (runs, now) :: rest =>
      let* docs := process_projection_repairs docs runs limit max now in
      run_passes limit max rest docs
  end.

Lemma settled_pass docs runs limit max now :
  docs_ok docs -> 1 <= limit -> 1 <= max -> (forall kd, kd ∈ docs -> processable kd.2 = false) ->
  process_projection_repairs docs runs limit max now = Ok docs.
Proof.
  intros Hok Hlim Hmax Hs. unfold process_projection_repairs.
  destruct (Z.ltb_spec limit 1); [lia|]. destruct (Z.ltb_spec max 1); [lia|].
  destruct (choose_spec docs (Z.to_nat limit)) as (_ & Hc & _); [lia|].
  destruct (choose _ docs [] _) as [|kd rest]; [done|].
  destruct (Hc kd) as [Hin Hp]; [set_solver|]. rewrite (Hs kd Hin) in Hp. done.
Qed.

Lemma passes_drain limit max passes : forall docs,
  docs_ok docs -> 1 <= limit -> 1 <= max ->
  sum_over (budget max) docs <= Z.of_nat (length passes) ->
  exists docs', run_passes limit max passes docs = Ok docs' /\ map fst docs' = map fst docs /\
    forall kd, (kd ∈ docs -> processable kd.2 = false -> kd ∈ docs') /\
      (kd ∈ docs' -> processable kd.2 = false).
Proof.
  induction passes as [|[runs now] rest IH]; intros docs Hok Hlim Hmax Hb.
  - exists docs. split_and!; [done|done|]. intros kd. split; [done|]. intros Hin.
    destruct (processable kd.2) eqn:Hp; [|done]. exfalso.
    assert (budget max kd <= sum_over (budget max) docs) as Hle.
    { apply sum_over_member; [|done]. intros x _. unfold budget. destruct (processable x.2); lia. }
    unfold budget at 1 in Hle. rewrite Hp in Hle. simpl in Hb. lia.
  - cbn [run_passes].
    destruct (pass_progress docs runs limit max now) as (d1 & -> & Hok1 & Hn1 & Hk1 & Hs1); [done..|].
    cbn [rbind].
    assert (sum_over (budget max) d1 <= Z.of_nat (length rest)) as Hb1.
    { rewrite length_cons in Hb. destruct Hs1 as [Hs1|[-> Hs1]]; [lia|].
      rewrite (sum_over_ext_in (budget max) (fun _ => 0) docs); [rewrite sum_over_zero; lia|].
      intros x Hx. unfold budget. by rewrite Hs1. }
    destruct (IH d1) as (d2 & -> & Hn2 & Hk2); [done..|].
    exists d2. split_and!; [done|by rewrite Hn2|]. intros kd.
    split; [intros Hin Hp; by apply Hk2, Hp; apply Hk1|apply Hk2].
Qed.

(** The repair queue drains: whatever the loaders, the repairs and the
    status writes do, [max_attempts] passes per document leave nothing
    processable; no pass raises, no document appears or disappears, and a
    document that was settled at the start is untouched. *)
Theorem repair_queue_drains docs limit max passes :
  docs_ok docs -> 1 <= limit -> 1 <= max ->
  max * Z.of_nat (length docs) <= Z.of_nat (length passes) ->
  exists docs', run_passes limit max passes docs = Ok docs' /\ map fst docs' = map fst docs /\
    forall kd, (kd ∈ docs -> processable kd.2 = false -> kd ∈ docs') /\
      (kd ∈ docs' -> processable kd.2 = false).
Proof.
  intros Hok Hlim Hmax Hlen. apply passes_drain; [done..|].
  etrans; [|exact Hlen]. apply sum_over_le_length. intros kd Hin. unfold budget, attempts_of.
  destruct (processable kd.2) eqn:Hp; [|lia].
  destruct (proj2 Hok kd Hin Hp) as (n & -> & Hn). lia.
Qed.

(** A queued document, a failed one on its last attempt and a settled one. *)
Definition sample_repairs : repairs :=
  [("a", doc_update ∅ [put_str "status" "queued"]);
   ("b", doc_update ∅ [put_str "status" "failed"; put_int "attempt_count" 2]);
   ("c", doc_update ∅ [put_str "status" "repaired"])].

Definition sample_pass : (string -> repair_run) * Z := (fun _ => RepairRaised "timeout", 7).

Lemma sample_repairs_ok : docs_ok sample_repairs.
Proof.
  split.
  - simpl. decided.
  - intros kd Hin _. unfold sample_repairs in Hin.
    repeat (apply elem_of_cons in Hin as [->|Hin]); [exists 0|exists 2|exists 0|set_solver]; by vm_compute.
Qed.

Lemma repair_queue_drains_witness :
  exists docs', run_passes 1 2 (repeat sample_pass 6) sample_repairs = Ok docs' /\
    map fst docs' = ["a"; "b"; "c"] /\
    forall kd, (kd ∈ sample_repairs -> processable kd.2 = false -> kd ∈ docs') /\
      (kd ∈ docs' -> processable kd.2 = false).
Proof.
  exact (repair_queue_drains sample_repairs 1 2 (repeat sample_pass 6) sample_repairs_ok
    ltac:(lia) ltac:(lia) ltac:(simpl; lia)).
Defined.
