(* ===== verification/SyncLedger.v ===== *)
(** The durable ledger of offline-sync content ([database/sync_ledger.py]): one
    document per uploaded content decides which job processes it, fences the
    runs of that job by the epoch of their lease, records each metering side
    effect once and publishes the result.

    A transaction is a function from the entry before it, [None] when the
    document does not exist, to its result and the entry after it; Firestore
    runs it atomically.  What [set(merge=True)] does to a map stored under a
    field that already holds a map is Firestore's and is the parameter
    [merge_maps]. *)
From S2P Require Export PyValue.

Abbreviation entry := (option doc).

(** The entries by user and content. *)
Abbreviation ledger := (gmap (string * string) doc).

Definition LEDGER_RETENTION_DAYS : Z := 45.
Definition CLAIM_STALE_SECONDS : Z := 2 * 24 * 60 * 60.

Definition microseconds (seconds : Z) : Z := seconds * 1000000.
Definition expiry (now : Z) : Z := now + microseconds (LEDGER_RETENTION_DAYS * 86400).

(** ** Results of the operations *)

Inductive SyncContentRunBindingOutcome : Type := BOUND | COMPLETED | LOST.

#[export] Instance binding_outcome_eq_dec : EqDecision SyncContentRunBindingOutcome.
Proof. solve_decision. Defined.

Record SyncContentRunBinding : Type := {
  binding_outcome : SyncContentRunBindingOutcome;
  binding_result : option pyval;
}.

Definition bound (b : SyncContentRunBinding) : bool := bool_decide (binding_outcome b = BOUND).
Definition completed (b : SyncContentRunBinding) : bool := bool_decide (binding_outcome b = COMPLETED).

Definition BOUND_NOW : SyncContentRunBinding := {| binding_outcome := BOUND; binding_result := None |}.
Definition LOST_NOW : SyncContentRunBinding := {| binding_outcome := LOST; binding_result := None |}.

(** The dictionary [_claim_transaction] returns. *)
Inductive claim_outcome : Type :=
| ClaimCompleted (result : pyval)
| ClaimOwned
| ClaimBusy.

(** ** Tests *)

(** [snapshot.to_dict() or {}] of an existing snapshot, [{}] otherwise. *)
Definition existing (e : entry) : doc := default ∅ e.

(** The token and the epoch a caller presents, [None] when it has none. *)
Definition opt_str (o : option string) : pyval := match o with Some s => PStr s | None => PNone end.
Definition opt_int (o : option Z) : pyval := match o with Some z => PInt z | None => PNone end.

Definition is_none (v : pyval) : bool := match v with PNone => true | _ => false end.

Definition _ledger_owner_matches (d : doc) (job_id : string) (run_token : option string)
    (run_epoch : option Z) : bool :=
  if negb (is_str (py_get d "status") "processing") || negb (is_str (py_get d "job_id") job_id) then false
  else
    let bound_token := py_get d "ledger_run_token" in
    let bound_epoch := py_get d "ledger_run_epoch" in
    match run_token with
    | None => is_none bound_token && is_none bound_epoch
    | Some _ => py_eqb bound_token (opt_str run_token) && py_eqb bound_epoch (opt_int run_epoch)
    end.

(** [outcome in {'success', 'expected_silence'}]: an unhashable outcome raises. *)
Definition settled_outcome (v : pyval) : result pyexc bool :=
  match v with
  | PList _ | PDict _ => Raise (TypeError "unhashable type")
  | _ => Ok (is_str v "success" || is_str v "expected_silence")
  end.

Definition is_valid_completed_sync_content_result (v : pyval) : result pyexc bool :=
  match v with
  | PDict d =>
      let get k := default PNone (assoc_value k d) in
      match get "failed_segments", get "total_segments", get "errors" with
      | PInt failed, PInt total, PList [] =>
          if (failed =? 0) && (0 <=? total) && (failed <=? total) then
            match get "outcome" with
            | PNone => Ok (0 <? total)
            | o => settled_outcome o
            end
          else Ok false
      | _, _, _ => Ok false
      end
  | _ => Ok false
  end.

(** ** Writes *)

(** The fields of [names] the document has, deleted. *)
Definition delete_present (d : doc) (names : list string) : list (string * field_write) :=
  map delete_key (List.filter (fun k => bool_decide (is_Some (d !! k))) names).

Definition _processing_claim_updates (job_id : string) (lane : pyval) (now : Z) (d : doc)
    (clear_invalid_completion : bool) : list (string * field_write) :=
  [put_str "status" "processing"; put_str "job_id" job_id; ("lane", Put lane);
   put_time "updated_at" now; put_time "expires_at" (expiry now)] ++
  delete_present d ["ledger_run_token"; "ledger_run_epoch"] ++
  (if clear_invalid_completion
   then delete_present d ["result"; "partial_result"; "processed_segment_ids"] else []).

(** [x in values], for the values the field may hold. *)
Definition py_in (x : string) (values : pyval) : result pyexc bool :=
  match values with
  | PList l => Ok (existsb (fun v => is_str v x) l)
  | PDict d => Ok (existsb (fun kv => String.eqb kv.1 x) d)
  | PStr s => Ok (match String.index 0 x s with Some _ => true | None => false end)
  | _ => Raise (TypeError "argument is not iterable")
  end.

(** [ArrayUnion([x])]: a field that is no array becomes one. *)
Definition array_union (old : pyval) (x : string) : pyval :=
  match old with
  | PList l => if existsb (fun v => is_str v x) l then PList l else PList (l ++ [PStr x])
  | _ => PList [PStr x]
  end.

Section Ledger.
Context (merge_maps : list (string * pyval) -> list (string * pyval) -> list (string * pyval)).

(** A value written under a field by [set(merge=True)]. *)
Definition merged (old new : pyval) : pyval :=
  match old, new with
  | PDict o, PDict (kv :: n) => PDict (merge_maps o (kv :: n))
  | _, _ => new
  end.

(** ** Transactions *)

Definition _claim_transaction (e : entry) (job_id lane : string) (now : Z)
    : result pyexc (entry * claim_outcome) :=
  let d := existing e in
  let claim clear := Some (doc_update d (_processing_claim_updates job_id (PStr lane) now d clear)) in
  if is_str (py_get d "status") "completed" then
    let* valid := is_valid_completed_sync_content_result (py_get d "result") in
    if valid then Ok (e, ClaimCompleted (py_get d "result")) else Ok (claim true, ClaimOwned)
  else if is_str (py_get d "job_id") job_id then Ok (e, ClaimOwned)
  else if is_str (py_get d "status") "retryable" then Ok (claim false, ClaimOwned)
  else if match as_time (py_get d "updated_at") with
          | Some t => now - t <? microseconds CLAIM_STALE_SECONDS
          | None => false
          end then Ok (e, ClaimBusy)
  else Ok (claim false, ClaimOwned).

Definition _bind_run_token_transaction (e : entry) (job_id run_token : string) (run_epoch now : Z)
    : result pyexc (entry * SyncContentRunBinding) :=
  let d := existing e in
  let token := [put_str "ledger_run_token" run_token; put_int "ledger_run_epoch" run_epoch] in
  if is_str (py_get d "status") "completed" then
    let* valid := is_valid_completed_sync_content_result (py_get d "result") in
    if valid then
      Ok (e, {| binding_outcome := COMPLETED; binding_result := Some (py_get d "result") |})
    else if negb (is_str (py_get d "job_id") job_id) then Ok (e, LOST_NOW)
    else
      Ok (Some (doc_update d
            (_processing_claim_updates job_id (PStr (get_str_or d "lane" "legacy")) now d true ++ token)),
          BOUND_NOW)
  else if negb (is_str (py_get d "status") "processing") || negb (is_str (py_get d "job_id") job_id)
  then Ok (e, LOST_NOW)
  else
    let adopt := Ok (Some (doc_update d (token ++ [put_time "updated_at" now])), BOUND_NOW) in
    match py_get d "ledger_run_epoch" with
    | PNone => adopt
    | PInt stored =>
        if run_epoch <? stored then Ok (e, LOST_NOW)
        else if stored =? run_epoch then
          Ok (e, if is_str (py_get d "ledger_run_token") run_token then BOUND_NOW else LOST_NOW)
        else adopt
    | _ => Ok (e, LOST_NOW)
    end.

Definition _SIDE_EFFECT_FIELDS (tag : string) : option string :=
  if String.eqb tag "speech_ms" then Some "metered_at"
  else if String.eqb tag "usage" then Some "usage_recorded_at"
  else if String.eqb tag "dg_ms" then Some "dg_recorded_at"
  else None.

Definition _side_effect_transaction (e : entry) (job_id tag : string) (value now : Z)
    (run_token : option string) (run_epoch : option Z) : result pyexc (entry * bool) :=
  let d := existing e in
  match _SIDE_EFFECT_FIELDS tag with
  | None => Raise (KeyError tag)
  | Some timestamp_field =>
      if negb (is_none (py_get d timestamp_field)) then Ok (e, false)
      else if negb (_ledger_owner_matches d job_id run_token run_epoch) then Ok (e, false)
      else Ok (Some (doc_update d [put_time timestamp_field now; put_int (tag ++ "_value") value;
                                   put_time "updated_at" now]), true)
  end.

Definition _checkpoint_partial_result_transaction (e : entry) (job_id : string)
    (partial_result : list (string * pyval)) (now : Z) (run_token : option string) (run_epoch : option Z)
    : result pyexc (entry * bool) :=
  let d := existing e in
  if negb (_ledger_owner_matches d job_id run_token run_epoch) then Ok (e, false)
  else Ok (Some (doc_update d
             [("partial_result", Put (merged (py_get d "partial_result") (PDict partial_result)));
              put_time "updated_at" now]), true).

Definition _processed_segment_transaction (e : entry) (job_id segment_id : string) (now : Z)
    (run_token : option string) (run_epoch : option Z) : result pyexc (entry * bool) :=
  let d := existing e in
  let* seen := py_in segment_id (py_or (py_get d "processed_segment_ids") (PList [])) in
  if seen then Ok (e, false)
  else if negb (_ledger_owner_matches d job_id run_token run_epoch) then Ok (e, false)
  else Ok (Some (doc_update d
             [("processed_segment_ids", Put (array_union (py_get d "processed_segment_ids") segment_id));
              put_time "updated_at" now]), true).

Definition _mark_completed_transaction (e : entry) (job_id : string) (res : pyval) (now : Z)
    (run_token : option string) (run_epoch : option Z) : result pyexc (entry * bool) :=
  let* valid := is_valid_completed_sync_content_result res in
  if negb valid then Ok (e, false)
  else
    let d := existing e in
    if negb (_ledger_owner_matches d job_id run_token run_epoch) then Ok (e, false)
    else Ok (Some (doc_update d
               [put_str "status" "completed"; ("result", Put (merged (py_get d "result") res));
                put_time "updated_at" now; put_time "expires_at" (expiry now)]), true).

(** What both releases write. *)
Definition released (d : doc) (now : Z) : doc :=
  doc_update d [put_str "status" "retryable"; delete_key "job_id"; delete_key "ledger_run_token";
                delete_key "ledger_run_epoch"; put_time "updated_at" now;
                put_time "expires_at" (expiry now)].

Definition _release_claim_transaction (e : entry) (job_id : string) (now : Z)
    (run_token : option string) (run_epoch : option Z) : result pyexc (entry * bool) :=
  let d := existing e in
  if is_str (py_get d "status") "completed" || negb (_ledger_owner_matches d job_id run_token run_epoch)
  then Ok (e, false)
  else Ok (Some (released d now), true).

Definition _release_claim_after_job_retired_transaction (e : entry) (job_id : string) (now : Z)
    : result pyexc (entry * bool) :=
  let d := existing e in
  if negb (is_str (py_get d "status") "processing") || negb (is_str (py_get d "job_id") job_id)
  then Ok (e, false)
  else Ok (Some (released d now), true).

(** ** The public operations

    An operation is one transaction on one entry at one clock reading, and
    changes nothing when it raises. *)

Definition on_entry {A : Type} (s : ledger) (ref : string * string)
    (txn : entry -> result pyexc (entry * A)) : ledger * result pyexc A :=
  match txn (s !! ref) with
  | Ok (Some d, a) => (<[ref := d]> s, Ok a)
  | Ok (None, a) => (s, Ok a)
  | Raise x => (s, Raise x)
  end.

Definition claim_sync_content (s : ledger) (uid content_id job_id lane : string) (now : Z) :=
  on_entry s (uid, content_id) (fun e => _claim_transaction e job_id lane now).

Definition bind_sync_content_run_token (s : ledger) (uid content_id job_id run_token : string)
    (run_epoch now : Z) :=
  on_entry s (uid, content_id) (fun e => _bind_run_token_transaction e job_id run_token run_epoch now).

Definition try_mark_sync_content_side_effect (s : ledger) (uid content_id job_id tag : string)
    (value : Z) (run_token : option string) (run_epoch : option Z) (now : Z)
    : ledger * result pyexc bool :=
  if bool_decide (_SIDE_EFFECT_FIELDS tag = None)
  then (s, Raise (ValueError "unsupported sync content side-effect tag"))
  else on_entry s (uid, content_id)
         (fun e => _side_effect_transaction e job_id tag value now run_token run_epoch).

Definition try_mark_sync_content_metered (s : ledger) (uid content_id job_id : string) (speech_ms : Z)
    (run_token : option string) (run_epoch : option Z) (now : Z) :=
  try_mark_sync_content_side_effect s uid content_id job_id "speech_ms" speech_ms run_token run_epoch now.

Definition checkpoint_sync_content_partial_result (s : ledger) (uid content_id job_id : string)
    (partial_result : list (string * pyval)) (run_token : option string) (run_epoch : option Z) (now : Z) :=
  on_entry s (uid, content_id)
    (fun e => _checkpoint_partial_result_transaction e job_id partial_result now run_token run_epoch).

Definition add_processed_sync_segment_id (s : ledger) (uid content_id job_id segment_id : string)
    (run_token : option string) (run_epoch : option Z) (now : Z) :=
  on_entry s (uid, content_id)
    (fun e => _processed_segment_transaction e job_id segment_id now run_token run_epoch).

Definition mark_sync_content_completed (s : ledger) (uid content_id job_id : string) (res : pyval)
    (run_token : option string) (run_epoch : option Z) (now : Z) :=
  on_entry s (uid, content_id)
    (fun e => _mark_completed_transaction e job_id res now run_token run_epoch).

Definition release_sync_content_claim (s : ledger) (uid content_id job_id : string)
    (run_token : option string) (run_epoch : option Z) (now : Z) :=
  on_entry s (uid, content_id) (fun e => _release_claim_transaction e job_id now run_token run_epoch).

Definition release_sync_content_claim_after_job_retired (s : ledger) (uid content_id job_id : string)
    (now : Z) :=
  on_entry s (uid, content_id) (fun e => _release_claim_after_job_retired_transaction e job_id now).

(** The characters of a text, each as a text (ASCII). *)
Definition characters (s : string) : list string :=
  map (fun c => String c EmptyString) (list_ascii_of_string s).

Definition get_processed_sync_segment_ids (s : ledger) (uid content_id : string)
    : result pyexc (gset string) :=
  match py_or (py_get (existing (s !! (uid, content_id))) "processed_segment_ids") (PList []) with
  | PList l => Ok (list_to_set (omap as_str l))
  | PDict d => Ok (list_to_set (map fst d))
  | PStr t => Ok (list_to_set (characters t))
  | _ => Raise (TypeError "object is not iterable")
  end.

Definition get_sync_content_partial_result (s : ledger) (uid content_id : string)
    : list (string * pyval) :=
  match py_get (existing (s !! (uid, content_id))) "partial_result" with
  | PDict d => d
  | _ => []
  end.

End Ledger.
