(* ===== verification/SyncLedgerOps.v ===== *)
(** What the sync-content ledger guarantees, over arbitrary histories of calls
    by any jobs, runs and recovery paths: a published completion is final, a
    superseded run is fenced, and metering side effects and segments are
    recorded once. *)
From S2P Require Export SyncLedger.

(** ** Histories *)

Inductive op : Type :=
| Claim (job lane : string)
| Bind (job token : string) (epoch : Z)
| SideEffect (job tag : string) (value : Z) (token : option string) (epoch : option Z)
| Checkpoint (job : string) (partial : list (string * pyval)) (token : option string) (epoch : option Z)
| Segment (job segment : string) (token : option string) (epoch : option Z)
| Complete (job : string) (res : pyval) (token : option string) (epoch : option Z)
| Release (job : string) (token : option string) (epoch : option Z)
| Retire (job : string).

Inductive reply : Type :=
| RClaim (c : claim_outcome)
| RBind (b : SyncContentRunBinding)
| RBool (b : bool)
| RRaise (x : pyexc).

(** A call: the entry, the operation, the clock reading. *)
Abbreviation ledger_call := ((string * string) * op * Z)%type.

Definition answer {A : Type} (f : A -> reply) (r : result pyexc A) : reply :=
  match r with Ok a => f a | Raise x => RRaise x end.

Section Histories.
Context (merge_maps : list (string * pyval) -> list (string * pyval) -> list (string * pyval)).

(** One call on the entry [ref] at time [now]. *)
Definition perform (s : ledger) (ref : string * string) (o : op) (now : Z) : ledger * reply :=
  let '(u, c) := ref in
  match o with
  | Claim job lane => let '(s, r) := claim_sync_content s u c job lane now in (s, answer RClaim r)
  | Bind job token epoch =>
      let '(s, r) := bind_sync_content_run_token s u c job token epoch now in (s, answer RBind r)
  | SideEffect job tag value token epoch =>
      let '(s, r) := try_mark_sync_content_side_effect s u c job tag value token epoch now in
      (s, answer RBool r)
  | Checkpoint job partial token epoch =>
      let '(s, r) := checkpoint_sync_content_partial_result merge_maps s u c job partial token epoch now in
      (s, answer RBool r)
  | Segment job segment token epoch =>
      let '(s, r) := add_processed_sync_segment_id s u c job segment token epoch now in
      (s, answer RBool r)
  | Complete job res token epoch =>
      let '(s, r) := mark_sync_content_completed merge_maps s u c job res token epoch now in
      (s, answer RBool r)
  | Release job token epoch =>
      let '(s, r) := release_sync_content_claim s u c job token epoch now in (s, answer RBool r)
  | Retire job =>
      let '(s, r) := release_sync_content_claim_after_job_retired s u c job now in (s, answer RBool r)
  end.

Fixpoint perform_all (s : ledger) (cs : list ledger_call) : ledger * list reply :=
  match cs with
  | [] => (s, [])
  | (ref, o, now) :: rest =>
      let '(s1, r) := perform s ref o now in
      let '(s2, rs) := perform_all s1 rest in
      (s2, r :: rs)
  end.

(** ** One step on one entry *)

Definition status_is (d : doc) (s : string) : bool := is_str (py_get d "status") s.
Definition held_by (d : doc) (job : string) : bool := is_str (py_get d "job_id") job.

(** What a call may do to the entry it names. *)
Inductive change (d : doc) (now : Z) : op -> doc -> Prop :=
| claimed job lane :
    status_is d "completed" = false -> held_by d job = false ->
    change d now (Claim job lane)
      (doc_update d (_processing_claim_updates job (PStr lane) now d false))
| repaired_claim job lane :
    status_is d "completed" = true ->
    is_valid_completed_sync_content_result (py_get d "result") = Ok false ->
    change d now (Claim job lane) (doc_update d (_processing_claim_updates job (PStr lane) now d true))
| repaired_bind job token epoch :
    status_is d "completed" = true ->
    is_valid_completed_sync_content_result (py_get d "result") = Ok false -> held_by d job = true ->
    change d now (Bind job token epoch)
      (doc_update d (_processing_claim_updates job (PStr (get_str_or d "lane" "legacy")) now d true ++
                     [put_str "ledger_run_token" token; put_int "ledger_run_epoch" epoch]))
| adopted job token epoch :
    status_is d "processing" = true -> held_by d job = true ->
    (forall stored, py_get d "ledger_run_epoch" = PInt stored -> stored < epoch) ->
    change d now (Bind job token epoch)
      (doc_update d ([put_str "ledger_run_token" token; put_int "ledger_run_epoch" epoch] ++
                     [put_time "updated_at" now]))
| marked job tag f value token epoch :
    _SIDE_EFFECT_FIELDS tag = Some f -> py_get d f = PNone ->
    _ledger_owner_matches d job token epoch = true ->
    change d now (SideEffect job tag value token epoch)
      (doc_update d [put_time f now; put_int (tag ++ "_value") value; put_time "updated_at" now])
| checkpointed job partial v token epoch :
    _ledger_owner_matches d job token epoch = true ->
    change d now (Checkpoint job partial token epoch)
      (doc_update d [("partial_result", Put v); put_time "updated_at" now])
| segmented job segment token epoch :
    py_in segment (py_or (py_get d "processed_segment_ids") (PList [])) = Ok false ->
    _ledger_owner_matches d job token epoch = true ->
    change d now (Segment job segment token epoch)
      (doc_update d [("processed_segment_ids",
                      Put (array_union (py_get d "processed_segment_ids") segment));
                     put_time "updated_at" now])
| published job res token epoch :
    is_valid_completed_sync_content_result res = Ok true ->
    _ledger_owner_matches d job token epoch = true ->
    change d now (Complete job res token epoch)
      (doc_update d [put_str "status" "completed";
                     ("result", Put (merged merge_maps (py_get d "result") res));
                     put_time "updated_at" now; put_time "expires_at" (expiry now)])
| freed o job :
    status_is d "processing" = true -> held_by d job = true ->
    (exists token epoch, o = Release job token epoch /\
       _ledger_owner_matches d job token epoch = true) \/ o = Retire job ->
    change d now o (released d now).

(** The transaction a call runs, its answer as a reply. *)
Definition fenced_reply (r : result pyexc (entry * bool)) : result pyexc (entry * reply) :=
  let* ' (e, b) := r in Ok (e, RBool b).

Definition transaction (o : op) (now : Z) (e : entry) : result pyexc (entry * reply) :=
  match o with
  | Claim job lane => let* ' (e, c) := _claim_transaction e job lane now in Ok (e, RClaim c)
  | Bind job token epoch =>
      let* ' (e, b) := _bind_run_token_transaction e job token epoch now in Ok (e, RBind b)
  | SideEffect job tag value token epoch =>
      if bool_decide (_SIDE_EFFECT_FIELDS tag = None)
      then Raise (ValueError "unsupported sync content side-effect tag")
      else fenced_reply (_side_effect_transaction e job tag value now token epoch)
  | Checkpoint job partial token epoch =>
      fenced_reply (_checkpoint_partial_result_transaction merge_maps e job partial now token epoch)
  | Segment job segment token epoch =>
      fenced_reply (_processed_segment_transaction e job segment now token epoch)
  | Complete job res token epoch =>
      fenced_reply (_mark_completed_transaction merge_maps e job res now token epoch)
  | Release job token epoch => fenced_reply (_release_claim_transaction e job now token epoch)
  | Retire job => fenced_reply (_release_claim_after_job_retired_transaction e job now)
  end.

Definition perform_on (s : ledger) (ref : string * string) (o : op) (now : Z) : ledger * reply :=
  match transaction o now (s !! ref) with
  | Ok (Some d, r) => (<[ref := d]> s, r)
  | Ok (None, r) => (s, r)
  | Raise x => (s, RRaise x)
  end.

Lemma perform_transaction s ref o now : perform s ref o now = perform_on s ref o now.
Proof.
  destruct ref as [u c]. unfold perform_on. destruct o; simpl.
  3: unfold try_mark_sync_content_side_effect; destruct (bool_decide _); [done|]; unfold on_entry.
  1,2: unfold claim_sync_content, bind_sync_content_run_token, on_entry.
  all: unfold fenced_reply, checkpoint_sync_content_partial_result, add_processed_sync_segment_id,
    mark_sync_content_completed, release_sync_content_claim,
    release_sync_content_claim_after_job_retired, on_entry;
    match goal with |- context [rbind ?x _] => destruct x as [[[d|] a]|x'] end; done.
Qed.

(** An owner holds a processing entry of its job. *)
Lemma owner_inv d job token epoch :
  _ledger_owner_matches d job token epoch = true ->
  status_is d "processing" = true /\ held_by d job = true.
Proof.
  unfold _ledger_owner_matches, status_is, held_by.
  destruct (is_str (py_get d "status") _), (is_str (py_get d "job_id") job); done.
Qed.

(** Follow every branch of the transactions in the hypotheses that returned. *)
Ltac follow :=
  repeat match goal with
  | H : Ok _ = Ok _ |- _ => injection H as H; subst
  | H : Raise _ = Ok _ |- _ => discriminate H
  | H : (_, _) = (_, _) |- _ => injection H as H; subst
  | H : rbind ?m _ = Ok _ |- _ => destruct m eqn:?; cbn [rbind] in H; [|discriminate H]
  | H : (let '(_, _) := ?p in _) = Ok _ |- _ => destruct p
  | H : (if ?b then _ else _) = Ok _ |- _ => destruct b eqn:?
  | H : match ?x with _ => _ end = Ok _ |- _ => destruct x eqn:?
  | H : negb _ = false |- _ => apply negb_false_iff in H
  | H : (_ || _) = false |- _ => apply orb_false_iff in H as [? ?]
  end.

Ltac read_only := left; split; [reflexivity|discriminate].
Ltac changed := right; eexists; split; [reflexivity|split; [|discriminate]].

(** Every call is read-only or one of the changes, and a fenced call answers
    whether it changed the entry. *)
Lemma transaction_change o now e e' r :
  transaction o now e = Ok (e', r) ->
  (e' = e /\ r <> RBool true) \/
  exists d', e' = Some d' /\ change (existing e) now o d' /\ r <> RBool false.
Proof.
  unfold transaction, fenced_reply, _claim_transaction, _bind_run_token_transaction,
    _side_effect_transaction, _checkpoint_partial_result_transaction, _processed_segment_transaction,
    _mark_completed_transaction, _release_claim_transaction, _release_claim_after_job_retired_transaction.
  intros H. destruct o; follow; try read_only; changed.
  all: try (by constructor).
  - apply adopted; [done|done|]. intros stored Hs. congruence.
  - apply adopted; [done|done|]. intros stored Hs.
    destruct (Z.ltb_spec epoch z), (Z.eqb_spec z epoch); try done. replace stored with z by congruence. lia.
  - apply marked; [done| |done]. by destruct (py_get (existing e) s).
  - subst. by apply published.
  - match goal with H : _ = true |- _ => destruct (owner_inv _ _ _ _ H) end.
    eapply freed; [done|done|]. left. eauto.
  - eapply freed; [done|done|by right].
Qed.

(** ** Steps of the ledger *)

Lemma perform_step s ref o now s' r :
  perform s ref o now = (s', r) ->
  (s' = s /\ r <> RBool true) \/
  exists d', s' = <[ref := d']> s /\ change (existing (s !! ref)) now o d' /\ r <> RBool false.
Proof.
  rewrite perform_transaction. unfold perform_on. intros H.
  destruct (transaction o now (s !! ref)) as [[e' a]|x] eqn:Ht.
  - apply transaction_change in Ht as [[-> Ha]|(d' & -> & Hc & Ha)].
    + left. destruct (s !! ref) eqn:Hs; injection H as <- <-; [by rewrite insert_id|done].
    + right. injection H as <- <-. eauto.
  - injection H as <- <-. by left.
Qed.

(** A property of one entry that every change of it preserves holds along any
    history of the whole ledger. *)
Lemma history_keeps (ref : string * string) (P : doc -> Prop) (allowed : op -> Prop) cs : forall s,
  (forall d now o d', P d -> allowed o -> change d now o d' -> P d') ->
  P (existing (s !! ref)) -> Forall (fun c => c.1.1 = ref -> allowed c.1.2) cs ->
  P (existing ((perform_all s cs).1 !! ref)).
Proof.
  induction cs as [|[[ref' o] now] cs IH]; intros s Hstep HP Ha; simpl; [done|].
  apply Forall_cons in Ha as [Ho Ha]. simpl in Ho.
  destruct (perform s ref' o now) as [s1 r] eqn:Hp.
  specialize (IH s1 Hstep). destruct (perform_all s1 cs) as [s2 rs]. apply IH; [|done]. clear IH.
  apply perform_step in Hp as [[-> _]|(d' & -> & Hc & _)]; [done|].
  destruct (decide (ref' = ref)) as [->|Hne].
  - rewrite lookup_insert_eq. simpl. eapply Hstep; eauto.
  - by rewrite lookup_insert_ne.
Qed.
(** ** What a claim writes *)

Lemma doc_update_app d ws1 ws2 : doc_update d (ws1 ++ ws2) = doc_update (doc_update d ws1) ws2.
Proof. apply foldl_app. Qed.

Lemma lookup_delete_present d names : forall d' k,
  doc_update d' (delete_present d names) !! k =
    if bool_decide (k ∈ names) && bool_decide (is_Some (d !! k)) then None else d' !! k.
Proof.
  induction names as [|n names IH]; intros d' k; [done|]. unfold delete_present in *. simpl.
  assert (k ∈ n :: names <-> k = n \/ k ∈ names) as Hin by apply elem_of_cons.
  case_bool_decide as Hn; simpl; rewrite ?IH.
  - unfold write_field; simpl.
    destruct (decide (k = n)) as [->|Hne].
    + rewrite (bool_decide_true (n ∈ n :: names)), (bool_decide_true (is_Some (d !! n))) by (done || set_solver).
      simpl. rewrite lookup_delete_eq. by destruct (_ && _).
    + rewrite lookup_delete_ne by done. rewrite (bool_decide_ext _ _ Hin).
      by rewrite (bool_decide_ext (k = n \/ k ∈ names) (k ∈ names)) by naive_solver.
  - destruct (decide (k = n)) as [->|Hne].
    + rewrite (bool_decide_false (is_Some (d !! n))) by done. by rewrite !andb_false_r.
    + rewrite (bool_decide_ext _ _ Hin).
      by rewrite (bool_decide_ext (k = n \/ k ∈ names) (k ∈ names)) by naive_solver.
Qed.

Lemma get_delete_present d d' names k :
  (k ∈ names -> d !! k = None -> d' !! k = None) ->
  py_get (doc_update d' (delete_present d names)) k = if bool_decide (k ∈ names) then PNone else py_get d' k.
Proof.
  intros Hd. unfold py_get. rewrite lookup_delete_present.
  destruct (bool_decide_reflect (k ∈ names)) as [Hk|]; [|done]. simpl.
  case_bool_decide as Hs; [done|]. by rewrite Hd by (done || by apply eq_None_not_Some).
Qed.

Lemma get_delete_absent d d' names k :
  k ∉ names -> py_get (doc_update d' (delete_present d names)) k = py_get d' k.
Proof. intros Hk. by rewrite get_delete_present, bool_decide_false by done. Qed.

Definition CLAIM_FIELDS : list string := ["status"; "job_id"; "lane"; "updated_at"; "expires_at"].
Definition RUN_FIELDS : list string := ["ledger_run_token"; "ledger_run_epoch"].
Definition COMPLETION_FIELDS : list string := ["result"; "partial_result"; "processed_segment_ids"].

(** Apart from the fields of the claim itself, a claim deletes the run and,
    when it repairs an invalid completion, the completion. *)
Lemma claim_get job lane now d clear k :
  k ∉ CLAIM_FIELDS ->
  py_get (doc_update d (_processing_claim_updates job lane now d clear)) k =
    if bool_decide (k ∈ RUN_FIELDS) || clear && bool_decide (k ∈ COMPLETION_FIELDS) then PNone else py_get d k.
Proof.
  intros Hk. unfold _processing_claim_updates. rewrite !doc_update_app.
  set (base := [put_str "status" "processing"; _; _; _; _]).
  assert (forall k', k' ∉ CLAIM_FIELDS -> doc_update d base !! k' = d !! k') as Hb.
  { intros k' Hk'. rewrite lookup_doc_update. unfold CLAIM_FIELDS in Hk'. simpl.
    repeat match goal with |- context [String.eqb k' ?f] =>
      destruct (String.eqb_spec k' f) as [->|]; [exfalso; apply Hk'; decided|] end. done. }
  assert (py_get (doc_update (doc_update d base) (delete_present d RUN_FIELDS)) k =
          if bool_decide (k ∈ RUN_FIELDS) then PNone else py_get d k) as Hr.
  { rewrite get_delete_present by (rewrite Hb; done). unfold py_get. by rewrite Hb. }
  destruct clear; cbn [andb]; [|by rewrite orb_false_r].
  rewrite get_delete_present.
  - fold RUN_FIELDS COMPLETION_FIELDS. rewrite Hr.
    by destruct (bool_decide (k ∈ RUN_FIELDS)), (bool_decide (k ∈ COMPLETION_FIELDS)).
  - intros _ Hn. fold RUN_FIELDS. rewrite lookup_delete_present, Hb, Hn by done. by destruct (_ && _).
Qed.

Lemma claim_get_base job lane now d clear :
  let d' := doc_update d (_processing_claim_updates job lane now d clear) in
  py_get d' "status" = PStr "processing" /\ py_get d' "job_id" = PStr job.
Proof.
  intros d'. subst d'. unfold _processing_claim_updates. rewrite !doc_update_app.
  destruct clear.
  2: repeat match goal with |- context [doc_update ?x []] => change (doc_update x []) with x end.
  all: split; rewrite !get_delete_absent by decided; doc_simpl; done.
Qed.

(** ** The ownership protocol

    The five fields that decide who owns an entry, and the protocol they
    follow. *)

Record core : Type := Core { c_status : pyval; c_job : pyval; c_token : pyval; c_epoch : pyval; c_result : pyval }.

Definition core_of (d : doc) : core :=
  Core (py_get d "status") (py_get d "job_id") (py_get d "ledger_run_token")
       (py_get d "ledger_run_epoch") (py_get d "result").

Definition core_completed (c : core) : bool := is_str (c_status c) "completed".
Definition core_held (c : core) (job : string) : bool := is_str (c_job c) job.

Definition core_owner (c : core) (job : string) (token : option string) (epoch : option Z) : bool :=
  is_str (c_status c) "processing" && core_held c job &&
  match token with
  | None => is_none (c_token c) && is_none (c_epoch c)
  | Some _ => py_eqb (c_token c) (opt_str token) && py_eqb (c_epoch c) (opt_int epoch)
  end.

(** The calls that record work and leave ownership alone. *)
Definition records (o : op) : bool :=
  match o with SideEffect _ _ _ _ _ | Checkpoint _ _ _ _ | Segment _ _ _ _ => true | _ => false end.

Inductive core_step (c : core) : op -> core -> Prop :=
| core_same o : records o = true -> core_step c o c
| core_claimed job lane :
    core_completed c = false -> core_held c job = false ->
    core_step c (Claim job lane) (Core (PStr "processing") (PStr job) PNone PNone (c_result c))
| core_repaired_claim job lane :
    core_completed c = true -> is_valid_completed_sync_content_result (c_result c) = Ok false ->
    core_step c (Claim job lane) (Core (PStr "processing") (PStr job) PNone PNone PNone)
| core_repaired_bind job token epoch :
    core_completed c = true -> is_valid_completed_sync_content_result (c_result c) = Ok false ->
    core_held c job = true ->
    core_step c (Bind job token epoch)
      (Core (PStr "processing") (PStr job) (PStr token) (PInt epoch) PNone)
| core_adopted job token epoch :
    is_str (c_status c) "processing" = true -> core_held c job = true ->
    (forall stored, c_epoch c = PInt stored -> stored < epoch) ->
    core_step c (Bind job token epoch)
      (Core (c_status c) (c_job c) (PStr token) (PInt epoch) (c_result c))
| core_published job res token epoch :
    is_valid_completed_sync_content_result res = Ok true -> core_owner c job token epoch = true ->
    core_step c (Complete job res token epoch)
      (Core (PStr "completed") (c_job c) (c_token c) (c_epoch c) (merged merge_maps (c_result c) res))
| core_freed o job :
    is_str (c_status c) "processing" = true -> core_held c job = true ->
    (exists token epoch, o = Release job token epoch /\ core_owner c job token epoch = true) \/
      o = Retire job ->
    core_step c o (Core (PStr "retryable") PNone PNone PNone (c_result c)).

Lemma owner_core d job token epoch :
  _ledger_owner_matches d job token epoch = core_owner (core_of d) job token epoch.
Proof.
  unfold _ledger_owner_matches, core_owner, core_held. cbn [c_status c_job c_token c_epoch core_of].
  by destruct (is_str (py_get d "status") _), (is_str (py_get d "job_id") job).
Qed.

(** A field none of the writes of a repaired bind or a plain update names. *)
Lemma core_of_update d ws :
  Forall (fun kw => kw.1 ∉ ["status"; "job_id"; "ledger_run_token"; "ledger_run_epoch"; "result"]) ws ->
  core_of (doc_update d ws) = core_of d.
Proof.
  intros Hws. unfold core_of. f_equal; apply py_get_update_other; eapply Forall_impl; try exact Hws;
    intros kw Hk; apply String.eqb_neq; intros Heq; apply Hk; rewrite <- Heq; decided.
Qed.

Lemma core_of_claim job lane now d clear :
  core_of (doc_update d (_processing_claim_updates job lane now d clear)) =
    Core (PStr "processing") (PStr job) PNone PNone (if clear then PNone else py_get d "result").
Proof.
  destruct (claim_get_base job lane now d clear) as [H1 H2]. unfold core_of.
  rewrite H1, H2, !claim_get by decided. by destruct clear.
Qed.

Lemma mark_pairs tag f :
  _SIDE_EFFECT_FIELDS tag = Some f ->
  (tag = "speech_ms" /\ f = "metered_at") \/ (tag = "usage" /\ f = "usage_recorded_at") \/
  (tag = "dg_ms" /\ f = "dg_recorded_at").
Proof.
  unfold _SIDE_EFFECT_FIELDS.
  destruct (String.eqb_spec tag "speech_ms"); [intros [= <-]; auto|].
  destruct (String.eqb_spec tag "usage"); [intros [= <-]; auto|].
  destruct (String.eqb_spec tag "dg_ms"); [intros [= <-]; auto|done].
Qed.

(** The ledger implements the protocol. *)
Lemma change_core d now o d' : change d now o d' -> core_step (core_of d) o (core_of d').
Proof.
  destruct 1 as [| | | |job tag f value token epoch Hf Hn Ho|job partial v token epoch Ho
    |job segment token epoch Hs Ho|job res token epoch Hv Ho|o job Hs Hh Ho];
    rewrite ?owner_core in *.
  - rewrite core_of_claim. by apply core_claimed.
  - rewrite core_of_claim. by apply core_repaired_claim.
  - rewrite doc_update_app.
    match goal with |- context [core_of (doc_update ?d0 _)] => set (d1 := d0) end.
    assert (core_of d1 = Core (PStr "processing") (PStr job) PNone PNone PNone) as Hd by apply core_of_claim.
    injection Hd as E1 E2 _ _ E5. unfold core_of at 2. doc_simpl.
    rewrite E1, E2, E5. by apply core_repaired_bind.
  - unfold core_of at 2. doc_simpl. by apply core_adopted.
  - rewrite core_of_update; [by constructor|].
    destruct (mark_pairs tag f Hf) as [[-> ->]|[[-> ->]|[-> ->]]]; repeat constructor; simpl; decided.
  - rewrite core_of_update; [by constructor|]. repeat constructor; simpl; decided.
  - rewrite core_of_update; [by constructor|]. repeat constructor; simpl; decided.
  - unfold core_of at 2. doc_simpl. by apply (core_published (core_of d)).
  - unfold core_of at 2, released. doc_simpl. eapply core_freed; [done|done|].
    destruct Ho as [(token & epoch & -> & Ho)|Ho]; [left|by right]. rewrite owner_core in Ho. eauto.
Qed.

(** ** Reachable entries *)

(** Completed entries carry a valid result, and only they carry one. *)
Definition core_sound (c : core) : Prop :=
  if core_completed c
  then is_valid_completed_sync_content_result (c_result c) = Ok true
  else c_result c = PNone.

Lemma core_owner_status c job token epoch :
  core_owner c job token epoch = true -> c_status c = PStr "processing".
Proof.
  unfold core_owner. destruct (is_str (c_status c) "processing") eqn:Hs; [|done]. by apply is_str_spec in Hs.
Qed.

Lemma core_sound_step c o c' : core_sound c -> core_step c o c' -> core_sound c'.
Proof.
  unfold core_sound. intros Hc. destruct 1 as [o _|job lane H1 H2|job lane H1 H2|job token epoch H1 H2 H3
    |job token epoch H1 H2 H3|job res token epoch H1 H2|o job H1 H2 H3]; simpl; try done.
  - by rewrite H1 in Hc.
  - apply core_owner_status in H2. unfold core_completed in Hc. rewrite H2 in Hc. simpl in Hc. by rewrite Hc.
  - apply is_str_spec in H1. unfold core_completed in *. by rewrite H1 in Hc.
Qed.

Lemma reachable_sound cs ref : core_sound (core_of (existing ((perform_all ∅ cs).1 !! ref))).
Proof.
  apply (history_keeps ref (fun d => core_sound (core_of d)) (fun _ => True)).
  - intros d now o d' Hd _ Hc. eapply core_sound_step; [done|]. by eapply change_core.
  - by rewrite lookup_empty.
  - by apply Forall_true.
Qed.

(** ** A published completion is final *)

Definition final (c : core) : Prop :=
  core_completed c = true /\ is_valid_completed_sync_content_result (c_result c) = Ok true.

Lemma final_unchanged d now o d' : final (core_of d) -> ~ change d now o d'.
Proof.
  unfold final, core_completed. intros [Hs Hv] Hc.
  assert (is_str (py_get d "status") "processing" = true -> False) as Hp.
  { intros Hp. apply is_str_spec in Hs, Hp. simpl in Hs. congruence. }
  destruct Hc; try (apply Hp; assumption); simpl in *; try congruence;
    try (apply Hp; eapply owner_inv; eassumption).
  unfold status_is in *. congruence.
Qed.

(** What a call on a completed entry answers. *)
Definition final_reply (res : pyval) (o : op) (r : reply) : Prop :=
  match o with
  | Claim _ _ => r = RClaim (ClaimCompleted res)
  | Bind _ _ _ => r = RBind {| binding_outcome := COMPLETED; binding_result := Some res |}
  | _ => r <> RBool true
  end.

Lemma final_perform s ref o now d :
  s !! ref = Some d -> final (core_of d) ->
  (perform s ref o now).1 = s /\ final_reply (py_get d "result") o (perform s ref o now).2.
Proof.
  intros Hd Hf. destruct (perform s ref o now) as [s' r] eqn:Hp. simpl.
  pose proof (perform_step _ _ _ _ _ _ Hp) as [[-> Hr]|(d' & _ & Hc & _)].
  2: { rewrite Hd in Hc. by destruct (final_unchanged _ _ _ _ Hf Hc). }
  split; [done|]. rewrite perform_transaction in Hp. unfold perform_on in Hp. rewrite Hd in Hp.
  destruct Hf as [Hs Hv]. unfold core_completed in Hs. simpl in Hs, Hv.
  destruct o; simpl in *; try done;
    unfold _claim_transaction, _bind_run_token_transaction in Hp; simpl in Hp;
    rewrite Hs, Hv in Hp; simpl in Hp; injection Hp as _ <-; done.
Qed.

Lemma final_history ref d cs : forall s,
  s !! ref = Some d -> final (core_of d) ->
  (perform_all s cs).1 !! ref = Some d /\
  Forall2 (fun (c : ledger_call) r => c.1.1 = ref -> final_reply (py_get d "result") c.1.2 r)
    cs (perform_all s cs).2.
Proof.
  induction cs as [|[[ref' o] now] cs IH]; intros s Hd Hf; simpl; [by split|].
  destruct (perform s ref' o now) as [s1 r] eqn:Hp.
  assert (s1 !! ref = Some d) as Hd1.
  { destruct (decide (ref' = ref)) as [->|Hne].
    - destruct (final_perform s ref o now d Hd Hf) as [Hs _]. rewrite Hp in Hs. simpl in Hs. by subst.
    - apply perform_step in Hp as [[-> _]|(d' & -> & _)]; [done|]. by rewrite lookup_insert_ne. }
  destruct (IH s1 Hd1 Hf) as [H1 H2]. destruct (perform_all s1 cs) as [s2 rs]. simpl in *.
  split; [done|]. constructor; [|done]. simpl. intros ->.
  destruct (final_perform s ref o now d Hd Hf) as [_ Hr]. by rewrite Hp in Hr.
Qed.

Lemma publish_inv c job res token epoch c' :
  core_sound c -> core_step c (Complete job res token epoch) c' ->
  c' = Core (PStr "completed") (c_job c) (c_token c) (c_epoch c) res /\
  is_valid_completed_sync_content_result res = Ok true.
Proof.
  intros Hc Hs. inversion Hs as [| | | | |job' res' token' epoch' Hv Ho|o' job' _ _ Ho]; subst; try done.
  - unfold core_sound, core_completed in Hc. rewrite (core_owner_status _ _ _ _ Ho) in Hc. simpl in Hc.
    split; [|done]. by rewrite Hc.
  - by destruct Ho as [(? & ? & ? & _)|?].
Qed.

(** A published completion is final: in every ledger the calls can reach,
    once a call has completed an entry, no later call of any job, run or
    recovery path ever changes that entry again; every later claim and every
    later bind is answered with exactly the published result, and every other
    mutation is refused. *)
Theorem completion_is_final past ref job res token epoch now s1 later :
  perform (perform_all ∅ past).1 ref (Complete job res token epoch) now = (s1, RBool true) ->
  py_get (existing (s1 !! ref)) "result" = res /\
  (perform_all s1 later).1 !! ref = s1 !! ref /\
  Forall2 (fun (c : ledger_call) r => c.1.1 = ref -> final_reply res c.1.2 r) later (perform_all s1 later).2.
Proof.
  intros Hp. apply perform_step in Hp as [[_ Hr]|(d' & -> & Hc & _)]; [done|].
  pose proof (reachable_sound past ref) as Hsound.
  assert (final (core_of d') /\ py_get d' "result" = res) as [Hf Hres].
  { apply change_core in Hc. set (c := core_of (existing _)) in *. clearbody c.
    change (py_get d' "result") with (c_result (core_of d')). destruct (publish_inv c _ _ _ _ _ Hsound Hc) as [-> Hv].
    by split. }
  rewrite lookup_insert_eq. simpl. split; [done|].
  destruct (final_history ref d' later (<[ref := d']> (perform_all ∅ past).1)) as [H1 H2];
    [by rewrite lookup_insert_eq|done|]. by rewrite Hres in H2.
Qed.

Lemma perform_all_app s cs1 cs2 :
  perform_all s (cs1 ++ cs2) =
    ((perform_all (perform_all s cs1).1 cs2).1,
     (perform_all s cs1).2 ++ (perform_all (perform_all s cs1).1 cs2).2).
Proof.
  revert s. induction cs1 as [|[[ref o] now] cs1 IH]; intros s; simpl; [by destruct (perform_all s cs2)|].
  destruct (perform s ref o now) as [s1 r]. rewrite IH.
  destruct (perform_all s1 cs1) as [s2 rs]. simpl. by destruct (perform_all s2 cs2).
Qed.

(** ** A superseded run is fenced *)

(** The claim of [job] was lost, or the entry is final, or a run of [job] with
    at least epoch [n] holds it. *)
Definition beyond (job : string) (n : Z) (c : core) : Prop :=
  core_sound c /\
  (core_held c job = false \/ core_completed c = true \/
   (c_status c = PStr "processing" /\ exists e, c_epoch c = PInt e /\ n <= e)).

Lemma beyond_step job n c o c' :
  (forall lane, o <> Claim job lane) -> beyond job n c -> core_step c o c' -> beyond job n c'.
Proof.
  intros Hcl [Hs Hb] Hc. split; [by eapply core_sound_step|].
  assert (core_completed c = true -> is_valid_completed_sync_content_result (c_result c) = Ok false -> False) as Hinv.
  { intros H1 H2. unfold core_sound in Hs. rewrite H1 in Hs. congruence. }
  destruct Hc as [o _|job' lane H1 H2|job' lane H1 H2|job' token epoch H1 H2 H3
    |job' token epoch H1 H2 H3|job' res token epoch H1 H2|o job' H1 H2 H3]; [done|..]; simpl in *.
  - left. unfold core_held. simpl. apply String.eqb_neq. intros ->. by apply (Hcl lane).
  - by destruct Hinv.
  - by destruct Hinv.
  - destruct Hb as [Hb|[Hb|(Hst & e & He & Hle)]]; [by left|by right; left|]. right. right.
    split; [done|]. exists epoch. split; [done|]. specialize (H3 e He). lia.
  - by right; left.
  - by left.
Qed.

Lemma beyond_history job n ref s cs :
  beyond job n (core_of (existing (s !! ref))) ->
  Forall (fun c : ledger_call => c.1.1 = ref -> forall lane, c.1.2 <> Claim job lane) cs ->
  beyond job n (core_of (existing ((perform_all s cs).1 !! ref))).
Proof.
  intros Hb Hcs.
  apply (history_keeps ref (fun d => beyond job n (core_of d)) (fun o => forall lane, o <> Claim job lane));
    [|done|done].
  intros d now o d' Hd Ho Hc. eapply beyond_step; [exact Ho|exact Hd|by eapply change_core].
Qed.

(** The calls a run of [job] makes under its lease [token] of epoch [epoch]. *)
Inductive run_call (job token : string) (epoch : Z) : op -> Prop :=
| run_bind : run_call job token epoch (Bind job token epoch)
| run_mark tag value : run_call job token epoch (SideEffect job tag value (Some token) (Some epoch))
| run_checkpoint partial : run_call job token epoch (Checkpoint job partial (Some token) (Some epoch))
| run_segment segment : run_call job token epoch (Segment job segment (Some token) (Some epoch))
| run_complete res : run_call job token epoch (Complete job res (Some token) (Some epoch))
| run_release : run_call job token epoch (Release job (Some token) (Some epoch)).

(** A reply that gives a run leave to go on. *)
Definition granted (r : reply) : Prop := r = RBool true \/ r = RBind BOUND_NOW.

Lemma stale_owner job n c token epoch :
  beyond job n c -> epoch < n -> core_owner c job (Some token) (Some epoch) = false.
Proof.
  intros [_ Hb] Hlt. unfold core_owner, core_completed in *.
  destruct Hb as [->|[Hc|(_ & e & -> & Hle)]].
  - by rewrite andb_false_r.
  - apply is_str_spec in Hc. by rewrite Hc.
  - assert (py_eqb (PInt e) (opt_int (Some epoch)) = false) as ->.
    { simpl. apply not_true_is_false. rewrite Qeq_bool_iff, inject_Z_injective. lia. }
    by rewrite !andb_false_r.
Qed.

Lemma stale_change job n d now o d' token epoch :
  beyond job n (core_of d) -> epoch < n -> run_call job token epoch o -> ~ change d now o d'.
Proof.
  intros Hb Hlt Hr Hc. pose proof (stale_owner job n _ token epoch Hb Hlt) as Ho.
  destruct Hr; inversion Hc; subst; rewrite ?owner_core in *; try congruence;
    try (match goal with H : (exists t e, _) \/ _ |- _ =>
      destruct H as [(? & ? & ? & ?)|?]; simplify_eq; rewrite ?owner_core in *; congruence end).
  - destruct Hb as [Hs _]. unfold core_sound in Hs. unfold status_is in *.
    match goal with H : is_str (py_get d "status") "completed" = true |- _ =>
      change (core_completed (core_of d) = true) in H; rewrite H in Hs end. simpl in Hs. congruence.
  - destruct Hb as [_ [Hb|[Hb|(_ & e & He & Hle)]]]; unfold core_held, core_completed in *; simpl in *.
    + unfold held_by in *. congruence.
    + unfold status_is in *. repeat match goal with H : is_str _ _ = true |- _ => apply is_str_spec in H end.
      congruence.
    + match goal with H : forall stored, _ |- _ => specialize (H e He) end. lia.
Qed.

(** [c] is held by this run of [job]. *)
Definition in_possession (job token : string) (epoch : Z) (c : core) : Prop :=
  c_status c = PStr "processing" /\ c_job c = PStr job /\ c_token c = PStr token /\ c_epoch c = PInt epoch.

Lemma bind_granted_entry e job token epoch now e' :
  _bind_run_token_transaction e job token epoch now = Ok (e', BOUND_NOW) ->
  in_possession job token epoch (core_of (existing e')).
Proof.
  intros H. unfold _bind_run_token_transaction, BOUND_NOW, LOST_NOW in H.
  destruct (is_str _ "completed") eqn:Hs.
  - destruct (is_valid_completed_sync_content_result _) as [[]|x]; cbn [rbind] in H; [discriminate H| |discriminate H].
    destruct (is_str (py_get (existing e) "job_id") job); cbn [negb] in H; [|discriminate H].
    apply ok_pair in H as [<- _].
    rewrite doc_update_app. unfold in_possession, core_of. cbn [c_status c_job c_token c_epoch existing default id].
    match goal with |- context [doc_update (doc_update ?d ?ws) _] =>
      destruct (claim_get_base job (PStr (get_str_or d "lane" "legacy")) now d true) as [H1 H2];
      set (d1 := doc_update d ws) in * end.
    doc_simpl. by repeat split.
  - destruct (is_str (py_get (existing e) "status") "processing") eqn:Hp; [|discriminate H].
    destruct (is_str (py_get (existing e) "job_id") job) eqn:Hj; [|discriminate H]. cbn [negb orb] in H.
    assert (forall d, d = doc_update (existing e)
              ([put_str "ledger_run_token" token; put_int "ledger_run_epoch" epoch] ++ [put_time "updated_at" now]) ->
            in_possession job token epoch (core_of d)) as Hnew.
    { intros d ->. apply is_str_spec in Hp, Hj. unfold in_possession, core_of.
      cbn [c_status c_job c_token c_epoch]. doc_simpl. done. }
    destruct (py_get (existing e) "ledger_run_epoch") as [| |stored| | | | |] eqn:He; try discriminate H.
    + injection H as <-. by apply Hnew.
    + destruct (epoch <? stored); [discriminate H|]. destruct (Z.eqb_spec stored epoch) as [->|].
      * destruct (is_str (py_get (existing e) "ledger_run_token") token) eqn:Ht; [|discriminate H].
        injection H as <-. apply is_str_spec in Hp, Hj, Ht. by repeat split.
      * injection H as <-. by apply Hnew.
Qed.

Lemma bound_is_now s uid content job token epoch now s' b :
  bind_sync_content_run_token s uid content job token epoch now = (s', Ok b) -> bound b = true -> b = BOUND_NOW.
Proof.
  unfold bind_sync_content_run_token, on_entry. intros H Hb.
  destruct (_bind_run_token_transaction _ _ _ _ _) as [[e b']|x] eqn:Ht; [|done].
  assert (b' = b) as -> by (destruct e; congruence). clear H.
  unfold _bind_run_token_transaction in Ht. follow; try destruct (is_str _ token); first [reflexivity|discriminate Hb].
Qed.

(** A bind that is granted leaves the run in possession. *)
Lemma bind_granted s ref job token epoch now s' :
  perform s ref (Bind job token epoch) now = (s', RBind BOUND_NOW) ->
  in_possession job token epoch (core_of (existing (s' !! ref))).
Proof.
  intros Hp. rewrite perform_transaction in Hp. unfold perform_on in Hp. cbn [transaction] in Hp.
  destruct (_bind_run_token_transaction _ _ _ _ _) as [[e b]|x] eqn:Hb; [|done]. cbn [rbind] in Hp.
  assert (b = BOUND_NOW) as -> by (destruct e; congruence).
  pose proof (bind_granted_entry _ _ _ _ _ _ Hb) as Hin.
  destruct e as [d|]; [|by destruct Hin]. injection Hp as <-. by rewrite lookup_insert_eq.
Qed.

Lemma bind_reply s ref o now s' b :
  perform s ref o now = (s', RBind b) -> exists job token epoch, o = Bind job token epoch.
Proof.
  destruct ref as [u c], o; simpl; intros H; [exfalso|by eauto|exfalso..]; revert H;
    match goal with |- (let '(_, _) := ?x in _) = _ -> _ => destruct x as [? [?|?]] end; intros [=].
Qed.

Lemma bound_beyond past ref job token epoch now s1 :
  perform (perform_all ∅ past).1 ref (Bind job token epoch) now = (s1, RBind BOUND_NOW) ->
  beyond job epoch (core_of (existing (s1 !! ref))).
Proof.
  intros Hp. destruct (bind_granted _ _ _ _ _ _ _ Hp) as (Hst & _ & _ & He). split.
  - assert (s1 = (perform_all ∅ (past ++ [(ref, Bind job token epoch, now)])).1) as ->.
    { rewrite perform_all_app. simpl. by rewrite Hp. }
    apply reachable_sound.
  - right. right. split; [done|]. exists epoch. by split.
Qed.

Lemma stale_call_refused s ref job n token epoch o now :
  beyond job n (core_of (existing (s !! ref))) -> epoch < n -> run_call job token epoch o ->
  (perform s ref o now).1 = s /\ ~ granted (perform s ref o now).2.
Proof.
  intros Hb Hlt Hr. destruct (perform s ref o now) as [s2 r] eqn:Ho. simpl.
  pose proof (perform_step _ _ _ _ _ _ Ho) as [[-> Hn]|(d' & _ & Hc & _)].
  - split; [done|]. intros [->| ->]; [done|].
    destruct (bind_reply _ _ _ _ _ _ Ho) as (job' & token' & epoch' & ->).
    inversion Hr; subst job' token' epoch'.
    destruct (bind_granted _ _ _ _ _ _ _ Ho) as (Hst & Hj & _ & He). destruct Hb as [_ Hb].
    unfold core_held, core_completed in Hb. rewrite Hst, Hj, He in Hb. simpl in Hb. rewrite String.eqb_refl in Hb.
    destruct Hb as [?|[?|(_ & e & [= <-] & ?)]]; [done|done|lia].
  - by destruct (stale_change job n _ _ _ _ _ _ Hb Hlt Hr Hc).
Qed.

(** A superseded run is fenced: once a run of a job has bound the entry
    under a later epoch, and as long as the job does not claim the content
    anew, nothing an earlier run of that job does has any effect on the ledger
    or is granted, whatever claims, binds, releases and retirements of any job
    happen in between. *)
Theorem superseded_run_is_fenced past ref job token epoch now s1 later old_token old_epoch o now' :
  perform (perform_all ∅ past).1 ref (Bind job token epoch) now = (s1, RBind BOUND_NOW) ->
  Forall (fun c : ledger_call => c.1.1 = ref -> forall lane, c.1.2 <> Claim job lane) later ->
  old_epoch < epoch -> run_call job old_token old_epoch o ->
  let s := (perform_all s1 later).1 in
  (perform s ref o now').1 = s /\ ~ granted (perform s ref o now').2.
Proof.
  intros Hp Hl Hlt Hr s. eapply stale_call_refused; [|exact Hlt|exact Hr].
  apply beyond_history; [by eapply bound_beyond|done].
Qed.

(** ** Work is recorded once *)

Definition accepted (r : reply) : bool := match r with RBool true => true | _ => false end.

Definition marks (tag : string) (o : op) : bool :=
  match o with SideEffect _ t _ _ _ => String.eqb t tag | _ => false end.
Definition processes (segment : string) (o : op) : bool :=
  match o with Segment _ x _ _ => String.eqb x segment | _ => false end.

(** How many calls of a kind on one entry were accepted. *)
Definition acceptances (ref : string * string) (kind : op -> bool) (cs : list ledger_call)
    (rs : list reply) : nat :=
  length (List.filter (fun cr => bool_decide (cr.1.1.1 = ref) && kind cr.1.1.2 && accepted cr.2) (zip cs rs)).

(** A kind of call that is accepted only where a lasting mark is missing, and
    sets it, is accepted once. *)
Lemma accepted_once (ref : string * string) (P : doc -> Prop) (mark : doc -> bool) (kind : op -> bool) :
  (forall d now o d', P d -> change d now o d' ->
     P d' /\ (mark d = true -> mark d' = true) /\
     (kind o = true -> mark d = false /\ mark d' = true)) ->
  forall cs s, P (existing (s !! ref)) ->
  (acceptances ref kind cs (perform_all s cs).2 + (if mark (existing (s !! ref)) then 1 else 0) <= 1)%nat.
Proof.
  intros Hstep. induction cs as [|[[ref' o] now] cs IH]; intros s HP; simpl; [by destruct (mark _); lia|].
  destruct (perform s ref' o now) as [s1 r] eqn:Hp. specialize (IH s1).
  pose proof (perform_step _ _ _ _ _ _ Hp) as Hs.
  assert (P (existing (s1 !! ref)) /\
          (mark (existing (s !! ref)) = true -> mark (existing (s1 !! ref)) = true) /\
          (bool_decide (ref' = ref) && kind o && accepted r = true ->
           mark (existing (s !! ref)) = false /\ mark (existing (s1 !! ref)) = true)) as (HP1 & Hm & Hk).
  { destruct Hs as [[-> Hr]|(d' & -> & Hc & _)].
    - split_and!; [done|done|]. intros [_ Ha]%andb_true_iff. by destruct r as [| |[]|].
    - destruct (bool_decide_reflect (ref' = ref)) as [->|Hne].
      + rewrite lookup_insert_eq. simpl. destruct (Hstep _ _ _ _ HP Hc) as (? & ? & Hko).
        split_and!; [done|done|]. intros [? _]%andb_true_iff. by apply Hko.
      + rewrite lookup_insert_ne by done. by split_and!. }
  specialize (IH HP1). unfold acceptances in *. destruct (perform_all s1 cs) as [s2 rs]. simpl in *.
  destruct (bool_decide (ref' = ref) && kind o && accepted r); simpl.
  - destruct (Hk eq_refl) as [-> Hm1]. rewrite Hm1 in IH. lia.
  - destruct (mark (existing (s !! ref))); [rewrite Hm in IH by done|]; lia.
Qed.

Definition OWNED_FIELDS : list string := CLAIM_FIELDS ++ RUN_FIELDS ++ COMPLETION_FIELDS.

Lemma unowned_kept d ws f :
  f ∉ OWNED_FIELDS -> Forall (fun kw => kw.1 ∈ OWNED_FIELDS) ws -> py_get (doc_update d ws) f = py_get d f.
Proof.
  intros Hf Hws. apply py_get_update_other. eapply Forall_impl; [exact Hws|].
  intros kw Hk. apply String.eqb_neq. by intros ->.
Qed.

Lemma claim_keeps job lane now d clear f :
  f ∉ OWNED_FIELDS -> py_get (doc_update d (_processing_claim_updates job lane now d clear)) f = py_get d f.
Proof.
  unfold OWNED_FIELDS. intros Hf. rewrite claim_get by set_solver.
  rewrite !bool_decide_false by set_solver. by rewrite andb_false_r.
Qed.

Definition MARK_FIELDS : list string := ["metered_at"; "usage_recorded_at"; "dg_recorded_at"].

Lemma mark_not_value f : f ∈ MARK_FIELDS -> f ∉ ["speech_ms_value"; "usage_value"; "dg_ms_value"].
Proof. intros Hf. repeat (apply elem_of_cons in Hf as [->|Hf]; [decided|]). by apply not_elem_of_nil in Hf. Qed.

(** A field outside those of claims, runs and completions is only written by
    the call that records it. *)
Lemma mark_kept d now o d' f :
  f ∈ MARK_FIELDS -> change d now o d' ->
  py_get d' f = py_get d f \/
  exists job tag value token epoch,
    o = SideEffect job tag value token epoch /\ _SIDE_EFFECT_FIELDS tag = Some f /\
    py_get d f = PNone /\ py_get d' f = PTime now.
Proof.
  intros Hf Hc.
  assert (f ∉ OWNED_FIELDS) as Hout.
  { repeat (apply elem_of_cons in Hf as [->|Hf]; [decided|]). by apply not_elem_of_nil in Hf. }
  destruct Hc as [job lane _ _|job lane _ _|job token epoch _ _ _|job token epoch _ _ _
    |job tag f' value token epoch Hf' Hn _|job partial v token epoch _|job segment token epoch _ _
    |job res token epoch _ _|o job _ _ _].
  5: { destruct (decide (f' = f)) as [->|Hne].
       - right. exists job, tag, value, token, epoch. split_and!; [done|done|done|].
         destruct (mark_pairs tag f Hf') as [[-> ->]|[[-> ->]|[-> ->]]]; by doc_simpl.
       - left. apply py_get_update_other. repeat constructor; apply String.eqb_neq; simpl.
         + congruence.
         + destruct (mark_pairs tag f' Hf') as [[-> _]|[[-> _]|[-> _]]]; intros ->;
             apply (mark_not_value _ Hf); decided.
         + intros ->. apply Hout. decided. }
  all: left.
  1,2: by apply claim_keeps.
  1: rewrite doc_update_app, unowned_kept; [by apply claim_keeps|done|repeat constructor; decided].
  all: apply unowned_kept; [done|]; repeat constructor; decided.
Qed.
Lemma mark_inv d now job tag value token epoch d' :
  change d now (SideEffect job tag value token epoch) d' ->
  exists f, _SIDE_EFFECT_FIELDS tag = Some f /\ py_get d f = PNone /\
    d' = doc_update d [put_time f now; put_int (tag ++ "_value") value; put_time "updated_at" now].
Proof.
  intros Hc. inversion Hc as [| | | |job' tag' f v' t' e' Hf Hn _| | | |o job' _ _ Ho]; subst; [by eauto|].
  by destruct Ho as [(? & ? & ? & _)|?].
Qed.

Lemma side_effect_mark_step tag f d now o d' :
  _SIDE_EFFECT_FIELDS tag = Some f -> change d now o d' ->
  True /\
  (negb (is_none (py_get d f)) = true -> negb (is_none (py_get d' f)) = true) /\
  (marks tag o = true ->
   negb (is_none (py_get d f)) = false /\ negb (is_none (py_get d' f)) = true).
Proof.
  intros Hf Hc. assert (f ∈ MARK_FIELDS) as Hm.
  { destruct (mark_pairs tag f Hf) as [[-> ->]|[[-> ->]|[-> ->]]]; decided. }
  split; [done|].
  destruct (mark_kept _ _ _ _ f Hm Hc) as [Heq|(job & tag' & v & token & epoch & -> & _ & Hn & Ht)].
  - rewrite Heq. split; [done|]. destruct o; try done. intros ->%String.eqb_eq.
    apply mark_inv in Hc as (f' & Hf' & Hn & ->). exfalso. assert (f' = f) as -> by congruence.
    revert Heq. rewrite Hn. destruct (mark_pairs tag f Hf) as [[-> ->]|[[-> ->]|[-> ->]]]; by doc_simpl.
  - rewrite Hn, Ht. by split_and!.
Qed.

(** The processed segments of a reachable entry are a list. *)
Definition segments_sound (d : doc) : Prop :=
  core_sound (core_of d) /\
  (py_get d "processed_segment_ids" = PNone \/ exists l, py_get d "processed_segment_ids" = PList l).

Definition segment_done (x : string) (d : doc) : bool :=
  match py_get d "processed_segment_ids" with PList l => existsb (fun v => is_str v x) l | _ => false end.

Lemma segments_kept d now o d' :
  core_sound (core_of d) -> change d now o d' ->
  match o with
  | Segment job x token epoch =>
      py_in x (py_or (py_get d "processed_segment_ids") (PList [])) = Ok false /\
      py_get d' "processed_segment_ids" = array_union (py_get d "processed_segment_ids") x
  | _ => py_get d' "processed_segment_ids" = py_get d "processed_segment_ids"
  end.
Proof.
  intros Hs Hc. unfold core_sound in Hs.
  destruct Hc as [job lane _ _|job lane Hc Hv|job token epoch Hc Hv _|job token epoch _ _ _
    |job tag f value token epoch Hf Hn _|job partial v token epoch _|job segment token epoch Hi _
    |job res token epoch _ _|o job _ _ Ho].
  - rewrite claim_get by decided. done.
  - unfold status_is in Hc. change (core_completed (core_of d) = true) in Hc. rewrite Hc in Hs.
    simpl in Hs. congruence.
  - unfold status_is in Hc. change (core_completed (core_of d) = true) in Hc. rewrite Hc in Hs.
    simpl in Hs. congruence.
  - apply py_get_update_other. by repeat constructor.
  - apply py_get_update_other.
    destruct (mark_pairs tag f Hf) as [[-> ->]|[[-> ->]|[-> ->]]]; by repeat constructor.
  - apply py_get_update_other. by repeat constructor.
  - split; [done|]. by doc_simpl.
  - apply py_get_update_other. by repeat constructor.
  - assert (py_get (released d now) "processed_segment_ids" = py_get d "processed_segment_ids") as Hr
      by (apply py_get_update_other; by repeat constructor).
    destruct Ho as [(token & epoch & -> & _)| ->]; exact Hr.
Qed.

Lemma array_union_done old x y :
  existsb (fun v => is_str v y) (match array_union old x with PList l => l | _ => [] end) =
  String.eqb x y || match old with PList l => existsb (fun v => is_str v y) l | _ => false end.
Proof.
  destruct old as [| | | | | |l|]; simpl; rewrite ?orb_false_r; try done.
  destruct (existsb (fun v => is_str v x) l) eqn:Hx; simpl.
  - destruct (String.eqb_spec x y) as [->|]; [|done]. simpl. by rewrite Hx.
  - rewrite existsb_app. simpl. by rewrite orb_false_r, orb_comm.
Qed.

Lemma segment_mark_step x d now o d' :
  segments_sound d -> change d now o d' ->
  segments_sound d' /\ (segment_done x d = true -> segment_done x d' = true) /\
  (processes x o = true ->
   segment_done x d = false /\ segment_done x d' = true).
Proof.
  intros [Hs Hl] Hc.
  assert (core_sound (core_of d')) as Hs' by (eapply core_sound_step; [done|by eapply change_core]).
  pose proof (segments_kept _ _ _ _ Hs Hc) as Hk. unfold segments_sound, segment_done.
  destruct o as [| | | |job y token epoch| | |]; try (rewrite Hk; by split_and!).
  destruct Hk as [Hin Heq].
  assert (exists l, py_get d' "processed_segment_ids" = PList l) as [l' Hl'].
  { rewrite Heq. unfold array_union. destruct (py_get d "processed_segment_ids"); eauto.
    destruct (existsb _ _); eauto. }
  pose proof (array_union_done (py_get d "processed_segment_ids") y x) as Hu.
  rewrite <- Heq, Hl' in Hu. rewrite Hl'. split_and!; [done|by eauto| |].
  - intros Hd. rewrite Hu. by rewrite Hd, orb_true_r.
  - intros ->%String.eqb_eq. rewrite Hu, String.eqb_refl. split; [|done].
    destruct Hl as [Hl|[l Hl]]; rewrite Hl in *; [done|]. destruct l; [done|]. simpl in *. congruence.
Qed.

(** Work is recorded once: whatever calls are made on the ledger, in any
    order, by any jobs and runs, a metering side effect of a content is
    accepted at most once, and so is each of its segments. *)
Theorem work_is_recorded_once ref cs tag segment :
  let rs := (perform_all ∅ cs).2 in
  (acceptances ref (marks tag) cs rs <= 1)%nat /\
  (acceptances ref (processes segment) cs rs <= 1)%nat.
Proof.
  split.
  - destruct (_SIDE_EFFECT_FIELDS tag) as [f|] eqn:Hf.
    + pose proof (accepted_once ref (fun _ => True) (fun d => negb (is_none (py_get d f)))
        (marks tag)) as Ho.
      refine (_ (Ho _ cs ∅ I)); [lia|]. intros d now o d' _ Hc. by eapply side_effect_mark_step.
    + pose proof (accepted_once ref (fun _ => True) (fun _ => false)
        (marks tag)) as Ho.
      refine (_ (Ho _ cs ∅ I)); [lia|]. intros d now o d' _ Hc. split_and!; [done|done|].
      destruct o; try done. intros ->%String.eqb_eq.
      apply mark_inv in Hc as (f' & Hf' & _). congruence.
  - pose proof (accepted_once ref segments_sound (segment_done segment)
      (processes segment)
      (segment_mark_step segment) cs ∅) as Ho.
    refine (_ (Ho _)); [lia|]. rewrite lookup_empty. split; [done|by left].
Qed.

End Histories.

(** ** Witnesses *)

Definition later_map (_ new : list (string * pyval)) : list (string * pyval) := new.
Definition demo_ref : string * string := ("u", "c").
Definition demo_result : pyval :=
  PDict [("failed_segments", PInt 0); ("total_segments", PInt 2); ("errors", PList [])].
Definition demo_past : list ledger_call :=
  [(demo_ref, Claim "j" "fresh", 0); (demo_ref, Bind "j" "1:a" 1, 1);
   (demo_ref, Segment "j" "s1" (Some "1:a"%string) (Some 1), 2)].
Definition demo_finished : ledger :=
  (perform later_map (perform_all later_map ∅ demo_past).1 demo_ref
     (Complete "j" demo_result (Some "1:a"%string) (Some 1)) 3).1.
Definition demo_later : list ledger_call := [(demo_ref, Claim "k" "fresh", 4); (demo_ref, Retire "j", 5)].

Lemma demo_finish_accepted :
  perform later_map (perform_all later_map ∅ demo_past).1 demo_ref
    (Complete "j" demo_result (Some "1:a"%string) (Some 1)) 3 = (demo_finished, RBool true).
Proof. apply injective_projections; [reflexivity|by vm_compute]. Qed.

Lemma completion_is_final_witness :
  py_get (existing (demo_finished !! demo_ref)) "result" = demo_result /\
  (perform_all later_map demo_finished demo_later).1 !! demo_ref = demo_finished !! demo_ref /\
  Forall2 (fun (c : ledger_call) r => c.1.1 = demo_ref -> final_reply demo_result c.1.2 r) demo_later
    (perform_all later_map demo_finished demo_later).2.
Proof.
  exact (completion_is_final later_map demo_past demo_ref "j" demo_result (Some "1:a"%string) (Some 1) 3
    demo_finished demo_later demo_finish_accepted).
Defined.

Definition demo_rebound : ledger :=
  (perform later_map (perform_all later_map ∅ demo_past).1 demo_ref (Bind "j" "2:b" 2) 3).1.

Lemma demo_rebind_granted :
  perform later_map (perform_all later_map ∅ demo_past).1 demo_ref (Bind "j" "2:b" 2) 3 =
    (demo_rebound, RBind BOUND_NOW).
Proof. apply injective_projections; [reflexivity|by vm_compute]. Qed.

Lemma superseded_run_is_fenced_witness :
  let s := (perform_all later_map demo_rebound demo_later).1 in
  (perform later_map s demo_ref (Complete "j" demo_result (Some "1:a"%string) (Some 1)) 9).1 = s /\
  ~ granted (perform later_map s demo_ref (Complete "j" demo_result (Some "1:a"%string) (Some 1)) 9).2.
Proof.
  exact (superseded_run_is_fenced later_map demo_past demo_ref "j" "2:b" 2 3 demo_rebound demo_later
    "1:a" 1 (Complete "j" demo_result (Some "1:a"%string) (Some 1)) 9 demo_rebind_granted
    ltac:(repeat constructor; intros _ lane; discriminate) ltac:(lia)
    (run_complete "j" "1:a" 1 demo_result)).
Defined.
