(* ===== verification/SyncJobs.v ===== *)
(** The sync jobs of an upload in Redis ([database/sync_jobs.py]): the job
    document with its compare-and-set updates, the run lock with its epoch
    counter, the processed segments and the once-only marks; and the binding of
    a run to the durable ledger ([utils/sync/pipeline.py]).

    The keys of different jobs are disjoint, so the model is the keys of one
    job.  A call that issues several Redis commands is a process that makes one
    command per step; between two steps anything may happen to the keys.  A Lua
    script is one command.  Keys expire: expiry is a step of the environment. *)
From S2P Require Export SyncLedger.

(** ** Texts

    A JSON text is represented by the dictionary [json.dumps] wrote into it and
    the separators it used, and a text of any other origin by its characters
    and what [json.loads] makes of it ([None] when it raises). *)

#[export] Instance pyval_eq_dec : EqDecision pyval.
Proof.
  refine (fix go (v w : pyval) : Decision (v = w) :=
    let _ : EqDecision pyval := go in
    match v, w with
    | PNone, PNone => left _
    | PBool a, PBool b => cast_if (decide (a = b))
    | PInt a, PInt b => cast_if (decide (a = b))
    | PFloat p, PFloat q => cast_if_and (decide (Qnum p = Qnum q)) (decide (Qden p = Qden q))
    | PStr a, PStr b => cast_if (decide (a = b))
    | PTime a, PTime b => cast_if (decide (a = b))
    | PList l, PList m => cast_if (decide (l = m))
    | PDict l, PDict m => cast_if (decide (l = m))
    | _, _ => right _
    end); try congruence; abstract (destruct p, q; simpl in *; congruence).
Defined.

Abbreviation dict := (list (string * pyval)).

Inductive text : Type :=
| Dumped (compact : bool) (d : dict)
| Other (characters : string) (value : option pyval).

#[export] Instance text_eq_dec : EqDecision text.
Proof. solve_decision. Defined.

Definition no_text : text := Other "" None.

(** [json.loads], [None] when it raises, and its result when it is a dictionary. *)
Definition loads (t : text) : option pyval :=
  match t with Dumped _ d => Some (PDict d) | Other _ v => v end.
Definition loads_dict (t : text) : option dict :=
  match loads t with Some (PDict d) => Some d | _ => None end.

(** Whether the text is the empty string. *)
Definition is_empty (t : text) : bool :=
  match t with Other s _ => String.eqb s "" | _ => false end.

(** ** Dictionaries in insertion order *)

Definition dict_get (d : dict) (k : string) : pyval := default PNone (assoc_value k d).

(** [d[k] = v] *)
Fixpoint dict_set (d : dict) (k : string) (v : pyval) : dict :=
  match d with
  | [] => [(k, v)]
  | (k', v') :: r => if String.eqb k k' then (k', v) :: r else (k', v') :: dict_set r k v
  end.

(** [d.update(e)] *)
Definition dict_update (d e : dict) : dict := foldl (fun d kv => dict_set d kv.1 kv.2) d e.

(** ** The keys of a job *)

Record keys : Type := {
  job_text : option text;
  run_lock : option string;
  run_lock_epoch : option Z;
  processed_segments : gset string;
  once_marks : gset string;
}.

Definition set_job (k : keys) (t : option text) : keys :=
  {| job_text := t; run_lock := run_lock k; run_lock_epoch := run_lock_epoch k;
     processed_segments := processed_segments k; once_marks := once_marks k |}.
Definition set_lock (k : keys) (l : option string) (e : option Z) : keys :=
  {| job_text := job_text k; run_lock := l; run_lock_epoch := e;
     processed_segments := processed_segments k; once_marks := once_marks k |}.

Definition STALE_THRESHOLD_SECONDS : Q := 600.
Definition QUEUED_DISPATCH_STALE_SECONDS : Q := 1800.
Definition TERMINAL_STATUSES : list string := ["completed"; "partial_failure"; "failed"].
Definition _SYNC_DISPATCH_MODES : list string := ["inline"; "cloud_tasks"].

(** [v in (...)] and [v in {...}]: a set test raises on an unhashable value. *)
Definition in_tuple (v : pyval) (l : list string) : bool := existsb (is_str v) l.
Definition in_set (v : pyval) (l : list string) : result pyexc bool :=
  match v with
  | PList _ | PDict _ => Raise (TypeError "unhashable type")
  | _ => Ok (in_tuple v l)
  end.

Inductive SyncLedgerFenceMode : Type := LEGACY | STANDBY | ACTIVE.

#[export] Instance fence_mode_eq_dec : EqDecision SyncLedgerFenceMode.
Proof. solve_decision. Defined.

Definition get_sync_ledger_fence_mode (env : option string) : SyncLedgerFenceMode :=
  let raw := py_lower (py_strip (default "legacy" env)) in
  if String.eqb raw "legacy" then LEGACY
  else if String.eqb raw "standby" then STANDBY
  else if String.eqb raw "active" then ACTIVE
  else STANDBY.

Definition sync_job_uses_ledger_fence (job : dict) : bool :=
  is_str (dict_get job "ledger_fence_mode") "active".

(** ** Creation, deletion and reads *)

Definition new_job (uid job_id : string) (total_files total_segments : Z) (lane trust : string)
    (age : option Z) (content_id : option string) (dispatch_mode ledger_fence_mode : string) (now : Q) : dict :=
  [("job_id", PStr job_id); ("uid", PStr uid); ("status", PStr "queued"); ("created_at", PFloat now);
   ("started_at", PNone); ("updated_at", PFloat now); ("completed_at", PNone);
   ("total_files", PInt total_files); ("total_segments", PInt total_segments);
   ("processed_segments", PInt 0); ("successful_segments", PInt 0); ("failed_segments", PInt 0);
   ("result", PNone); ("error", PNone); ("reason_code", PNone); ("retry_after", PNone);
   ("lane", PStr lane); ("capture_time_trust", PStr trust); ("recording_age_seconds", opt_int age);
   ("content_id", opt_str content_id);
   ("dispatch_mode", PStr (if bool_decide (dispatch_mode ∈ _SYNC_DISPATCH_MODES) then dispatch_mode else "inline"));
   ("ledger_fence_mode", PStr (if String.eqb ledger_fence_mode "active" then "active" else "legacy"))].

Definition create_sync_job (k : keys) (job : dict) : keys := set_job k (Some (Dumped false job)).

Definition delete_sync_job (k : keys) : keys := set_job k None.

Definition is_sync_job_stale (job : dict) (now : Q) : bool :=
  let status := dict_get job "status" in
  let threshold :=
    if is_str status "processing" then Some STALE_THRESHOLD_SECONDS
    else if is_str status "queued" && is_str (dict_get job "dispatch_mode") "cloud_tasks" &&
            is_none (dict_get job "started_at") && is_none (dict_get job "attempt")
    then Some QUEUED_DISPATCH_STALE_SECONDS
    else None in
  match threshold, as_number (py_or (dict_get job "updated_at") (dict_get job "created_at")) with
  | Some bound, Some updated_at => negb (Qle_bool (now - updated_at) bound)
  | _, _ => false
  end.

(** [get_sync_job]: the read, and the write it makes of a stale job. *)
Inductive read_pc : Type :=
| ReadStart
| ReadHeal (job : dict)
| ReadDone (job : option dict).

Definition healed (job : dict) (now : Q) : dict :=
  dict_set (dict_set (dict_set job "status" (PStr "failed"))
    "error" (PStr "Job timed out (background worker likely died)")) "completed_at" (PFloat now).

Definition get_sync_job (k : keys) (pc : read_pc) (now : Q) : keys * read_pc :=
  match pc with
  | ReadStart =>
      match job_text k with
      | None => (k, ReadDone None)
      | Some t =>
          if is_empty t then (k, ReadDone None)
          else
            match loads t with
            | None => (k, ReadDone None)
            | Some v =>
                let job := match v with PDict d => d | _ => [] end in
                if is_sync_job_stale job now then (k, ReadHeal job) else (k, ReadDone (Some job))
            end
      end
  | ReadHeal job =>
      let job := healed job now in
      (set_job k (Some (Dumped false job)), ReadDone (Some job))
  | ReadDone r => (k, ReadDone r)
  end.

(** ** Compare-and-set updates *)

Inductive FencedSyncJobMutationOutcome : Type :=
| APPLIED | CONFLICT | MISSING_OWNER | STALE_OWNER | MISSING_JOB | INVALID_JOB | INVALID_STATE.

#[export] Instance mutation_outcome_eq_dec : EqDecision FencedSyncJobMutationOutcome.
Proof. solve_decision. Defined.

Record FencedSyncJobMutation : Type := {
  mutation_outcome : FencedSyncJobMutationOutcome;
  mutation_job : option dict;
  raw_job : option text;
}.

Definition bare (o : FencedSyncJobMutationOutcome) : FencedSyncJobMutation :=
  {| mutation_outcome := o; mutation_job := None; raw_job := None |}.

Definition applied (m : FencedSyncJobMutation) : bool := bool_decide (mutation_outcome m = APPLIED).

(** What a script returns: the name of its outcome and the text it carries. *)
Abbreviation response := (string * option text)%type.

Definition outcome_named (s : string) : option FencedSyncJobMutationOutcome :=
  if String.eqb s "applied" then Some APPLIED
  else if String.eqb s "conflict" then Some CONFLICT
  else if String.eqb s "missing_owner" then Some MISSING_OWNER
  else if String.eqb s "stale_owner" then Some STALE_OWNER
  else if String.eqb s "missing_job" then Some MISSING_JOB
  else if String.eqb s "invalid_job" then Some INVALID_JOB
  else if String.eqb s "invalid_state" then Some INVALID_STATE
  else None.

Definition unknown_outcome (path : string) : pyexc :=
  RuntimeError ("sync job " ++ path ++ " mutation returned an unknown Redis outcome").

(** The decoders of the two paths differ in the text of their error. *)
Definition decode_mutation (path : string) (r : response) : result pyexc FencedSyncJobMutation :=
  match outcome_named r.1 with
  | None => Raise (unknown_outcome path)
  | Some o =>
      if negb (bool_decide (o ∈ [APPLIED; CONFLICT])) then Ok (bare o)
      else match r.2 with
           | None => Ok (bare INVALID_JOB)
           | Some raw =>
               match loads_dict raw with
               | None => Ok (bare INVALID_JOB)
               | Some job => Ok {| mutation_outcome := o; mutation_job := Some job; raw_job := Some raw |}
               end
           end
  end.

Definition _decode_legacy_job_mutation := decode_mutation "legacy".
Definition _decode_fenced_mutation := decode_mutation "fenced".

Definition _decode_fence_only_mutation (r : response) : result pyexc FencedSyncJobMutation :=
  match outcome_named r.1 with
  | None => Raise (unknown_outcome "fenced")
  | Some o => Ok (bare o)
  end.

Definition _LEGACY_JOB_MUTATION_SCRIPT (k : keys) (expected next : text) : keys * response :=
  match job_text k with
  | None => (k, ("missing_job", None))
  | Some raw =>
      if negb (bool_decide (raw = expected)) then (k, ("conflict", Some raw))
      else (set_job k (Some next), ("applied", Some next))
  end.

Definition _FENCED_JOB_MUTATION_SCRIPT (k : keys) (token : string) (expected next : text)
    : keys * response :=
  match run_lock k with
  | None => (k, ("missing_owner", None))
  | Some owner =>
      if negb (String.eqb owner token) then (k, ("stale_owner", None))
      else match job_text k with
           | None => (k, ("missing_job", None))
           | Some raw =>
               if negb (bool_decide (raw = expected)) then (k, ("conflict", Some raw))
               else (set_job k (Some next), ("applied", Some next))
           end
  end.

Definition _LEGACY_JOB_MUTATION_MAX_RETRIES : nat := 3.
Definition _FENCED_JOB_MUTATION_MAX_RETRIES : nat := 3.

(** The patch with its time, as both updates build it. *)
Definition stamped (updates : dict) (now : Q) : dict := dict_set updates "updated_at" (PFloat now).

(** [update_sync_job]: where it stands between two commands. *)
Inductive legacy_pc : Type :=
| LegacyStart
| LegacyAttempt (tries : nat) (raw : text) (job : dict)
| LegacyDone (r : result pyexc (option dict)).

(** The loop with [tries] attempts to go: out of attempts, refused by the
    terminal guard, or ready to make the next attempt. *)
Definition legacy_loop (tries : nat) (raw : text) (job : dict) : legacy_pc :=
  match tries with
  | O => LegacyDone (Ok None)
  | _ => if in_tuple (dict_get job "status") TERMINAL_STATUSES then LegacyDone (Ok None)
         else LegacyAttempt tries raw job
  end.

Definition update_sync_job (payload : dict) (k : keys) (pc : legacy_pc) : keys * legacy_pc :=
  match pc with
  | LegacyStart =>
      match job_text k with
      | None => (k, LegacyDone (Ok None))
      | Some raw =>
          if is_empty raw then (k, LegacyDone (Ok None))
          else match loads_dict raw with
               | None => (k, LegacyDone (Ok None))
               | Some job => (k, legacy_loop _LEGACY_JOB_MUTATION_MAX_RETRIES raw job)
               end
      end
  | LegacyAttempt tries raw job =>
      let '(k, r) := _LEGACY_JOB_MUTATION_SCRIPT k raw (Dumped true (dict_update job payload)) in
      (k, match _decode_legacy_job_mutation r with
          | Raise x => LegacyDone (Raise x)
          | Ok m =>
              if bool_decide (mutation_outcome m = APPLIED) then LegacyDone (Ok (mutation_job m))
              else if negb (bool_decide (mutation_outcome m = CONFLICT)) then LegacyDone (Ok None)
              else match raw_job m, mutation_job m with
                   | Some raw, Some job => legacy_loop (pred tries) raw job
                   | _, _ => LegacyDone (Ok None)
                   end
          end)
  | LegacyDone r => (k, LegacyDone r)
  end.

(** [fenced_update_sync_job]: the token, the stamped patch and the statuses the
    job may be in. *)
Record fenced_request : Type := {
  req_token : string;
  req_payload : dict;
  req_allowed : option (list string);
}.

Inductive fenced_pc : Type :=
| FencedStart
| FencedProbe
| FencedAttempt (tries : nat) (raw : text) (job : dict)
| FencedDone (r : result pyexc FencedSyncJobMutation).

(** The loop with [tries] attempts to go after [last]. *)
Definition fenced_loop (req : fenced_request) (tries : nat) (raw : text) (job : dict)
    (last : FencedSyncJobMutation) : fenced_pc :=
  match tries with
  | O => FencedDone (Ok last)
  | _ =>
      let status := dict_get job "status" in
      let refused := FencedDone (Ok {| mutation_outcome := INVALID_STATE; mutation_job := Some job;
                                       raw_job := Some raw |}) in
      if in_tuple status TERMINAL_STATUSES then refused
      else match req_allowed req with
           | None => FencedAttempt tries raw job
           | Some l =>
               match in_set status l with
               | Raise x => FencedDone (Raise x)
               | Ok true => FencedAttempt tries raw job
               | Ok false => refused
               end
           end
  end.

(** After an attempt with [tries] more to go. *)
Definition after_attempt (req : fenced_request) (tries : nat) (r : response) : fenced_pc :=
  match _decode_fenced_mutation r with
  | Raise x => FencedDone (Raise x)
  | Ok m =>
      if negb (bool_decide (mutation_outcome m = CONFLICT)) then FencedDone (Ok m)
      else match raw_job m, mutation_job m with
           | Some raw, Some job => fenced_loop req tries raw job m
           | _, _ => FencedDone (Ok (bare INVALID_JOB))
           end
  end.

Definition fenced_update_sync_job (req : fenced_request) (k : keys) (pc : fenced_pc) : keys * fenced_pc :=
  match pc with
  | FencedStart =>
      match job_text k with
      | None => (k, FencedProbe)
      | Some raw =>
          match loads_dict raw with
          | None => (k, FencedDone (Ok (bare INVALID_JOB)))
          | Some job => (k, fenced_loop req _FENCED_JOB_MUTATION_MAX_RETRIES raw job (bare CONFLICT))
          end
      end
  | FencedProbe =>
      let '(k, r) := _FENCED_JOB_MUTATION_SCRIPT k (req_token req) no_text no_text in
      (k, after_attempt req _FENCED_JOB_MUTATION_MAX_RETRIES r)
  | FencedAttempt tries raw job =>
      let '(k, r) := _FENCED_JOB_MUTATION_SCRIPT k (req_token req) raw
                       (Dumped true (dict_update job (req_payload req))) in
      (k, after_attempt req (pred tries) r)
  | FencedDone r => (k, FencedDone r)
  end.

(** ** The patches *)

(** [result.get(k, 0)] and [result.get('errors', [])]: the default is for a
    missing key only. *)
Definition dict_get_or (d : dict) (k : string) (dflt : pyval) : pyval := default dflt (assoc_value k d).

(** [_sync_job_finalization_updates]: the status, the counts and the patch, for
    integer counts and a list of errors ([None] otherwise); [first_error] renders
    [errors[0]] in the message. *)
Definition finalization_status (failed total : Z) : string :=
  if (0 <? total) && (total <=? failed) then "failed"
  else if 0 <? failed then "partial_failure"
  else "completed".

Definition finalization_error (first_error : pyval -> string) (failed total : Z) (errors : list pyval) : pyval :=
  if String.eqb (finalization_status failed total) "failed" then
    match errors with
    | e :: _ => PStr ("All " ++ Z_to_string total ++ " segments failed. First error: " ++ first_error e)
    | [] => PStr ("All " ++ Z_to_string total ++ " segments failed processing")
    end
  else PNone.

Definition _sync_job_finalization_updates (first_error : pyval -> string) (res : dict) (completed_at : Q)
    : option (string * Z * Z * dict) :=
  match dict_get_or res "failed_segments" (PInt 0), dict_get_or res "total_segments" (PInt 0),
        dict_get_or res "errors" (PList []) with
  | PInt failed, PInt total, PList errors =>
      let status := finalization_status failed total in
      Some (status, total, failed,
        [("status", PStr status); ("completed_at", PFloat completed_at); ("result", PDict res);
         ("successful_segments", PInt (Z.max 0 (total - failed))); ("failed_segments", PInt failed);
         ("processed_segments", PInt total); ("error", finalization_error first_error failed total errors)])
  | _, _, _ => None
  end.

(** The requests of the fenced operations. *)
Definition fenced_mark_job_processing (token : string) (now : Q) : fenced_request :=
  {| req_token := token;
     req_payload := stamped [("status", PStr "processing"); ("started_at", PFloat now)] now;
     req_allowed := Some ["queued"; "processing"] |}.

Definition _fenced_finalize_sync_job (token : string) (updates : dict) (now : Q) (allowed : list string)
    : fenced_request :=
  {| req_token := token; req_payload := stamped updates now; req_allowed := Some allowed |}.

Definition fenced_finalize_sync_job (token : string) (updates : dict) (now : Q) : fenced_request :=
  _fenced_finalize_sync_job token updates now ["processing"].

Definition fenced_finalize_sync_job_from_durable_ledger (token : string) (updates : dict) (now : Q)
    : fenced_request :=
  _fenced_finalize_sync_job token updates now ["queued"; "processing"].

Definition failure_updates (error : string) (reason_code : option string) (retry_after : option Z) (now : Q)
    : dict :=
  [("status", PStr "failed"); ("completed_at", PFloat now); ("error", PStr error);
   ("reason_code", opt_str reason_code); ("retry_after", opt_int retry_after)].

Definition fenced_mark_job_failed (token error : string) (reason_code : option string)
    (retry_after : option Z) (now : Q) : fenced_request :=
  {| req_token := token; req_payload := stamped (failure_updates error reason_code retry_after now) now;
     req_allowed := Some ["queued"; "processing"] |}.

Definition queued_updates (attempt : Z) (error : string) : dict :=
  [("status", PStr "queued"); ("attempt", PInt attempt); ("last_error", PStr error)].

Definition fenced_mark_job_queued_for_retry (token : string) (attempt : Z) (error : string) (now : Q)
    : fenced_request :=
  {| req_token := token; req_payload := stamped (queued_updates attempt error) now;
     req_allowed := Some ["queued"; "processing"] |}.

(** The patches of the legacy operations. *)
Definition mark_job_processing (now : Q) : dict :=
  stamped [("status", PStr "processing"); ("started_at", PFloat now)] now.
Definition mark_job_failed (error : string) (reason_code : option string) (retry_after : option Z)
    (now : Q) : dict := stamped (failure_updates error reason_code retry_after now) now.
Definition mark_job_queued_for_retry (attempt : Z) (error : string) (now : Q) : dict :=
  stamped (queued_updates attempt error) now.
Definition finalize_sync_job (updates : dict) (now : Q) : dict := stamped updates now.

(** ** The run lock *)

(** [token.partition(':')]: the text before the first colon, if there is one. *)
Fixpoint before_colon (s : string) : option string :=
  match s with
  | EmptyString => None
  | String c r => if Ascii.eqb c ":" then Some EmptyString else String c <$> before_colon r
  end.

Definition get_sync_job_run_lock_epoch (token : string) : Z :=
  match before_colon token with
  | None => 0
  | Some epoch_text =>
      match parse_int epoch_text with
      | Some epoch => if 0 <? epoch then epoch else 0
      | None => 0
      end
  end.

(** [INCR] and the token built from it; [unique] is the fresh UUID. *)
Definition _ACQUIRE_LOCK_WITH_EPOCH_SCRIPT (k : keys) (unique : string) : keys * option string :=
  match run_lock k with
  | Some _ => (k, None)
  | None =>
      let epoch := default 0 (run_lock_epoch k) + 1 in
      let token := Z_to_string epoch +:+ ":" +:+ unique in
      (set_lock k (Some token) (Some epoch), Some token)
  end.

Definition try_acquire_sync_job_run_lock (k : keys) (unique : string) : keys * result pyexc (option string) :=
  let '(k, acquired) := _ACQUIRE_LOCK_WITH_EPOCH_SCRIPT k unique in
  match acquired with
  | None => (k, Ok None)
  | Some token =>
      if get_sync_job_run_lock_epoch token <=? 0
      then (k, Raise (RuntimeError "sync job run-lock acquisition returned an invalid epoch token"))
      else (k, Ok (Some token))
  end.

(** The generic lock, without an epoch. *)
Definition try_acquire_job_run_lock (k : keys) (unique : string) : keys * option string :=
  match run_lock k with
  | Some _ => (k, None)
  | None => (set_lock k (Some unique) (run_lock_epoch k), Some unique)
  end.

Definition delete_sync_job_run_lock_epoch (k : keys) : keys := set_lock k (run_lock k) None.

(** Renewal only moves the expiry of the lock. *)
Definition renew_job_run_lock (k : keys) (token : string) : bool := bool_decide (run_lock k = Some token).

Definition release_job_run_lock (k : keys) (token : string) : keys :=
  if bool_decide (run_lock k = Some token) then set_lock k None (run_lock_epoch k) else k.

(** ** Segments and once-only marks *)

Definition set_segments (k : keys) (l : gset string) : keys :=
  {| job_text := job_text k; run_lock := run_lock k; run_lock_epoch := run_lock_epoch k;
     processed_segments := l; once_marks := once_marks k |}.

Definition add_processed_segment (k : keys) (segment_path : string) : keys :=
  set_segments k ({[segment_path]} ∪ processed_segments k).

Definition _FENCED_ADD_PROCESSED_SEGMENT_SCRIPT (k : keys) (token segment_path : string) : keys * response :=
  match run_lock k with
  | None => (k, ("missing_owner", None))
  | Some owner =>
      if negb (String.eqb owner token) then (k, ("stale_owner", None))
      else (add_processed_segment k segment_path, ("applied", None))
  end.

Definition add_processed_segment_if_run_owner (k : keys) (token segment_path : string)
    : keys * result pyexc FencedSyncJobMutation :=
  let '(k, r) := _FENCED_ADD_PROCESSED_SEGMENT_SCRIPT k token segment_path in
  (k, _decode_fence_only_mutation r).

Definition get_processed_segments (k : keys) : gset string := processed_segments k.

Definition try_mark_once (k : keys) (tag : string) : keys * bool :=
  if bool_decide (tag ∈ once_marks k) then (k, false)
  else ({| job_text := job_text k; run_lock := run_lock k; run_lock_epoch := run_lock_epoch k;
           processed_segments := processed_segments k; once_marks := {[tag]} ∪ once_marks k |}, true).

(** ** Binding a run to the ledger

    What [bind_or_converge_sync_ledger_completion] goes on to do: nothing, as
    the run owns the entry or has no ledger; stop, as it lost the entry; or
    publish the completion the ledger already holds through its own token. *)
Inductive convergence : Type :=
| NothingToDo
| LeaseLost
| PublishCompletion (req : fenced_request).

Definition bind_or_converge_sync_ledger_completion (first_error : pyval -> string) (s : ledger)
    (job_id uid : string) (content_id run_lock_token : option string) (now : Z) (at_time : Q)
    : ledger * result pyexc convergence :=
  match nonempty_str (opt_str content_id), run_lock_token with
  | Some content, Some token =>
      let '(s, r) := bind_sync_content_run_token s uid content job_id token
                       (get_sync_job_run_lock_epoch token) now in
      (s, let* b := r in
          if bound b then Ok NothingToDo
          else
            let* valid := is_valid_completed_sync_content_result (default PNone (binding_result b)) in
            if negb (completed b) || negb valid then Ok LeaseLost
            else match binding_result b with
                 | Some (PDict res) =>
                     match _sync_job_finalization_updates first_error res at_time with
                     | Some (_, _, _, updates) =>
                         Ok (PublishCompletion
                               (fenced_finalize_sync_job_from_durable_ledger token updates at_time))
                     | None => Ok LeaseLost
                     end
                 | _ => Ok LeaseLost
                 end)
  | _, _ => (s, Ok NothingToDo)
  end.
