(* ===== verification/SyncJobOps.v ===== *)
(** What the sync jobs guarantee: a fenced update is one atomic conditional
    write made under its own lease, a terminal job stays terminal against every
    worker path (and not against the status poll), leases carry growing epochs,
    and a worker that lost its lease is refused by the lock and by the ledger. *)
From S2P Require Export Text SyncJobs SyncLedgerOps.

(** ** A fenced update *)

(** The guard the process checked before its next attempt. *)
Definition guard_passed (req : fenced_request) (job : dict) : Prop :=
  in_tuple (dict_get job "status") TERMINAL_STATUSES = false /\
  match req_allowed req with Some l => in_set (dict_get job "status") l = Ok true | None => True end.

Definition fenced_pc_ok (req : fenced_request) (pc : fenced_pc) : Prop :=
  match pc with
  | FencedAttempt _ raw job => loads_dict raw = Some job /\ guard_passed req job
  | _ => True
  end.

Definition not_applied (pc : fenced_pc) : Prop :=
  match pc with FencedDone (Ok m) => mutation_outcome m <> APPLIED | _ => True end.

Lemma fenced_loop_ok req tries raw job last :
  loads_dict raw = Some job -> mutation_outcome last <> APPLIED ->
  fenced_pc_ok req (fenced_loop req tries raw job last) /\ not_applied (fenced_loop req tries raw job last).
Proof.
  intros Hl Ha. unfold fenced_loop. destruct tries; [done|].
  destruct (in_tuple _ _) eqn:Ht; [done|]. unfold guard_passed.
  destruct (req_allowed req) as [l|] eqn:Hr.
  - destruct (in_set _ l) as [[]|] eqn:Hs; [|done|done]. split; [|done].
    split; [done|]. split; [done|]. by rewrite Hr.
  - split; [|done]. split; [done|]. split; [done|]. by rewrite Hr.
Qed.

(** What a script leaves and where the process goes. *)
Lemma script_cases k token expected next :
  let '(k', r) := _FENCED_JOB_MUTATION_SCRIPT k token expected next in
  (r = ("applied", Some next) /\ run_lock k = Some token /\ job_text k = Some expected /\
   k' = set_job k (Some next)) \/
  (k' = k /\ r.1 <> "applied" /\ r.1 ∈ ["missing_owner"; "stale_owner"; "missing_job"; "conflict"]).
Proof.
  unfold _FENCED_JOB_MUTATION_SCRIPT.
  destruct (run_lock k) as [owner|] eqn:Ho; [|right; split_and!; [done|done|decided]].
  destruct (String.eqb_spec owner token) as [->|]; simpl; [|right; split_and!; [done|done|decided]].
  destruct (job_text k) as [raw|] eqn:Hj; [|right; split_and!; [done|done|decided]].
  case_bool_decide as Hr; simpl; [subst; by left|right; split_and!; [done|done|decided]].
Qed.

Lemma after_attempt_ok req tries r :
  r.1 <> "applied" ->
  fenced_pc_ok req (after_attempt req tries r) /\ not_applied (after_attempt req tries r).
Proof.
  intros Hr. unfold after_attempt. destruct (_decode_fenced_mutation r) as [m|x] eqn:Hd; [|done].
  assert (mutation_outcome m <> APPLIED /\
          (forall raw job, raw_job m = Some raw -> mutation_job m = Some job -> loads_dict raw = Some job)) as [Ha Hm].
  { unfold _decode_fenced_mutation, decode_mutation, outcome_named in Hd.
    destruct (String.eqb_spec r.1 "applied"); [done|].
    repeat case_match; simplify_eq/=; (split; [discriminate|]); intros; congruence. }
  case_bool_decide; simpl; [|by split].
  destruct (raw_job m) as [raw|] eqn:Hraw, (mutation_job m) as [job|] eqn:Hjob; try done.
  apply fenced_loop_ok; [by apply Hm|done].
Qed.

(** One command of the process. *)
Lemma fenced_command req k pc k' pc' :
  fenced_pc_ok req pc -> fenced_update_sync_job req k pc = (k', pc') ->
  fenced_pc_ok req pc' /\
  ((k' = k /\ (not_applied pc' \/ pc' = pc)) \/
   exists tries raw job,
     pc = FencedAttempt tries raw job /\ run_lock k = Some (req_token req) /\ job_text k = Some raw /\
     k' = set_job k (Some (Dumped true (dict_update job (req_payload req)))) /\
     exists m, pc' = FencedDone (Ok m) /\ mutation_outcome m = APPLIED /\
       mutation_job m = Some (dict_update job (req_payload req))).
Proof.
  intros Hok H. destruct pc as [| |tries raw job|r]; simpl in H.
  - destruct (job_text k) as [raw|] eqn:Hj; [|injection H as <- <-; auto].
    destruct (loads_dict raw) as [job|] eqn:Hl; injection H as <- <-;
      [|split; [done|left; split; [done|by left]]].
    destruct (fenced_loop_ok req _FENCED_JOB_MUTATION_MAX_RETRIES raw job (bare CONFLICT)); [done|done|]. auto.
  - pose proof (script_cases k (req_token req) no_text no_text) as Hs.
    destruct (_FENCED_JOB_MUTATION_SCRIPT _ _ _ _) as [k1 r]. injection H as <- <-.
    destruct Hs as [(-> & _ & Hj & ->)|(-> & Hr & _)].
    + split; [done|]. left. split; [|by left]. destruct k; simpl in *. by rewrite Hj.
    + destruct (after_attempt_ok req _FENCED_JOB_MUTATION_MAX_RETRIES r Hr). auto.
  - pose proof (script_cases k (req_token req) raw (Dumped true (dict_update job (req_payload req)))) as Hs.
    destruct (_FENCED_JOB_MUTATION_SCRIPT _ _ _ _) as [k1 r]. injection H as <- <-.
    destruct Hs as [(-> & Ho & Hj & ->)|(-> & Hr & _)].
    + split; [done|]. right. exists tries, raw, job. split_and!; [done|done|done|done|].
      eexists. split; [reflexivity|]. done.
    + destruct (after_attempt_ok req (pred tries) r Hr). auto.
  - injection H as <- <-. auto.
Qed.

(** A call against whatever keys it finds at each of its commands: what each
    command found and left, and where the call stands. *)
Fixpoint run_fenced (req : fenced_request) (pc : fenced_pc) (found : list keys)
    : list (keys * keys) * fenced_pc :=
  match found with
  | [] => ([], pc)
  | k :: rest =>
      let '(k', pc') := fenced_update_sync_job req k pc in
      let '(cs, last) := run_fenced req pc' rest in
      ((k, k') :: cs, last)
  end.

Definition unchanged (c : keys * keys) : Prop := c.2 = c.1.

Lemma run_done req r found : run_fenced req (FencedDone r) found = (map (fun k => (k, k)) found, FencedDone r).
Proof. induction found as [|k found IH]; simpl; [done|]. by rewrite IH. Qed.

Lemma run_unchanged_done (found : list keys) : Forall unchanged (map (fun k => (k, k)) found).
Proof. apply Forall_map, Forall_true. done. Qed.

(** A fenced update is one atomic conditional write: whatever other
    processes do to the keys between its commands, either none of its commands
    changes anything and it does not report success; or exactly one does, at a
    moment when its token holds the run lock and the stored job is in an
    allowed, non-terminal state, it replaces that very job by the patched one,
    and the call reports success with it. *)
Theorem fenced_update_is_atomic req found :
  let '(cs, pc) := run_fenced req FencedStart found in
  (Forall unchanged cs /\ not_applied pc) \/
  exists before after k raw job m,
    cs = before ++ (k, set_job k (Some (Dumped true (dict_update job (req_payload req))))) :: after /\
    Forall unchanged before /\ Forall unchanged after /\
    run_lock k = Some (req_token req) /\ job_text k = Some raw /\ loads_dict raw = Some job /\
    guard_passed req job /\
    pc = FencedDone (Ok m) /\ mutation_outcome m = APPLIED /\
    mutation_job m = Some (dict_update job (req_payload req)).
Proof.
  assert (fenced_pc_ok req FencedStart /\ not_applied FencedStart) as [Hok Hna] by done.
  revert Hok Hna. generalize FencedStart. induction found as [|k found IH]; intros pc Hok Hna; simpl; [by left|].
  destruct (fenced_update_sync_job req k pc) as [k' pc'] eqn:Hc.
  destruct (fenced_command req k pc k' pc' Hok Hc) as [Hok' [[-> Hn]|(tries & raw & job & -> & Hl & Hj & -> & m & -> & Ha & Hm)]].
  - assert (not_applied pc') as Hna' by (by destruct Hn as [?| ->]).
    specialize (IH pc' Hok' Hna'). destruct (run_fenced req pc' found) as [cs last].
    destruct IH as [[Hu Hlast]|(before & after & k1 & raw & job & m & -> & Hb & Ha & Hrest)].
    + left. split; [by constructor|done].
    + right. exists ((k, k) :: before), after, k1, raw, job, m. split; [done|]. split; [by constructor|done].
  - rewrite run_done. right. destruct Hok as [Hr Hg].
    exists [], (map (fun k => (k, k)) found), k, raw, job, m. split_and!; try done; apply run_unchanged_done || by constructor.
Qed.

(** ** Termination *)

Definition commands_left (pc : fenced_pc) : nat :=
  match pc with FencedStart => 5 | FencedProbe => 4 | FencedAttempt tries _ _ => tries | FencedDone _ => 0 end.

(** An attempt is only waiting while it has one to make. *)
Definition live (pc : fenced_pc) : Prop := match pc with FencedAttempt O _ _ => False | _ => True end.

Definition at_most (n : nat) (pc : fenced_pc) : Prop := (commands_left pc <= n)%nat /\ live pc.

Lemma fenced_loop_left req tries raw job last : at_most tries (fenced_loop req tries raw job last).
Proof. unfold at_most, fenced_loop. destruct tries; [done|]. repeat case_match; simpl; split; done || lia. Qed.

Lemma after_attempt_left req tries r : at_most tries (after_attempt req tries r).
Proof.
  unfold after_attempt. destruct (_decode_fenced_mutation r) as [m|]; [|split; simpl; [lia|done]].
  destruct (negb _); [split; simpl; [lia|done]|].
  destruct (raw_job m), (mutation_job m); try (split; simpl; [lia|done]). apply fenced_loop_left.
Qed.

Lemma command_progress req k pc :
  live pc -> at_most (pred (commands_left pc)) (fenced_update_sync_job req k pc).2.
Proof.
  intros Hl. destruct pc as [| |tries raw job|r]; cbn [commands_left fenced_update_sync_job pred].
  - destruct (job_text k) as [raw|]; [|split; simpl; [lia|done]].
    destruct (loads_dict raw) as [job|]; [|split; simpl; [lia|done]].
    destruct (fenced_loop_left req _FENCED_JOB_MUTATION_MAX_RETRIES raw job (bare CONFLICT)) as [H ?].
    split; [|done]. unfold _FENCED_JOB_MUTATION_MAX_RETRIES in *. cbn [snd]. lia.
  - destruct (_FENCED_JOB_MUTATION_SCRIPT _ _ _ _) as [k1 r]. apply (after_attempt_left req 3).
  - destruct (_FENCED_JOB_MUTATION_SCRIPT _ _ _ _) as [k1 r]. apply after_attempt_left.
  - by split.
Qed.

(** A fenced update ends: within five Redis commands it has an answer,
    whatever other processes do to the keys in between. *)
Theorem fenced_update_terminates req found :
  (5 <= length found)%nat -> exists r, (run_fenced req FencedStart found).2 = FencedDone r.
Proof.
  assert (forall pc, at_most (length found) pc ->
            exists r, (run_fenced req pc found).2 = FencedDone r) as H; [|intros Hl; by apply H].
  induction found as [|k found IH]; intros pc [Hl Hlive]; simpl in *.
  - destruct pc as [| |[] raw job|r]; simpl in *; try lia; try done; by eauto.
  - pose proof (command_progress req k pc Hlive) as [Hp Hp2].
    destruct (fenced_update_sync_job req k pc) as [k' pc']. simpl in *.
    destruct (IH pc') as [r Hr]; [split; [lia|done]|]. destruct (run_fenced req pc' found). by exists r.
Qed.

Definition no_keys : keys :=
  {| job_text := None; run_lock := None; run_lock_epoch := None; processed_segments := ∅; once_marks := ∅ |}.

Lemma fenced_update_terminates_witness :
  exists r, (run_fenced (fenced_mark_job_processing "1:a" 0) FencedStart (repeat no_keys 5)).2 = FencedDone r.
Proof.
  exact (fenced_update_terminates (fenced_mark_job_processing "1:a" 0) (repeat no_keys 5) ltac:(simpl; lia)).
Defined.

(** ** Terminal jobs *)

Inductive worker : Type :=
| Fenced (req : fenced_request) (pc : fenced_pc)
| Legacy (payload : dict) (pc : legacy_pc).

Record world : Type := World { shared : keys; workers : list worker; polls : list read_pc }.

Definition fresh_world (w : world) : Prop := workers w = [] /\ polls w = [].

(** Workers start and make commands; locks, epochs, segments and marks change,
    and keys other than the job expire. *)
Inductive worker_step (w : world) : world -> Prop :=
| worker_starts_fenced req :
    worker_step w (World (shared w) (workers w ++ [Fenced req FencedStart]) (polls w))
| worker_starts_legacy payload :
    worker_step w (World (shared w) (workers w ++ [Legacy payload LegacyStart]) (polls w))
| worker_runs_fenced i req pc k' pc' :
    workers w !! i = Some (Fenced req pc) -> fenced_update_sync_job req (shared w) pc = (k', pc') ->
    worker_step w (World k' (<[i := Fenced req pc']> (workers w)) (polls w))
| worker_runs_legacy i payload pc k' pc' :
    workers w !! i = Some (Legacy payload pc) -> update_sync_job payload (shared w) pc = (k', pc') ->
    worker_step w (World k' (<[i := Legacy payload pc']> (workers w)) (polls w))
| other_keys_change k' :
    job_text k' = job_text (shared w) -> worker_step w (World k' (workers w) (polls w)).

(** Status polls start and make commands. *)
Inductive poll_step (w : world) : world -> Prop :=
| poll_starts : poll_step w (World (shared w) (workers w) (polls w ++ [ReadStart]))
| poll_runs i pc now k' pc' :
    polls w !! i = Some pc -> get_sync_job (shared w) pc now = (k', pc') ->
    poll_step w (World k' (workers w) (<[i := pc']> (polls w))).

Definition any_step (w w' : world) : Prop := worker_step w w' \/ poll_step w w'.

Definition legacy_pc_ok (pc : legacy_pc) : Prop :=
  match pc with
  | LegacyAttempt _ raw job =>
      loads_dict raw = Some job /\ in_tuple (dict_get job "status") TERMINAL_STATUSES = false
  | _ => True
  end.

Lemma legacy_loop_ok tries raw job : loads_dict raw = Some job -> legacy_pc_ok (legacy_loop tries raw job).
Proof. intros Hl. unfold legacy_loop. destruct tries; [done|]. by destruct (in_tuple _ _) eqn:Ht. Qed.

Lemma decoded_text path r m :
  decode_mutation path r = Ok m ->
  forall raw job, raw_job m = Some raw -> mutation_job m = Some job -> loads_dict raw = Some job.
Proof. unfold decode_mutation. intros H. repeat case_match; simplify_eq/=; intros; congruence. Qed.

(** One command of a legacy update. *)
Lemma legacy_command payload k pc k' pc' :
  legacy_pc_ok pc -> update_sync_job payload k pc = (k', pc') ->
  legacy_pc_ok pc' /\
  (k' = k \/ exists raw job, job_text k = Some raw /\ loads_dict raw = Some job /\
     in_tuple (dict_get job "status") TERMINAL_STATUSES = false /\
     k' = set_job k (Some (Dumped true (dict_update job payload)))).
Proof.
  intros Hok H. destruct pc as [|tries raw job|r]; cbn [update_sync_job] in H; [| |injection H as <- <-; auto].
  - destruct (job_text k) as [raw|] eqn:Hj; [|injection H as <- <-; auto].
    destruct (is_empty raw); [injection H as <- <-; auto|].
    destruct (loads_dict raw) as [job|] eqn:Hl; [|injection H as <- <-; auto].
    apply pair_eq in H as [<- <-]. split; [by apply legacy_loop_ok|by left].
  - destruct Hok as [Hl Ht]. destruct (_LEGACY_JOB_MUTATION_SCRIPT k raw _) as [k1 r] eqn:Hs.
    injection H as <- <-. split.
    + destruct (_decode_legacy_job_mutation r) as [m|x] eqn:Hd; [|done].
      repeat case_bool_decide; simpl; try done.
      destruct (raw_job m) as [raw'|] eqn:Hraw, (mutation_job m) as [job'|] eqn:Hjob; try done.
      apply legacy_loop_ok. by eapply decoded_text.
    + unfold _LEGACY_JOB_MUTATION_SCRIPT in Hs. destruct (job_text k) as [t|] eqn:Hj.
      * case_bool_decide as Heq; simpl in Hs; injection Hs as <- <-; [|by left].
        subst t. right. exists raw, job. auto.
      * injection Hs as <- <-. by left.
Qed.

Definition worker_ok (p : worker) : Prop :=
  match p with Fenced req pc => fenced_pc_ok req pc | Legacy _ pc => legacy_pc_ok pc end.

Lemma worker_step_ok w w' : Forall worker_ok (workers w) -> worker_step w w' -> Forall worker_ok (workers w').
Proof.
  intros Hw Hs. destruct Hs as [req|payload|i req pc k' pc' Hi Hc|i payload pc k' pc' Hi Hc|k' _]; simpl.
  - apply Forall_app; by repeat constructor.
  - apply Forall_app; by repeat constructor.
  - apply Forall_insert; [done|]. eapply Forall_lookup_1 in Hi; [|exact Hw]. by apply fenced_command in Hc as [? _].
  - apply Forall_insert; [done|]. eapply Forall_lookup_1 in Hi; [|exact Hw]. by apply legacy_command in Hc as [? _].
  - done.
Qed.

Definition terminal_text (t : text) : Prop :=
  exists job, loads_dict t = Some job /\ in_tuple (dict_get job "status") TERMINAL_STATUSES = true.

Lemma worker_step_keeps t w w' :
  terminal_text t -> Forall worker_ok (workers w) -> worker_step w w' ->
  job_text (shared w) = Some t -> job_text (shared w') = Some t.
Proof.
  intros (job0 & Hl0 & Ht0) Hw Hs Hj.
  destruct Hs as [req|payload|i req pc k' pc' Hi Hc|i payload pc k' pc' Hi Hc|k' Hk]; simpl; try done.
  - eapply Forall_lookup_1 in Hi; [|exact Hw]. pose proof (fenced_command _ _ _ _ _ Hi Hc) as [_ Hcase].
    destruct Hcase as [[-> _]|(tries & raw & job & -> & _ & Hj' & _)]; [done|].
    destruct Hi as [Hl [Ht _]]. simplify_eq. congruence.
  - eapply Forall_lookup_1 in Hi; [|exact Hw]. pose proof (legacy_command _ _ _ _ _ Hi Hc) as [_ Hcase].
    destruct Hcase as [->|(raw & job & Hj' & Hl & Ht & _)]; [done|]. simplify_eq. congruence.
  - by rewrite Hk.
Qed.

(** A terminal job stays terminal against every worker: once the job's
    status is completed, partial_failure or failed, no interleaving of fenced
    updates, legacy updates, lock changes and segment records ever changes the
    job again, even by workers that read it before it became terminal. *)
Theorem terminal_job_is_kept w w' t :
  reachable fresh_world worker_step w -> job_text (shared w) = Some t -> terminal_text t ->
  star worker_step w w' -> job_text (shared w') = Some t.
Proof.
  intros Hr Hj Ht Hs.
  assert (Forall worker_ok (workers w)) as Hw.
  { revert w Hr Hj Hs. intros w Hr _ _.
    apply (reachable_ind_inv fresh_world worker_step (fun w => Forall worker_ok (workers w)));
      [by intros s [-> _]|apply worker_step_ok|done]. }
  induction Hs as [|w1 w2 w3 H12 _ IH]; [done|]. apply IH.
  - by eapply reach_step.
  - by eapply worker_step_keeps.
  - by eapply worker_step_ok.
Qed.

Definition completed_job : dict := [("status", PStr "completed")].
Definition completed_keys : keys := set_job no_keys (Some (Dumped true completed_job)).
Definition completed_world : world := World completed_keys [] [].
Definition retry_payload : dict := mark_job_queued_for_retry 2 "late" 9.

Lemma terminal_job_is_kept_witness :
  job_text (shared (World completed_keys [Legacy retry_payload (LegacyDone (Ok None))] [])) =
    Some (Dumped true completed_job).
Proof.
  refine (terminal_job_is_kept completed_world _ (Dumped true completed_job) _ eq_refl _ _).
  - apply reach_init. by split.
  - exists completed_job. by split.
  - eapply star_step; [apply (worker_starts_legacy completed_world retry_payload)|].
    eapply star_step; [|apply star_refl].
    exact (worker_runs_legacy (World completed_keys [Legacy retry_payload LegacyStart] []) 0 retry_payload
      LegacyStart completed_keys (LegacyDone (Ok None)) eq_refl eq_refl).
Defined.

(** ** The status poll *)

Lemma dict_get_set d k v k' : dict_get (dict_set d k v) k' = if String.eqb k' k then v else dict_get d k'.
Proof.
  unfold dict_get. induction d as [|[k0 v0] d IH]; simpl.
  - by destruct (String.eqb k' k).
  - destruct (String.eqb_spec k k0) as [->|Hne]; simpl.
    + by destruct (String.eqb k' k0).
    + destruct (String.eqb_spec k' k0) as [->|]; [|done].
      by destruct (String.eqb_spec k0 k) as [->|].
Qed.

Lemma dict_get_update d e k :
  dict_get (dict_update d e) k = foldl (fun v kv => if String.eqb k kv.1 then kv.2 else v) (dict_get d k) e.
Proof.
  unfold dict_update. revert d. induction e as [|[k' v'] e IH]; intros d; simpl; [done|].
  by rewrite IH, dict_get_set.
Qed.

Definition job_status (k : keys) : pyval :=
  match job_text k with
  | Some t => match loads_dict t with Some job => dict_get job "status" | None => PNone end
  | None => PNone
  end.

Lemma finalized_status first_error res now status total failed updates job token allowed :
  _sync_job_finalization_updates first_error res now = Some (status, total, failed, updates) ->
  dict_get (dict_update job (req_payload (_fenced_finalize_sync_job token updates now allowed))) "status" =
    PStr status.
Proof.
  unfold _sync_job_finalization_updates. intros Hu.
  repeat (case_match; try discriminate Hu). injection Hu as <- _ _ <-.
  rewrite dict_get_update. reflexivity.
Qed.

(** The status poll can revoke a completion: when a poll reads a job that
    has gone silent and the worker, still holding its lease, completes the job
    before the poll writes, the poll overwrites the completed job by its stale
    copy marked failed. *)
Theorem stale_poll_revokes_completion first_error k raw job token res total failed updates now :
  job_text k = Some raw -> is_empty raw = false -> loads raw = Some (PDict job) ->
  dict_get job "status" = PStr "processing" -> is_sync_job_stale job now = true ->
  run_lock k = Some token ->
  _sync_job_finalization_updates first_error res now = Some ("completed", total, failed, updates) ->
  let poll := (get_sync_job k ReadStart now).2 in
  let '(cs, worker) := run_fenced (fenced_finalize_sync_job token updates now) FencedStart [k; k] in
  exists k1 m k2,
    cs = [(k, k); (k, k1)] /\ worker = FencedDone (Ok m) /\ applied m = true /\
    job_status k1 = PStr "completed" /\
    (get_sync_job k1 poll now).1 = k2 /\ job_status k2 = PStr "failed".
Proof.
  intros Hj He Hl Hs Hst Ho Hu.
  assert (loads_dict raw = Some job) as Hd by (unfold loads_dict; by rewrite Hl).
  set (req := fenced_finalize_sync_job token updates now).
  assert (get_sync_job k ReadStart now = (k, ReadHeal job)) as Hp
    by (unfold get_sync_job; by rewrite Hj, He, Hl, Hst).
  assert (guard_passed req job) as [Ht Ha] by (unfold guard_passed; by rewrite Hs).
  assert (fenced_update_sync_job req k FencedStart = (k, FencedAttempt 3 raw job)) as Hstart.
  { unfold fenced_update_sync_job. rewrite Hj, Hd. unfold fenced_loop, _FENCED_JOB_MUTATION_MAX_RETRIES.
    rewrite Ht. unfold req, fenced_finalize_sync_job, _fenced_finalize_sync_job. cbn [req_allowed].
    by rewrite Hs. }
  set (next := Dumped true (dict_update job (req_payload req))).
  assert (fenced_update_sync_job req k (FencedAttempt 3 raw job) =
    (set_job k (Some next), FencedDone (Ok {| mutation_outcome := APPLIED;
       mutation_job := Some (dict_update job (req_payload req)); raw_job := Some next |}))) as Hrun.
  { unfold fenced_update_sync_job, _FENCED_JOB_MUTATION_SCRIPT. rewrite Ho, Hj. cbn [req_token req fenced_finalize_sync_job _fenced_finalize_sync_job].
    rewrite String.eqb_refl. cbn [negb]. by rewrite bool_decide_true. }
  cbn [run_fenced]. rewrite Hstart, Hrun. cbn [run_fenced].
  eexists _, _, _. split_and!; [reflexivity|reflexivity|done| |reflexivity|].
  - unfold job_status. cbn [job_text set_job loads_dict loads next].
    by apply (finalized_status first_error res now "completed" total failed).
  - rewrite Hp. cbn [get_sync_job fst snd]. unfold job_status, healed.
    cbn [job_text set_job loads_dict loads]. by rewrite !dict_get_set.
Qed.

Definition silent_job : dict :=
  [("status", PStr "processing"); ("updated_at", PFloat 1); ("dispatch_mode", PStr "inline")].
Definition silent_keys : keys := set_lock (set_job no_keys (Some (Dumped true silent_job))) (Some "1:a"%string) (Some 1).
Definition clean_result : dict :=
  [("failed_segments", PInt 0); ("total_segments", PInt 1); ("errors", PList [])].
Definition clean_updates : dict :=
  [("status", PStr "completed"); ("completed_at", PFloat 700); ("result", PDict clean_result);
   ("successful_segments", PInt 1); ("failed_segments", PInt 0); ("processed_segments", PInt 1); ("error", PNone)].

Lemma stale_poll_revokes_completion_witness :
  let poll := (get_sync_job silent_keys ReadStart 700).2 in
  let '(cs, worker) := run_fenced (fenced_finalize_sync_job "1:a" clean_updates 700) FencedStart
                         [silent_keys; silent_keys] in
  exists k1 m k2,
    cs = [(silent_keys, silent_keys); (silent_keys, k1)] /\ worker = FencedDone (Ok m) /\ applied m = true /\
    job_status k1 = PStr "completed" /\
    (get_sync_job k1 poll 700).1 = k2 /\ job_status k2 = PStr "failed".
Proof.
  exact (stale_poll_revokes_completion (fun _ => "") silent_keys (Dumped true silent_job) silent_job "1:a"
    clean_result 1 0 clean_updates 700 eq_refl eq_refl eq_refl eq_refl eq_refl eq_refl eq_refl).
Defined.

(** ** Leases *)

Lemma before_colon_app p s :
  Forall (fun c => Ascii.eqb c ":" = false) (list_ascii_of_string p) ->
  before_colon (p +:+ String ":" s) = Some p.
Proof.
  induction p as [|c p IH]; simpl; intros Hp; [done|].
  apply Forall_cons in Hp as [-> Hp]. by rewrite (IH Hp).
Qed.

Lemma token_epoch n unique : 0 < n -> get_sync_job_run_lock_epoch (Z_to_string n +:+ ":" +:+ unique) = n.
Proof.
  intros Hn. unfold get_sync_job_run_lock_epoch.
  change (":" +:+ unique) with (String ":" unique). rewrite before_colon_app.
  - rewrite parse_int_pretty by lia. by destruct (Z.ltb_spec 0 n); [|lia].
  - eapply Forall_impl; [apply digits_pretty; lia|]. intros c [z Hz].
    destruct c as [[] [] [] [] [] [] [] []]; done.
Qed.

(** The epoch inside a run-lock token is read back exactly, for every
    positive epoch and whatever follows the colon. *)
Theorem run_token_roundtrip n unique :
  0 < n -> get_sync_job_run_lock_epoch (Z_to_string n +:+ ":" +:+ unique) = n.
Proof. apply token_epoch. Qed.

Lemma run_token_roundtrip_witness : get_sync_job_run_lock_epoch "12:5f:x" = 12.
Proof. exact (run_token_roundtrip 12 "5f:x" ltac:(lia)). Defined.

(** What happens to the keys while the epoch counter is kept: leases are taken,
    released and expire, and other keys change. *)
Inductive lock_step (k : keys) : keys -> Prop :=
| lease_requested unique : lock_step k (try_acquire_sync_job_run_lock k unique).1
| lease_released token : lock_step k (release_job_run_lock k token)
| lease_expired : lock_step k (set_lock k None (run_lock_epoch k))
| others_changed k' :
    run_lock k' = run_lock k -> run_lock_epoch k' = run_lock_epoch k -> lock_step k k'.

(** Every lease from now on has an epoch above [n]. *)
Definition leases_above (n : Z) (k : keys) : Prop :=
  0 <= n <= default 0 (run_lock_epoch k) /\
  match run_lock k with Some t => n < get_sync_job_run_lock_epoch t | None => True end.

Lemma acquired k unique k' token :
  0 <= default 0 (run_lock_epoch k) -> try_acquire_sync_job_run_lock k unique = (k', Ok (Some token)) ->
  get_sync_job_run_lock_epoch token = default 0 (run_lock_epoch k) + 1 /\
  run_lock k' = Some token /\ run_lock_epoch k' = Some (default 0 (run_lock_epoch k) + 1).
Proof.
  intros Hn. unfold try_acquire_sync_job_run_lock, _ACQUIRE_LOCK_WITH_EPOCH_SCRIPT.
  destruct (run_lock k); [done|]. rewrite token_epoch by lia.
  destruct (Z.leb_spec (default 0 (run_lock_epoch k) + 1) 0); [done|]. intros [= <- <-].
  by rewrite token_epoch by lia.
Qed.

Lemma leases_above_step n k k' : leases_above n k -> lock_step k k' -> leases_above n k'.
Proof.
  intros [Hn Hl] Hs. destruct Hs as [unique|token| |k' H1 H2].
  - unfold try_acquire_sync_job_run_lock, _ACQUIRE_LOCK_WITH_EPOCH_SCRIPT.
    destruct (run_lock k) eqn:Hk; [simpl; unfold leases_above; by rewrite Hk|].
    rewrite token_epoch by lia. destruct (_ <=? 0); simpl; unfold leases_above; simpl;
      rewrite token_epoch by lia; lia.
  - unfold release_job_run_lock, leases_above. case_bool_decide; simpl; [by split|by split].
  - by split.
  - unfold leases_above. by rewrite H1, H2.
Qed.

Lemma leases_above_star n k k' : leases_above n k -> star lock_step k k' -> leases_above n k'.
Proof. intros Hn Hs. revert Hs Hn. apply star_preserves. apply leases_above_step. Qed.

Lemma epoch_grows k k' :
  0 <= default 0 (run_lock_epoch k) -> star lock_step k k' ->
  default 0 (run_lock_epoch k) <= default 0 (run_lock_epoch k').
Proof.
  intros Hn Hs. induction Hs as [|k1 k2 k3 H12 _ IH]; [lia|].
  enough (default 0 (run_lock_epoch k1) <= default 0 (run_lock_epoch k2)) by lia. clear IH.
  destruct H12 as [unique|token| |k' _ ->]; simpl; try lia.
  - unfold try_acquire_sync_job_run_lock, _ACQUIRE_LOCK_WITH_EPOCH_SCRIPT.
    destruct (run_lock k1); simpl; [lia|]. destruct (_ <=? 0); simpl; lia.
  - unfold release_job_run_lock. case_bool_decide; simpl; lia.
Qed.

(** An update whose token does not hold the lock is never applied. *)
Lemma unheld_update req found : forall pc,
  fenced_pc_ok req pc -> not_applied pc -> Forall (fun k => run_lock k <> Some (req_token req)) found ->
  not_applied (run_fenced req pc found).2.
Proof.
  induction found as [|k found IH]; intros pc Hok Hna Hf; simpl; [done|].
  apply Forall_cons in Hf as [Hk Hf]. destruct (fenced_update_sync_job req k pc) as [k' pc'] eqn:Hc.
  destruct (fenced_command req k pc k' pc' Hok Hc) as [Hok' [[_ Hn]|(tries & raw & job & _ & Hl & _)]]; [|done].
  assert (not_applied pc') as Hna' by (by destruct Hn as [?| ->]).
  specialize (IH pc' Hok' Hna' Hf). by destruct (run_fenced req pc' found).
Qed.

(** A run that may go on was granted its bind. *)
Lemma nothing_to_do merge_maps first_error s job uid content token now at_time s1 :
  content <> ""%string ->
  bind_or_converge_sync_ledger_completion first_error s job uid (Some content) (Some token) now at_time =
    (s1, Ok NothingToDo) ->
  perform merge_maps s (uid, content) (Bind job token (get_sync_job_run_lock_epoch token)) now =
    (s1, RBind BOUND_NOW).
Proof.
  intros Hc. unfold bind_or_converge_sync_ledger_completion. cbn [opt_str nonempty_str].
  destruct (String.eqb_spec content ""); [done|]. cbn [perform].
  destruct (bind_sync_content_run_token _ _ _ _ _ _ _) as [s' r] eqn:Hb. intros [= -> H].
  destruct r as [b|x]; cbn [rbind] in H; [|done]. simpl. f_equal. f_equal.
  apply (bound_is_now _ _ _ _ _ _ _ _ _ Hb). destruct (bound b); [done|].
  destruct (is_valid_completed_sync_content_result _) as [valid|x]; cbn [rbind] in H; [|done].
  by repeat (case_match; try discriminate H).
Qed.

(** C24: a displaced worker is refused everywhere: when one worker took the
    lease of a job, another took it later, and the later one bound its run to
    the content ledger, then, as long as the job does not claim the content
    anew, every ledger call of the first worker leaves the ledger as it is and
    is not granted, and no update it makes of the job is applied, however its
    commands interleave with lease expiries and further takeovers. *)
Theorem displaced_worker_is_refused merge_maps k u1 k1 t1 k2 u2 k3 t2 first_error past job uid content s1 now at_time later :
  0 <= default 0 (run_lock_epoch k) -> content <> ""%string ->
  try_acquire_sync_job_run_lock k u1 = (k1, Ok (Some t1)) -> star lock_step k1 k2 ->
  try_acquire_sync_job_run_lock k2 u2 = (k3, Ok (Some t2)) ->
  bind_or_converge_sync_ledger_completion first_error (perform_all merge_maps ∅ past).1 job uid
    (Some content) (Some t2) now at_time = (s1, Ok NothingToDo) ->
  Forall (fun c : ledger_call => c.1.1 = (uid, content) -> forall lane, c.1.2 <> Claim job lane) later ->
  let s := (perform_all merge_maps s1 later).1 in
  (forall o now', run_call job t1 (get_sync_job_run_lock_epoch t1) o ->
     (perform merge_maps s (uid, content) o now').1 = s /\
     ~ granted (perform merge_maps s (uid, content) o now').2) /\
  (forall req found, req_token req = t1 -> Forall (fun k => star lock_step k3 k) found ->
     not_applied (run_fenced req FencedStart found).2).
Proof.
  intros Hn Hc H1 H12 H2 Hb Hl s.
  destruct (acquired _ _ _ _ Hn H1) as (He1 & _ & Hk1).
  assert (default 0 (run_lock_epoch k1) = get_sync_job_run_lock_epoch t1) as Hd1 by (by rewrite Hk1, He1).
  assert (get_sync_job_run_lock_epoch t1 <= default 0 (run_lock_epoch k2)) as Hle.
  { rewrite <- Hd1. apply epoch_grows; [lia|done]. }
  destruct (acquired k2 _ _ _ ltac:(lia) H2) as (He2 & Hlock & Hk3).
  split.
  - intros o now' Hr. eapply stale_call_refused; [|shelve|exact Hr].
    apply beyond_history; [|done]. eapply bound_beyond. by apply (nothing_to_do merge_maps) in Hb.
    Unshelve. lia.
  - intros req found Hreq Hf. apply unheld_update; [done|done|]. eapply Forall_impl; [exact Hf|].
    intros k' Hs Hk'.
    assert (leases_above (get_sync_job_run_lock_epoch t1) k') as [_ Ha].
    { eapply leases_above_star; [|exact Hs]. unfold leases_above. rewrite Hlock, Hk3. simpl. lia. }
    rewrite Hk', Hreq in Ha. lia.
Qed.

(** Two workers: the lease of the first expires and the second takes over. *)
Definition first_lease : keys := (try_acquire_sync_job_run_lock no_keys "a").1.
Definition expired_lease : keys := set_lock first_lease None (run_lock_epoch first_lease).
Definition second_lease : keys := (try_acquire_sync_job_run_lock expired_lease "b").1.
Definition claimed_past : list ledger_call := [(demo_ref, Claim "j" "fresh", 0)].
Definition taken_over : ledger :=
  (bind_or_converge_sync_ledger_completion (fun _ => "") (perform_all later_map ∅ claimed_past).1 "j" "u"
     (Some "c"%string) (Some "2:b"%string) 5 5).1.

Lemma taken_over_bound :
  bind_or_converge_sync_ledger_completion (fun _ => "") (perform_all later_map ∅ claimed_past).1 "j" "u"
    (Some "c"%string) (Some "2:b"%string) 5 5 = (taken_over, Ok NothingToDo).
Proof. apply injective_projections; [reflexivity|by vm_compute]. Qed.

Lemma displaced_worker_is_refused_witness :
  (forall o now', run_call "j" "1:a" 1 o ->
     (perform later_map taken_over ("u", "c") o now').1 = taken_over /\
     ~ granted (perform later_map taken_over ("u", "c") o now').2) /\
  (forall req found, req_token req = "1:a"%string -> Forall (fun k => star lock_step second_lease k) found ->
     not_applied (run_fenced req FencedStart found).2).
Proof.
  exact (displaced_worker_is_refused later_map no_keys "a" first_lease "1:a" expired_lease "b" second_lease "2:b"
    (fun _ => "") claimed_past "j" "u" "c" taken_over 5 5 [] ltac:(simpl; lia) ltac:(discriminate) eq_refl
    (star_step lock_step _ _ _ (lease_expired first_lease) (star_refl lock_step _)) eq_refl taken_over_bound
    (Forall_nil_2 _)).
Defined.
