(* ===== verification/Accounting.v ===== *)
(** Accounting of provider attempts in the language-model gateway
    ([llm_gateway/gateway/accounting.py]): normalized usage, rate cards, the
    cost of an attempt, the ledger event of an attempt and the receipt of a
    budgeted run.

    Amounts are integers of micro-dollars and token counts integers, as in the
    code.  A parsed JSON or YAML value is a [pyval]; a mapping is the list of
    its items.  Texts are ASCII for [strip] and [lower]. *)
From S2P Require Export PyValue.

(** ** Enumerations *)

(** [NOT_REPORTED] and [INDETERMINATE] are members of several enumerations of
    the source; the prefix tells them apart. *)
Inductive CacheStatus : Type :=
| HIT | PARTIAL_HIT | MISS | NO_CACHE_READ_OBSERVED | NOT_REQUESTED | CACHE_NOT_REPORTED | NOT_APPLICABLE.

Inductive UsageStatus : Type := CONFIRMED | USAGE_NOT_REPORTED | USAGE_INDETERMINATE.

Inductive CostStatus : Type := ESTIMATED | UNPRICED | INDETERMINATE | NOT_OMI_COST.

#[export] Instance UsageStatus_eq_dec : EqDecision UsageStatus.
Proof. solve_decision. Defined.

#[export] Instance CostStatus_eq_dec : EqDecision CostStatus.
Proof. solve_decision. Defined.

(** The [value] of the members, as the receipt prints them. *)
Definition usage_status_value (s : UsageStatus) : string :=
  match s with
  | CONFIRMED => "confirmed"
  | USAGE_NOT_REPORTED => "not_reported"
  | USAGE_INDETERMINATE => "indeterminate"
  end.

Definition cost_status_value (s : CostStatus) : string :=
  match s with
  | ESTIMATED => "estimated"
  | UNPRICED => "unpriced"
  | INDETERMINATE => "indeterminate"
  | NOT_OMI_COST => "not_omi_cost"
  end.

(** ** Usage *)

Record ProviderUsage : Type := {
  prompt_tokens : Z;
  cached_input_tokens : Z;
  uncached_input_tokens : Z;
  output_tokens : Z;
  reasoning_tokens : Z;
  output_tokens_include_reasoning : bool;
  tool_use_prompt_tokens : Z;
  cache_write_tokens : Z;
  cache_write_ttl : option string;
  total_tokens : Z;
  cache_status : CacheStatus;
  unit_type : string;
  image_count : Z;
  image_size : option string;
  image_quality : option string;
}.

(** [ProviderUsage()] *)
Definition default_usage : ProviderUsage :=
  {| prompt_tokens := 0; cached_input_tokens := 0; uncached_input_tokens := 0; output_tokens := 0;
     reasoning_tokens := 0; output_tokens_include_reasoning := false; tool_use_prompt_tokens := 0;
     cache_write_tokens := 0; cache_write_ttl := None; total_tokens := 0;
     cache_status := CACHE_NOT_REPORTED; unit_type := "tokens"; image_count := 0;
     image_size := None; image_quality := None |}.

Definition billable_output_tokens (u : ProviderUsage) : Z :=
  if output_tokens_include_reasoning u then output_tokens u else output_tokens u + reasoning_tokens u.

Record ProviderResponseMetadata : Type := {
  usage : option ProviderUsage;
  provider_response_id : option string;
  actual_model_version : option string;
  traffic_type : option string;
}.

(** ** Rate cards *)

(** The rates that apply to one request. *)
Record RateCardTier : Type := {
  input_micro_usd_per_million : Z;
  cached_input_micro_usd_per_million : Z;
  output_micro_usd_per_million : Z;
  cache_write_micro_usd_per_million : option Z;
  cache_write_1h_micro_usd_per_million : option Z;
}.

(** A rate card: its short-context rates, and the rates and threshold of its
    long-context band when it has one. *)
Record RateCard : Type := {
  rate_card_id : string;
  provider : string;
  model : string;
  card_input : Z;
  card_cached_input : Z;
  card_output : Z;
  card_cache_write : option Z;
  card_cache_write_1h : option Z;
  long_context_threshold_tokens : option Z;
  long_context_input : option Z;
  long_context_cached_input : option Z;
  long_context_output : option Z;
  long_context_cache_write : option Z;
  long_context_cache_write_1h : option Z;
}.

Definition short_tier (c : RateCard) : RateCardTier :=
  {| input_micro_usd_per_million := card_input c;
     cached_input_micro_usd_per_million := card_cached_input c;
     output_micro_usd_per_million := card_output c;
     cache_write_micro_usd_per_million := card_cache_write c;
     cache_write_1h_micro_usd_per_million := card_cache_write_1h c |}.

Definition effective_rates (c : RateCard) (total_context_tokens : Z) : RateCardTier :=
  match long_context_threshold_tokens c, long_context_input c with
  | Some threshold, Some long_input =>
      if threshold <? total_context_tokens then
        {| input_micro_usd_per_million := long_input;
           cached_input_micro_usd_per_million := default 0 (long_context_cached_input c);
           output_micro_usd_per_million := default 0 (long_context_output c);
           cache_write_micro_usd_per_million := long_context_cache_write c;
           cache_write_1h_micro_usd_per_million := long_context_cache_write_1h c |}
      else short_tier c
  | _, _ => short_tier c
  end.

Record ImageRateCard : Type := {
  image_card_id : string;
  image_provider : string;
  image_model : string;
  image_card_size : string;
  image_card_quality : string;
  micro_usd_per_image : Z;
}.

(** ** Reading parsed values *)

Abbreviation mapping := (list (string * pyval)).

(** [m.get(k)], [k in m] and [m.get(k, m.get(k'))] *)
Definition item_get (m : mapping) (k : string) : pyval := default PNone (assoc_value k m).
Definition has_key (m : mapping) (k : string) : bool := bool_decide (is_Some (assoc_value k m)).
Definition get_either (m : mapping) (k k' : string) : pyval := default (item_get m k') (assoc_value k m).

Definition _has_any_field (raw : mapping) (keys : list string) : bool := existsb (has_key raw) keys.

Definition _nonnegative_int (v : pyval) : Z :=
  match v with
  | PInt z => Z.max z 0
  | PFloat q => Z.max (Z.quot (Qnum q) (Zpos (Qden q))) 0
  | _ => 0
  end.

Definition _optional_nonnegative_int (item : mapping) (key : string) : option Z :=
  match item_get item key with
  | PNone => None
  | v => Some (_nonnegative_int v)
  end.

Definition _required_string (item : mapping) (key : string) : result pyexc string :=
  let refused := Raise (ValueError ("rate card " ++ key ++ " must be a non-empty string")) in
  match item_get item key with
  | PStr s => if String.eqb (py_strip s) "" then refused else Ok (py_strip s)
  | _ => refused
  end.

Definition _string_or_none (v : pyval) : option string :=
  match v with
  | PStr s => if String.eqb (py_strip s) "" then None else Some (py_strip s)
  | _ => None
  end.

(** ** Loading the rate cards *)

Definition card_of_item (item : mapping) : result pyexc RateCard :=
  let rate key := _nonnegative_int (item_get item key) in
  let optional := _optional_nonnegative_int item in
  let* id := _required_string item "rate_card_id" in
  let* card_provider := _required_string item "provider" in
  let* card_model := _required_string item "model" in
  Ok {| rate_card_id := id; provider := py_lower card_provider; model := card_model;
        card_input := rate "input_micro_usd_per_million";
        card_cached_input := rate "cached_input_micro_usd_per_million";
        card_output := rate "output_micro_usd_per_million";
        card_cache_write := optional "cache_write_micro_usd_per_million";
        card_cache_write_1h := optional "cache_write_1h_micro_usd_per_million";
        long_context_threshold_tokens := optional "long_context_threshold_tokens";
        long_context_input := optional "long_context_input_micro_usd_per_million";
        long_context_cached_input := optional "long_context_cached_input_micro_usd_per_million";
        long_context_output := optional "long_context_output_micro_usd_per_million";
        long_context_cache_write := optional "long_context_cache_write_micro_usd_per_million";
        long_context_cache_write_1h := optional "long_context_cache_write_1h_micro_usd_per_million" |}.

Definition image_card_of_item (item : mapping) : result pyexc ImageRateCard :=
  let* id := _required_string item "rate_card_id" in
  let* card_provider := _required_string item "provider" in
  let* card_model := _required_string item "model" in
  let* size := _required_string item "size" in
  let* quality := _required_string item "quality" in
  Ok {| image_card_id := id; image_provider := py_lower card_provider; image_model := card_model;
        image_card_size := size; image_card_quality := quality;
        micro_usd_per_image := _nonnegative_int (item_get item "micro_usd_per_image") |}.

Definition card_key (c : RateCard) : string * string := (provider c, model c).
Definition image_card_key (c : ImageRateCard) : string * string * string * string :=
  (image_provider c, image_model c, image_card_size c, image_card_quality c).

Section RateCardFile.
(** The path of the rate-card file, for the messages, and what [yaml.safe_load]
    reads from it. *)
Context (RATE_CARD_FILE : string) (raw_cards : pyval).

Definition add_card (cards : gmap (string * string) RateCard) (item : pyval)
    : result pyexc (gmap (string * string) RateCard) :=
  match item with
  | PDict fields =>
      let* card := card_of_item fields in
      match cards !! card_key card with
      | Some _ => Raise (ValueError ("duplicate gateway rate card: " ++ provider card ++ "/" ++ model card))
      | None => Ok (<[card_key card := card]> cards)
      end
  | _ => Raise (ValueError (RATE_CARD_FILE ++ " rate card entries must be mappings"))
  end.

Definition add_image_card (cards : gmap (string * string * string * string) ImageRateCard) (item : pyval)
    : result pyexc (gmap (string * string * string * string) ImageRateCard) :=
  match item with
  | PDict fields =>
      let* card := image_card_of_item fields in
      match cards !! image_card_key card with
      | Some _ => Raise (ValueError ("duplicate gateway image rate card: " ++ image_provider card ++ "/"
                                     ++ image_model card ++ "/" ++ image_card_size card ++ "/"
                                     ++ image_card_quality card))
      | None => Ok (<[image_card_key card := card]> cards)
      end
  | _ => Raise (ValueError (RATE_CARD_FILE ++ " image rate card entries must be mappings"))
  end.

(** The loop over the entries of the file. *)
Fixpoint load_items {M : Type} (add : M -> pyval -> result pyexc M) (cards : M) (items : list pyval)
    : result pyexc M :=
  match items with
  | [] => Ok cards
  | item :: rest => let* cards' := add cards item in load_items add cards' rest
  end.

Definition _load_rate_cards : result pyexc (gmap (string * string) RateCard) :=
  let refused := Raise (ValueError (RATE_CARD_FILE ++ " must contain a rate_cards list")) in
  match raw_cards with
  | PDict d => match item_get d "rate_cards" with PList items => load_items add_card ∅ items | _ => refused end
  | _ => refused
  end.

Definition _load_image_rate_cards : result pyexc (gmap (string * string * string * string) ImageRateCard) :=
  match raw_cards with
  | PDict d =>
      match default (PList []) (assoc_value "image_rate_cards" d) with
      | PList items => load_items add_image_card ∅ items
      | _ => Raise (ValueError (RATE_CARD_FILE ++ " image_rate_cards must be a list"))
      end
  | _ => Raise (ValueError (RATE_CARD_FILE ++ " must contain a mapping"))
  end.

Definition rate_card_for (provider model : string) : result pyexc (option RateCard) :=
  let* cards := _load_rate_cards in
  Ok (cards !! (py_lower (py_strip provider), py_strip model)).

Definition _image_rate_card_for (provider model : string) (size quality : option string)
    : result pyexc (option ImageRateCard) :=
  match size, quality with
  | Some size, Some quality =>
      let* cards := _load_image_rate_cards in
      Ok (cards !! (py_lower (py_strip provider), py_strip model, size, quality))
  | _, _ => Ok None
  end.
End RateCardFile.

(** ** Usage reported by the providers *)

Definition _cache_status (prompt_tokens cached_tokens : Z) (cache_requested cache_field_reported : bool)
    : CacheStatus :=
  if 0 <? cached_tokens then
    if (0 <? prompt_tokens) && (prompt_tokens <=? cached_tokens) then HIT else PARTIAL_HIT
  else if cache_requested then MISS
  else if cache_field_reported then NO_CACHE_READ_OBSERVED
  else CACHE_NOT_REPORTED.

(** [n or m] on integers. *)
Definition int_or (n m : Z) : Z := if n =? 0 then m else n.

(** The fields of a value that is a mapping, [None] otherwise. *)
Definition as_mapping (v : pyval) : option mapping :=
  match v with PDict d => Some d | _ => None end.

(** A count inside a nested mapping, 0 without one. *)
Definition nested_count (details : pyval) (key : string) : Z :=
  match as_mapping details with
  | Some d => _nonnegative_int (item_get d key)
  | None => 0
  end.

Definition _openai_usage (raw : mapping) (cache_requested : bool) : ProviderUsage :=
  let prompt := _nonnegative_int (get_either raw "prompt_tokens" "input_tokens") in
  let output := _nonnegative_int (get_either raw "completion_tokens" "output_tokens") in
  let details := get_either raw "prompt_tokens_details" "input_tokens_details" in
  let cached := Z.min prompt (nested_count details "cached_tokens") in
  let cache_write := nested_count details "cache_write_tokens" in
  let completion_details := get_either raw "completion_tokens_details" "output_tokens_details" in
  {| prompt_tokens := prompt; cached_input_tokens := cached;
     uncached_input_tokens := Z.max (prompt - cached - cache_write) 0;
     output_tokens := output; reasoning_tokens := nested_count completion_details "reasoning_tokens";
     output_tokens_include_reasoning := true; tool_use_prompt_tokens := 0;
     cache_write_tokens := cache_write;
     cache_write_ttl := if cache_write =? 0 then None else Some "30m";
     total_tokens := int_or (_nonnegative_int (item_get raw "total_tokens")) (prompt + output);
     cache_status := _cache_status prompt cached cache_requested
       (match as_mapping details with Some d => has_key d "cached_tokens" | None => false end);
     unit_type := "tokens"; image_count := 0; image_size := None; image_quality := None |}.

(** Metadata without usage. *)
Definition metadata_of (usage : option ProviderUsage) (response : mapping) (id_key model_key : string)
    (traffic : option string) : ProviderResponseMetadata :=
  {| usage := usage; provider_response_id := _string_or_none (item_get response id_key);
     actual_model_version := _string_or_none (item_get response model_key); traffic_type := traffic |}.

Definition openai_usage_from_response (response : mapping) (cache_requested : bool) : ProviderResponseMetadata :=
  let service_tier := _string_or_none (item_get response "service_tier") in
  match as_mapping (item_get response "usage") with
  | None =>
      {| usage := None; provider_response_id := _string_or_none (item_get response "id");
         actual_model_version := None; traffic_type := service_tier |}
  | Some raw =>
      if negb (_has_any_field raw ["prompt_tokens"; "input_tokens"; "completion_tokens"; "output_tokens";
                                   "total_tokens"])
      then metadata_of None response "id" "model" service_tier
      else metadata_of (Some (_openai_usage raw cache_requested)) response "id" "model" service_tier
  end.

Definition openai_usage_from_sse_payload (payload : mapping) (cache_requested : bool)
    : option ProviderResponseMetadata :=
  match as_mapping (item_get payload "usage") with
  | None => None
  | Some _ => Some (openai_usage_from_response payload cache_requested)
  end.

(** The usage of a Vertex response. *)
Definition vertex_usage (raw : mapping) : ProviderUsage :=
  let prompt := _nonnegative_int (item_get raw "promptTokenCount") in
  let cached := Z.min prompt (_nonnegative_int (item_get raw "cachedContentTokenCount")) in
  let candidates := _nonnegative_int (item_get raw "candidatesTokenCount") in
  let thoughts := _nonnegative_int (item_get raw "thoughtsTokenCount") in
  let tool_use := _nonnegative_int (item_get raw "toolUsePromptTokenCount") in
  let total := _nonnegative_int (item_get raw "totalTokenCount") in
  {| prompt_tokens := prompt; cached_input_tokens := cached;
     uncached_input_tokens := Z.max (prompt - cached) 0;
     output_tokens := candidates; reasoning_tokens := thoughts;
     output_tokens_include_reasoning := false; tool_use_prompt_tokens := tool_use;
     cache_write_tokens := 0; cache_write_ttl := None;
     total_tokens := if total =? 0 then prompt + candidates + thoughts else total;
     cache_status := _cache_status prompt cached false (has_key raw "cachedContentTokenCount");
     unit_type := "tokens"; image_count := 0; image_size := None; image_quality := None |}.

Definition vertex_usage_from_response (response : mapping) : ProviderResponseMetadata :=
  let metadata usage :=
    metadata_of usage response "responseId" "modelVersion" (_string_or_none (item_get response "trafficType")) in
  match as_mapping (item_get response "usageMetadata") with
  | None => metadata None
  | Some raw =>
      if negb (_has_any_field raw ["promptTokenCount"; "cachedContentTokenCount"; "candidatesTokenCount";
                                   "thoughtsTokenCount"; "toolUsePromptTokenCount"; "totalTokenCount"])
      then metadata None
      else metadata (Some (vertex_usage raw))
  end.

(** The usage of an Anthropic response. *)
Definition anthropic_usage (raw : mapping) (cache_requested : bool) (ttl : option string) : ProviderUsage :=
  let uncached := _nonnegative_int (item_get raw "input_tokens") in
  let cached := _nonnegative_int (item_get raw "cache_read_input_tokens") in
  let cache_write := _nonnegative_int (item_get raw "cache_creation_input_tokens") in
  let output := _nonnegative_int (item_get raw "output_tokens") in
  {| prompt_tokens := uncached + cached; cached_input_tokens := cached; uncached_input_tokens := uncached;
     output_tokens := output; reasoning_tokens := 0; output_tokens_include_reasoning := false;
     tool_use_prompt_tokens := 0; cache_write_tokens := cache_write;
     cache_write_ttl := if cache_write =? 0 then None else ttl;
     total_tokens := uncached + cached + output;
     cache_status := _cache_status (uncached + cached) cached cache_requested
       (has_key raw "cache_read_input_tokens");
     unit_type := "tokens"; image_count := 0; image_size := None; image_quality := None |}.

Definition anthropic_usage_from_response (response : mapping) (cache_requested : bool)
    (ttl : option string) : ProviderResponseMetadata :=
  match as_mapping (item_get response "usage") with
  | None => metadata_of None response "id" "model" None
  | Some raw =>
      if negb (_has_any_field raw ["input_tokens"; "cache_read_input_tokens"; "cache_creation_input_tokens";
                                   "output_tokens"])
      then metadata_of None response "id" "model" None
      else metadata_of (Some (anthropic_usage raw cache_requested ttl)) response "id" "model" None
  end.

Definition image_usage (count : Z) (size quality : pyval) : ProviderUsage :=
  {| prompt_tokens := 0; cached_input_tokens := 0; uncached_input_tokens := 0; output_tokens := 0;
     reasoning_tokens := 0; output_tokens_include_reasoning := false; tool_use_prompt_tokens := 0;
     cache_write_tokens := 0; cache_write_ttl := None; total_tokens := 0;
     cache_status := NOT_APPLICABLE; unit_type := "images"; image_count := Z.max count 0;
     image_size := _string_or_none size; image_quality := _string_or_none quality |}.

(** ** Requests that ask for caching *)

Definition _has_openai_cache_breakpoint (messages : pyval) : bool :=
  let marked part :=
    match as_mapping part with
    | Some p => py_eqb (item_get p "prompt_cache_breakpoint") (PDict [("mode", PStr "explicit")])
    | None => false
    end in
  let in_message message :=
    match as_mapping message with
    | Some m => match item_get m "content" with PList parts => existsb marked parts | _ => false end
    | None => false
    end in
  match messages with
  | PList l => existsb in_message l
  | _ => false
  end.

Definition cache_requested_for_openai_request (request : mapping) : bool :=
  match item_get request "prompt_cache_key" with
  | PStr key =>
      if String.eqb (py_strip key) "" then false
      else if py_eqb (item_get request "prompt_cache_options")
                (PDict [("mode", PStr "explicit"); ("ttl", PStr "30m")])
      then _has_openai_cache_breakpoint (item_get request "messages")
      else true
  | _ => false
  end.

Fixpoint _contains_cache_control (v : pyval) : bool :=
  match v with
  | PDict d => has_key d "cache_control" || existsb (fun item => _contains_cache_control item.2) d
  | PList l => existsb _contains_cache_control l
  | _ => false
  end.

Definition cache_requested_for_anthropic_request (request : mapping) : bool :=
  _contains_cache_control (PDict request).

(** [ttl if ttl in {'5m', '1h'} else '5m']: an unhashable [ttl] raises. *)
Definition cache_ttl_of (cache_control : mapping) : result pyexc string :=
  match item_get cache_control "ttl" with
  | PList _ | PDict _ => Raise (TypeError "unhashable type")
  | ttl => Ok (if is_str ttl "1h" then "1h" else "5m")
  end.

(** The set of the time-to-lives, as the list of the ones collected. *)
Fixpoint _cache_control_ttls (v : pyval) : result pyexc (list string) :=
  let collect_all {A : Type} (collect : A -> result pyexc (list string)) :=
    fix go (l : list A) : result pyexc (list string) :=
      match l with
      | [] => Ok []
      | x :: r => let* ttls := collect x in let* more := go r in Ok (ttls ++ more)
      end in
  match v with
  | PDict d =>
      let* own :=
        match as_mapping (item_get d "cache_control") with
        | Some cache_control => let* ttl := cache_ttl_of cache_control in Ok [ttl]
        | None => Ok []
        end in
      let* below := collect_all (fun item => _cache_control_ttls item.2) d in
      Ok (own ++ below)
  | PList l => collect_all _cache_control_ttls l
  | _ => Ok []
  end.

Definition cache_write_ttl_for_anthropic_request (request : mapping) : result pyexc (option string) :=
  let* ttls := _cache_control_ttls (PDict request) in
  match remove_dups ttls with
  | [] => Ok None
  | [ttl] => Ok (Some ttl)
  | _ => Ok (Some "mixed")
  end.

(** ** The cost of an attempt *)

Definition MICRO_USD_PER_USD : Z := 1000000.
Definition TOKENS_PER_MILLION : Z := 1000000.

(** Division by a million, rounded half away from zero. *)
Definition rounded_micro_usd (numerator : Z) : Z :=
  if 0 <=? numerator then (numerator + TOKENS_PER_MILLION / 2) / TOKENS_PER_MILLION
  else - ((- numerator + TOKENS_PER_MILLION / 2) / TOKENS_PER_MILLION).

Definition _half_toward_zero (value : Z) : Z :=
  if 0 <=? value then value / 2 else - ((- value) / 2).

(** The tier of a request is decided by its whole input context. *)
Definition context_tokens (u : ProviderUsage) : Z :=
  uncached_input_tokens u + cached_input_tokens u + cache_write_tokens u.

Definition write_rate (rates : RateCardTier) (ttl : option string) : option Z :=
  if bool_decide (ttl = Some "1h") then cache_write_1h_micro_usd_per_million rates
  else cache_write_micro_usd_per_million rates.

(** The bill of an attempt, per million tokens. *)
Definition bill_numerator (u : ProviderUsage) (rates : RateCardTier) (cache_write_rate : option Z) : Z :=
  uncached_input_tokens u * input_micro_usd_per_million rates
  + cached_input_tokens u * cached_input_micro_usd_per_million rates
  + billable_output_tokens u * output_micro_usd_per_million rates
  + match cache_write_rate with Some rate => cache_write_tokens u * rate | None => 0 end.

(** What caching saved, and what cache writes cost on top.  The write rate is
    present whenever write tokens are. *)
Definition savings_numerator (u : ProviderUsage) (rates : RateCardTier) (cache_write_rate : option Z) : Z :=
  cached_input_tokens u * (input_micro_usd_per_million rates - cached_input_micro_usd_per_million rates)
  + (if cache_write_tokens u =? 0 then 0
     else match cache_write_rate with
          | Some rate => cache_write_tokens u * (input_micro_usd_per_million rates - rate)
          | None => 0
          end).

Record cost_estimate : Type := {
  cost_status : CostStatus;
  estimated_cost : option Z;
  cache_savings : option Z;
  cost_rate_card_id : option string;
  cost_basis : string;
}.

Definition no_cost (status : CostStatus) (card : option string) (basis : string) : cost_estimate :=
  {| cost_status := status; estimated_cost := None; cache_savings := None; cost_rate_card_id := card;
     cost_basis := basis |}.

Definition is_auto (o : option string) : bool := bool_decide (o = Some "auto").

Definition estimate_images (card : option ImageRateCard) (u : ProviderUsage) : cost_estimate :=
  match card with
  | None => no_cost UNPRICED None "image_rate_card_missing"
  | Some card =>
      {| cost_status := ESTIMATED; estimated_cost := Some (image_count u * micro_usd_per_image card);
         cache_savings := None; cost_rate_card_id := Some (image_card_id card);
         cost_basis := if is_auto (image_size u) || is_auto (image_quality u)
                       then "per_image_generation_auto_estimate_excludes_prompt_input_tokens"
                       else "per_image_generation_rate_excludes_prompt_input_tokens" |}
  end.

Definition flex_traffic (provider : string) (traffic_type : option string) : bool :=
  String.eqb (py_lower (py_strip provider)) "openai" && bool_decide (traffic_type = Some "flex").

Definition estimate_tokens (provider : string) (card : option RateCard) (u : ProviderUsage)
    (traffic_type : option string) : cost_estimate :=
  match card with
  | None => no_cost UNPRICED None "rate_card_missing"
  | Some card =>
      let rates := effective_rates card (context_tokens u) in
      let rate := write_rate rates (cache_write_ttl u) in
      if negb (cache_write_tokens u =? 0)
         && (bool_decide (rate = None) || bool_decide (cache_write_ttl u = Some "mixed"))
      then no_cost UNPRICED (Some (rate_card_id card)) "cache_write_rate_missing_or_mixed_ttl"
      else
        let bill := bill_numerator u rates rate in
        let saved := savings_numerator u rates rate in
        let estimated bill saved basis :=
          {| cost_status := ESTIMATED; estimated_cost := Some (rounded_micro_usd bill);
             cache_savings := Some (rounded_micro_usd saved);
             cost_rate_card_id := Some (rate_card_id card); cost_basis := basis |} in
        if flex_traffic provider traffic_type
        then estimated (bill / 2) (_half_toward_zero saved) "flex_batch_token_rates_excludes_cache_storage"
        else estimated bill saved "marginal_token_rates_excludes_cache_storage"
  end.

(** ** Attempts and their ledger events *)

Record ProviderAttempt : Type := {
  ordinal : Z;
  attempt_provider : string;
  configured_model : string;
  route_artifact_id : option string;
  fallback_reason : option string;
  retry_ordinal : Z;
  outcome : string;
  error_class : string;
  attempt_usage : option ProviderUsage;
  usage_status : UsageStatus;
  attempt_response_id : option string;
  attempt_model_version : option string;
  attempt_traffic_type : option string;
}.

(** The attempts of one logical invocation, oldest first. *)
Abbreviation AttemptTrace := (list ProviderAttempt).

Definition no_metadata : ProviderResponseMetadata :=
  {| usage := None; provider_response_id := None; actual_model_version := None; traffic_type := None |}.

Definition confirmed_when_reported (m : ProviderResponseMetadata) : UsageStatus :=
  match usage m with Some _ => CONFIRMED | None => USAGE_NOT_REPORTED end.

Definition record_attempt (trace : AttemptTrace) (provider configured_model : string)
    (route_artifact_id fallback_reason : option string) (retry_ordinal : Z) (outcome error_class : string)
    (metadata : option ProviderResponseMetadata) (usage_status : option UsageStatus)
    : AttemptTrace * ProviderAttempt :=
  let response_metadata := default no_metadata metadata in
  let attempt :=
    {| ordinal := Z.of_nat (length trace) + 1; attempt_provider := provider;
       configured_model := configured_model; route_artifact_id := route_artifact_id;
       fallback_reason := fallback_reason; retry_ordinal := retry_ordinal; outcome := outcome;
       error_class := error_class; attempt_usage := usage response_metadata;
       usage_status := default (confirmed_when_reported response_metadata) usage_status;
       attempt_response_id := provider_response_id response_metadata;
       attempt_model_version := actual_model_version response_metadata;
       attempt_traffic_type := traffic_type response_metadata |} in
  (trace ++ [attempt], attempt).

Record AccountingContext : Type := {
  invocation_id : string;
  request_id : string;
  caller : string;
  user_uid : option string;
  feature : option string;
  api_surface : string;
  payer : string;
  app_platform : option string;
  jit_run_id : option string;
  jit_contract_version : option string;
}.

(** A cost the caller computed itself. *)
Record PricedUsage : Type := {
  micro_usd : Z;
  priced_rate_card_id : string;
  priced_cost_basis : string;
}.

(** The fields copied from the context, the attempt and its usage keep their
    places as one field each; [as_dict] prints them one by one.  [occurred_at]
    is the instant whose ISO text the code stores, and [date] its day. *)
Record AccountingEvent : Type := {
  attempt_id : string;
  event_context : AccountingContext;
  event_attempt : ProviderAttempt;
  event_usage : ProviderUsage;
  occurred_at : Z;
  date : Z;
  event_cost_status : CostStatus;
  estimated_cost_micro_usd : option Z;
  estimated_cache_savings_micro_usd : option Z;
  event_rate_card_id : option string;
  event_cost_basis : string;
}.

Definition microseconds_per_day : Z := 86400 * 1000000.

Section Pricing.
Context (RATE_CARD_FILE : string) (raw_cards : pyval).

Definition _estimate_cost (payer provider model : string) (u : option ProviderUsage)
    (usage_status : UsageStatus) (traffic_type : option string) : result pyexc cost_estimate :=
  if String.eqb payer "byok" then
    Ok {| cost_status := NOT_OMI_COST; estimated_cost := Some 0; cache_savings := Some 0;
          cost_rate_card_id := None; cost_basis := "byok_not_omi_cogs" |}
  else if bool_decide (usage_status = USAGE_INDETERMINATE) then
    Ok (no_cost INDETERMINATE None "usage_indeterminate")
  else
    match u with
    | None => Ok (no_cost UNPRICED None "provider_did_not_report_usage")
    | Some u =>
        if String.eqb (unit_type u) "images" then
          let* card := _image_rate_card_for RATE_CARD_FILE raw_cards provider model (image_size u) (image_quality u) in
          Ok (estimate_images card u)
        else if negb (String.eqb (unit_type u) "tokens") then
          Ok (no_cost UNPRICED None "non_token_unit_rate_missing")
        else
          let* card := rate_card_for RATE_CARD_FILE raw_cards provider model in
          Ok (estimate_tokens provider card u traffic_type)
    end.

Definition estimated_provider_cost_micro_usd (payer provider model : string)
    (metadata : ProviderResponseMetadata) : result pyexc (CostStatus * option Z) :=
  let* estimate := _estimate_cost payer provider model (usage metadata)
                     (confirmed_when_reported metadata) (traffic_type metadata) in
  Ok (cost_status estimate, estimated_cost estimate).

(** A caller's price replaces the estimate of an attempt that is Omi's cost. *)
Definition apply_priced (priced : option PricedUsage) (e : cost_estimate) : cost_estimate :=
  match priced, cost_status e with
  | Some p, (UNPRICED | ESTIMATED) =>
      {| cost_status := ESTIMATED; estimated_cost := Some (Z.max (micro_usd p) 0); cache_savings := None;
         cost_rate_card_id := Some (priced_rate_card_id p); cost_basis := priced_cost_basis p |}
  | _, _ => e
  end.

Definition build_accounting_event (context : AccountingContext) (attempt : ProviderAttempt)
    (priced : option PricedUsage) (now : Z) : result pyexc AccountingEvent :=
  let* estimate := _estimate_cost (payer context) (attempt_provider attempt) (configured_model attempt)
                     (attempt_usage attempt) (usage_status attempt) (attempt_traffic_type attempt) in
  let e := apply_priced priced estimate in
  Ok {| attempt_id := invocation_id context ++ ":" ++ Z_to_string (ordinal attempt);
        event_context := context; event_attempt := attempt;
        event_usage := default default_usage (attempt_usage attempt);
        occurred_at := now; date := now / microseconds_per_day;
        event_cost_status := cost_status e; estimated_cost_micro_usd := estimated_cost e;
        estimated_cache_savings_micro_usd := cache_savings e; event_rate_card_id := cost_rate_card_id e;
        event_cost_basis := cost_basis e |}.
End Pricing.

(** ** The aggregate and the receipt of a budgeted run *)

Definition event_run_id (e : AccountingEvent) : option string := jit_run_id (event_context e).

(** A run id that is present and not empty. *)
Definition has_run_id (e : AccountingEvent) : bool :=
  match event_run_id e with Some id => negb (String.eqb id "") | None => false end.

Definition event_cost_known (e : AccountingEvent) : bool :=
  bool_decide (event_cost_status e = ESTIMATED) && bool_decide (is_Some (estimated_cost_micro_usd e)).

Record AccountingAggregate : Type := {
  aggregate_run_id : string;
  attempt_count : Z;
  normalized_uncached_input_tokens : Z;
  aggregate_cached_input_tokens : Z;
  aggregate_cache_write_tokens : Z;
  aggregate_output_tokens : Z;
  aggregate_reasoning_tokens : Z;
  aggregate_cost_micro_usd : option Z;
  aggregate_cost_status : CostStatus;
}.

Definition cost_is_known (a : AccountingAggregate) : bool :=
  bool_decide (is_Some (aggregate_cost_micro_usd a)) && bool_decide (aggregate_cost_status a = ESTIMATED).

Definition aggregate_accounting_events (events : list AccountingEvent)
    : result pyexc (option AccountingAggregate) :=
  let jit_events := List.filter has_run_id events in
  let run_ids := remove_dups (omap event_run_id jit_events) in
  let total (f : ProviderUsage -> Z) := sum_over (fun e => f (event_usage e)) jit_events in
  let known := forallb event_cost_known jit_events in
  match run_ids with
  | [] => Ok None
  | [run] =>
      Ok (Some {| aggregate_run_id := run; attempt_count := Z.of_nat (length jit_events);
                  normalized_uncached_input_tokens := total uncached_input_tokens;
                  aggregate_cached_input_tokens := total cached_input_tokens;
                  aggregate_cache_write_tokens := total cache_write_tokens;
                  aggregate_output_tokens := total output_tokens;
                  aggregate_reasoning_tokens := total reasoning_tokens;
                  aggregate_cost_micro_usd :=
                    if known then Some (sum_over (fun e => default 0 (estimated_cost_micro_usd e)) jit_events)
                    else None;
                  aggregate_cost_status := if known then ESTIMATED else INDETERMINATE |})
  | _ => Raise (ValueError "cannot aggregate multiple JIT run IDs")
  end.

Definition JIT_GATEWAY_RECEIPT_SCHEMA : string := "jit-gateway-receipt-v1".

Definition opt_text (o : option string) : pyval := match o with Some s => PStr s | None => PNone end.
Definition opt_number (o : option Z) : pyval := match o with Some z => PInt z | None => PNone end.

Record JITGatewayReceipt : Type := {
  receipt_run_id : string;
  receipt_contract_version : string;
  receipt_attempts : list mapping;
  receipt_aggregate : AccountingAggregate;
}.

(** The receipt entry of one attempt. *)
Definition receipt_entry (e : AccountingEvent) : mapping :=
  let a := event_attempt e in
  let u := event_usage e in
  [ ("attempt_id", PStr (attempt_id e));
    ("provider", PStr (attempt_provider a));
    ("configured_model", PStr (configured_model a));
    ("actual_model_version", opt_text (attempt_model_version a));
    ("provider_response_id", opt_text (attempt_response_id a));
    ("rate_card_id", opt_text (event_rate_card_id e));
    ("cost_basis", PStr (event_cost_basis e));
    ("usage_status", PStr (usage_status_value (usage_status a)));
    ("cost_status", PStr (cost_status_value (event_cost_status e)));
    ("normalized_uncached_input_tokens", PInt (uncached_input_tokens u));
    ("cached_input_tokens", PInt (cached_input_tokens u));
    ("cache_write_tokens", PInt (cache_write_tokens u));
    ("output_tokens", PInt (output_tokens u));
    ("reasoning_tokens", PInt (reasoning_tokens u));
    ("estimated_cost_micro_usd", opt_number (estimated_cost_micro_usd e)) ].

(** [JITGatewayReceipt.as_dict] *)
Definition receipt_as_dict (r : JITGatewayReceipt) : mapping :=
  let a := receipt_aggregate r in
  [ ("schema_version", PStr JIT_GATEWAY_RECEIPT_SCHEMA);
    ("run_id", PStr (receipt_run_id r));
    ("contract_version", PStr (receipt_contract_version r));
    ("attempts", PList (map PDict (receipt_attempts r)));
    ("aggregate", PDict
       [ ("attempt_count", PInt (attempt_count a));
         ("normalized_uncached_input_tokens", PInt (normalized_uncached_input_tokens a));
         ("cached_input_tokens", PInt (aggregate_cached_input_tokens a));
         ("cache_write_tokens", PInt (aggregate_cache_write_tokens a));
         ("output_tokens", PInt (aggregate_output_tokens a));
         ("reasoning_tokens", PInt (aggregate_reasoning_tokens a));
         ("estimated_cost_micro_usd", opt_number (aggregate_cost_micro_usd a));
         ("cost_status", PStr (cost_status_value (aggregate_cost_status a))) ]) ].

Section Receipt.
Context (RATE_CARD_FILE : string) (raw_cards : pyval).

(** The events of a trace, each stamped with its own reading of the clock. *)
Fixpoint events_of_trace (context : AccountingContext) (trace : AttemptTrace) (clock : nat -> Z)
    : result pyexc (list AccountingEvent) :=
  match trace with
  | [] => Ok []
  | attempt :: rest =>
      let* event := build_accounting_event RATE_CARD_FILE raw_cards context attempt None (clock 0%nat) in
      let* events := events_of_trace context rest (fun n => clock (S n)) in
      Ok (event :: events)
  end.

Definition nonempty (o : option string) : option string :=
  match o with Some s => if String.eqb s "" then None else Some s | None => None end.

Definition jit_gateway_receipt_for_trace (context : AccountingContext) (trace : AttemptTrace)
    (clock : nat -> Z) : result pyexc (option JITGatewayReceipt) :=
  match nonempty (jit_run_id context), nonempty (jit_contract_version context), trace with
  | Some run, Some version, _ :: _ =>
      let* events := events_of_trace context trace clock in
      let* aggregate := aggregate_accounting_events events in
      match aggregate with
      | None => Ok None
      | Some aggregate =>
          Ok (Some {| receipt_run_id := run; receipt_contract_version := version;
                      receipt_attempts := map receipt_entry events; receipt_aggregate := aggregate |})
      end
  | _, _, _ => Ok None
  end.
End Receipt.
