(* ===== verification/AccountingOps.v ===== *)
(** What the accounting of the gateway guarantees: rounding, rate cards that can
    be looked up and are not negative, and savings that balance the bill. *)
From S2P Require Export Accounting Text.

(** ** Rounding *)

Lemma rounded_error n : Z.abs (TOKENS_PER_MILLION * rounded_micro_usd n - n) <= 500000.
Proof.
  unfold rounded_micro_usd, TOKENS_PER_MILLION. change (1000000 / 2) with 500000.
  destruct (Z.leb_spec 0 n); Z.to_euclidean_division_equations; lia.
Qed.

Lemma rounded_mono a b : a <= b -> rounded_micro_usd a <= rounded_micro_usd b.
Proof.
  intros Hab. unfold rounded_micro_usd, TOKENS_PER_MILLION. change (1000000 / 2) with 500000.
  destruct (Z.leb_spec 0 a), (Z.leb_spec 0 b); Z.to_euclidean_division_equations; lia.
Qed.

Lemma rounded_opp n : rounded_micro_usd (- n) = - rounded_micro_usd n.
Proof.
  unfold rounded_micro_usd, TOKENS_PER_MILLION. change (1000000 / 2) with 500000.
  rewrite Z.opp_involutive. destruct (Z.leb_spec 0 (- n)), (Z.leb_spec 0 n); try lia.
  by replace n with 0 by lia.
Qed.

Lemma rounded_nonneg n : 0 <= n -> 0 <= rounded_micro_usd n.
Proof. intros H. apply (rounded_mono 0) in H. exact H. Qed.

Lemma rounded_grows a b : a + TOKENS_PER_MILLION <= b -> rounded_micro_usd a < rounded_micro_usd b.
Proof.
  intros Hab. unfold rounded_micro_usd, TOKENS_PER_MILLION in *. change (1000000 / 2) with 500000.
  destruct (Z.leb_spec 0 a), (Z.leb_spec 0 b); Z.to_euclidean_division_equations; lia.
Qed.

Lemma half_error n : Z.abs (2 * _half_toward_zero n - n) <= 1.
Proof. unfold _half_toward_zero. destruct (Z.leb_spec 0 n); Z.to_euclidean_division_equations; lia. Qed.

(** Two rounded amounts and their rounded sum, when the amounts add up to it
    within one unit. *)
Lemma rounded_sum a b c :
  Z.abs (a + b - c) <= 2 -> Z.abs (rounded_micro_usd a + rounded_micro_usd b - rounded_micro_usd c) <= 1.
Proof.
  intros H. pose proof (rounded_error a). pose proof (rounded_error b). pose proof (rounded_error c).
  unfold TOKENS_PER_MILLION in *. lia.
Qed.

(** ** Loaded rate cards *)

(** No rate of the card is negative. *)
Record card_ok (c : RateCard) : Prop := {
  ok_input : 0 <= card_input c;
  ok_cached : 0 <= card_cached_input c;
  ok_output : 0 <= card_output c;
  ok_write : forall r, card_cache_write c = Some r -> 0 <= r;
  ok_write_1h : forall r, card_cache_write_1h c = Some r -> 0 <= r;
  ok_long_input : forall r, long_context_input c = Some r -> 0 <= r;
  ok_long_cached : forall r, long_context_cached_input c = Some r -> 0 <= r;
  ok_long_output : forall r, long_context_output c = Some r -> 0 <= r;
  ok_long_write : forall r, long_context_cache_write c = Some r -> 0 <= r;
  ok_long_write_1h : forall r, long_context_cache_write_1h c = Some r -> 0 <= r;
}.

Record tier_ok (t : RateCardTier) : Prop := {
  tier_input : 0 <= input_micro_usd_per_million t;
  tier_cached : 0 <= cached_input_micro_usd_per_million t;
  tier_output : 0 <= output_micro_usd_per_million t;
  tier_write : forall r, cache_write_micro_usd_per_million t = Some r -> 0 <= r;
  tier_write_1h : forall r, cache_write_1h_micro_usd_per_million t = Some r -> 0 <= r;
}.

Lemma nonnegative_int_nonneg v : 0 <= _nonnegative_int v.
Proof. destruct v; simpl; lia. Qed.

Lemma optional_nonneg item key r : _optional_nonnegative_int item key = Some r -> 0 <= r.
Proof.
  unfold _optional_nonnegative_int. destruct (item_get item key) eqn:E; intros [=]; subst;
    rewrite <- ?E; first [apply nonnegative_int_nonneg | simpl; lia].
Qed.

#[export] Hint Resolve nonnegative_int_nonneg optional_nonneg : remi.

Lemma card_of_item_ok item c : card_of_item item = Ok c -> card_ok c.
Proof.
  unfold card_of_item. intros H. inv_bind. injection H as <-.
  split; simpl; eauto with remi.
Qed.

Lemma default_nonneg (o : option Z) : (forall r, o = Some r -> 0 <= r) -> 0 <= default 0 o.
Proof. destruct o; simpl; [eauto|lia]. Qed.

#[export] Hint Resolve default_nonneg card_of_item_ok : remi.

Lemma effective_rates_ok c n : card_ok c -> tier_ok (effective_rates c n).
Proof.
  intros [].
  assert (tier_ok (short_tier c)) by (split; simpl; eauto).
  unfold effective_rates. destruct (long_context_threshold_tokens c), (long_context_input c) eqn:E; try done.
  destruct (_ <? _); [|done]. split; simpl; eauto with remi.
Qed.

(** A property of every loaded card, established entry by entry. *)
Lemma load_items_ind {M : Type} (add : M -> pyval -> result pyexc M) (P : M -> Prop) items m0 m :
  (forall m item m', P m -> add m item = Ok m' -> P m') ->
  P m0 -> load_items add m0 items = Ok m -> P m.
Proof.
  intros Hadd. revert m0. induction items as [|item items IH]; intros m0 H0 H; simpl in H.
  - by injection H as <-.
  - apply rbind_ok in H as (m1 & H1 & H). eauto.
Qed.

Section Cards.
Context (RATE_CARD_FILE : string) (raw_cards : pyval).

(** Every card is stored under its own key and has no negative rate. *)
Definition cards_ok (cards : gmap (string * string) RateCard) : Prop :=
  map_Forall (fun k c => k = card_key c /\ card_ok c) cards.

Lemma loaded_cards_ok cards : _load_rate_cards RATE_CARD_FILE raw_cards = Ok cards -> cards_ok cards.
Proof.
  unfold _load_rate_cards. destruct raw_cards; try discriminate.
  destruct (item_get d "rate_cards"); try discriminate.
  apply load_items_ind; [|apply map_Forall_empty].
  intros m item m' Hm. destruct item; try discriminate. cbn [add_card]. intros H.
  apply rbind_ok in H as (card & Hcard & H). destruct (m !! card_key card); [discriminate|].
  injection H as <-. apply map_Forall_insert_2; [|done]. eauto with remi.
Qed.

Lemma rate_card_for_ok p m c : rate_card_for RATE_CARD_FILE raw_cards p m = Ok (Some c) -> card_ok c.
Proof.
  unfold rate_card_for. intros H. apply rbind_ok in H as (cards & Hl & H). injection H as H.
  by apply loaded_cards_ok in Hl as Hok; apply (Hok _ _ H).
Qed.
End Cards.

#[export] Hint Resolve effective_rates_ok rate_card_for_ok : remi.

(** ** The bill and the savings *)

(** The bill had every input token been priced at the ordinary input rate. *)
Definition uncached_bill (u : ProviderUsage) (rates : RateCardTier) : Z :=
  context_tokens u * input_micro_usd_per_million rates
  + billable_output_tokens u * output_micro_usd_per_million rates.

Lemma bill_plus_savings u rates rate :
  cache_write_tokens u = 0 \/ is_Some rate ->
  bill_numerator u rates rate + savings_numerator u rates rate = uncached_bill u rates.
Proof.
  unfold bill_numerator, savings_numerator, uncached_bill, context_tokens. intros Hw.
  destruct (Z.eqb_spec (cache_write_tokens u) 0) as [->|Hne].
  - destruct rate; lia.
  - destruct Hw as [?|[r ->]]; [done|]. lia.
Qed.

(** The bill and the savings of Flex traffic are halved. *)
Definition traffic_share (flex : bool) (n : Z) : Z := if flex then n / 2 else n.

Lemma shares_add_up flex bill saved :
  Z.abs (traffic_share flex bill + (if flex then _half_toward_zero saved else saved)
         - traffic_share flex (bill + saved)) <= 2.
Proof.
  destruct flex; simpl; [|lia]. pose proof (half_error saved).
  Z.to_euclidean_division_equations; lia.
Qed.

(** A priced token usage, taken apart. *)
Lemma estimate_tokens_priced p card u traffic e :
  estimate_tokens p (Some card) u traffic = e -> cost_status e = ESTIMATED ->
  let rates := effective_rates card (context_tokens u) in
  let rate := write_rate rates (cache_write_ttl u) in
  let flex := flex_traffic p traffic in
  (cache_write_tokens u = 0 \/ is_Some rate) /\
  estimated_cost e = Some (rounded_micro_usd (traffic_share flex (bill_numerator u rates rate))) /\
  cache_savings e = Some (rounded_micro_usd
    (if flex then _half_toward_zero (savings_numerator u rates rate) else savings_numerator u rates rate)).
Proof.
  cbn zeta. unfold estimate_tokens. intros <-.
  set (rates := effective_rates _ _). set (rate := write_rate _ _).
  destruct (Z.eqb_spec (cache_write_tokens u) 0) as [H0|Hne]; cbn [negb andb].
  - destruct (flex_traffic p traffic); simpl; eauto.
  - destruct rate as [r|]; [|discriminate]. rewrite bool_decide_false by done. cbn [orb].
    destruct (bool_decide (cache_write_ttl u = _)); [discriminate|].
    destruct (flex_traffic p traffic); simpl; eauto.
Qed.

(** How an estimate of token usage is reached. *)
Lemma estimate_cost_tokens file raw payer p m u st traffic e :
  _estimate_cost file raw payer p m (Some u) st traffic = Ok e ->
  cost_status e = ESTIMATED -> unit_type u = "tokens" ->
  exists card, rate_card_for file raw p m = Ok (Some card) /\
    estimate_tokens p (Some card) u traffic = e.
Proof.
  unfold _estimate_cost. intros H He Hu.
  destruct (String.eqb payer "byok"); [by injection H as <-|].
  destruct (bool_decide (st = USAGE_INDETERMINATE)); [by injection H as <-|].
  rewrite Hu in H. cbn [String.eqb Ascii.eqb Bool.eqb negb] in H.
  apply rbind_ok in H as (card & Hc & H). injection H as H. subst e.
  destruct card as [card|]; [|discriminate]. eauto.
Qed.

(** The cost of an attempt and the savings reported with it add up to what
    the same tokens would have cost with no caching, to within one micro-dollar
    of rounding: the savings count cache reads, the premium of cache writes,
    the long-context band and the Flex discount exactly as the bill does. *)
Theorem savings_balance_the_bill file raw payer p m u st traffic e :
  _estimate_cost file raw payer p m (Some u) st traffic = Ok e ->
  cost_status e = ESTIMATED -> unit_type u = "tokens" ->
  exists card cost savings,
    rate_card_for file raw p m = Ok (Some card) /\
    estimated_cost e = Some cost /\ cache_savings e = Some savings /\
    Z.abs (cost + savings
           - rounded_micro_usd (traffic_share (flex_traffic p traffic)
               (uncached_bill u (effective_rates card (context_tokens u))))) <= 1.
Proof.
  intros H He Hu. destruct (estimate_cost_tokens _ _ _ _ _ _ _ _ _ H He Hu) as (card & Hc & Ht).
  apply estimate_tokens_priced in Ht as (Hw & Hcost & Hsaved); [|done].
  eexists card, _, _. split_and!; [done|exact Hcost|exact Hsaved|].
  apply rounded_sum. rewrite <- (bill_plus_savings _ _ _ Hw). apply shares_add_up.
Qed.

(** ** A rate-card file *)

Definition sol_card : pyval :=
  PDict [ ("rate_card_id", PStr "openai.gpt-5.6-sol.2026-07-30"); ("provider", PStr "openai");
          ("model", PStr "gpt-5.6-sol");
          ("input_micro_usd_per_million", PInt 5000000);
          ("cached_input_micro_usd_per_million", PInt 500000);
          ("output_micro_usd_per_million", PInt 30000000);
          ("cache_write_micro_usd_per_million", PInt 6250000);
          ("long_context_threshold_tokens", PInt 272000);
          ("long_context_input_micro_usd_per_million", PInt 10000000);
          ("long_context_cached_input_micro_usd_per_million", PInt 1000000);
          ("long_context_output_micro_usd_per_million", PInt 45000000);
          ("long_context_cache_write_micro_usd_per_million", PInt 12500000) ].

Definition card_file : string := "cost_rate_cards.yaml".
Definition demo_cards : pyval := PDict [("rate_cards", PList [sol_card])].

(** A response that read 1000 tokens from the cache and wrote 2001. *)
Definition demo_response : mapping :=
  [ ("id", PStr "r1"); ("model", PStr "gpt-5.6-sol");
    ("usage", PDict [ ("prompt_tokens", PInt 4000); ("completion_tokens", PInt 100);
                      ("prompt_tokens_details",
                       PDict [("cached_tokens", PInt 1000); ("cache_write_tokens", PInt 2001)]) ]) ].

Definition demo_metadata : ProviderResponseMetadata := openai_usage_from_response demo_response true.
Definition demo_usage : ProviderUsage := default default_usage (usage demo_metadata).

Lemma savings_balance_the_bill_witness :
  exists e card cost savings,
    _estimate_cost card_file demo_cards "omi" "OpenAI " "gpt-5.6-sol" (Some demo_usage) CONFIRMED (Some "flex") = Ok e /\
    rate_card_for card_file demo_cards "OpenAI " "gpt-5.6-sol" = Ok (Some card) /\
    estimated_cost e = Some cost /\ cache_savings e = Some savings /\
    Z.abs (cost + savings
           - rounded_micro_usd (traffic_share (flex_traffic "OpenAI " (Some "flex"))
               (uncached_bill demo_usage (effective_rates card (context_tokens demo_usage))))) <= 1.
Proof.
  eexists.
  edestruct (savings_balance_the_bill card_file demo_cards "omi" "OpenAI " "gpt-5.6-sol" demo_usage CONFIRMED
               (Some "flex")) as (card & cost & savings & H).
  { vm_compute. reflexivity. }
  { reflexivity. }
  { reflexivity. }
  exists card, cost, savings. split; [vm_compute; reflexivity|exact H].
Defined.
