(* ===== verification/JitBudget.v ===== *)
(** The spend authority of budgeted gateway runs
    ([llm_gateway/gateway/jit_budget.py]) and the way the executor uses it for
    one provider attempt ([llm_gateway/gateway/executor.py]).

    One document per owner and run counts attempts and spend.  Gateway
    instances reserve an attempt before they call a provider and settle it
    after; each of the two is one transaction, a function from the document
    before it to its result and the document after it. *)
From S2P Require Export Accounting Sha256.

Definition MAX_ATTEMPTS : Z := 3.
Definition MAX_SPEND_MICRO_USD : Z := 50000.
Definition MAX_INPUT_TOKENS : Z := 32768.
Definition MAX_OUTPUT_TOKENS : Z := 2048.
Definition _KNOWN_STATUSES : list string := ["succeeded"; "failed"; "cancelled"; "released"].

(** The capability for settling one provider attempt. *)
Record JITAttemptReservation : Type := {
  owner_uid : string;
  run_id : string;
  contract_version : string;
  reservation_ordinal : Z;
  max_attempts : Z;
  reservation_token : string;
  reserved_micro_usd : Z;
}.

(** The documents by id. *)
Abbreviation budgets := (gmap string doc).

Definition _doc_id (owner_uid run_id : string) : string :=
  hex (sha256 (owner_uid ++ String Ascii.zero run_id)).

(** ** Arguments *)

Definition range_error (name : string) (low maximum : Z) : pyexc :=
  ValueError (name ++ " must be an integer in the range " ++ Z_to_string low ++ ".." ++ Z_to_string maximum).

Definition _positive_int (v : pyval) (name : string) (maximum : Z) : result pyexc Z :=
  match v with
  | PInt z => if (z <=? 0) || (maximum <? z) then Raise (range_error name 1 maximum) else Ok z
  | _ => Raise (range_error name 1 maximum)
  end.

Definition nonnegative_up_to (v : pyval) (name : string) (maximum : Z) : result pyexc Z :=
  match v with
  | PInt z => if (z <? 0) || (maximum <? z) then Raise (range_error name 0 maximum) else Ok z
  | _ => Raise (range_error name 0 maximum)
  end.

(** The token envelope a caller asks for. *)
Record envelope : Type := {
  input_tokens : Z;
  cached_tokens : Z;
  answer_tokens : Z;
  write_tokens : Z;
  cache_ttl : option string;
}.

Definition envelope_numerator (e : envelope) (rates : RateCardTier) (cache_write_rate : option Z) : Z :=
  input_tokens e * input_micro_usd_per_million rates
  + cached_tokens e * cached_input_micro_usd_per_million rates
  + answer_tokens e * output_micro_usd_per_million rates
  + match cache_write_rate with Some rate => write_tokens e * rate | None => 0 end.

Section Budget.
Context (RATE_CARD_FILE : string) (raw_cards : pyval).

Definition _worst_case_cost_micro_usd (provider model : string) (e : envelope)
    : result pyexc (Z * string) :=
  let* input := nonnegative_up_to (PInt (input_tokens e)) "input_tokens" MAX_INPUT_TOKENS in
  let* cached := nonnegative_up_to (PInt (cached_tokens e)) "cached_input_tokens" MAX_INPUT_TOKENS in
  let* answer := nonnegative_up_to (PInt (answer_tokens e)) "output_tokens" MAX_OUTPUT_TOKENS in
  let* write := nonnegative_up_to (PInt (write_tokens e)) "cache_write_tokens" MAX_INPUT_TOKENS in
  if negb (bool_decide (cache_ttl e ∈ [None; Some "5m"; Some "1h"]))
  then Raise (ValueError "cache_ttl must be absent, 5m, or 1h") else
  let total_context_tokens := input + cached + write in
  if MAX_INPUT_TOKENS <? total_context_tokens
  then Raise (ValueError "JIT input token envelope exceeds the qualification ceiling") else
  let* card := rate_card_for RATE_CARD_FILE raw_cards provider model in
  match card with
  | None => Raise (ValueError "JIT provider/model has no trusted rate card")
  | Some card =>
      let rates := effective_rates card total_context_tokens in
      let rate := write_rate rates (cache_ttl e) in
      if negb (write =? 0) && bool_decide (rate = None)
      then Raise (ValueError "JIT cache-write envelope has no trusted rate")
      else Ok (Z.max (rounded_micro_usd (envelope_numerator e rates rate)) 0, rate_card_id card)
  end.

(** ** Reserving an attempt *)

(** [int(d.get(k, dflt))] *)
Definition get_int_default (d : doc) (k : string) (dflt : Z) : result pyexc Z :=
  py_int (default (PInt dflt) (d !! k)).

(** [d.get(k) is True] *)
Definition is_true (v : pyval) : bool := match v with PBool b => b | _ => false end.

(** The document belongs to another identity or another budget. *)
Definition identity_changed (d : doc) (owner_uid run_id contract_version : string)
    (max_attempts max_spend : Z) : result pyexc bool :=
  if negb (is_str (py_get d "owner_uid") owner_uid) || negb (is_str (py_get d "run_id") run_id)
     || negb (is_str (py_get d "contract_version") contract_version) then Ok true else
  let* attempts := get_int_default d "max_attempts" max_attempts in
  if negb (attempts =? max_attempts) then Ok true else
  let* spend := get_int_default d "max_spend_micro_usd" max_spend in
  Ok (negb (spend =? max_spend)).

Definition reservation_fields (token : string) (ordinal reserved : Z) (rate_card : string) : mapping :=
  [("token", PStr token); ("ordinal", PInt ordinal); ("reserved_micro_usd", PInt reserved);
   ("rate_card_id", PStr rate_card)].

(** The body of the transaction; [entry] is [None] when the document does not
    exist.  The write replaces a falsy [active_reservation], so merging the new
    map into the old value is putting it. *)
Definition reserve_transact (entry : option doc) (owner_uid run_id contract_version : string)
    (max_attempts max_spend reserved : Z) (rate_card token : string)
    : result pyexc (option doc * option Z) :=
  let data := default ∅ entry in
  let* changed :=
    if bool_decide (data = ∅) then Ok false
    else identity_changed data owner_uid run_id contract_version max_attempts max_spend in
  if changed then Raise (ValueError "JIT budget identity changed during one execution") else
  if is_true (py_get data "blocked") || truthy (py_get data "active_reservation") then Ok (entry, None) else
  let* attempts := get_int_default data "reserved_attempts" 0 in
  let* settled := get_int_default data "settled_spend_micro_usd" 0 in
  if (max_attempts <=? attempts) || (max_spend <? settled + reserved) then Ok (entry, None) else
  let next := attempts + 1 in
  let* settled_attempts := get_int_default data "settled_attempts" 0 in
  Ok (Some (doc_update data
        [put_str "owner_uid" owner_uid; put_str "run_id" run_id; put_str "contract_version" contract_version;
         put_int "max_attempts" max_attempts; put_int "max_spend_micro_usd" max_spend;
         put_int "reserved_attempts" next; put_int "settled_attempts" settled_attempts;
         put_int "settled_spend_micro_usd" settled; put_bool "blocked" false;
         ("active_reservation", Put (PDict (reservation_fields token next reserved rate_card)))]),
      Some next).

(** The document of an id, written back. *)
Definition put_entry (db : budgets) (id : string) (entry : option doc) : budgets :=
  match entry with Some d => <[id := d]> db | None => db end.

Definition reserve_jit_provider_attempt (db : budgets) (owner_uid run_id contract_version : string)
    (max_attempts max_spend_micro_usd : Z) (provider model : string) (e : envelope) (token : string)
    : result pyexc (budgets * option JITAttemptReservation) :=
  if String.eqb owner_uid "" || String.eqb run_id "" || String.eqb contract_version ""
  then Raise (ValueError "JIT budget identity is required") else
  let* max_attempts := _positive_int (PInt max_attempts) "max_attempts" MAX_ATTEMPTS in
  let* max_spend := _positive_int (PInt max_spend_micro_usd) "max_spend_micro_usd" MAX_SPEND_MICRO_USD in
  let* '(reserved, rate_card) := _worst_case_cost_micro_usd provider model e in
  if (reserved <=? 0) || (max_spend <? reserved) then Ok (db, None) else
  let id := _doc_id owner_uid run_id in
  let* '(entry, ordinal) := reserve_transact (db !! id) owner_uid run_id contract_version max_attempts
                              max_spend reserved rate_card token in
  match ordinal with
  | None => Ok (db, None)
  | Some ordinal =>
      Ok (put_entry db id entry,
          Some {| owner_uid := owner_uid; run_id := run_id; contract_version := contract_version;
                  reservation_ordinal := ordinal; max_attempts := max_attempts;
                  reservation_token := token; reserved_micro_usd := reserved |})
  end.
End Budget.

(** ** Settling an attempt *)

(** [active.get(k, dflt)] for a mapping. *)
Definition int_in (m : mapping) (k : string) (dflt : Z) : result pyexc Z :=
  py_int (default (PInt dflt) (assoc_value k m)).

(** [cost_micro_usd]: [None] or a non-negative integer, refused otherwise. *)
Definition checked_cost (v : pyval) : result pyexc (option Z) :=
  let refused := Raise (ValueError "cost_micro_usd must be a nonnegative integer") in
  match v with
  | PNone => Ok None
  | PInt z => if z <? 0 then refused else Ok (Some z)
  | _ => refused
  end.

(** The reservation stored in the document, when it is the one presented. *)
Definition matching_reservation (d : doc) (r : JITAttemptReservation) : result pyexc (option mapping) :=
  if negb (is_str (py_get d "owner_uid") (owner_uid r)) || negb (is_str (py_get d "run_id") (run_id r))
     || negb (is_str (py_get d "contract_version") (contract_version r)) then Ok None else
  let* attempts := get_int_default d "max_attempts" (-1) in
  if negb (attempts =? max_attempts r) then Ok None else
  if is_true (py_get d "blocked") then Ok None else
  match as_mapping (py_get d "active_reservation") with
  | None => Ok None
  | Some active =>
      if negb (is_str (item_get active "token") (reservation_token r)) then Ok None else
      let* ordinal := int_in active "ordinal" (-1) in
      Ok (if ordinal =? reservation_ordinal r then Some active else None)
  end.

(** The settlement of the matched reservation: the writes and the answer. *)
Definition settlement (d : doc) (active : mapping) (cost : option Z) (status : string)
    : result pyexc (list (string * field_write) * bool) :=
  if String.eqb status "released" && bool_decide (cost = Some 0) then
    let* settled_attempts := get_int_default d "settled_attempts" 0 in
    Ok ([put_bool "blocked" false; put_str "cost_status" "released";
         put_int "settled_attempts" (settled_attempts + 1); put_none "active_reservation"], true)
  else
    match cost with
    | Some cost =>
        if negb (String.eqb status "succeeded") then
          Ok ([put_bool "blocked" true; put_str "cost_status" status], false)
        else
          let* reserved := int_in active "reserved_micro_usd" (-1) in
          let* settled := get_int_default d "settled_spend_micro_usd" 0 in
          let* limit := get_int_default d "max_spend_micro_usd" MAX_SPEND_MICRO_USD in
          if (reserved <? cost) || (limit <? settled + cost) then
            Ok ([put_bool "blocked" true; put_str "cost_status" "over_reserved";
                 put_int "settled_spend_micro_usd" (settled + cost); put_none "active_reservation"], false)
          else
            let* settled_attempts := get_int_default d "settled_attempts" 0 in
            Ok ([put_bool "blocked" false; put_str "cost_status" status;
                 put_int "settled_attempts" (settled_attempts + 1);
                 put_int "settled_spend_micro_usd" (settled + cost); put_none "active_reservation"], true)
    | None => Ok ([put_bool "blocked" true; put_str "cost_status" "unknown"], false)
    end.

Definition settle_transact (entry : option doc) (r : JITAttemptReservation) (cost : option Z)
    (status : string) : result pyexc (option doc * bool) :=
  match entry with
  | None => Ok (None, false)
  | Some d =>
      let* active := matching_reservation d r in
      match active with
      | None => Ok (entry, false)
      | Some active =>
          let* '(writes, ok) := settlement d active cost status in
          Ok (Some (doc_update d writes), ok)
      end
  end.

Definition settle_jit_provider_attempt (db : budgets) (r : JITAttemptReservation) (cost_micro_usd : pyval)
    (status : string) : result pyexc (budgets * bool) :=
  if negb (bool_decide (status ∈ _KNOWN_STATUSES)) then Raise (ValueError "invalid JIT settlement status") else
  let* cost := checked_cost cost_micro_usd in
  let id := _doc_id (owner_uid r) (run_id r) in
  let* '(entry, ok) := settle_transact (db !! id) r cost status in
  Ok (put_entry db id entry, ok).

(** ** Use by the executor *)

(** [jit_reservation_units]: [request_bytes] is the length of the serialized
    request, and [output_limit] the value of [max_completion_tokens], of
    [max_tokens] or 2048, whichever the request has first. *)
Definition jit_reservation_units (request_bytes : Z) (output_limit : pyval) : envelope :=
  {| input_tokens := Z.max request_bytes 1; cached_tokens := 0;
     answer_tokens := match output_limit with
                      | PInt n => if n <? 0 then 2048 else n
                      | _ => 2048
                      end;
     write_tokens := 0; cache_ttl := None |}.

(** [settle_jit_attempt]: the cost and status the executor settles with.  The
    metadata of the response is priced by the estimator of the ledger. *)
Section Executor.
Context (RATE_CARD_FILE : string) (raw_cards : pyval).

Definition settlement_cost (provider model : string) (metadata : option ProviderResponseMetadata)
    (release_without_provider : bool) : result pyexc pyval :=
  match metadata with
  | None => Ok (if release_without_provider then PInt 0 else PNone)
  | Some metadata =>
      let* '(status, estimate) :=
        estimated_provider_cost_micro_usd RATE_CARD_FILE raw_cards "omi" provider model metadata in
      Ok (match status, estimate with
          | ESTIMATED, Some cost => PInt cost
          | _, _ => if release_without_provider then PInt 0 else PNone
          end)
  end.

(** An exception while settling is answered with [False]; the reservation then
    stays active. *)
Definition settle_jit_attempt (db : budgets) (reservation : option JITAttemptReservation)
    (provider model : string) (metadata : option ProviderResponseMetadata) (status : string)
    (release_without_provider : bool) : result pyexc (budgets * bool) :=
  match reservation with
  | None => Ok (db, true)
  | Some r =>
      if release_without_provider && (bool_decide (is_Some metadata) || negb (String.eqb status "released"))
      then Raise (ValueError "a provider-less JIT release must have status=released and no metadata") else
      let* cost := settlement_cost provider model metadata release_without_provider in
      match settle_jit_provider_attempt db r cost status with
      | Ok answer => Ok answer
      | Raise _ => Ok (db, false)
      end
  end.
End Executor.
