(* ===== verification/JitBudgetOps.v ===== *)
(** What the spend authority guarantees over every history of reservations and
    settlements, by any number of gateway instances: spend and attempts stay
    within the budget, attempts of a run do not overlap, a refused settlement
    ends the run, and a reservation covers the bill of the attempt. *)
From S2P Require Export JitBudget AccountingOps.

(** ** Histories *)

Inductive call : Type :=
| Reserve (owner run version : string) (attempts spend : Z) (provider model : string) (e : envelope)
    (token : string)
| Settle (r : JITAttemptReservation) (cost : pyval) (status : string).

Inductive answer : Type :=
| Granted (r : JITAttemptReservation)
| Blocked
| Settled (ok : bool)
| Raised (x : pyexc).

(** The document a call is about. *)
Definition call_id (c : call) : string :=
  match c with
  | Reserve owner run _ _ _ _ _ _ _ => _doc_id owner run
  | Settle r _ _ => _doc_id (owner_uid r) (run_id r)
  end.

(** A call counts towards a run when it is about its document. *)
Definition about (id : string) (ca : call * answer) : bool := String.eqb (call_id ca.1) id.

(** What a call adds to the attempts and to the accepted spend of a run. *)
Definition attempts_of (ca : call * answer) : Z :=
  match ca.2 with Granted _ => 1 | _ => 0 end.

Definition spend_of (ca : call * answer) : Z :=
  match ca with
  | (Settle _ (PInt cost) _, Settled true) => cost
  | _ => 0
  end.

Definition total (f : call * answer -> Z) (id : string) (l : list (call * answer)) : Z :=
  sum_over f (List.filter (about id) l).

Lemma total_app f id l1 l2 : total f id (l1 ++ l2) = total f id l1 + total f id l2.
Proof. unfold total. rewrite List.filter_app. by autorewrite with remi. Qed.

Lemma total_one f id ca : total f id [ca] = if about id ca then f ca else 0.
Proof. unfold total. cbn [List.filter]. destruct (about id ca); cbn; lia. Qed.

Section Histories.
Context (file : string) (raw : pyval).

(** A call that raises commits nothing. *)
Definition run_call (db : budgets) (c : call) : budgets * answer :=
  match c with
  | Reserve owner run version attempts spend p m e token =>
      match reserve_jit_provider_attempt file raw db owner run version attempts spend p m e token with
      | Ok (db', Some r) => (db', Granted r)
      | Ok (db', None) => (db', Blocked)
      | Raise x => (db, Raised x)
      end
  | Settle r cost status =>
      match settle_jit_provider_attempt db r cost status with
      | Ok (db', ok) => (db', Settled ok)
      | Raise x => (db, Raised x)
      end
  end.

Inductive history : budgets -> list (call * answer) -> budgets -> Prop :=
| history_nil db : history db [] db
| history_snoc db l db1 c db2 a :
    history db l db1 -> run_call db1 c = (db2, a) -> history db (l ++ [(c, a)]) db2.

(** ** What a call does to its document *)

(** The identity, the limits and the counters of a document. *)
Record budget : Type := {
  b_owner : string;
  b_run : string;
  b_version : string;
  b_max_attempts : Z;
  b_max_spend : Z;
  b_reserved : Z;
  b_settled : Z;
  b_spend : Z;
  b_blocked : bool;
  b_active : option (string * Z * Z * string);
}.

Definition active_value (a : option (string * Z * Z * string)) : pyval :=
  match a with
  | Some (token, ordinal, reserved, card) => PDict (reservation_fields token ordinal reserved card)
  | None => PNone
  end.

(** The document holds this budget; it may have further fields. *)
Record holds (d : doc) (b : budget) : Prop := {
  holds_owner : d !! "owner_uid" = Some (PStr (b_owner b));
  holds_run : d !! "run_id" = Some (PStr (b_run b));
  holds_version : d !! "contract_version" = Some (PStr (b_version b));
  holds_attempts : d !! "max_attempts" = Some (PInt (b_max_attempts b));
  holds_max_spend : d !! "max_spend_micro_usd" = Some (PInt (b_max_spend b));
  holds_reserved : d !! "reserved_attempts" = Some (PInt (b_reserved b));
  holds_settled : d !! "settled_attempts" = Some (PInt (b_settled b));
  holds_spend : d !! "settled_spend_micro_usd" = Some (PInt (b_spend b));
  holds_blocked : d !! "blocked" = Some (PBool (b_blocked b));
  holds_active : d !! "active_reservation" = Some (active_value (b_active b));
}.

(** The amount of the active reservation. *)
Definition outstanding (b : budget) : Z :=
  match b_active b with Some (_, _, reserved, _) => reserved | None => 0 end.

Definition in_flight (b : budget) : Z := match b_active b with Some _ => 1 | None => 0 end.

(** The budget after the given grants and accepted spend. *)
Record budget_ok (b : budget) (granted paid : Z) : Prop := {
  ok_attempts : 1 <= b_max_attempts b <= MAX_ATTEMPTS;
  ok_max_spend : 1 <= b_max_spend b <= MAX_SPEND_MICRO_USD;
  ok_granted : b_reserved b = granted;
  ok_settled : 0 <= b_settled b /\ b_settled b + in_flight b <= granted;
  ok_limit : granted <= b_max_attempts b;
  ok_paid : 0 <= paid /\ paid + outstanding b <= b_max_spend b;
  ok_spend : if b_blocked b then paid <= b_spend b else b_spend b = paid;
  ok_outstanding : 0 <= outstanding b;
  ok_ordinal : match b_active b with Some (_, o, _, _) => o = granted | None => True end;
}.

(** A budget with a new reservation, and one whose reservation is over. *)
Definition with_reservation (b : budget) (token : string) (reserved : Z) (card : string) : budget :=
  {| b_owner := b_owner b; b_run := b_run b; b_version := b_version b; b_max_attempts := b_max_attempts b;
     b_max_spend := b_max_spend b; b_reserved := b_reserved b + 1; b_settled := b_settled b;
     b_spend := b_spend b; b_blocked := false;
     b_active := Some (token, b_reserved b + 1, reserved, card) |}.

Definition with_settlement (b : budget) (settled spend : Z) (blocked : bool)
    (active : option (string * Z * Z * string)) : budget :=
  {| b_owner := b_owner b; b_run := b_run b; b_version := b_version b; b_max_attempts := b_max_attempts b;
     b_max_spend := b_max_spend b; b_reserved := b_reserved b; b_settled := b_settled b + settled;
     b_spend := b_spend b + spend; b_blocked := blocked; b_active := active |}.

(** Fields of a document that holds a budget. *)
Ltac read_budget H :=
  unfold identity_changed, get_int_default, py_get;
  rewrite ?(holds_owner _ _ H), ?(holds_run _ _ H), ?(holds_version _ _ H), ?(holds_attempts _ _ H),
    ?(holds_max_spend _ _ H), ?(holds_reserved _ _ H), ?(holds_settled _ _ H), ?(holds_spend _ _ H),
    ?(holds_blocked _ _ H), ?(holds_active _ _ H);
  cbn [default from_option id is_str py_int is_true rbind].

(** An updated document holds the budget with the same changes. *)
Ltac hold_fields H :=
  destruct H; split; rewrite lookup_doc_update; cbn -[Z.add]; rewrite ?Z.add_0_r; done.

Lemma truthy_active a : truthy (active_value a) = bool_decide (is_Some a).
Proof. by destruct a as [[[[??]?]?]|]. Qed.

Definition same_budget (b : budget) (owner run version : string) (attempts spend : Z) : bool :=
  String.eqb (b_owner b) owner && String.eqb (b_run b) run && String.eqb (b_version b) version
  && (b_max_attempts b =? attempts) && (b_max_spend b =? spend).

Lemma identity_changed_holds d b owner run version attempts spend :
  holds d b ->
  identity_changed d owner run version attempts spend = Ok (negb (same_budget b owner run version attempts spend)).
Proof.
  intros H. unfold same_budget. read_budget H.
  destruct (String.eqb (b_owner b) owner); [|done].
  destruct (String.eqb (b_run b) run); [|done].
  destruct (String.eqb (b_version b) version); [|done]. cbn [negb orb andb].
  by destruct (b_max_attempts b =? attempts).
Qed.

Lemma holds_nonempty d b : holds d b -> d <> ∅.
Proof. intros H ->. by pose proof (holds_owner _ _ H). Qed.

(** What reserving does on a document that holds a budget. *)
Lemma reserve_transact_holds d b owner run version attempts spend reserved card token :
  holds d b ->
  reserve_transact (Some d) owner run version attempts spend reserved card token =
    if negb (same_budget b owner run version attempts spend)
    then Raise (ValueError "JIT budget identity changed during one execution")
    else if b_blocked b || bool_decide (is_Some (b_active b)) || (attempts <=? b_reserved b)
            || (spend <? b_spend b + reserved)
    then Ok (Some d, None)
    else Ok (Some (doc_update d
        [put_str "owner_uid" owner; put_str "run_id" run; put_str "contract_version" version;
         put_int "max_attempts" attempts; put_int "max_spend_micro_usd" spend;
         put_int "reserved_attempts" (b_reserved b + 1); put_int "settled_attempts" (b_settled b);
         put_int "settled_spend_micro_usd" (b_spend b); put_bool "blocked" false;
         ("active_reservation", Put (PDict (reservation_fields token (b_reserved b + 1) reserved card)))]),
      Some (b_reserved b + 1)).
Proof.
  intros H. unfold reserve_transact. cbn [default from_option id].
  rewrite bool_decide_false by (by eapply holds_nonempty).
  rewrite (identity_changed_holds _ _ _ _ _ _ _ H). cbn [rbind].
  destruct (same_budget _ _ _ _ _ _); [|done]. cbn [negb].
  read_budget H. rewrite truthy_active.
  destruct (b_blocked b || _); [done|]. cbn [orb].
  by destruct (attempts <=? b_reserved b).
Qed.

Lemma same_budget_eq b owner run version attempts spend :
  same_budget b owner run version attempts spend = true ->
  owner = b_owner b /\ run = b_run b /\ version = b_version b /\
  attempts = b_max_attempts b /\ spend = b_max_spend b.
Proof. unfold same_budget. intros H. to_prop. by subst. Qed.

(** Reserving leaves the document alone, or is granted. *)
Lemma reserve_step d b owner run version attempts spend reserved card token e o :
  holds d b ->
  reserve_transact (Some d) owner run version attempts spend reserved card token = Ok (e, o) ->
  (e = Some d /\ o = None) \/
  (exists d', e = Some d' /\ o = Some (b_reserved b + 1) /\
     holds d' (with_reservation b token reserved card) /\
     b_blocked b = false /\ b_active b = None /\ attempts = b_max_attempts b /\
     b_reserved b < b_max_attempts b /\ b_spend b + reserved <= b_max_spend b).
Proof.
  intros H. rewrite (reserve_transact_holds _ _ _ _ _ _ _ _ _ _ H).
  destruct (same_budget _ _ _ _ _ _) eqn:Hsame; [|discriminate]. cbn [negb].
  apply same_budget_eq in Hsame as (-> & -> & -> & -> & ->).
  destruct (b_blocked b || _ || _ || _) eqn:Hg; intros [<- <-]%ok_pair; [by left|right].
  to_prop. eexists. split_and!; [done|done| |done| |done|lia|lia].
  - hold_fields H.
  - destruct (b_active b); [|done]. exfalso. eauto.
Qed.
(** The first reservation of a run. *)
Definition first_budget (owner run version : string) (attempts spend : Z) (token : string) (reserved : Z)
    (card : string) : budget :=
  {| b_owner := owner; b_run := run; b_version := version; b_max_attempts := attempts; b_max_spend := spend;
     b_reserved := 1; b_settled := 0; b_spend := 0; b_blocked := false;
     b_active := Some (token, 1, reserved, card) |}.

Lemma reserve_first owner run version attempts spend reserved card token :
  1 <= attempts -> reserved <= spend ->
  exists d, reserve_transact None owner run version attempts spend reserved card token = Ok (Some d, Some 1) /\
    holds d (first_budget owner run version attempts spend token reserved card).
Proof.
  intros Ha Hs. unfold reserve_transact. cbn [default from_option id].
  rewrite bool_decide_true by done. unfold get_int_default, py_get. rewrite !lookup_empty.
  cbn [default from_option id is_true truthy orb rbind py_int].
  rewrite (proj2 (Z.leb_gt attempts 0)), (proj2 (Z.ltb_ge spend _)) by lia. cbn [orb].
  eexists. split; [done|]. split; rewrite lookup_doc_update; done.
Qed.

(** The ways a settlement changes the budget whose reservation it presents. *)
Inductive settles (b : budget) (reserved : Z) (cost : option Z) (status : string) : budget -> bool -> Prop :=
| settles_released :
    status = "released" -> cost = Some 0 ->
    settles b reserved cost status (with_settlement b 1 0 false None) true
| settles_unknown :
    ~ (status = "released" /\ cost = Some 0) -> cost = None \/ status <> "succeeded" ->
    settles b reserved cost status (with_settlement b 0 0 true (b_active b)) false
| settles_over c :
    status = "succeeded" -> cost = Some c -> reserved < c \/ b_max_spend b < b_spend b + c ->
    settles b reserved cost status (with_settlement b 0 c true None) false
| settles_paid c :
    cost = Some c -> status = "succeeded" -> c <= reserved -> b_spend b + c <= b_max_spend b ->
    settles b reserved cost status (with_settlement b 1 c false None) true.

(** The two ways of an accepted settlement. *)
Lemma settles_accepted b reserved cost status b' :
  settles b reserved cost status b' true ->
  (status = "released" /\ cost = Some 0 /\ b' = with_settlement b 1 0 false None) \/
  (status = "succeeded" /\ exists c, cost = Some c /\ b' = with_settlement b 1 c false None).
Proof. inversion 1; subst; eauto. Qed.

(** The fields of a stored reservation. *)
Lemma reserved_token token o res card :
  item_get (reservation_fields token o res card) "token" = PStr token.
Proof. done. Qed.

Lemma reserved_ordinal token o res card : int_in (reservation_fields token o res card) "ordinal" (-1) = Ok o.
Proof. done. Qed.

Lemma reserved_amount token o res card :
  int_in (reservation_fields token o res card) "reserved_micro_usd" (-1) = Ok res.
Proof. done. Qed.

(** Whether a capability names the active reservation, and its budget. *)
Definition names_active (b : budget) (r : JITAttemptReservation) : bool :=
  String.eqb (b_owner b) (owner_uid r) && String.eqb (b_run b) (run_id r)
  && String.eqb (b_version b) (contract_version r) && (b_max_attempts b =? max_attempts r)
  && negb (b_blocked b)
  && match b_active b with
     | Some (token, o, _, _) => String.eqb token (reservation_token r) && (o =? reservation_ordinal r)
     | None => false
     end.

Lemma matching_reservation_holds d b r :
  holds d b ->
  matching_reservation d r = Ok (if names_active b r then as_mapping (active_value (b_active b)) else None).
Proof.
  intros H. unfold matching_reservation, names_active. read_budget H.
  destruct (String.eqb (b_owner b) _); [|done]. destruct (String.eqb (b_run b) _); [|done].
  destruct (String.eqb (b_version b) _); [|done]. destruct (b_max_attempts b =? _); [|done].
  destruct (b_blocked b); [done|]. destruct (b_active b) as [[[[token o] res] card]|]; [|done].
  cbn [negb orb andb as_mapping active_value is_true]. rewrite reserved_token, reserved_ordinal. cbn [is_str rbind].
  destruct (String.eqb token _); [|done]. cbn [negb andb]. by destruct (o =? _).
Qed.

Lemma settlement_holds d b token o reserved card cost status :
  holds d b ->
  exists writes b' ok,
    settlement d (reservation_fields token o reserved card) cost status = Ok (writes, ok) /\
    holds (doc_update d writes) b' /\ settles b reserved cost status b' ok.
Proof.
  intros H. unfold settlement. rewrite reserved_amount. read_budget H.
  destruct (String.eqb status "released" && bool_decide (cost = Some 0)) eqn:Hrel;
    [|assert (~ (status = "released" /\ cost = Some 0))
        by (intros [-> ->]; by rewrite bool_decide_true in Hrel)].
  - to_prop. eexists _, (with_settlement b 1 0 false None), true.
    split_and!; [done|hold_fields H|by constructor].
  - destruct cost as [c|].
    + destruct (String.eqb_spec status "succeeded") as [->|Hs]; cbn [negb].
      * destruct ((reserved <? c) || (b_max_spend b <? b_spend b + c)) eqn:Hover.
        -- eexists _, (with_settlement b 0 c true None), false. split_and!; [done|hold_fields H|].
           eapply settles_over; [done..|]. apply orb_true_iff in Hover as [?%Z.ltb_lt|?%Z.ltb_lt]; auto.
        -- to_prop. eexists _, (with_settlement b 1 c false None), true.
           split_and!; [done|hold_fields H|by eapply settles_paid].
      * eexists _, (with_settlement b 0 0 true (b_active b)), false.
        split_and!; [done|hold_fields H|]. apply settles_unknown; [done|by right].
    + eexists _, (with_settlement b 0 0 true (b_active b)), false.
      split_and!; [done|hold_fields H|]. apply settles_unknown; [done|by left].
Qed.

(** Settling never raises; it leaves the document alone unless the capability
    names the active reservation. *)
Lemma settle_step d b r cost status :
  holds d b ->
  exists e ok, settle_transact (Some d) r cost status = Ok (e, ok) /\
  if names_active b r then
    exists d' b' reserved card,
      b_active b = Some (reservation_token r, reservation_ordinal r, reserved, card) /\
      e = Some d' /\ holds d' b' /\ settles b reserved cost status b' ok
  else e = Some d /\ ok = false.
Proof.
  intros H. unfold settle_transact. rewrite (matching_reservation_holds _ _ _ H). cbn [rbind].
  destruct (names_active b r) eqn:Hn; [|eauto].
  unfold names_active in Hn. to_prop. destruct (b_active b) as [[[[token o] res] card]|]; [|done]. to_prop. subst.
  cbn [active_value as_mapping].
  destruct (settlement_holds d b (reservation_token r) (reservation_ordinal r) res card cost status H)
    as (writes & b' & ok & -> & Hh & Hs).
  cbn [rbind]. eauto 12.
Qed.
(** ** The invariant *)

Lemma positive_int_ok z name maximum n :
  _positive_int (PInt z) name maximum = Ok n -> n = z /\ 1 <= z <= maximum.
Proof.
  unfold _positive_int. destruct ((z <=? 0) || (maximum <? z)) eqn:H; [discriminate|].
  intros [= <-]. to_prop. lia.
Qed.

(** A granted reservation, taken apart. *)
Lemma reserve_granted db owner run version attempts spend p m e token db' o :
  reserve_jit_provider_attempt file raw db owner run version attempts spend p m e token = Ok (db', o) ->
  (db' = db /\ o = None) \/
  exists reserved card entry ordinal,
    let id := _doc_id owner run in
    1 <= attempts <= MAX_ATTEMPTS /\ 1 <= spend <= MAX_SPEND_MICRO_USD /\ 0 < reserved <= spend /\
    _worst_case_cost_micro_usd file raw p m e = Ok (reserved, card) /\
    reserve_transact (db !! id) owner run version attempts spend reserved card token
      = Ok (entry, Some ordinal) /\
    db' = put_entry db id entry /\
    o = Some {| owner_uid := owner; run_id := run; contract_version := version;
                reservation_ordinal := ordinal; max_attempts := attempts; reservation_token := token;
                reserved_micro_usd := reserved |}.
Proof.
  unfold reserve_jit_provider_attempt.
  destruct (String.eqb owner "" || _ || _); [discriminate|]. intros H.
  apply rbind_ok in H as (a & [-> Ha]%positive_int_ok & H).
  apply rbind_ok in H as (s & [-> Hs]%positive_int_ok & H).
  apply rbind_ok in H as ([reserved card] & Hr & H).
  destruct ((reserved <=? 0) || (spend <? reserved)) eqn:Hg; [apply ok_pair in H as [<- <-]; auto|].
  apply rbind_ok in H as ([entry [ordinal|]] & Ht & H); apply ok_pair in H as [<- <-]; [right|auto].
  to_prop. exists reserved, card, entry, ordinal. split_and!; done || lia.
Qed.

(** The document of a run agrees with the run's history. *)
Definition entry_ok (entry : option doc) (granted paid : Z) : Prop :=
  match entry with
  | None => granted = 0 /\ paid = 0
  | Some d => exists b, holds d b /\ budget_ok b granted paid
  end.

Lemma reserve_entry_ok entry owner run version attempts spend reserved card token e ordinal g p :
  entry_ok entry g p ->
  1 <= attempts <= MAX_ATTEMPTS -> 1 <= spend <= MAX_SPEND_MICRO_USD -> 0 < reserved <= spend ->
  reserve_transact entry owner run version attempts spend reserved card token = Ok (e, Some ordinal) ->
  entry_ok e (g + 1) p.
Proof.
  intros He Ha Hs Hr Ht. destruct entry as [d|].
  - destruct He as (b & Hb & Hok).
    destruct (reserve_step _ _ _ _ _ _ _ _ _ _ _ _ Hb Ht)
      as [[_ ?]|(d' & -> & _ & Hd' & Hbl & Hact & -> & Hlim & Hspend)]; [done|].
    exists (with_reservation b token reserved card). split; [done|].
    destruct Hok as [? ? ? Hset ? Hpaid Hsp ? ?]. rewrite Hbl in Hsp. unfold in_flight, outstanding in *.
    rewrite Hact in *. split; unfold in_flight, outstanding; simpl; lia.
  - destruct He as [-> ->].
    destruct (reserve_first owner run version attempts spend reserved card token) as (d & Ht' & Hd); [lia..|].
    rewrite Ht' in Ht. injection Ht as <- <-. exists (first_budget owner run version attempts spend token reserved card).
    split; [done|]. split; unfold in_flight, outstanding; simpl; lia.
Qed.

(** What a settlement answered [true] added to the accepted spend. *)
Definition accepted (cost : option Z) (ok : bool) : Z := if ok then default 0 cost else 0.

Lemma settles_ok b reserved card token o cost status b' ok g p :
  budget_ok b g p -> b_blocked b = false -> b_active b = Some (token, o, reserved, card) ->
  (forall c, cost = Some c -> 0 <= c) ->
  settles b reserved cost status b' ok -> budget_ok b' g (p + accepted cost ok).
Proof.
  intros [? ? ? Hset ? Hpaid Hsp ? ?] Hbl Hact Hc Hs. rewrite Hbl in Hsp. unfold in_flight, outstanding in *.
  rewrite Hact in *.
  destruct Hs as [-> ->|_ H|c _ -> H|c -> -> Hle Hlim]; split; unfold in_flight, outstanding, accepted; simpl;
    rewrite ?Hact; try (specialize (Hc c eq_refl)); lia.
Qed.

Lemma settle_entry_ok entry r cost status e ok g p :
  entry_ok entry g p -> (forall c, cost = Some c -> 0 <= c) ->
  settle_transact entry r cost status = Ok (e, ok) ->
  entry_ok e g (p + accepted cost ok).
Proof.
  intros He Hc Ht. destruct entry as [d|].
  - destruct He as (b & Hb & Hok).
    destruct (settle_step _ _ r cost status Hb) as (e' & ok' & Ht' & Hstep).
    rewrite Ht' in Ht. apply ok_pair in Ht as [-> ->].
    destruct (names_active b r) eqn:Hn.
    + destruct Hstep as (d' & b' & reserved & card & Hact & -> & Hd' & Hs). exists b'. split; [done|].
      eapply settles_ok; eauto. unfold names_active in Hn. by to_prop.
    + destruct Hstep as [-> ->]. exists b. by rewrite Z.add_0_r.
  - destruct He as [-> ->]. apply ok_pair in Ht as [<- <-]. done.
Qed.
(** A settlement, taken apart. *)
Lemma settle_call db r cost status db' ok :
  settle_jit_provider_attempt db r cost status = Ok (db', ok) ->
  exists c entry,
    status ∈ _KNOWN_STATUSES /\ checked_cost cost = Ok c /\
    settle_transact (db !! _doc_id (owner_uid r) (run_id r)) r c status = Ok (entry, ok) /\
    db' = put_entry db (_doc_id (owner_uid r) (run_id r)) entry.
Proof.
  unfold settle_jit_provider_attempt. case_bool_decide as Hst; [|discriminate]. cbn [negb]. intros H.
  apply rbind_ok in H as (c & Hc & H). apply rbind_ok in H as ([entry ok'] & Ht & H).
  apply ok_pair in H as [<- <-]. eauto 8.
Qed.

Lemma checked_cost_nonneg v cost c : checked_cost v = Ok cost -> cost = Some c -> 0 <= c.
Proof.
  destruct v; simpl; try congruence. destruct (Z.ltb_spec z 0); [discriminate|]. intros [= <-] [= <-]. done.
Qed.

Lemma spend_of_settle r v cost status ok :
  checked_cost v = Ok cost -> spend_of (Settle r v status, Settled ok) = accepted cost ok.
Proof.
  destruct v; simpl; intros H; try discriminate; try (injection H as <-; by destruct ok).
  destruct (z <? 0); [discriminate|]. injection H as <-. by destruct ok.
Qed.

(** Every document agrees with the history, and a document a transaction does
    not create stays absent. *)
Definition books_ok (db : budgets) (l : list (call * answer)) : Prop :=
  forall id, entry_ok (db !! id) (total attempts_of id l) (total spend_of id l).

Lemma lookup_put_entry db id entry id' :
  (entry = None -> db !! id = None) ->
  put_entry db id entry !! id' = if String.eqb id id' then entry else db !! id'.
Proof.
  intros Hn. destruct (String.eqb_spec id id') as [<-|Hne]; destruct entry as [d|]; simpl; simplify_map_eq; auto.
Qed.

(** A call that leaves every document alone and is counted for nothing. *)
Lemma books_ok_idle db l c a :
  books_ok db l -> attempts_of (c, a) = 0 -> spend_of (c, a) = 0 -> books_ok db (l ++ [(c, a)]).
Proof.
  intros Hb Ha Hs id. rewrite !total_app, !total_one, Ha, Hs.
  destruct (about id (c, a)); rewrite !Z.add_0_r; apply Hb.
Qed.

(** A call that writes the document it is about. *)
Lemma books_ok_write db l c a entry :
  books_ok db l -> (entry = None -> db !! call_id c = None) ->
  (forall g p, entry_ok (db !! call_id c) g p ->
     entry_ok entry (g + attempts_of (c, a)) (p + spend_of (c, a))) ->
  books_ok (put_entry db (call_id c) entry) (l ++ [(c, a)]).
Proof.
  intros Hb Hn He id. rewrite !total_app, !total_one. unfold about. cbn [fst].
  rewrite lookup_put_entry by done.
  destruct (String.eqb_spec (call_id c) id) as [<-|Hne]; [by apply He, Hb|].
  rewrite !Z.add_0_r. apply Hb.
Qed.

Lemma reserve_entry_some entry owner run version attempts spend reserved card token e ordinal :
  reserve_transact entry owner run version attempts spend reserved card token = Ok (e, Some ordinal) ->
  is_Some e.
Proof.
  unfold reserve_transact. intros H. apply rbind_ok in H as (changed & _ & H).
  destruct changed; [discriminate|]. destruct (_ || _); [by apply ok_pair in H as [_ ?]|].
  apply rbind_ok in H as (? & _ & H). apply rbind_ok in H as (? & _ & H).
  destruct (_ || _); [by apply ok_pair in H as [_ ?]|].
  apply rbind_ok in H as (? & _ & H). apply ok_pair in H as [<- _]. done.
Qed.

Lemma settle_entry_none entry r cost status e ok :
  settle_transact entry r cost status = Ok (e, ok) -> e = None -> entry = None.
Proof.
  unfold settle_transact. destruct entry as [d|]; [|by intros [<- _]%ok_pair].
  intros H ->. apply rbind_ok in H as ([m|] & _ & H); [|by apply ok_pair in H as [? _]].
  apply rbind_ok in H as ([writes ok'] & _ & H). by apply ok_pair in H as [? _].
Qed.

Lemma books_ok_step db l c db' a :
  books_ok db l -> run_call db c = (db', a) -> books_ok db' (l ++ [(c, a)]).
Proof.
  intros Hb H. destruct c as [owner run version attempts spend p m e token|r cost status]; simpl in H.
  - destruct (reserve_jit_provider_attempt _ _ _ _ _ _ _ _ _ _ _ _) as [[db1 o]|x] eqn:Hr.
    + apply reserve_granted in Hr
        as [[-> ->]|(reserved & card & entry & ordinal & Ha & Hs & Hres & _ & Ht & -> & ->)];
        injection H as <- <-; [by apply books_ok_idle|].
      apply (books_ok_write _ _ (Reserve owner run version attempts spend p m e token)); [done| |].
      * apply reserve_entry_some in Ht as [? ->]. done.
      * intros g p' He. cbn [attempts_of spend_of snd]. rewrite Z.add_0_r.
        eapply reserve_entry_ok; eauto.
    + injection H as <- <-. by apply books_ok_idle.
  - destruct (settle_jit_provider_attempt _ _ _ _) as [[db1 ok]|x] eqn:Hs; injection H as <- <-;
      [|by apply books_ok_idle; destruct cost].
    apply settle_call in Hs as (c & entry & _ & Hc & Ht & ->).
    apply (books_ok_write _ _ (Settle r cost status)); [done|by intros ->; eapply settle_entry_none|].
    intros g p He. rewrite (spend_of_settle _ _ _ _ _ Hc). cbn [attempts_of snd]. rewrite Z.add_0_r.
    eapply settle_entry_ok; eauto using checked_cost_nonneg.
Qed.

Lemma history_books l db : history ∅ l db -> books_ok db l.
Proof.
  remember (∅ : budgets) as db0. induction 1 as [db|db0 l db1 c db2 a Hh IH Hr]; subst.
  - intros id. by rewrite lookup_empty.
  - eapply books_ok_step; eauto.
Qed.

(** C25: in every history of reservations and settlements from any number of
    gateway instances, in any order and with any arguments, each run has at
    most its maximal number of attempts (never more than three), the costs
    accepted for it together with the amount of the attempt in flight never
    exceed its budget (never more than 50,000 micro-dollars), and the stored
    counters are exactly the attempts granted and, unless the run is blocked,
    the spend accepted. *)
Theorem spend_stays_within_budget l db id :
  history ∅ l db ->
  0 <= total attempts_of id l <= MAX_ATTEMPTS /\
  0 <= total spend_of id l <= MAX_SPEND_MICRO_USD /\
  forall d, db !! id = Some d -> exists b,
    holds d b /\
    b_reserved b = total attempts_of id l /\ total attempts_of id l <= b_max_attempts b /\
    total spend_of id l + outstanding b <= b_max_spend b /\
    (b_blocked b = false -> b_spend b = total spend_of id l).
Proof.
  intros Hb%history_books. specialize (Hb id).
  destruct (db !! id) as [d|]; unfold MAX_ATTEMPTS, MAX_SPEND_MICRO_USD in *.
  - destruct Hb as (b & Hh & [Ha Hs ? ? ? [? ?] Hsp ? ?]). unfold in_flight, MAX_ATTEMPTS, MAX_SPEND_MICRO_USD in *.
    split_and!; [destruct (b_active b); lia..|]. intros d' [= <-]. exists b.
    split_and!; try done; try lia. intros Hbl. by rewrite Hbl in Hsp.
  - destruct Hb as [-> ->]. split_and!; done || lia.
Qed.
(** ** Calls on a document in a known state *)

Lemma reserve_other db owner run version attempts spend p m e token db' a id :
  run_call db (Reserve owner run version attempts spend p m e token) = (db', a) ->
  _doc_id owner run <> id -> db' !! id = db !! id.
Proof.
  cbn [run_call]. intros H Hne.
  destruct (reserve_jit_provider_attempt _ _ _ _ _ _ _ _ _ _ _ _) as [[db1 o]|x] eqn:Hr; [|by injection H as <- <-].
  apply reserve_granted in Hr as [[-> ->]|(? & ? & entry & ? & _ & _ & _ & _ & Ht & -> & ->)];
    injection H as <- <-; [done|].
  destruct entry; [|done]. cbn [put_entry]. by rewrite lookup_insert_ne.
Qed.

Lemma settle_other db r cost status db' a id :
  run_call db (Settle r cost status) = (db', a) ->
  _doc_id (owner_uid r) (run_id r) <> id -> db' !! id = db !! id.
Proof.
  cbn [run_call]. intros H Hne.
  destruct (settle_jit_provider_attempt _ _ _ _) as [[db1 ok]|x] eqn:Hs; injection H as <- <-; [|done].
  apply settle_call in Hs as (c & [d|] & _ & _ & _ & ->); [|done]. cbn [put_entry]. by rewrite lookup_insert_ne.
Qed.

(** A call writes only the document it is about. *)
Lemma run_call_other db c db' a id :
  run_call db c = (db', a) -> call_id c <> id -> db' !! id = db !! id.
Proof. destruct c; [apply reserve_other|apply settle_other]. Qed.

(** The calls that give nothing to the caller. *)
Definition fruitless (a : answer) : Prop :=
  match a with Granted _ | Settled true => False | _ => True end.

(** Reserving while a reservation is active, or on a blocked run. *)
Lemma reserve_busy db owner run version attempts spend p m e token db' a d b :
  run_call db (Reserve owner run version attempts spend p m e token) = (db', a) ->
  db !! _doc_id owner run = Some d -> holds d b -> b_blocked b = true \/ is_Some (b_active b) ->
  db' = db /\ fruitless a.
Proof.
  cbn [run_call]. intros H Hd Hb Hbusy.
  destruct (reserve_jit_provider_attempt _ _ _ _ _ _ _ _ _ _ _ _) as [[db1 o]|x] eqn:Hr; [|by injection H as <- <-].
  apply reserve_granted in Hr as [[-> ->]|(? & ? & entry & ? & _ & _ & _ & _ & Ht & -> & ->)];
    injection H as <- <-; [done|].
  rewrite Hd in Ht. exfalso.
  destruct (reserve_step _ _ _ _ _ _ _ _ _ _ _ _ Hb Ht) as [[_ ?]|(? & _ & _ & _ & Hbl & Hact & _)]; [done|].
  rewrite Hbl, Hact in Hbusy. by destruct Hbusy as [?|[? ?]].
Qed.

(** Settling on a document that holds a budget. *)
Lemma settle_on db r cost status db' a d b :
  run_call db (Settle r cost status) = (db', a) ->
  db !! _doc_id (owner_uid r) (run_id r) = Some d -> holds d b ->
  (db' = db /\ fruitless a) \/
  exists c d' b' reserved card ok,
    checked_cost cost = Ok c /\ status ∈ _KNOWN_STATUSES /\ a = Settled ok /\ b_blocked b = false /\
    b_active b = Some (reservation_token r, reservation_ordinal r, reserved, card) /\
    db' !! _doc_id (owner_uid r) (run_id r) = Some d' /\ holds d' b' /\ settles b reserved c status b' ok.
Proof.
  cbn [run_call]. intros H Hd Hb.
  destruct (settle_jit_provider_attempt _ _ _ _) as [[db1 ok]|x] eqn:Hs; injection H as <- <-; [|by left].
  apply settle_call in Hs as (c & entry & Hst & Hc & Ht & ->). rewrite Hd in Ht.
  destruct (settle_step _ _ r c status Hb) as (e' & ok' & Ht' & Hstep).
  rewrite Ht' in Ht. apply ok_pair in Ht as [-> ->].
  destruct (names_active b r) eqn:Hn.
  - right. destruct Hstep as (d' & b' & reserved & card & Hact & -> & Hd' & Hset).
    unfold names_active in Hn. to_prop. cbn [put_entry].
    exists c, d', b', reserved, card, ok. rewrite lookup_insert_eq. split_and!; done.
  - destruct Hstep as [-> ->]. left. cbn [put_entry]. by rewrite insert_id.
Qed.

Lemma run_call_halted db c db' a id d b :
  run_call db c = (db', a) -> db !! id = Some d -> holds d b -> b_blocked b = true ->
  db' !! id = Some d /\ (call_id c = id -> fruitless a).
Proof.
  intros H Hd Hb Hbl. destruct (decide (call_id c = id)) as [<-|Hne];
    [|split; [by rewrite (run_call_other _ _ _ _ _ H)|done]].
  destruct c as [owner run version attempts spend p m e token|r cost status].
  - destruct (reserve_busy _ _ _ _ _ _ _ _ _ _ _ _ _ _ H Hd Hb) as [-> ?]; auto.
  - destruct (settle_on _ _ _ _ _ _ _ _ H Hd Hb) as [[-> ?]|(? & ? & ? & ? & ? & ? & _ & _ & _ & Hf & _)]; [auto|].
    congruence.
Qed.

Lemma history_halted db l db' id d b :
  history db l db' -> db !! id = Some d -> holds d b -> b_blocked b = true ->
  db' !! id = Some d /\ Forall (fun ca => call_id ca.1 = id -> fruitless ca.2) l.
Proof.
  intros Hh Hd Hb Hbl. induction Hh as [db|db l db1 c db2 a Hh IH Hr]; [done|].
  destruct (IH Hd) as [Hd1 Hl]. destruct (run_call_halted _ _ _ _ _ _ _ Hr Hd1 Hb Hbl) as [Hd2 Ha].
  split; [done|]. apply Forall_app_2; [done|]. by constructor.
Qed.
(** ** The reservation in flight *)

(** The budget of a document in a history that starts empty. *)
Lemma history_holds l db id d :
  history ∅ l db -> db !! id = Some d ->
  exists b, holds d b /\ budget_ok b (total attempts_of id l) (total spend_of id l).
Proof. intros Hb%history_books Hd. specialize (Hb id). by rewrite Hd in Hb. Qed.

(** The run is halted, or the reservation is still the active one. *)
Definition held (db : budgets) (id token : string) (ordinal : Z) : Prop :=
  exists d b, db !! id = Some d /\ holds d b /\
    (b_blocked b = true \/ exists reserved card, b_active b = Some (token, ordinal, reserved, card)).

(** An accepted settlement of the reservation. *)
Definition settled_by (id token : string) (ordinal : Z) (ca : call * answer) : Prop :=
  exists r cost status, ca = (Settle r cost status, Settled true) /\
    _doc_id (owner_uid r) (run_id r) = id /\ reservation_token r = token /\ reservation_ordinal r = ordinal.

Lemma held_step db c db' a id token ordinal :
  run_call db c = (db', a) -> held db id token ordinal ->
  settled_by id token ordinal (c, a) \/ (held db' id token ordinal /\ (call_id c = id -> fruitless a)).
Proof.
  intros H (d & b & Hd & Hb & Hst).
  destruct (decide (call_id c = id)) as [<-|Hne].
  2: { right. split; [|done]. exists d, b. by rewrite (run_call_other _ _ _ _ _ H). }
  destruct Hst as [Hbl|(reserved & card & Hact)].
  { right. destruct (run_call_halted _ _ _ _ _ _ _ H Hd Hb Hbl) as [Hd' ?].
    split; [|done]. exists d, b. auto. }
  destruct c as [owner run version attempts spend p m e tok|r cost status].
  - destruct (reserve_busy _ _ _ _ _ _ _ _ _ _ _ _ _ _ H Hd Hb) as [-> ?]; [rewrite Hact; eauto|].
    right. split; [|done]. exists d, b. eauto 6.
  - destruct (settle_on _ _ _ _ _ _ _ _ H Hd Hb)
      as [[-> ?]|(c & d' & b' & res & card' & ok & _ & _ & -> & _ & Hact' & Hd' & Hb' & Hs)].
    { right. split; [|done]. exists d, b. eauto 6. }
    rewrite Hact in Hact'. injection Hact' as -> -> <- <-.
    destruct Hs as [? ?|? ?|z ? ? ?|z ? ? ? ?]; [left|right..|left].
    1, 4: by exists r, cost, status.
    all: split; [|done]; eexists d', _; split_and!; [done|exact Hb'|by left].
Qed.

Lemma held_history db l db' id token ordinal :
  history db l db' -> held db id token ordinal ->
  Exists (settled_by id token ordinal) l \/
  (held db' id token ordinal /\ Forall (fun ca => call_id ca.1 = id -> fruitless ca.2) l).
Proof.
  intros Hh Hd. induction Hh as [db|db l db1 c db2 a Hh IH Hr]; [auto|].
  destruct (IH Hd) as [Hl|[Hd1 Hl]]; [left; apply Exists_app; auto|].
  destruct (held_step _ _ _ _ _ _ _ Hr Hd1) as [Hs|[Hd2 Ha]].
  - left. apply Exists_app. right. by constructor.
  - right. split; [done|]. apply Forall_app_2; [done|]. by constructor.
Qed.

(** The spend a document has on record. *)
Definition recorded_spend (db : budgets) (id : string) : Z :=
  match db !! id with
  | Some d => match py_get d "settled_spend_micro_usd" with PInt z => z | _ => 0 end
  | None => 0
  end.

Lemma recorded_spend_holds db id d b : db !! id = Some d -> holds d b -> recorded_spend db id = b_spend b.
Proof. intros Hd Hb. unfold recorded_spend, py_get. by rewrite Hd, (holds_spend _ _ Hb). Qed.

(** A granted reservation is the active one, at the amount of its envelope. *)
Lemma granted_state l db c db' r :
  history ∅ l db -> run_call db c = (db', Granted r) ->
  exists owner run version attempts spend p m e token card d b,
    c = Reserve owner run version attempts spend p m e token /\
    call_id c = _doc_id (owner_uid r) (run_id r) /\
    _worst_case_cost_micro_usd file raw p m e = Ok (reserved_micro_usd r, card) /\
    db' !! call_id c = Some d /\ holds d b /\
    b_active b = Some (reservation_token r, reservation_ordinal r, reserved_micro_usd r, card) /\
    names_active b r = true /\ b_spend b = recorded_spend db (call_id c) /\ reservation_token r = token.
Proof.
  intros Hh H. destruct c as [owner run version attempts spend p m e token|r' cost status]; simpl in H.
  2: { by destruct (settle_jit_provider_attempt _ _ _ _) as [[? ?]|?]; injection H. }
  destruct (reserve_jit_provider_attempt _ _ _ _ _ _ _ _ _ _ _ _) as [[db1 o]|x] eqn:Hr; [|discriminate].
  apply reserve_granted in Hr as [[-> ->]|(res & card & entry & ord & Ha & Hs & Hres & Hw & Ht & -> & ->)]; [discriminate|].
  injection H as <- <-. cbn [call_id reservation_token reservation_ordinal reserved_micro_usd owner_uid run_id].
  assert (exists d b, entry = Some d /\ holds d b /\ b_owner b = owner /\ b_run b = run /\ b_version b = version /\
            b_max_attempts b = attempts /\ b_blocked b = false /\ b_active b = Some (token, ord, res, card) /\
            b_spend b = recorded_spend db (_doc_id owner run))
    as (d & b & -> & Hb & Ho & Hru & Hv & Hat & Hbl & Hact & Hsp).
  { destruct (db !! _doc_id owner run) as [d|] eqn:Hd.
    - destruct (history_holds _ _ _ _ Hh Hd) as (b & Hb & _).
      rewrite (reserve_transact_holds _ _ _ _ _ _ _ _ _ _ Hb) in Ht.
      destruct (same_budget _ _ _ _ _ _) eqn:Hsame; [|discriminate]. cbn [negb] in Ht.
      apply same_budget_eq in Hsame as (-> & -> & -> & -> & ->).
      destruct (_ || _ || _ || _); apply ok_pair in Ht as [<- Ho]; [done|]. injection Ho as <-.
      eexists _, (with_reservation b token res card).
      split_and!; [done|hold_fields Hb|done..|]. by rewrite (recorded_spend_holds _ _ _ _ Hd Hb).
    - destruct (reserve_first owner run version attempts spend res card token) as (d & Ht' & Hd'); [lia..|].
      rewrite Ht' in Ht. injection Ht as <- <-. eexists _, _. split_and!; [done|exact Hd'|done..|].
      unfold recorded_spend. by rewrite Hd. }
  exists owner, run, version, attempts, spend, p, m, e, token, card, d, b.
  cbn [put_entry]. rewrite lookup_insert_eq. split_and!; try done.
  unfold names_active. rewrite Ho, Hru, Hv, Hat, Hbl, Hact. cbn.
  by rewrite !String.eqb_refl, !Z.eqb_refl.
Qed.

(** The attempts of a run never overlap: when one attempt is granted after
    another, the earlier one was settled in between by an accepted settlement
    under its own token and ordinal.  An instance that dies with an attempt in
    flight, or that gets no cost for it, keeps every later attempt out. *)
Theorem attempts_do_not_overlap l0 db0 c1 db1 r1 l db2 c2 db3 r2 :
  history ∅ l0 db0 ->
  run_call db0 c1 = (db1, Granted r1) ->
  history db1 l db2 ->
  run_call db2 c2 = (db3, Granted r2) ->
  call_id c1 = call_id c2 ->
  Exists (settled_by (call_id c1) (reservation_token r1) (reservation_ordinal r1)) l.
Proof.
  intros Hh H1 Hl H2 Hid.
  destruct (granted_state _ _ _ _ _ Hh H1) as (? & ? & ? & ? & ? & ? & ? & ? & ? & card & d & b & _ & _ & _ & Hd & Hb & Hact & _ & _ & _).
  assert (held db1 (call_id c1) (reservation_token r1) (reservation_ordinal r1)) as Hheld
    by (exists d, b; eauto 6).
  destruct (held_history _ _ _ _ _ _ Hl Hheld) as [?|[Hheld2 _]]; [done|exfalso].
  destruct (held_step _ _ _ _ _ _ _ H2 Hheld2) as [(? & ? & ? & Heq & _)|[_ Hf]]; [congruence|].
  by apply Hf.
Qed.

(** A settlement that presents the reservation in flight. *)
Lemma settle_named db d b r cost status c :
  db !! _doc_id (owner_uid r) (run_id r) = Some d -> holds d b -> names_active b r = true ->
  status ∈ _KNOWN_STATUSES -> checked_cost cost = Ok c ->
  exists d' b' reserved card ok,
    run_call db (Settle r cost status) = (<[_doc_id (owner_uid r) (run_id r) := d']> db, Settled ok) /\
    b_active b = Some (reservation_token r, reservation_ordinal r, reserved, card) /\
    holds d' b' /\ settles b reserved c status b' ok.
Proof.
  intros Hd Hb Hn Hst Hc. cbn [run_call]. unfold settle_jit_provider_attempt.
  rewrite bool_decide_true by done. cbn [negb]. rewrite Hc. cbn [rbind]. rewrite Hd.
  destruct (settle_step _ _ r c status Hb) as (e & ok & -> & Hstep). rewrite Hn in Hstep.
  destruct Hstep as (d' & b' & reserved & card & Hact & -> & Hd' & Hs). cbn [rbind put_entry]. eauto 10.
Qed.

(** When a settlement is accepted, and that a refused one blocks the run. *)
Lemma settles_verdict b reserved card token o cost status b' ok g p :
  budget_ok b g p -> b_blocked b = false -> b_active b = Some (token, o, reserved, card) ->
  settles b reserved cost status b' ok ->
  (ok = true <-> (status = "released" /\ cost = Some 0) \/
                 (status = "succeeded" /\ exists z, cost = Some z /\ z <= reserved)) /\
  (ok = false -> b_blocked b' = true).
Proof.
  intros [_ _ _ _ _ [_ Hpaid] Hsp _ _] Hbl Hact Hs. rewrite Hbl in Hsp. unfold outstanding in Hpaid. rewrite Hact in Hpaid.
  destruct Hs as [-> ->|Hrel Hu|z -> -> Hz|z -> -> Hz Hlim]; (split; [|done]).
  - split; [by left|done].
  - split; [done|]. intros [?|(-> & z & -> & _)]; [done|]. by destruct Hu.
  - split; [done|]. intros [[? _]|(_ & z' & [= <-] & ?)]; [done|lia].
  - split; [|done]. intros _. right. eauto.
Qed.

(** How a run ends.  A settlement that presents the reservation in flight
    is accepted exactly when it releases an attempt that was never sent, or
    reports a cost within the reserved amount of an attempt that succeeded; in
    every other case (unknown cost, failed or cancelled call, a cost above the
    reservation) it is refused, and from then on nothing is granted or accepted
    for that run and its document never changes again. *)
Theorem refused_settlement_ends_the_run l db d r cost status c m db1 a :
  history ∅ l db ->
  db !! _doc_id (owner_uid r) (run_id r) = Some d ->
  matching_reservation d r = Ok (Some m) ->
  status ∈ _KNOWN_STATUSES -> checked_cost cost = Ok c ->
  run_call db (Settle r cost status) = (db1, a) ->
  exists ok, a = Settled ok /\
    (ok = true <->
       (status = "released" /\ c = Some 0) \/
       (status = "succeeded" /\ exists z reserved, c = Some z /\ z <= reserved /\
          int_in m "reserved_micro_usd" (-1) = Ok reserved)) /\
    (ok = false -> forall l2 db2, history db1 l2 db2 ->
       db2 !! _doc_id (owner_uid r) (run_id r) = db1 !! _doc_id (owner_uid r) (run_id r) /\
       Forall (fun ca => call_id ca.1 = _doc_id (owner_uid r) (run_id r) -> fruitless ca.2) l2).
Proof.
  intros Hh Hd Hm Hst Hc H. destruct (history_holds _ _ _ _ Hh Hd) as (b & Hb & Hok).
  rewrite (matching_reservation_holds _ _ _ Hb) in Hm.
  destruct (names_active b r) eqn:Hn; [|discriminate]. injection Hm as Hm.
  destruct (settle_named _ _ _ _ _ _ _ Hd Hb Hn Hst Hc) as (d' & b' & res & card & ok & Hrun & Hact & Hb' & Hs).
  rewrite Hrun in H. injection H as <- <-. exists ok. split; [done|].
  assert (b_blocked b = false) as Hbl by (unfold names_active in Hn; by to_prop).
  destruct (settles_verdict _ _ _ _ _ _ _ _ _ _ _ Hok Hbl Hact Hs) as [Hv Hstop].
  rewrite Hact in Hm. injection Hm as <-. split.
  - rewrite Hv, reserved_amount. split; (intros [?|[? H]]; [by left|right]); (split; [done|]).
    + destruct H as (z & ? & ?). eauto.
    + destruct H as (z & ? & ? & ? & [= <-]). eauto.
  - intros Hf l2 db2 H2. rewrite lookup_insert_eq.
    eapply history_halted; [done|apply lookup_insert_eq|done|auto].
Qed.
End Histories.

(** ** A run of two attempts *)

Module Demo.
Definition reserve (token : string) : call :=
  Reserve "u1" "run1" "jit-cloud-qa-v1" 3 50000 "openai" "gpt-5.6-sol" (jit_reservation_units 2000 (PInt 100)) token.

Definition reservation (token : string) (ordinal : Z) : JITAttemptReservation :=
  {| owner_uid := "u1"; run_id := "run1"; contract_version := "jit-cloud-qa-v1";
     reservation_ordinal := ordinal; max_attempts := 3; reservation_token := token;
     reserved_micro_usd := 13000 |}.

Definition run (db : budgets) (c : call) : budgets := (run_call card_file demo_cards db c).1.

Definition settle_first : call := Settle (reservation "t1" 1) (PInt 9000) "succeeded".
Definition db1 : budgets := run ∅ (reserve "t1").
Definition db2 : budgets := run db1 settle_first.
Definition db3 : budgets := run db2 (reserve "t2").

Definition history12 : list (call * answer) :=
  [(reserve "t1", Granted (reservation "t1" 1)); (settle_first, Settled true)].

Lemma run_answers db c a :
  (run_call card_file demo_cards db c).2 = a -> run_call card_file demo_cards db c = (run db c, a).
Proof. unfold run. intros <-. apply surjective_pairing. Qed.

Lemma step1 : run_call card_file demo_cards ∅ (reserve "t1") = (db1, Granted (reservation "t1" 1)).
Proof. apply run_answers. by vm_compute. Qed.

Lemma step2 : run_call card_file demo_cards db1 settle_first = (db2, Settled true).
Proof. apply run_answers. by vm_compute. Qed.

Lemma step3 : run_call card_file demo_cards db2 (reserve "t2") = (db3, Granted (reservation "t2" 2)).
Proof. apply run_answers. by vm_compute. Qed.

Lemma one_call db c db' a :
  run_call card_file demo_cards db c = (db', a) -> history card_file demo_cards db [(c, a)] db'.
Proof. intros H. apply (history_snoc _ _ db [] db c db' a); [constructor|done]. Qed.

Lemma two_calls : history card_file demo_cards ∅ history12 db2.
Proof. apply (history_snoc _ _ ∅ [_] db1); [apply one_call, step1|apply step2]. Qed.
End Demo.

Lemma spend_stays_within_budget_witness :
  0 <= total attempts_of (call_id (Demo.reserve "t1")) Demo.history12 <= MAX_ATTEMPTS /\
  0 <= total spend_of (call_id (Demo.reserve "t1")) Demo.history12 <= MAX_SPEND_MICRO_USD.
Proof.
  destruct (spend_stays_within_budget card_file demo_cards Demo.history12 Demo.db2
              (call_id (Demo.reserve "t1")) Demo.two_calls) as (H1 & H2 & _).
  exact (conj H1 H2).
Defined.

Lemma attempts_do_not_overlap_witness :
  Exists (settled_by (call_id (Demo.reserve "t1")) "t1" 1) [(Demo.settle_first, Settled true)].
Proof.
  exact (attempts_do_not_overlap card_file demo_cards [] ∅ (Demo.reserve "t1") Demo.db1 (Demo.reservation "t1" 1)
           [(Demo.settle_first, Settled true)] Demo.db2 (Demo.reserve "t2") Demo.db3 (Demo.reservation "t2" 2)
           (history_nil _ _ _) Demo.step1 (Demo.one_call _ _ _ _ Demo.step2) Demo.step3 eq_refl).
Defined.

(** The stored document after the first grant, read back. *)
Definition demo_document : doc := default ∅ (Demo.db1 !! call_id (Demo.reserve "t1")).

Lemma demo_document_stored :
  Demo.db1 !! _doc_id (owner_uid (Demo.reservation "t1" 1)) (run_id (Demo.reservation "t1" 1)) = Some demo_document.
Proof.
  assert (is_Some (Demo.db1 !! call_id (Demo.reserve "t1"))) as [d Hd] by decided.
  unfold demo_document. rewrite Hd. exact Hd.
Qed.

Definition demo_failure : budgets * answer :=
  run_call card_file demo_cards Demo.db1 (Settle (Demo.reservation "t1" 1) PNone "failed").

Lemma refused_settlement_ends_the_run_witness :
  exists ok, demo_failure.2 = Settled ok /\
    (ok = false ->
     forall l2 db2, history card_file demo_cards demo_failure.1 l2 db2 ->
       Forall (fun ca => call_id ca.1 = _doc_id "u1" "run1" -> fruitless ca.2) l2).
Proof.
  edestruct (refused_settlement_ends_the_run card_file demo_cards [(Demo.reserve "t1", Granted (Demo.reservation "t1" 1))]
               Demo.db1 demo_document (Demo.reservation "t1" 1) PNone "failed" None
               (reservation_fields "t1" 1 13000 "openai.gpt-5.6-sol.2026-07-30") demo_failure.1 demo_failure.2)
    as (ok & Ha & _ & Hstop).
  { apply Demo.one_call, Demo.step1. }
  { apply demo_document_stored. }
  { vm_compute. reflexivity. }
  { decided. }
  { reflexivity. }
  { apply surjective_pairing. }
  exists ok. split; [exact Ha|]. intros Hok l2 db2 Hh. exact (proj2 (Hstop Hok l2 db2 Hh)).
Defined.
