(* ===== verification/JitAttempt.v ===== *)
(** One provider attempt of a budgeted run, from its reservation to its receipt
    ([_attempt_provider] in [llm_gateway/gateway/executor.py]), and what ties
    the price of a reservation, the settled spend and the receipt together. *)
From S2P Require Export JitBudgetOps.

(** ** The attempt *)

(** What the provider call ends with. *)
Inductive provider_outcome : Type :=
| Responded (m : ProviderResponseMetadata)
| ProviderFailed (failure_class : string)
| Cancelled
| UnexpectedError.

(** What the attempt ends with: the response, an error for the caller, or the
    exception raised again.  [MappedFailure] is the error the failure class is
    mapped to. *)
Inductive attempt_answer : Type :=
| Response (m : ProviderResponseMetadata)
| InvalidRequest (msg : string)
| DeadlineExhausted
| MappedFailure (failure_class : string)
| Reraised.

Record attempt_request : Type := {
  route_provider : string;
  route_model : string;
  route_id : string;
  route_fallback : option string;
  jit_owner : string;
  jit_run : string;
  jit_version : string;
  max_provider_attempts : Z;
  jit_max_spend : option Z;
  request_bytes : Z;
  output_limit : pyval;
}.

Section Attempt.
Context (file : string) (raw : pyval).

(** [attempt_trace.record] for this attempt; its retry ordinal is 1, since every
    path of a budgeted attempt returns from the first iteration of the loop. *)
Definition record_outcome (q : attempt_request) (trace : AttemptTrace) (outcome error_class : string)
    (metadata : option ProviderResponseMetadata) (status : option UsageStatus) : AttemptTrace :=
  (record_attempt trace (route_provider q) (route_model q) (Some (route_id q)) (route_fallback q) 1
     outcome error_class metadata status).1.

(** Settle a call that gave no usable response. *)
Definition settle_without_cost (db : budgets) (r : JITAttemptReservation) (q : attempt_request)
    (status : string) : budgets :=
  match settle_jit_attempt file raw db (Some r) (route_provider q) (route_model q) None status false with
  | Ok (db', _) => db'
  | Raise _ => db
  end.

(** After the reservation: the deadline, the provider call, the settlement. *)
Definition call_provider (db : budgets) (r : JITAttemptReservation) (trace : AttemptTrace)
    (q : attempt_request) (timeout_ms : Z) (outcome : provider_outcome)
    : budgets * AttemptTrace * attempt_answer :=
  let settle := settle_jit_attempt file raw db (Some r) (route_provider q) (route_model q) in
  let unexpected :=
    (settle_without_cost db r q "failed",
     record_outcome q trace "error" "unexpected_provider_error" None (Some USAGE_INDETERMINATE), Reraised) in
  if timeout_ms <=? 0 then
    match settle None "released" true with
    | Ok (db', true) => (db', trace, DeadlineExhausted)
    | Ok (db', false) => (db', trace, InvalidRequest "JIT provider budget settlement rejected")
    | Raise _ => (db, trace, Reraised)
    end
  else
    match outcome with
    | Responded m =>
        match settle (Some m) "succeeded" false with
        | Ok (db', true) => (db', record_outcome q trace "success" "none" (Some m) None, Response m)
        | Ok (db', false) =>
            (db', record_outcome q trace "error" "jit_budget_settlement_failed" (Some m)
                    (Some (confirmed_when_reported m)),
             InvalidRequest "JIT provider budget settlement rejected")
        | Raise _ => unexpected
        end
    | ProviderFailed class =>
        (settle_without_cost db r q "failed",
         record_outcome q trace "error" class None (Some USAGE_INDETERMINATE), MappedFailure class)
    | Cancelled =>
        (settle_without_cost db r q "cancelled",
         record_outcome q trace "cancelled" "client_cancelled" None (Some USAGE_INDETERMINATE), Reraised)
    | UnexpectedError => unexpected
    end.

(** [_attempt_provider] for a request with a run id: [deadline_passed] is the
    reading before the reservation, [timeout_ms] the time left after it, and
    [token] the one drawn for the reservation. *)
Definition _attempt_provider (db : budgets) (trace : AttemptTrace) (q : attempt_request)
    (deadline_passed : bool) (token : string) (timeout_ms : Z) (outcome : provider_outcome)
    : budgets * AttemptTrace * attempt_answer :=
  if max_provider_attempts q <=? Z.of_nat (length trace)
  then (db, trace, InvalidRequest "JIT provider attempt budget exhausted") else
  if deadline_passed then (db, trace, DeadlineExhausted) else
  match reserve_jit_provider_attempt file raw db (jit_owner q) (jit_run q) (jit_version q)
          (max_provider_attempts q) (int_or (default 0 (jit_max_spend q)) 50000)
          (route_provider q) (route_model q) (jit_reservation_units (request_bytes q) (output_limit q)) token with
  | Raise (ValueError msg) => (db, trace, InvalidRequest msg)
  | Raise _ => (db, trace, InvalidRequest "JIT budget authority unavailable")
  | Ok (db', None) => (db', trace, InvalidRequest "JIT provider attempt budget exhausted")
  | Ok (db', Some r) => call_provider db' r trace q timeout_ms outcome
  end.
End Attempt.

(** ** Bills and reservations *)

(** No count is negative. *)
Record usage_ok (u : ProviderUsage) : Prop := {
  u_uncached : 0 <= uncached_input_tokens u;
  u_cached : 0 <= cached_input_tokens u;
  u_write : 0 <= cache_write_tokens u;
  u_output : 0 <= output_tokens u;
  u_reasoning : 0 <= reasoning_tokens u;
}.

Lemma nested_count_nonneg v k : 0 <= nested_count v k.
Proof. unfold nested_count. destruct (as_mapping v); [apply nonnegative_int_nonneg|lia]. Qed.

#[export] Hint Resolve nested_count_nonneg : remi.

(** Whatever a provider reports, the counts taken from it are not negative. *)
Lemma openai_usage_ok raw requested : usage_ok (_openai_usage raw requested).
Proof.
  split; simpl; auto with remi; [lia|]. apply Z.min_glb; auto with remi.
Qed.

Lemma anthropic_usage_ok raw requested ttl : usage_ok (anthropic_usage raw requested ttl).
Proof. split; simpl; auto with remi; lia. Qed.

Lemma vertex_usage_ok raw : usage_ok (vertex_usage raw).
Proof.
  split; simpl; auto with remi; try lia. apply Z.min_glb; auto with remi.
Qed.

Lemma write_rate_nonneg rates ttl w : tier_ok rates -> write_rate rates ttl = Some w -> 0 <= w.
Proof. intros []. unfold write_rate. case_bool_decide; eauto. Qed.

Lemma bill_numerator_le u rates ttl n out :
  tier_ok rates -> usage_ok u -> context_tokens u <= n -> billable_output_tokens u <= out ->
  cached_input_micro_usd_per_million rates <= input_micro_usd_per_million rates ->
  cache_write_tokens u = 0 \/
    (forall w, write_rate rates ttl = Some w -> w <= input_micro_usd_per_million rates) ->
  bill_numerator u rates (write_rate rates ttl) <=
    n * input_micro_usd_per_million rates + out * output_micro_usd_per_million rates.
Proof.
  intros [Hi Hc Ho _ _] [Hu Hcc Hw _ _] Hn Hout Hcached Hwrite. unfold bill_numerator, context_tokens in *.
  set (i := input_micro_usd_per_million rates) in *. set (c := cached_input_micro_usd_per_million rates) in *.
  set (o := output_micro_usd_per_million rates) in *.
  assert (match write_rate rates ttl with Some w => cache_write_tokens u * w | None => 0 end
          <= cache_write_tokens u * i) as Hwr.
  { destruct Hwrite as [->|Hwrite]; destruct (write_rate rates ttl) as [w|]; try lia.
    apply Z.mul_le_mono_nonneg_l; [done|]. by apply Hwrite. }
  assert (cached_input_tokens u * c <= cached_input_tokens u * i) by (by apply Z.mul_le_mono_nonneg_l).
  assert (billable_output_tokens u * o <= out * o) by (by apply Z.mul_le_mono_nonneg_r).
  assert ((uncached_input_tokens u + cached_input_tokens u + cache_write_tokens u) * i <= n * i)
    by (by apply Z.mul_le_mono_nonneg_r).
  lia.
Qed.

(** A price above [0] halves to at most itself. *)
Lemma share_le flex n m : 0 <= m -> n <= m -> traffic_share flex n <= m.
Proof. destruct flex; simpl; intros; [|done]. Z.to_euclidean_division_equations; lia. Qed.

(** Up to its threshold a card has one tier. *)
Lemma effective_rates_short card n :
  (forall t, long_context_threshold_tokens card = Some t -> n <= t) -> effective_rates card n = short_tier card.
Proof.
  intros Ht. unfold effective_rates. destruct (long_context_threshold_tokens card) as [t|]; [|done].
  destruct (long_context_input card); [|done]. by rewrite (proj2 (Z.ltb_ge t n)) by auto.
Qed.

Section Prices.
Context (file : string) (raw : pyval).

Lemma nonnegative_up_to_ok z name maximum n :
  nonnegative_up_to (PInt z) name maximum = Ok n -> n = z /\ 0 <= z <= maximum.
Proof.
  unfold nonnegative_up_to. destruct ((z <? 0) || (maximum <? z)) eqn:H; [discriminate|].
  intros [= <-]. to_prop. lia.
Qed.

(** The price of an envelope. *)
Lemma worst_case_price p m e reserved id :
  _worst_case_cost_micro_usd file raw p m e = Ok (reserved, id) ->
  exists card, rate_card_for file raw p m = Ok (Some card) /\
    0 <= input_tokens e /\ 0 <= cached_tokens e /\ 0 <= answer_tokens e <= MAX_OUTPUT_TOKENS /\
    0 <= write_tokens e /\ input_tokens e + cached_tokens e + write_tokens e <= MAX_INPUT_TOKENS /\
    let rates := effective_rates card (input_tokens e + cached_tokens e + write_tokens e) in
    reserved = Z.max (rounded_micro_usd (envelope_numerator e rates (write_rate rates (cache_ttl e)))) 0.
Proof.
  unfold _worst_case_cost_micro_usd. intros H.
  apply rbind_ok in H as (x1 & [-> R1]%nonnegative_up_to_ok & H).
  apply rbind_ok in H as (x2 & [-> R2]%nonnegative_up_to_ok & H).
  apply rbind_ok in H as (x3 & [-> R3]%nonnegative_up_to_ok & H).
  apply rbind_ok in H as (x4 & [-> R4]%nonnegative_up_to_ok & H).
  destruct (negb _); [discriminate|]. destruct (Z.ltb_spec MAX_INPUT_TOKENS (input_tokens e + cached_tokens e + write_tokens e)); [discriminate|].
  apply rbind_ok in H as ([card|] & Hc & H); [|discriminate].
  destruct (negb (write_tokens e =? 0) && _); [discriminate|]. apply ok_pair in H as [<- _].
  exists card. split_and!; done || lia.
Qed.

(** The estimate of an attempt that Omi pays for. *)
Lemma omi_estimate p m metadata u cost :
  estimated_provider_cost_micro_usd file raw "omi" p m metadata = Ok (ESTIMATED, Some cost) ->
  usage metadata = Some u -> unit_type u = "tokens" ->
  exists card, rate_card_for file raw p m = Ok (Some card) /\
    let rates := effective_rates card (context_tokens u) in
    cost = rounded_micro_usd (traffic_share (flex_traffic p (traffic_type metadata))
             (bill_numerator u rates (write_rate rates (cache_write_ttl u)))).
Proof.
  unfold estimated_provider_cost_micro_usd. intros H Hu Ht.
  apply rbind_ok in H as (e & He & H). apply ok_pair in H as [Hs Hc]. rewrite Hu in He.
  destruct (estimate_cost_tokens _ _ _ _ _ _ _ _ _ He Hs Ht) as (card & Hcard & Hest).
  apply estimate_tokens_priced in Hest as (_ & Hcost & _); [|done].
  exists card. split; [done|]. rewrite Hc in Hcost. by injection Hcost.
Qed.

(** On a card with one tier up to the input ceiling: what the executor reserves
    for a request, and what a response costs. *)
Section OneTier.
Context (p m : string) (card : RateCard).
Context (Hcard : rate_card_for file raw p m = Ok (Some card)).
Context (Hthr : forall t, long_context_threshold_tokens card = Some t -> MAX_INPUT_TOKENS <= t).

Lemma one_tier n : n <= MAX_INPUT_TOKENS -> effective_rates card n = short_tier card.
Proof. intros Hn. apply effective_rates_short. intros t Ht. specialize (Hthr t Ht). lia. Qed.

Lemma one_tier_ok : tier_ok (short_tier card).
Proof. rewrite <- (one_tier 0) by done. eauto with remi. Qed.

Lemma reserved_price bytes limit reserved id :
  _worst_case_cost_micro_usd file raw p m (jit_reservation_units bytes limit) = Ok (reserved, id) ->
  let out := answer_tokens (jit_reservation_units bytes limit) in
  bytes <= MAX_INPUT_TOKENS /\ 0 <= out /\
  reserved = rounded_micro_usd (Z.max bytes 1 * card_input card + out * card_output card).
Proof.
  intros H. destruct (worst_case_price _ _ _ _ _ H) as (card' & Hc & _ & _ & Hout & _ & Hmax & ->).
  rewrite Hcard in Hc. injection Hc as <-. destruct one_tier_ok as [Hi _ Ho _ _]. simpl in Hi, Ho.
  cbn [jit_reservation_units input_tokens cached_tokens write_tokens cache_ttl] in Hmax |- *.
  rewrite !Z.add_0_r in *. rewrite one_tier by done. set (out := answer_tokens _) in *. cbn zeta.
  split_and!; [lia|lia|].
  assert (envelope_numerator (jit_reservation_units bytes limit) (short_tier card)
            (write_rate (short_tier card) None) = Z.max bytes 1 * card_input card + out * card_output card) as ->.
  { unfold envelope_numerator. fold out.
    cbn [jit_reservation_units input_tokens cached_tokens write_tokens short_tier
         input_micro_usd_per_million cached_input_micro_usd_per_million output_micro_usd_per_million].
    destruct (write_rate (short_tier card) None); lia. }
  apply Z.max_l, rounded_nonneg. nia.
Qed.

Lemma response_price metadata u cost :
  estimated_provider_cost_micro_usd file raw "omi" p m metadata = Ok (ESTIMATED, Some cost) ->
  usage metadata = Some u -> unit_type u = "tokens" -> context_tokens u <= MAX_INPUT_TOKENS ->
  cost = rounded_micro_usd (traffic_share (flex_traffic p (traffic_type metadata))
           (bill_numerator u (short_tier card) (write_rate (short_tier card) (cache_write_ttl u)))).
Proof.
  intros H Hu Ht Hctx. destruct (omi_estimate _ _ _ _ _ H Hu Ht) as (card' & Hc & ->).
  rewrite Hcard in Hc. injection Hc as <-. cbn zeta. by rewrite one_tier.
Qed.
End OneTier.

(** The amount reserved for an attempt covers its bill: when the response
    used no more input tokens than the request has bytes and no more output
    than it asked for, and reading or writing the cache is not dearer than
    ordinary input, the estimated cost is at most the reserved one, whatever
    the split of the input between fresh, cached and written tokens. *)
Theorem reservation_covers_bill p m metadata u cost bytes limit reserved id card :
  _worst_case_cost_micro_usd file raw p m (jit_reservation_units bytes limit) = Ok (reserved, id) ->
  estimated_provider_cost_micro_usd file raw "omi" p m metadata = Ok (ESTIMATED, Some cost) ->
  usage metadata = Some u -> unit_type u = "tokens" -> usage_ok u ->
  context_tokens u <= bytes ->
  billable_output_tokens u <= answer_tokens (jit_reservation_units bytes limit) ->
  rate_card_for file raw p m = Ok (Some card) ->
  (forall t, long_context_threshold_tokens card = Some t -> MAX_INPUT_TOKENS <= t) ->
  card_cached_input card <= card_input card ->
  cache_write_tokens u = 0 \/
    (forall w, write_rate (short_tier card) (cache_write_ttl u) = Some w -> w <= card_input card) ->
  cost <= reserved.
Proof.
  intros Hr Hc Hu Ht Hok Hctx Hout Hcard Hthr Hcached Hwrite.
  destruct (reserved_price _ _ _ Hcard Hthr _ _ _ _ Hr) as (Hmax & Hout0 & ->).
  rewrite (response_price _ _ _ Hcard Hthr _ _ _ Hc Hu Ht) by lia.
  pose proof (one_tier_ok _ _ _ Hcard Hthr) as Htier.
  apply rounded_mono, share_le.
  - destruct Htier as [Hi _ Ho _ _]. simpl in Hi, Ho. nia.
  - apply (bill_numerator_le u (short_tier card) (cache_write_ttl u)); done || lia.
Qed.

(** Pricing the whole request as uncached input is not the worst case: on
    a card whose cache-write rate exceeds its input rate, a response that wrote
    its whole input to the cache costs more than the attempt reserved, although
    it used no more tokens than the request has bytes.  The settlement of the
    successful call is then refused, and the run is blocked. *)
Theorem cache_write_outruns_reservation l db owner run version attempts spend p m bytes limit token db1 r
    metadata u cost card w :
  history file raw ∅ l db ->
  run_call file raw db
    (Reserve owner run version attempts spend p m (jit_reservation_units bytes limit) token) = (db1, Granted r) ->
  estimated_provider_cost_micro_usd file raw "omi" p m metadata = Ok (ESTIMATED, Some cost) ->
  usage metadata = Some u -> unit_type u = "tokens" -> flex_traffic p (traffic_type metadata) = false ->
  uncached_input_tokens u = 0 -> cached_input_tokens u = 0 -> cache_write_tokens u = bytes ->
  cache_write_ttl u <> Some "1h" ->
  billable_output_tokens u = answer_tokens (jit_reservation_units bytes limit) ->
  rate_card_for file raw p m = Ok (Some card) -> card_cache_write card = Some w ->
  (forall t, long_context_threshold_tokens card = Some t -> MAX_INPUT_TOKENS <= t) ->
  1 <= bytes -> TOKENS_PER_MILLION <= bytes * (w - card_input card) ->
  reserved_micro_usd r < cost /\
  exists db2 d2, run_call file raw db1 (Settle r (PInt cost) "succeeded") = (db2, Settled false) /\
    db2 !! _doc_id owner run = Some d2 /\ py_get d2 "blocked" = PBool true.
Proof.
  intros Hh Hrun Hc Hu Ht Hflex Hu0 Hc0 Hw0 Httl Hout Hcard Hw Hthr Hbytes Hprem.
  destruct (granted_state _ _ _ _ _ _ _ Hh Hrun)
    as (? & ? & ? & ? & ? & ? & ? & ? & ? & id & d & b & Hcall & Hid & Hworst & Hd & Hb & Hact & Hn & _ & _).
  injection Hcall as <- <- <- <- <- <- <- <- <-. cbn [call_id] in Hid. 
  destruct (reserved_price _ _ _ Hcard Hthr _ _ _ _ Hworst) as (Hmax & Hout0 & Hres).
  assert (reserved_micro_usd r < cost) as Hlt.
  { rewrite Hres, (response_price _ _ _ Hcard Hthr _ _ _ Hc Hu Ht) by (unfold context_tokens; lia).
    apply rounded_grows. rewrite Hflex. unfold bill_numerator, write_rate.
    rewrite bool_decide_false, Hu0, Hc0, Hw0, Hout by done. cbn [short_tier cache_write_micro_usd_per_million].
    rewrite Hw. simpl (output_micro_usd_per_million _). cbn [traffic_share]. lia. }
  split; [done|].
  pose proof (one_tier_ok _ _ _ Hcard Hthr) as [Hi _ Ho _ _]. simpl in Hi, Ho.
  assert (0 <= reserved_micro_usd r) by (rewrite Hres; apply rounded_nonneg; nia).
  cbn [call_id] in Hd. rewrite Hid in Hd |- *.
  destruct (settle_named file raw db1 d b r (PInt cost) "succeeded" (Some cost) Hd Hb Hn)
    as (d2 & b2 & res & card' & ok & -> & Hact' & Hb2 & Hs); [decided| |].
  { simpl. by rewrite (proj2 (Z.ltb_ge cost 0)) by lia. }
  rewrite Hact in Hact'. injection Hact' as <- <-.
  assert (ok = false /\ b_blocked b2 = true) as [-> Hbl].
  { destruct Hs as [? _|_ _|c _ _ _|c Hc' _ Hle _]; [discriminate|done|done|].
    injection Hc' as <-. lia. }
  eexists _, d2. split; [done|]. rewrite lookup_insert_eq. split; [done|].
  unfold py_get. by rewrite (holds_blocked _ _ Hb2), Hbl.
Qed.
End Prices.

(** ** Settlement by the executor *)

Section Settlement.
Context (file : string) (raw : pyval).

(** A settlement by the executor is a call, or leaves the store alone. *)
Lemma settle_jit_attempt_call db r p m metadata status release db' ok :
  settle_jit_attempt file raw db (Some r) p m metadata status release = Ok (db', ok) ->
  exists cost, settlement_cost file raw p m metadata release = Ok cost /\
    (run_call file raw db (Settle r cost status) = (db', Settled ok) \/ (db' = db /\ ok = false)).
Proof.
  unfold settle_jit_attempt. destruct (release && _); [discriminate|]. intros H.
  apply rbind_ok in H as (cost & Hc & H). exists cost. split; [done|]. cbn [run_call].
  destruct (settle_jit_provider_attempt db r cost status) as [[db1 ok1]|x]; injection H as <- <-; auto.
Qed.

Lemma settle_release_never_raises db r p m x :
  settle_jit_attempt file raw db (Some r) p m None "released" true <> Raise x.
Proof. unfold settle_jit_attempt. cbn. by destruct (settle_jit_provider_attempt _ _ _ _). Qed.

(** A settlement without a cost is never accepted. *)
Lemma settle_unknown_refused db r status db' ok :
  run_call file raw db (Settle r PNone status) = (db', Settled ok) -> ok = true ->
  forall id token ordinal, held db id token ordinal -> id = _doc_id (owner_uid r) (run_id r) -> False.
Proof.
  intros H -> id token ordinal (d & b & Hd & Hb & _) ->.
  destruct (settle_on _ _ _ _ _ _ _ _ _ _ H Hd Hb)
    as [[_ ?]|(c & d' & b' & res & card & ok & Hc & _ & Hok & _ & _ & _ & _ & Hs)]; [done|].
  injection Hok as <-. injection Hc as <-. by apply settles_accepted in Hs as [(_ & ? & _)|(_ & ? & ? & _)].
Qed.

(** After a refused settlement the run is halted or the attempt is in flight. *)
Lemma refused_held db r p m metadata status release db' ordinal token :
  let id := _doc_id (owner_uid r) (run_id r) in
  settle_jit_attempt file raw db (Some r) p m metadata status release = Ok (db', false) ->
  held db id token ordinal -> held db' id token ordinal.
Proof.
  cbn zeta. intros H Hheld. apply settle_jit_attempt_call in H as (cost & _ & [H|[-> _]]); [|done].
  by destruct (held_step _ _ _ _ _ _ _ _ _ H Hheld) as [(? & ? & ? & [=] & _)|[? _]].
Qed.

Lemma settle_without_cost_held db r q status ordinal token :
  let id := _doc_id (owner_uid r) (run_id r) in
  held db id token ordinal -> held (settle_without_cost file raw db r q status) id token ordinal.
Proof.
  cbn zeta. intros Hheld. unfold settle_without_cost.
  destruct (settle_jit_attempt _ _ _ _ _ _ _ _ _) as [[db' ok]|x] eqn:H; [|done].
  destruct ok; [exfalso|by eapply refused_held].
  apply settle_jit_attempt_call in H as (cost & [= <-] & [H|[_ ?]]); [|done].
  by eapply (settle_unknown_refused _ _ _ _ _ H).
Qed.

(** A priced response that settles adds its cost to the recorded spend. *)
Lemma accepted_response_spend db r p m metadata db' d b :
  let id := _doc_id (owner_uid r) (run_id r) in
  settle_jit_attempt file raw db (Some r) p m (Some metadata) "succeeded" false = Ok (db', true) ->
  db !! id = Some d -> holds d b ->
  exists cost, estimated_provider_cost_micro_usd file raw "omi" p m metadata = Ok (ESTIMATED, Some cost) /\
    recorded_spend db' id = b_spend b + cost.
Proof.
  cbn zeta. intros H Hd Hb. apply settle_jit_attempt_call in H as (v & Hv & [H|[_ ?]]); [|done].
  destruct (settle_on _ _ _ _ _ _ _ _ _ _ H Hd Hb)
    as [[_ ?]|(c & d' & b' & res & card & ok & Hc & _ & Hok & _ & _ & Hd' & Hb' & Hs)]; [done|].
  injection Hok as <-. unfold settlement_cost in Hv. apply rbind_ok in Hv as ([st est] & Hest & Hv).
  apply settles_accepted in Hs as [(? & _)|(_ & z & -> & ->)]; [done|].
  exists z. rewrite (recorded_spend_holds _ _ _ _ Hd' Hb'). split; [|done].
  destruct st, est as [e|]; injection Hv as <-; try discriminate.
  simpl in Hc. destruct (e <? 0); [discriminate|]. injection Hc as ->. done.
Qed.

(** A release costs nothing. *)
Lemma release_spend db r p m db' ok d b :
  let id := _doc_id (owner_uid r) (run_id r) in
  settle_jit_attempt file raw db (Some r) p m None "released" true = Ok (db', ok) ->
  db !! id = Some d -> holds d b -> recorded_spend db' id = b_spend b.
Proof.
  cbn zeta. intros H Hd Hb. apply settle_jit_attempt_call in H as (v & [= <-] & [H|[-> _]]);
    [|by apply (recorded_spend_holds _ _ _ _ Hd Hb)].
  destruct (settle_on _ _ _ _ _ _ _ _ _ _ H Hd Hb)
    as [[-> _]|(c & d' & b' & res & card & ok' & Hc & _ & _ & _ & _ & Hd' & Hb' & Hs)];
    [by apply (recorded_spend_holds _ _ _ _ Hd Hb)|].
  injection Hc as <-. rewrite (recorded_spend_holds _ _ _ _ Hd' Hb').
  destruct Hs as [_ _|_ _|z Hs _ _|z _ Hs _ _]; [simpl; lia..|discriminate|discriminate].
Qed.
End Settlement.

(** ** The attempt as a whole *)

Section WholeAttempt.
Context (file : string) (raw : pyval).

(** The receipt of a trace of one attempt carries the estimate of that
    attempt's metadata. *)
Lemma receipt_of_one ctx q m outcome class status clock st cost :
  payer ctx = "omi" -> is_Some (nonempty (jit_run_id ctx)) -> is_Some (nonempty (jit_contract_version ctx)) ->
  default (confirmed_when_reported m) status = confirmed_when_reported m ->
  estimated_provider_cost_micro_usd file raw "omi" (route_provider q) (route_model q) m = Ok (st, cost) ->
  exists rc, jit_gateway_receipt_for_trace file raw ctx (record_outcome q [] outcome class (Some m) status) clock
               = Ok (Some rc) /\
    aggregate_cost_micro_usd (receipt_aggregate rc)
      = (if bool_decide (st = ESTIMATED) && bool_decide (is_Some cost) then cost else None) /\
    cost_is_known (receipt_aggregate rc) = bool_decide (st = ESTIMATED) && bool_decide (is_Some cost).
Proof.
  intros Hp [run Hrun] [version Hversion] Hst Hest.
  unfold estimated_provider_cost_micro_usd in Hest. apply rbind_ok in Hest as (e & He & Hest).
  apply ok_pair in Hest as [<- <-].
  assert (jit_run_id ctx = Some run /\ String.eqb run "" = false) as [Hid Hne].
  { destruct (jit_run_id ctx) as [x|]; simpl in Hrun; [|done]. destruct (String.eqb x "") eqn:?; by simplify_eq. }
  unfold jit_gateway_receipt_for_trace. rewrite Hrun, Hversion.
  unfold record_outcome, record_attempt. cbn [fst app events_of_trace]. unfold build_accounting_event.
  cbn [attempt_provider configured_model attempt_usage usage_status attempt_traffic_type default from_option id].
  change (from_option id (confirmed_when_reported m) status) with (default (confirmed_when_reported m) status).
  rewrite Hp, Hst, He. cbn [rbind apply_priced].
  unfold aggregate_accounting_events. cbn [List.filter]. unfold has_run_id, event_run_id.
  cbn [event_context]. rewrite Hid, Hne. cbn [negb omap list_omap event_context]. rewrite Hid.
  cbn [remove_dups rbind]. eexists. split; [reflexivity|].
  cbn [receipt_aggregate aggregate_cost_micro_usd forallb]. unfold cost_is_known, event_cost_known.
  cbn [aggregate_cost_micro_usd aggregate_cost_status event_cost_status estimated_cost_micro_usd sum_over foldr].
  destruct (cost_status e), (estimated_cost e) as [z|]; cbn; rewrite ?Z.add_0_r; done.
Qed.

(** Whatever happens after the reservation, the attempt in flight was settled or
    still keeps the run to itself. *)
Lemma call_provider_cases db r q timeout_ms outcome db' trace' answer ordinal token :
  let id := _doc_id (owner_uid r) (run_id r) in
  call_provider file raw db r [] q timeout_ms outcome = (db', trace', answer) ->
  held db id token ordinal ->
  (exists m, answer = Response m /\ trace' = record_outcome q [] "success" "none" (Some m) None /\
     settle_jit_attempt file raw db (Some r) (route_provider q) (route_model q) (Some m) "succeeded" false
       = Ok (db', true)) \/
  (trace' = [] /\ (forall m, answer <> Response m) /\
     exists ok, settle_jit_attempt file raw db (Some r) (route_provider q) (route_model q) None "released" true
       = Ok (db', ok)) \/
  (trace' <> [] /\ (forall m, answer <> Response m) /\ held db' id token ordinal).
Proof.
  cbn zeta. intros H Hheld. unfold call_provider in H.
  destruct (timeout_ms <=? 0).
  - destruct (settle_jit_attempt _ _ _ _ _ _ _ _ _) as [[db1 ok]|x] eqn:Hs.
    + right. left. destruct ok; injection H as <- <- <-; eauto.
    + by apply settle_release_never_raises in Hs.
  - assert (Hwithout : forall status, held (settle_without_cost file raw db r q status)
                          (_doc_id (owner_uid r) (run_id r)) token ordinal)
      by (intros; by apply settle_without_cost_held).
    destruct outcome as [m|class| |]; [|injection H as <- <- <-; right; right; split_and!; done || apply Hwithout..].
    destruct (settle_jit_attempt _ _ _ _ _ _ _ _ _) as [[db1 [|]]|x] eqn:Hs; injection H as <- <- <-.
    + left. eauto.
    + right. right. split_and!; [done|done|by eapply refused_held].
    + right. right. split_and!; done || apply Hwithout.
Qed.
Lemma reserve_identity db owner run version attempts spend p m e token a :
  reserve_jit_provider_attempt file raw db owner run version attempts spend p m e token = Ok a ->
  nonempty (Some run) = Some run /\ nonempty (Some version) = Some version.
Proof.
  unfold reserve_jit_provider_attempt, nonempty.
  destruct (String.eqb owner ""), (String.eqb run ""), (String.eqb version ""); done.
Qed.

(** The attempt up to its reservation. *)
Lemma attempt_cases db q passed token timeout_ms outcome db' trace' answer :
  _attempt_provider file raw db [] q passed token timeout_ms outcome = (db', trace', answer) ->
  (db' = db /\ trace' = [] /\ forall m, answer <> Response m) \/
  exists spend db1 r,
    run_call file raw db (Reserve (jit_owner q) (jit_run q) (jit_version q) (max_provider_attempts q) spend
      (route_provider q) (route_model q) (jit_reservation_units (request_bytes q) (output_limit q)) token)
      = (db1, Granted r) /\
    nonempty (Some (jit_run q)) = Some (jit_run q) /\ nonempty (Some (jit_version q)) = Some (jit_version q) /\
    call_provider file raw db1 r [] q timeout_ms outcome = (db', trace', answer).
Proof.
  unfold _attempt_provider. change (Z.of_nat (length ([] : AttemptTrace))) with 0.
  destruct (max_provider_attempts q <=? 0); [intros H; injection H as <- <- <-; auto|].
  destruct passed; [intros H; injection H as <- <- <-; auto|].
  set (spend := int_or _ _).
  destruct (reserve_jit_provider_attempt _ _ _ _ _ _ _ _ _ _ _ _) as [[db1 [r|]]|x] eqn:Hr; intros H.
  - right. exists spend, db1, r. cbn [run_call]. rewrite Hr. apply reserve_identity in Hr as [? ?]. done.
  - left. injection H as <- <- <-. by apply reserve_granted in Hr as [[-> _]|(? & ? & ? & ? & _ & _ & _ & _ & _ & _ & ?)].
  - left. destruct x; by injection H as <- <- <-.
Qed.

(** Every attempt of a budgeted run is paid for, free, or the last.  A
    response reaches the caller only when its price was accepted, and then the
    receipt of the request states exactly the amount by which the recorded
    spend of the run grew.  An attempt whose provider was not called adds
    nothing.  Any other attempt (a failed, cancelled or unpriced call, a
    refused settlement) leaves the run closed: no later call of any instance
    is granted or accepted, unless it settles this very attempt by its token. *)
Theorem attempt_is_paid_or_fatal l db q passed token timeout_ms outcome db' trace' answer ctx clock :
  history file raw ∅ l db ->
  _attempt_provider file raw db [] q passed token timeout_ms outcome = (db', trace', answer) ->
  payer ctx = "omi" -> jit_run_id ctx = Some (jit_run q) -> jit_contract_version ctx = Some (jit_version q) ->
  let id := _doc_id (jit_owner q) (jit_run q) in
  (exists m rc cost, answer = Response m /\
     jit_gateway_receipt_for_trace file raw ctx trace' clock = Ok (Some rc) /\
     cost_is_known (receipt_aggregate rc) = true /\
     aggregate_cost_micro_usd (receipt_aggregate rc) = Some cost /\
     recorded_spend db' id = recorded_spend db id + cost) \/
  (trace' = [] /\ (forall m, answer <> Response m) /\ recorded_spend db' id = recorded_spend db id) \/
  (trace' <> [] /\ (forall m, answer <> Response m) /\
     exists ordinal, forall l2 db2, history file raw db' l2 db2 ->
       Exists (settled_by id token ordinal) l2 \/
       Forall (fun ca => call_id ca.1 = id -> fruitless ca.2) l2).
Proof.
  intros Hh H Hp Hrun Hversion. cbn zeta.
  destruct (attempt_cases _ _ _ _ _ _ _ _ _ H) as [(-> & -> & Hno)|(spend & db1 & r & Hr & Hn1 & Hn2 & Hcall)];
    [by right; left|].
  destruct (granted_state _ _ _ _ _ _ _ Hh Hr)
    as (? & ? & ? & ? & ? & ? & ? & ? & ? & card & d & b & Heq & Hid & _ & Hd & Hb & Hact & _ & Hspend & Htoken).
  injection Heq as <- <- <- <- <- <- <- <- <-. cbn [call_id] in *.
  assert (held db1 (_doc_id (owner_uid r) (run_id r)) token (reservation_ordinal r)) as Hheld.
  { exists d, b. rewrite <- Hid, <- Htoken. split_and!; [done..|]. right. eauto. }
  rewrite Hid in Hd, Hspend |- *. 
  destruct (call_provider_cases _ _ _ _ _ _ _ _ _ _ Hcall Hheld)
    as [(m & -> & -> & Hs)|[(-> & Hno & ok & Hs)|(Hne & Hno & Hheld')]].
  - left. destruct (accepted_response_spend _ _ _ _ _ _ _ _ _ _ Hs Hd Hb) as (cost & Hest & Hsp).
    destruct (receipt_of_one ctx q m "success" "none" None clock ESTIMATED (Some cost)) as (rc & Hrc & Hagg & Hknown);
      [done|rewrite Hrun, Hn1; eauto|rewrite Hversion, Hn2; eauto|done|done|].
    exists m, rc, cost. rewrite Hspend in Hsp. done.
  - right. left. split_and!; [done|done|]. rewrite <- Hspend. by eapply release_spend.
  - right. right. split_and!; [done|done|]. exists (reservation_ordinal r). intros l2 db2 Hl2.
    destruct (held_history _ _ _ _ _ _ _ _ Hl2 Hheld') as [?|[_ ?]]; auto.
Qed.
End WholeAttempt.

(** ** An attempt that is paid for, and one whose cache write is too dear *)

(** The units of a request of 4000 bytes, and its price. *)
Definition demo_units : envelope := jit_reservation_units 4000 (PInt 100).

Definition demo_card : RateCard :=
  default {| rate_card_id := ""; provider := ""; model := ""; card_input := 0; card_cached_input := 0;
             card_output := 0; card_cache_write := None; card_cache_write_1h := None;
             long_context_threshold_tokens := None; long_context_input := None;
             long_context_cached_input := None; long_context_output := None;
             long_context_cache_write := None; long_context_cache_write_1h := None |}
    (match card_of_item (match sol_card with PDict d => d | _ => [] end) with Ok c => Some c | _ => None end).

Lemma demo_card_found : rate_card_for card_file demo_cards "openai" "gpt-5.6-sol" = Ok (Some demo_card).
Proof. vm_compute. reflexivity. Qed.

(** A response that read 1000 tokens from the cache and wrote none. *)
Definition cached_response : ProviderResponseMetadata :=
  openai_usage_from_response
    [ ("id", PStr "r1"); ("usage", PDict [ ("prompt_tokens", PInt 3000); ("completion_tokens", PInt 90);
                                           ("prompt_tokens_details", PDict [("cached_tokens", PInt 1000)]) ]) ] true.

Definition cached_usage : ProviderUsage := default default_usage (usage cached_response).

Lemma reservation_covers_bill_witness : exists cost reserved : Z, cost = 13200 /\ reserved = 23000 /\ cost <= reserved.
Proof.
  exists 13200, 23000. split; [reflexivity|]. split; [reflexivity|].
  apply (reservation_covers_bill card_file demo_cards "openai" "gpt-5.6-sol" cached_response cached_usage 13200 4000
           (PInt 100) 23000 "openai.gpt-5.6-sol.2026-07-30" demo_card).
  - vm_compute. reflexivity.
  - vm_compute. reflexivity.
  - reflexivity.
  - reflexivity.
  - apply openai_usage_ok.
  - vm_compute. discriminate.
  - vm_compute. discriminate.
  - apply demo_card_found.
  - intros t Ht. injection Ht as <-. vm_compute. discriminate.
  - vm_compute. discriminate.
  - left. reflexivity.
Defined.

(** A response that wrote its whole input to the cache. *)
Definition written_response : ProviderResponseMetadata :=
  openai_usage_from_response
    [ ("id", PStr "r2"); ("usage", PDict [ ("prompt_tokens", PInt 2000); ("completion_tokens", PInt 100);
                                           ("prompt_tokens_details", PDict [("cache_write_tokens", PInt 2000)]) ]) ] true.

Definition written_usage : ProviderUsage := default default_usage (usage written_response).

Lemma cache_write_outruns_reservation_witness :
  exists db2 d2,
    run_call card_file demo_cards Demo.db1 (Settle (Demo.reservation "t1" 1) (PInt 15500) "succeeded")
      = (db2, Settled false) /\
    db2 !! _doc_id "u1" "run1" = Some d2 /\ py_get d2 "blocked" = PBool true.
Proof.
  apply (cache_write_outruns_reservation card_file demo_cards [] ∅ "u1" "run1" "jit-cloud-qa-v1" 3 50000 "openai"
           "gpt-5.6-sol" 2000 (PInt 100) "t1" Demo.db1 (Demo.reservation "t1" 1) written_response written_usage
           15500 demo_card 6250000).
  - constructor.
  - apply Demo.step1.
  - vm_compute. reflexivity.
  - reflexivity.
  - reflexivity.
  - reflexivity.
  - reflexivity.
  - reflexivity.
  - reflexivity.
  - vm_compute. discriminate.
  - reflexivity.
  - apply demo_card_found.
  - reflexivity.
  - intros t Ht. injection Ht as <-. vm_compute. discriminate.
  - vm_compute. discriminate.
  - vm_compute. discriminate.
Defined.

Definition demo_request : attempt_request :=
  {| route_provider := "openai"; route_model := "gpt-5.6-sol"; route_id := "route.1"; route_fallback := None;
     jit_owner := "u1"; jit_run := "run1"; jit_version := "jit-cloud-qa-v1"; max_provider_attempts := 3;
     jit_max_spend := Some 50000; request_bytes := 4000; output_limit := PInt 100 |}.

Definition demo_context : AccountingContext :=
  {| invocation_id := "i1"; request_id := "q1"; caller := "desktop"; user_uid := Some "u1"; feature := None;
     api_surface := "chat"; payer := "omi"; app_platform := None; jit_run_id := Some "run1";
     jit_contract_version := Some "jit-cloud-qa-v1" |}.

Definition demo_attempt : budgets * AttemptTrace * attempt_answer :=
  _attempt_provider card_file demo_cards ∅ [] demo_request false "t1" 1000 (Responded cached_response).

Lemma attempt_is_paid_or_fatal_witness :
  exists m rc cost, demo_attempt.2 = Response m /\
    jit_gateway_receipt_for_trace card_file demo_cards demo_context demo_attempt.1.2 (fun _ => 0) = Ok (Some rc) /\
    aggregate_cost_micro_usd (receipt_aggregate rc) = Some cost /\
    recorded_spend demo_attempt.1.1 (_doc_id "u1" "run1")
      = recorded_spend ∅ (_doc_id "u1" "run1") + cost.
Proof.
  destruct (attempt_is_paid_or_fatal card_file demo_cards [] ∅ demo_request false "t1" 1000 (Responded cached_response)
              demo_attempt.1.1 demo_attempt.1.2 demo_attempt.2 demo_context (fun _ => 0))
    as [(m & rc & cost & Ha & Hr & _ & Hc & Hs)|[(_ & Hno & _)|(_ & Hno & _)]].
  - constructor.
  - change (demo_attempt = (demo_attempt.1.1, demo_attempt.1.2, demo_attempt.2)).
    destruct demo_attempt as [[? ?] ?]. reflexivity.
  - reflexivity.
  - reflexivity.
  - reflexivity.
  - exists m, rc, cost. split; [exact Ha|]. split; [exact Hr|]. split; [exact Hc|exact Hs].
  - exfalso. apply (Hno cached_response). vm_compute. reflexivity.
  - exfalso. apply (Hno cached_response). vm_compute. reflexivity.
Defined.
