(* ===== verification/SpeakerIdentity.v ===== *)
(** Conversation-local speaker numbers ([utils/stt/speaker_identity.py]): the
    epochs that scope a provider's numbering, and the allocator that gives each
    scoped provider label one small integer per conversation. *)
From S2P Require Export PyValue Text.

Definition OMI_SPEAKER_ID_SENTINEL : Z := 99.

(** ** Labels *)

(** [$] also matches before a newline that ends the text. *)
Fixpoint without_final_newline (s : string) : string :=
  match s with
  | EmptyString => EmptyString
  | String c EmptyString => if Ascii.eqb c "010" then EmptyString else s
  | String c r => String c (without_final_newline r)
  end.

(** [_SPEAKER_NUMBER.match(label)], as the number it captures. *)
Definition _SPEAKER_NUMBER (label : string) : option Z :=
  match without_prefix "SPEAKER_" label with
  | Some rest => parse_number (without_final_newline rest)
  | None => None
  end.

Definition speaker_label (n : Z) : string := "SPEAKER_" ++ Z_to_string n.

Definition _canonical_speaker_label (label : string) : string :=
  match _SPEAKER_NUMBER label with
  | Some n => speaker_label n
  | None => label
  end.

(** ** Provider epochs *)

Record SpeakerProviderEpoch : Type := {
  connection_scope : string;
  current_provider : option string;
  epoch : Z;
}.

Definition epoch_scope (e : SpeakerProviderEpoch) : string :=
  connection_scope e ++ ":" ++ Z_to_string (epoch e).

(** [stamp] on one segment.  A falsy [stt_provider] is replaced by the name the
    caller supplied; any other value is compared as its text. *)
Definition stamp_segment (fallback : string) (e : SpeakerProviderEpoch) (segment : doc)
    : SpeakerProviderEpoch * doc :=
  let provider_name := py_str (py_or (py_get segment "stt_provider") (PStr fallback)) in
  let e' :=
    if bool_decide (current_provider e = Some provider_name) then e
    else {| connection_scope := connection_scope e; current_provider := Some provider_name;
            epoch := epoch e + 1 |} in
  (e', doc_update segment
         [("stt_provider", Put (py_or (py_get segment "stt_provider") (PStr fallback)));
          put_str "speaker_id_scope" (epoch_scope e')]).

Fixpoint stamp_all (fallback : string) (e : SpeakerProviderEpoch) (segments : list doc)
    : SpeakerProviderEpoch * list doc :=
  match segments with
  | [] => (e, [])
  | segment :: rest =>
      let '(e1, stamped) := stamp_segment fallback e segment in
      let '(e2, more) := stamp_all fallback e1 rest in
      (e2, stamped :: more)
  end.

Definition stamp (e : SpeakerProviderEpoch) (segments : list doc) (provider : option string)
    : SpeakerProviderEpoch * list doc :=
  stamp_all (match provider with Some p => if String.eqb p "" then "unknown" else p | None => "unknown" end)
    e segments.

(** ** The allocator *)

Record ConversationSpeakerIdAllocator : Type := {
  _speaker_ids : gmap (string * string) Z;
  _next_id : Z;
}.

Definition new_allocator : ConversationSpeakerIdAllocator := {| _speaker_ids := ∅; _next_id := 0 |}.

(** [self._speaker_ids.setdefault(key, id)] *)
Definition setdefault (m : gmap (string * string) Z) (key : string * string) (id : Z)
    : gmap (string * string) Z :=
  match m !! key with Some _ => m | None => <[key := id]> m end.

Definition hydrate_segment (a : ConversationSpeakerIdAllocator) (segment : doc)
    : ConversationSpeakerIdAllocator :=
  match as_int (py_get segment "speaker_id") with
  | None => a
  | Some speaker_id =>
      let scope := py_get segment "speaker_id_scope" in
      let speaker := py_get segment "speaker" in
      {| _speaker_ids :=
           if truthy scope && truthy speaker
           then setdefault (_speaker_ids a) (py_str scope, _canonical_speaker_label (py_str speaker)) speaker_id
           else _speaker_ids a;
         _next_id := Z.max (_next_id a) (speaker_id + 1) |}
  end.

Definition hydrate (a : ConversationSpeakerIdAllocator) (segments : list doc) : ConversationSpeakerIdAllocator :=
  foldl hydrate_segment a segments.

Definition _allocate (a : ConversationSpeakerIdAllocator) : Z * Z :=
  let speaker_id := if _next_id a =? OMI_SPEAKER_ID_SENTINEL then _next_id a + 1 else _next_id a in
  (speaker_id, speaker_id + 1).

(** The key of a scoped segment, [None] without a scope. *)
Definition segment_key (segment : doc) : option (string * string) :=
  let scope := py_get segment "speaker_id_scope" in
  if negb (truthy scope) then None else
  let speaker := py_get segment "speaker" in
  let named :=
    if truthy speaker then speaker
    else match as_int (py_get segment "speaker_id") with
         | Some _ => PStr ("SPEAKER_" ++ py_str (py_get segment "speaker_id"))
         | None => PStr "SPEAKER_00"
         end in
  Some (py_str scope, _canonical_speaker_label (py_str named)).

Definition assign (a : ConversationSpeakerIdAllocator) (segment : doc)
    : ConversationSpeakerIdAllocator * doc :=
  match segment_key segment with
  | None => (a, segment)
  | Some key =>
      let '(a', speaker_id) :=
        match _speaker_ids a !! key with
        | Some id => (a, id)
        | None =>
            let '(id, next) := _allocate a in
            ({| _speaker_ids := <[key := id]> (_speaker_ids a); _next_id := next |}, id)
        end in
      (a', doc_update segment [put_int "speaker_id" speaker_id])
  end.

Fixpoint assign_all (a : ConversationSpeakerIdAllocator) (segments : list doc)
    : ConversationSpeakerIdAllocator * list doc :=
  match segments with
  | [] => (a, [])
  | segment :: rest =>
      let '(a1, s1) := assign a segment in
      let '(a2, more) := assign_all a1 rest in
      (a2, s1 :: more)
  end.

(** ** What the allocator keeps *)

(** Every number given out is below the next one. *)
Definition allocator_ok (a : ConversationSpeakerIdAllocator) : Prop :=
  map_Forall (fun _ id => id < _next_id a) (_speaker_ids a).

Lemma new_allocator_ok : allocator_ok new_allocator.
Proof. apply map_Forall_empty. Qed.

Lemma setdefault_Forall (P : Z -> Prop) m k id :
  map_Forall (fun _ => P) m -> P id -> map_Forall (fun _ => P) (setdefault m k id).
Proof.
  intros Hm Hid. unfold setdefault. destruct (m !! k); [done|]. by apply map_Forall_insert_2.
Qed.

Lemma hydrate_segment_ok a segment : allocator_ok a -> allocator_ok (hydrate_segment a segment).
Proof.
  unfold hydrate_segment. destruct (as_int _) as [id|]; [|done]. intros Ha.
  assert (map_Forall (fun _ n => n < Z.max (_next_id a) (id + 1)) (_speaker_ids a))
    by (eapply map_Forall_impl; [exact Ha|]; simpl; lia).
  unfold allocator_ok; cbn [_speaker_ids _next_id]. destruct (_ && _); [|done].
  apply (setdefault_Forall (fun n => n < Z.max (_next_id a) (id + 1))); [done|lia].
Qed.

Lemma hydrate_ok a segments : allocator_ok a -> allocator_ok (hydrate a segments).
Proof.
  unfold hydrate. revert a. induction segments as [|s segments IH]; intros a Ha; [done|].
  apply IH. by apply hydrate_segment_ok.
Qed.

#[export] Hint Resolve new_allocator_ok hydrate_segment_ok hydrate_ok : remi.

(** A persisted number is below the next one after hydration. *)
Lemma hydrate_bound a segments :
  _next_id a <= _next_id (hydrate a segments) /\
  forall segment id, segment ∈ segments -> as_int (py_get segment "speaker_id") = Some id ->
    id < _next_id (hydrate a segments).
Proof.
  unfold hydrate. revert a. induction segments as [|s segments IH]; intros a; [split; [done|set_solver]|].
  cbn [foldl]. destruct (IH (hydrate_segment a s)) as [Hle Hin].
  assert (_next_id a <= _next_id (hydrate_segment a s) /\
          forall id, as_int (py_get s "speaker_id") = Some id -> id < _next_id (hydrate_segment a s)) as [Hs Hid].
  { unfold hydrate_segment. destruct (as_int _) as [id|]; cbn [_next_id]; [|done].
    split; [lia|]. intros ? [= <-]. lia. }
  split; [lia|]. intros segment id [->|Hseg]%elem_of_cons Hs'; [|eauto].
  specialize (Hid id Hs'). lia.
Qed.

(** One assignment: the key keeps its number, or gets the next free one. *)
Inductive assigns (a : ConversationSpeakerIdAllocator) (segment : doc) (key : string * string)
    : ConversationSpeakerIdAllocator -> doc -> Prop :=
| assigns_known id :
    _speaker_ids a !! key = Some id ->
    assigns a segment key a (doc_update segment [put_int "speaker_id" id])
| assigns_new id :
    _speaker_ids a !! key = None -> _next_id a <= id -> id <> OMI_SPEAKER_ID_SENTINEL ->
    assigns a segment key {| _speaker_ids := <[key := id]> (_speaker_ids a); _next_id := id + 1 |}
      (doc_update segment [put_int "speaker_id" id]).

Lemma assign_cases a segment :
  match segment_key segment with
  | None => assign a segment = (a, segment)
  | Some key => assigns a segment key (assign a segment).1 (assign a segment).2
  end.
Proof.
  unfold assign. destruct (segment_key segment) as [key|]; [|done].
  destruct (_speaker_ids a !! key) as [id|] eqn:Hk; [by apply assigns_known|].
  unfold _allocate, OMI_SPEAKER_ID_SENTINEL. destruct (Z.eqb_spec (_next_id a) 99) as [Hn|Hn]; simpl;
    apply assigns_new; unfold OMI_SPEAKER_ID_SENTINEL; done || lia.
Qed.

Lemma assigns_ok a segment key a' segment' :
  allocator_ok a -> assigns a segment key a' segment' -> allocator_ok a'.
Proof.
  intros Ha [id Hk|id Hk Hn Hs]; [done|]. unfold allocator_ok; cbn [_speaker_ids _next_id].
  apply map_Forall_insert_2; [lia|]. eapply map_Forall_impl; [exact Ha|]. simpl. lia.
Qed.

(** [a'] continues [a]: keys keep their numbers, and a new key has a number no
    key of [a] has, that no other new key has, and that is not reserved. *)
Record continues (a a' : ConversationSpeakerIdAllocator) : Prop := {
  cont_ok : allocator_ok a';
  cont_next : _next_id a <= _next_id a';
  cont_keeps : forall k id, _speaker_ids a !! k = Some id -> _speaker_ids a' !! k = Some id;
  cont_new : forall k id, _speaker_ids a !! k = None -> _speaker_ids a' !! k = Some id ->
    _next_id a <= id /\ id <> OMI_SPEAKER_ID_SENTINEL;
  cont_distinct : forall k1 k2 id, _speaker_ids a !! k1 = None ->
    _speaker_ids a' !! k1 = Some id -> _speaker_ids a' !! k2 = Some id -> k1 = k2;
}.

Lemma continues_refl a : allocator_ok a -> continues a a.
Proof. intros Ha. split; [done|done|done|congruence|congruence]. Qed.

Lemma assigns_continues a0 a segment key a' segment' :
  allocator_ok a0 -> continues a0 a -> assigns a segment key a' segment' -> continues a0 a'.
Proof.
  intros Ha0 [Hok Hnext Hkeep Hnew Hdist] H. pose proof (assigns_ok _ _ _ _ _ Hok H) as Hok'.
  destruct H as [id Hk|id Hk Hn Hs]; [by split|].
  split; cbn [_speaker_ids _next_id]; [done|lia| | |].
  - intros k n Hk0. rewrite lookup_insert_ne; [eauto|]. intros ->. apply Hkeep in Hk0. congruence.
  - intros k n Hk0. rewrite lookup_insert_Some. intros [[<- <-]|[_ ?]]; [lia|eauto].
  - intros k1 k2 n Hk0. rewrite !lookup_insert_Some.
    intros [[<- <-]|[Hne1 H1]] [[<- He]|[Hne2 H2]]; try done; [| |eauto].
    + apply (map_Forall_lookup_1 _ _ _ _ Hok) in H2. lia.
    + subst n. apply (map_Forall_lookup_1 _ _ _ _ Hok) in H1. lia.
Qed.

(** The numbers of a batch are the allocator's numbers of its keys. *)
Definition numbered (a : ConversationSpeakerIdAllocator) (segment segment' : doc) : Prop :=
  match segment_key segment with
  | None => segment' = segment
  | Some key => exists id, _speaker_ids a !! key = Some id /\
      segment' = doc_update segment [put_int "speaker_id" id]
  end.

Lemma assign_all_spec a0 segments : forall a a' out,
  allocator_ok a0 -> continues a0 a -> assign_all a segments = (a', out) ->
  continues a0 a' /\ (forall k id, _speaker_ids a !! k = Some id -> _speaker_ids a' !! k = Some id) /\
  Forall2 (numbered a') segments out.
Proof.
  induction segments as [|s segments IH]; intros a a' out Ha0 Hc; simpl.
  - intros [= <- <-]. split_and!; [done|done|constructor].
  - destruct (assign a s) as [a1 s1] eqn:H1, (assign_all a1 segments) as [a2 more] eqn:H2. intros [= <- <-].
    pose proof (assign_cases a s) as Hs. rewrite H1 in Hs. cbn [fst snd] in Hs.
    assert (continues a0 a1 /\ (forall k id, _speaker_ids a !! k = Some id -> _speaker_ids a1 !! k = Some id) /\
            numbered a1 s s1) as (Hc1 & Hk1 & Hn1).
    { unfold numbered. destruct (segment_key s) as [key|]; [|by injection Hs as -> ->].
      split; [by eapply assigns_continues|]. destruct Hs as [id Hk|id Hk Hn Hne]; [eauto|].
      cbn [_speaker_ids]. split; [|exists id; by rewrite lookup_insert_eq].
      intros k n Hkn. rewrite lookup_insert_ne; [done|congruence]. }
    destruct (IH _ _ _ Ha0 Hc1 H2) as (Hc2 & Hk2 & Hn2). split_and!; [done|eauto|].
    constructor; [|done]. unfold numbered in *. destruct (segment_key s); [|done].
    destruct Hn1 as (id & ? & ?). eauto.
Qed.

(** What the conversation shows for a segment. *)
Definition shown_id (segment : doc) : pyval := py_get segment "speaker_id".

Lemma shown_update segment id : shown_id (doc_update segment [put_int "speaker_id" id]) = PInt id.
Proof. unfold shown_id. by doc_simpl. Qed.

Lemma numbered_shown a segment segment' key :
  numbered a segment segment' -> segment_key segment = Some key ->
  exists id, _speaker_ids a !! key = Some id /\ shown_id segment' = PInt id.
Proof. unfold numbered. intros H Hk. rewrite Hk in H. destruct H as (id & ? & ->). eauto using shown_update. Qed.

(** Within a conversation a speaker is one number and a number is one
    speaker.  After the allocator has learned the persisted segments, segments
    of a batch with the same scoped label are shown under the same number; a
    label the conversation has not seen gets a number that no other label of
    the batch has, that exceeds every persisted number, and that is not the
    one reserved for the assistant's own questions. *)
Theorem speakers_stay_distinct persisted batch a' out i j si sj oi oj ki kj :
  assign_all (hydrate new_allocator persisted) batch = (a', out) ->
  batch !! i = Some si -> batch !! j = Some sj -> out !! i = Some oi -> out !! j = Some oj ->
  segment_key si = Some ki -> segment_key sj = Some kj ->
  exists ni nj, shown_id oi = PInt ni /\ shown_id oj = PInt nj /\
    (ki = kj -> ni = nj) /\
    (_speaker_ids (hydrate new_allocator persisted) !! ki = None ->
       (ki <> kj -> ni <> nj) /\ ni <> OMI_SPEAKER_ID_SENTINEL /\
       forall s id, s ∈ persisted -> as_int (shown_id s) = Some id -> id < ni).
Proof.
  set (a := hydrate new_allocator persisted). intros H Hi Hj Hoi Hoj Hki Hkj.
  assert (allocator_ok a) as Ha by (unfold a; auto with remi).
  destruct (assign_all_spec a batch a a' out Ha (continues_refl a Ha) H) as ([_ Hnext _ Hnew Hdist] & _ & Hnum).
  pose proof (Forall2_lookup_lr _ _ _ _ _ _ Hnum Hi Hoi) as Hni.
  pose proof (Forall2_lookup_lr _ _ _ _ _ _ Hnum Hj Hoj) as Hnj.
  destruct (numbered_shown _ _ _ _ Hni Hki) as (ni & Hai & Hsi).
  destruct (numbered_shown _ _ _ _ Hnj Hkj) as (nj & Haj & Hsj).
  exists ni, nj. split_and!; [done|done|intros ->; congruence|].
  intros Hfresh. destruct (Hnew _ _ Hfresh Hai) as [Hle Hs]. split_and!; [|done|].
  - intros Hne ->. apply Hne. eauto.
  - intros s id Hin Hid. destruct (hydrate_bound new_allocator persisted) as [_ Hb].
    specialize (Hb s id Hin Hid). fold a in Hb. lia.
Qed.

(** ** Reconnecting *)

(** A scoped segment that names its speaker. *)
Definition labelled (segment : doc) : Prop :=
  truthy (py_get segment "speaker_id_scope") = true /\ truthy (py_get segment "speaker") = true.

Definition label_key (segment : doc) : string * string :=
  (py_str (py_get segment "speaker_id_scope"), _canonical_speaker_label (py_str (py_get segment "speaker"))).

Lemma labelled_key segment : labelled segment -> segment_key segment = Some (label_key segment).
Proof. intros [Hs Hn]. unfold segment_key. by rewrite Hs, Hn. Qed.

Lemma numbered_label a segment segment' :
  labelled segment -> numbered a segment segment' ->
  labelled segment' /\ label_key segment' = label_key segment /\
  exists id, _speaker_ids a !! label_key segment' = Some id /\ segment' !! "speaker_id" = Some (PInt id).
Proof.
  intros Hl Hn. unfold numbered in Hn. rewrite (labelled_key _ Hl) in Hn. destruct Hn as (id & Hid & ->).
  unfold labelled, label_key. doc_simpl. split_and!; [apply Hl|apply Hl|done|].
  exists id. split; [done|]. by rewrite lookup_doc_update.
Qed.

(** A labelled segment whose number is the one of its key in [m]. *)
Definition settled_in (m : gmap (string * string) Z) (segment : doc) : Prop :=
  labelled segment /\ exists id, m !! label_key segment = Some id /\ segment !! "speaker_id" = Some (PInt id).

(** Hydrating from settled segments learns exactly their keys. *)
Lemma hydrate_settled m segments : forall a,
  Forall (settled_in m) segments -> _speaker_ids a ⊆ m ->
  _speaker_ids (hydrate a segments) ⊆ m /\
  (forall k, is_Some (_speaker_ids a !! k) -> is_Some (_speaker_ids (hydrate a segments) !! k)) /\
  forall segment, segment ∈ segments -> is_Some (_speaker_ids (hydrate a segments) !! label_key segment).
Proof.
  unfold hydrate. induction segments as [|s segments IH]; intros a Hall Hsub; [split_and!; [done|done|set_solver]|].
  apply Forall_cons in Hall as [([Hs Hn] & n & Hid & Hshow) Hall]. cbn [foldl].
  assert (_speaker_ids (hydrate_segment a s) = setdefault (_speaker_ids a) (label_key s) n) as Heq.
  { unfold hydrate_segment. unfold py_get at 1. rewrite Hshow. cbn [default from_option as_int id _speaker_ids].
    by rewrite Hs, Hn. }
  destruct (IH (hydrate_segment a s) Hall) as (H1 & H2 & H3).
  - rewrite Heq. unfold setdefault. destruct (_speaker_ids a !! label_key s); [exact Hsub|]. by apply insert_subseteq_l.
  - assert (forall k, is_Some (_speaker_ids a !! k) \/ k = label_key s ->
              is_Some (_speaker_ids (hydrate_segment a s) !! k)) as Hdom.
    { rewrite Heq. unfold setdefault. intros k [Hk| ->].
      - destruct (_speaker_ids a !! label_key s); [done|].
        destruct (decide (k = label_key s)) as [->|]; by simplify_map_eq.
      - destruct (_speaker_ids a !! label_key s) eqn:E; [by rewrite E|by simplify_map_eq]. }
    split_and!; [done|auto|]. intros segment [->|?]%elem_of_cons; auto.
Qed.

Lemma update_same_id segment id :
  segment !! "speaker_id" = Some (PInt id) -> doc_update segment [put_int "speaker_id" id] = segment.
Proof. intros H. unfold doc_update; cbn [foldl]. unfold write_field; cbn. by rewrite insert_id. Qed.

Lemma assign_settled a segment :
  settled_in (_speaker_ids a) segment -> assign a segment = (a, segment).
Proof.
  intros (Hl & id & Hid & Hshow). unfold assign. rewrite (labelled_key _ Hl), Hid. by rewrite update_same_id.
Qed.

Lemma assign_all_settled a segments :
  Forall (settled_in (_speaker_ids a)) segments -> assign_all a segments = (a, segments).
Proof. induction 1 as [|s segments Hs _ IH]; [done|]. simpl. by rewrite (assign_settled _ _ Hs), IH. Qed.

(** C40: a reconnect keeps the speakers.  When a batch of segments that name
    their speakers was numbered and stored, a new allocator that learns the
    stored segments gives every one of them the number it has, and changes
    nothing. *)
Theorem reconnect_keeps_speakers persisted batch a' out :
  assign_all (hydrate new_allocator persisted) batch = (a', out) ->
  Forall labelled batch ->
  let again := hydrate new_allocator out in
  assign_all again out = (again, out).
Proof.
  cbn zeta. intros H Hl.
  assert (allocator_ok (hydrate new_allocator persisted)) as Ha by auto with remi.
  destruct (assign_all_spec _ _ _ _ _ Ha (continues_refl _ Ha) H) as (_ & _ & Hnum).
  assert (Forall (settled_in (_speaker_ids a')) out) as Hset.
  { clear H. induction Hnum as [|s s' batch out Hn _ IH]; [done|].
    apply Forall_cons in Hl as [Hs Hl]. constructor; [|auto].
    destruct (numbered_label _ _ _ Hs Hn) as (? & _ & ?). done. }
  destruct (hydrate_settled (_speaker_ids a') out new_allocator Hset (map_empty_subseteq _)) as (Hsub & _ & Hdom).
  apply assign_all_settled. apply Forall_forall. intros s Hin.
  rewrite Forall_forall in Hset. destruct (Hset s Hin) as (Hls & id & Hid & Hshow).
  split; [done|]. destruct (Hdom s Hin) as [n Hn]. exists n. split; [done|].
  eapply lookup_weaken in Hn; [|exact Hsub]. congruence.
Qed.

(** ** A conversation that reconnects *)

Module Reconnect.

Definition spoken (scope label : string) : doc :=
  doc_set [put_str "speaker_id_scope" scope; put_str "speaker" label].

Definition persisted : list doc := [doc_set [put_int "speaker_id" 98]].

(** Two labels of one epoch, one of them twice under two spellings. *)
Definition batch : list doc :=
  [spoken "c:1" "SPEAKER_00"; spoken "c:1" "SPEAKER_01"; spoken "c:1" "SPEAKER_1"; spoken "c:2" "SPEAKER_00"].

Definition run : ConversationSpeakerIdAllocator * list doc := assign_all (hydrate new_allocator persisted) batch.

(** The number 99 is reserved, so the first new speaker is 100. *)
Example run_numbers : shown_id <$> run.2 = [PInt 100; PInt 101; PInt 101; PInt 102].
Proof. vm_compute. reflexivity. Qed.

Definition at_index (l : list doc) (i : nat) : doc := default ∅ (l !! i).

Lemma speakers_stay_distinct_witness :
  exists ni nj, shown_id (at_index run.2 0) = PInt ni /\ shown_id (at_index run.2 1) = PInt nj /\
    (("c:1", "SPEAKER_0") = ("c:1", "SPEAKER_1") -> ni = nj) /\
    (_speaker_ids (hydrate new_allocator persisted) !! ("c:1", "SPEAKER_0") = None ->
       (("c:1", "SPEAKER_0") <> ("c:1", "SPEAKER_1") -> ni <> nj) /\ ni <> OMI_SPEAKER_ID_SENTINEL /\
       forall s id, s ∈ persisted -> as_int (shown_id s) = Some id -> id < ni).
Proof.
  apply (speakers_stay_distinct persisted batch run.1 run.2 0%nat 1%nat (at_index batch 0) (at_index batch 1)
           (at_index run.2 0) (at_index run.2 1));
    [symmetry; apply surjective_pairing|reflexivity|reflexivity|vm_compute; reflexivity|vm_compute; reflexivity
    |vm_compute; reflexivity|vm_compute; reflexivity].
Defined.

Lemma reconnect_keeps_speakers_witness :
  let again := hydrate new_allocator run.2 in assign_all again run.2 = (again, run.2).
Proof.
  apply (reconnect_keeps_speakers persisted batch run.1 run.2); [symmetry; apply surjective_pairing|].
  repeat (apply Forall_cons_2; [split; vm_compute; reflexivity|]). apply Forall_nil_2.
Defined.
End Reconnect.
