(* ===== verification/TranscriptSegments.v ===== *)
(** Combining transcript segments ([models/transcript_segment.py]).

    A text is the list of its code points.  The Unicode character classes that
    [strip], [isalpha] and [islower] consult are parameters.  Seconds are exact
    rationals.  A segment has an id once it is constructed, so the model's ids
    are texts; objects the code mutates in place are returned as new values. *)
From S2P Require Export PyValue.

Abbreviation text := (list Z).

(** [SENTENCE_ENDERS]: [.?!], their full-width forms, the Arabic and Urdu marks
    and the two dandas. *)
Definition SENTENCE_ENDERS : list Z := [46; 63; 33; 12290; 65281; 65311; 1567; 1748; 2404; 2405].
Definition CROSS_SPEAKER_REPAIR_MAX_GAP_SECONDS : Q := inject_Z 3.

Definition is_ender (c : Z) : bool := bool_decide (c ∈ SENTENCE_ENDERS).

Definition SPACE : Z := 32.

(** ** Segments *)

Record TranscriptSegment : Type := {
  id : string;
  seg_text : text;
  speaker : option string;
  speaker_id : Z;
  is_user : bool;
  person_id : option string;
  start : Q;
  end_ : Q;
  translations : list (string * string);
  speech_profile_processed : bool;
  stt_provider : option string;
  speaker_match_source : option string;
  speaker_id_scope : option string;
  speaker_identity_status : string;
}.

Definition with_text (s : TranscriptSegment) (t : text) : TranscriptSegment :=
  {| id := id s; seg_text := t; speaker := speaker s; speaker_id := speaker_id s; is_user := is_user s;
     person_id := person_id s; start := start s; end_ := end_ s; translations := translations s;
     speech_profile_processed := speech_profile_processed s; stt_provider := stt_provider s;
     speaker_match_source := speaker_match_source s; speaker_id_scope := speaker_id_scope s;
     speaker_identity_status := speaker_identity_status s |}.

Definition with_span (s : TranscriptSegment) (from to : Q) : TranscriptSegment :=
  {| id := id s; seg_text := seg_text s; speaker := speaker s; speaker_id := speaker_id s; is_user := is_user s;
     person_id := person_id s; start := from; end_ := to; translations := translations s;
     speech_profile_processed := speech_profile_processed s; stt_provider := stt_provider s;
     speaker_match_source := speaker_match_source s; speaker_id_scope := speaker_id_scope s;
     speaker_identity_status := speaker_identity_status s |}.

Definition Qlt_bool (a b : Q) : bool := negb (Qle_bool b a).

Section Combine.
Context (isspace isalpha islower : Z -> bool).

(** ** Text *)

Fixpoint drop_space (t : text) : text :=
  match t with
  | c :: r => if isspace c then drop_space r else t
  | [] => []
  end.

Definition strip (t : text) : text := reverse (drop_space (reverse (drop_space t))).

(** [SENTENCE_SPLIT_RE.split]: a cut behind every sentence ender, swallowing the
    white space that follows; empty pieces are dropped, as both callers do. *)
Fixpoint sentences (skipping : bool) (cur : text) (t : text) : list text :=
  match t with
  | [] => match cur with [] => [] | _ => [cur] end
  | c :: r =>
      if skipping && isspace c then sentences true cur r
      else if is_ender c then (cur ++ [c]) :: sentences true [] r
      else sentences false (cur ++ [c]) r
  end.

(** [" ".join(parts)] *)
Fixpoint join_spaced (parts : list text) : text :=
  match parts with
  | [] => []
  | [p] => p
  | p :: rest => p ++ SPACE :: join_spaced rest
  end.

Definition ends_sentence (t : text) : bool :=
  match List.last t SPACE with c => is_ender c end.

Definition _extract_last_incomplete_sentence (t : text) : option text * text :=
  let t := strip t in
  match sentences false [] t with
  | [] => (None, t)
  | parts =>
      let last := List.last parts [] in
      if negb (ends_sentence last) then (Some last, strip (join_spaced (removelast parts))) else (None, t)
  end.

Definition _split_first_sentence (t : text) : text * text :=
  match sentences false [] (strip t) with
  | [] => ([], [])
  | first :: rest => (first, strip (join_spaced rest))
  end.

Fixpoint first_alpha_is_lower (t : text) : bool :=
  match t with
  | [] => false
  | c :: r => if isalpha c then islower c else first_alpha_is_lower r
  end.

Definition _starts_with_lowercase_cased (t : text) : bool := first_alpha_is_lower (strip t).

Definition nonempty (t : text) : bool := match t with [] => false | _ => true end.

Definition _is_sentence_complete (t : text) : bool :=
  let t := strip t in
  nonempty t && ends_sentence t && negb (_starts_with_lowercase_cased t).

Definition shorter (a b : text) : bool := (length a <? length b)%nat.

Definition _can_backward_merge_first_sentence (first_sentence rest last_incomplete : text) : bool :=
  nonempty rest && nonempty first_sentence && shorter first_sentence last_incomplete.

Definition _can_backward_merge_single_sentence (first_sentence last_incomplete : text) : bool :=
  nonempty first_sentence && negb (_is_sentence_complete first_sentence)
  && shorter first_sentence last_incomplete.

(** ** Which segments belong together *)

Definition _is_chronological_continuation (a b : TranscriptSegment) : bool :=
  Qle_bool (start a) (start b) && Qle_bool (end_ a) (end_ b)
  && Qlt_bool (start b - end_ a)%Q CROSS_SPEAKER_REPAIR_MAX_GAP_SECONDS.

Definition same_voice (a b : TranscriptSegment) : bool :=
  bool_decide (speaker a = speaker b) || (is_user a && is_user b).

Definition _should_merge_same_speaker (a b : TranscriptSegment) : bool :=
  same_voice a b && Bool.eqb (speech_profile_processed a) (speech_profile_processed b)
  && Qlt_bool (start b - end_ a)%Q (inject_Z 3)
  && ((length (seg_text a) <? 125)%nat || negb (ends_sentence (seg_text a))).

Definition _should_merge_lowercase_continuation (a b : TranscriptSegment) : bool :=
  nonempty (seg_text a) && nonempty (seg_text b) && same_voice a b
  && negb (ends_sentence (seg_text a)) && _starts_with_lowercase_cased (seg_text b)
  && Bool.eqb (speech_profile_processed a) (speech_profile_processed b).

(** [f'{a} {b}'.strip()] and [a + f' {b}'] *)
Definition spaced (a b : text) : text := a ++ SPACE :: b.

(** ** Merging a pair *)

(** What became of the pair: the segment that is not kept is absorbed. *)
Inductive merge_result : Type :=
| Both (a b : TranscriptSegment)
| KeptFirst (a : TranscriptSegment)
| KeptSecond (b : TranscriptSegment).

(** The sentence repair between two speakers, [None] when it does not apply. *)
Definition repair_sentence (a b : TranscriptSegment) : option merge_result :=
  match _extract_last_incomplete_sentence (seg_text a) with
  | (Some last_incomplete, prefix) =>
      let '(first_sentence, rest) := _split_first_sentence (seg_text b) in
      if _can_backward_merge_first_sentence first_sentence rest last_incomplete then
        Some (Both (with_text a (strip (spaced (seg_text a) first_sentence))) (with_text b rest))
      else if _can_backward_merge_single_sentence first_sentence last_incomplete then
        Some (KeptFirst (with_text a (strip (spaced (seg_text a) first_sentence))))
      else if shorter last_incomplete (strip (seg_text b)) then
        let b' := with_text b (strip (spaced last_incomplete (seg_text b))) in
        Some (if nonempty prefix
              then Both (with_span (with_text a prefix) (start a) (Qmin (end_ a) (start b))) b'
              else KeptSecond b')
      else None
  | (None, _) => None
  end.

Definition joinable (protected : string -> bool) (a b : TranscriptSegment) : bool :=
  negb (protected (id a) || protected (id b))
  && bool_decide (stt_provider b = stt_provider a)
  && bool_decide (speaker_match_source b = speaker_match_source a)
  && bool_decide (speaker_id_scope b = speaker_id_scope a).

Definition _merge (protected : string -> bool) (a b : TranscriptSegment) : merge_result :=
  if negb (joinable protected a b) then Both a b else
  let joined := KeptFirst (with_span (with_text a (spaced (seg_text a) (seg_text b))) (start a) (end_ b)) in
  let repaired :=
    if negb (bool_decide (speaker a = speaker b)) && negb (is_user a && is_user b)
       && nonempty (seg_text a) && nonempty (seg_text b) && _is_chronological_continuation a b
    then repair_sentence a b else None in
  match repaired with
  | Some r => r
  | None =>
      if _should_merge_same_speaker a b then joined
      else if _should_merge_lowercase_continuation a b then joined
      else Both a b
  end.

(** ** Joining a batch *)

Record JoinState : Type := {
  joined_similar_segments : list TranscriptSegment;
  dropped_existing_tail : bool;
  removed_ids : list string;
  absorbed_into : gmap string string;
}.

Definition _absorb (child parent : string) (removed : list string) (absorbed : gmap string string)
    : list string * gmap string string :=
  if String.eqb child "" then (removed, absorbed) else
  (match absorbed !! child with Some _ => removed | None => removed ++ [child] end,
   if String.eqb parent "" then absorbed else <[child := parent]> absorbed).

Definition shifted (delta_seconds : Z) (s : TranscriptSegment) : TranscriptSegment :=
  if delta_seconds >? 0
  then with_span s (start s + inject_Z delta_seconds)%Q (end_ s + inject_Z delta_seconds)%Q else s.

(** One turn of the loop; [tail] is the id of the last stored segment. *)
Definition join_step (protected : string -> bool) (delta_seconds : Z) (tail : option string)
    (st : JoinState) (new_segment : TranscriptSegment) : JoinState :=
  let b := shifted delta_seconds new_segment in
  let js := joined_similar_segments st in
  match last js with
  | None =>
      {| joined_similar_segments := js ++ [b]; dropped_existing_tail := dropped_existing_tail st;
         removed_ids := removed_ids st; absorbed_into := absorbed_into st |}
  | Some a =>
      let kept := removelast js in
      match _merge protected a b with
      | Both a' b' =>
          {| joined_similar_segments := kept ++ [a'; b']; dropped_existing_tail := dropped_existing_tail st;
             removed_ids := removed_ids st; absorbed_into := absorbed_into st |}
      | KeptFirst a' =>
          let '(removed, absorbed) := _absorb (id b) (id a) (removed_ids st) (absorbed_into st) in
          {| joined_similar_segments := kept ++ [a']; dropped_existing_tail := dropped_existing_tail st;
             removed_ids := removed; absorbed_into := absorbed |}
      | KeptSecond b' =>
          let '(removed, absorbed) := _absorb (id a) (id b) (removed_ids st) (absorbed_into st) in
          {| joined_similar_segments := kept ++ [b'];
             dropped_existing_tail := dropped_existing_tail st || bool_decide (tail = Some (id a));
             removed_ids := removed; absorbed_into := absorbed |}
      end
  end.

Definition join_start (segments : list TranscriptSegment) : JoinState :=
  {| joined_similar_segments := match last segments with Some s => [s] | None => [] end;
     dropped_existing_tail := false; removed_ids := []; absorbed_into := ∅ |}.

Definition join_all (protected : string -> bool) (delta_seconds : Z) (segments new_segments : list TranscriptSegment)
    : JoinState :=
  foldl (join_step protected delta_seconds (id <$> last segments)) (join_start segments) new_segments.

(** ** Punctuation spacing *)

(** [text.replace(' c', 'c')] for a character [c] that is no space. *)
Fixpoint close_up (c : Z) (t : text) : text :=
  match t with
  | [] => []
  | x :: r =>
      if (x =? SPACE) && match r with y :: _ => y =? c | [] => false end then close_up c r
      else x :: close_up c r
  end.

(** [text.replace('  ', ' ')]: each pair of spaces, left to right, is one. *)
Fixpoint halve_spaces (t : text) : text :=
  match t with
  | x :: (y :: r) as rest => if (x =? SPACE) && (y =? SPACE) then SPACE :: halve_spaces r else x :: halve_spaces rest
  | _ => t
  end.

Definition normalize_spacing (t : text) : text :=
  close_up 63 (close_up 46 (close_up 44 (halve_spaces (strip t)))).

Definition normalized (s : TranscriptSegment) : TranscriptSegment := with_text s (normalize_spacing (seg_text s)).

(** ** The whole call *)

(** [segments] is the stored list after the call, [joined] the part of it the
    batch touched.  The joined objects are the stored ones, so the spacing pass
    reaches them too. *)
Record CombineSegmentsResult : Type := {
  segments : list TranscriptSegment;
  joined : list TranscriptSegment;
  res_removed_ids : list string;
  res_absorbed_into : gmap string string;
}.

Definition without_tail (st : JoinState) (stored : list TranscriptSegment) : list TranscriptSegment :=
  match last stored with
  | None => stored
  | Some tail =>
      if dropped_existing_tail st then removelast stored else
      match joined_similar_segments st with
      | first :: _ => if bool_decide (id tail = id first) then removelast stored else stored
      | [] => stored
      end
  end.

Definition combine_segments (protected : string -> bool) (stored new_segments : list TranscriptSegment)
    (delta_seconds : Z) : CombineSegmentsResult :=
  match new_segments with
  | [] => {| segments := stored; joined := []; res_removed_ids := []; res_absorbed_into := ∅ |}
  | _ =>
      let st := join_all protected delta_seconds stored new_segments in
      {| segments := normalized <$> (without_tail st stored ++ joined_similar_segments st);
         joined := normalized <$> joined_similar_segments st;
         res_removed_ids := removed_ids st; res_absorbed_into := absorbed_into st |}
  end.
End Combine.
