(* ===== verification/TranscriptOps.v ===== *)
(** What combining transcript segments keeps: every word in order, the protected
    segments, the ids (each one survives or is absorbed by a survivor), and the
    order of time. *)
From S2P Require Export TranscriptSegments.

Section Combining.
Context (isspace isalpha islower : Z -> bool).

Local Abbreviation strip := (strip isspace).
Local Abbreviation sentences := (sentences isspace).
Local Abbreviation merge := (_merge isspace isalpha islower).
Local Abbreviation join_step := (join_step isspace isalpha islower).
Local Abbreviation join_all := (join_all isspace isalpha islower).
Local Abbreviation combine_segments := (combine_segments isspace isalpha islower).
Local Abbreviation normalized := (normalized isspace).

(** ** One pair *)

Definition kept_of (r : merge_result) : list TranscriptSegment :=
  match r with Both a b => [a; b] | KeptFirst a => [a] | KeptSecond b => [b] end.

(** The segment whose id goes, and the one it goes to. *)
Definition absorption (a b : TranscriptSegment) (r : merge_result) : option (string * string) :=
  match r with Both _ _ => None | KeptFirst _ => Some (id b, id a) | KeptSecond _ => Some (id a, id b) end.

(** The ways a pair can come out. *)
Inductive merges (protected : string -> bool) (a b : TranscriptSegment) : merge_result -> Prop :=
| merges_apart : merges protected a b (Both a b)
| merges_repaired r :
    joinable protected a b = true -> _is_chronological_continuation a b = true ->
    repair_sentence isspace isalpha islower a b = Some r -> merges protected a b r
| merges_joined :
    joinable protected a b = true ->
    merges protected a b
      (KeptFirst (with_span (with_text a (spaced (seg_text a) (seg_text b))) (start a) (end_ b))).

Lemma merge_cases protected a b : merges protected a b (merge protected a b).
Proof.
  unfold _merge. destruct (joinable protected a b) eqn:Hj; [|constructor]. cbn [negb].
  destruct (_ && _ && _ && _ && _) eqn:Hg.
  - destruct (repair_sentence _ _ _ a b) eqn:Hr.
    + apply andb_true_iff in Hg as [_ Hc]. by apply merges_repaired.
    + repeat case_match; by constructor.
  - repeat case_match; by constructor.
Qed.

(** ** One turn of the loop *)

Definition tail_dropped (tail : option string) (a : TranscriptSegment) (r : merge_result) : bool :=
  match r with KeptSecond _ => bool_decide (tail = Some (id a)) | _ => false end.

Inductive joins (protected : string -> bool) (tail : option string) (b : TranscriptSegment)
    : JoinState -> JoinState -> Prop :=
| joins_first st :
    joined_similar_segments st = [] ->
    joins protected tail b st
      {| joined_similar_segments := [b]; dropped_existing_tail := dropped_existing_tail st;
         removed_ids := removed_ids st; absorbed_into := absorbed_into st |}
| joins_onto st kept a r removed absorbed :
    joined_similar_segments st = kept ++ [a] -> merges protected a b r ->
    (removed, absorbed) =
      match absorption a b r with
      | Some (child, parent) => _absorb child parent (removed_ids st) (absorbed_into st)
      | None => (removed_ids st, absorbed_into st)
      end ->
    joins protected tail b st
      {| joined_similar_segments := kept ++ kept_of r;
         dropped_existing_tail := dropped_existing_tail st || tail_dropped tail a r;
         removed_ids := removed; absorbed_into := absorbed |}.

Lemma last_split {A} (l : list A) x : last l = Some x -> l = removelast l ++ [x].
Proof.
  intros [k ->]%last_Some. by rewrite removelast_last.
Qed.

Lemma join_step_cases protected delta tail st s :
  joins protected tail (shifted delta s) st (join_step protected delta tail st s).
Proof.
  unfold TranscriptSegments.join_step. destruct (last (joined_similar_segments st)) as [a|] eqn:Hl.
  - apply last_split in Hl. pose proof (merge_cases protected a (shifted delta s)) as Hm.
    destruct (merge protected a (shifted delta s)) as [a' b'|a'|b'];
      [|destruct (_absorb _ _ _ _) as [removed absorbed] eqn:Hab ..].
    + rewrite <- (orb_false_r (dropped_existing_tail st)).
      by apply (joins_onto _ _ _ st (removelast (joined_similar_segments st)) a (Both a' b')).
    + rewrite <- (orb_false_r (dropped_existing_tail st)).
      by apply (joins_onto _ _ _ st (removelast (joined_similar_segments st)) a (KeptFirst a')).
    + by apply (joins_onto _ _ _ st (removelast (joined_similar_segments st)) a (KeptSecond b')).
  - apply last_None in Hl. rewrite Hl. by apply joins_first.
Qed.

(** Induction over the batch: an invariant of one turn, indexed by the
    segments already taken and those to come, holds at the end. *)
Lemma join_all_ind (P : list TranscriptSegment -> JoinState -> Prop) protected delta stored batch :
  (forall s rest st st', P (s :: rest) st ->
     joins protected (id <$> last stored) (shifted delta s) st st' -> P rest st') ->
  P batch (join_start stored) -> P [] (join_all protected delta stored batch).
Proof.
  intros Hstep. unfold TranscriptSegments.join_all. generalize (join_start stored).
  induction batch as [|s batch IH]; intros st Hst; [done|]. cbn [foldl]. apply IH.
  eapply Hstep; [exact Hst|apply join_step_cases].
Qed.

(** ** The stored tail is replaced exactly once *)

Definition tail_in_front (stored : list TranscriptSegment) (st : JoinState) : Prop :=
  match last stored with
  | None => True
  | Some tail => dropped_existing_tail st = true \/
      exists first rest, joined_similar_segments st = first :: rest /\ id first = id tail
  end.

Lemma merges_ids protected a b r :
  merges protected a b r ->
  match r with
  | Both a' b' => id a' = id a /\ id b' = id b
  | KeptFirst a' => id a' = id a
  | KeptSecond b' => id b' = id b
  end.
Proof.
  intros [|r' _ _ Hr|_]; [done| |done]. unfold repair_sentence in Hr.
  repeat case_match; simplify_eq; done.
Qed.

Lemma tail_in_front_all protected delta stored batch :
  tail_in_front stored (join_all protected delta stored batch).
Proof.
  apply (join_all_ind (fun _ => tail_in_front stored) _ _ _ batch).
  - intros s _ st st' H Hj. unfold tail_in_front in *. destruct (last stored) as [tail|] eqn:Ht; [|done].
    destruct H as [H|(first & rest & H & Hid)].
    + left. destruct Hj; cbn [dropped_existing_tail]; [done|]. by rewrite H.
    + destruct Hj as [st Hj|st kept a r removed absorbed Hj Hm _]; cbn [dropped_existing_tail joined_similar_segments];
        [congruence|].
      rewrite H in Hj. destruct kept as [|k kept]; injection Hj as -> ->; [|right; by eexists _, _].
      pose proof (merges_ids _ _ _ _ Hm) as Hi. destruct r as [a' b'|a'|b']; cbn [tail_dropped kept_of].
      * right. eexists _, _. split; [done|]. destruct Hi; congruence.
      * right. eexists _, _. split; [done|]. congruence.
      * left. rewrite bool_decide_true; [by rewrite orb_true_r|]. cbn. congruence.
  - unfold tail_in_front, join_start. destruct (last stored) as [tail|]; [|done]. right. by eexists _, _.
Qed.

(** The stored list without the segment the loop started from. *)
Definition earlier (stored : list TranscriptSegment) : list TranscriptSegment :=
  match last stored with Some _ => removelast stored | None => stored end.

Lemma without_tail_earlier protected delta stored batch :
  without_tail (join_all protected delta stored batch) stored = earlier stored.
Proof.
  pose proof (tail_in_front_all protected delta stored batch) as H. unfold without_tail, earlier, tail_in_front in *.
  destruct (last stored) as [tail|]; [|done]. destruct H as [->|(first & rest & -> & Hid)]; [done|].
  rewrite bool_decide_true by done. by destruct (dropped_existing_tail _).
Qed.

Lemma earlier_split stored :
  stored = earlier stored ++ joined_similar_segments (join_start stored).
Proof.
  unfold earlier, join_start. destruct (last stored) eqn:Hl; cbn [joined_similar_segments];
    [by apply last_split|by rewrite app_nil_r].
Qed.

(** The result of a call, without the special case of an empty batch. *)
Lemma combine_result protected stored batch delta :
  batch <> [] ->
  let st := join_all protected delta stored batch in
  combine_segments protected stored batch delta =
    {| segments := normalized <$> (earlier stored ++ joined_similar_segments st);
       joined := normalized <$> joined_similar_segments st;
       res_removed_ids := removed_ids st; res_absorbed_into := absorbed_into st |}.
Proof.
  intros Hb. cbn zeta. unfold TranscriptSegments.combine_segments.
  destruct batch as [|b batch]; [done|]. by rewrite without_tail_earlier.
Qed.
Lemma shifted_text delta s : seg_text (shifted delta s) = seg_text s.
Proof. unfold shifted. by case_match. Qed.

Lemma shifted_id delta s : id (shifted delta s) = id s.
Proof. unfold shifted. by case_match. Qed.

Section Words.
Hypothesis space_is_space : isspace SPACE = true.

(** ** The characters of a text that are no white space *)

Definition squeeze (t : text) : text := base.filter (fun c => isspace c = false) t.

Lemma squeeze_app t u : squeeze (t ++ u) = squeeze t ++ squeeze u.
Proof. apply filter_app. Qed.

Lemma squeeze_space c t : isspace c = true -> squeeze (c :: t) = squeeze t.
Proof. intros H. unfold squeeze. rewrite filter_cons_False; [done|]. by rewrite H. Qed.

Lemma squeeze_reverse t : squeeze (reverse t) = reverse (squeeze t).
Proof.
  induction t as [|c t IH]; [done|]. rewrite reverse_cons, squeeze_app, IH.
  change (c :: t) with ([c] ++ t). rewrite squeeze_app, reverse_app. f_equal.
  unfold squeeze. destruct (decide (isspace c = false)) as [E|E]; [by rewrite filter_cons_True|].
  by rewrite filter_cons_False.
Qed.

Lemma squeeze_drop_space t : squeeze (drop_space isspace t) = squeeze t.
Proof. induction t as [|c t IH]; [done|]. simpl. destruct (isspace c) eqn:E; [by rewrite squeeze_space|done]. Qed.

Lemma squeeze_strip t : squeeze (strip t) = squeeze t.
Proof.
  unfold TranscriptSegments.strip.
  by rewrite squeeze_reverse, squeeze_drop_space, squeeze_reverse, squeeze_drop_space, reverse_involutive.
Qed.

Lemma squeeze_spaced a b : squeeze (spaced a b) = squeeze a ++ squeeze b.
Proof. unfold spaced. by rewrite squeeze_app, squeeze_space. Qed.

Lemma squeeze_sentences t : forall skipping cur,
  concat (squeeze <$> sentences skipping cur t) = squeeze (cur ++ t).
Proof.
  induction t as [|c t IH]; intros skipping cur; simpl.
  - rewrite app_nil_r. destruct cur; [done|]. simpl. by rewrite app_nil_r.
  - destruct (skipping && isspace c) eqn:E.
    + apply andb_true_iff in E as [_ E]. rewrite IH, !squeeze_app. f_equal. by rewrite squeeze_space.
    + destruct (is_ender c); [cbn [fmap list_fmap concat]|]; rewrite IH; [rewrite <- squeeze_app|];
        by rewrite <- app_assoc.
Qed.

Lemma squeeze_join parts : squeeze (join_spaced parts) = concat (squeeze <$> parts).
Proof.
  induction parts as [|p [|q parts] IH]; [done|simpl; by rewrite app_nil_r|].
  change (join_spaced (p :: q :: parts)) with (spaced p (join_spaced (q :: parts))).
  by rewrite squeeze_spaced, IH.
Qed.

Lemma incomplete_words t last_incomplete prefix :
  _extract_last_incomplete_sentence isspace t = (Some last_incomplete, prefix) ->
  squeeze prefix ++ squeeze last_incomplete = squeeze t.
Proof.
  unfold _extract_last_incomplete_sentence. destruct (sentences false [] (strip t)) as [|p parts] eqn:E; [done|].
  destruct (negb _); [|done]. intros [= <- <-].
  rewrite squeeze_strip, squeeze_join. rewrite <- (squeeze_strip t), <- (app_nil_l (strip t)).
  rewrite <- (squeeze_sentences (strip t) false []), E.
  etrans; [|by rewrite (app_removelast_last [] (l := p :: parts))].
  rewrite fmap_app, concat_app. cbn [fmap list_fmap concat]. by rewrite app_nil_r.
Qed.

Lemma first_sentence_words t first rest :
  _split_first_sentence isspace t = (first, rest) -> squeeze first ++ squeeze rest = squeeze t.
Proof.
  unfold _split_first_sentence. rewrite <- (squeeze_strip t), <- (app_nil_l (strip t)).
  rewrite <- (squeeze_sentences (strip t) false []), app_nil_l.
  destruct (sentences false [] (strip t)) as [|p parts]; intros [= <- <-]; [done|].
  by rewrite squeeze_strip, squeeze_join.
Qed.

Lemma squeeze_close_up c t : squeeze (close_up c t) = squeeze t.
Proof.
  induction t as [|x t IH]; [done|]. cbn [close_up]. destruct ((x =? SPACE) && _) eqn:E.
  - apply andb_true_iff in E as [Ex%Z.eqb_eq _]. subst x. by rewrite squeeze_space.
  - change (x :: close_up c t) with ([x] ++ close_up c t). by rewrite squeeze_app, IH, <- squeeze_app.
Qed.

Lemma squeeze_cons x t : squeeze (x :: t) = squeeze [x] ++ squeeze t.
Proof. by rewrite <- squeeze_app. Qed.

Lemma squeeze_halve t : squeeze (halve_spaces t) = squeeze t /\ forall x, squeeze (halve_spaces (x :: t)) = squeeze (x :: t).
Proof.
  induction t as [|y t [IH1 IH2]]; [done|]. split; [apply IH2|]. intros x.
  change (halve_spaces (x :: y :: t)) with
    (if (x =? SPACE) && (y =? SPACE) then SPACE :: halve_spaces t else x :: halve_spaces (y :: t)).
  destruct ((x =? SPACE) && (y =? SPACE)) eqn:E.
  - apply andb_true_iff in E as [->%Z.eqb_eq ->%Z.eqb_eq]. by rewrite !(squeeze_space SPACE).
  - by rewrite (squeeze_cons x), IH2, <- squeeze_cons.
Qed.

Lemma squeeze_normalize t : squeeze (normalize_spacing isspace t) = squeeze t.
Proof.
  unfold normalize_spacing. rewrite !squeeze_close_up. by rewrite (proj1 (squeeze_halve _)), squeeze_strip.
Qed.

(** The words of a transcript. *)
Definition words (l : list TranscriptSegment) : text := concat (squeeze ∘ seg_text <$> l).

Lemma words_app l k : words (l ++ k) = words l ++ words k.
Proof. unfold words. by rewrite fmap_app, concat_app. Qed.

Lemma words_one s : words [s] = squeeze (seg_text s).
Proof. unfold words. simpl. apply app_nil_r. Qed.

Lemma words_normalized l : words (normalized <$> l) = words l.
Proof.
  unfold words. rewrite <- list_fmap_compose. f_equal. apply list_fmap_ext. intros _ s _. apply squeeze_normalize.
Qed.

Lemma nonempty_false t : nonempty t = false -> t = [].
Proof. by destruct t. Qed.

Lemma repair_words a b r :
  repair_sentence isspace isalpha islower a b = Some r -> words (kept_of r) = words [a; b].
Proof.
  unfold repair_sentence, _can_backward_merge_first_sentence, _can_backward_merge_single_sentence.
  destruct (_extract_last_incomplete_sentence _ _) as [[li|] prefix] eqn:Ea; [|done].
  destruct (_split_first_sentence _ _) as [first rest] eqn:Eb.
  apply incomplete_words in Ea. apply first_sentence_words in Eb.
  change [a; b] with ([a] ++ [b]). rewrite words_app, !words_one, <- Eb.
  destruct (nonempty rest && _ && _) eqn:E1;
    [|destruct (nonempty first && _ && _) eqn:E2; [|destruct (shorter li _); [|intros ?; discriminate]]];
    intros [= <-].
  - change (kept_of _) with ([with_text a (strip (spaced (seg_text a) first))] ++ [with_text b rest]).
    rewrite words_app, !words_one. cbn [seg_text with_text]. by rewrite squeeze_strip, squeeze_spaced, <- app_assoc.
  - cbn [kept_of]. rewrite words_one. cbn [seg_text with_text]. rewrite squeeze_strip, squeeze_spaced.
    assert (rest = []) as ->. { apply nonempty_false. apply andb_true_iff in E2 as [[Hf _]%andb_true_iff Hs].
      rewrite Hf, Hs in E1. by destruct (nonempty rest). }
    by rewrite app_nil_r.
  - rewrite <- Ea, Eb. destruct (nonempty prefix) eqn:Ep.
    + cbn [kept_of]. unfold words. cbn [fmap list_fmap concat compose seg_text with_text with_span].
      by rewrite app_nil_r, squeeze_strip, squeeze_spaced, app_assoc.
    + apply nonempty_false in Ep as ->. cbn [kept_of]. rewrite words_one. cbn [seg_text with_text].
      by rewrite squeeze_strip, squeeze_spaced.
Qed.

Lemma merges_words protected a b r : merges protected a b r -> words (kept_of r) = words [a; b].
Proof.
  intros [|r' _ _ Hr|_]; [done|by apply repair_words|].
  cbn [kept_of]. rewrite words_one. cbn [seg_text with_text with_span]. rewrite squeeze_spaced.
  unfold words. cbn [fmap list_fmap concat compose]. by rewrite app_nil_r.
Qed.

(** ** Words *)

Lemma joins_words protected tail b st st' :
  joins protected tail b st st' ->
  words (joined_similar_segments st') = words (joined_similar_segments st) ++ squeeze (seg_text b).
Proof.
  intros [st0 H|st0 kept a r removed absorbed H Hm _]; cbn [joined_similar_segments]; rewrite H; [by rewrite words_one|].
  rewrite !words_app, (merges_words _ _ _ _ Hm), words_one, <- app_assoc. f_equal.
  unfold words. cbn [fmap list_fmap concat compose]. by rewrite app_nil_r.
Qed.

Lemma join_all_words protected delta stored batch :
  words (joined_similar_segments (join_all protected delta stored batch)) =
  words (joined_similar_segments (join_start stored)) ++ words batch.
Proof.
  rewrite <- (app_nil_r (words (joined_similar_segments (join_all _ _ _ _)))).
  apply (join_all_ind (fun todo st => words (joined_similar_segments st) ++ words todo =
           words (joined_similar_segments (join_start stored)) ++ words batch) protected delta stored batch); [|done].
  intros s rest st st' H Hj. apply joins_words in Hj. rewrite Hj, shifted_text, <- app_assoc, <- H.
  change (s :: rest) with ([s] ++ rest). by rewrite words_app, words_one.
Qed.

(** C13: combining loses, adds and reorders no word.  Whatever repairs and joins
    the call makes, the characters of the stored transcript after it, white
    space aside, are those of the stored transcript before it followed by those
    of the new segments, in the same order: a sentence moves to another
    speaker, and is never dropped or repeated. *)
Theorem combining_keeps_every_word protected stored batch delta :
  words (segments (combine_segments protected stored batch delta)) = words (stored ++ batch).
Proof.
  destruct batch as [|b batch]; [by rewrite app_nil_r|].
  rewrite combine_result by done. cbn [segments]. rewrite words_normalized, words_app, join_all_words.
  rewrite (earlier_split stored) at 3. by rewrite !words_app, app_assoc.
Qed.

End Words.

(** ** Ids *)

Definition ids (l : list TranscriptSegment) : list string := id <$> l.

(** Every id taken so far is live or removed, and a removed id leads to a live
    one. *)
Record tracked (all : list string) (todo : list TranscriptSegment) (st : JoinState) : Prop := {
  tracked_ids : ids (joined_similar_segments st) ++ removed_ids st ++ ids todo ≡ₚ all;
  tracked_dom : forall x, is_Some (absorbed_into st !! x) <-> x ∈ removed_ids st;
  tracked_end : forall x, x ∈ removed_ids st ->
    exists y, y ∈ ids (joined_similar_segments st) /\ tc (fun u v => absorbed_into st !! u = Some v) x y;
}.

(** One id goes: its chain, and those that ended in it, go on to the keeper. *)
Lemma absorb_tracked all taken todo st child parent js dropped :
  tracked all taken st -> NoDup all ->
  ids js ++ child :: removed_ids st ++ ids todo ≡ₚ all -> parent ∈ ids js ->
  (forall x, x ∈ ids (joined_similar_segments st) -> x <> child -> x ∈ ids js) ->
  tracked all todo
    {| joined_similar_segments := js; dropped_existing_tail := dropped;
       removed_ids := removed_ids st ++ [child]; absorbed_into := <[child := parent]> (absorbed_into st) |}.
Proof.
  intros [_ Hdom Hend] Hnd Hall Hlive Hother.
  assert (child ∉ removed_ids st) as Hfresh.
  { intros Hin. rewrite <- Hall in Hnd. apply NoDup_app in Hnd as (_ & _ & Hnd).
    apply NoDup_cons in Hnd as [Hnd _]. apply Hnd. apply elem_of_app. by left. }
  assert (absorbed_into st !! child = None) as Hnone.
  { apply eq_None_not_Some. rewrite Hdom. done. }
  split; cbn [joined_similar_segments removed_ids absorbed_into].
  - rewrite <- Hall. by rewrite <- app_assoc, (Permutation_middle (removed_ids st)).
  - intros x. rewrite elem_of_app, list_elem_of_singleton, <- Hdom, lookup_insert_is_Some.
    destruct (decide (child = x)); naive_solver.
  - assert (forall u v, absorbed_into st !! u = Some v -> <[child:=parent]> (absorbed_into st) !! u = Some v) as Hsub.
    { intros u v Hu. rewrite lookup_insert_ne; [done|congruence]. }
    assert (<[child:=parent]> (absorbed_into st) !! child = Some parent) as Hedge by apply lookup_insert_eq.
    intros x [Hx|Hx]%elem_of_app.
    + destruct (Hend x Hx) as (y & Hy & Hxy).
      assert (tc (fun u v => <[child:=parent]> (absorbed_into st) !! u = Some v) x y) as Hxy'.
      { clear -Hxy Hsub. induction Hxy; [by apply tc_once; auto|]. eapply tc_l; eauto. }
      destruct (decide (y = child)) as [->|Hne]; [|by eauto].
      exists parent. split; [done|]. eapply tc_r; eauto.
    + apply list_elem_of_singleton in Hx as ->. exists parent. split; [done|]. by apply tc_once.
Qed.

Lemma _absorb_named child parent removed absorbed :
  child <> "" -> parent <> "" -> absorbed !! child = None ->
  _absorb child parent removed absorbed = (removed ++ [child], <[child := parent]> absorbed).
Proof.
  intros Hc Hp Hn. unfold _absorb. rewrite (proj2 (String.eqb_neq _ _) Hc), (proj2 (String.eqb_neq _ _) Hp).
  by rewrite Hn.
Qed.
Lemma ids_app l k : ids (l ++ k) = ids l ++ ids k.
Proof. apply fmap_app. Qed.

(** Where a pair's ids go. *)
Lemma merges_kept_ids protected a b r :
  merges protected a b r ->
  match absorption a b r with
  | None => ids (kept_of r) = [id a; id b]
  | Some (child, parent) => ids (kept_of r) = [parent] /\ (child = id b /\ parent = id a \/ child = id a /\ parent = id b)
  end.
Proof.
  intros H. apply merges_ids in H. destruct r as [a' b'|a'|b']; cbn [absorption kept_of ids fmap list_fmap].
  - by destruct H as [-> ->].
  - rewrite H. naive_solver.
  - rewrite H. naive_solver.
Qed.

Lemma joins_tracked protected tail all s rest st st' delta :
  NoDup all -> "" ∉ all -> tracked all (s :: rest) st ->
  joins protected tail (shifted delta s) st st' -> tracked all rest st'.
Proof.
  intros Hnd Hne Ht Hj. pose proof Ht as [Hids Hdom Hend].
  assert (forall x, x ∈ id s :: ids (joined_similar_segments st) -> x <> "") as Hnamed.
  { intros x Hx ->. apply Hne. rewrite <- Hids, !elem_of_app. cbn. set_solver. }
  destruct Hj as [st Hj|st kept a r removed absorbed Hj Hm Hr].
  - rewrite Hj in *. split; cbn [joined_similar_segments removed_ids absorbed_into]; [|done|].
    + rewrite <- Hids. cbn. rewrite shifted_id. apply Permutation_middle.
    + intros x Hx. destruct (Hend x Hx) as (y & Hy & _). set_solver.
  - apply merges_kept_ids in Hm. rewrite shifted_id in Hm. rewrite Hj, ids_app in Hids, Hnamed.
    destruct (absorption a (shifted delta s) r) as [[child parent]|].
    + destruct Hm as [Hk Hcp].
      assert (absorbed_into st !! child = None) as Hnone.
      { apply eq_None_not_Some. rewrite Hdom. intros Hin. rewrite <- Hids in Hnd. cbn in Hnd.
        destruct Hcp as [[-> _]|[-> _]]; apply NoDup_app in Hnd as (H1 & H2 & H3).
        - apply NoDup_app in H3 as (_ & H3 & _). apply (H3 _ Hin). left.
        - apply (H2 (id a)); [set_solver|]. apply elem_of_app. by left. }
      rewrite _absorb_named in Hr; [|apply Hnamed; set_solver..|done]. injection Hr as -> ->.
      eapply (absorb_tracked all (s :: rest) rest st); [done|done| | |].
      * rewrite <- Hids, ids_app, Hk. cbn. rewrite <- !app_assoc. f_equiv. cbn.
        destruct Hcp as [[-> ->]|[-> ->]]; [f_equiv|rewrite (Permutation_swap _ (id s)); f_equiv];
          by rewrite <- Permutation_middle.
      * rewrite ids_app, Hk. set_solver.
      * rewrite Hj, !ids_app, Hk. cbn. set_solver.
    + injection Hr as -> ->. split; cbn [joined_similar_segments removed_ids absorbed_into]; [|done|].
      * rewrite <- Hids, ids_app, Hm. cbn. rewrite <- !app_assoc. f_equiv. cbn. f_equiv. apply Permutation_middle.
      * intros x Hx. destruct (Hend x Hx) as (y & Hy & ?). exists y. split; [|done].
        rewrite Hj, ids_app in Hy. rewrite ids_app, Hm. set_solver.
Qed.
Lemma join_all_tracked protected delta stored batch :
  NoDup (ids (stored ++ batch)) -> "" ∉ ids (stored ++ batch) ->
  tracked (ids (joined_similar_segments (join_start stored) ++ batch)) [] (join_all protected delta stored batch).
Proof.
  rewrite (earlier_split stored) at 1 2. rewrite <- app_assoc, (ids_app (earlier stored)).
  intros (_ & _ & Hnd)%NoDup_app Hne.
  apply (join_all_ind (tracked _)).
  - intros s rest st st' Ht Hj. eapply joins_tracked; [exact Hnd|set_solver|exact Ht|exact Hj].
  - split; cbn [join_start removed_ids absorbed_into].
    + by rewrite ids_app.
    + intros x. rewrite lookup_empty, is_Some_alt. set_solver.
    + intros x Hx. set_solver.
Qed.

Lemma ids_normalized l : ids (normalized <$> l) = ids l.
Proof. unfold ids. rewrite <- list_fmap_compose. by apply list_fmap_ext. Qed.

(** C26: every segment survives or is absorbed, never both.  With distinct ids,
    the ids of the stored and new segments are, without repetition, those of
    the result and the removed ones; the map of absorptions names exactly the
    removed ids, and following it from a removed id ends in a segment of the
    result that the call reports as touched. *)
Theorem every_segment_is_accounted_for protected stored batch delta :
  NoDup (ids (stored ++ batch)) -> "" ∉ ids (stored ++ batch) ->
  let r := combine_segments protected stored batch delta in
  ids (segments r) ++ res_removed_ids r ≡ₚ ids (stored ++ batch) /\
  forall x, (x ∈ res_removed_ids r <-> is_Some (res_absorbed_into r !! x)) /\
    (x ∈ res_removed_ids r ->
       exists y, y ∈ ids (joined r) /\ y ∈ ids (segments r) /\
                 tc (fun u v => res_absorbed_into r !! u = Some v) x y).
Proof.
  intros Hnd Hne. cbn zeta. destruct batch as [|b batch].
  { cbn. rewrite !app_nil_r. split; [done|]. intros x. rewrite lookup_empty, is_Some_alt. set_solver. }
  rewrite combine_result by done. cbn [segments joined res_removed_ids res_absorbed_into].
  destruct (join_all_tracked protected delta _ _ Hnd Hne) as [Hids Hdom Hend]. rewrite app_nil_r in Hids.
  rewrite !ids_normalized, ids_app, <- app_assoc. split.
  - rewrite Hids, <- ids_app, app_assoc. by rewrite <- earlier_split.
  - intros x. split; [symmetry; apply Hdom|]. intros Hx. destruct (Hend x Hx) as (y & Hy & Hxy).
    exists y. set_solver.
Qed.

(** ** Protected segments *)

Lemma joins_protected protected tail b st st' s :
  joins protected tail b st st' -> protected (id s) = true ->
  s ∈ joined_similar_segments st \/ s = b -> s ∈ joined_similar_segments st'.
Proof.
  intros [st0 H|st0 kept a r removed absorbed H Hm _] Hp Hs; cbn [joined_similar_segments] in *; rewrite H in Hs.
  - set_solver.
  - assert (s ∈ kept \/ s = a \/ s = b) as [?|Hab] by set_solver; [set_solver|].
    assert (joinable protected a b = false) as Hj.
    { unfold joinable. destruct Hab as [<-|<-]; rewrite Hp; by rewrite ?orb_true_r. }
    destruct Hm as [|r Hj' _ _|Hj']; [|congruence..]. set_solver.
Qed.

Lemma join_all_protected protected delta stored batch s :
  protected (id s) = true ->
  s ∈ shifted delta <$> batch \/ s ∈ joined_similar_segments (join_start stored) ->
  s ∈ joined_similar_segments (join_all protected delta stored batch).
Proof.
  intros Hp Hs. cut (s ∈ shifted delta <$> [] \/ s ∈ joined_similar_segments (join_all protected delta stored batch));
    [set_solver|].
  apply (join_all_ind (fun todo st => s ∈ shifted delta <$> todo \/ s ∈ joined_similar_segments st)
           protected delta stored batch); [|done].
  intros s0 rest st st' H Hj. rewrite fmap_cons, elem_of_cons in H.
  destruct H as [[H|H]|H]; [right|by left|right]; eapply joins_protected; eauto.
Qed.

(** A protected segment is never rewritten.  A segment a person has
    labelled is in the stored transcript after the call with the words, times
    and speaker it had (only its spacing is normalised, and the offset of the
    batch is added to a new one), whatever arrives around it. *)
Theorem protected_segments_are_kept protected stored batch delta s :
  protected (id s) = true -> batch <> [] ->
  s ∈ stored \/ s ∈ shifted delta <$> batch ->
  normalized s ∈ segments (combine_segments protected stored batch delta).
Proof.
  intros Hp Hb Hs. rewrite combine_result by done. cbn [segments]. apply list_elem_of_fmap_2.
  rewrite (earlier_split stored), elem_of_app in Hs. rewrite elem_of_app.
  destruct Hs as [[Hs|Hs]|Hs]; [by left|right; apply join_all_protected; auto ..].
Qed.

(** A protected segment is never absorbed. *)
Lemma joins_removed protected tail b st st' :
  joins protected tail b st st' ->
  (forall x, x ∈ removed_ids st -> protected x = false) -> forall x, x ∈ removed_ids st' -> protected x = false.
Proof.
  intros [st0 H|st0 kept a r removed absorbed H Hm Hr] Hold x; cbn [removed_ids]; [auto|].
  assert (absorption a b r <> None -> protected (id a) = false /\ protected (id b) = false) as Hfree.
  { intros Hab. assert (joinable protected a b = true) as Hj by (by destruct Hm).
    unfold joinable in Hj. destruct (protected (id a)), (protected (id b)); done. }
  destruct (absorption a b r) as [[child parent]|] eqn:Hab; [|injection Hr as -> _; auto].
  destruct Hfree as [Ha Hb]; [done|].
  assert (protected child = false) as Hc by (destruct r; cbn in Hab; congruence).
  unfold _absorb in Hr. destruct (String.eqb child ""); [injection Hr as -> _; auto|].
  destruct (absorbed_into st0 !! child); injection Hr as -> _; [auto|].
  intros [Hx|Hx]%elem_of_app; [auto|]. by apply list_elem_of_singleton in Hx as ->.
Qed.

Lemma join_all_removed protected delta stored batch x :
  x ∈ removed_ids (join_all protected delta stored batch) -> protected x = false.
Proof.
  revert x. apply (join_all_ind (fun _ st => forall x, x ∈ removed_ids st -> protected x = false) protected delta stored batch).
  - intros s rest st st' H Hj. by eapply joins_removed.
  - cbn. set_solver.
Qed.

(** ** Time *)

Definition forward (s : TranscriptSegment) : Prop := (start s <= end_ s)%Q.

(** [b] begins no earlier and ends no earlier than [a]. *)
Definition follows (a b : TranscriptSegment) : Prop := (start a <= start b)%Q /\ (end_ a <= end_ b)%Q.

Definition starts_before (a b : TranscriptSegment) : Prop := (start a <= start b)%Q.

(** Each segment runs forward, and neighbours are related. *)
Fixpoint in_order (R : TranscriptSegment -> TranscriptSegment -> Prop) (l : list TranscriptSegment) : Prop :=
  match l with
  | [] => True
  | a :: rest => forward a /\ match rest with b :: _ => R a b | [] => True end /\ in_order R rest
  end.

Lemma in_order_app R l k :
  in_order R (l ++ k) <-> in_order R l /\ in_order R k /\
    (forall a b, last l = Some a -> head k = Some b -> R a b).
Proof.
  induction l as [|x l IH]; [cbn; naive_solver|].
  destruct l as [|y l].
  - destruct k as [|b k]; cbn; naive_solver.
  - change ((x :: y :: l) ++ k) with (x :: (y :: l) ++ k). cbn [in_order]. rewrite IH. cbn. naive_solver.
Qed.

(** What a pair in order leaves: a stretch in order that starts no earlier than
    the pair and whose last segment neither starts nor ends after it. *)
Definition within (a b : TranscriptSegment) (l : list TranscriptSegment) : Prop :=
  in_order starts_before l /\
  (forall x, head l = Some x -> (start a <= start x)%Q) /\
  exists y, last l = Some y /\ (start y <= start b)%Q /\ (end_ y <= end_ b)%Q.

Lemma within_two a b x y :
  forward x -> forward y -> (start a <= start x)%Q -> (start x <= start y)%Q ->
  (start y <= start b)%Q -> (end_ y <= end_ b)%Q -> within a b [x; y].
Proof.
  intros. split_and!; [by cbn|by intros ? [= <-]|]. exists y. by split_and!.
Qed.

Lemma within_one a b x :
  forward x -> (start a <= start x)%Q -> (start x <= start b)%Q -> (end_ x <= end_ b)%Q -> within a b [x].
Proof. intros. split_and!; [by cbn|by intros ? [= <-]|]. exists x. by split_and!. Qed.

Lemma merges_in_order protected a b r :
  merges protected a b r -> forward a -> forward b -> follows a b -> within a b (kept_of r).
Proof.
  unfold forward. intros Hm Ha Hb [Hs He]. pose proof Qle_refl as Hrefl.
  destruct Hm as [|r _ Hc Hr|_].
  - by apply within_two.
  - unfold repair_sentence in Hr. repeat case_match; simplify_eq; cbn [kept_of].
    + by apply within_two.
    + by apply within_one.
    + apply within_two; try done. unfold forward, Qmin. cbn. by case_match.
    + by apply within_one.
  - apply within_one; try done. unfold forward. cbn. by eapply Qle_trans.
Qed.

(** The joined segments are in order, start no earlier than the stored tail, and
    are followed by what is to come. *)
Definition on_time (tail : option TranscriptSegment) (todo : list TranscriptSegment) (st : JoinState) : Prop :=
  in_order starts_before (joined_similar_segments st) /\
  (forall t, tail = Some t -> exists x, head (joined_similar_segments st) = Some x /\ starts_before t x) /\
  in_order follows (option_list (last (joined_similar_segments st)) ++ todo).

Lemma joins_on_time protected tail_id tail s rest st st' :
  on_time tail (s :: rest) st -> joins protected tail_id s st st' -> on_time tail rest st'.
Proof.
  unfold on_time, starts_before. intros (H1 & Hfrom & H2) Hj.
  destruct Hj as [st Hj|st kept a r removed absorbed Hj Hm _]; cbn [joined_similar_segments]; rewrite Hj in *.
  - split_and!; [cbn in *; tauto| |cbn in *; tauto]. intros t Ht. by destruct (Hfrom t Ht) as (? & ? & _).
  - rewrite last_snoc in H2. cbn in H2. destruct H2 as (Ha & Hab & Hb & Hnext & Hrest).
    destruct (merges_in_order _ _ _ _ Hm Ha Hb Hab) as (Hk & Hhead & y & Hy & Hys & Hye).
    apply in_order_app in H1 as (H1 & _ & Hlast). split_and!.
    + apply in_order_app. split_and!; [done|done|]. intros p x Hp Hx.
      unfold starts_before. eapply Qle_trans; [by apply (Hlast p a)|]. by apply Hhead.
    + intros t Ht. destruct (Hfrom t Ht) as (x & Hx & Htx). destruct kept as [|k kept]; [|by exists x].
      injection Hx as <-. destruct (kept_of r) as [|x l]; [done|]. exists x. split; [done|].
      eapply Qle_trans; [done|]. by apply Hhead.
    + assert (last (kept ++ kept_of r) = Some y) as -> by (by rewrite last_app, Hy).
      assert (forward y) as Hfy.
      { apply last_Some in Hy as [l Hy]. rewrite Hy in Hk. apply in_order_app in Hk. cbn in Hk. tauto. }
      cbn. split_and!; [done| |done]. destruct rest as [|c rest]; [done|]. destruct Hnext as [Hn1 Hn2].
      split; [exact (Qle_trans _ _ _ Hys Hn1)|exact (Qle_trans _ _ _ Hye Hn2)].
Qed.

Lemma join_all_on_time protected delta stored batch :
  in_order starts_before stored -> in_order follows (option_list (last stored) ++ (shifted delta <$> batch)) ->
  on_time (last stored) [] (join_all protected delta stored batch).
Proof.
  intros H1 H2. change [] with (shifted delta <$> []).
  apply (join_all_ind (fun todo => on_time (last stored) (shifted delta <$> todo)) protected delta stored batch).
  - intros s rest st st' H Hj. eapply joins_on_time; [exact H|exact Hj].
  - unfold on_time, join_start. cbn [joined_similar_segments]. destruct (last stored) as [t|] eqn:Ht; [|by split_and!].
    apply last_split in Ht. rewrite Ht in H1. apply in_order_app in H1. split_and!; [tauto| |done].
    intros ? [= <-]. exists t. split; [done|]. apply Qle_refl.
Qed.

Lemma in_order_normalized l : in_order starts_before l -> in_order starts_before (normalized <$> l).
Proof. induction l as [|a l IH]; [done|]. intros (Ha & Hb & Hl). split_and!; [done|by destruct l|auto]. Qed.

(** On time in, on time out.  When the stored segments run forward with
    starts that do not decrease, and the new ones each run forward and begin
    and end no earlier than the one before (the stored tail included), the
    same holds of the stored transcript after the call: no repair or join
    yields a segment that ends before it starts, or one that starts before its
    predecessor. *)
Theorem timely_batches_stay_in_order protected stored batch delta :
  in_order starts_before stored ->
  in_order follows (option_list (last stored) ++ (shifted delta <$> batch)) ->
  in_order starts_before (segments (combine_segments protected stored batch delta)).
Proof.
  intros H1 H2. destruct batch as [|b batch]; [done|]. rewrite combine_result by done. cbn [segments].
  apply in_order_normalized. destruct (join_all_on_time protected delta _ _ H1 H2) as (Hj & Hfrom & _).
  pose proof (earlier_split stored) as Hs. unfold join_start in Hs. destruct (last stored) as [t|] eqn:Ht.
  - rewrite Hs in H1. apply in_order_app in H1 as (He & _ & Hl). apply in_order_app. split_and!; [done|done|].
    intros p x Hp Hx. destruct (Hfrom t eq_refl) as (y & Hy & Hty). assert (x = y) as -> by congruence.
    eapply Qle_trans; [by apply (Hl p t)|done].
  - apply last_None in Ht as ->. done.
Qed.

(** A late arrival of the same speaker is joined all the same: its window is
    one-sided, and the tail's end moves back before its start. *)
Lemma late_arrival_runs_backward protected a b :
  joinable protected a b = true -> speaker a = speaker b ->
  speech_profile_processed a = speech_profile_processed b -> (length (seg_text a) < 125)%nat ->
  (start b <= end_ a)%Q -> (end_ b < start a)%Q ->
  exists a', merge protected a b = KeptFirst a' /\ (end_ a' < start a')%Q.
Proof.
  intros Hj Hs Hp Hlen Hwin Hlate. unfold _merge. rewrite Hj. cbn [negb].
  rewrite (bool_decide_true (speaker a = speaker b)) by done. cbn [negb andb].
  assert (_should_merge_same_speaker a b = true) as ->; [|by eexists].
  unfold _should_merge_same_speaker, same_voice, Qlt_bool. rewrite bool_decide_true by done.
  rewrite Hp, eqb_reflx, (proj2 (Nat.ltb_lt _ _) Hlen). cbn [orb andb]. rewrite andb_true_r.
  apply negb_true_iff, not_true_iff_false. rewrite Qle_bool_iff. intros H.
  assert (start b - end_ a <= 0)%Q by (apply (Qplus_le_l _ _ (end_ a)); ring_simplify; done).
  assert (inject_Z 3 <= 0)%Q as Habs by (by eapply Qle_trans). by vm_compute in Habs.
Qed.
End Combining.

(** ** A conversation *)

Module Talk.

Definition say (s : string) : text := (fun c => Z.of_N (N_of_ascii c)) <$> list_ascii_of_string s.

Definition ascii_space (c : Z) : bool := (c =? 32) || (9 <=? c) && (c <=? 13).
Definition ascii_lower (c : Z) : bool := (97 <=? c) && (c <=? 122).
Definition ascii_alpha (c : Z) : bool := ascii_lower c || (65 <=? c) && (c <=? 90).

Definition seg (name voice words : string) (from to : Z) : TranscriptSegment :=
  {| id := name; seg_text := say words; speaker := Some voice; speaker_id := 0; is_user := false;
     person_id := None; start := inject_Z from; end_ := inject_Z to; translations := [];
     speech_profile_processed := true; stt_provider := None; speaker_match_source := None;
     speaker_id_scope := None; speaker_identity_status := "unknown" |}.

Definition stored : list TranscriptSegment :=
  [seg "s1" "SPEAKER_00" "Good morning." 0 2; seg "s2" "SPEAKER_01" "I was about to" 3 5].

Definition batch : list TranscriptSegment :=
  [seg "n1" "SPEAKER_02" "say. Wait a moment" 5 7; seg "n2" "SPEAKER_02" "please." 7 8].

Definition nobody (_ : string) : bool := false.

Definition call (protected : string -> bool) : CombineSegmentsResult :=
  combine_segments ascii_space ascii_alpha ascii_lower protected stored batch 0.

(** The first sentence of the newcomer completes the one begun before it, and
    the newcomer's own two segments are one. *)
Example call_texts :
  (fun s => (id s, seg_text s)) <$> segments (call nobody) =
  [("s1", say "Good morning."); ("s2", say "I was about to say."); ("n1", say "Wait a moment please.")] /\
  res_removed_ids (call nobody) = ["n2"].
Proof. split; vm_compute; reflexivity. Qed.

Lemma combining_keeps_every_word_witness :
  words ascii_space (segments (call nobody)) = words ascii_space (stored ++ batch).
Proof. apply (combining_keeps_every_word ascii_space ascii_alpha ascii_lower eq_refl nobody stored batch 0). Defined.

Lemma every_segment_is_accounted_for_witness :
  ids (segments (call nobody)) ++ res_removed_ids (call nobody) ≡ₚ ids (stored ++ batch).
Proof.
  apply (every_segment_is_accounted_for ascii_space ascii_alpha ascii_lower nobody stored batch 0);
    vm_compute; [|intros H; repeat (apply elem_of_cons in H as [H|H]; [discriminate|]); by apply not_elem_of_nil in H].
  repeat (constructor; [intros H; repeat (apply elem_of_cons in H as [H|H]; [discriminate|]); by apply not_elem_of_nil in H|]).
  constructor.
Defined.

Lemma protected_segments_are_kept_witness :
  normalized ascii_space (seg "s2" "SPEAKER_01" "I was about to" 3 5) ∈ segments (call (String.eqb "s2")).
Proof.
  apply (protected_segments_are_kept ascii_space ascii_alpha ascii_lower (String.eqb "s2") stored batch 0);
    [reflexivity|discriminate|]. left. right. left.
Defined.

Lemma timely_batches_stay_in_order_witness : in_order starts_before (segments (call nobody)).
Proof.
  apply (timely_batches_stay_in_order ascii_space ascii_alpha ascii_lower nobody stored batch 0);
    repeat split; by vm_compute.
Defined.
End Talk.
