(* ===== verification/ManualSpeakers.v ===== *)
(** Manual speaker assignments ([utils/manual_speaker_assignments.py]): the
    receipt of a conversation's explicit identity decisions, its application to
    segments, its move along absorbed segments, and the edit that adds a
    decision.

    Stored segments are documents.  A receipt is written only by the functions
    below, so it is a record with the fields they write; an empty map stands for
    an absent one, which the code treats alike. *)
From stdpp Require Import sorting.
From S2P Require Export Sha1 Text SyncMerge.

Definition TEACHING_CANDIDATE_LIMIT : nat := 3.

(** ** Decisions and receipts *)

Record ManualDecision : Type := {
  generation : Z;
  decision_person_id : option string;
  decision_is_user : bool;
  use_for_speech_training : bool;
}.

Record Receipt : Type := {
  receipt_segments : gmap string ManualDecision;
  receipt_speakers : gmap string ManualDecision;
  receipt_generation : Z;
}.

Definition empty_receipt : Receipt :=
  {| receipt_segments := ∅; receipt_speakers := ∅; receipt_generation := 0 |}.

Definition segment_id (segment : doc) : option string := as_str (py_get segment "id").

Definition by_segment (r : Receipt) (segment : doc) : option ManualDecision :=
  segment_id segment ≫= fun sid => receipt_segments r !! sid.

Definition by_speaker (r : Receipt) (segment : doc) : option ManualDecision :=
  receipt_speakers r !! py_str (py_get segment "speaker_id").

(** [max(decisions, key=generation)]: the first of equal ones. *)
Definition newest (a b : option ManualDecision) : option ManualDecision :=
  match a, b with
  | Some x, Some y => Some (if generation x <? generation y then y else x)
  | Some x, None => Some x
  | None, _ => b
  end.

Definition decision_for (r : Receipt) (segment : doc) : option ManualDecision :=
  newest (by_segment r segment) (by_speaker r segment).

(** ** Applying a receipt *)

Definition opt_str (o : option string) : pyval := match o with Some s => PStr s | None => PNone end.

Definition named (person : option string) : bool :=
  match person with Some p => negb (String.eqb p "") | None => false end.

Definition identity_status (d : ManualDecision) : string :=
  if decision_is_user d then "user" else if named (decision_person_id d) then "not_user" else "unknown".

Definition is_none (v : pyval) : bool := match v with PNone => true | _ => false end.

Definition already_applied (segment : doc) (d : ManualDecision) : bool :=
  py_eqb (py_get segment "is_user") (PBool (decision_is_user d))
  && py_eqb (py_get segment "person_id") (opt_str (decision_person_id d))
  && is_str (py_get segment "speaker_identity_status") (identity_status d)
  && is_none (py_get segment "speaker_match_source").

Definition write_decision (segment : doc) (d : ManualDecision) : doc :=
  doc_update segment
    [put_bool "is_user" (decision_is_user d);
     ("person_id", Put (opt_str (decision_person_id d)));
     put_str "speaker_identity_status" (identity_status d);
     put_none "speaker_match_source"].

Definition apply_one (r : Receipt) (segment : doc) : doc :=
  match decision_for r segment with
  | None => segment
  | Some d => if already_applied segment d then segment else write_decision segment d
  end.

Definition apply_manual_assignments (segments : list doc) (r : Receipt) : list doc :=
  if bool_decide (receipt_speakers r = ∅) && bool_decide (receipt_segments r = ∅) then segments
  else apply_one r <$> segments.

(** ** Moving overrides along absorbed segments *)

(** [survivors], in insertion order. *)
Fixpoint survivor_of (survivors : list (string * string)) (sid : string) : option string :=
  match survivors with
  | [] => None
  | (k, v) :: rest => if String.eqb k sid then Some v else survivor_of rest sid
  end.

(** The walk from one absorbed id: the path and where it ends.  [None] is the
    error of a cycle; [fuel] bounds the ids of the map. *)
Fixpoint walk (fuel : nat) (absorbed_into : gmap string string) (survivors : list (string * string))
    (path : list string) (current : string) : option (list string * string) :=
  match absorbed_into !! current, survivor_of survivors current with
  | Some next, None =>
      if bool_decide (current ∈ path) then None else
      match fuel with
      | O => None
      | S fuel' => walk fuel' absorbed_into survivors (path ++ [current]) next
      end
  | _, Some survivor => Some (path, survivor)
  | None, None => Some (path, current)
  end.

Fixpoint resolve_all (absorbed_into : gmap string string) (survivors : list (string * string)) (keys : list string)
    : result pyexc (list (string * string)) :=
  match keys with
  | [] => Ok survivors
  | absorbed_id :: rest =>
      match walk (S (size absorbed_into)) absorbed_into survivors [] absorbed_id with
      | None => Raise (ValueError "Cyclic transcript segment absorption")
      | Some (path, survivor) =>
          resolve_all absorbed_into (survivors ++ ((fun sid => (sid, survivor)) <$> path)) rest
      end
  end.

(** One turn of the second loop, on the overrides and the changed flag. *)
Definition move_override (acc : gmap string ManualDecision * bool) (entry : string * string)
    : gmap string ManualDecision * bool :=
  let '(overrides, changed) := acc in
  let '(absorbed_id, survivor_id) := entry in
  match overrides !! absorbed_id with
  | None => acc
  | Some moved =>
      let rest := delete absorbed_id overrides in
      (match rest !! survivor_id with
       | Some existing => if generation moved >=? generation existing then <[survivor_id := moved]> rest else rest
       | None => <[survivor_id := moved]> rest
       end, true)
  end.

(** [keys] is the iteration order of [absorbed_into]. *)
Definition remap_absorbed_receipt (r : Receipt) (keys : list string) (absorbed_into : gmap string string)
    : result pyexc Receipt :=
  match keys with
  | [] => Ok r
  | _ =>
      let* survivors := resolve_all absorbed_into [] keys in
      let '(overrides, changed) := foldl move_override (receipt_segments r, false) survivors in
      Ok (if changed
          then {| receipt_segments := overrides; receipt_speakers := receipt_speakers r;
                  receipt_generation := receipt_generation r |}
          else r)
  end.

(** ** Adding a decision *)

(** The fields of a stored conversation the edit reads. *)
Record Conversation : Type := {
  conversation_id : string;
  conversation_status : string;
  transcript_segments : list doc;
  manual_speaker_assignments : Receipt;
}.

Inductive AssignError : Type :=
| Unresolved (targets : list string)
| SegmentNotFound.

(** The [speaker_id] a segment without one gets when it is constructed
    ([TranscriptSegment.__init__]). *)
Definition default_speaker_id (segment : doc) : Z :=
  match segment !! "speaker" with
  | Some (PStr speaker) =>
      match split_on "_" speaker with
      | _ :: (_ :: _) as rest => default 0 (parse_int (String.concat "_" rest))
      | _ => 0
      end
  | _ => 0
  end.

Definition truthy_id (segment : doc) : bool := truthy (py_get segment "id").

Definition prepare_segment (cid : string) (index : nat) (segment : doc) : doc :=
  let named_segment :=
    if negb (truthy_id segment) && negb (String.eqb cid "")
    then doc_update segment [put_str "id" (legacy_conversation_segment_id cid (Z.of_nat index))]
    else segment in
  if is_none (py_get named_segment "speaker_id")
  then doc_update named_segment [put_int "speaker_id" (default_speaker_id named_segment)]
  else named_segment.

Definition has_id (sid : string) (segment : doc) : bool :=
  match segment_id segment with Some x => String.eqb x sid | None => false end.

(** The last index of a segment that satisfies a test. *)
Definition last_index (P : doc -> bool) (segments : list doc) : option nat :=
  foldl (fun found p => if P p.2 then Some p.1 else found) None (imap pair segments).

(** [{s.get('id'): i}]: the last index of an id. *)
Definition last_with_id (segments : list doc) (sid : string) : option nat := last_index (has_id sid) segments.

(** The same with the empty id left out. *)
Definition index_of (segments : list doc) (sid : string) : option nat :=
  if String.eqb sid "" then None else last_with_id segments sid.

Definition owner_of (segments : list doc) (sid : string) : option doc :=
  last_with_id segments sid ≫= fun i => segments !! i.

Definition target_index (c : Conversation) (segments : list doc) (target : string) : option nat :=
  match index_of segments target with
  | Some i => Some i
  | None =>
      if String.eqb (conversation_status c) "completed" then
        match without_prefix "#index:" target ≫= parse_number with
        | Some n => if n <? Z.of_nat (length segments) then Some (Z.to_nat n) else None
        | None => None
        end
      else None
  end.

(** The indices the targets name, in order and once each, and the targets that
    name none. *)
Fixpoint resolve_targets (c : Conversation) (segments : list doc) (indices : list nat) (unresolved : list string)
    (targets : list string) : list nat * list string :=
  match targets with
  | [] => (indices, unresolved)
  | target :: rest =>
      match target_index c segments target with
      | None => resolve_targets c segments indices (unresolved ++ [target]) rest
      | Some i =>
          resolve_targets c segments (if bool_decide (i ∈ indices) then indices else indices ++ [i]) unresolved rest
      end
  end.

(** What the caller points at. *)
Inductive Target : Type :=
| AtIndex (segment_index : Z)
| OfSpeaker (speaker_id : Z)
| Named (segment_ids : list string).

Definition target_indices (c : Conversation) (segments : list doc) (t : Target) : result AssignError (list nat) :=
  let* indices :=
    match t with
    | AtIndex i => Ok (if (0 <=? i) && (i <? Z.of_nat (length segments)) then [Z.to_nat i] else [])
    | OfSpeaker n =>
        Ok (omap (fun p => if py_eqb (py_get p.2 "speaker_id") (PInt n) then Some p.1 else None) (imap pair segments))
    | Named targets =>
        match resolve_targets c segments [] [] targets with
        | (indices, []) => Ok indices
        | (_, unresolved) => Raise (Unresolved unresolved)
        end
    end in
  match indices with [] => Raise SegmentNotFound | _ => Ok indices end.

(** The state of the loop over the indices. *)
Record Edit : Type := {
  edit_segments : list doc;
  edit_overrides : gmap string ManualDecision;
  edit_resolved : list string;
  edit_previous : list string;
}.

(** [fresh index] is the [uuid4] of a segment that still has no id. *)
Definition edit_one (fresh : nat -> string) (identity : ManualDecision) (per_segment : bool) (e : Edit) (index : nat) : Edit :=
  match edit_segments e !! index with
  | None => e
  | Some segment =>
      let sid := if truthy_id segment then py_str (py_get segment "id") else fresh index in
      {| edit_segments :=
           if truthy_id segment then edit_segments e
           else <[index := doc_update segment [put_str "id" (fresh index)]]> (edit_segments e);
         edit_overrides := if per_segment then <[sid := identity]> (edit_overrides e) else edit_overrides e;
         edit_resolved := edit_resolved e ++ [sid];
         edit_previous :=
           match nonempty_str (py_get segment "person_id") with
           | Some p => if bool_decide (decision_person_id identity = Some p) then edit_previous e
                       else edit_previous e ++ [p]
           | None => edit_previous e
           end |}
  end.

(** Overrides a speaker-wide decision replaces. *)
Definition covered_by_speaker (segments : list doc) (resolved : list string) (speaker : Z) (sid : string) : bool :=
  bool_decide (sid ∈ resolved) ||
  match owner_of segments sid with
  | Some owner => py_eqb (py_get owner "speaker_id") (PInt speaker)
  | None => false
  end.

(** The segments, the receipt, the resolved ids and the people the segments were
    assigned to before. *)
Definition manual_assignment (fresh : nat -> string) (c : Conversation) (person_id : option string) (is_user : bool)
    (target : Target) (training : bool)
    : result AssignError (list doc * Receipt * list string * list string) :=
  let segments := imap (prepare_segment (conversation_id c)) (transcript_segments c) in
  let* indices := target_indices c segments target in
  let r := manual_speaker_assignments c in
  let identity := {| generation := receipt_generation r + 1; decision_person_id := person_id;
                     decision_is_user := is_user; use_for_speech_training := training |} in
  let speaker := match target with OfSpeaker n => Some n | _ => None end in
  let e := foldl (edit_one fresh identity (match speaker with None => true | Some _ => false end))
             {| edit_segments := segments; edit_overrides := receipt_segments r; edit_resolved := [];
                edit_previous := [] |} indices in
  let r' :=
    {| receipt_segments :=
         match speaker with
         | Some n => base.filter (fun kv => covered_by_speaker (edit_segments e) (edit_resolved e) n kv.1 = false)
                       (edit_overrides e)
         | None => edit_overrides e
         end;
       receipt_speakers :=
         match speaker with
         | Some n => <[Z_to_string n := identity]> (receipt_speakers r)
         | None => receipt_speakers r
         end;
       receipt_generation := receipt_generation r + 1 |} in
  Ok (apply_manual_assignments (edit_segments e) r', r', edit_resolved e, edit_previous e).

(** ** Teaching *)

(** [float(v or 0)] *)
Definition float_or_zero (v : pyval) : result pyexc Q := py_float (py_or v (PInt 0)).

Fixpoint ranked_clips (segments : list doc) (resolved : list string) : result pyexc (list (Q * string)) :=
  match resolved with
  | [] => Ok []
  | sid :: rest =>
      match index_of segments sid ≫= fun i => segments !! i with
      | None => ranked_clips segments rest
      | Some segment =>
          let* e := float_or_zero (py_get segment "end") in
          let* s := float_or_zero (py_get segment "start") in
          let* more := ranked_clips segments rest in
          Ok ((e - s, sid)%Q :: more)
      end
  end.

Definition longer_first (a b : Q * string) : Prop := Qle_bool b.1 a.1 = true.

#[export] Instance longer_first_dec : RelDecision longer_first.
Proof. intros a b. unfold longer_first. apply _. Defined.

Definition teaching_segment_ids (segments : list doc) (resolved : list string) (limit : nat)
    : result pyexc (list string) :=
  let* ranked := ranked_clips segments resolved in
  Ok ((fun p => p.2) <$> take limit (merge_sort longer_first ranked)).

(** Whether the persisted decision on one segment authorises teaching
    [person_id]. *)
Definition acknowledged_one (r : Receipt) (segments : list doc) (person_id sid : string) : bool :=
  let segment := default ∅ (owner_of segments sid) in
  match newest (receipt_segments r !! sid) (by_speaker r segment) with
  | None => false
  | Some d =>
      bool_decide (decision_person_id d = Some person_id) && negb (decision_is_user d)
      && use_for_speech_training d
      && py_eqb (py_get segment "person_id") (PStr person_id)
      && negb (truthy (py_get segment "is_user"))
  end.

Definition acknowledged_teaching (c : Conversation) (person_id : string) (segment_ids : list string) : bool :=
  negb (String.eqb person_id "") && negb (bool_decide (segment_ids = []))
  && forallb (acknowledged_one (manual_speaker_assignments c) (transcript_segments c) person_id) segment_ids.
