(* ===== verification/ManualOps.v ===== *)
(** What manual assignments promise: a decision is shown whatever inference
    writes, a new one takes effect on exactly its segments, overrides follow
    absorbed segments without loss, and teaching is authorised by the decision
    that is current. *)
From stdpp Require Import sorting.
From S2P Require Export ManualSpeakers.

(** ** What a segment shows *)

(** The segment is attributed as the decision says, by hand: to the user, to the
    person, or to nobody, and no longer by a profile match. *)
Definition shows (segment : doc) (d : ManualDecision) : Prop :=
  py_eqb (py_get segment "is_user") (PBool (decision_is_user d)) = true /\
  py_get segment "person_id" = match decision_person_id d with Some p => PStr p | None => PNone end /\
  py_get segment "speaker_identity_status" =
    PStr (if decision_is_user d then "user"
          else match decision_person_id d with Some (String _ _) => "not_user" | _ => "unknown" end) /\
  py_get segment "speaker_match_source" = PNone.

Lemma py_eqb_opt_str v o : py_eqb v (opt_str o) = true <-> v = opt_str o.
Proof.
  destruct o as [s|]; cbn [opt_str]; [rewrite py_eqb_str; apply is_str_spec|].
  destruct v; cbn; split; (done || discriminate).
Qed.

Lemma is_none_true v : is_none v = true <-> v = PNone.
Proof. destruct v; split; (done || discriminate). Qed.

Lemma named_status d :
  identity_status d =
    if decision_is_user d then "user"
    else match decision_person_id d with Some (String _ _) => "not_user" | _ => "unknown" end.
Proof. unfold identity_status. by destruct (decision_is_user d), (decision_person_id d) as [[]|]. Qed.

Lemma already_applied_shows segment d : already_applied segment d = true <-> shows segment d.
Proof.
  unfold already_applied, shows. rewrite !andb_true_iff, py_eqb_opt_str, is_str_spec, is_none_true, named_status.
  unfold opt_str. tauto.
Qed.

Lemma write_decision_shows segment d : shows (write_decision segment d) d.
Proof.
  unfold shows, write_decision. rewrite named_status. doc_simpl. cbn [id]. split_and!; [|done..].
  by destruct (decision_is_user d).
Qed.

(** The fields that select a decision. *)
Definition same_keys (s t : doc) : Prop :=
  py_get s "id" = py_get t "id" /\ py_get s "speaker_id" = py_get t "speaker_id".

#[export] Instance same_keys_equiv : Equivalence same_keys.
Proof.
  split; unfold same_keys; [done|intros ? ? []; done|].
  intros s t u [H1 H2] [H3 H4]. by rewrite H1, H2.
Qed.

#[export] Instance decision_for_proper r : Proper (same_keys ==> eq) (decision_for r).
Proof. intros s t [Hi Hs]. unfold decision_for, by_segment, by_speaker, segment_id. by rewrite Hi, Hs. Qed.

Lemma write_decision_keys segment d : same_keys (write_decision segment d) segment.
Proof. unfold same_keys, write_decision. by doc_simpl. Qed.

Lemma apply_one_keys r segment : same_keys (apply_one r segment) segment.
Proof.
  unfold apply_one. destruct (decision_for r segment); [|done]. case_match; [done|]. apply write_decision_keys.
Qed.

Lemma apply_one_shows r segment d : decision_for r segment = Some d -> shows (apply_one r segment) d.
Proof.
  intros H. unfold apply_one. rewrite H.
  destruct (already_applied segment d) eqn:E; [by apply already_applied_shows|].
  apply write_decision_shows.
Qed.

Lemma decision_after r segment : decision_for r (apply_one r segment) = decision_for r segment.
Proof. by rewrite apply_one_keys. Qed.

Lemma apply_one_idem r segment : apply_one r (apply_one r segment) = apply_one r segment.
Proof.
  unfold apply_one at 1. rewrite decision_after.
  destruct (decision_for r segment) as [d|] eqn:E; [|done]. by rewrite (proj2 (already_applied_shows _ _) (apply_one_shows _ _ _ E)).
Qed.

(** The shortcut for a receipt without decisions changes nothing. *)
Lemma apply_all r segments : apply_manual_assignments segments r = apply_one r <$> segments.
Proof.
  unfold apply_manual_assignments. destruct (bool_decide _ && _) eqn:E; [|done].
  apply andb_true_iff in E as [Hs%bool_decide_eq_true Ho%bool_decide_eq_true].
  symmetry. rewrite <- (list_fmap_id segments) at 2. apply list_fmap_ext. intros _ s _.
  unfold apply_one, decision_for, by_segment, by_speaker. rewrite Hs, Ho, lookup_empty.
  by destruct (segment_id s).
Qed.

(** The decision stored for the segment itself, and the one stored for its
    speaker, each if the receipt has it. *)
Definition own_decision (r : Receipt) (segment : doc) (d : ManualDecision) : Prop :=
  exists sid, py_get segment "id" = PStr sid /\ receipt_segments r !! sid = Some d.

Definition speaker_decision (r : Receipt) (segment : doc) (d : ManualDecision) : Prop :=
  receipt_speakers r !! py_str (py_get segment "speaker_id") = Some d.

(** The decision that counts: no other that covers the segment is newer, and the
    segment's own counts against an equally new one of its speaker. *)
Definition newest_decision (r : Receipt) (segment : doc) (d : ManualDecision) : Prop :=
  (own_decision r segment d /\
     forall e, speaker_decision r segment e -> generation e <= generation d) \/
  (speaker_decision r segment d /\
     forall e, own_decision r segment e -> generation e < generation d).

Lemma by_segment_own r segment d : by_segment r segment = Some d <-> own_decision r segment d.
Proof.
  unfold by_segment, own_decision, segment_id. rewrite bind_Some.
  split; intros (sid & Hsid & Hd); exists sid; (split; [|done]).
  - destruct (py_get segment "id"); simplify_eq/=; done.
  - by rewrite Hsid.
Qed.

Lemma decision_for_newest r segment d : newest_decision r segment d -> decision_for r segment = Some d.
Proof.
  unfold decision_for, newest_decision. intros [[Hd Hle]|[Hd Hlt]].
  - apply by_segment_own in Hd as ->. unfold speaker_decision in Hle. fold (by_speaker r segment) in Hle.
    destruct (by_speaker r segment) as [e|]; [|done]. cbn. specialize (Hle e eq_refl).
    by destruct (Z.ltb_spec (generation d) (generation e)); [lia|].
  - unfold speaker_decision in Hd. fold (by_speaker r segment) in Hd. rewrite Hd.
    destruct (by_segment r segment) as [e|] eqn:E; [|done]. apply by_segment_own, Hlt in E. cbn.
    by destruct (Z.ltb_spec (generation e) (generation d)); [|lia].
Qed.

Lemma decision_for_none r segment :
  (forall d, ~ own_decision r segment d) -> (forall d, ~ speaker_decision r segment d) ->
  decision_for r segment = None.
Proof.
  intros Hown Hspeaker. unfold decision_for.
  destruct (by_segment r segment) as [d|] eqn:E; [by apply by_segment_own, Hown in E|].
  destruct (by_speaker r segment) as [d|] eqn:E'; [by apply Hspeaker in E'|done].
Qed.

(** C31: a manual decision outlives inference.  Let any writer change any fields
    of the segments except their ids and speaker numbers; after the receipt is
    applied, every segment is attributed as the newest of the decisions on the
    segment and on its speaker says, by its own when the two are equally new,
    and is no longer marked as matched by a profile; a segment without either is
    exactly as the writer left it; and applying the receipt again changes
    nothing. *)
Theorem manual_decisions_outlive_inference r segments inferred i s t :
  Forall2 same_keys inferred segments ->
  inferred !! i = Some t -> segments !! i = Some s ->
  (exists u, apply_manual_assignments inferred r !! i = Some u /\ same_keys u s /\
     (forall d, newest_decision r s d -> shows u d) /\
     ((forall d, ~ own_decision r s d) -> (forall d, ~ speaker_decision r s d) -> u = t)) /\
  apply_manual_assignments (apply_manual_assignments inferred r) r = apply_manual_assignments inferred r.
Proof.
  intros Hkeys Hi Hs. pose proof (Forall2_lookup_lr _ _ _ _ _ _ Hkeys Hi Hs) as Hst. rewrite !apply_all. split.
  - exists (apply_one r t). rewrite list_lookup_fmap, Hi.
    assert (decision_for r t = decision_for r s) as Hts by (by rewrite Hst).
    split; [done|]. split; [|split].
    + etrans; [apply apply_one_keys|exact Hst].
    + intros d Hd%decision_for_newest. apply apply_one_shows. congruence.
    + intros Hown Hspeaker. pose proof (decision_for_none r s Hown Hspeaker) as Hn.
      unfold apply_one. by rewrite Hts, Hn.
  - rewrite <- list_fmap_compose. apply list_fmap_ext. intros _ x _. apply apply_one_idem.
Qed.

(** ** Chains of absorption *)

Section Chains.
Context (m : gmap string string).

(** [x] is absorbed into [y] in [n] steps, and [y] into nothing. *)
Fixpoint chain (m : gmap string string) (n : nat) (x y : string) : Prop :=
  match n with
  | O => x = y /\ m !! x = None
  | S n' => exists z, m !! x = Some z /\ chain m n' z y
  end.

Definition ends_in (x y : string) : Prop := exists n, chain m n x y.

Lemma chain_det m' n x y n' y' : chain m' n x y -> chain m' n' x y' -> n = n' /\ y = y'.
Proof.
  revert x n'. induction n as [|n IH]; intros x [|n']; cbn.
  - intros [<- _] [<- _]. done.
  - intros [_ H] (z & Hz & _). congruence.
  - intros (z & Hz & _) [_ H]. congruence.
  - intros (z & Hz & H) (z' & Hz' & H'). assert (z' = z) as -> by congruence.
    destruct (IH _ _ H H') as [-> ->]. done.
Qed.

(** A shorter chain avoids an id that is farther from the end. *)
Lemma chain_delete k x n z y : chain m k x y -> chain m n z y -> (n < k)%nat -> chain (delete x m) n z y.
Proof.
  intros Hx. revert z. induction n as [|n IH]; intros z; cbn.
  - intros [-> Hy] _. split; [done|]. rewrite lookup_delete_None. by right.
  - intros (w & Hw & Hc) Hlt. exists w. split; [|apply IH; [done|lia]].
    rewrite lookup_delete_ne; [done|]. intros ->.
    assert (chain m (S n) z y) as Hz by (by exists w). destruct (chain_det _ _ _ _ _ _ Hx Hz). lia.
Qed.
End Chains.

Lemma chain_size m n x y : chain m n x y -> (n <= size m)%nat.
Proof.
  revert m x. induction n as [|n IH]; intros m x; [lia|]. intros H. pose proof H as (z & Hz & Hc).
  assert (chain (delete x m) n z y) as Hd by (eapply chain_delete; [exact H|exact Hc|lia]).
  apply IH in Hd. rewrite map_size_delete_Some in Hd by (by exists z).
  assert (size m <> 0)%nat. { intros E%map_size_empty_inv. by rewrite E, lookup_empty in Hz. } lia.
Qed.

Lemma ends_in_tc m x y : tc (fun u v => m !! u = Some v) x y -> m !! y = None -> ends_in m x y.
Proof.
  intros H Hy. induction H as [x y Hxy|x z y Hxz _ IH].
  - exists 1%nat. by exists y.
  - destruct (IH Hy) as [n Hn]. exists (S n). by exists z.
Qed.

Lemma ends_in_end m x y : ends_in m x y -> m !! y = None.
Proof. intros [n Hn]. revert x Hn. induction n as [|n IH]; intros x; cbn; [by intros [<- ?]|naive_solver]. Qed.

(** ** The walk finds the end *)

Lemma survivor_of_Some survivors x y : survivor_of survivors x = Some y -> (x, y) ∈ survivors.
Proof.
  induction survivors as [|[k v] rest IH]; [done|]. cbn. destruct (String.eqb_spec k x) as [->|_].
  - intros [= ->]. left.
  - intros H. right. auto.
Qed.

Lemma survivor_of_None survivors x : survivor_of survivors x = None -> x ∉ survivors.*1.
Proof.
  induction survivors as [|[k v] rest IH]; [set_solver|]. cbn. destruct (String.eqb_spec k x); [done|set_solver].
Qed.

(** Every pair leads from an absorbed id to the end of its chain. *)
Definition ends_known (m : gmap string string) (survivors : list (string * string)) : Prop :=
  Forall (fun p => is_Some (m !! p.1) /\ ends_in m p.1 p.2) survivors.

(** What a walk adds to the survivors. *)
Definition walked (m : gmap string string) (survivors : list (string * string)) (current y : string)
    (steps : list string) : Prop :=
  NoDup steps /\
  Forall (fun x => (x ∉ survivors.*1) /\ is_Some (m !! x) /\ ends_in m x y) steps /\
  (is_Some (m !! current) -> current ∈ steps \/ current ∈ survivors.*1).

Lemma walk_known m survivors n fuel path current y y' :
  ends_known m survivors -> chain m n current y -> survivor_of survivors current = Some y' ->
  walk fuel m survivors path current = Some (path ++ [], y) /\ walked m survivors current y [].
Proof.
  intros Hs Hc Hsv. pose proof (survivor_of_Some _ _ _ Hsv) as Hin.
  assert (y' = y) as ->.
  { destruct (proj1 (Forall_forall _ _) Hs _ Hin) as [_ [k Hk]]. by destruct (chain_det _ _ _ _ _ _ Hk Hc). }
  rewrite app_nil_r. split.
  - destruct fuel; cbn; rewrite Hsv; by case_match.
  - split_and!; [constructor|constructor|]. intros _. right. by apply (list_elem_of_fmap_2 fst) in Hin.
Qed.

Lemma walk_spec m survivors n : forall fuel path current y,
  ends_known m survivors -> chain m n current y -> (n <= fuel)%nat ->
  Forall (fun x => exists k, (n < k)%nat /\ chain m k x y) path ->
  exists steps, walk fuel m survivors path current = Some (path ++ steps, y) /\
    walked m survivors current y steps /\ Forall (fun x => exists k, (k <= n)%nat /\ chain m k x y) steps.
Proof.
  induction n as [|n IH]; intros fuel path current y Hs Hc Hf Hp; pose proof Hc as Hc0;
    destruct (survivor_of survivors current) as [y'|] eqn:Hsv.
  - exists []. destruct (walk_known _ _ _ fuel path _ _ _ Hs Hc Hsv). by split_and!.
  - destruct Hc as [<- Hn]. exists []. rewrite app_nil_r. split; [|split; [|constructor]].
    + destruct fuel; cbn; by rewrite Hn, Hsv.
    + split; [constructor|]. split; [constructor|]. intros [? ?]. congruence.
  - exists []. destruct (walk_known _ _ _ fuel path _ _ _ Hs Hc Hsv). by split_and!.
  - destruct Hc as (z & Hz & Hc). destruct fuel as [|fuel]; [lia|].
    destruct (IH fuel (path ++ [current]) z y Hs Hc ltac:(lia)) as (steps & Hw & (Hnd & Hall & _) & Hle).
    { apply Forall_app. split; [eapply Forall_impl; [exact Hp|]; intros x (k & ? & ?); exists k; split; [lia|done]|].
      repeat constructor. exists (S n). split; [lia|done]. }
    assert (current ∉ path) as Hfresh.
    { intros Hin. destruct (proj1 (Forall_forall _ _) Hp _ Hin) as (k & ? & Hk).
      destruct (chain_det _ _ _ _ _ _ Hk Hc0). lia. }
    exists (current :: steps). split_and!.
    + cbn [walk]. rewrite Hz, Hsv, bool_decide_false by done. by rewrite Hw, <- app_assoc.
    + split_and!; [|constructor; [|done]|by left; left].
      * constructor; [|done]. intros Hin. destruct (proj1 (Forall_forall _ _) Hle _ Hin) as (k & ? & Hk).
        destruct (chain_det _ _ _ _ _ _ Hk Hc0). lia.
      * split_and!; [by apply survivor_of_None|by exists z|by exists (S n)].
    + constructor; [by exists (S n)|]. eapply Forall_impl; [exact Hle|]. intros x (k & ? & ?). exists k. split; [lia|done].
Qed.

(** Every key ends somewhere: no walk raises, and every key gets its end. *)
Lemma resolve_all_spec m keys : forall survivors,
  ends_known m survivors -> NoDup survivors.*1 ->
  Forall (fun x => is_Some (m !! x) /\ exists y, ends_in m x y) keys ->
  exists all, resolve_all m survivors keys = Ok all /\ ends_known m all /\ NoDup all.*1 /\
    survivors ⊆ all /\ keys ⊆ all.*1.
Proof.
  induction keys as [|key keys IH]; intros survivors Hs Hnd Hk.
  - exists survivors. split_and!; [done..|set_solver].
  - apply Forall_cons in Hk as [[Hin (y & n & Hc)] Hk]. cbn [resolve_all].
    destruct (walk_spec m survivors n (S (size m)) [] key y Hs Hc) as (steps & Hw & (Hnds & Hall & Hcov) & _);
      [apply chain_size in Hc; lia|constructor|].
    rewrite Hw. cbn [app].
    destruct (IH (survivors ++ ((fun sid => (sid, y)) <$> steps))) as (all & Hr & He & Hn & Hsub & Hkeys); [| |done|].
    + apply Forall_app. split; [done|]. apply Forall_fmap. eapply Forall_impl; [exact Hall|]. cbn. tauto.
    + rewrite fmap_app, <- list_fmap_compose. change (fst ∘ _) with (fun sid : string => sid). rewrite list_fmap_id.
      apply NoDup_app. split_and!; [done| |done]. intros x Hx Hx'.
      destruct (proj1 (Forall_forall _ _) Hall _ Hx') as [Hno _]. done.
    + exists all. split_and!; [done..|set_solver|].
      intros x [->|Hx]%elem_of_cons; [|auto].
      destruct (Hcov Hin) as [Hst|Hsv].
      * apply (list_elem_of_fmap_2 fst all (key, y)). apply Hsub, elem_of_app. right. apply list_elem_of_fmap. by exists key.
      * apply list_elem_of_fmap in Hsv as (p & -> & Hp). apply list_elem_of_fmap_2, Hsub, elem_of_app. by left.
Qed.

(** ** Moving the overrides *)

(** [e] is at least as recent as [e']. *)
Definition no_older (o : option ManualDecision) (e : ManualDecision) : Prop :=
  exists e', o = Some e' /\ generation e <= generation e'.

(** The overrides after some moves out of [before]: a moved id has none, and
    the end of a chain has the most recent of its own and those moved to it. *)
Record moved (m : gmap string string) (done : list (string * string)) (before after : gmap string ManualDecision) : Prop := {
  moved_out : forall x, x ∈ done.*1 -> after !! x = None;
  moved_not : forall x, is_Some (m !! x) -> x ∉ done.*1 -> after !! x = before !! x;
  moved_own : forall y e, m !! y = None -> before !! y = Some e -> no_older (after !! y) e;
  moved_in : forall x y e, (x, y) ∈ done -> before !! x = Some e -> no_older (after !! y) e;
  moved_from : forall y e, m !! y = None -> after !! y = Some e ->
    before !! y = Some e \/ exists x, (x, y) ∈ done /\ before !! x = Some e;
}.

Lemma no_older_refl e : no_older (Some e) e.
Proof. exists e. split; [done|lia]. Qed.

Lemma no_older_trans o e e' : no_older o e -> generation e' <= generation e -> no_older o e'.
Proof. intros (f & -> & Hf) Hle. exists f. split; [done|lia]. Qed.

(** The override that stays at the end of a chain. *)
Definition kept_override (existing : option ManualDecision) (e : ManualDecision) : ManualDecision :=
  match existing with
  | Some f => if generation e >=? generation f then e else f
  | None => e
  end.

Lemma move_override_some overrides changed x y e :
  overrides !! x = Some e -> x <> y ->
  move_override (overrides, changed) (x, y) = (<[y := kept_override (overrides !! y) e]> (delete x overrides), true).
Proof.
  intros He Hne. unfold move_override. rewrite He. rewrite lookup_delete_ne by done.
  destruct (overrides !! y) as [f|] eqn:Hf; [|done]. cbn [kept_override].
  case_match; [done|]. by rewrite insert_id by (by rewrite lookup_delete_ne).
Qed.

Lemma kept_override_own f e : no_older (Some (kept_override (Some f) e)) f.
Proof. eexists. split; [done|]. cbn. destruct (Z.geb_spec (generation e) (generation f)); lia. Qed.

Lemma kept_override_new o e : no_older (Some (kept_override o e)) e.
Proof.
  eexists. split; [done|]. destruct o as [f|]; cbn; [|lia].
  destruct (Z.geb_spec (generation e) (generation f)); lia.
Qed.

Lemma kept_override_from o e : kept_override o e = e \/ o = Some (kept_override o e).
Proof. destruct o as [f|]; cbn; [|by left]. destruct (_ >=? _); auto. Qed.

Lemma moves_fst (moves : list (string * string)) x y z :
  z ∈ (moves ++ [(x, y)]).*1 <-> z ∈ moves.*1 \/ z = x.
Proof. rewrite fmap_app. set_solver. Qed.

Lemma moves_snoc (moves : list (string * string)) x y w z (P : string -> Prop) :
  (w, z) ∈ moves -> P w -> exists w', (w', z) ∈ moves ++ [(x, y)] /\ P w'.
Proof. intros Hin Hw. exists w. split; [apply elem_of_app; by left|done]. Qed.

Lemma not_moved_end m moves y : ends_known m moves -> m !! y = None -> y ∉ moves.*1.
Proof.
  intros Hk Hy ([? ?] & -> & Hp)%list_elem_of_fmap.
  destruct (proj1 (Forall_forall _ _) Hk _ Hp) as [[? ?] _]. cbn in *. congruence.
Qed.

Lemma move_taken m before moves x y e overrides :
  moved m moves before overrides -> is_Some (m !! x) -> m !! y = None -> x ∉ moves.*1 -> ends_known m moves ->
  overrides !! x = Some e ->
  moved m (moves ++ [(x, y)]) before (<[y := kept_override (overrides !! y) e]> (delete x overrides)).
Proof.
  intros [Hout Hnot Hown Hin Hfrom] Hx Hy Hfresh Hknown He.
  assert (x <> y) as Hne by (intros ->; destruct Hx; congruence).
  set (after := <[y:=kept_override (overrides !! y) e]> (delete x overrides)).
  assert (forall z, z <> y -> z <> x -> after !! z = overrides !! z) as Hother.
  { intros z Hzy Hzx. unfold after. by rewrite lookup_insert_ne, lookup_delete_ne. }
  assert (forall z, m !! z = None -> z <> x) as Hend by (intros z ? ->; destruct Hx; congruence).
  assert (after !! y = Some (kept_override (overrides !! y) e)) as Hay by apply lookup_insert_eq.
  assert (forall f, no_older (overrides !! y) f -> no_older (after !! y) f) as Hkeep.
  { intros f (g & Hg & Hle). rewrite Hay, Hg. eapply no_older_trans; [apply kept_override_own|done]. }
  split.
  - intros z [Hz| ->]%moves_fst.
    + rewrite Hother; [auto| |by intros ->]. intros ->. by apply (not_moved_end _ _ _ Hknown Hy).
    + unfold after. by rewrite lookup_insert_ne, lookup_delete_eq.
  - intros z Hz Hnz. rewrite moves_fst in Hnz. rewrite Hother; [apply Hnot; tauto| |tauto].
    intros ->. destruct Hz. congruence.
  - intros z f Hz Hf. destruct (decide (z = y)) as [->|Hzy]; [eauto|]. rewrite Hother by auto. eauto.
  - intros z w f [Hzw|Hzw]%elem_of_app Hf.
    + destruct (decide (w = y)) as [->|Hwy]; [eauto|]. rewrite Hother; [eauto|done|].
      destruct (proj1 (Forall_forall _ _) Hknown _ Hzw) as [_ Hzend]. apply Hend. by apply ends_in_end in Hzend.
    + apply list_elem_of_singleton in Hzw as [= -> ->].
      assert (f = e) as -> by (rewrite <- (Hnot x) in Hf by done; congruence).
      rewrite Hay. apply kept_override_new.
  - intros z f Hz. destruct (decide (z = y)) as [->|Hzy].
    + rewrite Hay. intros [= <-]. destruct (kept_override_from (overrides !! y) e) as [Hk|Hk].
      * rewrite Hk. right. exists x. rewrite <- (Hnot x) by done.
        split; [apply elem_of_app; right; by apply list_elem_of_singleton|done].
      * destruct (Hfrom y _ Hy Hk) as [?|(w & ? & ?)]; [by left|right; by eapply moves_snoc].
    + rewrite Hother by auto. intros Hf.
      destruct (Hfrom z f Hz Hf) as [?|(w & ? & ?)]; [by left|right; by eapply moves_snoc].
Qed.

Lemma move_step m before moves x y overrides changed :
  moved m moves before overrides -> (changed = false -> overrides = before) ->
  is_Some (m !! x) -> m !! y = None -> x ∉ moves.*1 -> ends_known m moves ->
  let acc := move_override (overrides, changed) (x, y) in
  moved m (moves ++ [(x, y)]) before acc.1 /\ (acc.2 = false -> acc.1 = before).
Proof.
  intros Hm Hch Hx Hy Hfresh Hknown. cbn zeta.
  destruct (overrides !! x) as [e|] eqn:He.
  - rewrite (move_override_some _ _ _ _ _ He) by (intros ->; destruct Hx; congruence).
    split; [|done]. by apply move_taken.
  - unfold move_override. rewrite He. split; [|done]. destruct Hm as [Hout Hnot Hown Hin Hfrom]. cbn [fst]. split.
    + intros z [Hz| ->]%moves_fst; auto.
    + intros z Hz Hnz. rewrite moves_fst in Hnz. apply Hnot; tauto.
    + done.
    + intros z w f [Hz|[= -> ->]%list_elem_of_singleton]%elem_of_app Hf; [eauto|].
      rewrite <- (Hnot x) in Hf by done. congruence.
    + intros z f Hz Hf. destruct (Hfrom z f Hz Hf) as [?|(w & ? & ?)]; [by left|right; by eapply moves_snoc].
Qed.

Lemma move_all m before todo : forall moves overrides changed,
  moved m moves before overrides -> (changed = false -> overrides = before) ->
  ends_known m (moves ++ todo) -> NoDup (moves ++ todo).*1 ->
  let acc := foldl move_override (overrides, changed) todo in
  moved m (moves ++ todo) before acc.1 /\ (acc.2 = false -> acc.1 = before).
Proof.
  induction todo as [|[x y] todo IH]; intros moves overrides changed Hm Hch Hk Hnd; cbn zeta; [by rewrite app_nil_r|].
  pose proof Hk as [Hk1 [[Hx Hend] _]%Forall_cons]%Forall_app. cbn in Hx, Hend.
  rewrite fmap_app in Hnd. pose proof Hnd as (_ & Hdis & _)%NoDup_app.
  assert (x ∉ moves.*1) as Hfresh by (intros H; apply (Hdis _ H); left).
  destruct (move_step m before moves x y overrides changed Hm Hch Hx (ends_in_end _ _ _ Hend) Hfresh Hk1) as [H1 H2].
  cbn [foldl]. destruct (move_override _ _) as [overrides' changed'].
  change ((x, y) :: todo) with ([(x, y)] ++ todo). rewrite app_assoc. apply (IH _ _ _ H1 H2).
  - by rewrite <- app_assoc.
  - by rewrite <- app_assoc, fmap_app.
Qed.

(** ** The remapped receipt *)

(** [keys] lists the absorbed ids, and every one ends in an id that is not. *)
Definition absorption_ends (m : gmap string string) (keys : list string) : Prop :=
  (forall x, x ∈ keys <-> is_Some (m !! x)) /\ forall x, x ∈ keys -> exists y, ends_in m x y.

Lemma remap_spec m r keys :
  absorption_ends m keys ->
  exists r' moves, remap_absorbed_receipt r keys m = Ok r' /\
    receipt_speakers r' = receipt_speakers r /\ receipt_generation r' = receipt_generation r /\
    ends_known m moves /\ (forall x, is_Some (m !! x) -> x ∈ moves.*1) /\
    moved m moves (receipt_segments r) (receipt_segments r').
Proof.
  intros [Hkeys Hends].
  destruct (resolve_all_spec m keys []) as (moves & Hr & Hk & Hnd & _ & Hcov); [constructor|constructor| |].
  { apply Forall_forall. intros x Hx. split; [by apply Hkeys|auto]. }
  destruct (move_all m (receipt_segments r) moves [] (receipt_segments r) false) as [Hm Hch]; [|done|done|done|].
  { split; [set_solver|done| |set_solver|by left]. intros ? ? _ ->. apply no_older_refl. }
  destruct (foldl move_override _ _) as [overrides changed] eqn:Hf. cbn [fst snd app] in *.
  destruct keys as [|key keys].
  - injection Hr as <-. injection Hf as <- _. exists r, []. split_and!; try done. intros x Hx%Hkeys. set_solver.
  - unfold remap_absorbed_receipt. rewrite Hr. cbn [rbind]. rewrite Hf.
    eexists _, moves. split; [reflexivity|]. assert (forall x, is_Some (m !! x) -> x ∈ moves.*1) as Hall.
    { intros x Hx%Hkeys. auto. }
    destruct changed; cbn; split_and!; try done. by rewrite (Hch eq_refl) in Hm.
Qed.

(** Overrides follow absorbed segments.  When every absorbed segment ends in
    a surviving one, moving a receipt along never raises the error of a cycle;
    it keeps the speaker-wide decisions and the generation; no absorbed id keeps
    an override; every override is matched, at the segment its own ended in, by
    one at least as recent; and every override at a surviving segment was
    already that segment's, or that of a segment absorbed into it. *)
Theorem overrides_follow_absorption m keys r :
  absorption_ends m keys ->
  exists r', remap_absorbed_receipt r keys m = Ok r' /\
    receipt_speakers r' = receipt_speakers r /\ receipt_generation r' = receipt_generation r /\
    (forall x, is_Some (m !! x) -> receipt_segments r' !! x = None) /\
    (forall x y e, receipt_segments r !! x = Some e -> ends_in m x y -> no_older (receipt_segments r' !! y) e) /\
    (forall y e, receipt_segments r' !! y = Some e -> exists x, ends_in m x y /\ receipt_segments r !! x = Some e).
Proof.
  intros H. destruct (remap_spec m r keys H) as (r' & moves & Hr & Hsp & Hg & Hk & Hall & [Hout Hnot Hown Hin Hfrom]).
  exists r'. split_and!; [done|done|done|auto| |].
  - intros x y e He [n Hn]. destruct n as [|n]; [destruct Hn as [<- Hn]; auto|].
    assert (x ∈ moves.*1) as Hx by (apply Hall; destruct Hn as (z & ? & _); by exists z).
    apply list_elem_of_fmap in Hx as ([x' y'] & -> & Hp).
    destruct (proj1 (Forall_forall _ _) Hk _ Hp) as [_ [n' Hn']].
    destruct (chain_det _ _ _ _ _ _ Hn Hn') as [_ ->]. eauto.
  - intros y e Hy. assert (m !! y = None) as Hend.
    { apply eq_None_not_Some. intros Hs. rewrite (Hout y (Hall y Hs)) in Hy. done. }
    destruct (Hfrom y e Hend Hy) as [?|(x & Hx & ?)]; [exists y; split; [by exists O|done]|].
    exists x. split; [|done]. by destruct (proj1 (Forall_forall _ _) Hk _ Hx).
Qed.
