(* ===== verification/ManualEdit.v ===== *)
(** The manual edit of a conversation's speakers: it takes effect on exactly the
    segments it names, and it decides what may be taught. *)
From stdpp Require Import sorting.
From S2P Require Export ManualOps.

(** ** Stored conversations *)

(** What validation guarantees of a stored segment: an id is a text, a speaker
    number an integer, when present. *)
Definition stored_segment (s : doc) : Prop :=
  (py_get s "id" = PNone \/ exists x, py_get s "id" = PStr x) /\
  (py_get s "speaker_id" = PNone \/ exists n, py_get s "speaker_id" = PInt n).

Definition identified (s : doc) : Prop :=
  exists sid n, sid <> "" /\ py_get s "id" = PStr sid /\ py_get s "speaker_id" = PInt n.

(** No decision is newer than the receipt. *)
Definition receipt_ok (r : Receipt) : Prop :=
  map_Forall (fun _ d => generation d <= receipt_generation r) (receipt_segments r) /\
  map_Forall (fun _ d => generation d <= receipt_generation r) (receipt_speakers r).

Definition prepared (c : Conversation) : list doc :=
  imap (prepare_segment (conversation_id c)) (transcript_segments c).

Lemma truthy_str s x : py_get s "id" = PStr x -> truthy_id s = negb (String.eqb x "").
Proof. intros H. unfold truthy_id. by rewrite H. Qed.

Lemma prepare_segment_identified cid i s : cid <> "" -> stored_segment s -> identified (prepare_segment cid i s).
Proof.
  intros Hcid [Hid Hsp]. unfold prepare_segment. rewrite (proj2 (String.eqb_neq _ _) Hcid), andb_true_r.
  set (t := if negb (truthy_id s) then _ else s).
  assert (exists sid, sid <> "" /\ py_get t "id" = PStr sid) as (sid & Hne & Ht).
  { unfold t. destruct (truthy_id s) eqn:E; cbn [negb].
    - destruct Hid as [Hid|[x Hid]]; [unfold truthy_id in E; by rewrite Hid in E|]. exists x. split; [|done].
      rewrite (truthy_str _ _ Hid) in E. by apply negb_true_iff, String.eqb_neq in E.
    - eexists. split; [apply (legacy_id_nonempty cid (Z.of_nat i))|]. by doc_simpl. }
  assert (py_get t "speaker_id" = py_get s "speaker_id") as Hts.
  { unfold t. destruct (truthy_id s); cbn [negb]; [done|]. by doc_simpl. }
  rewrite Hts. destruct Hsp as [Hsp|[n Hsp]]; rewrite Hsp; cbn [is_none].
  - exists sid, (default_speaker_id t). doc_simpl. by split_and!.
  - exists sid, n. rewrite Hts. by split_and!.
Qed.

Lemma prepared_identified c :
  conversation_id c <> "" -> Forall stored_segment (transcript_segments c) -> Forall identified (prepared c).
Proof.
  intros Hc H. apply Forall_forall. intros s Hs. apply elem_of_lookup_imap in Hs as (i & t & -> & Ht).
  apply prepare_segment_identified; [done|]. by eapply Forall_lookup_1.
Qed.

(** The id of an identified segment. *)
Definition sid_of (s : doc) : string := py_str (py_get s "id").

Lemma identified_id s : identified s ->
  segment_id s = Some (sid_of s) /\ truthy_id s = true /\ exists n, py_get s "speaker_id" = PInt n.
Proof.
  intros (sid & n & Hne & Hid & Hsp). unfold segment_id, sid_of, truthy_id. rewrite Hid. cbn.
  split_and!; [done| |by exists n]. by apply negb_true_iff, String.eqb_neq.
Qed.

(** ** The last segment of an id *)

Lemma select_last (P : doc -> bool) (ps : list (nat * doc)) : forall acc : option nat,
  (forall j, foldl (fun found p => if P p.2 then Some p.1 else found) acc ps = Some j ->
     acc = Some j \/ exists t, (j, t) ∈ ps /\ P t = true) /\
  (is_Some acc \/ (exists p, p ∈ ps /\ P p.2 = true) ->
     is_Some (foldl (fun found p => if P p.2 then Some p.1 else found) acc ps)).
Proof.
  induction ps as [|[k u] ps IH]; intros acc; cbn [foldl fst snd].
  - split; [by left|]. intros [?|(p & ? & _)]; [done|set_solver].
  - destruct (IH (if P u then Some k else acc)) as [H1 H2]. split.
    + intros j Hj. destruct (H1 j Hj) as [Ha|(t & Ht & HP)]; [|right; exists t; split; [by right|done]].
      destruct (P u) eqn:E; [|by left]. right. injection Ha as <-. exists u. split; [left|done].
    + intros H. apply H2. destruct H as [[n ->]|(q & [->|Hq]%elem_of_cons & HP)].
      * left. by destruct (P u).
      * left. cbn in HP. by rewrite HP.
      * right. eauto.
Qed.

Lemma last_index_Some P segments j :
  last_index P segments = Some j -> exists t, segments !! j = Some t /\ P t = true.
Proof.
  intros H. apply (proj1 (select_last P _ None)) in H as [?|(u & Hu & HP)]; [done|].
  apply elem_of_lookup_imap in Hu as (k & v & [= -> ->] & Hv). eauto.
Qed.

Lemma last_index_is_Some P segments i t : segments !! i = Some t -> P t = true -> is_Some (last_index P segments).
Proof.
  intros Ht HP. apply (proj2 (select_last P _ None)). right. exists (i, t). split; [|done].
  apply elem_of_lookup_imap. by exists i, t.
Qed.

Lemma has_id_spec sid s : has_id sid s = true <-> segment_id s = Some sid.
Proof. unfold has_id. destruct (segment_id s); [rewrite String.eqb_eq|]; split; congruence. Qed.

Lemma owner_of_Some segments sid t :
  owner_of segments sid = Some t -> exists j, segments !! j = Some t /\ segment_id t = Some sid.
Proof.
  unfold owner_of. intros (j & Hj & Ht)%bind_Some. exists j. split; [done|].
  apply last_index_Some in Hj as (u & Hu & HP). apply has_id_spec in HP. congruence.
Qed.

(** With distinct ids the owner of an id is the segment that has it. *)
Lemma owner_of_unique segments i t sid :
  (forall j u, segments !! j = Some u -> segment_id u = Some sid -> j = i) ->
  segments !! i = Some t -> segment_id t = Some sid -> owner_of segments sid = Some t.
Proof.
  intros Huniq Ht Hid. destruct (last_index_is_Some (has_id sid) segments i t Ht) as [j Hj]; [by apply has_id_spec|].
  unfold owner_of, last_with_id. rewrite Hj. cbn.
  apply last_index_Some in Hj as (u & Hu & HP%has_id_spec). by rewrite (Huniq _ _ Hu HP).
Qed.

(** ** The indices a target names *)

Lemma digit_value_nonneg ch d : digit_value ch = Some d -> 0 <= d.
Proof. unfold digit_value. case_match eqn:E; [|done]. intros [= <-]. apply andb_true_iff in E as [E _]. apply Z.leb_le in E. lia. Qed.

Lemma digits_value_nonneg l : forall acc n, 0 <= acc -> digits_value acc l = Some n -> 0 <= n.
Proof.
  induction l as [|ch l IH]; intros acc n Ha; cbn; [by intros [= <-]|].
  destruct (digit_value ch) as [d|] eqn:E; [|done]. apply digit_value_nonneg in E. apply IH. lia.
Qed.

Lemma parse_number_nonneg s n : parse_number s = Some n -> 0 <= n.
Proof. unfold parse_number. destruct (list_ascii_of_string s); [done|]. by apply digits_value_nonneg. Qed.

Lemma target_index_valid c segments sid i :
  target_index c segments sid = Some i -> is_Some (segments !! i).
Proof.
  unfold target_index. destruct (index_of segments sid) as [j|] eqn:E.
  - intros [= <-]. unfold index_of in E. destruct (String.eqb sid ""); [done|].
    apply last_index_Some in E as (t & Ht & _). by exists t.
  - destruct (String.eqb _ _); [|done]. destruct (_ ≫= parse_number) as [n|] eqn:Hn; [|done].
    apply bind_Some in Hn as (rest & _ & Hn%parse_number_nonneg).
    destruct (Z.ltb_spec n (Z.of_nat (length segments))); [|done]. intros [= <-]. apply lookup_lt_is_Some. lia.
Qed.

Lemma resolve_targets_valid c segments targets : forall indices unresolved,
  Forall (fun i => is_Some (segments !! i)) indices ->
  Forall (fun i => is_Some (segments !! i)) (resolve_targets c segments indices unresolved targets).1.
Proof.
  induction targets as [|sid targets IH]; intros indices unresolved H; cbn; [done|].
  destruct (target_index c segments sid) as [i|] eqn:E; [|by apply IH]. apply IH. case_bool_decide; [done|].
  apply Forall_app. split; [done|]. constructor; [by eapply target_index_valid|done].
Qed.

Lemma target_indices_valid c segments t indices :
  target_indices c segments t = Ok indices ->
  exists i s, i ∈ indices /\ segments !! i = Some s.
Proof.
  unfold target_indices. intros (found & His & H)%rbind_ok.
  assert (found = indices /\ found <> []) as [-> Hne] by (destruct found; [done|]; by injection H as <-). clear H.
  assert (Forall (fun i => is_Some (segments !! i)) indices) as Hall.
  { destruct t as [k|n|targets]; [injection His as <- ..|].
    - destruct (_ && _) eqn:E; [|done]. apply andb_true_iff in E as [E1%Z.leb_le E2%Z.ltb_lt].
      constructor; [|done]. apply lookup_lt_is_Some. lia.
    - apply Forall_forall. intros i ([j u] & Hin & He)%list_elem_of_omap.
      apply elem_of_lookup_imap in Hin as (k & v & [= -> ->] & Hk). cbn in He. case_match; [|done].
      injection He as <-. by exists v.
    - pose proof (resolve_targets_valid c segments targets [] []) as Hv.
      destruct (resolve_targets c segments [] [] targets) as [found []]; [|done]. injection His as <-. by apply Hv. }
  destruct indices as [|i indices]; [done|]. apply Forall_cons in Hall as [[s Hs] _].
  exists i, s. split; [left|done].
Qed.

(** ** The loop over the indices *)

Definition sids_at (segments : list doc) (indices : list nat) : list string :=
  omap (fun i => sid_of <$> segments !! i) indices.

Lemma elem_of_sids_at segments indices sid :
  sid ∈ sids_at segments indices <-> exists i s, i ∈ indices /\ segments !! i = Some s /\ sid_of s = sid.
Proof.
  unfold sids_at. rewrite list_elem_of_omap. split.
  - intros (i & Hi & Hs). apply fmap_Some in Hs as (s & Hs & ->). eauto.
  - intros (i & s & Hi & Hs & <-). exists i. by rewrite Hs.
Qed.

Definition overridden (identity : ManualDecision) (sids : list string) (m : gmap string ManualDecision)
    : gmap string ManualDecision :=
  foldl (fun m sid => <[sid := identity]> m) m sids.

Lemma lookup_overridden identity sids m x :
  overridden identity sids m !! x = if bool_decide (x ∈ sids) then Some identity else m !! x.
Proof.
  revert m. induction sids as [|sid sids IH]; intros m; [done|]. unfold overridden in *. cbn [foldl]. rewrite IH.
  destruct (decide (x ∈ sids)) as [Hx|Hx]; [rewrite !bool_decide_true; [done|by right|done]|].
  rewrite (bool_decide_false (x ∈ sids)) by done.
  destruct (decide (x = sid)) as [->|Hne].
  - rewrite bool_decide_true by left. apply lookup_insert_eq.
  - rewrite bool_decide_false by (intros [?|?]%elem_of_cons; done). by rewrite lookup_insert_ne.
Qed.

Definition edited (identity : ManualDecision) (per_segment : bool) (indices : list nat) (e e' : Edit) : Prop :=
  edit_segments e' = edit_segments e /\
  edit_resolved e' = edit_resolved e ++ sids_at (edit_segments e) indices /\
  edit_overrides e' =
    if per_segment then overridden identity (sids_at (edit_segments e) indices) (edit_overrides e)
    else edit_overrides e.

Lemma edit_one_spec fresh identity per_segment e i :
  Forall identified (edit_segments e) -> edited identity per_segment [i] e (edit_one fresh identity per_segment e i).
Proof.
  intros He. unfold edited, edit_one, sids_at. cbn. destruct (edit_segments e !! i) as [s|] eqn:Hs; cbn.
  - pose proof (Forall_lookup_1 _ _ _ _ He Hs) as (_ & Ht & _)%identified_id. by rewrite Ht.
  - rewrite app_nil_r. by destruct per_segment.
Qed.

Lemma edit_all_spec fresh identity per_segment indices : forall e,
  Forall identified (edit_segments e) ->
  edited identity per_segment indices e (foldl (edit_one fresh identity per_segment) e indices).
Proof.
  induction indices as [|i indices IH]; intros e He; cbn [foldl].
  - unfold edited. cbn. rewrite app_nil_r. by destruct per_segment.
  - destruct (edit_one_spec fresh identity per_segment e i He) as (H1 & H2 & H3).
    destruct (IH (edit_one fresh identity per_segment e i)) as (H4 & H5 & H6); [by rewrite H1|].
    assert (sids_at (edit_segments e) (i :: indices) =
            sids_at (edit_segments e) [i] ++ sids_at (edit_segments e) indices) as Hsplit.
    { unfold sids_at. cbn. by destruct (edit_segments e !! i). }
    unfold edited. rewrite Hsplit, H4, H5, H6, H1, H2, H3, app_assoc. split_and!; [done..|].
    destruct per_segment; [|done]. unfold overridden. by rewrite foldl_app.
Qed.

(** ** The edit *)

Section Edit.
Context (fresh : nat -> string) (c : Conversation) (person_id : option string) (is_user : bool)
  (target : Target) (training : bool).
Hypothesis named_conversation : conversation_id c <> "".
Hypothesis stored : Forall stored_segment (transcript_segments c).
Hypothesis in_order : receipt_ok (manual_speaker_assignments c).

Definition new_decision : ManualDecision :=
  {| generation := receipt_generation (manual_speaker_assignments c) + 1; decision_person_id := person_id;
     decision_is_user := is_user; use_for_speech_training := training |}.

(** The receipt after the edit of [indices]. *)
Definition edited_receipt (indices : list nat) : Receipt :=
  let r := manual_speaker_assignments c in
  let sids := sids_at (prepared c) indices in
  match target with
  | OfSpeaker n =>
      {| receipt_segments :=
           base.filter (fun kv => covered_by_speaker (prepared c) sids n kv.1 = false) (receipt_segments r);
         receipt_speakers := <[Z_to_string n := new_decision]> (receipt_speakers r);
         receipt_generation := receipt_generation r + 1 |}
  | _ =>
      {| receipt_segments := overridden new_decision sids (receipt_segments r);
         receipt_speakers := receipt_speakers r;
         receipt_generation := receipt_generation r + 1 |}
  end.

Lemma manual_assignment_result out :
  manual_assignment fresh c person_id is_user target training = Ok out ->
  exists indices previous, target_indices c (prepared c) target = Ok indices /\
    out = (apply_manual_assignments (prepared c) (edited_receipt indices), edited_receipt indices,
           sids_at (prepared c) indices, previous).
Proof.
  unfold manual_assignment. fold (prepared c). intros (indices & Hi & H)%rbind_ok.
  exists indices. injection H as <-. 
  pose proof (edit_all_spec fresh new_decision (match target with OfSpeaker _ => false | _ => true end) indices
    {| edit_segments := prepared c; edit_overrides := receipt_segments (manual_speaker_assignments c);
       edit_resolved := []; edit_previous := [] |} (prepared_identified c named_conversation stored)) as (H1 & H2 & H3).
  cbn [edit_segments edit_resolved edit_overrides app] in *. unfold edited_receipt.
  destruct target; cbn beta iota in *; eexists; (split; [exact Hi|]);
    fold new_decision; rewrite ?H1, ?H2, ?H3; reflexivity.
Qed.

Lemma as_int_eqb n m : py_eqb (PInt n) (PInt m) = true <-> n = m.
Proof. cbn. unfold inject_Z. rewrite Qeq_bool_iff. unfold Qeq. cbn. lia. Qed.

(** Segments of the speaker are exactly the indices of a speaker-wide edit. *)
Lemma speaker_indices segments n indices i s :
  target_indices c segments (OfSpeaker n) = Ok indices -> segments !! i = Some s ->
  i ∈ indices <-> py_eqb (py_get s "speaker_id") (PInt n) = true.
Proof.
  unfold target_indices. cbn [rbind]. intros H Hs.
  match type of H with context [omap ?f ?l] => assert (indices = omap f l) as -> by (destruct (omap f l); congruence) end.
  rewrite list_elem_of_omap. split.
  - intros ([j t] & Hin & He). apply elem_of_lookup_imap in Hin as (k & u & [= -> ->] & Hk). cbn in He.
    destruct (py_eqb _ _) eqn:E; [|done]. injection He as ->. by rewrite Hs in Hk; injection Hk as ->.
  - intros He. exists (i, s). cbn. rewrite He. split; [|done]. apply elem_of_lookup_imap. by exists i, s.
Qed.

Lemma newer_wins d o :
  (forall e, o = Some e -> generation e <= generation d) -> newest (Some d) o = Some d.
Proof.
  intros H. destruct o as [e|]; [|done]. cbn. specialize (H e eq_refl). destruct (Z.ltb_spec (generation d) (generation e)); [lia|done].
Qed.

Lemma newest_none o : newest None o = o.
Proof. by destruct o. Qed.

(** A resolved segment, of the speaker in a speaker-wide edit, gets the new
    decision. *)
Lemma edited_decision indices t :
  identified t -> sid_of t ∈ sids_at (prepared c) indices ->
  (forall n, target = OfSpeaker n -> py_get t "speaker_id" = PInt n) ->
  decision_for (edited_receipt indices) t = Some new_decision.
Proof.
  intros Hid Hsids Hsp. destruct (identified_id t Hid) as (Hseg & _ & _).
  unfold decision_for, by_segment. rewrite Hseg. cbn [mbind option_bind].
  destruct in_order as [_ Hspeakers].
  unfold edited_receipt. destruct target as [k|n|targets] eqn:Ht; cbn [receipt_segments].
  1,3: rewrite lookup_overridden, bool_decide_true by done; apply newer_wins; intros e He;
    apply (map_Forall_lookup_1 _ _ _ _ Hspeakers) in He; cbn; lia.
  rewrite map_lookup_filter_None_2.
  - rewrite newest_none. unfold by_speaker. cbn [receipt_speakers]. rewrite (Hsp n) by done. apply lookup_insert_eq.
  - right. intros ? _. cbn. unfold covered_by_speaker. by rewrite bool_decide_true.
Qed.

(** The others keep the decision they had. *)
Lemma untouched_decision indices i s t :
  target_indices c (prepared c) target = Ok indices -> prepared c !! i = Some s ->
  sid_of s ∉ sids_at (prepared c) indices ->
  identified t -> sid_of t = sid_of s -> py_get t "speaker_id" = py_get s "speaker_id" ->
  decision_for (edited_receipt indices) t = decision_for (manual_speaker_assignments c) t.
Proof.
  intros Hi Hs Hno Hid Hsid Hsp. pose proof (prepared_identified c named_conversation stored) as Hall.
  destruct (identified_id t Hid) as (Hseg & _ & m & Hm). unfold decision_for, by_segment, by_speaker.
  rewrite Hseg, Hsid. cbn [mbind option_bind].
  unfold edited_receipt. destruct target as [k|n|targets] eqn:Ht; cbn [receipt_segments receipt_speakers].
  1,3: by rewrite lookup_overridden, bool_decide_false.
  assert (forall j u, prepared c !! j = Some u -> py_eqb (py_get u "speaker_id") (PInt n) = true ->
            sid_of u ∈ sids_at (prepared c) indices) as Hcov.
  { intros j u Hu Hun. apply elem_of_sids_at. exists j, u. by rewrite (speaker_indices _ _ _ _ _ Hi Hu). }
  f_equal.
  - rewrite map_lookup_filter. destruct (receipt_segments _ !! sid_of s) as [d|]; [|done]. cbn.
    rewrite option_guard_True; [done|]. unfold covered_by_speaker. rewrite bool_decide_false by done. cbn [orb].
    destruct (owner_of (prepared c) (sid_of s)) as [u|] eqn:Hu; [|done]. apply owner_of_Some in Hu as (j & Hj & Hju).
    destruct (py_eqb _ _) eqn:E; [|done]. exfalso. apply Hno.
    pose proof (Forall_lookup_1 _ _ _ _ Hall Hj) as (Hju' & _)%identified_id.
    assert (sid_of s = sid_of u) as -> by congruence. by eapply Hcov.
  - rewrite Hm. cbn [py_str]. rewrite lookup_insert_ne; [done|]. intros Heq.
    apply (inj pretty) in Heq. subst m. apply Hno. apply (Hcov i); [done|]. rewrite <- Hsp, Hm. by apply as_int_eqb.
Qed.

Lemma edited_receipt_ok indices : receipt_ok (edited_receipt indices).
Proof.
  destruct in_order as [H1 H2]. set (g := receipt_generation (manual_speaker_assignments c)) in *.
  assert (forall m : gmap string ManualDecision, map_Forall (fun _ d => generation d <= g) m ->
            map_Forall (fun _ d => generation d <= g + 1) m) as Hup.
  { intros m Hm. eapply map_Forall_impl; [exact Hm|]. cbn. lia. }
  unfold edited_receipt. destruct target as [k|n|targets]; split; cbn [receipt_segments receipt_speakers receipt_generation];
    fold g; auto.
  1,4: intros x d; rewrite lookup_overridden; case_bool_decide; [intros [= <-]; cbn; lia|apply (Hup _ H1)].
  - intros x d [Hd _]%map_lookup_filter_Some. exact (Hup _ H1 x d Hd).
  - apply map_Forall_insert_2; [cbn; lia|auto].
Qed.
End Edit.

(** ** What a target names *)

Lemma without_prefix_app p s rest : without_prefix p s = Some rest <-> s = (p ++ rest)%string.
Proof.
  revert s. induction p as [|a p IH]; intros s.
  - change ("" ++ rest)%string with rest. destruct s; cbn; split; congruence.
  - change (String a p ++ rest)%string with (String a (p ++ rest)). destruct s as [|b s]; cbn; [split; discriminate|].
    destruct (Ascii.eqb_spec a b) as [->|Hne]; [rewrite IH|]; split; congruence.
Qed.

(** A text of a target list names the segments with that id or, in a completed
    conversation where no segment has it as its id, the one at its index. *)
Definition named_by (c : Conversation) (x : string) (i : nat) (s : doc) : Prop :=
  sid_of s = x \/
  (forall j u, prepared c !! j = Some u -> sid_of u <> x) /\ conversation_status c = "completed" /\
  exists number, x = ("#index:" ++ number)%string /\ parse_number number = Some (Z.of_nat i).

Definition names (c : Conversation) (t : Target) (i : nat) (s : doc) : Prop :=
  match t with
  | AtIndex k => k = Z.of_nat i
  | OfSpeaker n => py_get s "speaker_id" = PInt n
  | Named targets => exists x, x ∈ targets /\ named_by c x i s
  end.

Section Naming.
Context (c : Conversation).
Hypothesis all_identified : Forall identified (prepared c).

Lemma prepared_id i s : prepared c !! i = Some s -> segment_id s = Some (sid_of s) /\ sid_of s <> "".
Proof.
  intros Hs. pose proof (Forall_lookup_1 _ _ _ _ all_identified Hs) as Hid. split; [by apply identified_id|].
  destruct Hid as (sid & n & Hne & Hi & _). unfold sid_of. by rewrite Hi.
Qed.

Lemma has_id_prepared i s x : prepared c !! i = Some s -> has_id x s = true <-> sid_of s = x.
Proof. intros (Hs & _)%prepared_id. rewrite has_id_spec, Hs. split; congruence. Qed.

Lemma index_of_Some x j :
  index_of (prepared c) x = Some j -> exists u, prepared c !! j = Some u /\ sid_of u = x.
Proof.
  unfold index_of. destruct (String.eqb x ""); [done|]. intros (u & Hu & HP)%last_index_Some.
  exists u. split; [done|]. by apply (has_id_prepared j).
Qed.

Lemma index_of_None x : index_of (prepared c) x = None <-> forall j u, prepared c !! j = Some u -> sid_of u <> x.
Proof.
  split.
  - intros Hn j u Hu <-. destruct (prepared_id _ _ Hu) as [_ Hne]. unfold index_of in Hn.
    rewrite (proj2 (String.eqb_neq _ _) Hne) in Hn.
    destruct (last_index_is_Some (has_id (sid_of u)) (prepared c) j u Hu) as [k Hk]; [by apply (has_id_prepared j)|].
    unfold last_with_id in Hn. congruence.
  - intros Hn. destruct (index_of (prepared c) x) as [j|] eqn:E; [|done].
    apply index_of_Some in E as (u & Hu & Hx). by destruct (Hn j u).
Qed.

Lemma target_index_named x j u :
  target_index c (prepared c) x = Some j -> prepared c !! j = Some u -> named_by c x j u.
Proof.
  unfold target_index. destruct (index_of (prepared c) x) as [k|] eqn:E.
  - intros [= ->] Hu. apply index_of_Some in E as (u' & Hu' & <-). left. congruence.
  - destruct (String.eqb_spec (conversation_status c) "completed") as [Hst|]; [|done].
    destruct (_ ≫= parse_number) as [n|] eqn:Hn; [|done]. case_match; [|done]. intros [= <-] _.
    apply bind_Some in Hn as (rest & Hrest%without_prefix_app & Hp). right. split; [by apply index_of_None|]. split; [done|].
    exists rest. split; [done|]. rewrite Z2Nat.id; [done|]. by eapply parse_number_nonneg.
Qed.

Lemma named_target_index x i s :
  prepared c !! i = Some s -> named_by c x i s ->
  exists j u, target_index c (prepared c) x = Some j /\ prepared c !! j = Some u /\ sid_of u = sid_of s.
Proof.
  intros Hs Hn. unfold target_index. destruct (index_of (prepared c) x) as [k|] eqn:E.
  - apply index_of_Some in E as (u & Hu & Hx). exists k, u. split_and!; [done|done|].
    destruct Hn as [->|(Hno & _)]; [done|]. by destruct (Hno k u).
  - rewrite index_of_None in E. destruct Hn as [Hx|(_ & -> & number & -> & Hp)]; [by destruct (E i s)|].
    rewrite (proj2 (without_prefix_app _ _ number) eq_refl). cbn. rewrite Hp.
    assert (Z.of_nat i < Z.of_nat (length (prepared c))) as Hlt by (apply lookup_lt_Some in Hs; lia).
    rewrite (proj2 (Z.ltb_lt _ _) Hlt), Nat2Z.id. eauto.
Qed.

Lemma resolve_targets_mem targets : forall indices unresolved found,
  resolve_targets c (prepared c) indices unresolved targets = (found, []) ->
  forall i, i ∈ found <-> i ∈ indices \/ exists x, x ∈ targets /\ target_index c (prepared c) x = Some i.
Proof.
  assert (forall targets indices unresolved, unresolved <> [] ->
            (resolve_targets c (prepared c) indices unresolved targets).2 <> []) as Hkeep.
  { intros l. induction l as [|x l IH]; intros indices unresolved Hne; cbn; [done|].
    case_match; apply IH; [done|]. by destruct unresolved. }
  induction targets as [|x targets IH]; intros indices unresolved found; cbn [resolve_targets].
  - intros [= -> _] i. set_solver.
  - destruct (target_index c (prepared c) x) as [j|] eqn:E; intros Hf i.
    + rewrite (IH _ _ _ Hf i). case_bool_decide; set_solver.
    + destruct (Hkeep targets indices (unresolved ++ [x])); [by destruct unresolved|]. by rewrite Hf.
Qed.

(** The ids at the indices of a target are those of the segments it names. *)
Lemma indices_are_named t indices :
  target_indices c (prepared c) t = Ok indices ->
  (forall i s, i ∈ indices -> prepared c !! i = Some s -> names c t i s) /\
  (forall i s, prepared c !! i = Some s -> names c t i s ->
     exists j u, j ∈ indices /\ prepared c !! j = Some u /\ sid_of u = sid_of s).
Proof.
  intros H. destruct t as [k|n|targets]; cbn [names].
  - unfold target_indices in H. cbn [rbind] in H. destruct (_ && _) eqn:E; [|done]. injection H as <-.
    apply andb_true_iff in E as [E1%Z.leb_le E2%Z.ltb_lt]. split.
    + intros i s ->%list_elem_of_singleton _. lia.
    + intros i s Hs ->. exists i, s. rewrite Nat2Z.id. split; [by left|done].
  - split.
    + intros i s Hi Hs. apply (speaker_indices _ _ _ _ _ _ H Hs) in Hi.
      destruct (identified_id s (Forall_lookup_1 _ _ _ _ all_identified Hs)) as (_ & _ & m & Hm).
      rewrite Hm in *. by apply as_int_eqb in Hi as ->.
    + intros i s Hs Hn. exists i, s. split; [|done]. apply (speaker_indices _ _ _ _ _ _ H Hs). rewrite Hn. by apply as_int_eqb.
  - unfold target_indices in H. destruct (resolve_targets _ _ _ _ _) as [found [|]] eqn:E; [|done]. cbn [rbind] in H.
    assert (indices = found) as -> by (destruct found; congruence). clear H.
    pose proof (resolve_targets_mem _ _ _ _ E) as Hmem. split.
    + intros i s [?|(x & Hx & Ht)]%Hmem Hs; [set_solver|]. exists x. split; [done|]. by apply target_index_named.
    + intros i s Hs (x & Hx & Hn). destruct (named_target_index _ _ _ Hs Hn) as (j & u & Ht & Hu & Hid).
      exists j, u. split; [|done]. apply Hmem. right. eauto.
Qed.

Lemma sids_are_named t indices sid :
  target_indices c (prepared c) t = Ok indices ->
  sid ∈ sids_at (prepared c) indices <-> exists i s, prepared c !! i = Some s /\ sid_of s = sid /\ names c t i s.
Proof.
  intros [Hin Hout]%indices_are_named. rewrite elem_of_sids_at. split.
  - intros (i & s & Hi & Hs & <-). exists i, s. split_and!; auto.
  - intros (i & s & Hs & <- & Hn). destruct (Hout i s Hs Hn) as (j & u & ? & ? & ?). eauto.
Qed.

(** A segment the target names gets the new decision. *)
Lemma named_decision person_id is_user target training indices i s :
  receipt_ok (manual_speaker_assignments c) -> target_indices c (prepared c) target = Ok indices ->
  prepared c !! i = Some s -> names c target i s ->
  decision_for (edited_receipt c person_id is_user target training indices) s =
    Some (new_decision c person_id is_user training).
Proof.
  intros Hr Hi Hs Hn. apply edited_decision; [done|by eapply Forall_lookup_1|..].
  - apply (sids_are_named target); [done|]. eauto.
  - by intros n ->.
Qed.
End Naming.

(** ** What an edit does *)

(** C30: a manual edit takes effect on exactly the segments it names.  In a
    conversation whose receipt has no decision from its own future, an edit that
    succeeds resolves at least one id, and exactly the ids of the segments its
    target names: the one at its index, those of its speaker, or those its texts
    name.  Every segment the target names is attributed as asked, whichever
    decisions covered it before; every segment whose id is not resolved keeps the
    decision it had, and is exactly as before when it had none; and no decision
    is newer than the receipt the edit leaves. *)
Theorem edit_takes_effect_where_named fresh c person_id is_user target training segments' r' resolved previous :
  conversation_id c <> "" -> Forall stored_segment (transcript_segments c) ->
  receipt_ok (manual_speaker_assignments c) ->
  manual_assignment fresh c person_id is_user target training = Ok (segments', r', resolved, previous) ->
  let d := new_decision c person_id is_user training in
  resolved <> [] /\ receipt_ok r' /\
  (forall sid, sid ∈ resolved <->
     exists i s, prepared c !! i = Some s /\ sid_of s = sid /\ names c target i s) /\
  forall i s, prepared c !! i = Some s ->
    exists s', segments' !! i = Some s' /\ same_keys s' s /\
      (sid_of s ∉ resolved ->
         decision_for r' s = decision_for (manual_speaker_assignments c) s /\
         (decision_for (manual_speaker_assignments c) s = None -> s' = s)) /\
      (names c target i s -> sid_of s ∈ resolved /\ shows s' d).
Proof.
  intros Hc Hst Hr H. cbn zeta. pose proof (prepared_identified c Hc Hst) as Hall.
  apply (manual_assignment_result fresh c) in H as (indices & prev & Hi & Hout); [|done..].
  injection Hout as -> -> -> _. split_and!.
  - destruct (target_indices_valid _ _ _ _ Hi) as (i & s & Hin & Hs).
    assert (sid_of s ∈ sids_at (prepared c) indices) as Hin' by (apply elem_of_sids_at; eauto). intros E.
    rewrite E in Hin'. by apply not_elem_of_nil in Hin'.
  - by apply edited_receipt_ok.
  - intros sid. by apply sids_are_named.
  - intros i s Hs. set (r' := edited_receipt c person_id is_user target training indices).
    pose proof (Forall_lookup_1 _ _ _ _ Hall Hs) as Hid.
    exists (apply_one r' s). rewrite apply_all, list_lookup_fmap, Hs. split; [done|]. split; [apply apply_one_keys|].
    split.
    + intros Hno. assert (decision_for r' s = decision_for (manual_speaker_assignments c) s) as Hsame
        by (by eapply untouched_decision).
      split; [done|]. intros Hnone. rewrite Hnone in Hsame. unfold apply_one. by rewrite Hsame.
    + intros Hn. split; [apply (sids_are_named c Hall target); eauto|].
      apply apply_one_shows. by eapply named_decision.
Qed.

(** ** Teaching *)

Lemma not_user_falsy v : py_eqb v (PBool false) = true -> truthy v = false.
Proof.
  destruct v as [|[]|z|q| | | |]; try done; cbn [truthy]; intros H; apply negb_false_iff.
  - apply Z.eqb_eq. by apply as_int_eqb.
  - exact H.
Qed.

Lemma acknowledged_shown d segment q :
  shows segment d ->
  bool_decide (decision_person_id d = Some q) && negb (decision_is_user d) && use_for_speech_training d
    && py_eqb (py_get segment "person_id") (PStr q) && negb (truthy (py_get segment "is_user")) =
  bool_decide (decision_person_id d = Some q) && negb (decision_is_user d) && use_for_speech_training d.
Proof.
  intros (Hu & Hp & _).
  case_bool_decide as Hq; [|done]. destruct (decision_is_user d); [done|]. rewrite Hq in Hp.
  rewrite Hp, (not_user_falsy _ Hu). cbn. rewrite String.eqb_refl. by destruct (use_for_speech_training d).
Qed.

Definition after_edit (c : Conversation) (segments : list doc) (r : Receipt) : Conversation :=
  {| conversation_id := conversation_id c; conversation_status := conversation_status c;
     transcript_segments := segments; manual_speaker_assignments := r |}.

(** The segments after an edit, looked up by id. *)
Lemma edited_owner segments r i s :
  Forall identified segments -> NoDup (sid_of <$> segments) -> segments !! i = Some s ->
  owner_of (apply_one r <$> segments) (sid_of s) = Some (apply_one r s).
Proof.
  intros Hall Hnd Hs. apply (owner_of_unique _ i).
  - intros j u Hj Hu. rewrite list_lookup_fmap in Hj. apply fmap_Some in Hj as (t & Ht & ->).
    pose proof (Forall_lookup_1 _ _ _ _ Hall Ht) as (Htid & _ & _)%identified_id.
    destruct (apply_one_keys r t) as [Hk _]. unfold segment_id in Hu, Htid. rewrite Hk, Htid in Hu.
    apply (NoDup_lookup (sid_of <$> segments) j i (sid_of s)); [done|rewrite list_lookup_fmap ..].
    + rewrite Ht. cbn. congruence.
    + by rewrite Hs.
  - by rewrite list_lookup_fmap, Hs.
  - destruct (apply_one_keys r s) as [Hk _]. unfold segment_id. rewrite Hk.
    by destruct (identified_id s (Forall_lookup_1 _ _ _ _ Hall Hs)).
Qed.

Lemma edited_decision_at segments r i s d :
  Forall identified segments -> segments !! i = Some s -> decision_for r s = Some d ->
  newest (receipt_segments r !! sid_of s) (by_speaker r (apply_one r s)) = Some d.
Proof.
  intros Hall Hs Hd. rewrite <- Hd, <- (decision_after r s). unfold decision_for at 1, by_segment, segment_id.
  destruct (apply_one_keys r s) as [Hk _]. rewrite Hk.
  destruct (identified_id s (Forall_lookup_1 _ _ _ _ Hall Hs)) as (Hseg & _). unfold segment_id in Hseg. by rewrite Hseg.
Qed.

(** Teaching follows the current decision.  After an edit of a conversation
    with distinct segment ids, teaching a person from clips the edit named is
    authorised exactly when the edit named that person, not the user, and
    allowed training: a correction to someone else, to nobody or to the user
    withdraws it. *)
Theorem teaching_follows_the_decision fresh c person_id is_user target training segments' r' resolved previous q ids :
  conversation_id c <> "" -> Forall stored_segment (transcript_segments c) ->
  receipt_ok (manual_speaker_assignments c) -> NoDup (sid_of <$> prepared c) ->
  manual_assignment fresh c person_id is_user target training = Ok (segments', r', resolved, previous) ->
  ids <> [] -> ids ⊆ resolved ->
  acknowledged_teaching (after_edit c segments' r') q ids =
    negb (String.eqb q "") && (bool_decide (person_id = Some q) && negb is_user && training).
Proof.
  intros Hc Hst Hr Hnd H Hne Hsub. pose proof (prepared_identified c Hc Hst) as Hall.
  apply (manual_assignment_result fresh c) in H as (indices & prev & Hi & Hout); [|done..].
  injection Hout as -> -> -> _. unfold acknowledged_teaching. rewrite (bool_decide_false (ids = [])) by done.
  rewrite andb_true_r. f_equal. set (d := new_decision c person_id is_user training).
  set (r' := edited_receipt c person_id is_user target training indices). cbn [manual_speaker_assignments transcript_segments after_edit].
  assert (forall sid, sid ∈ ids -> acknowledged_one r' (apply_manual_assignments (prepared c) r') q sid =
            (bool_decide (person_id = Some q) && negb is_user && training)) as Hone.
  { intros sid (i & s & Hin & Hs & <-)%Hsub%elem_of_sids_at.
    assert (decision_for r' s = Some d) as Hd
      by (eapply named_decision; [done..|by eapply (indices_are_named c Hall target)]).
    unfold acknowledged_one. rewrite apply_all, (edited_owner _ r' _ _ Hall Hnd Hs). cbn [default].
    unfold default, from_option, id. rewrite (edited_decision_at _ r' _ _ _ Hall Hs Hd).
    apply (acknowledged_shown d). by apply apply_one_shows. }
  apply eq_iff_eq_true. rewrite forallb_forall. split.
  - intros Hf. destruct ids as [|sid ids]; [done|]. rewrite <- (Hone sid) by left. apply Hf. by left.
  - intros Ht sid Hsid. rewrite Hone; [done|]. by apply list_elem_of_In.
Qed.

(** The clips offered for teaching: at most [limit], of the resolved segments,
    none shorter than one left out. *)
Lemma teaching_takes_the_longest segments resolved limit ids :
  teaching_segment_ids segments resolved limit = Ok ids ->
  exists ranked chosen rest, ranked_clips segments resolved = Ok ranked /\ ranked ≡ₚ chosen ++ rest /\
    ids = chosen.*2 /\ (length ids <= limit)%nat /\
    forall a b, a ∈ chosen -> b ∈ rest -> (b.1 <= a.1)%Q.
Proof.
  intros (ranked & Hr & [= <-])%rbind_ok.
  exists ranked, (take limit (merge_sort longer_first ranked)), (drop limit (merge_sort longer_first ranked)).
  assert (Transitive longer_first) as Htr.
  { intros a b e. unfold longer_first. rewrite !Qle_bool_iff. intros. by eapply Qle_trans. }
  assert (Total longer_first) as Htot.
  { intros a b. unfold longer_first. rewrite !Qle_bool_iff. destruct (Qlt_le_dec b.1 a.1); [left; by apply Qlt_le_weak|by right]. }
  pose proof (StronglySorted_merge_sort longer_first ranked) as Hss.
  split_and!; [done| |done| |].
  - by rewrite take_drop, merge_sort_Permutation.
  - rewrite length_fmap, length_take. lia.
  - intros a b Ha Hb. rewrite <- (take_drop limit (merge_sort longer_first ranked)) in Hss.
    apply StronglySorted_app_1_elem_of with (x1 := a) (x2 := b) in Hss; [|done..]. by apply Qle_bool_iff.
Qed.

(** ** An edited conversation *)

Module EditDemo.

Definition stored_doc (sid : string) (voice : Z) (from to : Z) : doc :=
  doc_set [put_str "id" sid; put_int "speaker_id" voice; put_int "start" from; put_int "end" to;
           put_bool "is_user" false; put_none "person_id"].

Definition call : Conversation :=
  {| conversation_id := "c1"; conversation_status := "completed";
     transcript_segments := [stored_doc "a" 0 0 4; stored_doc "b" 1 4 9; stored_doc "c" 0 9 11];
     manual_speaker_assignments := empty_receipt |}.

Definition fresh (_ : nat) : string := "u".

(** Speaker 0 is Ada. *)
Definition labelled := manual_assignment fresh call (Some "ada") false (OfSpeaker 0) true.

Example labelled_segments :
  match labelled with
  | Ok (segments, _, resolved, _) =>
      (fun s => py_get s "person_id") <$> segments = [PStr "ada"; PNone; PStr "ada"] /\ resolved = ["a"; "c"]
  | Raise _ => False
  end.
Proof. vm_compute. by split. Qed.

Example clips : teaching_segment_ids (transcript_segments call) ["c"; "a"] TEACHING_CANDIDATE_LIMIT = Ok ["a"; "c"].
Proof. vm_compute. reflexivity. Qed.

Lemma stored_ok : Forall stored_segment (transcript_segments call).
Proof. repeat (apply Forall_cons_2; [split; right; eexists; vm_compute; reflexivity|]). apply Forall_nil_2. Qed.

Lemma receipt_in_order : receipt_ok empty_receipt.
Proof. split; apply map_Forall_empty. Qed.

(** The first segment was put down to Bo, and then its speaker to Ada. *)
Definition relabelled : Receipt :=
  {| receipt_segments := {["a" := {| generation := 1; decision_person_id := Some "bo"; decision_is_user := false;
                                     use_for_speech_training := true |}]};
     receipt_speakers := {["0" := {| generation := 2; decision_person_id := Some "ada"; decision_is_user := false;
                                     use_for_speech_training := true |}]};
     receipt_generation := 2 |}.

Definition guessed : doc := doc_update (stored_doc "a" 0 0 4) [put_bool "is_user" true].

Lemma manual_decisions_outlive_inference_witness :
  exists u, apply_manual_assignments [guessed] relabelled !! 0%nat = Some u /\
    shows u {| generation := 2; decision_person_id := Some "ada"; decision_is_user := false;
               use_for_speech_training := true |}.
Proof.
  destruct (manual_decisions_outlive_inference relabelled [stored_doc "a" 0 0 4] [guessed] 0
              (stored_doc "a" 0 0 4) guessed) as [(u & Hu & _ & Hd & _) _];
    [constructor; [split; vm_compute; reflexivity|constructor]|reflexivity|reflexivity|].
  exists u. split; [done|]. apply Hd. right. split; [reflexivity|].
  intros e (sid & Hsid & He). cbn in He. apply lookup_singleton_Some in He as [_ <-]. reflexivity.
Defined.

Definition ada : ManualDecision :=
  {| generation := 1; decision_person_id := Some "ada"; decision_is_user := false; use_for_speech_training := true |}.

(** An override at [x], and the absorption of [x] into [y] and of [y] into [z]. *)
Definition override_at_x : Receipt :=
  {| receipt_segments := {["x" := ada]}; receipt_speakers := ∅; receipt_generation := 1 |}.

Definition absorbed : gmap string string := {["x" := "y"; "y" := "z"]}.

Lemma absorbed_ends : absorption_ends absorbed ["x"; "y"] /\ ends_in absorbed "x" "z".
Proof.
  assert (ends_in absorbed "x" "z") as Hx.
  { exists 2%nat. exists "y". split; [reflexivity|]. exists "z". split; [reflexivity|]. split; reflexivity. }
  split; [|exact Hx]. split.
  - intros x. unfold absorbed. rewrite lookup_insert_is_Some, lookup_singleton_is_Some.
    destruct (decide ("x" = x)); set_solver.
  - intros x Hin. exists "z". apply elem_of_cons in Hin as [->|Hin]; [exact Hx|].
    apply list_elem_of_singleton in Hin as ->. exists 1%nat. exists "z". split; [reflexivity|]. split; reflexivity.
Qed.

Lemma overrides_follow_absorption_witness :
  exists r', remap_absorbed_receipt override_at_x ["x"; "y"] absorbed = Ok r' /\
    no_older (receipt_segments r' !! "z") ada.
Proof.
  destruct (overrides_follow_absorption absorbed ["x"; "y"] override_at_x (proj1 absorbed_ends))
    as (r' & Hr & _ & _ & _ & Hmove & _).
  exists r'. split; [exact Hr|]. apply (Hmove "x"); [reflexivity|exact (proj2 absorbed_ends)].
Defined.

Lemma labelled_names_segments : match labelled with Ok (_, _, _ :: _, _) => true | _ => false end = true.
Proof. vm_compute. reflexivity. Qed.

Lemma edit_takes_effect_where_named_witness :
  exists segments' r' resolved previous, labelled = Ok (segments', r', resolved, previous) /\
    resolved <> [] /\ receipt_ok r'.
Proof.
  pose proof labelled_names_segments as Hl.
  destruct labelled as [[[[segments' r'] resolved] previous]|e] eqn:E; [|discriminate].
  exists segments', r', resolved, previous. split; [reflexivity|].
  destruct (edit_takes_effect_where_named fresh call (Some "ada") false (OfSpeaker 0) true segments' r' resolved previous)
    as (Hne & Hok & _ & _); [discriminate|exact stored_ok|exact receipt_in_order|exact E|by split].
Defined.

Lemma teaching_follows_the_decision_witness :
  exists segments' r' resolved previous, labelled = Ok (segments', r', resolved, previous) /\
    acknowledged_teaching (after_edit call segments' r') "ada" resolved = true.
Proof.
  pose proof labelled_names_segments as Hl.
  destruct labelled as [[[[segments' r'] resolved] previous]|e] eqn:E; [|discriminate].
  exists segments', r', resolved, previous. split; [reflexivity|].
  apply (teaching_follows_the_decision fresh call (Some "ada") false (OfSpeaker 0) true segments' r' resolved previous
           "ada" resolved); [discriminate|exact stored_ok|exact receipt_in_order| |exact E| |done].
  - apply (bool_decide_unpack _). vm_compute. exact I.
  - intros ->. discriminate.
Defined.
End EditDemo.
