(* ===== verification/LiveTranscript.v ===== *)
(** Writing a transcript ([merge_live_segments] of
    [utils/manual_speaker_assignments.py] and the transaction of
    [update_conversation_segments], [database/conversations.py]): the live merge
    planned against the receipt of the transaction, the overlays of inference,
    and the manual decisions reapplied last.

    A conversation is the decoded part of its document the transaction reads and
    writes: the segments, the receipt, whether it has content and whether a
    client projection is stored.  Construction and dump of a segment model are
    the validation library's and are parameters. *)
From stdpp Require Import sorting.
From S2P Require Export TranscriptOps ManualEdit.

Record StoredTranscript : Type := {
  st_segments : list doc;
  st_receipt : Receipt;
  st_has_content : bool;
  st_projection : bool;
}.

Inductive WriteError : Type :=
| BadModes
| BadFields
| BadReceipt (e : pyexc).

(** ** Order *)

Definition time_key (s : doc) (k : string) : Q := default 0%Q (as_number (py_get s k)).

(** [(start, end)], compared as tuples. *)
Definition earlier_or_same (a b : doc) : Prop :=
  (Qlt_bool (time_key a "start") (time_key b "start")
   || Qeq_bool (time_key a "start") (time_key b "start") && Qle_bool (time_key a "end") (time_key b "end")) = true.

#[export] Instance earlier_or_same_dec : RelDecision earlier_or_same.
Proof. intros a b. unfold earlier_or_same. apply _. Defined.

Definition sort_by_time (segments : list doc) : list doc := merge_sort earlier_or_same segments.

(** ** Overlays *)

(** The last of [updates] with the id of [s]. *)
Definition update_for (updates : list doc) (s : doc) : option doc :=
  last_index (fun u => py_eqb (py_get u "id") (py_get s "id")) updates ≫= fun i => updates !! i.

(** [dict(s, **{k: u[k] for k in fields if k in u})] *)
Definition overlay (fields : list string) (u s : doc) : doc :=
  foldl (fun d k => match u !! k with Some v => <[k := v]> d | None => d end) s fields.

Definition overlay_all (fields : list string) (updates incoming : list doc) : list doc :=
  (fun s => match update_for updates s with Some u => overlay fields u s | None => s end) <$> incoming.

Definition IDENTITY_FIELDS : list string := ["person_id"; "is_user"; "speaker_identity_status"].
Definition PATCHABLE_FIELDS : list string := ["translations"; "person_id"; "is_user"; "speaker_identity_status"].

Section Live.
Context (isspace isalpha islower : Z -> bool) (construct : doc -> TranscriptSegment) (model_dump : TranscriptSegment -> doc).

(** ** The live merge *)

Record LiveTranscriptMerge : Type := {
  live_segments : list doc;
  live_updated_ids : list string;
  live_removed_ids : list string;
  live_absorbed_into : gmap string string;
}.

(** Whether the receipt has a decision for a segment of this id or speaker. *)
Definition covered (r : Receipt) (among : list TranscriptSegment) (sid : string) : bool :=
  bool_decide (is_Some (receipt_segments r !! sid)) ||
  existsb (fun s => String.eqb (id s) sid && negb (String.eqb (id s) "")
                    && bool_decide (is_Some (receipt_speakers r !! Z_to_string (speaker_id s)))) among.

Definition merge_live_segments (persisted fresh : list doc) (r : Receipt) : LiveTranscriptMerge :=
  let tail := construct <$> option_list (last persisted) in
  let incoming := construct <$> fresh in
  let combined := combine_segments isspace isalpha islower (covered r (tail ++ incoming)) tail incoming 0 in
  {| live_segments := sort_by_time (removelast persisted ++ (model_dump <$> segments combined));
     live_updated_ids := base.filter (fun sid => sid <> "") (id <$> joined combined);
     live_removed_ids := res_removed_ids combined;
     live_absorbed_into := res_absorbed_into combined |}.

(** ** The transaction *)

(** Who owns the segment set of a write. *)
Inductive WriteMode : Type :=
| LiveMerge (fresh : list doc)
| FieldPatch (fields : list string)
| LiveAndFields
| Replace (preserve_unseen : bool).

(** Segments of the document whose id is not among the incoming ones. *)
Definition unseen (incoming persisted : list doc) : list doc :=
  base.filter (fun s => existsb (fun t => py_eqb (py_get t "id") (py_get s "id")) incoming = false) persisted.

(** The combinations refused before the transaction starts. *)
Definition check_mode (mode : WriteMode) : result WriteError unit :=
  match mode with
  | LiveAndFields => Raise BadModes
  | FieldPatch fields => if forallb (fun f => bool_decide (f ∈ PATCHABLE_FIELDS)) fields then Ok tt else Raise BadFields
  | _ => Ok tt
  end.

(** The segments before the receipt is applied, and the receipt. *)
Definition planned_write (mode : WriteMode) (segments : list doc) (current : StoredTranscript)
    : result WriteError (list doc * Receipt) :=
  let persisted := st_segments current in
  match mode with
  | LiveMerge fresh =>
      let planned := merge_live_segments persisted fresh (st_receipt current) in
      match remap_absorbed_receipt (st_receipt current) (live_removed_ids planned) (live_absorbed_into planned) with
      | Raise e => Raise (BadReceipt e)
      | Ok r => Ok (overlay_all IDENTITY_FIELDS segments (live_segments planned), r)
      end
  | FieldPatch fields => Ok (overlay_all fields segments persisted, st_receipt current)
  | Replace true => Ok (sort_by_time (segments ++ unseen segments persisted), st_receipt current)
  | _ => Ok (segments, st_receipt current)
  end.

(** [None] is a document that does not exist.  Whether or not the caller asks for
    it, a projection that is stored is cleared by the write. *)
Definition update_conversation_segments (mode : WriteMode) (segments : list doc) (current : option StoredTranscript)
    : result WriteError (option StoredTranscript) :=
  let* _ := check_mode mode in
  match current with
  | None => Ok None
  | Some st =>
      let* '(incoming, r) := planned_write mode segments st in
      let accepted := apply_manual_assignments incoming r in
      Ok (Some {| st_segments := accepted; st_receipt := r;
                  st_has_content := st_has_content st || negb (bool_decide (accepted = []));
                  st_projection := false |})
  end.


(** ** What a live write keeps *)

(** What construction and dump do with ids and speaker numbers. *)
Hypothesis construct_keys : forall d, identified d ->
  id (construct d) = sid_of d /\ py_get d "speaker_id" = PInt (speaker_id (construct d)).
Hypothesis dump_keys : forall s,
  py_get (model_dump s) "id" = PStr (id s) /\ py_get (model_dump s) "speaker_id" = PInt (speaker_id s).

Lemma dump_construct d s :
  identified d -> id s = id (construct d) -> speaker_id s = speaker_id (construct d) -> same_keys (model_dump s) d.
Proof.
  intros Hd Hi Hs. destruct (construct_keys d Hd) as [Hid Hsp], (dump_keys s) as [Hdi Hds].
  split; [|congruence]. rewrite Hdi, Hi, Hid. destruct Hd as (sid & n & _ & Hsid & _).
  unfold sid_of. by rewrite Hsid.
Qed.

Lemma covered_decision r among d e :
  identified d -> construct d ∈ among -> decision_for r d = Some e -> covered r among (sid_of d) = true.
Proof.
  intros Hd Hin He. destruct (construct_keys d Hd) as [Hid Hsp]. destruct (identified_id d Hd) as (Hseg & _ & _).
  unfold covered. destruct (receipt_segments r !! sid_of d) eqn:Hs; [by rewrite bool_decide_true by done|].
  unfold decision_for, by_segment in He. rewrite Hseg in He. cbn [mbind option_bind] in He.
  rewrite Hs in He. rewrite newest_none in He. unfold by_speaker in He. rewrite Hsp in He. cbn [py_str] in He.
  apply orb_true_iff. right. apply existsb_exists. exists (construct d). split; [by apply list_elem_of_In|].
  rewrite Hid, String.eqb_refl, bool_decide_true by (by exists e). cbn. rewrite andb_true_r.
  destruct Hd as (sid & n & Hne & Hsid & _). unfold sid_of. rewrite Hsid. by apply negb_true_iff, String.eqb_neq.
Qed.

Lemma last_in {A} (l : list A) x : x ∈ l -> x ∈ removelast l \/ last l = Some x.
Proof.
  intros H. destruct (last l) as [y|] eqn:Hl.
  - rewrite (last_split _ _ Hl) in H. apply elem_of_app in H as [H|H]; [by left|]. apply list_elem_of_singleton in H as ->. by right.
  - apply last_None in Hl as ->. by apply not_elem_of_nil in H.
Qed.

(** Every covered segment is in the planned transcript under its keys. *)
Lemma live_keeps persisted fresh r d e :
  identified d -> d ∈ persisted ++ fresh -> decision_for r d = Some e ->
  exists t, t ∈ live_segments (merge_live_segments persisted fresh r) /\ same_keys t d.
Proof.
  intros Hd Hin He. cbn [merge_live_segments live_segments]. unfold sort_by_time.
  set (tail := construct <$> option_list (last persisted)). set (incoming := construct <$> fresh).
  set (protected := covered r (tail ++ incoming)).
  cut (d ∈ removelast persisted \/ exists s, s ∈ segments (combine_segments isspace isalpha islower protected tail incoming 0)
         /\ id s = id (construct d) /\ speaker_id s = speaker_id (construct d)).
  { intros [H|(s & Hs & Hi & Hn)].
    - exists d. split; [|done]. rewrite merge_sort_Permutation. apply elem_of_app. by left.
    - exists (model_dump s). split; [|by apply dump_construct]. rewrite merge_sort_Permutation.
      apply elem_of_app. right. by apply list_elem_of_fmap_2. }
  assert (d ∈ removelast persisted \/ construct d ∈ tail ++ incoming) as [?|Hc]; [|by left|right].
  { apply elem_of_app in Hin as [Hin|Hin].
    - destruct (last_in _ _ Hin) as [?|Hl]; [by left|right]. apply elem_of_app. left. unfold tail. rewrite Hl. left.
    - right. apply elem_of_app. right. by apply list_elem_of_fmap_2. }
  destruct (decide (incoming = [])) as [->|Hne].
  { rewrite app_nil_r in Hc. by exists (construct d). }
  exists (normalized isspace (construct d)). split; [|done]. rewrite combine_result by done. cbn [segments].
  apply list_elem_of_fmap_2. apply elem_of_app. rewrite (earlier_split tail), <- app_assoc, elem_of_app in Hc.
  destruct Hc as [Hc|Hc]; [by left|right]. apply join_all_protected.
  - destruct (construct_keys d Hd) as [-> _]. eapply covered_decision; [done| |exact He].
    rewrite (earlier_split tail), <- app_assoc. apply elem_of_app. by right.
  - apply elem_of_app in Hc as [Hc|Hc]; [by right|left]. apply list_elem_of_fmap. by exists (construct d).
Qed.
Lemma overlay_other fields u s k : k ∉ fields -> overlay fields u s !! k = s !! k.
Proof.
  unfold overlay. revert s. induction fields as [|f fields IH]; intros s Hk; [done|]. cbn [foldl].
  rewrite IH by set_solver. destruct (u !! f); [|done]. rewrite lookup_insert_ne; [done|set_solver].
Qed.

Lemma overlay_keys fields u s : "id" ∉ fields -> "speaker_id" ∉ fields -> same_keys (overlay fields u s) s.
Proof. intros H1 H2. unfold same_keys, py_get. by rewrite !overlay_other. Qed.

Lemma overlay_all_keeps updates segments t d :
  t ∈ segments -> same_keys t d ->
  exists u, u ∈ overlay_all IDENTITY_FIELDS updates segments /\ same_keys u d.
Proof.
  intros Ht Hk. eexists. split; [by apply list_elem_of_fmap_2|]. cbn beta.
  destruct (update_for updates t) as [u|]; [|done]. etrans; [apply overlay_keys|exact Hk];
    unfold IDENTITY_FIELDS; set_solver.
Qed.

(** ** The receipt is not moved *)

(** The segments a live merge works on. *)
Definition mutable_part (persisted fresh : list doc) : list doc := option_list (last persisted) ++ fresh.

Lemma mutable_split persisted fresh :
  exists before, persisted ++ fresh = before ++ mutable_part persisted fresh.
Proof.
  unfold mutable_part. destruct (last persisted) as [d|] eqn:Hl.
  - exists (removelast persisted). rewrite (last_split _ _ Hl) at 1. by rewrite <- app_assoc.
  - apply last_None in Hl as ->. by exists [].
Qed.

Lemma constructed_ids persisted fresh :
  Forall identified (persisted ++ fresh) -> NoDup (sid_of <$> (persisted ++ fresh)) ->
  NoDup (ids (construct <$> mutable_part persisted fresh)) /\ "" ∉ ids (construct <$> mutable_part persisted fresh).
Proof.
  destruct (mutable_split persisted fresh) as [before ->]. intros [_ Hall]%Forall_app Hnd.
  rewrite fmap_app in Hnd. apply NoDup_app in Hnd as (_ & _ & Hnd).
  assert (ids (construct <$> mutable_part persisted fresh) = sid_of <$> mutable_part persisted fresh) as ->.
  { unfold ids. rewrite <- list_fmap_compose. apply list_fmap_ext. intros i d Hd.
    by apply construct_keys, (Forall_lookup_1 _ _ _ _ Hall Hd). }
  split; [done|]. intros (d & He & Hd)%list_elem_of_fmap.
  destruct (proj1 (Forall_forall _ _) Hall d Hd) as (sid & n & Hne & Hid & _). unfold sid_of in He. by rewrite Hid in He.
Qed.

(** The absorptions of a live merge end in survivors, and none concerns a
    segment with an override. *)
Lemma live_absorptions persisted fresh r :
  Forall identified (persisted ++ fresh) -> NoDup (sid_of <$> (persisted ++ fresh)) ->
  let planned := merge_live_segments persisted fresh r in
  absorption_ends (live_absorbed_into planned) (live_removed_ids planned) /\
  forall x, x ∈ live_removed_ids planned -> receipt_segments r !! x = None.
Proof.
  intros Hall Hnd. cbn [merge_live_segments live_absorbed_into live_removed_ids].
  destruct (constructed_ids persisted fresh Hall Hnd) as [Hids Hne]. unfold mutable_part in *. rewrite fmap_app in Hids, Hne.
  set (tail := construct <$> option_list (last persisted)) in *. set (incoming := construct <$> fresh) in *.
  set (protected := covered r (tail ++ incoming)).
  destruct (decide (incoming = [])) as [->|Hsome].
  { cbn. split; [|set_solver]. split; [|set_solver]. intros x. rewrite lookup_empty, is_Some_alt. set_solver. }
  rewrite combine_result by done. cbn [res_removed_ids res_absorbed_into].
  destruct (join_all_tracked isspace isalpha islower protected 0 tail incoming Hids Hne) as [Hperm Hdom Hend].
  split; [split; [intros x; symmetry; apply Hdom|]|].
  - intros x Hx. destruct (Hend x Hx) as (y & Hy & Hxy). exists y. apply ends_in_tc; [done|].
    apply eq_None_not_Some. rewrite Hdom. intros Hy'. rewrite app_nil_r in Hperm.
    assert (NoDup (ids (joined_similar_segments (join_all isspace isalpha islower protected 0 tail incoming)) ++
              removed_ids (join_all isspace isalpha islower protected 0 tail incoming))) as (_ & Hdis & _)%NoDup_app.
    { rewrite Hperm. rewrite (earlier_split tail), <- app_assoc, ids_app in Hids. by apply NoDup_app in Hids as (_ & _ & ?). }
    by apply (Hdis y).
  - intros x Hx%join_all_removed. unfold protected, covered in Hx. apply orb_false_iff in Hx as [Hx _].
    apply bool_decide_eq_false in Hx. by apply eq_None_not_Some.
Qed.

Lemma moved_nothing m moves before after :
  ends_known m moves -> (forall x, is_Some (m !! x) -> x ∈ moves.*1) -> moved m moves before after ->
  (forall x, is_Some (m !! x) -> before !! x = None) -> after = before.
Proof.
  intros Hk Hall [Hout Hnot Hown Hin Hfrom] Hnone.
  assert (forall y e, m !! y = None -> after !! y = Some e -> before !! y = Some e) as Hback.
  { intros y e Hy He. destruct (Hfrom y e Hy He) as [?|(x & Hx & Hb)]; [done|].
    destruct (proj1 (Forall_forall _ _) Hk _ Hx) as [Hs _]. cbn in Hs. rewrite (Hnone x Hs) in Hb. done. }
  apply map_eq. intros y. destruct (m !! y) as [z|] eqn:Hy.
  - rewrite (Hout y), (Hnone y) by eauto. done.
  - destruct (before !! y) as [e|] eqn:He.
    + destruct (Hown y e Hy He) as (e' & He' & _). rewrite He'. rewrite <- He. symmetry. by apply Hback.
    + destruct (after !! y) as [e|] eqn:He'; [|done]. by rewrite (Hback y e Hy He') in He.
Qed.

(** C20: a live write keeps every label.  Whatever arrives and whatever inference
    supplies, the transaction that merges fresh speech into a transcript with
    distinct ids succeeds, leaves the receipt as it was (no absorption cycle,
    and no override that would have to move), and every stored or fresh segment
    with a manual decision is still in the transcript under its id and speaker
    number, attributed as the newest decision says. *)
Theorem live_writes_keep_labels current fresh inferred :
  Forall identified (st_segments current ++ fresh) -> NoDup (sid_of <$> (st_segments current ++ fresh)) ->
  exists st', update_conversation_segments (LiveMerge fresh) inferred (Some current) = Ok (Some st') /\
    st_receipt st' = st_receipt current /\
    forall s d, s ∈ st_segments current ++ fresh -> decision_for (st_receipt current) s = Some d ->
      exists s', s' ∈ st_segments st' /\ same_keys s' s /\ shows s' d.
Proof.
  intros Hall Hnd. destruct (live_absorptions _ _ (st_receipt current) Hall Hnd) as [Hends Hfree].
  destruct (remap_spec _ (st_receipt current) _ Hends) as (r' & moves & Hr & Hsp & Hg & Hk & Hcov & Hm).
  assert (r' = st_receipt current) as ->.
  { apply moved_nothing in Hm; [|done|done|].
    - destruct r', (st_receipt current). cbn in *. congruence.
    - intros x Hx. apply Hfree. by apply (proj1 Hends). }
  eexists. unfold update_conversation_segments, planned_write. cbn [check_mode rbind]. rewrite Hr. cbn [rbind].
  split; [reflexivity|]. split; [done|]. intros s d Hs Hd. cbn [st_segments].
  destruct (live_keeps _ _ _ s d (proj1 (Forall_forall _ _) Hall s Hs) Hs Hd) as (t & Ht & Hts).
  destruct (overlay_all_keeps inferred _ t s Ht Hts) as (u & Hu & Hus).
  exists (apply_one (st_receipt current) u). rewrite apply_all. split_and!.
  - by apply list_elem_of_fmap_2.
  - etrans; [apply apply_one_keys|done].
  - apply apply_one_shows. rewrite <- Hd. by rewrite Hus.
Qed.
End Live.

(** ** A live write *)

Module LiveDemo.
Import Talk.

(** A construction and a dump that keep the fields the merge reads. *)
Definition chars (s : string) : text := say s.
Definition unchars (t : text) : string := string_of_list_ascii ((fun c => ascii_of_N (Z.to_N c)) <$> t).

Definition construct (d : doc) : TranscriptSegment :=
  {| id := sid_of d; seg_text := chars (default "" (as_str (py_get d "text")));
     speaker := as_str (py_get d "speaker"); speaker_id := default 0 (as_int (py_get d "speaker_id"));
     is_user := truthy (py_get d "is_user"); person_id := as_str (py_get d "person_id");
     start := time_key d "start"; end_ := time_key d "end"; translations := [];
     speech_profile_processed := true; stt_provider := as_str (py_get d "stt_provider");
     speaker_match_source := as_str (py_get d "speaker_match_source");
     speaker_id_scope := as_str (py_get d "speaker_id_scope");
     speaker_identity_status := default "unknown" (as_str (py_get d "speaker_identity_status")) |}.

Definition model_dump (s : TranscriptSegment) : doc :=
  doc_set [put_str "id" (id s); put_str "text" (unchars (seg_text s)); ("speaker", Put (opt_str (speaker s)));
           put_int "speaker_id" (speaker_id s); put_bool "is_user" (is_user s);
           ("person_id", Put (opt_str (person_id s))); ("start", Put (PFloat (start s))); ("end", Put (PFloat (end_ s)));
           ("stt_provider", Put (opt_str (stt_provider s)));
           ("speaker_match_source", Put (opt_str (speaker_match_source s)));
           ("speaker_id_scope", Put (opt_str (speaker_id_scope s)));
           put_str "speaker_identity_status" (speaker_identity_status s)].

Lemma construct_keeps d : identified d ->
  id (construct d) = sid_of d /\ py_get d "speaker_id" = PInt (speaker_id (construct d)).
Proof. intros (sid & n & _ & Hid & Hsp). split; [reflexivity|]. cbn [construct speaker_id]. by rewrite Hsp. Qed.

Lemma dump_keeps s :
  py_get (model_dump s) "id" = PStr (id s) /\ py_get (model_dump s) "speaker_id" = PInt (speaker_id s).
Proof. unfold model_dump, doc_set. split; by doc_simpl. Qed.

Definition said (sid voice words : string) (n from to : Z) : doc :=
  doc_set [put_str "id" sid; put_str "text" words; put_str "speaker" voice; put_int "speaker_id" n;
           put_int "start" from; put_int "end" to; put_bool "is_user" false].

(** Speaker 1 is Ada; she was interrupted in mid sentence. *)
Definition current : StoredTranscript :=
  {| st_segments := [said "a" "SPEAKER_00" "Good morning." 0 0 2; said "b" "SPEAKER_01" "I was about to" 1 3 5];
     st_receipt := {| receipt_segments := ∅; receipt_speakers := {["1" := EditDemo.ada]}; receipt_generation := 1 |};
     st_has_content := true; st_projection := true |}.

Definition fresh : list doc := [said "c" "SPEAKER_02" "say. Wait a moment" 2 5 7; said "d" "SPEAKER_02" "please." 2 7 8].

(** Inference claims the labelled segment for the user. *)
Definition inferred : list doc := [doc_set [put_str "id" "b"; put_bool "is_user" true]].

Definition write := update_conversation_segments ascii_space ascii_alpha ascii_lower construct model_dump
  (LiveMerge fresh) inferred (Some current).

Example written_people :
  match write with
  | Ok (Some st) => (fun s => (py_get s "id", py_get s "text", py_get s "person_id")) <$> st_segments st =
      [(PStr "a", PStr "Good morning.", PNone); (PStr "b", PStr "I was about to", PStr "ada");
       (PStr "c", PStr "say. Wait a moment please.", PNone)]
  | _ => False
  end.
Proof. vm_compute. reflexivity. Qed.

Lemma current_identified : Forall identified (st_segments current ++ fresh).
Proof.
  repeat (apply Forall_cons_2; [eexists _, _; split; [|split; vm_compute; reflexivity]; discriminate|]). apply Forall_nil_2.
Qed.

Lemma live_writes_keep_labels_witness :
  exists st', write = Ok (Some st') /\ st_receipt st' = st_receipt current.
Proof.
  destruct (live_writes_keep_labels ascii_space ascii_alpha ascii_lower construct model_dump construct_keeps dump_keeps
              current fresh inferred current_identified) as (st' & Hw & Hr & _).
  - apply (bool_decide_unpack _). vm_compute. exact I.
  - exists st'. split; [exact Hw|exact Hr].
Defined.
End LiveDemo.
