(* ===== verification/SyncAssign.v ===== *)
(** Assigning synced recordings to conversations ([utils/sync/assignment.py],
    [assignment_index.py], [utils/conversation_continuity.py],
    [utils/conversations/fragment_visibility.py]): the transaction that places a
    chunk of offline speech into one of the user's conversations, absorbing the
    conversations it bridges.

    A row is a conversation document.  Its id and its two times, which every
    query of the code relies on, are fields of the record; times are
    microseconds and [timestamp()] is exact.  The transcript and the receipt are
    its body: stored, the body is what the injected codec wrote, of a type
    [blob] that is a parameter with its [decode] and [encode]. *)
From stdpp Require Import sorting.
From S2P Require Export SyncMerge SpeakerIdentity ManualSpeakers.

(** ** Rows *)

Record Row (B : Type) : Type := {
  row_id : string;
  started_at : Z;
  finished_at : Z;
  fields : doc;
  body : B;
}.
Arguments row_id {B} _.
Arguments started_at {B} _.
Arguments finished_at {B} _.
Arguments fields {B} _.
Arguments body {B} _.

Definition field {B} (r : Row B) (k : string) : pyval := py_get (fields r) k.
Definition has {B} (r : Row B) (k : string) : bool := truthy (field r k).

(** Decoded bodies: the segments and the receipt. *)
Record Body : Type := {
  body_segments : list doc;
  body_receipt : Receipt;
}.

(** An index entry has no body. *)
Abbreviation Entry := (Row unit).

(** ** Continuity *)

Definition DEFAULT_GAP_SECONDS : Q := inject_Z 120.

Definition gap_splits (seconds timeout : Q) : bool := Qle_bool timeout seconds.

Definition intervals_connect (start end_ other_start other_end : Q) : bool :=
  negb (gap_splits (Qmax (start - other_end)%Q (other_start - end_)%Q) DEFAULT_GAP_SECONDS).

(** [datetime.timestamp()] *)
Definition timestamp (us : Z) : Q := (us # 1000000)%Q.

Definition compatible_capture (left right : doc) : bool :=
  py_eqb (py_get left "source") (py_get right "source")
  && py_eqb (py_get left "client_device_id") (py_get right "client_device_id")
  && Bool.eqb (truthy (py_get left "is_locked")) (truthy (py_get right "is_locked")).

Definition interval_matches {B C} (row : Row B) (incoming : Row C) : bool :=
  compatible_capture (fields row) (fields incoming)
  && intervals_connect (timestamp (started_at row)) (timestamp (finished_at row))
       (timestamp (started_at incoming)) (timestamp (finished_at incoming)).

(** ** Who may be changed unattended *)

(** [_value(data.get('visibility', 'private')) not in (None, 'private')] *)
Definition shared (d : doc) : bool :=
  let v := default (PStr "private") (d !! "visibility") in
  negb (is_none v) && negb (is_str v "private").

Definition auto_mergeable {B} (row : Row B) : bool :=
  has row "sync_content_revision" &&
  negb (has row "sync_live_target" || has row "has_photos" || has row "user_title" || has row "starred"
        || has row "folder_user_set" || has row "sync_relevance_user_kept" || shared (fields row)).

Definition is_user_curated (d : doc) : bool :=
  truthy (py_get d "sync_relevance_user_kept") || truthy (py_get d "sync_live_target")
  || truthy (py_get d "has_photos") || truthy (py_get d "photos") || truthy (py_get d "user_title")
  || truthy (py_get d "starred") || truthy (py_get d "folder_user_set") || shared d.

Definition is_low_signal_sync_fragment (d : doc) : bool :=
  is_str (py_get d "status") "completed" && is_str (py_get d "sync_relevance") "review"
  && negb (is_user_curated d).

(** ** The index of intervals *)

Definition DAY : Z := 86400 * 1000000.
Definition GAP : Z := 120 * 1000000.

(** [days_for]: a day bucket is named by its number since the epoch. *)
Definition days_between (first last : Z) : list Z :=
  (fun i => first + Z.of_nat i) <$> seq 0 (Z.to_nat (last - first + 1)).

Definition days_for {B} (row : Row B) (padding : bool) : list Z :=
  let delta := if padding then GAP else 0 in
  days_between ((started_at row - delta) / DAY) ((finished_at row + delta) / DAY).

Record AssignmentIndex : Type := {
  recent_entries : list Entry;
  buckets : list (Z * list Entry);
}.

(** The rows an index knows, the last of each id. *)
Definition index_rows (idx : AssignmentIndex) : gmap string Entry :=
  foldl (fun m (e : Entry) => <[row_id e := e]> m) ∅ (recent_entries idx ++ concat (buckets idx).*2).

Definition index_load (days : gmap Z (list Entry)) (idx : AssignmentIndex) (day : Z) : AssignmentIndex :=
  if bool_decide (day ∈ (buckets idx).*1) then idx
  else {| recent_entries := recent_entries idx; buckets := buckets idx ++ [(day, default [] (days !! day))] |}.

Definition index_read {B} (days : gmap Z (list Entry)) (idx : AssignmentIndex) (interval : Row B) : AssignmentIndex :=
  foldl (index_load days) idx (days_for interval true).

(** [sorted(rows, key=id)] *)
Definition id_order {B} (a b : Row B) : Prop := String.leb (row_id a) (row_id b) = true.

#[export] Instance id_order_dec {B} : RelDecision (@id_order B).
Proof. intros a b. unfold id_order. apply _. Defined.

Definition entry_for {B} (r : Row B) : Entry :=
  {| row_id := row_id r; started_at := started_at r; finished_at := finished_at r;
     fields := doc_set [("source", Put (field r "source")); ("client_device_id", Put (field r "client_device_id"));
                        ("is_locked", Put (field r "is_locked"))];
     body := tt |}.

Definition without_ids (replaced : gset string) (rows : list Entry) : list Entry :=
  base.filter (fun e => row_id e ∉ replaced) rows.

(** The day buckets and the recent list after [write]. *)
Definition index_write {B} (days : gmap Z (list Entry)) (idx : AssignmentIndex) (result : Row B) (replaced : gset string)
    : gmap Z (list Entry) * list Entry :=
  let entry := entry_for result in
  let occupied := days_for result false in
  (foldl (fun m p =>
     let rows := without_ids replaced p.2 ++ (if bool_decide (p.1 ∈ occupied) then [entry] else []) in
     <[p.1 := merge_sort id_order rows]> m) days (buckets idx),
   let recent := without_ids replaced (recent_entries idx) ++ [entry] in
   drop (length recent - 128) recent).

(** ** The transaction *)

(** What a user's documents are: conversations, and the assignment index. *)
Record Store (blob : Type) : Type := {
  conversations : gmap string (Row blob);
  recent : list Entry;
  days : gmap Z (list Entry);
}.
Arguments conversations {blob} _.
Arguments recent {blob} _.
Arguments days {blob} _.

Inductive AssignmentError : Type :=
| SyncAssignmentSuperseded (msg : string)
| SyncAssignmentConflict (msg : string)
| Malformed (e : pyexc)
| OutOfFuel.

Definition lift {A} (m : result pyexc A) : result AssignmentError A :=
  match m with Ok a => Ok a | Raise e => Raise (Malformed e) end.

Section Assign.
Context {blob : Type} (decode : blob -> result pyexc Body) (encode : string -> Body -> blob)
  (holds_receipt : blob -> bool) (deterministic_relevance : list pyval -> Q -> option string * string)
  (projection_fields : list string).

Abbreviation Raw := (Row blob).
Abbreviation Decoded := (Row Body).
Abbreviation Rows := (gmap string Raw).

(** *** Lineage *)

Definition merged_into (row : Raw) : option string :=
  let v := field row "sync_merged_into" in if truthy v then Some (py_str v) else None.

Definition deleted {B} (row : Row B) : bool := has row "deleted".

(** The walk of [resolve]; [seen] holds the ids of the redirects passed. *)
Fixpoint follow_redirects (fuel : nat) (rows : Rows) (seen : list string) (cid : string) (row : option Raw)
    : result AssignmentError (list string * string * option Raw) :=
  match row ≫= (fun r => (fun next => (row_id r, next)) <$> merged_into r) with
  | None => Ok (seen, cid, row)
  | Some (rid, next) =>
      if bool_decide (rid ∈ seen) then Raise (SyncAssignmentConflict "sync redirect cycle")
      else match fuel with
           | O => Raise OutOfFuel
           | S fuel' => follow_redirects fuel' rows (rid :: seen) next (rows !! next)
           end
  end.

Definition resolve (rows : Rows) (cid : string) : result AssignmentError (string * option Raw) :=
  let* ' (seen, cid', row) := follow_redirects (S (size rows)) rows [] cid (rows !! cid) in
  if negb (bool_decide (seen = [])) && match row with Some r => deleted r | None => true end
  then Raise (SyncAssignmentSuperseded "sync capture lineage was deleted")
  else Ok (cid', row).

(** *** Admission *)

(** What the checks before the search establish: where the retry lineage of the
    chunk leads, the explicit target in force, and who owns the receipt. *)
Record Admission : Type := {
  own_id : string;
  own_anchor : option Raw;
  target : option (string * Raw);
  first_owner : option string;
}.

Definition nonempty_id (o : option string) : option string :=
  match o with Some s => if String.eqb s "" then None else Some s | None => None end.

Definition has_receipt (row : Raw) : bool := holds_receipt (body row).

(** [resolve(incoming['id'])]: a falsy id is not looked up. *)
Definition own_lineage (rows : Rows) (cid : string) : result AssignmentError (string * option Raw) :=
  if String.eqb cid "" then Ok (cid, None) else resolve rows cid.

Definition check_own_row (rows : Rows) (cid : string) : result AssignmentError unit :=
  match rows !! cid with
  | Some own =>
      if deleted own && bool_decide (merged_into own = None)
      then Raise (SyncAssignmentSuperseded "sync anchor was deleted") else Ok tt
  | None => Ok tt
  end.

(** The explicit target, when its row is there and not deleted. *)
Definition effective_target (rows : Rows) (incoming : Decoded) (target_id : option string)
    : result AssignmentError (option (string * Raw)) :=
  match nonempty_id target_id ≫= (fun t => (pair t) <$> rows !! t) with
  | Some (t, row) =>
      if deleted row then Ok None
      else if compatible_capture (fields row) (fields incoming) then Ok (Some (t, row))
      else Raise (SyncAssignmentConflict "sync target provenance mismatch")
  | None => Ok None
  end.

Definition admission (rows : Rows) (incoming : Decoded) (target_id : option string) : result AssignmentError Admission :=
  let* _ := check_own_row rows (row_id incoming) in
  let* ' (oid, anchor) := own_lineage rows (row_id incoming) in
  let* tgt := effective_target rows incoming target_id in
  let tid := fst <$> tgt in
  let elsewhere := bool_decide (Some oid <> tid) in
  let labelled := match anchor with Some r => has_receipt r | None => false end in
  if match anchor with Some r => negb (auto_mergeable r) | None => false end && elsewhere
  then Raise (SyncAssignmentSuperseded "sync anchor is user managed")
  else if bool_decide (is_Some tid) && elsewhere && labelled
  then Raise (SyncAssignmentSuperseded "sync anchor has manual speaker assignments")
  else Ok {| own_id := oid; own_anchor := anchor; target := tgt;
             first_owner := match tid with Some t => Some t | None => if labelled then Some oid else None end |}.

(** *** The search *)

Record Search : Type := {
  matched : Rows;
  extent_start : Z;
  extent_end : Z;
  receipt_owner : option string;
  index : AssignmentIndex;
}.

(** [extent]: the incoming chunk over the times matched so far. *)
Definition extent (incoming : Decoded) (s : Search) : Decoded :=
  {| row_id := row_id incoming; started_at := extent_start s; finished_at := extent_end s;
     fields := fields incoming; body := body incoming |}.

Definition absorb (s : Search) (cid : string) (raw : Raw) : Search :=
  {| matched := <[cid := raw]> (matched s); extent_start := Z.min (extent_start s) (started_at raw);
     extent_end := Z.max (extent_end s) (finished_at raw); receipt_owner := receipt_owner s; index := index s |}.

Definition first_search (incoming : Decoded) (idx : AssignmentIndex) (a : Admission) : Search :=
  let s := {| matched := ∅; extent_start := started_at incoming; extent_end := finished_at incoming;
              receipt_owner := first_owner a; index := idx |} in
  match target a with Some (t, raw) => absorb s t raw | None => s end.

Definition string_order (a b : string) : Prop := String.leb a b = true.

#[export] Instance string_order_dec : RelDecision string_order.
Proof. intros a b. unfold string_order. apply _. Defined.

(** [min(rows, key=(started_at, id))] *)
Definition earlier_row (a b : string * Raw) : bool :=
  (started_at a.2 <? started_at b.2) || ((started_at a.2 =? started_at b.2) && String.leb a.1 b.1).

Definition first_row (rows : list (string * Raw)) : option (string * Raw) :=
  foldl (fun best p => match best with
                       | Some b => if earlier_row b p then Some b else Some p
                       | None => Some p
                       end) None rows.

(** The ids of a round, sorted: matching entries and the hints, not yet matched. *)
Definition round_ids (hints : list (option string)) (incoming : Decoded) (s : Search) (idx : AssignmentIndex) : list string :=
  let found := dom (base.filter (fun kv => interval_matches kv.2 (extent incoming s) = true) (index_rows idx)) in
  let hinted := list_to_set (omap nonempty_id hints) in
  merge_sort string_order (elements ((found ∪ hinted) ∖ dom (matched s))).

Definition candidate (rows : Rows) (incoming : Decoded) (s : Search) (tid : option string) (cid : string)
    : option (string * Raw) :=
  match rows !! cid with
  | Some raw =>
      if negb (deleted raw) && interval_matches raw (extent incoming s)
         && (auto_mergeable raw || bool_decide (Some cid = tid))
      then Some (cid, raw) else None
  | None => None
  end.

Definition owner_after (s : Search) (candidates : list (string * Raw)) : option string :=
  match receipt_owner s with
  | Some o => Some o
  | None => fst <$> first_row (base.filter (fun p => has_receipt p.2 = true) candidates)
  end.

Definition search_round (store : Store blob) (hints : list (option string)) (incoming : Decoded) (tid : option string)
    (s : Search) : Search :=
  let idx := index_read (days store) (index s) (extent incoming s) in
  let candidates := omap (candidate (conversations store) incoming s tid) (round_ids hints incoming s idx) in
  let owner := owner_after s candidates in
  let taken := base.filter (fun p => has_receipt p.2 && negb (bool_decide (Some p.1 = owner)) = false) candidates in
  foldl (fun s p => absorb s p.1 p.2)
    {| matched := matched s; extent_start := extent_start s; extent_end := extent_end s;
       receipt_owner := owner; index := idx |} taken.

(** [while True]: until a round matches nothing more. *)
Fixpoint search (fuel : nat) (store : Store blob) (hints : list (option string)) (incoming : Decoded)
    (tid : option string) (s : Search) : result AssignmentError Search :=
  match fuel with
  | O => Raise OutOfFuel
  | S fuel' =>
      let s' := search_round store hints incoming tid s in
      if (size (matched s') =? size (matched s))%nat then Ok s'
      else search fuel' store hints incoming tid s'
  end.

(** *** The surviving row *)

(** [min(matched, key=(started_at, id))] *)
Definition canonical_id (incoming : Decoded) (a : Admission) (s : Search) : string :=
  match target a with
  | Some (t, _) => t
  | None =>
      match receipt_owner s with
      | Some o => if bool_decide (is_Some (matched s !! o)) then o else
          match first_row (map_to_list (matched s)) with Some (cid, _) => cid | None => row_id incoming end
      | None => match first_row (map_to_list (matched s)) with Some (cid, _) => cid | None => row_id incoming end
      end
  end.

Definition with_body {B C} (r : Row B) (b : C) : Row C :=
  {| row_id := row_id r; started_at := started_at r; finished_at := finished_at r; fields := fields r; body := b |}.

Definition decode_row (raw : Raw) : result AssignmentError Decoded :=
  let* b := lift (decode (body raw)) in Ok (with_body raw b).

Fixpoint decode_rows (rows : list Raw) : result AssignmentError (list Decoded) :=
  match rows with
  | [] => Ok []
  | raw :: rest => let* r := decode_row raw in let* more := decode_rows rest in Ok (r :: more)
  end.

Definition key_order (a b : string * Raw) : Prop := String.leb a.1 b.1 = true.

#[export] Instance key_order_dec : RelDecision key_order.
Proof. intros a b. unfold key_order. apply _. Defined.

(** [for _, raw in sorted(matched.items())] *)
Definition matched_rows (s : Search) : list Raw := (merge_sort key_order (map_to_list (matched s))).*2.

(** *** Segments on one timeline *)

(** [segment[k]] used as a number. *)
Definition number_field (seg : doc) (k : string) : result pyexc Q :=
  match seg !! k with
  | None => Raise (KeyError k)
  | Some v => match as_number v with Some q => Ok q | None => Raise (TypeError "unsupported operand type(s)") end
  end.

Definition put_float (k : string) (q : Q) : string * field_write := (k, Put (PFloat q)).

(** A segment of a row that starts at [base], placed relative to [origin]. *)
Definition place_segment (origin base : Q) (seg : doc) : result pyexc doc :=
  let* s := number_field seg "start" in
  let* e := number_field seg "end" in
  let t := (base + s)%Q in
  Ok (doc_update seg [put_float "timestamp" t; put_float "start" (t - origin)%Q;
                      put_float "end" (t - origin + (e - s))%Q]).

Definition stamp_timestamp (base : Q) (seg : doc) : result pyexc doc :=
  let* s := number_field seg "start" in Ok (doc_update seg [put_float "timestamp" (base + s)%Q]).

Fixpoint map_segments (f : doc -> result pyexc doc) (segs : list doc) : result pyexc (list doc) :=
  match segs with
  | [] => Ok []
  | seg :: rest => let* seg' := f seg in let* rest' := map_segments f rest in Ok (seg' :: rest')
  end.

(** A donor's segment without a scope is scoped to the donor. *)
Definition scope_to_donor (donor : string) (seg : doc) : doc :=
  if truthy (py_get seg "speaker_id_scope") then seg
  else doc_update seg [put_str "speaker_id_scope"
                         ("legacy-conversation:" ++ donor ++ ":" ++ py_str (py_get seg "speaker_id"))].

Definition SLOP_RATIO : Q := _MERGE_TEXT_DUP_DURATION_RATIO.

(** One row of the merge: its segments placed, those already represented left
    out, the donor's speakers numbered. *)
Definition merge_row (origin : Q) (canonical : string) (acc : list doc * ConversationSpeakerIdAllocator) (row : Decoded)
    : result pyexc (list doc * ConversationSpeakerIdAllocator) :=
  let '(existing, allocator) := acc in
  let* placed_segments := map_segments (place_segment origin (timestamp (started_at row))) (body_segments (body row)) in
  let* retained := dedupe_segments_for_merge origin existing placed_segments 0 SLOP_RATIO in
  if String.eqb (row_id row) canonical then Ok (existing ++ retained, allocator)
  else
    let '(allocator', numbered) := assign_all allocator (scope_to_donor (row_id row) <$> retained) in
    Ok (existing ++ numbered, allocator').

Fixpoint merge_rows (origin : Q) (canonical : string) (acc : list doc * ConversationSpeakerIdAllocator) (rows : list Decoded)
    : result pyexc (list doc * ConversationSpeakerIdAllocator) :=
  match rows with
  | [] => Ok acc
  | row :: rest => let* acc' := merge_row origin canonical acc row in merge_rows origin canonical acc' rest
  end.

(** [sorted(records, key=lambda row: row['id'] != canonical)] *)
Definition canonical_first (canonical : string) (records : list Decoded) : list Decoded :=
  base.filter (fun r => String.eqb (row_id r) canonical = true) records
  ++ base.filter (fun r => String.eqb (row_id r) canonical = false) records.

Definition number_or_zero (seg : doc) (k : string) : Q := default 0%Q (as_number (py_get seg k)).

Definition text_or_empty (seg : doc) : string := default "" (as_str (py_get seg "text")).

(** The sort key [(timestamp, end - start, text)], compared as tuples. *)
Definition timeline_order (a b : doc) : Prop :=
  let ta := number_or_zero a "timestamp" in let tb := number_or_zero b "timestamp" in
  let da := (number_or_zero a "end" - number_or_zero a "start")%Q in
  let db := (number_or_zero b "end" - number_or_zero b "start")%Q in
  (negb (Qle_bool tb ta)
   || Qeq_bool ta tb && (negb (Qle_bool db da) || Qeq_bool da db && String.leb (text_or_empty a) (text_or_empty b))) = true.

#[export] Instance timeline_order_dec : RelDecision timeline_order.
Proof. intros a b. unfold timeline_order. apply _. Defined.

(** The final placement: [timestamp] goes, [start] and [end] are relative. *)
Definition settle_segment (origin : Q) (seg : doc) : result pyexc doc :=
  let* s := number_field seg "start" in
  let* e := number_field seg "end" in
  let* t := number_field seg "timestamp" in
  Ok (doc_update seg [delete_key "timestamp"; put_float "start" (t - origin)%Q; put_float "end" (t - origin + (e - s))%Q]).

(** The speech of the survivor, and the incoming segments that were new. *)
Definition merged_speech (incoming : Decoded) (canonical : string) (records : list Decoded) (origin slop : Q)
    (known : list doc) : result pyexc (list doc * list doc) :=
  let allocator := hydrate new_allocator known in
  let* ' (existing, allocator1) := merge_rows origin canonical ([], allocator) (canonical_first canonical records) in
  let* fresh := map_segments (stamp_timestamp (timestamp (started_at incoming))) (body_segments (body incoming)) in
  let* survivors := dedupe_segments_for_merge origin existing fresh slop SLOP_RATIO in
  let '(_, numbered) := assign_all allocator1 survivors in
  let* settled := map_segments (settle_segment origin) (merge_sort timeline_order (existing ++ numbered)) in
  Ok (settled, numbered).

(** *** What the survivor says of itself *)

Definition speech_seconds (segs : list doc) : Q :=
  foldl (fun acc s => (acc + Qmax 0 (number_or_zero s "end" - number_or_zero s "start"))%Q) 0%Q segs.

Definition segment_text (s : doc) : pyval := default (PStr "") (s !! "text").

Definition fragment_rule (segs : list doc) : option string * string :=
  deterministic_relevance (segment_text <$> segs) (speech_seconds segs).

Definition needs_fragment_review (segs : list doc) : bool :=
  let '(verdict, rule) := fragment_rule segs in
  bool_decide (verdict = Some "discard") && negb (String.eqb rule "empty_transcript").

(** [sync_intake_decision] *)
Definition sync_intake_decision (rule : string) : pyval :=
  PDict [("verdict", PStr "discard"); ("decided_by", PStr "rule"); ("reason", PStr rule);
         ("trigger", PStr "sync_intake"); ("rules_version", PInt 1)].

(** [row.get('sync_content_revision') or 0]; revisions are written as integers. *)
Definition revision {B} (r : Row B) : Z := default 0 (as_int (field r "sync_content_revision")).

Definition max_revision {B} (rows : list (Row B)) : Z := foldr (fun r m => Z.max (revision r) m) 0 rows.

Definition enhanced {B} (r : Row B) : bool :=
  is_str (py_or (field r "data_protection_level") (PStr "enhanced")) "enhanced".

Definition strings_of (v : pyval) : list string :=
  match v with PList l => omap as_str l | _ => [] end.

Definition ancestors (canonical : string) (records : list Decoded) (s : Search) : list string :=
  merge_sort string_order (elements (list_to_set (concat ((fun r => strings_of (field r "sync_merged_from")) <$> records))
                                     ∪ (dom (matched s) ∖ {[canonical]}) : gset string)).

(** The fields of [result], in the order the code writes them. *)
Definition result_fields (incoming : Decoded) (a : Admission) (canonical : string) (records : list Decoded)
    (s : Search) (base : Decoded) (segs : list doc) : doc :=
  let live := match target a with
              | Some (_, t) => has t "sync_live_target" || negb (has t "sync_content_revision")
              | None => false end in
  let d1 := doc_update (fields base) [put_bool "sync_live_target" live] in
  let d2 := if live then d1 else doc_update d1 [put_time "created_at" (extent_start s)] in
  let d3 := doc_update d2
    [put_bool "has_content" (negb (bool_decide (segs = [])));
     put_int "sync_content_revision" (max_revision records + 1)] in
  let d4 := doc_update d3
    [put_str "sync_relevance"
       (if negb (truthy (py_get d3 "sync_relevance_user_kept")) && (bool_decide (segs = []) || needs_fragment_review segs)
        then "review" else "keep")] in
  let low := is_low_signal_sync_fragment d4 in
  let d5 := doc_update d4 [put_bool "discarded" low] in
  let d6 := if low then doc_update d5 [("relevance_decision", Put (sync_intake_decision (fragment_rule segs).2))] else d5 in
  let d7 := doc_update d6
    [put_bool "is_locked" (has incoming "is_locked");
     put_bool "private_cloud_sync_enabled" (existsb (fun r => has r "private_cloud_sync_enabled") (incoming :: records));
     ("data_protection_level", Put (if existsb enhanced (incoming :: records) then PStr "enhanced"
                                    else field incoming "data_protection_level"));
     ("sync_merged_from", Put (PList (PStr <$> ancestors canonical records s)))] in
  if has incoming "geolocation" && negb (truthy (py_get d7 "geolocation"))
  then doc_update d7 [("geolocation", Put (field incoming "geolocation"))] else d7.

(** *** The writes *)

Definition protection_level (d : doc) : string := py_str (py_or (py_get d "data_protection_level") (PStr "enhanced")).

(** [payload]: the encoded result without its photos and its projection. *)
Definition payload_of (result : Decoded) : Raw :=
  {| row_id := row_id result; started_at := started_at result; finished_at := finished_at result;
     fields := foldr delete (fields result) ("photos" :: projection_fields);
     body := encode (protection_level (fields result)) (body result) |}.

(** The row after [set] of a new row, or after [update] of the one there: the
    payload over the old fields, the projection cleared. *)
Definition write_survivor (current : option Raw) (result : Decoded) : Raw :=
  let payload := payload_of result in
  match current with
  | None => payload
  | Some old =>
      {| row_id := row_id payload; started_at := started_at payload; finished_at := finished_at payload;
         fields := foldr delete (fields payload ∪ fields old) projection_fields; body := body payload |}
  end.

Definition write_donor (canonical : string) (row : Raw) : Raw :=
  {| row_id := row_id row; started_at := started_at row; finished_at := finished_at row;
     fields := doc_update (fields row)
       [put_bool "deleted" true; put_bool "discarded" true; put_str "sync_merged_into" canonical;
        put_int "sync_content_revision" (revision row + 1)];
     body := body row |}.

Definition write_rows (rows : Rows) (s : Search) (canonical : string) (survivor : Raw) : Rows :=
  <[canonical := survivor]> ((write_donor canonical <$> delete canonical (matched s)) ∪ rows).

(** The survivor's record: the matched one with its id, or the chunk itself. *)
Definition base_record (incoming : Decoded) (canonical : string) (records : list Decoded) : Decoded :=
  match base.filter (fun r => String.eqb (row_id r) canonical = true) records with
  | r :: _ => r
  | [] => match records with r :: _ => r | [] => incoming end
  end.

Definition assign_in_transaction (store : Store blob) (incoming : Decoded) (candidate_id target_id : option string)
    : result AssignmentError (Store blob * Decoded * bool * list doc) :=
  let rows := conversations store in
  let* a := admission rows incoming target_id in
  let tid := fst <$> target a in
  let idx0 := {| recent_entries := recent store; buckets := [] |} in
  let hints := [candidate_id; Some (row_id incoming); Some (own_id a); target_id] in
  let* s := search (S (S (size rows))) store hints incoming tid (first_search incoming idx0 a) in
  let canonical := canonical_id incoming a s in
  let current := matched s !! canonical in
  let* records := decode_rows (matched_rows s) in
  let chosen := base_record incoming canonical records in
  let origin := timestamp (extent_start s) in
  let slop := match target a with
              | Some (_, t) => if has t "sync_content_revision" then 0%Q else _MERGE_TEXT_DUP_SLOP_SECONDS
              | None => 0%Q end in
  let known := match current with Some _ => body_segments (body chosen) | None => [] end in
  let* ' (segs, survivors) := lift (merged_speech incoming canonical records origin slop known) in
  let receipt := body_receipt (body chosen) in
  let result :=
    {| row_id := canonical; started_at := extent_start s; finished_at := extent_end s;
       fields := result_fields incoming a canonical records s chosen segs;
       body := {| body_segments := apply_manual_assignments segs receipt; body_receipt := receipt |} |} in
  let idx := index_read (days store) (index s) (extent incoming s) in
  let '(days', recent') := index_write (days store) idx result (dom (matched s) ∪ {[canonical]}) in
  Ok ({| conversations := write_rows rows s canonical (write_survivor current result);
         recent := recent'; days := days' |},
      result, bool_decide (current = None), survivors).
End Assign.
