(* ===== verification/SyncAssignOps.v ===== *)
(** What the assignment of synced speech guarantees: it ends, it never writes a
    row that a user deleted or manages, and the rows it absorbs live on in the
    survivor. *)
From stdpp Require Import sorting.
From S2P Require Export SyncAssign.

(** ** Fields that a sequence of writes leaves alone *)

Lemma get_if_update (b : bool) d ws k :
  Forall (fun kw => String.eqb k kw.1 = false) ws -> py_get (if b then doc_update d ws else d) k = py_get d k.
Proof. intros H. destruct b; [by apply py_get_update_other|done]. Qed.

Lemma get_if_update' (b : bool) d ws k :
  Forall (fun kw => String.eqb k kw.1 = false) ws -> py_get (if b then d else doc_update d ws) k = py_get d k.
Proof. intros H. destruct b; [done|by apply py_get_update_other]. Qed.

Ltac other_keys := repeat (constructor; [reflexivity|]); constructor.
Ltac skip_writes :=
  repeat first [rewrite get_if_update by other_keys | rewrite get_if_update' by other_keys
               |rewrite py_get_update_other by other_keys].

Section Assignment.
Context {blob : Type} (decode : blob -> result pyexc Body) (encode : string -> Body -> blob)
  (holds_receipt : blob -> bool) (deterministic_relevance : list pyval -> Q -> option string * string)
  (projection_fields : list string).

Local Abbreviation Raw := (Row blob).
Local Abbreviation Decoded := (Row Body).
Local Abbreviation Rows := (gmap string Raw).
Local Abbreviation assign := (assign_in_transaction decode encode holds_receipt deterministic_relevance projection_fields).
Local Abbreviation search_round := (search_round holds_receipt).
Local Abbreviation search := (search holds_receipt).
Local Abbreviation first_search := (first_search (blob := blob)).

Implicit Types (rows : Rows) (incoming : Decoded) (s : SyncAssign.Search (blob := blob)).

(** ** Redirects *)

Lemma full_set (V : gset string) rows cid r :
  V ⊆ dom rows -> (size rows <= size V)%nat -> rows !! cid = Some r -> cid ∈ V.
Proof.
  intros HV Hsize Hr. rewrite <- (size_dom (D := gset string)) in Hsize.
  apply (set_subseteq_size_equiv _ _ HV) in Hsize. apply Hsize. by apply elem_of_dom_2 in Hr.
Qed.

(** A walk that has passed the keys [V] raises before it passes one again. *)
Lemma follow_redirects_ends rows fuel : forall (V : gset string) seen cid,
  V ⊆ dom rows -> (forall k, k ∈ V -> exists r, rows !! k = Some r /\ row_id r ∈ seen) ->
  (size rows <= fuel + size V)%nat -> follow_redirects fuel rows seen cid (rows !! cid) <> Raise OutOfFuel.
Proof.
  induction fuel as [|fuel IH]; intros V seen cid HV Hseen Hsize;
    (destruct (rows !! cid) as [r|] eqn:Hr; cbn; [|done]);
    (destruct (merged_into r) as [next|]; cbn; [|done]); (case_bool_decide as Hid; [done|]).
  - assert (cid ∈ V) as Hin by (by eapply full_set).
    destruct (Hseen cid Hin) as (r' & Hr' & Hid'). assert (r' = r) as -> by congruence. done.
  - assert (cid ∉ V) as Hno by (intros Hin; destruct (Hseen cid Hin) as (r' & ? & ?); naive_solver).
    apply (IH ({[cid]} ∪ V)).
    + apply elem_of_dom_2 in Hr. set_solver.
    + intros k [->%elem_of_singleton|Hk]%elem_of_union; [exists r; split; [done|left]|].
      destruct (Hseen k Hk) as (r' & ? & ?). exists r'. split; [done|by right].
    + rewrite size_union by set_solver. rewrite size_singleton. lia.
Qed.

Lemma resolve_ends rows cid : resolve rows cid <> Raise OutOfFuel.
Proof.
  unfold resolve. destruct (follow_redirects _ _ _ _ _) as [[[seen cid'] row]|e] eqn:E; cbn [rbind].
  - by case_match.
  - intros [= ->]. revert E. apply (follow_redirects_ends rows _ ∅); [set_solver|set_solver|lia].
Qed.

(** A row without a redirect is its own end. *)
Lemma resolve_own rows cid row :
  rows !! cid = Some row -> merged_into row = None -> resolve rows cid = Ok (cid, Some row).
Proof. intros Hr Hm. unfold resolve. rewrite Hr. cbn. by rewrite Hm. Qed.

(** ** The search *)

(** What the search has matched is a part of the store, alive, of the same
    capture, mergeable or the target, within the extent, with at most one
    receipt. *)
Record search_ok rows incoming (tid : option string) (s : Search) : Prop := {
  so_rows : matched s ⊆ rows;
  so_alive : forall cid r, matched s !! cid = Some r ->
    deleted r = false /\ compatible_capture (fields r) (fields incoming) = true /\
    (auto_mergeable r = true \/ Some cid = tid);
  so_incoming : extent_start s <= started_at incoming /\ finished_at incoming <= extent_end s;
  so_extent : forall cid r, matched s !! cid = Some r -> extent_start s <= started_at r /\ finished_at r <= extent_end s;
  so_owner : forall cid r, matched s !! cid = Some r -> has_receipt holds_receipt r = true -> receipt_owner s = Some cid;
  so_target : forall t, tid = Some t -> is_Some (matched s !! t) /\ receipt_owner s = Some t;
}.

Lemma absorb_ok rows incoming tid s cid raw :
  search_ok rows incoming tid s -> rows !! cid = Some raw -> deleted raw = false ->
  compatible_capture (fields raw) (fields incoming) = true -> (auto_mergeable raw = true \/ Some cid = tid) ->
  (has_receipt holds_receipt raw = true -> receipt_owner s = Some cid) ->
  search_ok rows incoming tid (absorb s cid raw).
Proof.
  intros [H1 H2 H3 H4 H5 H6] Hr Hd Hc Hm Ho.
  split; cbn [absorb matched extent_start extent_end receipt_owner].
  - by apply insert_subseteq_l.
  - intros k r [[-> <-]|[_ Hk]]%lookup_insert_Some; eauto.
  - lia.
  - intros k r [[-> <-]|[_ Hk]]%lookup_insert_Some; [lia|]. specialize (H4 _ _ Hk). lia.
  - intros k r [[-> <-]|[_ Hk]]%lookup_insert_Some; eauto.
  - intros t Ht. destruct (H6 t Ht) as [? ?]. split; [|done]. rewrite lookup_insert_is_Some. destruct (decide (cid = t)); auto.
Qed.

Lemma absorb_grows rows incoming tid s cid raw :
  search_ok rows incoming tid s -> rows !! cid = Some raw -> matched s ⊆ matched (absorb s cid raw).
Proof.
  intros Hs Hr. apply map_subseteq_spec. intros k r Hk. cbn [absorb matched].
  destruct (decide (cid = k)) as [->|Hne]; [|by rewrite lookup_insert_ne].
  pose proof (lookup_weaken _ _ _ _ Hk (so_rows _ _ _ _ Hs)). rewrite lookup_insert_eq. congruence.
Qed.

Definition absorbable rows incoming (tid owner : option string) (p : string * Raw) : Prop :=
  rows !! p.1 = Some p.2 /\ deleted p.2 = false /\
  compatible_capture (fields p.2) (fields incoming) = true /\ (auto_mergeable p.2 = true \/ Some p.1 = tid) /\
  (has_receipt holds_receipt p.2 = true -> owner = Some p.1).

Lemma absorb_all_ok rows incoming tid taken : forall s,
  search_ok rows incoming tid s -> Forall (absorbable rows incoming tid (receipt_owner s)) taken ->
  let s' := foldl (fun s p => absorb s p.1 p.2) s taken in
  search_ok rows incoming tid s' /\ matched s ⊆ matched s'.
Proof.
  induction taken as [|[cid raw] taken IH]; intros s Hs Hall; [done|].
  apply Forall_cons in Hall as [(Hr & Hd & Hc & Hm & Ho) Hall]. cbn [foldl fst snd] in *.
  destruct (IH (absorb s cid raw)) as (H1 & H2); [by apply absorb_ok|exact Hall|].
  split; [done|]. etrans; [by eapply absorb_grows|exact H2].
Qed.

Lemma candidate_Some rows incoming s tid cid p :
  candidate rows incoming s tid cid = Some p ->
  p.1 = cid /\ rows !! cid = Some p.2 /\ deleted p.2 = false /\
  compatible_capture (fields p.2) (fields incoming) = true /\ (auto_mergeable p.2 = true \/ Some cid = tid).
Proof.
  unfold candidate. destruct (rows !! cid) as [raw|]; [|done]. destruct (_ && _ && _) eqn:E; [|done].
  intros [= <-]. apply andb_true_iff in E as [[Hd Hi]%andb_true_iff Hm]. cbn [fst snd].
  apply negb_true_iff in Hd. unfold interval_matches in Hi. apply andb_true_iff in Hi as [Hc _].
  split_and!; try done. apply orb_true_iff in Hm as [?|?%bool_decide_eq_true]; auto.
Qed.

Lemma search_round_ok store hints incoming tid s :
  search_ok (conversations store) incoming tid s ->
  search_ok (conversations store) incoming tid (search_round store hints incoming tid s) /\
  matched s ⊆ matched (search_round store hints incoming tid s).
Proof.
  intros Hs. unfold SyncAssign.search_round. set (idx := index_read _ _ _).
  set (candidates := omap _ _). set (owner := owner_after holds_receipt s candidates).
  set (s0 := {| matched := matched s; extent_start := extent_start s; extent_end := extent_end s;
                receipt_owner := owner; index := idx |}).
  assert (forall o, receipt_owner s = Some o -> owner = Some o) as Hown by (unfold owner, owner_after; by intros o ->).
  assert (search_ok (conversations store) incoming tid s0) as Hs0.
  { destruct Hs as [H1 H2 H3 H4 H5 H6]. split; cbn [matched extent_start extent_end receipt_owner s0]; eauto.
    intros t Ht. destruct (H6 t Ht). auto. }
  apply (absorb_all_ok _ _ _ _ s0 Hs0). apply Forall_forall. intros p [Hp Hc]%list_elem_of_filter.
  apply list_elem_of_omap in Hc as (cid & _ & Hc). apply candidate_Some in Hc as (<- & Hr & Hd & Hcc & Hm).
  split_and!; try done. intros Hrec. rewrite Hrec in Hp. cbn [andb] in Hp.
  by apply negb_false_iff, bool_decide_eq_true in Hp.
Qed.

(** The rounds end: each but the last matches a row more. *)
Lemma search_ends store hints incoming tid fuel : forall s,
  search_ok (conversations store) incoming tid s ->
  (size (conversations store) < fuel + size (matched s))%nat ->
  exists s', search fuel store hints incoming tid s = Ok s' /\ search_ok (conversations store) incoming tid s' /\
    matched s ⊆ matched s'.
Proof.
  induction fuel as [|fuel IH]; intros s Hs Hf.
  - pose proof (map_subseteq_size _ _ (so_rows _ _ _ _ Hs)). lia.
  - cbn [SyncAssign.search]. destruct (search_round_ok store hints incoming tid s Hs) as [Hs' Hsub].
    destruct (Nat.eqb_spec (size (matched (search_round store hints incoming tid s))) (size (matched s))) as [|Hne]; [by eauto|].
    pose proof (map_subseteq_size _ _ Hsub).
    destruct (IH _ Hs') as (s' & Hr & Hok & Hsub'); [lia|]. exists s'. split_and!; [done|done|by etrans].
Qed.

(** ** Admission *)

Lemma effective_target_Some rows incoming target_id t row :
  effective_target rows incoming target_id = Ok (Some (t, row)) ->
  target_id = Some t /\ rows !! t = Some row /\ deleted row = false /\
  compatible_capture (fields row) (fields incoming) = true.
Proof.
  unfold effective_target. destruct (nonempty_id target_id ≫= _) as [[t' row']|] eqn:E; [|done].
  destruct (deleted row') eqn:Hd; [done|]. destruct (compatible_capture _ _) eqn:Hc; [|done]. intros [= <- <-].
  apply bind_Some in E as (t0 & Ht & E). apply fmap_Some in E as (r & Hr & [= -> ->]).
  unfold nonempty_id in Ht. destruct target_id as [x|]; [|done]. destruct (String.eqb x ""); [done|].
  injection Ht as ->. by split_and!.
Qed.

(** An admitted chunk. *)
Record admitted rows incoming (target_id : option string) (a : Admission) : Prop := {
  ad_own : forall row, row_id incoming <> "" -> rows !! row_id incoming = Some row -> merged_into row = None ->
    deleted row = false /\ (auto_mergeable row = true \/ Some (row_id incoming) = fst <$> target a) /\ own_id a = row_id incoming;
  ad_target : forall t row, target a = Some (t, row) ->
    target_id = Some t /\ rows !! t = Some row /\ deleted row = false /\
    compatible_capture (fields row) (fields incoming) = true /\ first_owner a = Some t;
}.

Lemma admission_admitted rows incoming target_id a :
  admission holds_receipt rows incoming target_id = Ok a -> admitted rows incoming target_id a.
Proof.
  unfold admission. intros (u & Hown & H)%rbind_ok. apply rbind_ok in H as ([oid anchor] & Hl & H).
  apply rbind_ok in H as (tgt & Ht & H). destruct (match anchor with Some r => _ | None => _ end && _) eqn:E1; [done|].
  destruct (_ && _ && match anchor with Some r => _ | None => _ end) eqn:E2; [done|]. injection H as <-. split; cbn [target own_id first_owner].
  - intros row Hid Hr Hm. unfold check_own_row in Hown. rewrite Hr, Hm in Hown. rewrite bool_decide_true, andb_true_r in Hown by done.
    destruct (deleted row) eqn:Hd; [done|]. unfold own_lineage in Hl. rewrite (proj2 (String.eqb_neq _ _) Hid) in Hl.
    rewrite (resolve_own _ _ _ Hr Hm) in Hl. injection Hl as <- <-. split_and!; [done| |done].
    destruct (auto_mergeable row); [by left|right]. cbn in E1. apply bool_decide_eq_false in E1. by destruct (decide (Some (row_id incoming) = fst <$> tgt)).
  - intros t row ->. apply effective_target_Some in Ht as (-> & Hr & Hd & Hc). by split_and!.
Qed.

Lemma first_search_ok store incoming target_id idx a :
  admitted (conversations store) incoming target_id a ->
  search_ok (conversations store) incoming (fst <$> target a) (first_search incoming idx a).
Proof.
  intros Ha. unfold SyncAssign.first_search. set (s := {| matched := ∅ |}).
  assert (search_ok (conversations store) incoming None s) as Hs.
  { split; cbn; [apply map_empty_subseteq|intros ? ? H; by rewrite lookup_empty in H|lia|intros ? ? H; by rewrite lookup_empty in H
      |intros ? ? H; by rewrite lookup_empty in H|done]. }
  destruct (target a) as [[t raw]|] eqn:Ht; [|exact Hs].
  destruct (ad_target _ _ _ _ Ha t raw Ht) as (_ & Hr & Hd & Hc & Ho).
  destruct Hs as [H1 H2 H3 H4 H5 _]. cbn [fmap option_fmap option_map fst].
  assert (forall k r, matched s !! k = Some r -> False) as Hnone by (intros k r H; cbn in H; by rewrite lookup_empty in H).
  split; cbn [absorb matched extent_start extent_end receipt_owner].
  - by apply insert_subseteq_l.
  - intros k r [[-> <-]|[_ Hk]]%lookup_insert_Some; [by split_and!; auto|by destruct (Hnone _ _ Hk)].
  - cbn. lia.
  - intros k r [[-> <-]|[_ Hk]]%lookup_insert_Some; [lia|by destruct (Hnone _ _ Hk)].
  - intros k r [[-> <-]|[_ Hk]]%lookup_insert_Some; [done|by destruct (Hnone _ _ Hk)].
  - intros t' [= <-]. rewrite lookup_insert_eq. split; [by eexists|done].
Qed.

(** ** The whole transaction *)

Lemma first_row_in (l : list (string * Raw)) : forall best p,
  foldl (fun best p => match best with Some b => if earlier_row b p then Some b else Some p | None => Some p end) best l
    = Some p -> best = Some p \/ p ∈ l.
Proof.
  induction l as [|q l IH]; intros best p; cbn [foldl]; [by left|].
  intros [Hb|?]%IH; [|right; by right].
  assert (best = Some p \/ q = p) as [?| ->]; [|by left|right; left].
  destruct best as [b|]; [destruct (earlier_row b q)|]; [by left|right..]; congruence.
Qed.

Lemma first_row_none (l : list (string * Raw)) : first_row l = None -> l = [].
Proof.
  unfold first_row. destruct l as [|q l]; [done|]. cbn [foldl].
  assert (forall b, foldl (fun best p => match best with Some b => if earlier_row b p then Some b else Some p | None => Some p end)
            (Some b) l <> None) as H; [|intros ?; by destruct (H q)].
  induction l as [|p l IH]; intros b; [done|]. cbn [foldl]. destruct (earlier_row b p); apply IH.
Qed.

(** The survivor is a matched row; only when nothing matched it is the chunk. *)
Lemma canonical_cases rows incoming a s :
  search_ok rows incoming (fst <$> target a) s ->
  is_Some (matched s !! canonical_id incoming a s) \/ matched s = ∅ /\ canonical_id incoming a s = row_id incoming.
Proof.
  intros Hs. unfold canonical_id. destruct (target a) as [[t row]|].
  - left. by destruct (so_target _ _ _ _ Hs t eq_refl).
  - assert (is_Some (matched s !! match first_row (map_to_list (matched s)) with Some (cid, _) => cid | None => row_id incoming end)
      \/ matched s = ∅ /\ match first_row (map_to_list (matched s)) with Some (cid, _) => cid | None => row_id incoming end = row_id incoming) as Hmin.
    { destruct (first_row _) as [[cid row]|] eqn:E.
      - left. apply first_row_in in E as [?|E]; [done|]. apply elem_of_map_to_list in E. by eexists.
      - right. apply first_row_none in E. split; [|done]. by apply map_to_list_empty_iff. }
    destruct (receipt_owner s) as [o|]; [|exact Hmin]. case_bool_decide; [by left|exact Hmin].
Qed.

(** A row with a receipt survives. *)
Lemma receipt_is_canonical rows incoming a s cid r :
  search_ok rows incoming (fst <$> target a) s -> matched s !! cid = Some r ->
  has_receipt holds_receipt r = true -> canonical_id incoming a s = cid.
Proof.
  intros Hs Hr Hrec. pose proof (so_owner _ _ _ _ Hs cid r Hr Hrec) as Ho. unfold canonical_id.
  destruct (target a) as [[t row]|].
  - destruct (so_target _ _ _ _ Hs t eq_refl) as [_ Ht]. congruence.
  - rewrite Ho, bool_decide_true; [done|]. by exists r.
Qed.

Lemma decode_rows_error raws e : decode_rows decode raws = Raise e -> exists x, e = Malformed x.
Proof.
  induction raws as [|raw raws IH]; cbn; [done|]. unfold decode_row, lift.
  destruct (decode (body raw)); cbn; [|intros [= <-]; by eexists].
  destruct (decode_rows decode raws); cbn; [done|auto].
Qed.

Lemma admission_ends rows incoming target_id : admission holds_receipt rows incoming target_id <> Raise OutOfFuel.
Proof.
  unfold admission. intros [H|(u & _ & [H|([oid anchor] & _ & [H|(tgt & _ & H)]%rbind_raise)]%rbind_raise)]%rbind_raise.
  - unfold check_own_row in H. destruct (rows !! row_id incoming); [|done]. by case_match.
  - unfold own_lineage in H. case_match; [done|]. by apply resolve_ends in H.
  - unfold effective_target in H. repeat case_match; done.
  - repeat (case_match; try done).
Qed.

(** The parts of a successful transaction. *)
Record assignment (store : Store blob) incoming (target_id : option string) (a : Admission) (s : Search)
    (records : list Decoded) (segs survivors : list doc) (store' : Store blob) (result : Decoded) : Prop := {
  as_admitted : admitted (conversations store) incoming target_id a;
  as_search : search_ok (conversations store) incoming (fst <$> target a) s;
  as_records : decode_rows decode (matched_rows s) = Ok records;
  as_speech : let canonical := canonical_id incoming a s in
    merged_speech incoming canonical records (timestamp (extent_start s))
      (match target a with
       | Some (_, t) => if has t "sync_content_revision" then 0%Q else _MERGE_TEXT_DUP_SLOP_SECONDS
       | None => 0%Q end)
      (match matched s !! canonical with
       | Some _ => body_segments (body (base_record incoming canonical records)) | None => [] end) = Ok (segs, survivors);
  as_result : let canonical := canonical_id incoming a s in
    let chosen := base_record incoming canonical records in
    result = {| row_id := canonical; started_at := extent_start s; finished_at := extent_end s;
                fields := result_fields deterministic_relevance incoming a canonical records s chosen segs;
                body := {| body_segments := apply_manual_assignments segs (body_receipt (body chosen));
                           body_receipt := body_receipt (body chosen) |} |};
  as_rows : conversations store' = write_rows (conversations store) s (row_id result)
    (write_survivor encode projection_fields (matched s !! row_id result) result);
}.

Lemma assign_inv store incoming candidate_id target_id store' result created survivors :
  assign store incoming candidate_id target_id = Ok (store', result, created, survivors) ->
  exists a s records segs, assignment store incoming target_id a s records segs survivors store' result /\
    created = bool_decide (matched s !! row_id result = None).
Proof.
  unfold assign_in_transaction. intros (a & Ha & H)%rbind_ok. apply admission_admitted in Ha.
  apply rbind_ok in H as (s & Hs & H).
  destruct (search_ends store [candidate_id; Some (row_id incoming); Some (own_id a); target_id] incoming (fst <$> target a)
              (S (S (size (conversations store))))
              (first_search incoming {| recent_entries := recent store; buckets := [] |} a)) as (s' & Hs' & Hok & _);
    [by eapply first_search_ok|lia|].
  rewrite Hs' in Hs. injection Hs as <-.
  apply rbind_ok in H as (records & Hrec & H). apply rbind_ok in H as ([segs survivors'] & Hsp & H).
  destruct (index_write _ _ _ _) as [days' recent']. injection H as <- <- <- <-.
  exists a, s', records, segs. split; [|done]. split; try done.
  unfold lift in Hsp. destruct (merged_speech _ _ _ _ _ _) eqn:E; [by injection Hsp as ->|done].
Qed.

(** C32: assignment ends.  The walk along redirects of the retry lineage visits
    no row twice, and each round of the search matches a row more or is the
    last: with any store, index and hints the transaction returns a result or
    raises one of its own errors, whatever the redirects and intervals are. *)
Theorem assignment_terminates store incoming candidate_id target_id :
  assign store incoming candidate_id target_id <> Raise OutOfFuel.
Proof.
  unfold assign_in_transaction. destruct (admission _ _ _ _) as [a|e] eqn:Ha; cbn [rbind].
  - apply admission_admitted in Ha.
    destruct (search_ends store [candidate_id; Some (row_id incoming); Some (own_id a); target_id] incoming (fst <$> target a)
                (S (S (size (conversations store))))
                (first_search incoming {| recent_entries := recent store; buckets := [] |} a)) as (s & -> & _);
      [by eapply first_search_ok|lia|]. cbn [rbind].
    destruct (decode_rows decode (matched_rows s)) as [records|e] eqn:Hr; cbn [rbind].
    + unfold lift. destruct (merged_speech _ _ _ _ _ _) as [[segs survivors]|e]; cbn [rbind]; [|done]. by case_match.
    + intros [= ->]. by apply decode_rows_error in Hr as [x ?].
  - intros [= ->]. by apply admission_ends in Ha.
Qed.

(** ** The rows afterwards *)

Lemma lookup_write_rows rows s c survivor cid :
  write_rows rows s c survivor !! cid =
    if bool_decide (cid = c) then Some survivor
    else match matched s !! cid with Some r => Some (write_donor c r) | None => rows !! cid end.
Proof.
  unfold write_rows. case_bool_decide as Hc; [subst; apply lookup_insert_eq|].
  rewrite lookup_insert_ne by done. rewrite lookup_union, lookup_fmap, lookup_delete_ne by done.
  destruct (matched s !! cid); cbn; [by rewrite union_Some_l|by rewrite (left_id_L None _)].
Qed.

(** C17: assignment never writes what a user deleted or manages.  A row that is not
    a redirect and either was deleted, or is shared, curated, photo-bearing or
    not written by sync, is in the store afterwards exactly as it was, whatever
    the hints and intervals are: unless it is alive and the caller named it as
    the explicit target. *)
Theorem protected_rows_are_untouched store incoming candidate_id target_id store' result created survivors cid row :
  row_id incoming <> "" ->
  assign store incoming candidate_id target_id = Ok (store', result, created, survivors) ->
  conversations store !! cid = Some row -> merged_into row = None ->
  deleted row = true \/ (auto_mergeable row = false /\ target_id <> Some cid) ->
  conversations store' !! cid = Some row.
Proof.
  intros Hid H Hrow Hm Hprot. apply assign_inv in H as (a & s & records & segs & [Ha Hs _ _ Hres Hrows] & _).
  assert (matched s !! cid = None) as Hnone.
  { destruct (matched s !! cid) as [r|] eqn:Hr; [|done].
    assert (r = row) as -> by (pose proof (lookup_weaken _ _ _ _ Hr (so_rows _ _ _ _ Hs)); congruence).
    destruct (so_alive _ _ _ _ Hs cid row Hr) as (Hd & _ & Hmm). destruct Hprot as [?|[? Hne]]; [congruence|].
    destruct Hmm as [?|Ht]; [congruence|]. symmetry in Ht. apply fmap_Some in Ht as ([t r'] & Ht & ->).
    by destruct (ad_target _ _ _ _ Ha _ _ Ht). }
  rewrite Hrows, lookup_write_rows, Hnone. case_bool_decide as Hc; [exfalso|done].
  rewrite Hres in Hc. cbn [row_id] in Hc. subst cid.
  destruct (canonical_cases _ _ _ _ Hs) as [[r Hr]|[_ Hc]]; [congruence|]. rewrite Hc in *.
  destruct (ad_own _ _ _ _ Ha row Hid Hrow Hm) as (Hd & Hmm & _). destruct Hprot as [?|[? Hne]]; [congruence|].
  destruct Hmm as [?|Ht]; [congruence|]. symmetry in Ht. apply fmap_Some in Ht as ([t r'] & Ht & Heq). cbn in Heq. subst t.
  by destruct (ad_target _ _ _ _ Ha _ _ Ht).
Qed.

(** ** The records *)

(** A record is its row with the body decoded. *)
Definition decodes (raw : Raw) (d : Decoded) : Prop :=
  decode (body raw) = Ok (body d) /\ row_id d = row_id raw /\ started_at d = started_at raw /\
  finished_at d = finished_at raw /\ fields d = fields raw.

Lemma decode_rows_inv raws : forall records, decode_rows decode raws = Ok records -> Forall2 decodes raws records.
Proof.
  induction raws as [|raw raws IH]; cbn; intros records H; [by injection H as <-|].
  apply rbind_ok in H as (d & Hd & H). apply rbind_ok in H as (more & Hm & H). injection H as <-.
  constructor; [|auto]. unfold decode_row, lift in Hd. destruct (decode (body raw)) eqn:E; [|done].
  injection Hd as <-. by split_and!.
Qed.

Lemma matched_rows_in s raw : raw ∈ matched_rows s <-> exists cid, matched s !! cid = Some raw.
Proof.
  unfold matched_rows. rewrite list_elem_of_fmap. split.
  - intros ([cid r] & -> & H). rewrite merge_sort_Permutation in H. apply elem_of_map_to_list in H. by exists cid.
  - intros [cid H]. exists (cid, raw). split; [done|]. rewrite merge_sort_Permutation. by apply elem_of_map_to_list.
Qed.

Lemma record_of s records cid raw :
  decode_rows decode (matched_rows s) = Ok records -> matched s !! cid = Some raw ->
  exists d, d ∈ records /\ decodes raw d.
Proof.
  intros Hr%decode_rows_inv Hm. assert (raw ∈ matched_rows s) as Hin by (apply matched_rows_in; eauto).
  apply list_elem_of_lookup in Hin as [i Hi]. destruct (Forall2_lookup_l _ _ _ _ _ Hr Hi) as (d & Hd & Hdec).
  exists d. split; [by eapply list_elem_of_lookup_2|done].
Qed.

Lemma record_from s records d :
  decode_rows decode (matched_rows s) = Ok records -> d ∈ records ->
  exists cid raw, matched s !! cid = Some raw /\ decodes raw d.
Proof.
  intros Hr%decode_rows_inv [i Hi]%list_elem_of_lookup. destruct (Forall2_lookup_r _ _ _ _ _ Hr Hi) as (raw & Hraw & Hdec).
  assert (raw ∈ matched_rows s) as [cid Hm]%matched_rows_in by (by eapply list_elem_of_lookup_2). eauto.
Qed.

(** ** What the survivor says *)

Lemma result_revision incoming a c records s chosen segs :
  py_get (result_fields deterministic_relevance incoming a c records s chosen segs) "sync_content_revision"
  = PInt (max_revision records + 1).
Proof. unfold result_fields; cbv zeta. skip_writes. by doc_simpl. Qed.

Lemma result_level incoming a c records s chosen segs :
  py_get (result_fields deterministic_relevance incoming a c records s chosen segs) "data_protection_level"
  = if existsb enhanced (incoming :: records) then PStr "enhanced" else field incoming "data_protection_level".
Proof. unfold result_fields; cbv zeta. skip_writes. by doc_simpl. Qed.

Lemma result_lineage incoming a c records s chosen segs :
  py_get (result_fields deterministic_relevance incoming a c records s chosen segs) "sync_merged_from"
  = PList (PStr <$> ancestors c records s).
Proof. unfold result_fields; cbv zeta. skip_writes. by doc_simpl. Qed.

(** Fields the assignment does not write are the chosen record's. *)
Lemma result_kept incoming a c records s chosen segs k :
  k ∈ ["deleted"; "sync_merged_into"] ->
  py_get (result_fields deterministic_relevance incoming a c records s chosen segs) k = py_get (fields chosen) k.
Proof.
  intros [->|[->|H]%elem_of_cons]%elem_of_cons; [| |by apply not_elem_of_nil in H];
    unfold result_fields; cbv zeta; by skip_writes.
Qed.

Lemma max_revision_ge {B} (records : list (Row B)) d : d ∈ records -> revision d <= max_revision records.
Proof.
  unfold max_revision. induction records as [|r records IH]; [set_solver|].
  intros [->|H]%elem_of_cons; cbn [foldr]; [lia|]. specialize (IH H). lia.
Qed.

(** ** Donors *)

Lemma elem_of_ancestors c records s cid :
  cid ∈ ancestors c records s <->
    (exists d, d ∈ records /\ cid ∈ strings_of (field d "sync_merged_from")) \/ (is_Some (matched s !! cid) /\ cid <> c).
Proof.
  unfold ancestors. rewrite merge_sort_Permutation, elem_of_elements, elem_of_union, elem_of_list_to_set, elem_of_difference.
  rewrite elem_of_dom, not_elem_of_singleton. f_equiv.
  rewrite list_elem_of_In, in_concat. split.
  - intros (l & Hl & Hc). apply list_elem_of_In, list_elem_of_fmap in Hl as (d & -> & Hd).
    exists d. split; [done|by apply list_elem_of_In].
  - intros (d & Hd & Hc). eexists. split; [apply list_elem_of_In, list_elem_of_fmap; by exists d|by apply list_elem_of_In].
Qed.

(** What a row that disappeared left behind. *)
Record donated (c : string) (result : Decoded) (cid : string) (r : Raw) : Prop := {
  dn_alive : deleted r = false;
  dn_mergeable : auto_mergeable r = true;
  dn_unlabelled : has_receipt holds_receipt r = false;
  dn_covered : started_at result <= started_at r /\ finished_at r <= finished_at result;
  dn_revision : revision r < revision result;
  dn_listed : cid ∈ strings_of (field result "sync_merged_from");
  dn_ancestors : forall k, k ∈ strings_of (field r "sync_merged_from") -> k ∈ strings_of (field result "sync_merged_from");
  dn_level : enhanced r = true -> field result "data_protection_level" = PStr "enhanced";
}.

Lemma revision_int {B} (r : Row B) n : py_get (fields r) "sync_content_revision" = PInt n -> revision r = n.
Proof. intros H. unfold revision, field. by rewrite H. Qed.

Lemma strings_of_list l : strings_of (PList (PStr <$> l)) = l.
Proof. cbn. induction l as [|x l IH]; [done|]. cbn. by rewrite IH. Qed.

Lemma donor_donated store incoming target_id a s records segs survivors store' result cid r :
  assignment store incoming target_id a s records segs survivors store' result ->
  cid <> row_id result -> matched s !! cid = Some r -> donated (row_id result) result cid r.
Proof.
  intros [Ha Hs Hrec _ Hres _] Hne Hr. destruct (so_alive _ _ _ _ Hs cid r Hr) as (Hd & _ & Hm).
  destruct (record_of _ _ _ _ Hrec Hr) as (d & Hin & Hdec). pose proof Hdec as (_ & _ & _ & _ & Hfields).
  set (c := canonical_id incoming a s) in *.
  assert (row_id result = c /\ started_at result = extent_start s /\ finished_at result = extent_end s) as (Hc & Hst & Hfin)
    by (by rewrite Hres).
  assert (exists chosen, fields result = result_fields deterministic_relevance incoming a c records s chosen segs)
    as [chosen Hf] by (rewrite Hres; by eexists).
  assert (forall k, field r k = field d k) as Hfd by (intros k; unfold field; by rewrite Hfields).
  assert (forall k, field result k = py_get (result_fields deterministic_relevance incoming a c records s chosen segs) k)
    as Hfr by (intros k; unfold field; by rewrite Hf).
  rewrite Hc in *. split; rewrite ?Hst, ?Hfin, ?Hfr, ?result_lineage, ?strings_of_list, ?result_level; try done.
  - destruct Hm as [?|Ht]; [done|]. exfalso. symmetry in Ht. apply fmap_Some in Ht as ([t r0] & Ht & ->).
    apply Hne. unfold c, canonical_id. by rewrite Ht.
  - destruct (has_receipt holds_receipt r) eqn:E; [|done]. exfalso. apply Hne. symmetry.
    by eapply receipt_is_canonical.
  - exact (so_extent _ _ _ _ Hs cid r Hr).
  - rewrite (revision_int result (max_revision records + 1)) by (rewrite Hf; apply result_revision).
    assert (revision r = revision d) as -> by (unfold revision; by rewrite Hfd).
    pose proof (max_revision_ge _ _ Hin). lia.
  - apply elem_of_ancestors. right. split; [by exists r|done].
  - intros k Hk. apply elem_of_ancestors. left. exists d. by rewrite <- Hfd.
  - intros He. assert (existsb enhanced (incoming :: records) = true) as ->; [|done].
    apply existsb_exists. exists d. split; [right; by apply list_elem_of_In|]. unfold enhanced in *. by rewrite <- Hfd.
Qed.

(** Absorbed rows live on in the survivor.  A successful assignment changes
    only the survivor's row and the rows it absorbed.  Each absorbed row was
    alive, unattended and without manual labels; it is now deleted and hidden,
    redirects to the survivor and is newer than before; and the survivor covers
    its interval, has a higher revision, names it and its own ancestors as
    merged, and is stored under enhanced protection when it was. *)
Theorem donors_live_on store incoming candidate_id target_id store' result created survivors cid :
  assign store incoming candidate_id target_id = Ok (store', result, created, survivors) ->
  cid <> row_id result ->
  conversations store' !! cid = conversations store !! cid \/
  exists r r', conversations store !! cid = Some r /\ conversations store' !! cid = Some r' /\
    deleted r' = true /\ field r' "discarded" = PBool true /\ merged_into r' = nonempty_id (Some (row_id result)) /\
    revision r < revision r' /\ donated (row_id result) result cid r.
Proof.
  intros H Hne. apply assign_inv in H as (a & s & records & segs & Has & _).
  rewrite (as_rows _ _ _ _ _ _ _ _ _ _ Has), lookup_write_rows, bool_decide_false by done.
  destruct (matched s !! cid) as [r|] eqn:Hr; [right|by left].
  exists r, (write_donor (row_id result) r).
  split; [by eapply lookup_weaken, so_rows, as_search|]. split; [done|].
  assert (fields (write_donor (row_id result) r) = doc_update (fields r)
       [put_bool "deleted" true; put_bool "discarded" true; put_str "sync_merged_into" (row_id result);
        put_int "sync_content_revision" (revision r + 1)]) as Hf by done.
  split_and!.
  - unfold deleted, has, field. rewrite Hf. by doc_simpl.
  - unfold field. rewrite Hf. by doc_simpl.
  - unfold merged_into, field. rewrite Hf. doc_simpl. cbn. by destruct (String.eqb (row_id result) "").
  - rewrite (revision_int (write_donor (row_id result) r) (revision r + 1)); [lia|]. rewrite Hf. by doc_simpl.
  - by eapply donor_donated.
Qed.

(** ** The survivor *)

(** Documents are stored under their ids, and redirects are hidden. *)
Record stored_rows rows : Prop := {
  sr_ids : forall cid r, rows !! cid = Some r -> row_id r = cid /\ cid <> "";
  sr_redirects : forall cid r, rows !! cid = Some r -> merged_into r <> None -> deleted r = true;
}.

Lemma chosen_record store incoming target_id a s records segs survivors store' result :
  stored_rows (conversations store) ->
  assignment store incoming target_id a s records segs survivors store' result ->
  let chosen := base_record incoming (row_id result) records in
  match matched s !! row_id result with
  | Some r => decodes r chosen
  | None => chosen = incoming /\ row_id result = row_id incoming
  end.
Proof.
  intros Hst [Ha Hs Hrec _ Hres _]. cbn zeta. assert (row_id result = canonical_id incoming a s) as -> by (by rewrite Hres).
  destruct (canonical_cases _ _ _ _ Hs) as [[r Hr]|[Hemp Hc]].
  - rewrite Hr. destruct (record_of _ _ _ _ Hrec Hr) as (d & Hin & Hdec). unfold base_record.
    pose proof (lookup_weaken _ _ _ _ Hr (so_rows _ _ _ _ Hs)) as Hrow. destruct (sr_ids _ Hst _ _ Hrow) as [Hid _].
    assert (d ∈ base.filter (fun x => String.eqb (row_id x) (canonical_id incoming a s) = true) records) as Hf.
    { apply list_elem_of_filter. split; [|done]. destruct Hdec as (_ & -> & _). rewrite Hid. apply String.eqb_refl. }
    destruct (base.filter _ records) as [|d' l] eqn:E; [by apply not_elem_of_nil in Hf|].
    assert (d' ∈ base.filter (fun x => String.eqb (row_id x) (canonical_id incoming a s) = true) records) as [Heq Hin']%list_elem_of_filter
      by (rewrite E; left).
    apply String.eqb_eq in Heq. destruct (record_from _ _ _ Hrec Hin') as (cid & raw & Hm & Hd').
    pose proof (lookup_weaken _ _ _ _ Hm (so_rows _ _ _ _ Hs)) as Hrow'. destruct (sr_ids _ Hst _ _ Hrow') as [Hid' _].
    assert (cid = canonical_id incoming a s) as -> by (destruct Hd' as (_ & Hi & _); congruence).
    assert (raw = r) as -> by congruence. done.
  - rewrite Hemp, lookup_empty. split; [|done]. unfold base_record, matched_rows in *. rewrite Hemp in Hrec.
    rewrite map_to_list_empty in Hrec. cbn in Hrec. injection Hrec as <-. done.
Qed.

(** A stored value that reads as false. *)
Definition falsy_at (d : doc) (k : string) : Prop := forall v, d !! k = Some v -> truthy v = false.

Lemma falsy_get d k : falsy_at d k <-> truthy (py_get d k) = false.
Proof.
  unfold falsy_at, py_get. destruct (d !! k) as [v|] eqn:E; cbn; split; try done; [intros H; by apply H|by intros ? ? [= <-]].
Qed.

Lemma falsy_deleted d ks k : falsy_at d k -> falsy_at (foldr delete d ks) k.
Proof.
  induction ks as [|x ks IH]; cbn; [done|]. intros H v Hv. apply lookup_delete_Some in Hv as [_ Hv]. by apply IH.
Qed.

Lemma falsy_union d e k : falsy_at d k -> falsy_at e k -> falsy_at (d ∪ e) k.
Proof. intros Hd He v [Hv|[_ Hv]]%lookup_union_Some_raw; auto. Qed.

(** The survivor is neither deleted nor a redirect when the chunk is neither. *)
Lemma survivor_alive store incoming target_id a s records segs survivors store' result k :
  stored_rows (conversations store) -> k ∈ ["deleted"; "sync_merged_into"] ->
  falsy_at (fields incoming) k ->
  assignment store incoming target_id a s records segs survivors store' result ->
  falsy_at (fields (write_survivor encode projection_fields (matched s !! row_id result) result)) k.
Proof.
  intros Hst Hk Hinc Has. pose proof (chosen_record _ _ _ _ _ _ _ _ _ _ Hst Has) as Hch. cbn zeta in Hch.
  assert (forall r, matched s !! row_id result = Some r -> falsy_at (fields r) k) as Hold.
  { intros r Hr. destruct (so_alive _ _ _ _ (as_search _ _ _ _ _ _ _ _ _ _ Has) _ r Hr) as (Hd & _).
    apply falsy_get. apply elem_of_cons in Hk as [->|Hk]; [|apply list_elem_of_singleton in Hk as ->]; [exact Hd|].
    destruct (truthy _) eqn:E; [|done]. rewrite (sr_redirects _ Hst (row_id result) r) in Hd; [done| |].
    - eapply lookup_weaken; [exact Hr|]. apply so_rows with (1 := as_search _ _ _ _ _ _ _ _ _ _ Has).
    - unfold merged_into, field. by rewrite E. }
  assert (falsy_at (fields result) k) as Hresk.
  { apply falsy_get. rewrite (as_result _ _ _ _ _ _ _ _ _ _ Has). cbn [fields]. rewrite result_kept by done.
    apply falsy_get. assert (canonical_id incoming a s = row_id result) as -> by (by rewrite (as_result _ _ _ _ _ _ _ _ _ _ Has)).
    destruct (matched s !! row_id result) as [r|] eqn:E.
    - destruct Hch as (_ & _ & _ & _ & ->). by apply Hold.
    - by destruct Hch as [-> _]. }
  unfold write_survivor, payload_of. destruct (matched s !! row_id result) as [r|] eqn:E; cbn [fields].
  - apply falsy_deleted, falsy_union; [by apply falsy_deleted|by apply Hold].
  - by apply falsy_deleted.
Qed.
End Assignment.
