(* ===== verification/SyncLineage.v ===== *)
(** The lineage of synced rows: redirects stay acyclic, and end in the row that
    holds the speech. *)
From stdpp Require Import sorting.
From S2P Require Export SyncAssignOps ManualOps.

Section Lineage.
Context {blob : Type} (decode : blob -> result pyexc Body) (encode : string -> Body -> blob)
  (holds_receipt : blob -> bool) (deterministic_relevance : list pyval -> Q -> option string * string)
  (projection_fields : list string).

Local Abbreviation Raw := (Row blob).
Local Abbreviation Decoded := (Row Body).
Local Abbreviation Rows := (gmap string Raw).
Local Abbreviation assign := (assign_in_transaction decode encode holds_receipt deterministic_relevance projection_fields).
Local Abbreviation assignment := (assignment decode encode holds_receipt deterministic_relevance projection_fields).

Implicit Types (rows : Rows) (incoming : Decoded) (s : SyncAssign.Search (blob := blob)).

Definition redirects rows : gmap string string := omap merged_into rows.

(** Every walk along redirects ends. *)
Definition lineage_ok rows : Prop := forall x, exists y, ends_in (redirects rows) x y.

Lemma lookup_redirects rows x : redirects rows !! x = rows !! x ≫= merged_into.
Proof. apply lookup_omap. Qed.

(** Sending ends to one end keeps every chain finite. *)
Lemma reroute (m m' : gmap string string) c :
  m' !! c = None -> (forall x, x <> c -> m' !! x = m !! x \/ (m' !! x = Some c /\ m !! x = None)) ->
  forall x y, ends_in m x y -> exists y', ends_in m' x y'.
Proof.
  intros Hc Hm x y [n Hn]. revert x Hn. induction n as [|n IH]; intros x.
  all: destruct (decide (x = c)) as [->|Hne]; [intros _; exists c, O; by split|].
  - intros [<- Hx]. destruct (Hm x Hne) as [Heq|[Heq _]].
    + exists x, O. split; [done|]. by rewrite Heq.
    + exists c, 1%nat. exists c. by split_and!.
  - intros (z & Hz & Hchain). destruct (Hm x Hne) as [Heq|[_ Heq]]; [|congruence].
    destruct (IH z Hchain) as (y' & k & Hk). exists y', (S k). exists z. split; [congruence|done].
Qed.

(** Where no walk is endless, none raises the error of a cycle. *)
Lemma follow_redirects_acyclic rows n : forall fuel seen cid y,
  (forall k r, rows !! k = Some r -> row_id r = k) ->
  chain (redirects rows) n cid y -> Forall (fun x => exists k, (n < k)%nat /\ chain (redirects rows) k x y) seen ->
  follow_redirects fuel rows seen cid (rows !! cid) <> Raise (SyncAssignmentConflict "sync redirect cycle").
Proof.
  induction n as [|n IH]; intros fuel seen cid y Hids Hc Hseen; pose proof Hc as Hc0.
  - destruct Hc as [-> Hn]. rewrite lookup_redirects in Hn.
    destruct fuel, (rows !! y) as [r|]; cbn in *; try done; by rewrite Hn.
  - destruct Hc as (z & Hz & Hc). rewrite lookup_redirects in Hz. apply bind_Some in Hz as (r & Hr & Hm).
    pose proof (Hids _ _ Hr) as Hid.
    assert (row_id r ∉ seen) as Hfresh.
    { rewrite Hid. intros Hin. destruct (proj1 (Forall_forall _ _) Hseen _ Hin) as (k & ? & Hk).
      destruct (chain_det _ _ _ _ _ _ Hk Hc0). lia. }
    rewrite Hr. destruct fuel; cbn; rewrite Hm; cbn; rewrite bool_decide_false by done; [done|].
    apply (IH _ _ z y Hids Hc). constructor.
    + exists (S n). split; [lia|]. by rewrite Hid.
    + eapply Forall_impl; [exact Hseen|]. intros x (k & ? & ?). exists k. split; [lia|done].
Qed.

Lemma resolve_acyclic rows cid :
  stored_rows rows -> lineage_ok rows -> resolve rows cid <> Raise (SyncAssignmentConflict "sync redirect cycle").
Proof.
  intros Hst Hl. unfold resolve. destruct (Hl cid) as (y & n & Hn).
  pose proof (follow_redirects_acyclic rows n (S (size rows)) [] cid y) as Hf.
  destruct (follow_redirects _ _ _ _ _) as [[[seen cid'] row]|e]; cbn [rbind]; [by case_match|].
  intros [= ->]. apply Hf; [|done|constructor|done]. intros k r Hr. by destruct (sr_ids _ Hst _ _ Hr).
Qed.

(** A chunk that is neither deleted nor a redirect. *)
Definition fresh_chunk incoming : Prop :=
  row_id incoming <> "" /\ falsy_at (fields incoming) "deleted" /\ falsy_at (fields incoming) "sync_merged_into".

Lemma merged_into_falsy {r : Raw} : falsy_at (fields r) "sync_merged_into" -> merged_into r = None.
Proof. intros H. apply falsy_get in H. unfold merged_into, field. by rewrite H. Qed.

Lemma survivor_id a s incoming target_id store records segs survivors store' result :
  assignment store incoming target_id a s records segs survivors store' result ->
  row_id result = canonical_id incoming a s.
Proof. intros H. by rewrite (as_result _ _ _ _ _ _ _ _ _ _ _ _ _ _ _ H). Qed.

(** The rows after an assignment, one by one. *)
Lemma rows_after store incoming target_id a s records segs survivors store' result cid :
  stored_rows (conversations store) -> fresh_chunk incoming ->
  assignment store incoming target_id a s records segs survivors store' result ->
  let c := row_id result in
  c <> "" /\
  (cid = c -> exists r, conversations store' !! cid = Some r /\ row_id r = c /\ merged_into r = None) /\
  (cid <> c -> conversations store' !! cid = conversations store !! cid \/
     exists r, conversations store !! cid = Some r /\ conversations store' !! cid = Some (write_donor c r) /\
       deleted r = false).
Proof.
  intros Hst (Hid & _ & Hr) Has. cbn zeta. pose proof (as_search _ _ _ _ _ _ _ _ _ _ _ _ _ _ _ Has) as Hs.
  rewrite (as_rows _ _ _ _ _ _ _ _ _ _ _ _ _ _ _ Has), lookup_write_rows. split_and!.
  - rewrite (survivor_id _ _ _ _ _ _ _ _ _ _ Has). destruct (canonical_cases _ _ _ _ _ Hs) as [[r Hm]|[_ ->]]; [|done].
    pose proof (lookup_weaken _ _ _ _ Hm (so_rows _ _ _ _ _ Hs)) as Hrow. by destruct (sr_ids _ Hst _ _ Hrow).
  - intros ->. rewrite bool_decide_true by done. eexists. split; [done|]. split.
    + unfold write_survivor, payload_of. by case_match.
    + apply merged_into_falsy. eapply survivor_alive; [exact Hst| |exact Hr|exact Has]. set_solver.
  - intros Hne. rewrite bool_decide_false by done. destruct (matched s !! cid) as [r|] eqn:Hm; [right|by left].
    exists r. split_and!; [eapply lookup_weaken; [exact Hm|by eapply so_rows]|done|].
    by destruct (so_alive _ _ _ _ _ Hs cid r Hm).
Qed.

Lemma rows_after_stored store incoming target_id a s records segs survivors store' result :
  stored_rows (conversations store) -> fresh_chunk incoming ->
  assignment store incoming target_id a s records segs survivors store' result ->
  stored_rows (conversations store').
Proof.
  intros Hst Hf Has. split; intros cid r Hr;
    destruct (rows_after _ _ _ _ _ _ _ _ _ _ cid Hst Hf Has) as (Hc & Hsame & Hother);
    (destruct (decide (cid = row_id result)) as [->|Hne];
      [destruct (Hsame eq_refl) as (r' & Hr' & Hid & Hm); assert (r = r') as -> by congruence
      |destruct (Hother Hne) as [Heq|(r0 & Hr0 & Hr' & _)]; [rewrite Heq in Hr|]]).
  - done.
  - by destruct (sr_ids _ Hst _ _ Hr).
  - rewrite Hr' in Hr. injection Hr as <-. by destruct (sr_ids _ Hst _ _ Hr0).
  - done.
  - exact (sr_redirects _ Hst cid r Hr).
  - rewrite Hr' in Hr. injection Hr as <-. intros _. unfold deleted, has, field, write_donor. cbn [fields]. by doc_simpl.
Qed.

(** C21: lineage stays acyclic.  In a store whose documents carry their ids, whose
    redirects are hidden and end, a successful assignment of a fresh chunk
    leaves such a store; a row it absorbed redirects to the survivor in one
    step and the survivor is not a redirect; so no later retry, of any chunk,
    meets the error of a redirect cycle. *)
Theorem lineage_stays_acyclic store incoming candidate_id target_id store' result created survivors :
  stored_rows (conversations store) -> lineage_ok (conversations store) -> fresh_chunk incoming ->
  assign store incoming candidate_id target_id = Ok (store', result, created, survivors) ->
  stored_rows (conversations store') /\ lineage_ok (conversations store') /\
  (forall cid, resolve (conversations store') cid <> Raise (SyncAssignmentConflict "sync redirect cycle")) /\
  forall cid, cid <> row_id result -> conversations store' !! cid <> conversations store !! cid ->
    chain (redirects (conversations store')) 1 cid (row_id result).
Proof.
  intros Hst Hl Hf H. apply assign_inv in H as (a & s & records & segs & Has & _).
  pose proof (rows_after_stored _ _ _ _ _ _ _ _ _ _ Hst Hf Has) as Hst'.
  assert (redirects (conversations store') !! row_id result = None) as Hend.
  { destruct (rows_after _ _ _ _ _ _ _ _ _ _ (row_id result) Hst Hf Has) as (_ & Hsame & _).
    destruct (Hsame eq_refl) as (r & Hr & _ & Hm). by rewrite lookup_redirects, Hr. }
  assert (forall cid r, conversations store' !! cid = Some (write_donor (row_id result) r) ->
            redirects (conversations store') !! cid = Some (row_id result)) as Hdonor.
  { intros cid r Hr. rewrite lookup_redirects, Hr. cbn. unfold merged_into, field, write_donor. cbn [fields]. doc_simpl.
    cbn. destruct (rows_after _ _ _ _ _ _ _ _ _ _ (row_id result) Hst Hf Has) as (Hc & _).
    by rewrite (proj2 (String.eqb_neq _ _) Hc). }
  assert (lineage_ok (conversations store')) as Hl'.
  { intros x. destruct (Hl x) as [y Hy]. refine (reroute _ _ (row_id result) Hend _ x y Hy). intros z Hz.
    destruct (rows_after _ _ _ _ _ _ _ _ _ _ z Hst Hf Has) as (_ & _ & Hother).
    destruct (Hother Hz) as [Heq|(r & Hr & Hr' & Hd)]; [left; by rewrite !lookup_redirects, Heq|right].
    split; [by eapply Hdonor|]. rewrite lookup_redirects, Hr. cbn. destruct (merged_into r) eqn:E; [|done].
    rewrite (sr_redirects _ Hst z r Hr) in Hd; congruence. }
  split_and!; [done|done|intros cid; by apply resolve_acyclic|].
  intros cid Hne Hch. destruct (rows_after _ _ _ _ _ _ _ _ _ _ cid Hst Hf Has) as (_ & _ & Hother).
  destruct (Hother Hne) as [Heq|(r & Hr & Hr' & _)]; [congruence|].
  exists (row_id result). split; [by eapply Hdonor|]. by split.
Qed.
End Lineage.
