(* ===== verification/SyncSpeech.v ===== *)
(** The speech of an assignment: every segment of the chunk and of the rows it
    absorbed is in the survivor at the moment it was spoken, unless that place is
    taken or its words are there; and the survivor holds nothing else. *)
From stdpp Require Import sorting.
From S2P Require Export SyncLineage.

(** ** Rounding *)

Lemma round_half_even_comp x y : (x == y)%Q -> round_half_even x = round_half_even y.
Proof.
  intros H. unfold round_half_even. rewrite (Qfloor_comp _ _ H).
  assert ((x - inject_Z (Qfloor y) ?= 1 # 2) = (y - inject_Z (Qfloor y) ?= 1 # 2))%Q as ->; [|done].
  apply Qcompare_comp; [by rewrite H|done].
Qed.

Lemma range_key_comp a b a' b' : (a == a')%Q -> (b == b')%Q -> range_key a b = range_key a' b'.
Proof.
  intros Ha Hb. unfold range_key, round2.
  f_equal; apply round_half_even_comp; by rewrite ?Ha, ?Hb.
Qed.

(** ** Utterances *)

(** What a segment says: when, in absolute seconds, and what. *)
Record utterance : Type := {
  u_from : Q;
  u_to : Q;
  u_text : pyval;
  u_id : pyval;
}.

(** The utterance of a stored segment, of a row that starts at [base]. *)
Definition utterance_of (base : Q) (seg : doc) (u : utterance) : Prop :=
  exists s e, number_field seg "start" = Ok s /\ number_field seg "end" = Ok e /\
    (base + s == u_from u)%Q /\ (base + e == u_to u)%Q /\
    py_get seg "text" = u_text u /\ py_get seg "id" = u_id u.

(** The utterance of a segment that carries its own timestamp. *)
Definition says (x : doc) (u : utterance) : Prop :=
  exists t s e, number_field x "timestamp" = Ok t /\ number_field x "start" = Ok s /\ number_field x "end" = Ok e /\
    (t == u_from u)%Q /\ (t + (e - s) == u_to u)%Q /\ py_get x "text" = u_text u /\ py_get x "id" = u_id u.

(** Its start is already relative to [origin]. *)
Definition relative_to (origin : Q) (x : doc) : Prop :=
  exists t s, number_field x "timestamp" = Ok t /\ number_field x "start" = Ok s /\ (s == t - origin)%Q.

(** [u] is represented by [v]: it is the same utterance, or its place to the
    hundredth of a second is taken, on the clock or on the timeline, or its
    words are said within [slop]. *)
Inductive represented (origin slop : Q) (u v : utterance) : Prop :=
| rep_same : (u_from u == u_from v)%Q -> (u_to u == u_to v)%Q -> u_text u = u_text v -> u_id u = u_id v ->
    represented origin slop u v
| rep_clock : range_key (u_from u) (u_to u) = range_key (u_from v) (u_to v) -> represented origin slop u v
| rep_timeline :
    range_key (u_from u - origin)%Q (u_to u - origin)%Q = range_key (u_from v - origin)%Q (u_to v - origin)%Q ->
    represented origin slop u v
| rep_words w : _normalize_merge_segment_text (u_text u) = Ok w -> _normalize_merge_segment_text (u_text v) = Ok w ->
    w <> "" -> (Qabs_diff (u_from u) (u_from v) <= slop)%Q -> represented origin slop u v.

Lemma number_float x k q : number_field x k = Ok q -> float_field x k = Ok q.
Proof.
  unfold number_field, float_field. destruct (x !! k) as [v|]; [|done].
  destruct v; cbn; try done; by intros [= <-].
Qed.

(** Two segments that agree on what is said and when. *)
Definition same_speech (x y : doc) : Prop :=
  forall k, k ∈ ["timestamp"; "start"; "end"; "text"; "id"] -> x !! k = y !! k.

Lemma same_speech_number x y k :
  same_speech x y -> k ∈ ["timestamp"; "start"; "end"; "text"; "id"] -> number_field x k = number_field y k.
Proof. intros H Hk. unfold number_field. by rewrite (H k Hk). Qed.

Lemma same_speech_says x y u : same_speech x y -> says y u -> says x u.
Proof.
  intros H (t & s & e & Ht & Hs & He & H1 & H2 & H3 & H4). exists t, s, e.
  rewrite !(same_speech_number x y) by (done || set_solver). unfold py_get in *. rewrite !(H _) by set_solver. by split_and!.
Qed.

Lemma same_speech_relative origin x y : same_speech x y -> relative_to origin y -> relative_to origin x.
Proof.
  intros H (t & s & Ht & Hs & Hr). exists t, s. by rewrite !(same_speech_number x y) by (done || set_solver).
Qed.

(** ** Placing *)

Lemma number_updated d ws k q :
  foldl (fun o kw => if String.eqb k kw.1 then apply_field o kw.2 else o) (d !! k) ws = Some (PFloat q) ->
  number_field (doc_update d ws) k = Ok q.
Proof. intros H. unfold number_field. by rewrite lookup_doc_update, H. Qed.

Lemma place_segment_says origin base seg p :
  place_segment origin base seg = Ok p ->
  exists u, utterance_of base seg u /\ says p u /\ relative_to origin p.
Proof.
  unfold place_segment. intros (s & Hs & H)%rbind_ok. apply rbind_ok in H as (e & He & H). apply ok_inj in H as <-.
  exists {| u_from := (base + s)%Q; u_to := (base + e)%Q; u_text := py_get seg "text"; u_id := py_get seg "id" |}.
  split; [exists s, e; by split_and!|]. match goal with |- context [doc_update seg ?ws] => set (p := doc_update seg ws) end.
  assert (number_field p "timestamp" = Ok (base + s)%Q) as Ht by (by apply number_updated).
  assert (number_field p "start" = Ok (base + s - origin)%Q) as Hps by (by apply number_updated).
  assert (number_field p "end" = Ok (base + s - origin + (e - s))%Q) as Hpe by (by apply number_updated).
  split.
  - exists (base + s)%Q, (base + s - origin)%Q, (base + s - origin + (e - s))%Q. cbn [u_from u_to u_text u_id].
    split_and!; try done; [ring|unfold p; by doc_simpl|unfold p; by doc_simpl].
  - exists (base + s)%Q, (base + s - origin)%Q. split_and!; done || reflexivity.
Qed.

Lemma stamp_timestamp_says base seg p :
  stamp_timestamp base seg = Ok p -> is_ok (number_field seg "end") = true ->
  exists u, utterance_of base seg u /\ says p u.
Proof.
  unfold stamp_timestamp. intros (s & Hs & <-%ok_inj)%rbind_ok Hok.
  destruct (number_field seg "end") as [e|] eqn:He; [|done].
  exists {| u_from := (base + s)%Q; u_to := (base + e)%Q; u_text := py_get seg "text"; u_id := py_get seg "id" |}.
  split; [exists s, e; by split_and!|]. match goal with |- context [doc_update seg ?ws] => set (p := doc_update seg ws) end.
  assert (number_field p "start" = Ok s) as Hps by (unfold number_field, p; by rewrite lookup_doc_update).
  assert (number_field p "end" = Ok e) as Hpe by (unfold number_field, p; by rewrite lookup_doc_update).
  exists (base + s)%Q, s, e. cbn [u_from u_to u_text u_id].
  split_and!; try done; [by apply number_updated|ring|unfold p; by doc_simpl|unfold p; by doc_simpl].
Qed.

(** ** Deduplication *)

Lemma says_range x u : says x u -> exists a b, _segment_abs_range x = Ok (a, b) /\ (a == u_from u)%Q /\ (b == u_to u)%Q.
Proof.
  intros (t & s & e & Ht & Hs & He & H1 & H2 & _). exists t, (t + (e - s))%Q. split; [|done].
  unfold _segment_abs_range. by rewrite (number_float _ _ _ Ht), (number_float _ _ _ He), (number_float _ _ _ Hs).
Qed.

Lemma in_seen {A} (f : doc -> list A) existing k :
  k ∈ flat_map f existing -> exists y, y ∈ existing /\ k ∈ f y.
Proof.
  intros H. apply list_elem_of_In, in_flat_map in H as (y & Hy & Hk). exists y. split; by apply list_elem_of_In.
Qed.

Lemma clock_key y v k : says y v -> k ∈ abs_of y -> k = range_key (u_from v) (u_to v).
Proof.
  intros Hv Hk. destruct (says_range y v Hv) as (a & b & Hr & Ha & Hb). unfold abs_of in Hk. rewrite Hr in Hk.
  apply list_elem_of_singleton in Hk as ->. by apply range_key_comp.
Qed.

Lemma timeline_key origin y v k :
  says y v -> relative_to origin y -> k ∈ rel_of y -> k = range_key (u_from v - origin) (u_to v - origin).
Proof.
  intros (t & s & e & Ht & Hs & He & H1 & H2 & _) (t' & s' & Ht' & Hs' & Hrel) Hk.
  assert (t' = t) as -> by congruence. assert (s' = s) as -> by congruence.
  unfold rel_of in Hk. rewrite (number_float _ _ _ Hs), (number_float _ _ _ He) in Hk.
  apply list_elem_of_singleton in Hk as ->. apply range_key_comp; [by rewrite Hrel, H1|].
  rewrite <- H2, Hrel. ring.
Qed.

Lemma words_key y v x : says y v -> x ∈ text_of y ->
  _normalize_merge_segment_text (u_text v) = Ok (entry_text x) /\ entry_text x <> "" /\ (entry_abs_start x == u_from v)%Q.
Proof.
  intros Hv Hx. destruct (says_range y v Hv) as (a & b & Hr & Ha & _).
  destruct Hv as (_ & _ & _ & _ & _ & _ & _ & _ & Htext & _). unfold text_of in Hx. rewrite Hr, Htext in Hx.
  destruct (_normalize_merge_segment_text (u_text v)) as [w|]; [|by apply not_elem_of_nil in Hx].
  destruct (String.eqb_spec w ""); [by apply not_elem_of_nil in Hx|].
  apply list_elem_of_singleton in Hx as ->. by split_and!.
Qed.

Lemma Qabs_diff_comp a b a' b' : (a == a')%Q -> (b == b')%Q -> (Qabs_diff a b == Qabs_diff a' b')%Q.
Proof.
  intros Ha Hb. unfold Qabs_diff. assert (Qle_bool a b = Qle_bool a' b') as ->.
  { apply eq_iff_eq_true. rewrite !Qle_bool_iff. by rewrite Ha, Hb. }
  destruct (Qle_bool a' b'); by rewrite Ha, Hb.
Qed.

(** What a merge has so far: every segment says something and is placed. *)
Definition on_timeline (origin : Q) (existing : list doc) : Prop :=
  Forall (fun y => (exists v, says y v) /\ relative_to origin y) existing.

Definition represented_in (origin slop : Q) (u : utterance) (existing : list doc) : Prop :=
  exists y v, y ∈ existing /\ says y v /\ represented origin slop u v.

Lemma dedupe_represents origin existing incoming slop kept x u :
  dedupe_segments_for_merge origin existing incoming slop SLOP_RATIO = Ok kept ->
  on_timeline origin existing -> x ∈ incoming -> says x u ->
  x ∈ kept \/ represented_in origin slop u existing.
Proof.
  intros Hd Hex Hin Hu. destruct (dedupe_is_shrink_only _ _ _ _ _ _ Hd) as [_ Hall].
  destruct (says_range x u Hu) as (a & b & Hr & Ha & Hb).
  destruct (Hall x Hin) as [?|[Hp|Hrep]]; [by left|right..].
  - unfold placed in Hp. rewrite Hr in Hp. apply orb_true_iff in Hp as [Hp|Hp]; apply bool_decide_eq_true in Hp;
      apply in_seen in Hp as (y & Hy & Hk); destruct (proj1 (Forall_forall _ _) Hex y Hy) as [[v Hv] Hrel];
      exists y, v; (split; [done|split; [done|]]).
    + apply rep_clock. rewrite <- (clock_key _ _ _ Hv Hk). by apply range_key_comp.
    + apply rep_timeline. rewrite <- (timeline_key _ _ _ _ Hv Hrel Hk). apply range_key_comp; by rewrite ?Ha, ?Hb.
  - unfold repeated in Hrep. rewrite Hr in Hrep.
    destruct (_normalize_merge_segment_text (py_get x "text")) as [w|] eqn:Hw; [|done].
    apply andb_true_iff in Hrep as [_ Hm]. apply existsb_exists in Hm as (z & Hz & Hm).
    apply list_elem_of_In, in_seen in Hz as (y & Hy & Hz).
    destruct (proj1 (Forall_forall _ _) Hex y Hy) as [[v Hv] _].
    destruct (words_key y v z Hv Hz) as (Hvw & Hne & Hvs). exists y, v. split; [done|split; [done|]].
    unfold entry_matches in Hm. destruct (String.eqb_spec (entry_text z) w) as [<-|]; [|done]. cbn [negb] in Hm.
    case_match; [done|]. apply (rep_words _ _ _ _ (entry_text z)); [|done|done|].
    + destruct Hu as (_ & _ & _ & _ & _ & _ & _ & _ & Ht & _). by rewrite <- Ht.
    + apply Qle_bool_iff in Hm. by rewrite <- (Qabs_diff_comp _ _ _ _ Ha Hvs).
Qed.

(** ** Numbering changes no speech *)

Lemma update_same_speech d ws :
  Forall (fun kw => kw.1 ∉ ["timestamp"; "start"; "end"; "text"; "id"]) ws -> same_speech (doc_update d ws) d.
Proof.
  intros Hws k Hk. rewrite lookup_doc_update. induction Hws as [|kw ws Hkw _ IH]; [done|]. cbn [foldl].
  destruct (String.eqb_spec k kw.1); [by subst|]. exact IH.
Qed.

Lemma scope_same_speech donor seg : same_speech (scope_to_donor donor seg) seg.
Proof.
  unfold scope_to_donor. case_match; [done|]. apply update_same_speech. repeat constructor. set_solver.
Qed.

Lemma assign_same_speech a seg : same_speech (assign a seg).2 seg.
Proof.
  unfold assign. repeat case_match; try done; apply update_same_speech; repeat constructor; set_solver.
Qed.

Lemma assign_all_same_speech segs : forall a, Forall2 same_speech (assign_all a segs).2 segs.
Proof.
  induction segs as [|s segs IH]; intros a; cbn; [constructor|].
  pose proof (assign_same_speech a s) as Hs. destruct (assign a s) as [a1 s1].
  specialize (IH a1). destruct (assign_all a1 segs) as [a2 more]. by constructor.
Qed.

(** ** The merge *)

Lemma map_segments_inv f segs : forall out, map_segments f segs = Ok out -> Forall2 (fun seg p => f seg = Ok p) segs out.
Proof.
  induction segs as [|seg segs IH]; cbn; intros out H; [by injection H as <-|].
  apply rbind_ok in H as (p & Hp & H). apply rbind_ok in H as (rest & Hr & H). apply ok_inj in H as <-. constructor; auto.
Qed.

Lemma Forall2_in_l {A B} (R : A -> B -> Prop) l k x : Forall2 R l k -> x ∈ l -> exists y, y ∈ k /\ R x y.
Proof.
  intros H [i Hi]%list_elem_of_lookup. destruct (Forall2_lookup_l _ _ _ _ _ H Hi) as (y & Hy & HR).
  exists y. split; [by eapply list_elem_of_lookup_2|done].
Qed.

Lemma Forall2_in_r {A B} (R : A -> B -> Prop) l k y : Forall2 R l k -> y ∈ k -> exists x, x ∈ l /\ R x y.
Proof. intros H%Forall2_flip Hy. by apply (Forall2_in_l _ _ _ _ H). Qed.

(** Every segment of [sources], placed at [base], is represented in [out]; and
    what is new in [out] was said by one of them. *)
Definition speech_moved (origin slop base : Q) (sources old out : list doc) : Prop :=
  (forall seg, seg ∈ sources -> exists u, utterance_of base seg u /\ represented_in origin slop u out) /\
  (forall y, y ∈ old -> y ∈ out) /\
  (forall y, y ∈ out -> y ∈ old \/ exists seg u, seg ∈ sources /\ utterance_of base seg u /\ says y u).

Lemma represented_in_mono origin slop u l k :
  (forall y, y ∈ l -> y ∈ k) -> represented_in origin slop u l -> represented_in origin slop u k.
Proof. intros H (y & v & Hy & ?). exists y, v. auto. Qed.

(** The segments kept by a deduplication, after numbering. *)
Lemma kept_speech origin slop base sources existing placed_segs kept numbered :
  on_timeline origin existing ->
  Forall2 (fun seg p => exists u, utterance_of base seg u /\ says p u) sources placed_segs ->
  dedupe_segments_for_merge origin existing placed_segs slop SLOP_RATIO = Ok kept ->
  Forall2 same_speech numbered kept ->
  speech_moved origin slop base sources existing (existing ++ numbered).
Proof.
  intros Hex Hp Hd Hn. split_and!.
  - intros seg Hseg. destruct (Forall2_in_l _ _ _ _ Hp Hseg) as (p & Hpin & u & Hu & Hpu). exists u. split; [done|].
    destruct (dedupe_represents _ _ _ _ _ p u Hd Hex Hpin Hpu) as [Hk|Hr].
    + destruct (Forall2_in_r _ _ _ _ Hn Hk) as (y & Hy & Hyp). exists y, u.
      split; [apply elem_of_app; by right|]. split; [by eapply same_speech_says|by apply rep_same].
    + eapply represented_in_mono; [|exact Hr]. intros y Hy. apply elem_of_app. by left.
  - intros y Hy. apply elem_of_app. by left.
  - intros y [Hy|Hy]%elem_of_app; [by left|right]. destruct (Forall2_in_l _ _ _ _ Hn Hy) as (p & Hk & Hyp).
    destruct (dedupe_is_shrink_only _ _ _ _ _ _ Hd) as [Hsub _].
    assert (p ∈ placed_segs) as Hpin by (by eapply elem_of_sublist).
    destruct (Forall2_in_r _ _ _ _ Hp Hpin) as (seg & Hseg & u & Hu & Hpu). exists seg, u.
    split_and!; [done|done|by eapply same_speech_says].
Qed.

Lemma merge_row_speech origin c existing a row existing' a' :
  on_timeline origin existing -> merge_row origin c (existing, a) row = Ok (existing', a') ->
  on_timeline origin existing' /\
  speech_moved origin 0 (timestamp (started_at row)) (body_segments (body row)) existing existing'.
Proof.
  intros Hex H. unfold merge_row in H. apply rbind_ok in H as (placed_segs & Hp & H).
  apply rbind_ok in H as (kept & Hd & H). apply map_segments_inv in Hp.
  assert (Forall2 (fun seg p => exists u, utterance_of (timestamp (started_at row)) seg u /\ says p u)
            (body_segments (body row)) placed_segs) as Hsays.
  { eapply Forall2_impl; [exact Hp|]. intros seg p H0. destruct (place_segment_says _ _ _ _ H0) as (u & ? & ? & _). by exists u. }
  assert (exists numbered, existing' = existing ++ numbered /\ Forall2 same_speech numbered kept) as (numbered & -> & Hn).
  { destruct (String.eqb (row_id row) c); [apply ok_pair in H as [<- _]; exists kept; split; [done|]|].
    - clear. induction kept; by constructor.
    - pose proof (assign_all_same_speech (scope_to_donor (row_id row) <$> kept) a) as Hall.
      destruct (assign_all a _) as [a2 numbered]. apply ok_pair in H as [<- _]. exists numbered. split; [done|].
      cbn in Hall. revert numbered Hall. clear. induction kept as [|k kept IH]; intros numbered Hall.
      + by inversion Hall.
      + inversion Hall as [|x y l1 l2 Hxy Hl]; subst. constructor; [|auto]. intros f Hf.
        rewrite Hxy by done. by apply scope_same_speech. }
  split; [|by eapply kept_speech].
  apply Forall_app. split; [done|]. apply Forall_forall. intros y Hy.
  destruct (Forall2_in_l _ _ _ _ Hn Hy) as (p & Hk & Hyp).
  destruct (dedupe_is_shrink_only _ _ _ _ _ _ Hd) as [Hsub _].
  assert (p ∈ placed_segs) as Hpin by (by eapply elem_of_sublist).
  destruct (Forall2_in_r _ _ _ _ Hp Hpin) as (seg & Hseg & H0).
  destruct (place_segment_says _ _ _ _ H0) as (u & _ & Hu & Hrel).
  split; [exists u; by eapply same_speech_says|by eapply same_speech_relative].
Qed.

Lemma merge_rows_speech origin c rows : forall existing a existing' a',
  on_timeline origin existing -> merge_rows origin c (existing, a) rows = Ok (existing', a') ->
  on_timeline origin existing' /\ (forall y, y ∈ existing -> y ∈ existing') /\
  (forall row seg, row ∈ rows -> seg ∈ body_segments (body row) ->
     exists u, utterance_of (timestamp (started_at row)) seg u /\ represented_in origin 0 u existing') /\
  (forall y, y ∈ existing' -> y ∈ existing \/ exists row seg u, row ∈ rows /\ seg ∈ body_segments (body row) /\
     utterance_of (timestamp (started_at row)) seg u /\ says y u).
Proof.
  induction rows as [|row rows IH]; intros existing a existing' a' Hex H; cbn [merge_rows] in H.
  - apply ok_pair in H as [<- _]. split_and!; [done|done|set_solver|by left].
  - apply rbind_ok in H as ([existing1 a1] & H1 & H2).
    destruct (merge_row_speech _ _ _ _ _ _ _ Hex H1) as (Hex1 & Hrep1 & Hold1 & Hnew1).
    destruct (IH _ _ _ _ Hex1 H2) as (Hex2 & Hold2 & Hrep2 & Hnew2). split_and!; [done|auto| |].
    + intros row' seg [->|Hrow]%elem_of_cons Hseg; [|by eapply Hrep2].
      destruct (Hrep1 seg Hseg) as (u & Hu & Hr). exists u. split; [done|]. by eapply represented_in_mono.
    + intros y [Hy|(row' & seg & u & ? & ?)]%Hnew2.
      * destruct (Hnew1 y Hy) as [?|(seg & u & ? & ? & ?)]; [by left|]. right. exists row, seg, u.
        split_and!; [by left|done..].
      * right. exists row', seg, u. split; [by right|done].
Qed.

Lemma settle_utterance origin y z u : settle_segment origin y = Ok z -> says y u -> utterance_of origin z u.
Proof.
  unfold settle_segment. intros (s & Hs & H)%rbind_ok (t0 & s0 & e0 & Ht0 & Hs0 & He0 & H1 & H2 & H3 & H4).
  apply rbind_ok in H as (e & He & H). apply rbind_ok in H as (t & Ht & H). apply ok_inj in H as <-.
  assert (t0 = t) as -> by congruence. assert (s0 = s) as -> by congruence. assert (e0 = e) as -> by congruence.
  exists (t - origin)%Q, (t - origin + (e - s))%Q. split_and!.
  - by apply number_updated.
  - by apply number_updated.
  - rewrite <- H1. ring.
  - rewrite <- H2. ring.
  - rewrite <- H3. by doc_simpl.
  - rewrite <- H4. by doc_simpl.
Qed.

Lemma same_speech_utterance base x y u : same_speech x y -> utterance_of base y u -> utterance_of base x u.
Proof.
  intros H (s & e & Hs & He & H1 & H2 & H3 & H4). exists s, e.
  rewrite !(same_speech_number x y) by (done || set_solver). unfold py_get in *. rewrite !(H _) by set_solver. by split_and!.
Qed.

Lemma apply_one_speech r seg : same_speech (apply_one r seg) seg.
Proof.
  unfold apply_one. repeat case_match; try done. apply update_same_speech. repeat constructor; set_solver.
Qed.

Definition numeric (seg : doc) : Prop := is_ok (number_field seg "end") = true.

(** The speech of the survivor, before the receipt is applied. *)
Lemma merged_speech_conserved incoming c records origin slop known segs survivors :
  merged_speech incoming c records origin slop known = Ok (segs, survivors) ->
  Forall numeric (body_segments (body incoming)) ->
  (forall seg, seg ∈ body_segments (body incoming) ->
     exists u v z, utterance_of (timestamp (started_at incoming)) seg u /\ z ∈ segs /\ utterance_of origin z v /\
       represented origin slop u v) /\
  (forall row seg, row ∈ records -> seg ∈ body_segments (body row) ->
     exists u v z, utterance_of (timestamp (started_at row)) seg u /\ z ∈ segs /\ utterance_of origin z v /\
       represented origin 0 u v) /\
  (forall z, z ∈ segs -> exists u, utterance_of origin z u /\ exists (row : Row Body) seg,
     (row = incoming \/ row ∈ records) /\ seg ∈ body_segments (body row) /\
     utterance_of (timestamp (started_at row)) seg u).
Proof.
  unfold merged_speech. intros H Hnum. apply rbind_ok in H as ([existing a1] & Hm & H).
  apply rbind_ok in H as (fresh & Hfresh & H). apply rbind_ok in H as (kept & Hd & H).
  pose proof (assign_all_same_speech kept a1) as Hn. destruct (assign_all a1 kept) as [a2 numbered]. cbn [snd] in Hn.
  apply rbind_ok in H as (settled & Hset & H). apply ok_pair in H as [<- <-].
  destruct (merge_rows_speech origin c (canonical_first c records) [] (hydrate new_allocator known) existing a1)
    as (Hex & _ & Hrep & Hnew); [constructor|exact Hm|].
  apply map_segments_inv in Hfresh, Hset.
  assert (Forall2 (fun seg p => exists u, utterance_of (timestamp (started_at incoming)) seg u /\ says p u)
            (body_segments (body incoming)) fresh) as Hsays.
  { clear -Hfresh Hnum. revert Hnum. induction Hfresh as [|seg p segs ps Hp _ IH]; [constructor|].
    intros [Hn Hnum]%Forall_cons. constructor; [by eapply stamp_timestamp_says|auto]. }
  destruct (kept_speech _ _ _ _ _ _ _ _ Hex Hsays Hd Hn) as (Hin & Hold & Hout).
  assert (forall y u, y ∈ existing ++ numbered -> says y u -> exists z, z ∈ settled /\ utterance_of origin z u) as Hfin.
  { intros y u Hy Hu. rewrite <- (merge_sort_Permutation timeline_order) in Hy.
    destruct (Forall2_in_l _ _ _ _ Hset Hy) as (z & Hz & Hyz). exists z. split; [done|by eapply settle_utterance]. }
  assert (forall row : Row Body, row ∈ canonical_first c records <-> row ∈ records) as Hrec.
  { intros row. unfold canonical_first. rewrite elem_of_app, !list_elem_of_filter. destruct (String.eqb (row_id row) c); naive_solver. }
  split_and!.
  - intros seg Hseg. destruct (Hin seg Hseg) as (u & Hu & y & v & Hy & Hv & Hr).
    destruct (Hfin y v Hy Hv) as (z & Hz & Hzv). by exists u, v, z.
  - intros row seg Hrow Hseg. destruct (Hrep row seg (proj2 (Hrec row) Hrow) Hseg) as (u & Hu & y & v & Hy & Hv & Hr).
    destruct (Hfin y v (Hold y Hy) Hv) as (z & Hz & Hzv). by exists u, v, z.
  - intros z Hz. destruct (Forall2_in_r _ _ _ _ Hset Hz) as (y & Hy & Hyz). rewrite merge_sort_Permutation in Hy.
    destruct (Hout y Hy) as [Hy'|(seg & u & Hseg & Hu & Hyu)].
    + destruct (Hnew y Hy') as [[]%not_elem_of_nil|(row & seg & u & Hrow & Hseg & Hu & Hyu)].
      exists u. split; [by eapply settle_utterance|]. exists row, seg. split_and!; [right; by apply Hrec|done..].
    + exists u. split; [by eapply settle_utterance|]. exists incoming, seg. split_and!; [by left|done..].
Qed.

Section Speech.
Context {blob : Type} (decode : blob -> result pyexc Body) (encode : string -> Body -> blob)
  (holds_receipt : blob -> bool) (deterministic_relevance : list pyval -> Q -> option string * string)
  (projection_fields : list string).

Local Abbreviation assign := (assign_in_transaction decode encode holds_receipt deterministic_relevance projection_fields).

(** The utterance [u] is represented in a row: among its segments, at the time
    the row gives them. *)
Definition heard_in (slop : Q) (u : utterance) (row : Row Body) : Prop :=
  exists z v, z ∈ body_segments (body row) /\ utterance_of (timestamp (started_at row)) z v /\
    represented (timestamp (started_at row)) slop u v.

(** A row that the transaction put into the survivor: the survivor's own, or one
    it absorbed. *)
Definition gathered (store store' : Store blob) (result : Row Body) (created : bool) (cid : string) : Prop :=
  if String.eqb cid (row_id result) then created = false
  else conversations store' !! cid <> conversations store !! cid.

Lemma gathered_matched store incoming target_id a s records segs survivors store' result created cid r :
  assignment decode encode holds_receipt deterministic_relevance projection_fields
    store incoming target_id a s records segs survivors store' result ->
  created = bool_decide (matched s !! row_id result = None) ->
  gathered store store' result created cid -> conversations store !! cid = Some r -> matched s !! cid = Some r.
Proof.
  intros Has -> Hg Hr. pose proof (as_search _ _ _ _ _ _ _ _ _ _ _ _ _ _ _ Has) as Hs.
  assert (is_Some (matched s !! cid)) as [r' Hm].
  { unfold gathered in Hg. destruct (String.eqb_spec cid (row_id result)) as [->|Hne].
    - apply bool_decide_eq_false in Hg. by apply not_eq_None_Some in Hg.
    - rewrite (as_rows _ _ _ _ _ _ _ _ _ _ _ _ _ _ _ Has), lookup_write_rows, bool_decide_false in Hg by done.
      destruct (matched s !! cid); [by eexists|done]. }
  pose proof (lookup_weaken _ _ _ _ Hm (so_rows _ _ _ _ _ Hs)). congruence.
Qed.

Lemma represented_mono origin slop slop' u v :
  represented origin slop u v -> (slop <= slop')%Q -> represented origin slop' u v.
Proof.
  intros [H1 H2 H3 H4|H|H|w H1 H2 H3 H4] Hle; [by apply rep_same|by apply rep_clock|by apply rep_timeline|].
  apply (rep_words _ _ _ _ w); [done..|by eapply Qle_trans].
Qed.

Lemma slop_bound (rows : gmap string (Row blob)) incoming target_id a :
  admitted rows incoming target_id a ->
  (match target a with
   | Some (_, t) => if has t "sync_content_revision" then 0%Q else _MERGE_TEXT_DUP_SLOP_SECONDS
   | None => 0%Q end <= match target_id with None => 0%Q | Some _ => _MERGE_TEXT_DUP_SLOP_SECONDS end)%Q.
Proof.
  intros Ha. destruct (target a) as [[t row]|] eqn:Ht.
  - destruct (ad_target _ _ _ _ Ha t row Ht) as [-> _]. by destruct (has row _).
  - by destruct target_id.
Qed.

(** C3: no speech is lost, moved or invented.  After a successful assignment every
    segment of the incoming chunk, and every segment of every row gathered into
    the survivor, is in the survivor's transcript at the absolute time it was
    spoken, with its words and id; or that place, to the hundredth of a second,
    is taken by another segment, or its words are already there at the same
    time.  Only when the chunk goes to a live target may words within ten
    minutes stand for it.  Conversely every segment of the survivor is one of
    those, at the time it was spoken. *)
Theorem speech_is_conserved store incoming candidate_id target_id store' result created survivors :
  assign store incoming candidate_id target_id = Ok (store', result, created, survivors) ->
  Forall numeric (body_segments (body incoming)) ->
  (forall seg, seg ∈ body_segments (body incoming) ->
     exists u, utterance_of (timestamp (started_at incoming)) seg u /\
       heard_in (match target_id with None => 0%Q | Some _ => _MERGE_TEXT_DUP_SLOP_SECONDS end) u result) /\
  (forall cid r b seg, conversations store !! cid = Some r -> gathered store store' result created cid ->
     decode (body r) = Ok b -> seg ∈ body_segments b ->
     exists u, utterance_of (timestamp (started_at r)) seg u /\ heard_in 0 u result) /\
  (forall z, z ∈ body_segments (body result) ->
     exists u, utterance_of (timestamp (started_at result)) z u /\
       ((exists seg, seg ∈ body_segments (body incoming) /\ utterance_of (timestamp (started_at incoming)) seg u) \/
        exists cid r b seg, conversations store !! cid = Some r /\ decode (body r) = Ok b /\ seg ∈ body_segments b /\
          utterance_of (timestamp (started_at r)) seg u)).
Proof.
  intros H Hnum. apply assign_inv in H as (a & s & records & segs & Has & Hcreated).
  pose proof (as_speech _ _ _ _ _ _ _ _ _ _ _ _ _ _ _ Has) as Hsp. cbn zeta in Hsp.
  apply merged_speech_conserved in Hsp as (Hin & Hrows & Hout); [|done].
  assert (started_at result = extent_start s /\ exists rc, body_segments (body result) = apply_one rc <$> segs)
    as [Hst [rc Hsegs]].
  { rewrite (as_result _ _ _ _ _ _ _ _ _ _ _ _ _ _ _ Has). cbn. split; [done|]. eexists. apply apply_all. }
  assert (forall slop u v z, z ∈ segs -> utterance_of (timestamp (extent_start s)) z v ->
            represented (timestamp (extent_start s)) slop u v -> heard_in slop u result) as Hheard.
  { intros slop u v z Hz Hv Hr. unfold heard_in. rewrite Hst, Hsegs. exists (apply_one rc z), v. split_and!; [|..|done].
    - by apply list_elem_of_fmap_2.
    - by eapply same_speech_utterance; [apply apply_one_speech|]. }
  split_and!.
  - intros seg Hseg. destruct (Hin seg Hseg) as (u & v & z & Hu & Hz & Hv & Hr). exists u. split; [done|].
    apply (Hheard _ u v z Hz Hv). eapply represented_mono; [exact Hr|].
    by eapply slop_bound, as_admitted.
  - intros cid r b seg Hr Hg Hb Hseg. pose proof (gathered_matched _ _ _ _ _ _ _ _ _ _ _ _ _ Has Hcreated Hg Hr) as Hm.
    destruct (record_of _ _ _ _ _ (as_records _ _ _ _ _ _ _ _ _ _ _ _ _ _ _ Has) Hm) as (d & Hd & Hdec & _ & Hds & _).
    assert (b = body d) as -> by congruence.
    destruct (Hrows d seg Hd Hseg) as (u & v & z & Hu & Hz & Hv & Hrep). exists u. split; [by rewrite <- Hds|]. eauto.
  - intros z0 Hz0. rewrite Hsegs in Hz0. apply list_elem_of_fmap in Hz0 as (z & -> & Hz).
    destruct (Hout z Hz) as (u & Hu & row & seg & Hrow & Hseg & Hus). exists u. rewrite Hst.
    split; [by eapply same_speech_utterance; [apply apply_one_speech|]|].
    destruct Hrow as [->|Hrow]; [left; eauto|right].
    destruct (record_from _ _ _ _ (as_records _ _ _ _ _ _ _ _ _ _ _ _ _ _ _ Has) Hrow) as (cid & r & Hm & Hdec & _ & Hds & _).
    exists cid, r, (body row), seg. rewrite <- Hds. split_and!; try done.
    eapply lookup_weaken; [exact Hm|]. eapply so_rows, as_search, Has.
Qed.
End Speech.
