(* ===== verification/SyncFind.v ===== *)
(** What an assignment finds: the index of intervals after a write, and the
    search that closes under it. *)
From stdpp Require Import sorting.
From S2P Require Export SyncLineage.

(** ** Reading the index *)

Definition index_entries (idx : AssignmentIndex) : list Entry := recent_entries idx ++ concat (buckets idx).*2.

Lemma fold_rows_lookup (l : list Entry) cid e : forall m : gmap string Entry,
  foldl (fun m (e : Entry) => <[row_id e := e]> m) m l !! cid = Some e -> (e ∈ l /\ row_id e = cid) \/ m !! cid = Some e.
Proof.
  induction l as [|x l IH]; intros m; cbn [foldl]; [by right|].
  intros [[? ?]|[[<- <-]|[_ ?]]%lookup_insert_Some]%IH; [by left; split; [right|]|left; split; [left|done]|by right].
Qed.

Lemma fold_rows_has (l : list Entry) cid : forall m : gmap string Entry,
  is_Some (m !! cid) \/ (exists e, e ∈ l /\ row_id e = cid) ->
  is_Some (foldl (fun m (e : Entry) => <[row_id e := e]> m) m l !! cid).
Proof.
  induction l as [|x l IH]; intros m H; cbn [foldl]; [by destruct H as [|(? & []%not_elem_of_nil & _)]|].
  apply IH. rewrite lookup_insert_is_Some'. destruct H as [?|(e & [->|He]%elem_of_cons & Hid)]; eauto.
Qed.

Lemma index_rows_lookup idx cid e : index_rows idx !! cid = Some e -> e ∈ index_entries idx /\ row_id e = cid.
Proof. intros [?|H]%fold_rows_lookup; [done|by rewrite lookup_empty in H]. Qed.

Lemma index_rows_has idx e : e ∈ index_entries idx -> exists e', index_rows idx !! row_id e = Some e'.
Proof. intros He. apply fold_rows_has. right. by exists e. Qed.

(** The days an index has loaded, and that it has loaded them from [store]. *)
Definition loaded (idx : AssignmentIndex) : list Z := (buckets idx).*1.

Record index_ok {blob} (store : Store blob) (idx : AssignmentIndex) : Prop := {
  io_recent : recent_entries idx = recent store;
  io_distinct : NoDup (loaded idx);
  io_buckets : forall d l, (d, l) ∈ buckets idx -> l = default [] (days store !! d);
}.

Lemma in_bucket {blob} (store : Store blob) idx d e :
  index_ok store idx -> d ∈ loaded idx -> e ∈ default [] (days store !! d) -> e ∈ index_entries idx.
Proof.
  intros Hok [[d' l] [-> Hb]]%list_elem_of_fmap He. cbn [fst] in He. apply elem_of_app. right.
  rewrite <- (io_buckets _ _ Hok _ _ Hb) in He. apply list_elem_of_In, in_concat. exists l.
  split; apply list_elem_of_In; [|done]. apply list_elem_of_fmap. by exists (d', l).
Qed.

Lemma entry_source {blob} (store : Store blob) idx e :
  index_ok store idx -> e ∈ index_entries idx ->
  e ∈ recent store \/ exists d, d ∈ loaded idx /\ e ∈ default [] (days store !! d).
Proof.
  intros Hok [He|He]%elem_of_app; [left; by rewrite <- (io_recent _ _ Hok)|right].
  apply list_elem_of_In, in_concat in He as (l & Hl & He). apply list_elem_of_In, list_elem_of_fmap in Hl as ([d l'] & -> & Hb).
  exists d. split; [apply list_elem_of_fmap; by exists (d, l')|]. rewrite <- (io_buckets _ _ Hok _ _ Hb). by apply list_elem_of_In.
Qed.

Lemma index_read_ok {blob B} (store : Store blob) (interval : Row B) idx :
  index_ok store idx ->
  index_ok store (index_read (days store) idx interval) /\
  forall d, d ∈ loaded (index_read (days store) idx interval) <-> d ∈ loaded idx \/ d ∈ days_for interval true.
Proof.
  unfold index_read. generalize (days_for interval true) as ds. intros ds. revert idx.
  induction ds as [|x ds IH]; intros idx Hok; cbn [foldl]; [split; [done|set_solver]|].
  assert (index_ok store (index_load (days store) idx x) /\
          forall d, d ∈ loaded (index_load (days store) idx x) <-> d ∈ loaded idx \/ d = x) as [H1 H2].
  { unfold index_load. case_bool_decide as Hx; [split; [done|]; unfold loaded; intros d; naive_solver|].
    destruct Hok as [Hr Hd Hb]. split; [split; cbn [recent_entries buckets]|].
    - done.
    - unfold loaded. cbn [buckets]. rewrite fmap_app. apply NoDup_app. split_and!; [done| |apply NoDup_singleton].
      intros d Hd' ->%list_elem_of_singleton. by apply Hx.
    - intros d l [H|[= -> ->]%list_elem_of_singleton]%elem_of_app; [by apply Hb|done].
    - intros d. unfold loaded. cbn [buckets]. rewrite fmap_app, elem_of_app. cbn. by rewrite list_elem_of_singleton. }
  destruct (IH _ H1) as [H3 H4]. split; [done|]. intros d. rewrite H4, H2, elem_of_cons. naive_solver.
Qed.

Lemma index_read_again {blob B} (store : Store blob) (interval : Row B) idx :
  (forall d, d ∈ days_for interval true -> d ∈ loaded idx) -> index_read (days store) idx interval = idx.
Proof.
  unfold index_read. generalize (days_for interval true) as ds. induction ds as [|x ds IH]; intros Hl; [done|].
  cbn [foldl]. unfold index_load at 2. rewrite bool_decide_true by (apply Hl; left). apply IH. intros d Hd. apply Hl. by right.
Qed.

(** ** Days *)

Lemma elem_of_days a b d : d ∈ days_between a b <-> a <= d <= b.
Proof.
  unfold days_between. rewrite list_elem_of_fmap. setoid_rewrite elem_of_seq. split.
  - intros (i & -> & Hi). lia.
  - intros H. exists (Z.to_nat (d - a)). lia.
Qed.

Lemma days_for_mono {B C} (small : Row B) (large : Row C) d :
  started_at large <= started_at small -> finished_at small <= finished_at large ->
  d ∈ days_for small true -> d ∈ days_for large true.
Proof.
  unfold days_for. rewrite !elem_of_days. intros H1 H2 [H3 H4].
  assert ((started_at large - GAP) / DAY <= (started_at small - GAP) / DAY) by (apply Z.div_le_mono; unfold DAY; lia).
  assert ((finished_at small + GAP) / DAY <= (finished_at large + GAP) / DAY) by (apply Z.div_le_mono; unfold DAY; lia). lia.
Qed.

(** ** Writing the index *)

Lemma elem_of_without replaced rows e : e ∈ without_ids replaced rows <-> row_id e ∉ replaced /\ e ∈ rows.
Proof. unfold without_ids. by rewrite list_elem_of_filter. Qed.

(** The buckets of distinct days are written one by one. *)
Lemma fold_days_lookup (f : Z -> list Entry -> list Entry) bs d : forall m : gmap Z (list Entry),
  NoDup bs.*1 ->
  foldl (fun m (p : Z * list Entry) => <[p.1 := f p.1 p.2]> m) m bs !! d =
    match list_find (fun p : Z * list Entry => p.1 = d) bs with
    | Some (_, p) => Some (f p.1 p.2)
    | None => m !! d
    end.
Proof.
  induction bs as [|[x l] bs IH]; intros m Hnd; [done|]. cbn [foldl fst snd].
  apply NoDup_cons in Hnd as [Hx Hnd]. rewrite IH by done. cbn [list_find fst]. case_decide as Hd; [subst x|].
  - assert (list_find (fun p : Z * list Entry => p.1 = d) bs = None) as ->; [|apply lookup_insert_eq].
    apply list_find_None, Forall_forall. intros p Hp Heq. apply Hx. apply list_elem_of_fmap. exists p. by rewrite Heq.
  - destruct (list_find _ bs) as [[i p]|]; cbn; [done|]. by apply lookup_insert_ne.
Qed.

Lemma index_write_bucket {blob B} (store : Store blob) idx (result : Row B) replaced d e :
  index_ok store idx -> d ∈ loaded idx ->
  e ∈ default [] ((index_write (days store) idx result replaced).1 !! d) ->
  e = entry_for result \/ (row_id e ∉ replaced /\ e ∈ default [] (days store !! d)).
Proof.
  intros Hok Hd. unfold index_write. cbn zeta. cbn [fst].
  pose proof (fold_days_lookup (fun day l => merge_sort id_order (without_ids replaced l ++
             (if bool_decide (day ∈ days_for result false) then [entry_for result] else []))) (buckets idx) d (days store) (io_distinct _ _ Hok)) as Hl.
  cbn beta in Hl. rewrite Hl. clear Hl.
  destruct (list_find _ (buckets idx)) as [[i [x l]]|] eqn:Hf.
  - apply list_find_Some in Hf as (Hi & Hx & _). cbn [fst snd] in *. subst x.
    apply list_elem_of_lookup_2 in Hi. rewrite <- (io_buckets _ _ Hok _ _ Hi). cbn.
    intros He. rewrite merge_sort_Permutation in He. apply elem_of_app in He as [He|He]; [right; by apply elem_of_without|left].
    case_bool_decide; [by apply list_elem_of_singleton in He|by apply not_elem_of_nil in He].
  - apply list_find_None in Hf. apply list_elem_of_fmap in Hd as (p & -> & Hp). by destruct (proj1 (Forall_forall _ _) Hf p Hp).
Qed.

Lemma elem_of_drop {A} (l : list A) n x : x ∈ drop n l -> x ∈ l.
Proof. intros H. rewrite <- (take_drop n l). apply elem_of_app. by right. Qed.

Lemma index_write_recent {blob B} (store : Store blob) idx (result : Row B) replaced :
  index_ok store idx ->
  let recent' := (index_write (days store) idx result replaced).2 in
  entry_for result ∈ recent' /\
  forall e, e ∈ recent' -> e = entry_for result \/ (row_id e ∉ replaced /\ e ∈ recent store).
Proof.
  intros Hok. cbn. rewrite (io_recent _ _ Hok). set (kept := without_ids replaced (recent store)). split.
  - rewrite length_app. cbn [length]. rewrite drop_app_le by lia. apply elem_of_app. right. by apply list_elem_of_singleton.
  - intros e [He|?%list_elem_of_singleton]%elem_of_drop%elem_of_app; [right|by left]. by apply elem_of_without.
Qed.

(** ** The search closes *)

Section Search.
Context {blob : Type} (holds_receipt : blob -> bool).

Local Abbreviation Raw := (Row blob).
Local Abbreviation Rows := (gmap string Raw).
Local Abbreviation search_round := (search_round holds_receipt).
Local Abbreviation search := (search holds_receipt).

Implicit Types (rows : Rows) (incoming : Row Body) (s : Search (blob := blob)) (hints : list (option string)).

(** No row of the store carries a receipt. *)
Definition unlabelled rows : Prop := forall cid r, rows !! cid = Some r -> has_receipt holds_receipt r = false.

Lemma elem_of_round_ids hints incoming s idx cid :
  cid ∈ round_ids hints incoming s idx <->
    matched s !! cid = None /\
    ((exists e, index_rows idx !! cid = Some e /\ interval_matches e (extent incoming s) = true) \/
     exists h, h ∈ hints /\ nonempty_id h = Some cid).
Proof.
  unfold round_ids. rewrite merge_sort_Permutation, elem_of_elements, elem_of_difference, elem_of_union, not_elem_of_dom.
  rewrite elem_of_dom, elem_of_list_to_set, list_elem_of_omap.
  assert (is_Some (base.filter (fun kv : string * Entry => interval_matches kv.2 (extent incoming s) = true) (index_rows idx) !! cid) <->
          exists e, index_rows idx !! cid = Some e /\ interval_matches e (extent incoming s) = true) as ->.
  { split.
    - intros [e [? ?]%map_lookup_filter_Some]. by exists e.
    - intros (e & ? & ?). exists e. by apply map_lookup_filter_Some. }
  naive_solver.
Qed.

Lemma absorb_all_dom (taken : list (string * Raw)) cid : forall s,
  is_Some (matched s !! cid) \/ cid ∈ taken.*1 ->
  is_Some (matched (foldl (fun s p => absorb s p.1 p.2) s taken) !! cid).
Proof.
  induction taken as [|p taken IH]; intros s H; cbn [foldl]; [by destruct H as [|[]%not_elem_of_nil]|].
  apply IH. cbn [absorb matched]. rewrite lookup_insert_is_Some'. cbn in H. rewrite elem_of_cons in H. naive_solver.
Qed.

(** Without receipts a round takes all its candidates. *)
Lemma round_takes store hints incoming tid s :
  unlabelled (conversations store) ->
  let idx := index_read (days store) (SyncAssign.index s) (extent incoming s) in
  search_round store hints incoming tid s =
    foldl (fun s p => absorb s p.1 p.2)
      {| matched := matched s; extent_start := extent_start s; extent_end := extent_end s;
         receipt_owner := receipt_owner s; SyncAssign.index := idx |}
      (omap (candidate (conversations store) incoming s tid) (round_ids hints incoming s idx)).
Proof.
  intros Hun. cbn zeta. unfold SyncAssign.search_round. set (ids := round_ids _ _ _ _). set (cs := omap _ ids).
  assert (forall p, p ∈ cs -> has_receipt holds_receipt p.2 = false) as Hcs.
  { intros p (cid & _ & Hc)%list_elem_of_omap. apply candidate_Some in Hc as (_ & Hr & _). by eapply Hun. }
  assert (owner_after holds_receipt s cs = receipt_owner s) as ->.
  { unfold owner_after. destruct (receipt_owner s); [done|].
    assert (base.filter (fun p => has_receipt holds_receipt p.2 = true) cs = []) as ->; [|done].
    destruct (base.filter _ cs) as [|p l] eqn:E; [done|].
    assert (p ∈ base.filter (fun p => has_receipt holds_receipt p.2 = true) cs) as [Hp Hin]%list_elem_of_filter by (rewrite E; left).
    rewrite Hcs in Hp by done. done. }
  f_equal. clearbody cs. induction cs as [|p cs IH]; [done|]. rewrite filter_cons_True.
  - f_equal. apply IH. intros q Hq. apply Hcs. by right.
  - rewrite Hcs by left. done.
Qed.

(** A state in which nothing more is found. *)
Record closed (store : Store blob) hints incoming (tid : option string) (s : Search) : Prop := {
  cl_index : index_ok store (SyncAssign.index s);
  cl_days : forall d, d ∈ days_for (extent incoming s) true -> d ∈ loaded (SyncAssign.index s);
  cl_found : forall cid, cid ∈ round_ids hints incoming s (SyncAssign.index s) ->
    candidate (conversations store) incoming s tid cid = None;
}.

Lemma last_round store hints incoming tid s :
  unlabelled (conversations store) -> search_ok holds_receipt (conversations store) incoming tid s ->
  index_ok store (SyncAssign.index s) ->
  let s' := search_round store hints incoming tid s in
  index_ok store (SyncAssign.index s') /\ (size (matched s') = size (matched s) -> closed store hints incoming tid s').
Proof.
  intros Hun Hs Hix. cbn zeta. pose proof (search_round_ok holds_receipt store hints incoming tid s Hs) as [_ Hsub].
  rewrite round_takes in * by done. set (idx := index_read _ _ _) in *. set (cs := omap _ _) in *.
  destruct (index_read_ok store (extent incoming s) (SyncAssign.index s) Hix) as [Hok Hdays]. fold idx in Hok, Hdays.
  set (s0 := {| matched := matched s |}) in *.
  assert (forall l s1, SyncAssign.index (foldl (fun s p => absorb s p.1 p.2) s1 l) = SyncAssign.index s1) as Hidx.
  { intros l. induction l as [|p l IH]; intros s1; [done|]. cbn [foldl]. by rewrite IH. }
  rewrite Hidx. split; [done|]. intros Hsize.
  assert (cs = []) as Hnil.
  { destruct cs as [|p cs'] eqn:E; [done|]. exfalso.
    assert (p ∈ cs) as Hp by (rewrite E; left). apply list_elem_of_omap in Hp as (cid & Hcid & Hc).
    apply elem_of_round_ids in Hcid as [Hno _]. apply candidate_Some in Hc as (Hid & _). subst cid.
    apply map_subseteq_size_eq in Hsub; [|lia].
    destruct (absorb_all_dom (p :: cs') p.1 s0) as [r Hr]; [right; cbn; left|]. rewrite <- Hsub in Hr. congruence. }
  rewrite Hnil. cbn [foldl]. split; [done|intros d Hd; apply Hdays; by right|].
  intros cid Hcid. destruct (candidate _ _ _ _ _) as [p|] eqn:Hc; [|done]. exfalso.
  assert (p ∈ cs) as Hp; [|rewrite Hnil in Hp; by apply not_elem_of_nil in Hp].
  apply list_elem_of_omap. by exists cid.
Qed.

Lemma search_closes store hints incoming tid fuel : forall s s',
  unlabelled (conversations store) -> search_ok holds_receipt (conversations store) incoming tid s ->
  index_ok store (SyncAssign.index s) ->
  search fuel store hints incoming tid s = Ok s' -> closed store hints incoming tid s'.
Proof.
  induction fuel as [|fuel IH]; intros s s' Hun Hs Hix; cbn [SyncAssign.search]; [done|].
  destruct (last_round store hints incoming tid s Hun Hs Hix) as [Hix' Hcl].
  destruct (Nat.eqb_spec (size (matched (search_round store hints incoming tid s))) (size (matched s))) as [Heq|_].
  - intros [= <-]. by apply Hcl.
  - apply IH; [done| |done]. by apply search_round_ok.
Qed.

(** ** Finding one row *)

Lemma omap_single {A B} `{EqDecision A} (f : A -> option B) l c x :
  NoDup l -> c ∈ l -> f c = Some x -> (forall y, y ∈ l -> y <> c -> f y = None) -> omap f l = [x].
Proof.
  intros Hnd. induction Hnd as [|y l Hy Hnd IH]; intros Hc Hx Hne; [by apply not_elem_of_nil in Hc|].
  cbn. destruct (decide (y = c)) as [->|Hyc].
  - rewrite Hx. f_equal. assert (forall z, z ∈ l -> f z = None) as Hnone.
    { intros z Hz. apply Hne; [by right|]. by intros ->. }
    clear -Hnone. induction l as [|z l IH]; [done|]. cbn. rewrite (Hnone z) by left. apply IH. intros w Hw. apply Hnone. by right.
  - rewrite (Hne y) by (done || left). apply IH; [by apply elem_of_cons in Hc as [->|?]|done|]. intros z Hz. apply Hne. by right.
Qed.

Lemma round_ids_distinct hints incoming s idx : NoDup (round_ids hints incoming s idx).
Proof. unfold round_ids. rewrite merge_sort_Permutation. apply NoDup_elements. Qed.

(** When in every round within the bounds of the row [c] only [c] is a
    candidate, and it is one at first, the search finds [c] alone. *)
Lemma search_finds_one store hints incoming c (row : Raw) fuel idx owner :
  unlabelled (conversations store) ->
  started_at row <= started_at incoming -> finished_at incoming <= finished_at row ->
  let s0 := {| matched := ∅; extent_start := started_at incoming; extent_end := finished_at incoming;
               receipt_owner := owner; SyncAssign.index := idx |} in
  let s1 := absorb {| matched := ∅; extent_start := started_at incoming; extent_end := finished_at incoming;
                      receipt_owner := owner; SyncAssign.index := index_read (days store) idx (extent incoming s0) |} c row in
  c ∈ round_ids hints incoming s0 (index_read (days store) idx (extent incoming s0)) ->
  candidate (conversations store) incoming s0 None c = Some (c, row) ->
  (forall cid, cid ∈ round_ids hints incoming s0 (index_read (days store) idx (extent incoming s0)) -> cid <> c ->
     candidate (conversations store) incoming s0 None cid = None) ->
  (forall cid, cid ∈ round_ids hints incoming s1 (index_read (days store) (SyncAssign.index s1) (extent incoming s1)) -> cid <> c ->
     candidate (conversations store) incoming s1 None cid = None) ->
  exists s, search (S (S fuel)) store hints incoming None s0 = Ok s /\ matched s = {[c := row]} /\
    extent_start s = started_at row /\ extent_end s = finished_at row /\ receipt_owner s = owner.
Proof.
  intros Hun Hst Hfin s0 s1 Hc Hrow Hother0 Hother1.
  assert (search_round store hints incoming None s0 = s1) as Hr0.
  { rewrite round_takes by done. by rewrite (omap_single _ _ c (c, row)) by (done || apply round_ids_distinct). }
  assert (search_round store hints incoming None s1 =
          {| matched := matched s1; extent_start := extent_start s1; extent_end := extent_end s1; receipt_owner := owner;
             SyncAssign.index := index_read (days store) (SyncAssign.index s1) (extent incoming s1) |}) as Hr1.
  { rewrite round_takes by done.
    assert (omap (candidate (conversations store) incoming s1 None)
              (round_ids hints incoming s1 (index_read (days store) (SyncAssign.index s1) (extent incoming s1))) = []) as ->; [|done].
    destruct (omap _ _) as [|p l] eqn:E; [done|].
    assert (p ∈ omap (candidate (conversations store) incoming s1 None)
              (round_ids hints incoming s1 (index_read (days store) (SyncAssign.index s1) (extent incoming s1)))) as Hp by (rewrite E; left).
    apply list_elem_of_omap in Hp as (cid & Hcid & Hp). rewrite Hother1 in Hp; [done|done|].
    intros ->. apply elem_of_round_ids in Hcid as [Hno _]. unfold s1 in Hno. cbn in Hno. by rewrite lookup_insert_eq in Hno. }
  cbn [SyncAssign.search]. rewrite Hr0. assert (matched s1 = {[c := row]}) as Hm by done.
  assert (size (matched s1) = 1%nat) as Hone by (rewrite Hm; apply map_size_singleton).
  assert (size (matched s0) = 0%nat) as Hzero by apply map_size_empty.
  rewrite Hone, Hzero. cbn [Nat.eqb]. rewrite Hr1. cbn [matched]. rewrite Hone. cbn [Nat.eqb]. eexists. split; [done|]. cbn [matched extent_start extent_end receipt_owner].
  split_and!; [done|unfold s1; cbn; lia|unfold s1; cbn; lia|done].
Qed.
End Search.
