(* ===== verification/SyncAgain.v ===== *)
(** The speech of a retried chunk: merging it again with the row that holds the
    first merge keeps none of its segments. *)
From stdpp Require Import sorting.
From S2P Require Export SyncSpeech.

(** ** Segments that say the same *)

(** What a segment said is said by its stored form, placed again. *)
Lemma place_says origin base seg p u :
  place_segment origin base seg = Ok p -> utterance_of base seg u -> says p u /\ relative_to origin p.
Proof.
  intros Hp (s & e & Hs & He & H1 & H2 & H3 & H4).
  destruct (place_segment_says _ _ _ _ Hp) as (u' & (s' & e' & Hs' & He' & H1' & H2' & H3' & H4') & Hsays & Hrel).
  split; [|done]. assert (s' = s) as -> by congruence. assert (e' = e) as -> by congruence.
  destruct Hsays as (t & x & y & Ht & Hx & Hy & Ha & Hb & Hc & Hd). exists t, x, y.
  split_and!; try done; [by rewrite Ha, <- H1'|by rewrite Hb, <- H2'|congruence|congruence].
Qed.

Lemma rel_key origin y v :
  says y v -> relative_to origin y -> range_key (u_from v - origin) (u_to v - origin) ∈ rel_of y.
Proof.
  intros Hv Hrel. pose proof Hv as (t & s & e & _ & Hs & He & _).
  assert (exists k, k ∈ rel_of y) as [k Hk].
  { unfold rel_of. rewrite (number_float _ _ _ Hs), (number_float _ _ _ He). eexists. by apply list_elem_of_singleton. }
  by rewrite <- (timeline_key _ _ _ _ Hv Hrel Hk).
Qed.

Lemma clock_key_in y v : says y v -> range_key (u_from v) (u_to v) ∈ abs_of y.
Proof.
  intros Hv. destruct (says_range y v Hv) as (a & b & Hr & Ha & Hb). unfold abs_of. rewrite Hr.
  apply list_elem_of_singleton. by apply range_key_comp.
Qed.

Lemma Qmax_comp a b a' b' : (a == a')%Q -> (b == b')%Q -> (Qmax a b == Qmax a' b')%Q.
Proof.
  intros Ha Hb. unfold Qmax. assert (Qle_bool a b = Qle_bool a' b') as ->.
  { apply eq_iff_eq_true. rewrite !Qle_bool_iff. by rewrite Ha, Hb. }
  by destruct (Qle_bool a' b').
Qed.

Lemma entry_matches_comp slop ratio text a d x x' :
  entry_text x = entry_text x' -> (entry_abs_start x == entry_abs_start x')%Q -> (entry_duration x == entry_duration x')%Q ->
  entry_matches slop ratio text a d x = entry_matches slop ratio text a d x'.
Proof.
  intros Ht Ha Hd. unfold entry_matches. rewrite Ht. destruct (negb _); [done|].
  assert (Hle : forall p q r, (p == q)%Q -> Qle_bool p r = Qle_bool q r).
  { intros p q r H. apply eq_iff_eq_true. rewrite !Qle_bool_iff. by rewrite H. }
  assert ((Qabs_diff d (entry_duration x) / Qmax (Qmax d (entry_duration x)) (1 # 1000) ==
           Qabs_diff d (entry_duration x') / Qmax (Qmax d (entry_duration x')) (1 # 1000))%Q) as H1.
  { apply Qdiv_comp; [by apply Qabs_diff_comp|]. apply Qmax_comp; [by apply Qmax_comp|done]. }
  rewrite (Hle _ _ ratio H1). destruct (negb _); [done|]. apply Hle. by apply Qabs_diff_comp.
Qed.

(** The words of a segment that says the same are the same entry. *)
Lemma text_entry_of y p v x :
  says y v -> says p v -> x ∈ text_of y ->
  exists x', x' ∈ text_of p /\ entry_text x = entry_text x' /\ (entry_abs_start x == entry_abs_start x')%Q /\
    (entry_duration x == entry_duration x')%Q.
Proof.
  intros Hy Hp Hx. destruct (says_range y v Hy) as (a & b & Hr & Ha & Hb).
  destruct (says_range p v Hp) as (a' & b' & Hr' & Ha' & Hb').
  assert (py_get y "text" = py_get p "text") as Ht.
  { destruct Hy as (? & ? & ? & _ & _ & _ & _ & _ & -> & _), Hp as (? & ? & ? & _ & _ & _ & _ & _ & -> & _). done. }
  unfold text_of in *. rewrite Hr in Hx. rewrite Hr', <- Ht.
  destruct (_normalize_merge_segment_text _) as [w|]; [|by apply not_elem_of_nil in Hx].
  destruct (String.eqb w ""); [by apply not_elem_of_nil in Hx|]. apply list_elem_of_singleton in Hx as ->.
  eexists. split; [by apply list_elem_of_singleton|]. cbn. split_and!; [done|by rewrite Ha, Ha'|].
  apply Qmax_comp; [done|]. by rewrite Ha, Ha', Hb, Hb'.
Qed.

(** [stored] retells [existing]: every segment of [existing] is said by one of
    [stored], which lies on the timeline of [origin]. *)
Definition retold (origin : Q) (existing stored : list doc) : Prop :=
  forall y, y ∈ existing -> exists v p, says y v /\ p ∈ stored /\ says p v /\ relative_to origin p.

Lemma in_flat_map_of {A} (f : doc -> list A) p stored k : p ∈ stored -> k ∈ f p -> k ∈ flat_map f stored.
Proof. intros Hp Hk. apply list_elem_of_In, in_flat_map. exists p. split; by apply list_elem_of_In. Qed.

Lemma says_det y v v' : says y v -> says y v' -> (u_from v == u_from v')%Q /\ (u_to v == u_to v')%Q.
Proof.
  intros H1 H2. destruct (says_range y v H1) as (a & b & Hr & Ha & Hb).
  destruct (says_range y v' H2) as (a' & b' & Hr' & Ha' & Hb'). rewrite Hr in Hr'. injection Hr' as <- <-.
  by rewrite <- Ha, <- Hb.
Qed.

Lemma retold_clock origin existing stored k :
  retold origin existing stored -> k ∈ flat_map abs_of existing -> k ∈ flat_map abs_of stored.
Proof.
  intros Hre (y & Hy & Hk)%in_seen. destruct (Hre y Hy) as (v & p & Hyv & Hp & Hpv & _).
  apply (in_flat_map_of _ p); [done|]. rewrite (clock_key _ _ _ Hyv Hk). by apply clock_key_in.
Qed.

Lemma retold_timeline origin existing stored k :
  retold origin existing stored -> on_timeline origin existing ->
  k ∈ flat_map rel_of existing -> k ∈ flat_map rel_of stored.
Proof.
  intros Hre Hon (y & Hy & Hk)%in_seen. destruct (Hre y Hy) as (v & p & Hyv & Hp & Hpv & Hrel).
  destruct (proj1 (Forall_forall _ _) Hon y Hy) as [_ Hrely].
  apply (in_flat_map_of _ p); [done|]. rewrite (timeline_key _ _ _ _ Hyv Hrely Hk). by apply rel_key.
Qed.

Lemma retold_words origin existing stored slop ratio s :
  retold origin existing stored ->
  repeated slop ratio (flat_map text_of existing) s = true -> repeated slop ratio (flat_map text_of stored) s = true.
Proof.
  intros Hre. unfold repeated, _is_text_clock_offset_duplicate.
  destruct (_segment_abs_range s) as [[a b]|]; [|done]. destruct (_normalize_merge_segment_text _) as [t|]; [|done].
  rewrite !andb_true_iff, !existsb_exists. intros [? (x & Hx & Hm)]. split; [done|].
  apply list_elem_of_In, in_seen in Hx as (y & Hy & Hx). destruct (Hre y Hy) as (v & p & Hyv & Hp & Hpv & _).
  destruct (text_entry_of y p v x Hyv Hpv Hx) as (x' & Hx' & H1 & H2 & H3). exists x'.
  split; [by apply list_elem_of_In, (in_flat_map_of _ p)|]. by rewrite <- (entry_matches_comp _ _ _ _ _ x x').
Qed.

(** Deduplication against a retelling of what it was first compared to and of
    what it kept keeps nothing. *)
Lemma dedupe_again origin existing incoming slop ratio kept stored :
  dedupe_segments_for_merge origin existing incoming slop ratio = Ok kept ->
  on_timeline origin existing -> retold origin (existing ++ kept) stored -> Forall readable stored ->
  dedupe_segments_for_merge origin stored incoming slop ratio = Ok [].
Proof.
  intros (He & Hg & Hk)%dedupe_inv Hon Hre Hst.
  assert (retold origin existing stored) as Hre1 by (intros y Hy; apply Hre, elem_of_app; by left).
  apply all_repeated_kept_none; [done|done|]. intros s Hs Hp. rewrite Forall_forall in Hg. specialize (Hg s Hs).
  unfold ranged in Hg. destruct (_segment_abs_range s) as [[a b]|] eqn:Hr; [|done].
  rewrite (placed_ranged _ _ _ _ _ Hr) in Hp. apply orb_false_iff in Hp as [Hp1%bool_decide_eq_false Hp2%bool_decide_eq_false].
  cbn [see_more nothing_seen seen_abs seen_rel app] in Hp1, Hp2.
  assert (s ∉ kept) as Hnk.
  { intros Hin. apply Hp1. eapply retold_clock; [exact Hre|]. apply (in_flat_map_of _ s); [apply elem_of_app; by right|].
    unfold abs_of. rewrite Hr. by apply list_elem_of_singleton. }
  assert (placed origin (see_more nothing_seen existing) s = false) as Hp0.
  { rewrite (placed_ranged _ _ _ _ _ Hr). apply orb_false_iff. split; apply bool_decide_eq_false;
      cbn [see_more nothing_seen seen_abs seen_rel app]; intros H; [apply Hp1|apply Hp2];
      [by eapply retold_clock|by eapply retold_timeline]. }
  assert (s ∈ List.filter (fun s => negb (placed origin (see_more nothing_seen existing) s)) incoming) as Hsv.
  { apply list_elem_of_In, filter_In. split; [by apply list_elem_of_In|by rewrite Hp0]. }
  destruct Hk as [->|[Hw ->]]; [done|]. rewrite Forall_forall in Hw. split; [by apply Hw|].
  cbn [see_more nothing_seen seen_text app]. eapply retold_words; [exact Hre1|].
  destruct (repeated slop ratio (flat_map text_of existing) s) eqn:Hrep; [done|]. exfalso. apply Hnk.
  apply list_elem_of_In, filter_In. split; [by apply list_elem_of_In|].
  cbn [see_more nothing_seen seen_text app]. by rewrite Hrep.
Qed.

(** A segment as the providers write it: numbers for times, text or nothing. *)
Definition spoken (seg : doc) : Prop :=
  numeric seg /\ is_ok (_normalize_merge_segment_text (py_get seg "text")) = true.

Definition worded_as (v : utterance) : Prop := is_ok (_normalize_merge_segment_text (u_text v)) = true.

Lemma says_text y v : says y v -> py_get y "text" = u_text v.
Proof. by intros (? & ? & ? & _ & _ & _ & _ & _ & ? & _). Qed.

Lemma says_readable y v : says y v -> worded_as v -> readable y.
Proof.
  intros Hv Hw. destruct (says_range y v Hv) as (a & b & Hr & _). pose proof Hv as (t & s & e & _ & Hs & He & _).
  unfold readable, see. rewrite Hr. cbn [rbind]. rewrite (number_float _ _ _ Hs), (number_float _ _ _ He). cbn [rbind].
  rewrite (says_text _ _ Hv). unfold worded_as in Hw. by destruct (_normalize_merge_segment_text _).
Qed.

Lemma readable_worded y v : readable y -> says y v -> worded_as v.
Proof.
  intros Hy Hv. unfold readable, see in Hy. unfold worded_as. rewrite <- (says_text _ _ Hv).
  destruct (_segment_abs_range y) as [[a b]|]; [|done]. cbn [rbind] in Hy.
  destruct (float_field y "start"), (float_field y "end"); try done. cbn [rbind] in Hy.
  by destruct (_normalize_merge_segment_text _).
Qed.

Lemma map_segments_total (f : doc -> result pyexc doc) segs :
  (forall seg, seg ∈ segs -> is_ok (f seg) = true) -> exists out, map_segments f segs = Ok out.
Proof.
  induction segs as [|seg segs IH]; intros H; [by eexists|]. cbn.
  assert (is_ok (f seg) = true) as Hs by (apply H; left). destruct (f seg) as [p|]; [|done]. cbn [rbind].
  destruct IH as [out ->]; [intros s Hin; apply H; by right|]. by eexists.
Qed.

Lemma place_total origin base seg u : utterance_of base seg u -> is_ok (place_segment origin base seg) = true.
Proof. intros (s & e & Hs & He & _). unfold place_segment. by rewrite Hs, He. Qed.

Lemma settle_total origin y u : says y u -> is_ok (settle_segment origin y) = true.
Proof. intros (t & s & e & Ht & Hs & He & _). unfold settle_segment. by rewrite Hs, He, Ht. Qed.

(** Against nothing, everything is kept. *)
Lemma dedupe_nothing origin incoming slop ratio :
  Forall ranged incoming -> dedupe_segments_for_merge origin [] incoming slop ratio = Ok incoming.
Proof.
  intros Hg. unfold dedupe_segments_for_merge. cbn [see_all rbind]. rewrite unplaced_ranged by done. cbn [rbind].
  assert (List.filter (fun s => negb (placed origin nothing_seen s)) incoming = incoming) as ->.
  { clear Hg. induction incoming as [|s l IH]; [done|]. cbn [List.filter].
    assert (placed origin nothing_seen s = false) as ->; [|by rewrite IH].
    unfold placed. destruct (_segment_abs_range s) as [[a b]|]; [|done]. by rewrite !bool_decide_false by apply not_elem_of_nil. }
  by destruct incoming.
Qed.

(** The parts of a merge: what was there, what was kept, and that each of it,
    settled, is said at its time and has words. *)
Lemma merged_speech_parts incoming c records origin slop known segs survivors :
  merged_speech incoming c records origin slop known = Ok (segs, survivors) ->
  Forall spoken (body_segments (body incoming)) ->
  exists existing fresh kept, on_timeline origin existing /\
    map_segments (stamp_timestamp (timestamp (started_at incoming))) (body_segments (body incoming)) = Ok fresh /\
    dedupe_segments_for_merge origin existing fresh slop SLOP_RATIO = Ok kept /\
    (forall y, y ∈ existing ++ kept -> exists v z, says y v /\ z ∈ segs /\ utterance_of origin z v) /\
    (forall z, z ∈ segs -> exists v, utterance_of origin z v /\ worded_as v).
Proof.
  unfold merged_speech. intros H Hsp. apply rbind_ok in H as ([existing a1] & Hm & H).
  apply rbind_ok in H as (fresh & Hfresh & H). apply rbind_ok in H as (kept & Hd & H).
  pose proof (assign_all_same_speech kept a1) as Hn. destruct (assign_all a1 kept) as [a2 numbered]. cbn [snd] in Hn.
  apply rbind_ok in H as (settled & Hset & H). apply ok_pair in H as [<- _].
  destruct (merge_rows_speech origin c (canonical_first c records) [] (hydrate new_allocator known) existing a1)
    as (Hex & _); [constructor|exact Hm|].
  pose proof (map_segments_inv _ _ _ Hfresh) as Hf. apply map_segments_inv in Hset.
  assert (forall x, x ∈ kept -> exists v, says x v /\ worded_as v) as Hkept.
  { intros x Hx. destruct (dedupe_is_shrink_only _ _ _ _ _ _ Hd) as [Hsub _].
    assert (x ∈ fresh) as Hin by (by eapply elem_of_sublist). destruct (Forall2_in_r _ _ _ _ Hf Hin) as (seg & Hseg & Hst).
    destruct (proj1 (Forall_forall _ _) Hsp seg Hseg) as [Hnum Htext].
    destruct (stamp_timestamp_says _ _ _ Hst Hnum) as (v & (? & ? & _ & _ & _ & _ & Ht & _) & Hv). exists v. split; [done|].
    unfold worded_as. by rewrite <- Ht. }
  assert (forall x, x ∈ existing -> exists v, says x v /\ worded_as v) as Hold.
  { intros x Hx. destruct (proj1 (Forall_forall _ _) Hex x Hx) as [[v Hv] _]. exists v. split; [done|].
    apply dedupe_inv in Hd as (Hre & _). eapply readable_worded; [|exact Hv]. by apply (proj1 (Forall_forall _ _) Hre). }
  assert (forall x, x ∈ existing ++ numbered -> exists v, says x v /\ worded_as v) as Hall.
  { intros x [Hx|Hx]%elem_of_app; [by apply Hold|]. destruct (Forall2_in_l _ _ _ _ Hn Hx) as (k & Hk & Hxk).
    destruct (Hkept k Hk) as (v & Hv & Hw). exists v. split; [by eapply same_speech_says|done]. }
  exists existing, fresh, kept. split_and!; [done|done|done| |].
  - intros y Hy. assert (exists y', y' ∈ existing ++ numbered /\ exists v, says y v /\ says y' v) as (y' & Hy' & v & Hv & Hv').
    { apply elem_of_app in Hy as [Hy|Hy].
      - exists y. split; [apply elem_of_app; by left|]. destruct (Hold y Hy) as (v & ? & _). by exists v.
      - destruct (Forall2_in_r _ _ _ _ Hn Hy) as (y' & Hy' & Hyy). exists y'. split; [apply elem_of_app; by right|].
        destruct (Hkept y Hy) as (v & Hv & _). exists v. split; [done|by eapply same_speech_says]. }
    rewrite <- (merge_sort_Permutation timeline_order) in Hy'. destruct (Forall2_in_l _ _ _ _ Hset Hy') as (z & Hz & Hyz).
    exists v, z. split_and!; [done|done|by eapply settle_utterance].
  - intros z Hz. destruct (Forall2_in_r _ _ _ _ Hset Hz) as (y & Hy & Hyz). rewrite merge_sort_Permutation in Hy.
    destruct (Hall y Hy) as (v & Hv & Hw). exists v. split; [by eapply settle_utterance|done].
Qed.

Lemma canonical_first_one c row : row_id row = c -> canonical_first c [row] = [row].
Proof.
  intros Hid. pose proof (proj2 (String.eqb_eq _ _) Hid) as Hc. unfold canonical_first.
  rewrite filter_cons_True by exact Hc. rewrite filter_cons_False by (by rewrite Hc). done.
Qed.

(** Merging the chunk again with the row that holds the first merge adds
    nothing. *)
Lemma merged_speech_again incoming c records origin known segs survivors row known' :
  merged_speech incoming c records origin 0 known = Ok (segs, survivors) ->
  Forall spoken (body_segments (body incoming)) ->
  row_id row = c -> timestamp (started_at row) = origin -> body_segments (body row) = segs ->
  exists segs', merged_speech incoming c [row] origin 0 known' = Ok (segs', []) /\ length segs' = length segs.
Proof.
  intros H Hsp Hid Hat Hsegs.
  destruct (merged_speech_parts _ _ _ _ _ _ _ _ H Hsp) as (existing & fresh & kept & Hon & Hf & Hd & Hre & Hw).
  destruct (map_segments_total (place_segment origin origin) segs) as [stored Hst].
  { intros z Hz. destruct (Hw z Hz) as (v & Hv & _). by eapply place_total. }
  pose proof (map_segments_inv _ _ _ Hst) as Hst2.
  assert (forall p, p ∈ stored -> exists v, says p v /\ worded_as v) as Hp.
  { intros p Hp. destruct (Forall2_in_r _ _ _ _ Hst2 Hp) as (z & Hz & Hzp). destruct (Hw z Hz) as (v & Hv & Hwv).
    exists v. by destruct (place_says _ _ _ _ _ Hzp Hv). }
  assert (dedupe_segments_for_merge origin stored fresh 0 SLOP_RATIO = Ok []) as Hagain.
  { eapply dedupe_again; [exact Hd|done| |].
    - intros y Hy. destruct (Hre y Hy) as (v & z & Hv & Hz & Hzv). destruct (Forall2_in_l _ _ _ _ Hst2 Hz) as (p & Hpin & Hzp).
      exists v, p. destruct (place_says _ _ _ _ _ Hzp Hzv). by split_and!.
    - apply Forall_forall. intros p Hin. destruct (Hp p Hin) as (v & Hv & Hwv). by eapply says_readable. }
  destruct (map_segments_total (settle_segment origin) (merge_sort timeline_order (stored ++ []))) as [segs' Hset].
  { intros p Hin. rewrite merge_sort_Permutation, app_nil_r in Hin. destruct (Hp p Hin) as (v & Hv & _). by eapply settle_total. }
  exists segs'. split.
  - unfold merged_speech. rewrite canonical_first_one by done. cbn [merge_rows]. unfold merge_row.
    rewrite Hid, String.eqb_refl, Hat, Hsegs, Hst. cbn [rbind].
    rewrite dedupe_nothing.
    + cbn [rbind app]. rewrite Hf. cbn [rbind]. rewrite Hagain. cbn [rbind assign_all]. by rewrite Hset.
    + apply Forall_forall. intros p Hin. destruct (Hp p Hin) as (v & Hv & _). destruct (says_range p v Hv) as (a & b & Hr & _).
      unfold ranged. by rewrite Hr.
  - apply map_segments_inv, Forall2_length in Hset. rewrite <- Hset, (Permutation_length (merge_sort_Permutation _ _)), app_nil_r.
    symmetry. by eapply Forall2_length.
Qed.
