(* ===== verification/SyncRetry.v ===== *)
(** Retrying an assignment: a chunk that is sent again is found where it went and
    adds no speech. *)
From stdpp Require Import sorting.
From S2P Require Export SyncFind SyncAgain.

(** ** The row of the survivor *)

(** The keys [result_fields] writes. *)
Definition WRITTEN : list string :=
  ["sync_live_target"; "created_at"; "has_content"; "sync_content_revision"; "sync_relevance"; "discarded";
   "relevance_decision"; "is_locked"; "private_cloud_sync_enabled"; "data_protection_level"; "sync_merged_from";
   "geolocation"].

(** The keys the search and the admission read of a row. *)
Definition ROW_KEYS : list string :=
  ["deleted"; "sync_merged_into"; "source"; "client_device_id"; "is_locked"; "sync_content_revision"; "sync_live_target";
   "has_photos"; "user_title"; "starred"; "folder_user_set"; "sync_relevance_user_kept"; "visibility"].

Lemma lookup_update_other d ws k : Forall (fun kw => kw.1 <> k) ws -> doc_update d ws !! k = d !! k.
Proof.
  intros Hws. rewrite lookup_doc_update. induction Hws as [|kw ws Hkw _ IH]; [done|]. cbn [foldl].
  rewrite (proj2 (String.eqb_neq k kw.1)) by congruence. exact IH.
Qed.

Lemma lookup_update_if (b : bool) d ws k :
  Forall (fun kw => kw.1 <> k) ws -> (if b then doc_update d ws else d) !! k = d !! k.
Proof. intros H. destruct b; [by apply lookup_update_other|done]. Qed.

Lemma lookup_update_if' (b : bool) d ws k :
  Forall (fun kw => kw.1 <> k) ws -> (if b then d else doc_update d ws) !! k = d !! k.
Proof. intros H. destruct b; [done|by apply lookup_update_other]. Qed.

(** A row without a mark that keeps it from being merged. *)
Definition unmarked (d : doc) : bool :=
  negb (truthy (py_get d "has_photos") || truthy (py_get d "user_title") || truthy (py_get d "starred")
        || truthy (py_get d "folder_user_set") || truthy (py_get d "sync_relevance_user_kept") || shared d).

Lemma auto_mergeable_unmarked {B} (r : Row B) :
  auto_mergeable r = has r "sync_content_revision" && negb (has r "sync_live_target") && unmarked (fields r).
Proof.
  unfold auto_mergeable, unmarked, has, field. rewrite <- !orb_assoc, negb_orb, andb_assoc. done.
Qed.

Lemma same_get d d' k : d !! k = d' !! k -> py_get d k = py_get d' k.
Proof. intros H. unfold py_get. by rewrite H. Qed.

Section Retry.
Context {blob : Type} (decode : blob -> result pyexc Body) (encode : string -> Body -> blob)
  (holds_receipt : blob -> bool) (deterministic_relevance : list pyval -> Q -> option string * string)
  (projection_fields : list string).

(** The codec reads back what it wrote, a receipt is absent exactly when it
    decodes to the empty one, and the fields a write clears are none of those
    that decide about a row. *)
Hypothesis codec : forall level b, decode (encode level b) = Ok b.
Hypothesis receipts : forall raw b, decode raw = Ok b -> (holds_receipt raw = false <-> body_receipt b = empty_receipt).
Hypothesis cleared : Forall (fun k => k ∉ "photos" :: projection_fields) ROW_KEYS.

Local Abbreviation Raw := (Row blob).
Local Abbreviation Decoded := (Row Body).
Local Abbreviation Rows := (gmap string Raw).
Local Abbreviation assign := (assign_in_transaction decode encode holds_receipt deterministic_relevance projection_fields).
Local Abbreviation assignment := (assignment decode encode holds_receipt deterministic_relevance projection_fields).
Local Abbreviation unlabelled := (unlabelled holds_receipt).

Implicit Types (rows : Rows) (incoming : Decoded) (s : SyncAssign.Search (blob := blob)).

Lemma result_untouched incoming a c records s chosen segs k :
  k ∉ WRITTEN -> result_fields deterministic_relevance incoming a c records s chosen segs !! k = fields chosen !! k.
Proof.
  intros Hk. unfold result_fields. cbv zeta.
  assert (forall ws : list (string * field_write), Forall (fun kw => kw.1 ∈ WRITTEN) ws -> Forall (fun kw => kw.1 <> k) ws) as Hw.
  { intros ws Hws. eapply Forall_impl; [exact Hws|]. by intros kw Hin <-. }
  repeat first [rewrite lookup_update_if by (apply Hw; repeat constructor; set_solver)
               |rewrite lookup_update_if' by (apply Hw; repeat constructor; set_solver)
               |rewrite lookup_update_other by (apply Hw; repeat constructor; set_solver)]. done.
Qed.

Lemma lookup_foldr_delete (d : doc) ks k : k ∉ ks -> foldr delete d ks !! k = d !! k.
Proof.
  induction ks as [|x ks IH]; intros Hk; [done|]. cbn. apply not_elem_of_cons in Hk as [Hx Hk].
  rewrite lookup_delete_ne by done. by apply IH.
Qed.

Lemma survivor_lookup (old : option Raw) (result : Decoded) k :
  k ∈ ROW_KEYS -> (forall r, old = Some r -> fields result !! k = None -> fields r !! k = None) ->
  fields (write_survivor encode projection_fields old result) !! k = fields result !! k.
Proof.
  intros Hk Hold. pose proof (proj1 (Forall_forall _ _) cleared k Hk) as Hc.
  pose proof (fun H => Hc (list_elem_of_further _ _ _ H)) as Hc'.
  unfold write_survivor, payload_of. destruct old as [r|]; cbn [fields].
  - rewrite lookup_foldr_delete by done. rewrite lookup_union, (lookup_foldr_delete _ ("photos" :: projection_fields)) by done.
    destruct (fields result !! k) eqn:E; [by destruct (fields r !! k)|]. by rewrite (Hold r).
  - by apply (lookup_foldr_delete _ ("photos" :: projection_fields)).
Qed.

(** ** Admission and search, without a target and without receipts *)

(** A chunk that its user's documents do not know yet. *)
Record new_chunk rows incoming : Prop := {
  nc_fresh : fresh_chunk incoming;
  nc_new : rows !! row_id incoming = None;
  nc_unmarked : unmarked (fields incoming) = true;
  nc_capture : compatible_capture (fields incoming) (fields incoming) = true;
  nc_forward : started_at incoming <= finished_at incoming;
  nc_spoken : Forall spoken (body_segments (body incoming));
  nc_receipt : body_receipt (body incoming) = empty_receipt;
}.

Definition plain_admission rows incoming : Admission (blob := blob) :=
  {| own_id := row_id incoming; own_anchor := rows !! row_id incoming; target := None; first_owner := None |}.

Lemma admission_plain rows incoming :
  row_id incoming <> "" ->
  (forall r, rows !! row_id incoming = Some r ->
     deleted r = false /\ merged_into r = None /\ auto_mergeable r = true /\ has_receipt holds_receipt r = false) ->
  SyncAssign.admission holds_receipt rows incoming None = Ok (plain_admission rows incoming).
Proof.
  intros Hid Hrow. unfold SyncAssign.admission, check_own_row, own_lineage, plain_admission.
  rewrite (proj2 (String.eqb_neq _ _) Hid). destruct (rows !! row_id incoming) as [r|] eqn:E.
  - destruct (Hrow r eq_refl) as (Hd & Hm & Ha & Hr). rewrite Hd, (resolve_own _ _ _ E Hm). cbn. by rewrite Ha, Hr.
  - unfold resolve. rewrite E. done.
Qed.

Definition hints_of (candidate_id : option string) incoming : list (option string) :=
  [candidate_id; Some (row_id incoming); Some (row_id incoming); None].

Definition start_of (store : Store blob) incoming : SyncAssign.Search (blob := blob) :=
  first_search incoming {| recent_entries := recent store; buckets := [] |} (plain_admission (conversations store) incoming).

Lemma start_ok (store : Store blob) incoming : index_ok store (SyncAssign.index (start_of store incoming)).
Proof. split; [done|constructor|]. cbn. intros d l H. by apply not_elem_of_nil in H. Qed.

Lemma round_owner store hints incoming s :
  unlabelled (conversations store) -> receipt_owner (search_round holds_receipt store hints incoming None s) = receipt_owner s.
Proof.
  intros Hun. rewrite round_takes by done. cbn zeta. generalize (omap (candidate (conversations store) incoming s None)
    (round_ids hints incoming s (index_read (days store) (SyncAssign.index s) (extent incoming s)))) as l.
  set (s0 := {| matched := matched s |}). assert (receipt_owner s0 = receipt_owner s) as <- by done. clearbody s0.
  intros l. revert s0. induction l as [|p l IH]; intros s0; [done|]. cbn [foldl]. by rewrite IH.
Qed.

Lemma search_owner store hints incoming fuel : forall s s',
  unlabelled (conversations store) -> search holds_receipt fuel store hints incoming None s = Ok s' ->
  receipt_owner s' = receipt_owner s.
Proof.
  induction fuel as [|fuel IH]; intros s s' Hun; cbn [search]; [done|].
  case_match; [intros [= <-]|intros H'%IH; [rewrite H'|done]]; by apply round_owner.
Qed.

(** A successful assignment of a chunk without target in a store without
    receipts: what it found is closed, and the index was written from it. *)
Lemma assign_found store incoming candidate_id store' result created survivors :
  SyncAssign.admission holds_receipt (conversations store) incoming None = Ok (plain_admission (conversations store) incoming) ->
  unlabelled (conversations store) ->
  assign store incoming candidate_id None = Ok (store', result, created, survivors) ->
  exists s records segs,
    assignment store incoming None (plain_admission (conversations store) incoming) s records segs survivors store' result /\
    closed store (hints_of candidate_id incoming) incoming None s /\ receipt_owner s = None /\
    (days store', recent store') = index_write (days store) (SyncAssign.index s) result (dom (matched s) ∪ {[row_id result]}).
Proof.
  intros Had Hun H. pose proof (admission_admitted _ _ _ _ _ Had) as Had'. unfold assign_in_transaction in H.
  rewrite Had in H. cbn [rbind plain_admission target own_id fmap option_fmap option_map] in H.
  fold (plain_admission (conversations store) incoming) (hints_of candidate_id incoming) (start_of store incoming) in H.
  pose proof (first_search_ok holds_receipt store _ _ {| recent_entries := recent store; buckets := [] |} _ Had') as Hs0.
  apply rbind_ok in H as (s & Hs & H).
  pose proof (search_closes _ _ _ _ _ _ _ _ Hun Hs0 (start_ok store incoming) Hs) as Hcl.
  pose proof (search_owner _ _ _ _ _ _ Hun Hs) as Hown.
  destruct (search_ends holds_receipt store (hints_of candidate_id incoming) incoming None (S (S (size (conversations store))))
              (start_of store incoming)) as (s' & Hs' & Hok & _); [exact Hs0|lia|]. rewrite Hs' in Hs. injection Hs as ->.
  apply rbind_ok in H as (records & Hrec & H). apply rbind_ok in H as ([segs survivors'] & Hsp & H).
  rewrite index_read_again in H by (apply cl_days with (1 := Hcl)).
  destruct (index_write _ _ _ _) as [days' recent'] eqn:Hw. injection H as <- <- <- <-.
  exists s, records, segs. split_and!; [|done|done|symmetry; exact Hw].
  split; try done. unfold lift in Hsp. destruct (merged_speech _ _ _ _ _ _) eqn:E; [|done]. injection Hsp as ->. exact E.
Qed.

(** ** The survivor's row can be found again *)

Ltac row_key := decided.

(** What the chosen record, and so the survivor, has of the chunk's capture. *)
Record same_capture incoming (d : doc) : Prop := {
  sc_alive : truthy (py_get d "deleted") = false;
  sc_end : truthy (py_get d "sync_merged_into") = false;
  sc_source : py_eqb (py_get d "source") (py_get (fields incoming) "source") = true;
  sc_device : py_eqb (py_get d "client_device_id") (py_get (fields incoming) "client_device_id") = true;
  sc_unmarked : unmarked d = true;
}.

Lemma compatible_parts l r :
  compatible_capture l r = true <->
  py_eqb (py_get l "source") (py_get r "source") = true /\
  py_eqb (py_get l "client_device_id") (py_get r "client_device_id") = true /\
  truthy (py_get l "is_locked") = truthy (py_get r "is_locked").
Proof. unfold compatible_capture. rewrite !andb_true_iff, eqb_true_iff. tauto. Qed.

Lemma chosen_capture store incoming s records segs survivors store' result :
  stored_rows (conversations store) -> unlabelled (conversations store) -> new_chunk (conversations store) incoming ->
  assignment store incoming None (plain_admission (conversations store) incoming) s records segs survivors store' result ->
  let chosen := base_record incoming (row_id result) records in
  same_capture incoming (fields chosen) /\ body_receipt (body chosen) = empty_receipt /\
  forall r, matched s !! row_id result = Some r -> fields chosen = fields r.
Proof.
  intros Hst Hun [(_ & Hd & Hm) _ Hu Hself _ _ Hrc] Has. cbn zeta.
  pose proof (chosen_record _ _ _ _ _ _ _ _ _ _ _ _ _ _ _ Hst Has) as Hch. cbn zeta in Hch.
  destruct (matched s !! row_id result) as [r|] eqn:Hr.
  - destruct Hch as (Hdec & _ & _ & _ & Hf). rewrite Hf.
    pose proof (as_search _ _ _ _ _ _ _ _ _ _ _ _ _ _ _ Has) as Hs.
    pose proof (lookup_weaken _ _ _ _ Hr (so_rows _ _ _ _ _ Hs)) as Hrow.
    destruct (so_alive _ _ _ _ _ Hs _ _ Hr) as (Hdel & Hcc & [Ham|]); [|done]. apply compatible_parts in Hcc as (Hsrc & Hdev & _).
    split_and!; [|apply (receipts _ _ Hdec); exact (Hun _ _ Hrow)|by intros ? [= ->]]. split; try done.
    + destruct (truthy _) eqn:E; [|done]. unfold deleted, has, field in Hdel. rewrite <- Hdel. symmetry.
      apply (sr_redirects _ Hst _ _ Hrow). unfold merged_into, field. by rewrite E.
    + rewrite auto_mergeable_unmarked in Ham. by apply andb_true_iff in Ham as [_ ?].
  - destruct Hch as [-> _]. split_and!; [|done|done]. apply compatible_parts in Hself as (? & ? & _).
    split; try done; by apply falsy_get.
Qed.

Lemma max_revision_nonneg {B} (rows : list (Row B)) : 0 <= max_revision rows.
Proof. induction rows as [|r rows IH]; cbn; [done|]. unfold max_revision in IH. lia. Qed.

Lemma result_live incoming a c records s chosen segs :
  target a = None ->
  py_get (result_fields deterministic_relevance incoming a c records s chosen segs) "sync_live_target" = PBool false.
Proof. intros Ht. unfold result_fields. rewrite Ht. cbv zeta. skip_writes. by doc_simpl. Qed.

Lemma result_locked incoming a c records s chosen segs :
  py_get (result_fields deterministic_relevance incoming a c records s chosen segs) "is_locked" = PBool (has incoming "is_locked").
Proof. unfold result_fields; cbv zeta. skip_writes. by doc_simpl. Qed.

(** The survivor's stored row: found, mergeable, of the chunk's capture, over
    its extent, with the result as its body. *)
Record survives incoming s (result : Decoded) (row : Raw) : Prop := {
  sv_id : row_id row = row_id result;
  sv_extent : started_at row = extent_start s /\ finished_at row = extent_end s;
  sv_alive : deleted row = false /\ merged_into row = None;
  sv_mergeable : auto_mergeable row = true;
  sv_receipt : has_receipt holds_receipt row = false /\ body_receipt (body result) = empty_receipt;
  sv_capture : compatible_capture (fields row) (fields incoming) = true;
  sv_entry : compatible_capture (fields (entry_for result)) (fields incoming) = true;
  sv_body : decode (body row) = Ok (body result);
}.

Lemma survivor_survives store incoming s records segs survivors store' result :
  stored_rows (conversations store) -> unlabelled (conversations store) -> new_chunk (conversations store) incoming ->
  assignment store incoming None (plain_admission (conversations store) incoming) s records segs survivors store' result ->
  survives incoming s result (write_survivor encode projection_fields (matched s !! row_id result) result).
Proof.
  intros Hst Hun Hnew Has. destruct (chosen_capture _ _ _ _ _ _ _ _ Hst Hun Hnew Has) as (Hc & Hrc & Hold).
  pose proof (as_result _ _ _ _ _ _ _ _ _ _ _ _ _ _ _ Has) as Hres. cbn zeta in Hres.
  assert (canonical_id incoming (plain_admission (conversations store) incoming) s = row_id result) as Hcan by (by rewrite Hres).
  rewrite Hcan in Hres. set (chosen := base_record incoming (row_id result) records) in *.
  set (row := write_survivor _ _ _ _).
  assert (body_receipt (body result) = empty_receipt) as Hrr by (rewrite Hres; exact Hrc).
  assert (body row = encode (protection_level (fields result)) (body result)) as Hbody
    by (unfold row, write_survivor, payload_of; by destruct (matched s !! _)).
  assert (forall k, k ∈ ROW_KEYS -> k ∉ WRITTEN -> fields row !! k = fields chosen !! k) as Hlook.
  { intros k Hk Hw. assert (fields result !! k = fields chosen !! k) as Hr by (rewrite Hres; by apply result_untouched).
    rewrite <- Hr. apply survivor_lookup; [done|]. intros r Hm Hn. rewrite <- (Hold r Hm), <- Hr. exact Hn. }
  assert (forall k, k ∈ ROW_KEYS -> k ∉ WRITTEN -> py_get (fields row) k = py_get (fields chosen) k) as Hkept
    by (intros k Hk Hw; by apply same_get, Hlook).
  assert (forall k v, k ∈ ROW_KEYS -> py_get (fields result) k = v -> v <> PNone -> py_get (fields row) k = v) as Hwritten.
  { intros k v Hk Hv Hne. rewrite <- Hv. apply same_get. apply survivor_lookup; [done|]. intros r _ Hn.
    destruct Hne. rewrite <- Hv. unfold py_get. by rewrite Hn. }
  assert (py_get (fields result) "is_locked" = PBool (has incoming "is_locked")) as Hlock by (rewrite Hres; apply result_locked).
  assert (forall k, k ∉ WRITTEN -> py_get (fields result) k = py_get (fields chosen) k) as Hresk
    by (intros k Hk; rewrite Hres; apply same_get; by apply result_untouched).
  assert (row_id row = row_id result /\ started_at row = extent_start s /\ finished_at row = extent_end s) as (Hid & Hext)
    by (unfold row, write_survivor, payload_of; rewrite Hres; by destruct (matched s !! _)).
  clearbody row chosen. destruct Hc as [Hc1 Hc2 Hc3 Hc4 Hc5]. split; [exact Hid|exact Hext|..].
  - split; [unfold deleted, has, field|unfold merged_into, field];
      rewrite Hkept by row_key; rewrite ?Hc2; done.
  - rewrite auto_mergeable_unmarked. unfold has, field.
    rewrite (Hwritten "sync_content_revision" (PInt (max_revision records + 1))); [|row_key|rewrite Hres; apply result_revision|done].
    rewrite (Hwritten "sync_live_target" (PBool false)); [|row_key|rewrite Hres; by apply result_live|done].
    pose proof (max_revision_nonneg records). cbn [truthy negb]. rewrite andb_true_r.
    rewrite (proj2 (Z.eqb_neq _ _)) by lia. cbn [negb andb]. rewrite <- Hc5. unfold unmarked, shared.
    rewrite !Hkept by row_key. by rewrite Hlook by row_key.
  - split; [|done]. unfold has_receipt. rewrite Hbody. eapply receipts; [apply codec|done].
  - apply compatible_parts.
    rewrite (Hwritten "is_locked" (PBool (has incoming "is_locked"))) by (done || row_key).
    by rewrite !Hkept by row_key.
  - apply compatible_parts. cbn [entry_for fields]. unfold field. rewrite !Hresk by row_key. rewrite Hlock.
    split_and!; done.
  - rewrite Hbody. apply codec.
Qed.

(** ** The retry *)

(** An entry anywhere in the index. *)
Definition indexed (store : Store blob) (e : Entry) : Prop :=
  e ∈ recent store \/ exists d, e ∈ default [] (days store !! d).

(** The index knows one interval for a row. *)
Definition coherent (store : Store blob) : Prop :=
  forall e e', indexed store e -> indexed store e' -> row_id e = row_id e' -> e = e'.

Lemma timestamp_le a b : a <= b -> (timestamp a <= timestamp b)%Q.
Proof. intros H. unfold timestamp, Qle. cbn. lia. Qed.

Lemma gap_connects a b c d : (Qmax (a - d) (c - b) < DEFAULT_GAP_SECONDS)%Q <-> intervals_connect a b c d = true.
Proof.
  unfold intervals_connect, gap_splits. rewrite negb_true_iff, <- not_true_iff_false, Qle_bool_iff. split.
  - intros H1 H2. by apply Qlt_not_le in H1.
  - intros H. by apply Qnot_le_lt.
Qed.

Lemma Qmax_lt a b c : (Qmax a b < c)%Q <-> (a < c)%Q /\ (b < c)%Q.
Proof.
  unfold Qmax. destruct (Qle_bool a b) eqn:E.
  - apply Qle_bool_iff in E. split; [|by intros []]. intros H. split; [by eapply Qle_lt_trans|done].
  - assert (b < a)%Q as Hlt by (apply Qnot_le_lt; intros H; apply Qle_bool_iff in H; congruence).
    split; [|by intros []]. intros H. split; [done|by eapply Qlt_trans].
Qed.

(** A row that meets an interval meets every interval around it. *)
Lemma interval_matches_mono {B} (row : Row B) incoming s s2 :
  extent_start s <= extent_start s2 -> extent_end s2 <= extent_end s ->
  interval_matches row (extent incoming s2) = true -> interval_matches row (extent incoming s) = true.
Proof.
  intros H1%timestamp_le H2%timestamp_le. unfold interval_matches. rewrite !andb_true_iff, <- !gap_connects, !Qmax_lt.
  cbn [extent fields started_at finished_at]. intros (Hc & H3 & H4). split_and!; [done|..].
  - eapply Qle_lt_trans; [|exact H3]. apply Qplus_le_compat; [apply Qle_refl|]. by apply Qopp_le_compat.
  - eapply Qle_lt_trans; [|exact H4]. apply Qplus_le_compat; [done|apply Qle_refl].
Qed.

(** A row around an interval meets it. *)
Lemma interval_matches_around {B} (row : Row B) incoming s :
  compatible_capture (fields row) (fields incoming) = true ->
  started_at row <= extent_end s -> extent_start s <= finished_at row ->
  interval_matches row (extent incoming s) = true.
Proof.
  intros Hc H1%timestamp_le H2%timestamp_le. unfold interval_matches. cbn [extent fields started_at finished_at].
  rewrite Hc. cbn [andb]. apply gap_connects, Qmax_lt.
  assert (forall a b : Q, (a <= b)%Q -> (a - b < DEFAULT_GAP_SECONDS)%Q) as H; [|split; by apply H].
  intros a b Hab. apply (Qle_lt_trans _ (b - b)); [apply Qplus_le_compat; [done|apply Qle_refl]|].
  assert (b - b == 0)%Q as -> by ring. done.
Qed.

Section After.
Context (store store' : Store blob) (incoming : Decoded) (candidate_id : option string) (s : Search (blob := blob))
  (records : list Decoded) (segs survivors : list doc) (result : Decoded).
Hypothesis Hst : stored_rows (conversations store).
Hypothesis Hun : unlabelled (conversations store).
Hypothesis Hco : coherent store.
Hypothesis Hnew : new_chunk (conversations store) incoming.
Hypothesis Has : assignment store incoming None (plain_admission (conversations store) incoming) s records segs survivors store' result.
Hypothesis Hcl : closed store (hints_of candidate_id incoming) incoming None s.
Hypothesis Hix : (days store', recent store') = index_write (days store) (SyncAssign.index s) result (dom (matched s) ∪ {[row_id result]}).

Local Abbreviation row := (write_survivor encode projection_fields (matched s !! row_id result) result).

Lemma after_survives : survives incoming s result row.
Proof. by eapply survivor_survives. Qed.

Lemma rows_of cid :
  conversations store' !! cid =
    if bool_decide (cid = row_id result) then Some row
    else match matched s !! cid with Some r => Some (write_donor (row_id result) r) | None => conversations store !! cid end.
Proof. rewrite (as_rows _ _ _ _ _ _ _ _ _ _ _ _ _ _ _ Has). apply lookup_write_rows. Qed.

Lemma after_unlabelled : unlabelled (conversations store').
Proof.
  intros cid r. rewrite rows_of. case_bool_decide; [intros [= <-]; apply after_survives|].
  destruct (matched s !! cid) as [r0|] eqn:Hm; [|apply Hun]. intros [= <-].
  apply (Hun cid r0). eapply lookup_weaken; [exact Hm|]. by eapply so_rows, as_search.
Qed.

Lemma after_entries idx e :
  index_ok store' idx -> (forall d, d ∈ loaded idx -> d ∈ loaded (SyncAssign.index s)) -> e ∈ index_entries idx ->
  e = entry_for result \/
  (row_id e ∉ dom (matched s) ∪ {[row_id result]} /\ e ∈ index_entries (SyncAssign.index s)).
Proof.
  intros Hok Hl He. pose proof (cl_index _ _ _ _ _ Hcl) as Hs.
  assert (days store' = (index_write (days store) (SyncAssign.index s) result (dom (matched s) ∪ {[row_id result]})).1 /\
          recent store' = (index_write (days store) (SyncAssign.index s) result (dom (matched s) ∪ {[row_id result]})).2)
    as [Hd Hr] by (by rewrite <- Hix).
  destruct (entry_source _ _ _ Hok He) as [H|(d & Hday & H)].
  - rewrite Hr in H. destruct (index_write_recent store _ result (dom (matched s) ∪ {[row_id result]}) Hs) as [_ Hall].
    destruct (Hall e H) as [?|[? ?]]; [by left|right]. split; [done|]. apply elem_of_app. left. by rewrite (io_recent _ _ Hs).
  - rewrite Hd in H. destruct (index_write_bucket _ _ _ _ _ _ Hs (Hl _ Hday) H) as [?|[? ?]]; [by left|right].
    split; [done|]. by eapply in_bucket; [|apply Hl|].
Qed.

Lemma entry_indexed e : e ∈ index_entries (SyncAssign.index s) -> indexed store e.
Proof.
  intros He. destruct (entry_source _ _ _ (cl_index _ _ _ _ _ Hcl) He) as [?|(d & _ & ?)]; [by left|right; by exists d].
Qed.

(** Within the extent of the first search only the survivor is a candidate. *)
Lemma only_survivor s2 idx cid :
  index_ok store' idx -> (forall d, d ∈ loaded idx -> d ∈ loaded (SyncAssign.index s)) ->
  extent_start s <= extent_start s2 -> extent_end s2 <= extent_end s ->
  cid ∈ round_ids (hints_of candidate_id incoming) incoming s2 idx -> cid <> row_id result ->
  candidate (conversations store') incoming s2 None cid = None.
Proof.
  intros Hok Hl H1 H2 Hcid Hne. unfold candidate. rewrite rows_of, bool_decide_false by done.
  destruct (matched s !! cid) as [r|] eqn:Hm.
  { assert (deleted (write_donor (row_id result) r) = true) as -> by (unfold deleted, has, field, write_donor; cbn [fields]; by doc_simpl).
    done. }
  destruct (conversations store !! cid) as [r|] eqn:Hr; [|done]. destruct (_ && _ && _) eqn:E; [exfalso|done].
  apply andb_true_iff in E as [[Hd Hi]%andb_true_iff Ha]. apply (interval_matches_mono _ _ s) in Hi; [|done..].
  assert (cid ∈ round_ids (hints_of candidate_id incoming) incoming s (SyncAssign.index s)) as Hin.
  { apply elem_of_round_ids in Hcid as [_ Hcid]. apply elem_of_round_ids. split; [done|].
    destruct Hcid as [(e & He & Hm')|?]; [left|by right]. apply index_rows_lookup in He as [He Hid].
    destruct (after_entries _ _ Hok Hl He) as [->|[_ He1]]; [by destruct Hne|].
    destruct (index_rows_has _ _ He1) as [e' He']. pose proof (index_rows_lookup _ _ _ He') as [Hin' Hid'].
    assert (e' = e) as -> by (apply Hco; [by apply entry_indexed..|congruence]). rewrite Hid in He'. exists e. split; [done|].
    by eapply interval_matches_mono. }
  pose proof (cl_found _ _ _ _ _ Hcl _ Hin) as Hnone. unfold candidate in Hnone. rewrite Hr, Hd, Hi, Ha in Hnone. done.
Qed.

(** The retry finds the survivor and nothing else. *)
Lemma retry_search fuel :
  exists s2, search holds_receipt (S (S fuel)) store' (hints_of candidate_id incoming) incoming None (start_of store' incoming) = Ok s2 /\
    matched s2 = {[row_id result := row]} /\ extent_start s2 = extent_start s /\ extent_end s2 = extent_end s /\
    receipt_owner s2 = None.
Proof.
  pose proof after_survives as Hsv. destruct (sv_extent _ _ _ _ Hsv) as [Hrs Hre].
  pose proof (so_incoming _ _ _ _ _ (as_search _ _ _ _ _ _ _ _ _ _ _ _ _ _ _ Has)) as [Hes Hee].
  pose proof (nc_forward _ _ Hnew) as Hfwd. pose proof (start_ok store' incoming) as Hok0.
  assert (forall s2 idx, index_ok store' idx -> (forall d, d ∈ loaded idx -> d ∈ loaded (SyncAssign.index s)) ->
            extent_start s <= extent_start s2 -> extent_end s2 <= extent_end s ->
            index_ok store' (index_read (days store') idx (extent incoming s2)) /\
            forall d, d ∈ loaded (index_read (days store') idx (extent incoming s2)) -> d ∈ loaded (SyncAssign.index s)) as Hread.
  { intros s2 idx Hok Hl H1 H2. destruct (index_read_ok store' (extent incoming s2) idx Hok) as [Hok' Hl']. split; [done|].
    intros d [?|Hd]%Hl'; [by apply Hl|]. apply (cl_days _ _ _ _ _ Hcl). by eapply days_for_mono; [| |exact Hd]. }
  destruct (Hread (start_of store' incoming) _ Hok0) as [Hok1 Hl1]; [by intros d H%not_elem_of_nil|cbn; lia|cbn; lia|].
  set (idx1 := index_read _ _ _) in Hok1, Hl1.
  destruct (search_finds_one holds_receipt store' (hints_of candidate_id incoming) incoming (row_id result) row fuel
              (SyncAssign.index (start_of store' incoming)) None after_unlabelled) as (s2 & H1 & H2 & H3 & H4 & H5); try lia.
  - apply elem_of_round_ids. split; [apply lookup_empty|left]. fold idx1.
    assert (entry_for result ∈ index_entries idx1) as Hin.
    { apply elem_of_app. left. rewrite (io_recent _ _ Hok1).
      destruct (index_write_recent store _ result (dom (matched s) ∪ {[row_id result]}) (cl_index _ _ _ _ _ Hcl)) as [H _].
      by rewrite <- Hix in H. }
    destruct (index_rows_has _ _ Hin) as [e He]. exists e. split; [exact He|].
    pose proof (index_rows_lookup _ _ _ He) as [Hein Hid].
    destruct (after_entries _ _ Hok1 Hl1 Hein) as [->|[Hno _]].
    + apply interval_matches_around; [apply Hsv|..]; cbn [entry_for started_at finished_at extent_start extent_end];
        rewrite (as_result _ _ _ _ _ _ _ _ _ _ _ _ _ _ _ Has); cbn [started_at finished_at]; lia.
    + destruct Hno. rewrite Hid. set_solver.
  - unfold candidate. rewrite rows_of, bool_decide_true by done. rewrite (proj1 (sv_alive _ _ _ _ Hsv)), (sv_mergeable _ _ _ _ Hsv).
    rewrite interval_matches_around; [done|apply Hsv|cbn; lia..].
  - intros cid Hcid Hne. eapply only_survivor; [exact Hok1|exact Hl1| | |exact Hcid|done]; cbn; lia.
  - intros cid Hcid Hne. set (s1 := absorb _ _ _) in *.
    destruct (Hread s1 (SyncAssign.index s1) Hok1 Hl1) as [Hok2 Hl2]; [cbn; lia..|].
    eapply only_survivor; [exact Hok2|exact Hl2| | |exact Hcid|done]; cbn; lia.
  - exists s2. split_and!; [exact H1|done|lia|lia|done].
Qed.

Lemma retry_admission :
  SyncAssign.admission holds_receipt (conversations store') incoming None = Ok (plain_admission (conversations store') incoming).
Proof.
  pose proof after_survives as Hsv. apply admission_plain; [apply (nc_fresh _ _ Hnew)|]. intros r. rewrite rows_of.
  case_bool_decide; [intros [= <-]; split_and!; apply Hsv|].
  destruct (matched s !! row_id incoming) as [r0|] eqn:Hm; [|by rewrite (nc_new _ _ Hnew)].
  pose proof (lookup_weaken _ _ _ _ Hm (so_rows _ _ _ _ _ (as_search _ _ _ _ _ _ _ _ _ _ _ _ _ _ _ Has))) as Hr0.
  by rewrite (nc_new _ _ Hnew) in Hr0.
Qed.
End After.

(** C7: a retry adds no speech, for a chunk assigned without naming a
    conversation, in a store whose conversations carry no manual labels.  When a
    new chunk was so assigned and its upload is sent again, with the same hint,
    the second assignment succeeds, finds the row that took the chunk, adds none
    of its segments a second time and leaves the transcript as long and its times
    as they were; whether the chunk became a conversation of its own, joined
    another or bridged several.  An assignment that names a live conversation is
    not retried safely: [targeted_retry_repeats_speech]. *)
Theorem retries_add_no_speech store incoming candidate_id store' result created survivors :
  stored_rows (conversations store) -> unlabelled (conversations store) -> coherent store ->
  new_chunk (conversations store) incoming ->
  assign store incoming candidate_id None = Ok (store', result, created, survivors) ->
  exists store'' result', assign store' incoming candidate_id None = Ok (store'', result', false, []) /\
    row_id result' = row_id result /\ started_at result' = started_at result /\ finished_at result' = finished_at result /\
    length (body_segments (body result')) = length (body_segments (body result)).
Proof.
  intros Hst Hun Hco Hnew H. pose proof (nc_fresh _ _ Hnew) as (Hid & _).
  assert (SyncAssign.admission holds_receipt (conversations store) incoming None = Ok (plain_admission (conversations store) incoming)) as Had
    by (apply admission_plain; [done|]; intros r Hr; by rewrite (nc_new _ _ Hnew) in Hr).
  destruct (assign_found _ _ _ _ _ _ _ Had Hun H) as (s & records & segs & Has & Hcl & _ & Hix).
  pose proof (after_survives _ _ _ _ _ _ _ _ Hst Hun Hnew Has) as Hsv.
  set (row := write_survivor encode projection_fields (matched s !! row_id result) result) in *.
  pose proof (as_speech _ _ _ _ _ _ _ _ _ _ _ _ _ _ _ Has) as Hsp. cbn zeta in Hsp.
  rewrite <- (survivor_id _ _ _ _ _ _ _ _ _ _ _ _ _ _ _ Has) in Hsp. cbn [plain_admission target] in Hsp.
  assert (body_segments (body result) = segs) as Hsegs.
  { pose proof (proj2 (sv_receipt _ _ _ _ Hsv)) as Hrc. rewrite (as_result _ _ _ _ _ _ _ _ _ _ _ _ _ _ _ Has) in *.
    cbn [body body_segments body_receipt] in *. by rewrite Hrc. }
  pose proof (retry_admission store store' incoming s records segs survivors result Hst Hun Hnew Has) as Had'.
  destruct (retry_search store store' incoming candidate_id s records segs survivors result Hst Hun Hco Hnew Has Hcl Hix
              (size (conversations store'))) as (s2 & Hs2 & Hm2 & Hst2 & Hen2 & Hown2). fold row in Hm2.
  set (rec := with_body row (body result)).
  destruct (merged_speech_again incoming (row_id result) records (timestamp (extent_start s)) _ segs survivors rec (body_segments (body rec))
              Hsp
              (nc_spoken _ _ Hnew)) as (segs' & Hagain & Hlen); [apply Hsv| |done|].
  { cbn [rec with_body started_at]. by rewrite (proj1 (sv_extent _ _ _ _ Hsv)). }
  unfold assign_in_transaction. rewrite Had'. cbn [rbind plain_admission target own_id fmap option_fmap option_map].
  fold (plain_admission (conversations store') incoming) (hints_of candidate_id incoming) (start_of store' incoming).
  rewrite Hs2. cbn [rbind].
  assert (canonical_id incoming (plain_admission (conversations store') incoming) s2 = row_id result) as ->.
  { unfold canonical_id. cbn [plain_admission target]. by rewrite Hown2, Hm2, map_to_list_singleton. }
  assert (decode_rows decode (matched_rows s2) = Ok [rec]) as ->.
  { unfold matched_rows. rewrite Hm2, map_to_list_singleton. cbn. unfold decode_row. by rewrite (sv_body _ _ _ _ Hsv). }
  assert (base_record incoming (row_id result) [rec] = rec) as Hbase.
  { unfold base_record. rewrite filter_cons_True; [done|]. apply String.eqb_eq. apply Hsv. }
  cbn [rbind]. rewrite Hbase, Hm2, lookup_singleton_eq, Hst2, Hagain. cbn [lift rbind].
  destruct (index_write _ _ _ _) as [days' recent']. eexists _, _. split; [reflexivity|].
  cbn [row_id started_at finished_at body body_segments rec with_body]. rewrite Hen2, (proj2 (sv_receipt _ _ _ _ Hsv)), Hsegs.
  split_and!; [done| | |exact Hlen]; by rewrite (as_result _ _ _ _ _ _ _ _ _ _ _ _ _ _ _ Has).
Qed.
End Retry.
