(* ===== verification/SyncDemo.v ===== *)
(** Three chunks of one recording, arriving out of order, next to a conversation
    the user starred: the assignment on concrete documents. *)
From S2P Require Export SyncRetry.

Definition spoken_segment (text : string) (len : Z) : doc :=
  doc_set [put_str "text" text; put_int "start" 0; put_int "end" len; put_int "speaker_id" 0;
           put_bool "is_user" false].

Definition chunk (cid : string) (at_ len : Z) (text : string) : Row Body :=
  {| row_id := cid; started_at := at_ * 1000000; finished_at := (at_ + len) * 1000000;
     fields := doc_set [put_str "source" "omi"; put_str "client_device_id" "pendant"; put_str "status" "completed"];
     body := {| body_segments := [spoken_segment text len]; body_receipt := empty_receipt |} |}.

(** A codec that stores the body as it is, and rules that settle nothing. *)
Definition demo_decode (b : Body) : result pyexc Body := Ok b.
Definition demo_encode (_ : string) (b : Body) : Body := b.
Definition demo_holds (b : Body) : bool :=
  negb (bool_decide (receipt_segments (body_receipt b) = ∅) && bool_decide (receipt_speakers (body_receipt b) = ∅)
        && (receipt_generation (body_receipt b) =? 0)).
Definition demo_rules (_ : list pyval) (_ : Q) : option string * string := (None, "ambiguous").

Definition run (st : Store Body) (incoming : Row Body) :=
  assign_in_transaction demo_decode demo_encode demo_holds demo_rules ["client_processing"] st incoming None None.

Definition store_after (st : Store Body) (incoming : Row Body) : Store Body :=
  match run st incoming with Ok (st', _, _, _) => st' | Raise _ => st end.

Definition starred : Row Body :=
  {| row_id := "k"; started_at := 1011 * 1000000; finished_at := 1012 * 1000000;
     fields := doc_set [put_str "source" "omi"; put_str "client_device_id" "pendant"; put_int "sync_content_revision" 1;
                        put_bool "starred" true];
     body := {| body_segments := [spoken_segment "kept by hand" 1]; body_receipt := empty_receipt |} |}.

Definition first_store : Store Body := {| conversations := {["k" := starred]}; recent := [entry_for starred]; days := ∅ |}.

(** The first and the third part are two conversations; the second bridges them. *)
Definition two_parts : Store Body :=
  store_after (store_after first_store (chunk "a" 1000 10 "first part of the talk")) (chunk "c" 1249 10 "third part of the talk").

Definition bridge : Row Body := chunk "b" 1120 10 "second part of the talk".

Example bridged :
  match run two_parts bridge with
  | Ok (st, result, created, survivors) =>
      row_id result = "a" /\ created = false /\ length survivors = 1%nat /\
      (started_at result, finished_at result) = (1000000000, 1259000000) /\
      (fun z => py_get z "text") <$> body_segments (body result) =
        [PStr "first part of the talk"; PStr "second part of the talk"; PStr "third part of the talk"] /\
      (merged_into <$> conversations st !! "c") = Some (Some "a") /\
      conversations st !! "k" = Some starred
  | Raise _ => False
  end.
Proof. vm_compute. by split_and!. Qed.

(** The retry of a part that was absorbed adds nothing. *)
Example retried :
  match run (store_after two_parts bridge) (chunk "c" 1249 10 "third part of the talk") with
  | Ok (_, result, created, survivors) => row_id result = "a" /\ created = false /\ survivors = []
  | Raise _ => False
  end.
Proof. vm_compute. by split_and!. Qed.

(** ** A retry into a named conversation *)

Definition run_into (st : Store Body) (incoming : Row Body) (target_id : string) :=
  assign_in_transaction demo_decode demo_encode demo_holds demo_rules ["client_processing"] st incoming None (Some target_id).

(** A live conversation, which no chunk has been assigned to, heard what the
    chunk says a minute earlier. *)
Definition live : Row Body := chunk "l" 1000 10 "we meet at noon by the old bridge".
Definition live_store : Store Body := {| conversations := {["l" := live]}; recent := [entry_for live]; days := ∅ |}.
Definition echo : Row Body := chunk "d" 1060 10 "we meet at noon by the old bridge".

(** The first assignment to the named conversation recognises the text and adds
    nothing; the same assignment again compares it without tolerance, because the
    conversation now has a sync revision, and adds it. *)
Lemma targeted_retry_repeats_speech :
  exists st1 r1 st2 r2 added,
    run_into live_store echo "l" = Ok (st1, r1, false, []) /\ length (body_segments (body r1)) = 1%nat /\
    run_into st1 echo "l" = Ok (st2, r2, false, [added]) /\ length (body_segments (body r2)) = 2%nat.
Proof.
  assert (match run_into live_store echo "l" with
          | Ok (st1, r1, false, []) =>
              match run_into st1 echo "l" with
              | Ok (_, r2, false, [_]) => (length (body_segments (body r1)) =? 1)%nat && (length (body_segments (body r2)) =? 2)%nat
              | _ => false
              end
          | _ => false
          end = true) as H by (vm_compute; reflexivity).
  destruct (run_into live_store echo "l") as [[[[st1 r1] []] []]|]; try discriminate.
  destruct (run_into st1 echo "l") as [[[[st2 r2] []] [|added []]]|] eqn:E; try discriminate.
  apply andb_true_iff in H as [H1%Nat.eqb_eq H2%Nat.eqb_eq]. exists st1, r1, st2, r2, added. by split_and!.
Qed.

Lemma bridge_runs :
  exists st' result created survivors, run two_parts bridge = Ok (st', result, created, survivors) /\
    row_id result = "a" /\ created = false /\ conversations st' !! "c" <> conversations two_parts !! "c".
Proof.
  pose proof bridged as B. destruct (run two_parts bridge) as [[[[st' result] created] survivors]|e]; [|done].
  exists st', result, created, survivors. destruct B as (Hid & Hc & _ & _ & _ & Hm & _).
  split; [reflexivity|split; [exact Hid|split; [exact Hc|]]].
  intros Heq. rewrite Heq in Hm. vm_compute in Hm. discriminate Hm.
Qed.

Lemma two_parts_stored : stored_rows (conversations two_parts).
Proof.
  assert (map_Forall (fun cid (r : Row Body) => row_id r = cid /\ cid <> "" /\ (merged_into r <> None -> deleted r = true))
            (conversations two_parts)) as H by decided.
  split; intros cid r Hr; destruct (map_Forall_lookup_1 _ _ _ _ H Hr) as (? & ? & ?); auto.
Qed.

Lemma two_parts_lineage : lineage_ok (conversations two_parts).
Proof.
  intros x. exists x, O. split; [done|].
  assert (redirects (conversations two_parts) = ∅) as -> by (vm_compute; reflexivity). apply lookup_empty.
Qed.

Lemma bridge_fresh : fresh_chunk bridge.
Proof. split_and!; [discriminate|apply falsy_get; vm_compute; reflexivity..]. Qed.

Lemma protected_rows_are_untouched_witness :
  exists st' result created survivors, run two_parts bridge = Ok (st', result, created, survivors) /\
    conversations st' !! "k" = Some starred.
Proof.
  destruct bridge_runs as (st' & result & created & survivors & E & _). exists st', result, created, survivors.
  split; [exact E|].
  apply (protected_rows_are_untouched demo_decode demo_encode demo_holds demo_rules ["client_processing"]
           two_parts bridge None None st' result created survivors "k" starred);
    [discriminate|exact E|vm_compute; reflexivity|vm_compute; reflexivity|].
  right. split; [vm_compute; reflexivity|discriminate].
Defined.

Lemma donors_live_on_witness :
  exists st' result created survivors, run two_parts bridge = Ok (st', result, created, survivors) /\
    exists r, conversations two_parts !! "c" = Some r /\ donated demo_holds (row_id result) result "c" r.
Proof.
  destruct bridge_runs as (st' & result & created & survivors & E & Hid & _ & Hc). exists st', result, created, survivors.
  split; [exact E|].
  destruct (donors_live_on demo_decode demo_encode demo_holds demo_rules ["client_processing"]
              two_parts bridge None None st' result created survivors "c") as [Heq|(r & r' & Hr & _ & _ & _ & _ & _ & Hd)];
    [exact E|rewrite Hid; discriminate|destruct (Hc Heq)|]. exists r. split; [exact Hr|exact Hd].
Defined.

Lemma lineage_stays_acyclic_witness :
  exists st' result created survivors, run two_parts bridge = Ok (st', result, created, survivors) /\
    stored_rows (conversations st') /\ lineage_ok (conversations st').
Proof.
  destruct bridge_runs as (st' & result & created & survivors & E & _). exists st', result, created, survivors.
  split; [exact E|].
  destruct (lineage_stays_acyclic demo_decode demo_encode demo_holds demo_rules ["client_processing"]
              two_parts bridge None None st' result created survivors) as (Hs & Hl & _);
    [exact two_parts_stored|exact two_parts_lineage|exact bridge_fresh|exact E|]. split; [exact Hs|exact Hl].
Defined.

Lemma speech_is_conserved_witness :
  exists st' result created survivors, run two_parts bridge = Ok (st', result, created, survivors) /\
    forall seg, seg ∈ body_segments (body bridge) ->
      exists u, utterance_of (timestamp (started_at bridge)) seg u /\ heard_in 0 u result.
Proof.
  destruct bridge_runs as (st' & result & created & survivors & E & _). exists st', result, created, survivors.
  split; [exact E|].
  destruct (speech_is_conserved demo_decode demo_encode demo_holds demo_rules ["client_processing"]
              two_parts bridge None None st' result created survivors) as [H _]; [exact E| |exact H].
  repeat constructor.
Defined.

Definition indexed_in (st : Store Body) : list Entry := recent st ++ concat (map_to_list (days st)).*2.

Lemma indexed_listed st e : indexed st e -> e ∈ indexed_in st.
Proof.
  intros [H|[d H]]; apply elem_of_app; [by left|right].
  destruct (days st !! d) as [l|] eqn:E; [|by apply not_elem_of_nil in H].
  apply list_elem_of_In, in_concat. exists l. split; [|by apply list_elem_of_In].
  apply list_elem_of_In, list_elem_of_fmap. exists (d, l). split; [done|by apply elem_of_map_to_list].
Qed.

Lemma three_entries (l : list Entry) (d : Entry) :
  l = (fun i => nth i l d) <$> [0; 1; 2; 1; 2]%nat ->
  Forall (fun e => e = nth 0 l d \/ e = nth 1 l d \/ e = nth 2 l d) l.
Proof. intros E. refine (eq_ind_r (fun m => Forall _ m) _ E). rewrite !fmap_cons.
  repeat (apply Forall_cons_2; [tauto|]). constructor. Qed.

(** Three rows are indexed, each under one entry. *)
Lemma two_parts_index :
  exists x y z, row_id x = "k" /\ row_id y = "a" /\ row_id z = "c" /\ Forall (fun e => e = x \/ e = y \/ e = z) (indexed_in two_parts).
Proof.
  set (l := indexed_in two_parts).
  exists (nth 0 l (entry_for starred)), (nth 1 l (entry_for starred)), (nth 2 l (entry_for starred)).
  split_and!; [vm_compute; reflexivity..|]. apply three_entries. vm_compute. reflexivity.
Qed.

Lemma two_parts_coherent : coherent two_parts.
Proof.
  destruct two_parts_index as (x & y & z & Hx & Hy & Hz & H). rewrite Forall_forall in H.
  intros e e' He%indexed_listed He'%indexed_listed Hid. destruct (H e He) as [-> |[-> | ->]], (H e' He') as [-> |[-> | ->]]; congruence.
Qed.

Lemma demo_receipts raw b : demo_decode raw = Ok b -> (demo_holds raw = false <-> body_receipt b = empty_receipt).
Proof.
  intros [= ->]. unfold demo_holds. rewrite negb_false_iff, !andb_true_iff, !bool_decide_eq_true, Z.eqb_eq.
  destruct (body_receipt b) as [x y n]; cbn. unfold empty_receipt. split; [by intros [[-> ->] ->]|by intros [= -> -> ->]].
Qed.

Lemma two_parts_unlabelled : unlabelled demo_holds (conversations two_parts).
Proof.
  assert (map_Forall (fun _ (r : Row Body) => has_receipt demo_holds r = false) (conversations two_parts)) as H by decided.
  intros cid r Hr. exact (map_Forall_lookup_1 _ _ _ _ H Hr).
Qed.

Lemma bridge_new : new_chunk (conversations two_parts) bridge.
Proof.
  split; [exact bridge_fresh|vm_compute; reflexivity|vm_compute; reflexivity|vm_compute; reflexivity
         |vm_compute; discriminate|repeat constructor|reflexivity].
Qed.

Lemma retries_add_no_speech_witness :
  exists st' result created survivors, run two_parts bridge = Ok (st', result, created, survivors) /\
    exists st'' result', run st' bridge = Ok (st'', result', false, []) /\ row_id result' = "a".
Proof.
  destruct bridge_runs as (st' & result & created & survivors & E & Hid & _). exists st', result, created, survivors.
  split; [exact E|].
  destruct (retries_add_no_speech demo_decode demo_encode demo_holds demo_rules ["client_processing"]
              (fun _ _ => eq_refl) demo_receipts ltac:(decided) two_parts bridge None st' result created survivors)
    as (st'' & result' & E' & Hid' & _);
    [exact two_parts_stored|exact two_parts_unlabelled|exact two_parts_coherent|exact bridge_new|exact E|].
  exists st'', result'. split; [exact E'|]. rewrite Hid'. exact Hid.
Defined.
