(* ===== verification/MemoryFacts.v ===== *)
(** The facts a memory ledger folds to: mutations ([database/memory_ledger.py]),
    their application, and the confidence derived from evidence
    ([models/memories.py], [config/memory_confidence.py]).

    A fact is a dictionary.  The mutations are those the module's constructors
    build; ids are strings, and an id that is no non-empty string names no fact.
    Floats are exact rationals. *)
From stdpp Require Import sorting.
From S2P Require Export PyValue.

(** ** Dictionaries inside documents *)

Definition dict_value (d : doc) : pyval := PDict (map_to_list d).
Definition dict_doc (l : list (string * pyval)) : doc := list_to_map l.

(** [for x in v] *)
Definition py_iter (v : pyval) : result pyexc (list pyval) :=
  match v with
  | PList l => Ok l
  | PDict d => Ok (PStr ∘ fst <$> d)
  | PStr s => Ok ((fun c => PStr (String c "")) <$> list_ascii_of_string s)
  | _ => Raise (TypeError "object is not iterable")
  end.

(** ** Confidence *)

Definition SOURCE_UNKNOWN_CAPTURE_PRIOR : Q := 1 # 2.
Definition VERACITY_BASE : Q := 35 # 100.
Definition VERACITY_SINGLE_INDEPENDENT_GROUP : Q := 45 # 100.
Definition VERACITY_ADDITIONAL_INDEPENDENT_GROUP : Q := 22 # 100.
Definition VERACITY_HIGH_CAPTURE_BONUS : Q := 8 # 100.
Definition VERACITY_LOW_CAPTURE_PENALTY : Q := 12 # 100.
Definition VERACITY_THIRD_PARTY_PENALTY : Q := 8 # 100.
Definition VERACITY_MAXIMUM : Q := 98 # 100.
Definition LOW_CAPTURE_THRESHOLD : Q := 1 # 2.
Definition HIGH_CAPTURE_THRESHOLD : Q := 85 # 100.

(** [item.get('redaction_status', 'active') != 'tombstoned'] *)
Definition active_evidence (e : doc) : bool :=
  negb (is_str (default (PStr "active") (e !! "redaction_status")) "tombstoned").

(** The independent groups of the active evidence. *)
Definition evidence_groups (items : list doc) : gset string :=
  list_to_set (omap (fun e => nonempty_str (py_or (py_get e "independence_group") (py_get e "source_id"))) items).

Definition capture_values (items : list doc) : list Q :=
  omap (fun e => as_number (py_get e "capture_confidence")) items.

(** [max(values)], or the prior of an unknown source. *)
Definition max_capture (items : list doc) : Q :=
  match capture_values items with
  | [] => SOURCE_UNKNOWN_CAPTURE_PRIOR
  | q :: qs => foldl Qmax q qs
  end.

Definition compute_veracity (evidence : list doc) (subject_attribution : pyval) : Q :=
  let items := base.filter (fun e => active_evidence e = true) evidence in
  let groups := size (evidence_groups items) in
  if (groups =? 0)%nat then VERACITY_BASE else
  let score := (VERACITY_SINGLE_INDEPENDENT_GROUP
                + inject_Z (Z.of_nat (groups - 1)) * VERACITY_ADDITIONAL_INDEPENDENT_GROUP)%Q in
  let top := max_capture items in
  let score := if Qle_bool HIGH_CAPTURE_THRESHOLD top then (score + VERACITY_HIGH_CAPTURE_BONUS)%Q else score in
  let score := if Qle_bool LOW_CAPTURE_THRESHOLD top then score else (score - VERACITY_LOW_CAPTURE_PENALTY)%Q in
  let score := if is_str subject_attribution "third_party" then (score - VERACITY_THIRD_PARTY_PENALTY)%Q else score in
  Qmax 0 (Qmin VERACITY_MAXIMUM score).

Definition uncertainty_reasons_for (evidence : list doc) (subject_attribution : pyval) : list string :=
  let items := base.filter (fun e => active_evidence e = true) evidence in
  (if (size (evidence_groups items) <=? 1)%nat then ["single_source"] else []) ++
  (if existsb (fun q => negb (Qle_bool LOW_CAPTURE_THRESHOLD q)) (capture_values items)
   then ["low_capture_signal"] else []) ++
  (if is_str subject_attribution "third_party" then ["third_party_subject"] else []).

Definition is_none (v : pyval) : bool := match v with PNone => true | _ => false end.

(** The capture confidence that is kept, or the first item's, or the prior. *)
Definition resolved_capture (evidence : list doc) (existing : pyval) : pyval :=
  if negb (is_none existing) then existing else
  match evidence with
  | first :: _ =>
      match as_number (py_get first "capture_confidence") with
      | Some q => PFloat q
      | None => PFloat SOURCE_UNKNOWN_CAPTURE_PRIOR
      end
  | [] => PFloat SOURCE_UNKNOWN_CAPTURE_PRIOR
  end.

Definition confidence_fields_for_evidence (evidence : list doc) (subject_attribution existing : pyval)
    : list (string * field_write) :=
  [("capture_confidence", Put (resolved_capture evidence existing));
   ("veracity", Put (PFloat (compute_veracity evidence subject_attribution)));
   ("uncertainty_reasons", Put (PList (PStr <$> uncertainty_reasons_for evidence subject_attribution)))].

(** ** Mutations *)

Inductive Mutation : Type :=
| AddFact (fact : doc)
| SupersedeFact (fact_id : string) (by_ : option string) (kind : string) (valid_interval : doc)
| RefineFact (fact_id : string) (arg_changes : doc)
| RetractFact (fact_id reason : string)
| AddEvidence (fact_id : string) (evidence : doc)
| RemoveEvidence (fact_id evidence_id : string)
| TombstoneEvidence (fact_id evidence_id : string) (tombstoned_at : option Z) (reason : string)
| MergeEntities (entity_a entity_b : string) (evidence : doc) (confidence : Q)
| SplitEntity (entity_id : string) (into : list doc) (reason : string)
| ReassignFactSubject (fact_id : string) (old new : option string).

(** [normalize_fact_for_ledger], what [add_fact] puts into the mutation. *)
Definition normalize_fact_for_ledger (fact : doc) : result pyexc doc :=
  match default (PDict []) (fact !! "qualifiers") with
  | PDict q =>
      let d := dict_doc q in
      let d1 := if negb (is_none (py_get fact "valid_at")) && is_none (py_get d "valid_from")
                then <["valid_from" := py_get fact "valid_at"]> d else d in
      let d2 := if negb (is_none (py_get fact "invalid_at")) && is_none (py_get d1 "valid_to")
                then <["valid_to" := py_get fact "invalid_at"]> d1 else d1 in
      Ok (<["qualifiers" := dict_value d2]> fact)
  | _ =>
      if negb (is_none (py_get fact "valid_at")) || negb (is_none (py_get fact "invalid_at"))
      then Raise (AttributeError "get") else Ok fact
  end.

Definition add_fact (fact : doc) : result pyexc Mutation :=
  let* f := normalize_fact_for_ledger fact in Ok (AddFact f).

Definition time_or_none (t : option Z) : pyval := match t with Some us => PTime us | None => PNone end.
Definition str_or_none (s : option string) : pyval := match s with Some x => PStr x | None => PNone end.

(** ** Application *)

(** [fact.setdefault(k, {})[key] = v] *)
Definition set_nested (fact : doc) (k key : string) (v : pyval) : result pyexc doc :=
  match default (PDict []) (fact !! k) with
  | PDict d => Ok (<[k := dict_value (<[key := v]> (dict_doc d))]> fact)
  | _ => Raise (TypeError "object does not support item assignment")
  end.

Definition _resolve_arg_change (v : pyval) : pyval :=
  match v with
  | PDict d => default v (dict_doc d !! "to")
  | _ => v
  end.

Fixpoint apply_changes (fact : doc) (changes : list (string * pyval)) : result pyexc doc :=
  match changes with
  | [] => Ok fact
  | (key, v) :: rest =>
      let resolved := _resolve_arg_change v in
      if String.eqb key "content" then apply_changes (<["content" := resolved]> fact) rest
      else let* fact' := set_nested fact "arguments" key resolved in apply_changes fact' rest
  end.

Definition _apply_arg_changes (fact : doc) (arg_changes : doc) : result pyexc doc :=
  apply_changes (match fact !! "arguments" with Some _ => fact | None => <["arguments" := PDict []]> fact end)
    (map_to_list arg_changes).

(** The evidence as a list, and whether an element is a dictionary with this id. *)
Definition names_evidence (evidence_id : string) (v : pyval) : bool :=
  match v with PDict d => is_str (py_get (dict_doc d) "evidence_id") evidence_id | _ => false end.

Definition tombstone_one (evidence_id : string) (at_ : pyval) (reason : string) (v : pyval) : pyval :=
  match v with
  | PDict d =>
      if names_evidence evidence_id v
      then dict_value (doc_update (dict_doc d) [put_str "redaction_status" "tombstoned";
                                                ("tombstoned_at", Put at_); put_str "tombstone_reason" reason])
      else v
  | _ => v
  end.

Definition evidence_dicts (l : list pyval) : list doc :=
  omap (fun v => match v with PDict d => Some (dict_doc d) | _ => None end) l.

(** What one mutation does to the fact it names. *)
Definition change_fact (fact : doc) (item : Mutation) (commit_time : option Z) : result pyexc doc :=
  match item with
  | SupersedeFact _ by_ _ valid_interval =>
      let invalid_at := py_or (py_get valid_interval "valid_to") (time_or_none commit_time) in
      set_nested (doc_update fact [("superseded_by", Put (str_or_none by_)); ("invalid_at", Put invalid_at)])
        "qualifiers" "valid_to" invalid_at
  | RetractFact _ reason =>
      Ok (doc_update fact
            [("invalid_at", Put (time_or_none commit_time)); put_str "retraction_reason" reason;
             put_str "redaction_status" "payload_tombstoned"; put_none "content"; ("arguments", Put (PDict []))])
  | RefineFact _ arg_changes => _apply_arg_changes fact arg_changes
  | AddEvidence _ evidence =>
      match default (PList []) (fact !! "evidence") with
      | PList l =>
          let known := existsb (fun v => py_eqb v (dict_value evidence)) l in
          Ok (<["evidence" := PList (if bool_decide (evidence = ∅) || known then l else l ++ [dict_value evidence])]> fact)
      | _ => if bool_decide (evidence = ∅) then Ok fact else Raise (TypeError "evidence is not a list")
      end
  | RemoveEvidence _ evidence_id =>
      let* l := py_iter (py_or (py_get fact "evidence") (PList [])) in
      Ok (<["evidence" := PList (base.filter (fun v => names_evidence evidence_id v = false) l)]> fact)
  | TombstoneEvidence _ evidence_id tombstoned_at reason =>
      let stored := py_or (py_get fact "evidence") (PList []) in
      let* l := py_iter stored in
      let at_ := py_or (time_or_none tombstoned_at) (time_or_none commit_time) in
      let l' := tombstone_one evidence_id at_ reason <$> l in
      let active := base.filter (fun e => active_evidence e = true) (evidence_dicts l') in
      let fact' := match fact !! "evidence" with Some (PList _) => <["evidence" := PList l']> fact | _ => fact end in
      Ok (doc_update fact' (confidence_fields_for_evidence active
            (default (PStr "unknown") (fact !! "subject_attribution")) (py_get fact "capture_confidence")))
  | ReassignFactSubject _ _ new => Ok (<["subject_entity_id" := str_or_none new]> fact)
  | AddFact _ | MergeEntities _ _ _ _ | SplitEntity _ _ _ => Ok fact
  end.

(** [item.get('fact_id')] *)
Definition fact_id_of (item : Mutation) : option string :=
  match item with
  | SupersedeFact i _ _ _ | RefineFact i _ | RetractFact i _ | AddEvidence i _ | RemoveEvidence i _
  | TombstoneEvidence i _ _ _ | ReassignFactSubject i _ _ => if String.eqb i "" then None else Some i
  | AddFact _ | MergeEntities _ _ _ _ | SplitEntity _ _ _ => None
  end.

Definition _apply_mutation (facts : gmap string doc) (item : Mutation) (commit_time : option Z)
    : result pyexc (gmap string doc) :=
  match item with
  | AddFact fact =>
      match nonempty_str (py_get fact "id") with Some i => Ok (<[i := fact]> facts) | None => Ok facts end
  | _ =>
      match fact_id_of item ≫= fun i => pair i <$> facts !! i with
      | None => Ok facts
      | Some (i, fact) => let* fact' := change_fact fact item commit_time in Ok (<[i := fact']> facts)
      end
  end.

Fixpoint apply_mutations (facts : gmap string doc) (items : list Mutation) (commit_time : option Z)
    : result pyexc (gmap string doc) :=
  match items with
  | [] => Ok facts
  | item :: rest => let* facts' := _apply_mutation facts item commit_time in apply_mutations facts' rest commit_time
  end.

(** ** Views *)

Definition currently_valid (fact : doc) : bool := is_none (py_get fact "invalid_at").

Definition _fact_valid_at (fact : doc) (valid_time : Z) : result pyexc bool :=
  match py_or (py_get fact "qualifiers") (PDict []) with
  | PDict q =>
      let d := dict_doc q in
      let from := py_or (py_get d "valid_from") (py_get fact "valid_at") in
      let to := py_or (py_get d "valid_to") (py_get fact "invalid_at") in
      Ok (match as_time from with Some t => negb (valid_time <? t) | None => true end
          && match as_time to with Some t => negb (t <? valid_time) | None => true end)
  | _ => Raise (AttributeError "get")
  end.
