(* ===== verification/MemoryLedger.v ===== *)
(** The memory ledger ([database/memory_ledger.py]): an append-only chain of
    commits under a head that moves by compare-and-set, its replay into facts,
    the fences against deleted memories ([database/legal_holds.py],
    [database/account_deletion_policy.py]) and the trusted fields of the head
    document ([models/memory_state_head.py]).

    The text of [json.dumps] is a parameter.  What a caller's projection writer
    does to its own documents is a function on them. *)
From stdpp Require Import sorting.
From S2P Require Export MemoryFacts Sha256.

(** ** Commits *)

Record Commit : Type := {
  commit_id : string;
  parent_commit_id : option string;
  commit_time : option Z;
  run_id : option string;
  mutations : list Mutation;
}.

Definition typed (type_ : string) (payload : list (string * pyval)) : pyval := PDict (("type", PStr type_) :: payload).

(** The dictionary of a mutation. *)
Definition mutation_dict (item : Mutation) : pyval :=
  match item with
  | AddFact fact => typed "add_fact" [("fact", dict_value fact)]
  | SupersedeFact i by_ kind interval =>
      typed "supersede_fact" [("fact_id", PStr i); ("by", str_or_none by_); ("kind", PStr kind);
                              ("valid_interval", dict_value interval)]
  | RefineFact i changes => typed "refine_fact" [("fact_id", PStr i); ("arg_changes", dict_value changes)]
  | RetractFact i reason => typed "retract_fact" [("fact_id", PStr i); ("reason", PStr reason)]
  | AddEvidence i evidence => typed "add_evidence" [("fact_id", PStr i); ("evidence", dict_value evidence)]
  | RemoveEvidence i e => typed "remove_evidence" [("fact_id", PStr i); ("evidence_id", PStr e)]
  | TombstoneEvidence i e at_ reason =>
      typed "tombstone_evidence" [("fact_id", PStr i); ("evidence_id", PStr e); ("tombstoned_at", time_or_none at_);
                                  ("reason", PStr reason)]
  | MergeEntities a b evidence confidence =>
      typed "merge_entities" [("entity_a", PStr a); ("entity_b", PStr b); ("evidence", dict_value evidence);
                              ("confidence", PFloat confidence)]
  | SplitEntity e into reason =>
      typed "split_entity" [("entity_id", PStr e); ("into", PList (dict_value <$> into)); ("reason", PStr reason)]
  | ReassignFactSubject i old new =>
      typed "reassign_fact_subject" [("fact_id", PStr i); ("old", str_or_none old); ("new", str_or_none new)]
  end.

(** ** Documents the ledger reads and writes *)

(** The head document: the legacy head and the canonical stream's fields. *)
Record LedgerStore (P : Type) : Type := {
  state_head : option doc;
  apply_control : option doc;
  commits : gmap string Commit;
  memory_items : gmap string doc;
  memory_overrides : gmap string doc;
  account_deletion : option doc;
  deletion_gate : option doc;
  projection : P;
}.
Arguments state_head {P} _.
Arguments apply_control {P} _.
Arguments commits {P} _.
Arguments memory_items {P} _.
Arguments memory_overrides {P} _.
Arguments account_deletion {P} _.
Arguments deletion_gate {P} _.
Arguments projection {P} _.

Inductive LedgerError : Type :=
| HeadConflict (expected_parent current_head : option string)
| LegacyCommitPrivacyFence (msg : string)
| LegalHoldAuthorityUnavailable (msg : string)
| DestructiveOperationInProgress
| BuilderFailed (e : pyexc).

(** ** The fences *)

(** [isinstance(v, str) and v.strip()] *)
Definition filled (v : pyval) : bool :=
  match as_str v with Some s => negb (String.eqb (py_strip s) "") | None => false end.

Definition _validated_gate (gate : option doc) : result LedgerError (option doc) :=
  match gate with
  | None => Ok None
  | Some g =>
      let bad what := Raise (LegalHoldAuthorityUnavailable what) in
      if negb (is_str (py_get g "schema_version") "legal_hold_deletion_gate.v1")
      then bad "legal-hold deletion gate schema is unsupported"
      else if negb (existsb (is_str (py_get g "state")) ["running"; "failed"; "completed"])
      then bad "legal-hold deletion gate state is malformed"
      else match List.find (fun k => negb (filled (py_get g k))) ["uid"; "kind"; "token"] with
      | Some key => bad ("legal-hold deletion gate " ++ key ++ " is malformed")%string
      | None =>
           match as_time (py_get g "started_at") with
           | Some _ => Ok (Some g)
           | None => bad "legal-hold deletion gate timestamp is malformed"
           end
      end
  end.

Definition GATE_STALE_AFTER_SECONDS : Z := 6 * 60 * 60.

Definition _gate_blocks (gate : option doc) (now : Z) : bool :=
  match gate with
  | None => false
  | Some g =>
      is_str (py_get g "state") "running" && negb (is_str (py_get g "kind") "external_data_write")
      && match as_time (py_get g "started_at") with
         | Some t => now - t <? GATE_STALE_AFTER_SECONDS * 1000000
         | None => false
         end
  end.

Definition assert_no_destructive_operation_transaction (gate : option doc) (now : Z) : result LedgerError unit :=
  let* g := _validated_gate gate in
  if _gate_blocks g now then Raise DestructiveOperationInProgress else Ok tt.

Definition ACCOUNT_DELETION_INVALID_STATUS : string := "__invalid_account_deletion_status__".

Definition normalize_account_deletion_status (marker : option doc) : option string :=
  match marker with
  | None => None
  | Some d =>
      Some (match as_str (py_get d "wipe_status") with
            | Some s => if String.eqb (py_strip s) "" then ACCOUNT_DELETION_INVALID_STATUS else py_strip s
            | None => ACCOUNT_DELETION_INVALID_STATUS
            end)
  end.

Definition account_deletion_blocks_access (status : option string) : bool :=
  match status with
  | None => false
  | Some s => negb (existsb (String.eqb s) ["cancelled"; "billing_failed"])
  end.

(** The ids a mutation names, [entry['fact']['id']], ['fact_id'] and ['by']. *)
Definition ids_of_mutation (item : Mutation) : list string :=
  match item with
  | AddFact fact => option_list (nonempty_str (py_get fact "id"))
  | SupersedeFact _ by_ _ _ =>
      option_list (fact_id_of item) ++ option_list (by_ ≫= fun b => if String.eqb b "" then None else Some b)
  | _ => option_list (fact_id_of item)
  end.

Definition _mutation_memory_ids (items : list Mutation) : gset string := list_to_set (concat (ids_of_mutation <$> items)).

Definition tombstoned (d : option doc) : bool :=
  match d with Some x => is_str (py_get x "status") "tombstoned" | None => false end.

Definition _assert_legacy_commit_privacy_fences {P} (st : LedgerStore P) (now : Z) (items : list Mutation)
    : result LedgerError unit :=
  let* _ := assert_no_destructive_operation_transaction (deletion_gate st) now in
  if account_deletion_blocks_access (normalize_account_deletion_status (account_deletion st))
  then Raise (LegacyCommitPrivacyFence "legacy memory commit blocked by account deletion") else
  let ids := elements (_mutation_memory_ids items) in
  if (200 <? length ids)%nat
  then Raise (LegacyCommitPrivacyFence "legacy memory commit identity inventory is too large") else
  if existsb (fun i => tombstoned (memory_items st !! i) || tombstoned (memory_overrides st !! i)) ids
  then Raise (LegacyCommitPrivacyFence "legacy memory commit references a privacy-deleted memory") else Ok tt.

(** ** The head document *)

Definition nonneg_int (v : pyval) : bool := match v with PInt z => 0 <=? z | _ => false end.

Definition trusted_memory_state_head_fields (uid : string) (account_generation head_commit_id commit_sequence : pyval)
    : option (list (string * field_write)) :=
  if String.eqb uid "" || negb (nonneg_int account_generation)
     || negb (bool_decide (is_Some (nonempty_str head_commit_id))) || negb (nonneg_int commit_sequence)
  then None
  else Some [put_int "schema_version" 1; put_str "uid" uid; put_str "source" "memory_state_head";
             ("account_generation", Put account_generation); ("head_commit_id", Put head_commit_id);
             ("commit_sequence", Put commit_sequence)].

Definition trusted_from (d : doc) (uid : string) : option (list (string * field_write)) :=
  trusted_memory_state_head_fields uid (py_get d "account_generation") (py_get d "head_commit_id") (py_get d "commit_sequence").

Definition trusted_memory_state_head_fields_from_state (state : doc) (uid : string) : option (list (string * field_write)) :=
  if py_eqb (py_get state "schema_version") (PInt 1) && is_str (py_get state "uid") uid
     && is_str (py_get state "source") "memory_state_head"
  then trusted_from state uid else None.

Definition trusted_memory_state_head_fields_from_control (control : doc) (uid : string) : option (list (string * field_write)) :=
  if is_str (py_get control "uid") uid then trusted_from control uid else None.

(** [state.get('current_head_commit_id')], which is a string or nothing: only an
    append writes it. *)
Definition current_head {P} (st : LedgerStore P) : option string :=
  state_head st ≫= fun d => as_str (py_get d "current_head_commit_id").

Definition _state_head_write_payload {P} (st : LedgerStore P) (uid : string) (c : Commit) : doc :=
  let own := trusted_memory_state_head_fields_from_state (default ∅ (state_head st)) uid in
  let trusted := match own with
                 | Some f => Some f
                 | None => trusted_memory_state_head_fields_from_control (default ∅ (apply_control st)) uid
                 end in
  doc_set ([put_str "current_head_commit_id" (commit_id c); put_int "projection_version" 1;
            ("updated_at", Put (time_or_none (commit_time c)))] ++ default [] trusted).

(** ** Building a commit *)

Section Ledger.
Context (canonical_json : pyval -> string).

Definition commit_id_for (parent : option string) (items : list Mutation) : string :=
  hex (sha256 (canonical_json (PDict [("parent_commit_id", str_or_none parent);
                                      ("mutations", PList (mutation_dict <$> items))]))).

(** [now] is the clock reading of a caller that passes no time; [fence_now] below
    that of the fences. *)
Definition build_commit (parent : option string) (items : list Mutation) (run : option string) (at_ : option Z) (now : Z)
    : Commit :=
  {| commit_id := commit_id_for parent items; parent_commit_id := parent;
     commit_time := Some (default now at_); run_id := run; mutations := items |}.

(** ** Appending *)

(** The answer of an append: the commit, and whether this call applied it. *)
Definition Appended : Type := Commit * bool.

(** [append_commit_to_history], on the head and the commits. *)
Definition append_commit_to_history (history : option string * gmap string Commit) (parent : option string)
    (items : list Mutation) (run : option string) (at_ : option Z) (now : Z) (use_current_head : bool)
    : result LedgerError (option string * gmap string Commit * Appended) :=
  let '(head, cs) := history in
  let expected := if use_current_head then head else parent in
  let c := build_commit expected items run at_ now in
  match cs !! commit_id c with
  | Some known => Ok (head, cs, (known, false))
  | None =>
      if negb (bool_decide (head = expected)) then Raise (HeadConflict expected head)
      else Ok (Some (commit_id c), <[commit_id c := c]> cs, (c, true))
  end.

Context {P : Type}.
Local Abbreviation Store := (LedgerStore P).

(** The writes of an append: projection, commit, head. *)
Definition with_commit (st : Store) (uid : string) (c : Commit) (write : P -> P) : Store :=
  {| state_head := Some (_state_head_write_payload st uid c); apply_control := apply_control st;
     commits := <[commit_id c := c]> (commits st); memory_items := memory_items st;
     memory_overrides := memory_overrides st; account_deletion := account_deletion st;
     deletion_gate := deletion_gate st; projection := write (projection st) |}.

Definition _append_commit_transaction (st : Store) (uid : string) (parent : option string) (items : list Mutation)
    (run : option string) (at_ : option Z) (now fence_now : Z) (projection_writer : P -> P) (use_current_head : bool)
    : result LedgerError (Store * Appended) :=
  let head := current_head st in
  let expected := if use_current_head then head else parent in
  let c := build_commit expected items run at_ now in
  match commits st !! commit_id c with
  | Some known => Ok (st, (known, false))
  | None =>
      if negb (bool_decide (head = expected)) then Raise (HeadConflict expected head) else
      let* _ := _assert_legacy_commit_privacy_fences st fence_now items in
      Ok (with_commit st uid c projection_writer, (c, true))
  end.

Definition _append_commit_with_builder_transaction (st : Store) (uid : string) (parent : option string)
    (mutation_builder : Store -> result pyexc (list Mutation * (P -> P)))
    (run : option string) (at_ : option Z) (now fence_now : Z) (use_current_head : bool)
    : result LedgerError (Store * Appended) :=
  let head := current_head st in
  let expected := if use_current_head then head else parent in
  if negb (bool_decide (head = expected)) then Raise (HeadConflict expected head) else
  match mutation_builder st with
  | Raise e => Raise (BuilderFailed e)
  | Ok (items, projection_writer) =>
      let* _ := _assert_legacy_commit_privacy_fences st fence_now items in
      let c := build_commit expected items run at_ now in
      match commits st !! commit_id c with
      | Some known => Ok (st, (known, false))
      | None => Ok (with_commit st uid c projection_writer, (c, true))
      end
  end.
End Ledger.

(** ** Replay *)

(** [datetime.min], in microseconds since the epoch. *)
Definition DATETIME_MIN : Z := -62135596800 * 1000000.

Definition time_key (c : Commit) : Z := default DATETIME_MIN (commit_time c).

Definition older_commit (a b : Commit) : Prop := time_key a <= time_key b.

#[export] Instance older_commit_dec : RelDecision older_commit.
Proof. intros a b. unfold older_commit. apply _. Defined.

Fixpoint fold_in_order (facts : gmap string doc) (cs : list Commit) : result pyexc (gmap string doc) :=
  match cs with
  | [] => Ok facts
  | c :: rest =>
      let* facts' := apply_mutations facts (mutations c) (commit_time c) in fold_in_order facts' rest
  end.

(** The facts valid at a time; [None] on a fact that cannot be read raises. *)
Definition valid_facts (facts : gmap string doc) (valid_time : Z) : result pyexc (gmap string doc) :=
  foldr (fun kv acc => let* m := acc in let* ok := _fact_valid_at kv.2 valid_time in
                       Ok (if (ok : bool) then <[kv.1 := kv.2]> m else m)) (Ok ∅) (map_to_list facts).

Definition fold_commits (cs : list Commit) (valid_time : option Z) : result pyexc (gmap string doc) :=
  let* facts := fold_in_order ∅ (merge_sort older_commit cs) in
  match valid_time with
  | None => Ok (base.filter (fun kv => currently_valid kv.2 = true) facts)
  | Some t => valid_facts facts t
  end.

(** [replay_to]: [documents] are the commits in the order the query returns
    them; all of them have a time. *)
Definition replay_to (documents : list Commit) (until valid_time : option Z) : result pyexc (gmap string doc) :=
  fold_commits (base.filter (fun c => match until with Some t => time_key c <=? t | None => true end = true) documents)
    valid_time.

(** ** Differences *)

Definition diff (commit_a commit_b : Commit) : list Mutation :=
  if bool_decide (parent_commit_id commit_b = Some (commit_id commit_a)) then mutations commit_b else [].

(** The last commit of each parent. *)
Definition by_parent (cs : list Commit) (parent : option string) : option Commit :=
  last (base.filter (fun c => parent_commit_id c = parent) cs).

(** The walk of [diff_commits]; [None] when it would go on for ever. *)
Fixpoint diff_walk (fuel : nat) (cs : list Commit) (cursor : option string) (to : string) (out : list Mutation)
    : option (list Mutation) :=
  if bool_decide (cursor = Some to) then Some out else
  match by_parent cs cursor with
  | None => Some []
  | Some c =>
      match fuel with
      | O => None
      | S fuel' => diff_walk fuel' cs (Some (commit_id c)) to (out ++ mutations c)
      end
  end.

Definition diff_commits (cs : list Commit) (from : option string) (to : string) : option (list Mutation) :=
  diff_walk (length cs) cs from to [].
