(* ===== verification/MemoryLedgerOps.v ===== *)
(** What the memory ledger guarantees: its commits form one chain that only
    grows, appending is idempotent and keeps deleted memories out, replay and
    differences follow the chain, and a retracted fact stays hidden. *)
From stdpp Require Import sorting.
From S2P Require Export MemoryLedger.

(** ** Chains of commits *)

Fixpoint linked (parent : option string) (h : list Commit) : Prop :=
  match h with
  | [] => True
  | c :: rest => parent_commit_id c = parent /\ linked (Some (commit_id c)) rest
  end.

(** The id of the last commit. *)
Definition tip (parent : option string) (h : list Commit) : option string :=
  match last h with Some c => Some (commit_id c) | None => parent end.

Lemma tip_cons p c h : tip p (c :: h) = tip (Some (commit_id c)) h.
Proof. unfold tip. rewrite last_cons. by destruct (last h). Qed.

Lemma tip_snoc p h c : tip p (h ++ [c]) = Some (commit_id c).
Proof. unfold tip. by rewrite last_snoc. Qed.

Lemma linked_app p h k : linked p (h ++ k) <-> linked p h /\ linked (tip p h) k.
Proof.
  revert p. induction h as [|c h IH]; intros p; [by cbn; split; [|intros []]|].
  cbn [linked app]. rewrite IH, tip_cons. tauto.
Qed.

(** The commits under their ids are the chain [h], which ends in the head. *)
Record chain (head : option string) (cs : gmap string Commit) (h : list Commit) : Prop := {
  ch_linked : linked None h;
  ch_distinct : NoDup (commit_id <$> h);
  ch_tip : tip None h = head;
  ch_commits : forall i c, cs !! i = Some c <-> c ∈ h /\ commit_id c = i;
}.

Lemma empty_chain : chain None ∅ [].
Proof.
  split; [done|constructor|done|]. intros i c. rewrite lookup_empty. split; [done|by intros [?%not_elem_of_nil _]].
Qed.

Lemma chain_append head cs h c :
  chain head cs h -> parent_commit_id c = head -> cs !! commit_id c = None ->
  chain (Some (commit_id c)) (<[commit_id c := c]> cs) (h ++ [c]).
Proof.
  intros [Hl Hd Ht Hc] Hp Hn. split.
  - apply linked_app. split; [done|]. cbn. by rewrite Ht.
  - rewrite fmap_app. apply NoDup_app. split_and!; [done| |apply NoDup_singleton].
    intros i [d [-> Hd']]%list_elem_of_fmap [= Heq]%list_elem_of_singleton.
    assert (cs !! commit_id c = Some d) as H by (apply Hc; by split). congruence.
  - apply tip_snoc.
  - intros i d. rewrite lookup_insert_Some, Hc, elem_of_app, list_elem_of_singleton. split.
    + intros [[<- <-]|[_ [? ?]]]; [by split; [right|]|by split; [left|]].
    + intros [[Hin| ->] <-]; [right|by left]. split; [|done]. intros Heq.
      assert (cs !! commit_id d = Some d) as H by (by apply Hc). congruence.
Qed.

(** ** The head document *)

Lemma trusted_keys uid a h n f :
  trusted_memory_state_head_fields uid a h n = Some f ->
  f = [put_int "schema_version" 1; put_str "uid" uid; put_str "source" "memory_state_head";
       ("account_generation", Put a); ("head_commit_id", Put h); ("commit_sequence", Put n)].
Proof. unfold trusted_memory_state_head_fields. destruct (_ || _ || _ || _); [done|by intros [= <-]]. Qed.

Lemma trusted_from_keys d uid f :
  trusted_from d uid = Some f ->
  exists a h n, trusted_memory_state_head_fields uid a h n = Some f /\
    f = [put_int "schema_version" 1; put_str "uid" uid; put_str "source" "memory_state_head";
         ("account_generation", Put a); ("head_commit_id", Put h); ("commit_sequence", Put n)].
Proof. intros H. unfold trusted_from in H. eexists _, _, _. split; [exact H|]. by eapply trusted_keys. Qed.

(** The fields of the canonical stream that an append writes to the head. *)
Definition kept_fields {P} (st : LedgerStore P) (uid : string) : option (list (string * field_write)) :=
  match trusted_memory_state_head_fields_from_state (default ∅ (state_head st)) uid with
  | Some f => Some f
  | None => trusted_memory_state_head_fields_from_control (default ∅ (apply_control st)) uid
  end.

Lemma kept_trusted {P} (st : LedgerStore P) uid f :
  kept_fields st uid = Some f -> exists a h n, trusted_memory_state_head_fields uid a h n = Some f /\
    f = [put_int "schema_version" 1; put_str "uid" uid; put_str "source" "memory_state_head";
         ("account_generation", Put a); ("head_commit_id", Put h); ("commit_sequence", Put n)].
Proof.
  unfold kept_fields, trusted_memory_state_head_fields_from_state, trusted_memory_state_head_fields_from_control.
  destruct (_ && _ && _); [destruct (trusted_from _ _) eqn:E; [intros [= <-]; by eapply trusted_from_keys|]|];
    (destruct (is_str _ _); [|done]); by apply trusted_from_keys.
Qed.

Lemma payload_head {P} (st : LedgerStore P) uid c :
  py_get (_state_head_write_payload st uid c) "current_head_commit_id" = PStr (commit_id c).
Proof.
  unfold _state_head_write_payload. fold (kept_fields st uid). destruct (kept_fields st uid) as [f|] eqn:E.
  - apply kept_trusted in E as (a & h & n & _ & ->). unfold doc_set. cbn [app from_option id]. by doc_simpl.
  - unfold doc_set. cbn [app from_option id]. by doc_simpl.
Qed.

(** The head document after an append holds the fields that were to be kept. *)
Lemma payload_trusted {P} (st : LedgerStore P) uid c :
  trusted_memory_state_head_fields_from_state (_state_head_write_payload st uid c) uid = kept_fields st uid.
Proof.
  unfold _state_head_write_payload. fold (kept_fields st uid). destruct (kept_fields st uid) as [f|] eqn:E.
  - apply kept_trusted in E as (a & h & n & Hf & ->).
    unfold trusted_memory_state_head_fields_from_state, trusted_from, doc_set. cbn [app from_option id]. doc_simpl.
    unfold id. by rewrite (proj2 (is_str_spec (PStr uid) uid) eq_refl).
  - unfold trusted_memory_state_head_fields_from_state, doc_set. cbn [app from_option id]. by doc_simpl.
Qed.

(** ** Appending *)

Section Append.
Context (canonical_json : pyval -> string) {P : Type}.

Local Abbreviation Store := (LedgerStore P).
Local Abbreviation append := (_append_commit_transaction canonical_json).
Local Abbreviation append_built := (_append_commit_with_builder_transaction canonical_json).
Local Abbreviation history_append := (append_commit_to_history canonical_json).
Local Abbreviation build := (build_commit canonical_json).

Implicit Types st : Store.

Lemma head_after st uid c (w : P -> P) : current_head (with_commit st uid c w) = Some (commit_id c).
Proof. unfold current_head, with_commit. cbn [state_head mbind option_bind]. by rewrite payload_head. Qed.

(** Nothing tombstoned is named by mutations that pass the fences. *)
Lemma fences_pass st now items i :
  _assert_legacy_commit_privacy_fences st now items = Ok tt -> i ∈ _mutation_memory_ids items ->
  tombstoned (memory_items st !! i) = false /\ tombstoned (memory_overrides st !! i) = false.
Proof.
  unfold _assert_legacy_commit_privacy_fences. intros (u & _ & H)%rbind_ok Hi.
  destruct (account_deletion_blocks_access _); [done|]. destruct (_ <? _)%nat; [done|].
  destruct (existsb _ _) eqn:E; [done|]. apply orb_false_iff. destruct (_ || _) eqn:Ht; [|done].
  rewrite <- E. symmetry. apply existsb_exists. exists i. split; [|exact Ht].
  by apply list_elem_of_In, elem_of_elements.
Qed.

(** C23: appending implements the plain history and keeps deleted memories out.
    The transaction answers as [append_commit_to_history] does on the head and
    the commits it reads: the same conflict, the same known commit, with nothing
    written; and where the history is extended, either a fence refuses and
    nothing is written, or the head and the commits are exactly the extended
    history's, no mutation names a memory that is tombstoned or suppressed, and
    the fields of the canonical stream in the shared head document survive. *)
Theorem append_implements_history st uid parent items run at_ now fence_now (writer : P -> P) use_head :
  match history_append (current_head st, commits st) parent items run at_ now use_head with
  | Raise e => append st uid parent items run at_ now fence_now writer use_head = Raise e
  | Ok (_, (c, false)) => append st uid parent items run at_ now fence_now writer use_head = Ok (st, (c, false))
  | Ok (history, (c, true)) =>
      (exists e, _assert_legacy_commit_privacy_fences st fence_now items = Raise e /\
         append st uid parent items run at_ now fence_now writer use_head = Raise e) \/
      exists st', append st uid parent items run at_ now fence_now writer use_head = Ok (st', (c, true)) /\
        (current_head st', commits st') = history /\
        (forall i, i ∈ _mutation_memory_ids items ->
           tombstoned (memory_items st !! i) = false /\ tombstoned (memory_overrides st !! i) = false) /\
        trusted_memory_state_head_fields_from_state (default ∅ (state_head st')) uid = kept_fields st uid
  end.
Proof.
  unfold append_commit_to_history, _append_commit_transaction.
  set (c := build _ _ _ _ _). destruct (commits st !! commit_id c) as [known|] eqn:E; [done|].
  destruct (negb _); [done|]. destruct (_assert_legacy_commit_privacy_fences st fence_now items) as [[]|e] eqn:Hf; cbn [rbind].
  - right. eexists. split; [done|]. split_and!; [by rewrite head_after|by intros i; eapply fences_pass|apply payload_trusted].
  - left. by exists e.
Qed.

Lemma unapplied_is_known st uid parent items run at_ now fence_now (writer : P -> P) use_head st' c :
  append st uid parent items run at_ now fence_now writer use_head = Ok (st', (c, false)) -> st = st'.
Proof.
  unfold _append_commit_transaction. set (d := build _ _ _ _ _). destruct (commits st !! commit_id d); [by intros [= <- _]|].
  destruct (negb _); [done|]. by intros ([] & _ & [=])%rbind_ok.
Qed.

(** An applied commit is new; a known one is in the ledger. *)
Lemma applied_is_new st uid parent items run at_ now fence_now (writer : P -> P) use_head st' c applied :
  append st uid parent items run at_ now fence_now writer use_head = Ok (st', (c, applied)) ->
  if applied then commits st !! commit_id c = None else exists k, commits st !! k = Some c.
Proof.
  unfold _append_commit_transaction. set (d := build _ _ _ _ _).
  destruct (commits st !! commit_id d) as [known|] eqn:Hd; [intros [= _ <- <-]; by exists (commit_id d)|].
  destruct (negb _); [done|]. by intros ([] & _ & [= _ <- <-])%rbind_ok.
Qed.

Lemma applied_is_stored st uid parent items run at_ now fence_now (writer : P -> P) use_head st' c :
  append st uid parent items run at_ now fence_now writer use_head = Ok (st', (c, true)) ->
  commits st' !! commit_id c = Some c.
Proof.
  unfold _append_commit_transaction. set (d := build _ _ _ _ _). destruct (commits st !! commit_id d); [done|].
  destruct (negb _); [done|]. intros ([] & _ & [= <- <-])%rbind_ok. apply lookup_insert_eq.
Qed.

(** Another writer changes anything but the commits and the legacy head. *)
Definition elsewhere st st' : Prop := commits st' = commits st /\ current_head st' = current_head st.

Inductive ledger_step st st' : Prop :=
| step_append uid parent items run at_ now fence_now writer use_head answer :
    append st uid parent items run at_ now fence_now writer use_head = Ok (st', answer) -> ledger_step st st'
| step_build uid parent builder run at_ now fence_now use_head answer :
    append_built st uid parent builder run at_ now fence_now use_head = Ok (st', answer) -> ledger_step st st'
| step_elsewhere : elsewhere st st' -> ledger_step st st'.

Lemma step_cases st st' :
  ledger_step st st' ->
  elsewhere st st' \/ exists c, parent_commit_id c = current_head st /\ commits st !! commit_id c = None /\
    current_head st' = Some (commit_id c) /\ commits st' = <[commit_id c := c]> (commits st).
Proof.
  intros [uid parent items run at_ now fence_now writer use_head answer H
         |uid parent builder run at_ now fence_now use_head answer H|H]; [| |by left].
  - unfold _append_commit_transaction in H. set (c := build _ _ _ _ _) in H.
    destruct (commits st !! commit_id c) eqn:E; [injection H as <- _; by left|].
    case_bool_decide as Hh; [|done]. cbn [negb] in H. apply rbind_ok in H as ([] & _ & [= <- _]). right. exists c.
    split_and!; [by rewrite Hh|done|apply head_after|done].
  - unfold _append_commit_with_builder_transaction in H. case_bool_decide as Hh; [|done]. cbn [negb] in H.
    destruct (builder st) as [[items writer]|]; [|done]. apply rbind_ok in H as ([] & _ & H).
    set (c := build _ _ _ _ _) in H. destruct (commits st !! commit_id c) eqn:E; [injection H as <- _; by left|].
    injection H as <- _. right. exists c. split_and!; [by rewrite Hh|done|apply head_after|done].
Qed.

(** What a step stores has passed the fences in the state before it. *)
Lemma step_fenced st st' :
  ledger_step st st' ->
  commits st' = commits st \/ exists c now, _assert_legacy_commit_privacy_fences st now (mutations c) = Ok tt /\
    commits st' = <[commit_id c := c]> (commits st).
Proof.
  intros [uid parent items run at_ now fence_now writer use_head answer H
         |uid parent builder run at_ now fence_now use_head answer H|H]; [| |left; by destruct H].
  - unfold _append_commit_transaction in H. set (c := build _ _ _ _ _) in H.
    destruct (commits st !! commit_id c); [injection H as <- _; by left|]. destruct (negb _); [done|].
    apply rbind_ok in H as ([] & Hf & [= <- _]). right. by exists c, fence_now.
  - unfold _append_commit_with_builder_transaction in H. destruct (negb _); [done|].
    destruct (builder st) as [[items writer]|]; [|done]. apply rbind_ok in H as ([] & Hf & H).
    set (c := build _ _ _ _ _) in H. destruct (commits st !! commit_id c); [injection H as <- _; by left|].
    injection H as <- _. right. by exists c, fence_now.
Qed.

Lemma step_chain st st' h :
  ledger_step st st' -> chain (current_head st) (commits st) h ->
  exists k, chain (current_head st') (commits st') (h ++ k).
Proof.
  intros [[-> ->]|(c & Hp & Hn & -> & ->)]%step_cases Hc; [exists []; by rewrite app_nil_r|exists [c]; by eapply chain_append].
Qed.

Definition empty_ledger st : Prop := commits st = ∅ /\ current_head st = None.

(** C4: the ledger is one chain that only grows.  Whatever appends run, with any
    parents, builders, clocks and failures, interleaved with any writes of other
    documents, the stored commits form a single chain of distinct ids from the
    root to the head, each under its own id; and whatever happens afterwards
    extends that chain at its end. *)
Theorem ledger_is_a_chain st :
  reachable empty_ledger ledger_step st ->
  exists h, chain (current_head st) (commits st) h /\
    forall st', star ledger_step st st' -> exists k, chain (current_head st') (commits st') (h ++ k).
Proof.
  intros Hr. assert (exists h, chain (current_head st) (commits st) h) as [h Hh].
  { induction Hr as [st [-> ->]|st st' _ [h Hh] Hs]; [exists []; apply empty_chain|].
    destruct (step_chain _ _ _ Hs Hh) as [k Hk]. by eexists. }
  exists h. split; [done|]. intros st' Hst. clear Hr. revert h Hh.
  induction Hst as [st|st1 st2 st3 Hs _ IH]; intros h Hh; [exists []; by rewrite app_nil_r|].
  destruct (step_chain _ _ _ Hs Hh) as [k Hk]. destruct (IH _ Hk) as [k' Hk']. exists (k ++ k'). by rewrite app_assoc.
Qed.

Lemma commits_grow st st' : star ledger_step st st' -> commits st ⊆ commits st'.
Proof.
  induction 1 as [st|st1 st2 st3 Hs _ IH]; [done|]. etrans; [|exact IH].
  destruct (step_cases _ _ Hs) as [[-> _]|(c & _ & Hn & _ & ->)]; [done|by apply insert_subseteq].
Qed.

(** An append can be sent again at any time.  Once an append under an explicit
    parent has answered, the same call, after whatever else was committed since,
    writes nothing and answers with the very commit, as not applied. *)
Theorem append_is_idempotent st uid parent items run at_ now fence_now (writer : P -> P) st1 c applied st2 run' at' now' fence_now' writer' :
  append st uid parent items run at_ now fence_now writer false = Ok (st1, (c, applied)) ->
  star ledger_step st1 st2 ->
  append st2 uid parent items run' at' now' fence_now' writer' false = Ok (st2, (c, false)).
Proof.
  intros H Hst. assert (commits st1 !! commit_id_for canonical_json parent items = Some c) as Hc.
  { unfold _append_commit_transaction in H. cbn [build_commit commit_id] in H. destruct (commits st !! _) as [known|] eqn:E.
    - by injection H as <- <- _.
    - destruct (negb _); [done|]. apply rbind_ok in H as ([] & _ & [= <- <- _]). apply lookup_insert_eq. }
  unfold _append_commit_transaction. cbn [build_commit commit_id].
  by rewrite (lookup_weaken _ _ _ _ Hc (commits_grow _ _ Hst)).
Qed.
End Append.
