(* ===== verification/MemoryReplay.v ===== *)
(** What replay and differences of the memory ledger give on a chain, and that a
    fact which was retracted or superseded stays hidden. *)
From stdpp Require Import sorting.
From S2P Require Export MemoryLedgerOps.

#[export] Instance older_commit_trans : Transitive older_commit.
Proof. intros a b c. unfold older_commit. lia. Qed.

#[export] Instance older_commit_total : Total older_commit.
Proof. intros a b. unfold older_commit. lia. Qed.

(** ** Replay follows the chain *)

(** Each commit is later than those before it. *)
Definition before (a b : Commit) : Prop := time_key a < time_key b.

(** A commit that a replay up to [until] includes. *)
Definition included (until : option Z) (c : Commit) : Prop :=
  match until with Some t => time_key c <=? t | None => true end = true.

#[export] Instance included_dec until c : Decision (included until c).
Proof. unfold included. apply _. Defined.

Lemma timed_distinct h a b :
  StronglySorted before h -> a ∈ h -> b ∈ h -> time_key a = time_key b -> a = b.
Proof.
  induction 1 as [|c l _ IH Hc]; [by intros ?%not_elem_of_nil|]. rewrite Forall_forall in Hc. unfold before in Hc.
  intros [->|Ha]%elem_of_cons [->|Hb]%elem_of_cons Heq; [done|pose proof (Hc _ Hb); lia|pose proof (Hc _ Ha); lia|by apply IH].
Qed.

Lemma sort_timed h docs : StronglySorted before h -> docs ≡ₚ h -> merge_sort older_commit docs = h.
Proof.
  intros Hh Hp. apply (StronglySorted_unique_strong older_commit).
  - intros a b Ha Hb Hab Hba. rewrite merge_sort_Permutation, Hp in Ha.
    apply (timed_distinct h a b); [done..|]. unfold older_commit in *. lia.
  - apply (StronglySorted_merge_sort older_commit).
  - clear Hp. induction Hh as [|a l Hl IH Ha]; constructor; [done|]. eapply Forall_impl; [exact Ha|].
    intros b Hb. unfold before, older_commit in *. lia.
  - by rewrite merge_sort_Permutation.
Qed.

Lemma included_none until a h : ~ included until a -> Forall (before a) h -> base.filter (included until) h = [].
Proof.
  intros Ha Hh. induction Hh as [|b l Hb _ IH]; [done|]. rewrite filter_cons_False; [done|].
  unfold included, before in *. destruct until; [|done]. lia.
Qed.

Lemma included_prefix until h :
  StronglySorted before h ->
  exists later, h = base.filter (included until) h ++ later /\ Forall (fun c => ~ included until c) later.
Proof.
  induction 1 as [|a l Hl [later [Heq Hlate]] Ha]; [by exists []|].
  destruct (decide (included until a)) as [Hi|Hi].
  - exists later. rewrite filter_cons_True by done. cbn [app]. by rewrite <- Heq.
  - exists (a :: l). rewrite filter_cons_False by done. rewrite (included_none until a l) by done. split; [done|].
    constructor; [done|]. eapply Forall_impl; [exact Ha|]. unfold included, before in *. intros b Hb. destruct until; [|done]. lia.
Qed.

(** The view of the facts at a valid time. *)
Definition view (facts : gmap string doc) (valid_time : option Z) : result pyexc (gmap string doc) :=
  match valid_time with
  | None => Ok (base.filter (fun kv => currently_valid kv.2 = true) facts)
  | Some t => valid_facts facts t
  end.

Lemma sorted_filter until h : StronglySorted before h -> StronglySorted before (base.filter (included until) h).
Proof.
  induction 1 as [|a l Hl IH Ha]; [constructor|]. rewrite filter_cons. destruct (decide _); [|done].
  constructor; [done|]. apply Forall_forall. intros b [_ Hb]%list_elem_of_filter. rewrite Forall_forall in Ha. by apply Ha.
Qed.

Lemma replay_prefix h docs until valid_time :
  StronglySorted before h -> docs ≡ₚ h ->
  replay_to docs until valid_time =
  (let* facts := fold_in_order ∅ (base.filter (included until) h) in view facts valid_time).
Proof.
  intros Hh Hp. unfold replay_to, fold_commits.
  rewrite (sort_timed (base.filter (included until) h)); [done|by apply sorted_filter|by rewrite <- Hp].
Qed.

(** Replay reads the ledger as the chain it is.  When each commit of the chain
    is later than its parent, the facts at a time are those that the commits up to
    that time leave when they are applied in the order of the chain, whatever order
    the commits are read in; no later commit counts. *)
Theorem replay_follows_the_chain h docs until valid_time :
  StronglySorted before h -> docs ≡ₚ h ->
  exists earlier later, h = earlier ++ later /\
    Forall (included until) earlier /\ Forall (fun c => ~ included until c) later /\
    replay_to docs until valid_time = (let* facts := fold_in_order ∅ earlier in view facts valid_time).
Proof.
  intros Hh Hp. destruct (included_prefix until h Hh) as (later & Heq & Hlater).
  exists (base.filter (included until) h), later. split_and!; [done| |done|by apply replay_prefix].
  apply Forall_forall. by intros c [Hc _]%list_elem_of_filter.
Qed.

(** ** Differences *)

Lemma by_parent_unique cs p c :
  c ∈ cs -> parent_commit_id c = p -> (forall d, d ∈ cs -> parent_commit_id d = p -> d = c) -> by_parent cs p = Some c.
Proof.
  intros Hc Hp Hu. unfold by_parent.
  destruct (last (base.filter _ cs)) as [d|] eqn:E.
  - f_equal. apply last_Some_elem_of, list_elem_of_filter in E as [Hd Hin]. by apply Hu.
  - apply last_None in E. exfalso. eapply not_elem_of_nil. rewrite <- E. apply list_elem_of_filter. by split.
Qed.

Lemma by_parent_none cs p : (forall d, d ∈ cs -> parent_commit_id d <> p) -> by_parent cs p = None.
Proof.
  intros H. unfold by_parent. destruct (last _) as [d|] eqn:E; [|done].
  apply last_Some_elem_of, list_elem_of_filter in E as [Hp Hd]. by destruct (H d Hd).
Qed.

Lemma tip_app p h k : tip p (h ++ k) = tip (tip p h) k.
Proof.
  revert p. induction h as [|c h IH]; intros p; [done|]. cbn [app]. by rewrite !tip_cons.
Qed.

(** In a chain the parent of a commit tells its place. *)
Lemma chain_parent p h c :
  linked p h -> c ∈ h -> exists h1 h2, h = h1 ++ c :: h2 /\ tip p h1 = parent_commit_id c.
Proof.
  intros Hl (h1 & h2 & ->)%list_elem_of_split. apply linked_app in Hl as [_ [Hp _]]. by exists h1, h2.
Qed.

Lemma tip_prefix h h1 h2 k1 k2 :
  NoDup (commit_id <$> h) -> h = h1 ++ h2 -> h = k1 ++ k2 -> tip None h1 = tip None k1 -> h1 = k1.
Proof.
  intros Hd -> Heq Ht. revert Hd Heq Ht.
  destruct h1 as [|a h1 _] using rev_ind; destruct k1 as [|b k1 _] using rev_ind; intros Hd Heq Ht;
    rewrite ?tip_snoc in Ht; [done|done|done|]. injection Ht as Hab.
  rewrite <- !app_assoc in Heq. cbn [app] in Heq. rewrite <- app_assoc in Hd. cbn [app] in Hd.
  assert (length h1 = length k1) as Hlen.
  { apply (NoDup_lookup _ _ _ (commit_id a) Hd); rewrite list_lookup_fmap; [by rewrite list_lookup_middle|].
    rewrite Heq, list_lookup_middle by done. cbn. by rewrite Hab. }
  apply app_inj_1 in Heq as [-> [= -> _]]; done.
Qed.

Section Diff.
Context (h docs : list Commit) (Hl : linked None h) (Hd : NoDup (commit_id <$> h)) (Hp : docs ≡ₚ h).

Lemma parent_after h1 c h2 : h = h1 ++ c :: h2 -> by_parent docs (tip None h1) = Some c.
Proof.
  intros Hh. pose proof Hl as Hl'. rewrite Hh, linked_app in Hl'. destruct Hl' as [_ [Hc _]].
  apply by_parent_unique; [rewrite Hp, Hh; apply elem_of_app; right; left|done|].
  intros d Hdin Hdp. rewrite Hp in Hdin. destruct (chain_parent _ _ _ Hl Hdin) as (k1 & k2 & Hk & Ht).
  assert (h1 = k1) as -> by (eapply tip_prefix; [exact Hd|exact Hh|exact Hk|by rewrite Ht]).
  rewrite Hh in Hk. by apply app_inv_head in Hk as [= -> _].
Qed.

Lemma parent_last : by_parent docs (tip None h) = None.
Proof.
  apply by_parent_none. intros d Hdin Hdp. rewrite Hp in Hdin.
  destruct (chain_parent _ _ _ Hl Hdin) as (k1 & k2 & Hk & Ht).
  assert (h = k1) as Heq by (apply (tip_prefix h h [] k1 (d :: k2)); [done|by rewrite app_nil_r|done|congruence]).
  rewrite <- Heq in Hk. apply (f_equal length) in Hk. rewrite length_app in Hk. cbn in Hk. lia.
Qed.

(** From a place in the chain the walk reaches a later commit or answers []. *)
Lemma walk_from k1 rest fuel to out :
  h = k1 ++ rest -> (length rest <= fuel)%nat ->
  exists r, diff_walk fuel docs (tip None k1) to out = Some r /\
    ((exists k2 k3, rest = k2 ++ k3 /\ tip (tip None k1) k2 = Some to /\ r = out ++ concat (mutations <$> k2)) \/
     (r = [] /\ forall k2 k3, rest = k2 ++ k3 -> tip (tip None k1) k2 <> Some to)).
Proof.
  revert k1 fuel out. induction rest as [|c rest IH]; intros k1 fuel out Hh Hf.
  - rewrite app_nil_r in Hh. subst k1.
    assert (forall f, diff_walk f docs (tip None h) to out =
              if bool_decide (tip None h = Some to) then Some out else Some []) as Hw.
    { intros f. destruct f; cbn [diff_walk]; by rewrite parent_last. }
    rewrite Hw. case_bool_decide as Ht.
    + exists out. split; [done|]. left. exists [], []. split_and!; [done|done|by rewrite app_nil_r].
    + exists []. split; [done|]. right. split; [done|]. intros k2 k3 [-> _]%eq_sym%app_nil. exact Ht.
  - destruct fuel as [|fuel]; [cbn in Hf; lia|]. cbn [diff_walk]. case_bool_decide as Ht.
    { exists out. split; [done|]. left. exists [], (c :: rest). split_and!; [done|done|by rewrite app_nil_r]. }
    rewrite (parent_after k1 c rest Hh). rewrite cons_middle, app_assoc in Hh.
    destruct (IH (k1 ++ [c]) fuel (out ++ mutations c) Hh ltac:(cbn in Hf; lia)) as (r & Hr & Hcase).
    rewrite tip_snoc in Hr, Hcase. exists r. split; [done|]. destruct Hcase as [(k2 & k3 & -> & Hk & ->)|[-> Hno]].
    + left. exists (c :: k2), k3. split_and!; [done|by rewrite tip_cons|]. cbn [fmap list_fmap concat]. by rewrite <- app_assoc.
    + right. split; [done|]. intros [|d k2] k3 Heq; [done|]. injection Heq as <- Heq. rewrite tip_cons. by eapply Hno.
Qed.

(** [to] comes after [from] with the commits [between]. *)
Definition lies_after (from : option string) (to : string) (between : list Commit) : Prop :=
  exists k1 k3, h = k1 ++ between ++ k3 /\ tip None k1 = from /\ tip from between = Some to.

Lemma walk_off fuel from to :
  (forall k1 k2, h = k1 ++ k2 -> tip None k1 <> from) -> diff_walk fuel docs from to [] = Some [].
Proof.
  intros Hn. assert (by_parent docs from = None) as Hb.
  { apply by_parent_none. intros d Hdin Hdp. rewrite Hp in Hdin.
    destruct (chain_parent _ _ _ Hl Hdin) as (k1 & k2 & Hk & Ht). by destruct (Hn _ _ Hk); rewrite Ht. }
  destruct fuel; cbn [diff_walk]; rewrite Hb; by case_bool_decide.
Qed.

(** The difference of two commits is what was committed between them.  On the
    commits of a chain, in any order, [diff_commits] ends for all ids, known or
    not; it gives the mutations of exactly the commits that lie after the one and
    up to the other, in the order of the chain, and nothing when the second does
    not come after the first. *)
Theorem diff_between_commits from to :
  exists out, diff_commits docs from to = Some out /\
    (forall between, lies_after from to between -> out = concat (mutations <$> between)) /\
    ((forall between, ~ lies_after from to between) -> out = []).
Proof.
  unfold diff_commits.
  destruct (decide (from ∈ None :: (Some ∘ commit_id <$> h))) as [Hin|Hin].
  - assert (exists k1 k2, h = k1 ++ k2 /\ tip None k1 = from) as (k1 & rest & Hh & <-).
    { apply elem_of_cons in Hin as [->|(c & -> & (k1 & k2 & ->)%list_elem_of_split)%list_elem_of_fmap].
      - by exists [], h.
      - exists (k1 ++ [c]), k2. split; [by rewrite <- app_assoc|apply tip_snoc]. }
    destruct (walk_from k1 rest (length docs) to [] Hh) as (r & Hr & Hcase).
    { rewrite Hp, Hh, length_app. lia. }
    exists r. split; [done|]. split.
    + intros between (k1' & k3 & Hh' & Ht & Hto).
      assert (k1' = k1) as -> by (by eapply tip_prefix). rewrite Hh in Hh'. apply app_inv_head in Hh'.
      destruct Hcase as [(k2 & k3' & Hk & Ht2 & ->)|[_ Hno]]; [|by destruct (Hno _ _ Hh')].
      assert (k1 ++ k2 = k1 ++ between) as Hb.
      { eapply (tip_prefix h _ k3' _ k3); [done|by rewrite <- app_assoc, <- Hk|by rewrite <- app_assoc, <- Hh'|].
        by rewrite !tip_app, Ht2, Hto. }
      apply app_inv_head in Hb. by rewrite Hb.
    + intros Hno. destruct Hcase as [(k2 & k3 & Hk & Ht2 & ->)|[-> _]]; [|done]. exfalso.
      apply (Hno k2). exists k1, k3. by rewrite <- Hk.
  - assert (forall k1 k2, h = k1 ++ k2 -> tip None k1 <> from) as Hn.
    { intros k1 k2 Hh <-. apply Hin. destruct k1 as [|c k1 _] using rev_ind; [left|]. rewrite tip_snoc. right.
      rewrite Hh, <- app_assoc. apply list_elem_of_fmap. exists c. split; [done|]. apply elem_of_app. right. left. }
    exists []. split; [by apply walk_off|]. split; [|done].
    intros between (k1 & k3 & Hh & Ht & _). by destruct (Hn _ _ Hh).
Qed.
End Diff.
