(* ===== verification/MemoryHidden.v ===== *)
(** A fact that was retracted or superseded stays hidden. *)
From stdpp Require Import sorting.
From S2P Require Export MemoryReplay.

(** ** What a mutation does to one fact *)

(** The mutations that end a fact, that bring one back, and that rewrite its content. *)
Definition ends_fact (i : string) (m : Mutation) : Prop :=
  match m with RetractFact _ _ | SupersedeFact _ _ _ _ => fact_id_of m = Some i | _ => False end.

Definition adds_fact (i : string) (m : Mutation) : Prop :=
  match m with AddFact fact => py_get fact "id" = PStr i | _ => False end.

Definition refines_fact (i : string) (m : Mutation) : Prop :=
  match m with RefineFact j _ => j = i | _ => False end.

(** The fact is out of the current view. *)
Definition out_of_view (f : doc) : Prop := py_get f "invalid_at" <> PNone.

(** Its payload is gone. *)
Definition payload_gone (f : doc) : Prop := py_get f "content" = PNone /\ py_get f "arguments" = PDict [].

Lemma set_nested_other fact k key v fact' k' :
  set_nested fact k key v = Ok fact' -> k' <> k -> py_get fact' k' = py_get fact k'.
Proof.
  unfold set_nested. destruct (default _ _); try done. intros [= <-] Hk. unfold py_get. by rewrite lookup_insert_ne.
Qed.

Lemma changes_keep fact l fact' k :
  apply_changes fact l = Ok fact' -> k <> "content" -> k <> "arguments" -> py_get fact' k = py_get fact k.
Proof.
  intros H Hc Ha. revert fact H. induction l as [|[key v] l IH]; intros fact H; [by injection H as <-|].
  cbn [apply_changes] in H. destruct (String.eqb key "content").
  - rewrite (IH _ H). unfold py_get. by rewrite lookup_insert_ne.
  - apply rbind_ok in H as (f & Hf & H). rewrite (IH _ H). by eapply set_nested_other.
Qed.

Lemma py_or_time v t : py_or v (PTime t) <> PNone.
Proof. unfold py_or. destruct (truthy v) eqn:E; [|done]. by intros ->. Qed.

(** The fields the views and the payload are read from. *)
Definition watched (k : string) : Prop := k = "invalid_at" \/ k = "content" \/ k = "arguments".

Lemma watched_others k : watched k -> k <> "evidence" /\ k <> "qualifiers" /\ k <> "subject_entity_id".
Proof. by intros [->|[->| ->]]. Qed.

Lemma insert_other (f : doc) k k' v : k' <> k -> py_get (<[k' := v]> f) k = py_get f k.
Proof. intros Hne. unfold py_get. by rewrite lookup_insert_ne. Qed.

(** The fields a mutation leaves alone. *)
Lemma change_keeps f m t f' k :
  change_fact f m t = Ok f' -> watched k ->
  match m with
  | SupersedeFact _ _ _ _ => k <> "invalid_at"
  | RetractFact _ _ => False
  | RefineFact _ _ => k = "invalid_at"
  | _ => True
  end ->
  py_get f' k = py_get f k.
Proof.
  intros H Hk Hm. pose proof (watched_others _ Hk) as (He & Hq & Hs).
  destruct m as [| | |? ?|? ev|? ?|? ? ta ?|? ? ? ?|? ? ?|? ? ?]; cbn [change_fact] in H; try done;
    try (injection H as <-; done).
  - rewrite (set_nested_other _ _ _ _ _ k H) by done. destruct Hk as [->|[->| ->]]; [done| |]; by rewrite py_get_update_other by repeat constructor.
  - subst k. unfold _apply_arg_changes in H. rewrite (changes_keep _ _ _ _ H) by done.
    destruct (f !! "arguments"); [done|]. by apply insert_other.
  - destruct (default _ _); try (destruct (bool_decide _); [injection H as <-|]; done).
    injection H as <-. by apply insert_other.
  - apply rbind_ok in H as (l & _ & [= <-]). by apply insert_other.
  - apply rbind_ok in H as (l & _ & H%ok_inj). subst f'. rewrite py_get_update_other.
    + destruct (f !! "evidence") as [[]|]; try done. by apply insert_other.
    + destruct Hk as [->|[->| ->]]; by repeat constructor.
  - injection H as <-. by apply insert_other.
Qed.

Lemma change_out_of_view f m t f' : change_fact f m (Some t) = Ok f' -> out_of_view f -> out_of_view f'.
Proof.
  unfold out_of_view. intros H Hv. destruct m as [| i by_ kind interval| |? ?| | | | | |] eqn:E;
    try (rewrite (change_keeps _ _ _ _ "invalid_at" H); [exact Hv|by left|done]).
  - cbn [change_fact time_or_none] in H. rewrite (set_nested_other _ _ _ _ _ "invalid_at" H) by done.
    doc_simpl. apply py_or_time.
  - cbn [change_fact] in H. apply ok_inj in H. subst f'. by doc_simpl.
Qed.

Lemma ending_hides f i m t f' : ends_fact i m -> change_fact f m (Some t) = Ok f' -> out_of_view f'.
Proof.
  unfold out_of_view. intros Hm H. destruct m; try done.
  - cbn [change_fact time_or_none] in H. rewrite (set_nested_other _ _ _ _ _ "invalid_at" H) by done.
    doc_simpl. apply py_or_time.
  - cbn [change_fact] in H. apply ok_inj in H. subst f'. by doc_simpl.
Qed.

Lemma change_payload_gone f m t f' j :
  change_fact f m t = Ok f' -> fact_id_of m = Some j -> ~ refines_fact j m -> payload_gone f -> payload_gone f'.
Proof.
  intros H Hj Hr [Hc Ha]. destruct m; try done;
    try (split; [rewrite (change_keeps _ _ _ _ "content" H)|rewrite (change_keeps _ _ _ _ "arguments" H)];
         unfold watched; try done; tauto).
  - cbn in Hj, Hr. destruct (String.eqb _ _); [done|]. injection Hj as Hj. by destruct Hr.
  - cbn [change_fact] in H. apply ok_inj in H. subst f'. split; by doc_simpl.
Qed.

(** ** What the commits after the end do *)

Section Fact.
Context (i : string) (Hi : i <> "").

(** Of the fact with the id, if there is one, [Q] holds. *)
Definition of_fact (Q : doc -> Prop) (facts : gmap string doc) : Prop := forall f, facts !! i = Some f -> Q f.

Lemma apply_keeps (Q : doc -> Prop) facts m t facts' :
  _apply_mutation facts m t = Ok facts' -> ~ adds_fact i m ->
  (forall f f', fact_id_of m = Some i -> change_fact f m t = Ok f' -> Q f -> Q f') ->
  of_fact Q facts -> of_fact Q facts'.
Proof.
  intros H Ha Hq HQ f Hf. unfold _apply_mutation in H.
  assert (forall o : option (string * doc), o = (fact_id_of m ≫= fun j => pair j <$> facts !! j) ->
    match o with
    | None => Ok facts
    | Some (j, fact) => let* fact' := change_fact fact m t in Ok (<[j := fact']> facts)
    end = Ok facts' -> Q f) as Hcase.
  { intros [[j fact]|] Ho Hok; [|injection Hok as <-; by apply HQ].
    symmetry in Ho. apply bind_Some in Ho as (j' & Hj & (fact' & Hf' & [= <- <-])%fmap_Some).
    apply rbind_ok in Hok as (f'' & Hch & [= <-]).
    destruct (decide (j = i)) as [->|Hne]; [rewrite lookup_insert_eq in Hf|rewrite lookup_insert_ne in Hf by done; by apply HQ].
    injection Hf as <-. eapply Hq; [done|exact Hch|by apply HQ]. }
  destruct m; try (by eapply Hcase).
  destruct (nonempty_str _) as [j|] eqn:Hj; injection H as <-; [|by apply HQ].
  destruct (decide (j = i)) as [->|Hne].
  - exfalso. apply Ha. cbn. unfold nonempty_str in Hj. destruct (py_get _ _); try done. by case_match; simplify_eq.
  - rewrite lookup_insert_ne in Hf by done. by apply HQ.
Qed.

Lemma apply_all_keep (Q : doc -> Prop) ms t facts facts' :
  apply_mutations facts ms t = Ok facts' -> (forall m, m ∈ ms -> ~ adds_fact i m) ->
  (forall m f f', m ∈ ms -> fact_id_of m = Some i -> change_fact f m t = Ok f' -> Q f -> Q f') ->
  of_fact Q facts -> of_fact Q facts'.
Proof.
  revert facts. induction ms as [|m ms IH]; intros facts H Ha Hq HQ; [by injection H as <-|].
  cbn [apply_mutations] in H. apply rbind_ok in H as (f1 & H1 & H). apply (IH f1); [done| | |].
  - intros m' Hm'. apply Ha. by right.
  - intros m' f f' Hm'. apply Hq. by right.
  - eapply apply_keeps; [exact H1|apply Ha; left| |done]. intros f f'. apply Hq. left.
Qed.

Lemma fold_keeps (Q : doc -> Prop) cs facts facts' :
  fold_in_order facts cs = Ok facts' ->
  (forall m, m ∈ concat (mutations <$> cs) -> ~ adds_fact i m) ->
  (forall c m f f', c ∈ cs -> m ∈ mutations c -> fact_id_of m = Some i ->
     change_fact f m (commit_time c) = Ok f' -> Q f -> Q f') ->
  of_fact Q facts -> of_fact Q facts'.
Proof.
  revert facts. induction cs as [|c cs IH]; intros facts H Ha Hq HQ; [by injection H as <-|].
  cbn [fold_in_order] in H. apply rbind_ok in H as (f1 & H1 & H). apply (IH f1); [done| | |].
  - intros m Hm. apply Ha. cbn. apply elem_of_app. by right.
  - intros c' m f f' Hc'. apply Hq. by right.
  - eapply apply_all_keep; [exact H1| | |done].
    + intros m Hm. apply Ha. cbn. apply elem_of_app. by left.
    + intros m f f' Hm. apply Hq; [left|done].
Qed.
End Fact.

Lemma apply_mutations_app facts l k t :
  apply_mutations facts (l ++ k) t = (let* f := apply_mutations facts l t in apply_mutations f k t).
Proof.
  revert facts. induction l as [|m l IH]; intros facts; [done|]. cbn [app apply_mutations].
  destruct (_apply_mutation facts m t); [apply IH|done].
Qed.

Lemma fold_in_order_app facts l k :
  fold_in_order facts (l ++ k) = (let* f := fold_in_order facts l in fold_in_order f k).
Proof.
  revert facts. induction l as [|c l IH]; intros facts; [done|]. cbn [app fold_in_order].
  destruct (apply_mutations _ _ _); [apply IH|done].
Qed.

Lemma apply_named facts m t i :
  fact_id_of m = Some i ->
  _apply_mutation facts m t =
    match facts !! i with
    | None => Ok facts
    | Some fact => let* fact' := change_fact fact m t in Ok (<[i := fact']> facts)
    end.
Proof.
  intros Hm. unfold _apply_mutation. destruct m; try done; rewrite Hm; cbn [mbind option_bind]; by destruct (facts !! i).
Qed.

Lemma elem_of_concat_fmap {A B} (f : A -> list B) l x : x ∈ concat (f <$> l) <-> exists a, a ∈ l /\ x ∈ f a.
Proof.
  rewrite list_elem_of_In, in_concat. split.
  - intros (k & Hk & Hx). apply list_elem_of_In, list_elem_of_fmap in Hk as (a & -> & Ha).
    exists a. split; [done|by apply list_elem_of_In].
  - intros (a & Ha & Hx). exists (f a). split; apply list_elem_of_In; [by apply list_elem_of_fmap_2|done].
Qed.

(** What holds of a fact right after a mutation, and through every later one, holds
    of it in the facts. *)
Lemma fold_since (Q : doc -> Prop) i k1 c k2 m1 e m2 facts :
  fold_in_order ∅ (k1 ++ c :: k2) = Ok facts -> mutations c = m1 ++ e :: m2 -> fact_id_of e = Some i ->
  (forall f f', change_fact f e (commit_time c) = Ok f' -> Q f') ->
  (forall m, m ∈ m2 ++ concat (mutations <$> k2) -> ~ adds_fact i m) ->
  (forall d m f f', d ∈ c :: k2 -> m ∈ m2 ++ concat (mutations <$> k2) -> fact_id_of m = Some i ->
     change_fact f m (commit_time d) = Ok f' -> Q f -> Q f') ->
  of_fact i Q facts.
Proof.
  intros H Hm He HQ Ha Hq. assert (i <> "") as Hi.
  { intros ->. destruct e; cbn in He; try done; destruct (String.eqb_spec fact_id ""); congruence. }
  rewrite fold_in_order_app in H. apply rbind_ok in H as (f1 & _ & H).
  cbn [fold_in_order] in H. apply rbind_ok in H as (f2 & Hc & H).
  rewrite Hm, apply_mutations_app in Hc. apply rbind_ok in Hc as (f3 & _ & Hc).
  cbn [apply_mutations] in Hc. apply rbind_ok in Hc as (f4 & Hend & Hc).
  eapply fold_keeps; [exact Hi|exact H| | |].
  - intros m Hin. apply Ha, elem_of_app. by right.
  - intros d m f f' Hd Hin. apply Hq; [by right|]. apply elem_of_app. right. apply elem_of_concat_fmap. by exists d.
  - eapply apply_all_keep; [exact Hi|exact Hc| | |].
    + intros m Hin. apply Ha, elem_of_app. by left.
    + intros m f f' Hin. apply Hq; [left|apply elem_of_app; by left].
    + intros f Hf. rewrite (apply_named _ _ _ _ He) in Hend. destruct (f3 !! i) as [g|] eqn:E.
      * apply rbind_ok in Hend as (g' & Hg & Hend%ok_inj). subst f4. rewrite lookup_insert_eq in Hf.
        injection Hf as <-. by eapply HQ.
      * apply ok_inj in Hend. subst f4. congruence.
Qed.

Lemma view_subset facts valid_time shown : view facts valid_time = Ok shown -> shown ⊆ facts.
Proof.
  destruct valid_time as [t|]; cbn [view]; [|intros <-%ok_inj; apply map_filter_subseteq].
  unfold valid_facts. intros H. apply map_subseteq_spec. intros i f Hf.
  apply elem_of_map_to_list. revert shown H Hf. induction (map_to_list facts) as [|[j g] l IH]; intros shown H Hf; cbn [foldr] in H.
  - apply ok_inj in H. subst shown. by rewrite lookup_empty in Hf.
  - apply rbind_ok in H as (m & Hm & H). apply rbind_ok in H as ([] & _ & H%ok_inj); subst shown; [|right; by eapply IH].
    apply lookup_insert_Some in Hf as [[<- <-]|[_ Hf]]; [left|right; by eapply IH].
Qed.

(** C19: a retracted fact stays hidden.  Once a commit retracts a fact, or supersedes
    it, no current view shows it, at any later point and whatever is committed
    after, unless the fact is added anew; and when it was retracted, no view at all,
    the views of the past included, shows its content or its arguments, unless the
    fact is added or refined afterwards. *)
Theorem retracted_fact_stays_hidden h docs until valid_time i k1 c k2 m1 e m2 facts :
  StronglySorted before h -> docs ≡ₚ h -> (forall d, d ∈ h -> is_Some (commit_time d)) ->
  h = k1 ++ c :: k2 -> mutations c = m1 ++ e :: m2 -> ends_fact i e -> included until c ->
  (forall m, m ∈ m2 ++ concat (mutations <$> k2) -> ~ adds_fact i m) ->
  replay_to docs until valid_time = Ok facts ->
  (valid_time = None -> facts !! i = None) /\
  (forall reason, e = RetractFact i reason ->
     (forall m, m ∈ m2 ++ concat (mutations <$> k2) -> ~ refines_fact i m) ->
     forall f, facts !! i = Some f -> payload_gone f).
Proof.
  intros Hh Hp Ht -> Hm He Hinc Ha Hrep. rewrite (replay_prefix _ _ _ _ Hh Hp) in Hrep.
  apply rbind_ok in Hrep as (all & Hall & Hview).
  rewrite filter_app, filter_cons_True in Hall by done. set (k2' := base.filter (included until) k2) in *.
  assert (forall d, d ∈ c :: k2' -> is_Some (commit_time d)) as Ht'.
  { intros d Hd. apply Ht, elem_of_app. right. apply elem_of_cons in Hd as [->|[_ Hd]%list_elem_of_filter]; [left|by right]. }
  assert (fact_id_of e = Some i) as Hid by (by destruct e).
  assert (forall m, m ∈ m2 ++ concat (mutations <$> k2') -> m ∈ m2 ++ concat (mutations <$> k2)) as Hsub.
  { intros m [Hin|(d & [_ Hd]%list_elem_of_filter & Hin)%elem_of_concat_fmap]%elem_of_app; apply elem_of_app; [by left|].
    right. apply elem_of_concat_fmap. by exists d. }
  split.
  - intros ->. cbn [view] in Hview. apply ok_inj in Hview. subst facts.
    assert (of_fact i out_of_view all) as Hout.
    { eapply fold_since; [exact Hall|exact Hm|exact Hid| | |].
      - destruct (Ht' c) as [t Htc]; [left|]. rewrite Htc. intros f f'. by apply (ending_hides f i e t).
      - intros m Hin. by apply Ha, Hsub.
      - intros d m f f' Hd _ _. destruct (Ht' d Hd) as [t ->]. by apply change_out_of_view. }
    apply map_lookup_filter_None. right. intros f Hf Hc. apply (Hout f Hf).
    cbn in Hc. unfold currently_valid, is_none in Hc. by destruct (py_get f "invalid_at").
  - intros reason -> Hr f Hf. assert (of_fact i payload_gone all) as Hgone.
    { eapply fold_since; [exact Hall|exact Hm|exact Hid| | |].
      - intros g g' Hg%ok_inj. subst g'. split; by doc_simpl.
      - intros m Hin. by apply Ha, Hsub.
      - intros d m g g' Hd Hin Hmid Hg. eapply change_payload_gone; [exact Hg|done|]. by apply Hr, Hsub. }
    apply Hgone. eapply lookup_weaken; [exact Hf|by eapply view_subset].
Qed.
