(* ===== verification/ContentionRetry.v ===== *)
(** Bounded retries of a contended Firestore transaction
    ([database/firestore_transaction_retry.py]).

    Exceptions are objects of a heap, linked by [__cause__]; the links may form
    a cycle.  That an aborted transaction has written nothing, as Firestore
    documents, is a hypothesis; any other error may leave any state.  What other
    processes commit while the helper sleeps is an argument.  Delays are exact
    rationals. *)
From Stdlib Require Import QArith Qminmax Lqa.
From S2P Require Export Prelude.

(** ** Is it contention? *)

Record Exc : Type := { is_aborted : bool; __cause__ : option nat }.

Definition heap : Type := gmap nat Exc.

(** The loop of [_is_transaction_contention]; [None] if it would go on for ever. *)
Fixpoint contention_walk (fuel : nat) (h : heap) (current : option nat) (seen : gset nat) : option bool :=
  match current with
  | None => Some false
  | Some i =>
      if bool_decide (i ∈ seen) then Some false else
      match h !! i with
      | None => Some false
      | Some e =>
          if is_aborted e then Some true else
          match fuel with
          | O => None
          | S fuel' => contention_walk fuel' h (__cause__ e) ({[i]} ∪ seen)
          end
      end
  end.

Definition _is_transaction_contention (h : heap) (error : nat) : option bool := contention_walk (size h) h (Some error) ∅.

(** ** Delays *)

Definition DEFAULT_MAX_ATTEMPTS : nat := 5.
Definition _INITIAL_MAX_DELAY_SECONDS : Q := 1 # 5.
Definition _MAX_DELAY_SECONDS : Q := 1.

Definition high_delay (attempt : nat) : Q :=
  Qmin (_INITIAL_MAX_DELAY_SECONDS * inject_Z (2 ^ Z.of_nat (attempt - 1))) _MAX_DELAY_SECONDS.

Definition delay (attempt : nat) (random_value : Q) : Q :=
  let high := high_delay attempt in
  let low := (high / 2)%Q in
  let jitter := Qmin (Qmax random_value 0) 1 in
  (low + (high - low) * jitter)%Q.

(** ** The loop *)

Inductive RetryError (E : Type) : Type :=
| MaxAttemptsNotPositive
| ContentionExhausted
| Propagated (e : E).
Arguments MaxAttemptsNotPositive {E}.
Arguments ContentionExhausted {E}.
Arguments Propagated {E} _.

Section Retry.
Context {S A E : Type} (contention : E -> bool).

(** Attempt [k] in the state it finds; the commits of others before attempt [k];
    the reading of [random_value] after attempt [k]. *)
Context (operation : nat -> S -> result E A * S) (others : nat -> S -> S) (random_value : nat -> Q).

(** The answer, the state and the delays slept, from attempt [k] on, [more]
    attempts being allowed after it. *)
Fixpoint attempts (more k : nat) (st : S) : result (RetryError E) A * S * list Q :=
  match operation k st with
  | (Ok a, st') => (Ok a, st', [])
  | (Raise e, st') =>
      if negb (contention e) then (Raise (Propagated e), st', []) else
      match more with
      | O => (Raise ContentionExhausted, st', [])
      | Datatypes.S more' =>
          let '(answer, st'', slept) := attempts more' (Datatypes.S k) (others (Datatypes.S k) st') in
          (answer, st'', delay k (random_value k) :: slept)
      end
  end.

Definition run_with_transaction_contention_retry (max_attempts : nat) (st : S) : result (RetryError E) A * S * list Q :=
  match max_attempts with
  | O => (Raise MaxAttemptsNotPositive, st, [])
  | Datatypes.S more => attempts more 1 st
  end.
End Retry.

(** ** Contention is found through any chain of causes *)

(** [j] is a cause, of a cause, ..., of [i]. *)
Definition caused_by (h : heap) (i j : nat) : Prop := exists e, h !! i = Some e /\ __cause__ e = Some j.

Definition aborted_at (h : heap) (i : nat) : Prop := exists e, h !! i = Some e /\ is_aborted e = true.

(** What the walk knows of the exceptions it has passed. *)
Definition passed (h : heap) (current : option nat) (seen : gset nat) : Prop :=
  forall x, x ∈ seen -> exists e, h !! x = Some e /\ is_aborted e = false /\
    forall y, __cause__ e = Some y -> y ∈ seen \/ current = Some y.

Lemma passed_closed h i seen j : passed h (Some i) seen -> i ∈ seen -> star (caused_by h) i j -> j ∈ seen.
Proof.
  intros Hp Hi Hs. assert (forall x, x ∈ seen -> star (caused_by h) x j -> j ∈ seen) as H; [|by apply (H i)].
  clear Hs. intros x Hx Hs. induction Hs as [x|x y z (e & He & Hc) _ IH]; [done|]. apply IH.
  destruct (Hp x Hx) as (e' & He' & _ & Hy). rewrite He in He'. injection He' as <-.
  by destruct (Hy y Hc) as [?|[= <-]].
Qed.

Lemma contention_walk_spec fuel h current seen :
  passed h current seen -> (size (dom h ∖ seen) <= fuel)%nat ->
  exists b, contention_walk fuel h current seen = Some b /\
    (b = true <-> exists i j, current = Some i /\ star (caused_by h) i j /\ aborted_at h j).
Proof.
  revert current seen. induction fuel as [|fuel IH]; intros [i|] seen Hp Hf; cbn [contention_walk];
    try (exists false; split; [done|]; split; [done|by intros (? & ? & ? & _)]).
  all: case_bool_decide as Hi;
    [exists false; split; [done|]; split; [done|]; intros (? & j & [= <-] & Hs & e & He & Ha);
     destruct (Hp j) as (e' & He' & Ha' & _); [by eapply passed_closed|congruence]|].
  all: destruct (h !! i) as [e|] eqn:He;
    [|exists false; split; [done|]; split; [done|]; intros (? & j & [= <-] & Hs & Ha);
      inversion Hs as [|? ? ? (e & He' & _)]; subst; [destruct Ha as (e & He' & _)|]; congruence].
  all: destruct (is_aborted e) eqn:Ha;
    [exists true; split; [done|]; split; [|done]; intros _; exists i, i; split_and!; [done|constructor|by exists e]|].
  - exfalso. assert (i ∈ dom h ∖ seen) as Hin by (apply elem_of_difference; split; [by eapply elem_of_dom_2|done]).
    apply (size_non_empty_iff (dom h ∖ seen)); [|lia]. intros H. rewrite H in Hin. by apply not_elem_of_empty in Hin.
  - destruct (IH (__cause__ e) ({[i]} ∪ seen)) as (b & Hb & Hiff).
    + intros x [->%elem_of_singleton|Hx]%elem_of_union.
      * exists e. split_and!; [done..|]. intros y Hy. by right.
      * destruct (Hp x Hx) as (e' & He' & Ha' & Hy). exists e'. split_and!; [done..|].
        intros y Hc. left. apply elem_of_union. destruct (Hy y Hc) as [?|[= <-]]; [by right|left; by apply elem_of_singleton].
    + assert (dom h ∖ ({[i]} ∪ seen) ⊂ dom h ∖ seen) as Hlt%subset_size; [|lia].
      split; [set_solver|]. intros H. specialize (H i). apply elem_of_dom_2 in He. set_solver.
    + exists b. split; [done|]. rewrite Hiff. split.
      * intros (k & j & Hk & Hs & Hj). exists i, j. split_and!; [done| |done]. econstructor; [by exists e|done].
      * intros (k & j & [= <-] & Hs & Hj). inversion Hs as [|? k ? (e' & He' & Hc) Hs']; subst.
        { destruct Hj as (e' & He' & Ha'). congruence. }
        rewrite He in He'. injection He' as <-. by exists k, j.
Qed.

(** Contention is recognised through any chain of causes.  The search of an
    exception's causes ends, cycles included, and finds contention exactly when an
    [Aborted] is the exception itself or lies behind it. *)
Theorem contention_is_found h error :
  exists b, _is_transaction_contention h error = Some b /\
    (b = true <-> exists j, star (caused_by h) error j /\ aborted_at h j).
Proof.
  destruct (contention_walk_spec (size h) h (Some error) ∅) as (b & Hb & Hiff).
  - by intros x ?%not_elem_of_empty.
  - rewrite difference_empty_L, <- (size_dom (D := gset nat) h). done.
  - exists b. split; [exact Hb|]. rewrite Hiff. split; [intros (i & j & [= <-] & H); by exists j|intros (j & H); by exists error, j].
Qed.

(** ** A retried transaction is applied at most once *)

Lemma high_delay_bounds k : (1 # 5 <= high_delay k <= 1)%Q.
Proof.
  unfold high_delay, _INITIAL_MAX_DELAY_SECONDS, _MAX_DELAY_SECONDS. split; [|apply Q.le_min_r].
  apply Q.min_glb; [|done].
  assert (1 <= 2 ^ Z.of_nat (k - 1)) as H by (pose proof (Z.pow_pos_nonneg 2 (Z.of_nat (k - 1))); lia).
  rewrite Zle_Qle in H. change (inject_Z 1) with 1%Q in H. lra.
Qed.

Lemma delay_bounds k q : (high_delay k / 2 <= delay k q <= high_delay k)%Q.
Proof.
  pose proof (high_delay_bounds k) as [Hlow _]. unfold delay.
  set (high := high_delay k) in *. set (j := Qmin (Qmax q 0) 1).
  assert (0 <= j <= 1)%Q as [Hj0 Hj1] by (split; [apply Q.min_glb; [apply Q.le_max_r|done]|apply Q.le_min_r]).
  assert (high / 2 == high * (1 # 2))%Q as Hhalf by reflexivity. rewrite !Hhalf. nra.
Qed.

Section RetryOps.
Context {S A E : Type} (contention : E -> bool).
Context (operation : nat -> S -> result E A * S) (others : nat -> S -> S) (random_value : nat -> Q).
Context (aborts_are_atomic : forall k st e st', operation k st = (Raise e, st') -> contention e = true -> st' = st).

Local Abbreviation run := (run_with_transaction_contention_retry contention operation others random_value).

(** The state that attempt [k + n] finds when attempt [k] found [st] and none in
    between wrote. *)
Fixpoint drift (k n : nat) (st : S) : S :=
  match n with O => st | Datatypes.S n' => drift (Datatypes.S k) n' (others (Datatypes.S k) st) end.

(** [n] attempts met contention before the one that decided. *)
Definition contended (k n : nat) (st : S) : Prop :=
  forall i, (i < n)%nat -> exists e, operation (k + i) (drift k i st) = (Raise e, drift k i st) /\ contention e = true.

(** What the deciding attempt did. *)
Definition decided_by (k n more : nat) (st : S) (answer : result (RetryError E) A) (st' : S) : Prop :=
  match answer with
  | Ok a => operation (k + n) (drift k n st) = (Ok a, st')
  | Raise (Propagated e) => operation (k + n) (drift k n st) = (Raise e, st') /\ contention e = false
  | Raise ContentionExhausted =>
      (exists e, operation (k + n) (drift k n st) = (Raise e, st') /\ contention e = true) /\ st' = drift k n st /\ n = more
  | Raise MaxAttemptsNotPositive => False
  end.

Lemma attempts_spec more k st answer st' slept :
  attempts contention operation others random_value more k st = (answer, st', slept) ->
  exists n, (n <= more)%nat /\ contended k n st /\ decided_by k n more st answer st' /\
    slept = (fun i => delay (k + i) (random_value (k + i))) <$> seq 0 n.
Proof.
  revert k st answer st' slept. induction more as [|more IH]; intros k st answer st' slept H; cbn [attempts] in H;
    destruct (operation k st) as [[a|e] st1] eqn:Hop.
  1,3: injection H as <- <- <-; exists 0%nat; split_and!; [lia|intros i ?; lia|cbn; by rewrite Nat.add_0_r|done].
  all: destruct (contention e) eqn:He; cbn [negb] in H;
    [|injection H as <- <- <-; exists 0%nat; split_and!; [lia|intros i ?; lia|cbn; by rewrite Nat.add_0_r|done]].
  all: pose proof (aborts_are_atomic _ _ _ _ Hop He) as ->.
  - injection H as <- <- <-. exists 0%nat. split_and!; [lia|intros i ?; lia| |done]. cbn. rewrite Nat.add_0_r. split; [by exists e|done].
  - destruct (attempts _ _ _ _ more _ _) as [[answer1 st1] slept1] eqn:Hrec. injection H as <- <- <-.
    destruct (IH _ _ _ _ _ Hrec) as (n & Hn & Hc & Hd & ->). exists (Datatypes.S n). split_and!; [lia| | |].
    + intros [|i] Hi; [rewrite Nat.add_0_r; by exists e|]. rewrite Nat.add_succ_r. apply Hc. lia.
    + unfold decided_by in *. rewrite Nat.add_succ_r. cbn [drift]. rewrite Nat.add_succ_l in Hd.
      destruct answer1 as [|[]]; naive_solver.
    + rewrite <- cons_seq. cbn [fmap list_fmap]. f_equal; [by rewrite Nat.add_0_r|].
      rewrite <- (fmap_S_seq 0), <- list_fmap_compose. apply list_fmap_ext. intros i x _. cbn. by rewrite Nat.add_succ_r.
Qed.

(** C37: a retried transaction is applied at most once.  Of all attempts only the
    last can have written: those before it met contention and left nothing, so the
    final state is what one attempt gives on the state it found, after what the
    other processes committed meanwhile.  An error that is not
    contention is never retried, contention is given up only after all attempts,
    and every sleep lies between a tenth of a second and one second. *)
Theorem retry_applies_once max_attempts st answer st' slept :
  run max_attempts st = (answer, st', slept) ->
  (max_attempts = O /\ answer = Raise MaxAttemptsNotPositive /\ st' = st /\ slept = []) \/
  exists n, (n < max_attempts)%nat /\ contended 1 n st /\ decided_by 1 n (max_attempts - 1) st answer st' /\
    length slept = n /\ Forall (fun d => 1 # 10 <= d <= 1)%Q slept.
Proof.
  destruct max_attempts as [|more]; cbn [run_with_transaction_contention_retry]; intros H;
    [left; by injection H as <- <- <-|right].
  apply attempts_spec in H as (n & Hn & Hc & Hd & ->). exists n.
  split_and!; [lia|done|by rewrite Nat.sub_succ, Nat.sub_0_r|by rewrite length_fmap, length_seq|].
  apply Forall_fmap, Forall_forall. intros i _. cbn [compose].
  pose proof (high_delay_bounds (1 + i)) as [Hl Hh]. pose proof (delay_bounds (1 + i) (random_value (1 + i))) as [Hdl Hdh].
  split; [|by eapply Qle_trans]. eapply Qle_trans; [|exact Hdl]. unfold Qdiv. change (/ 2)%Q with (1 # 2)%Q. lra.
Qed.
End RetryOps.
