(* ===== verification/ProjectionRepair.v ===== *)
(** From commits to the projection of facts ([database/projection_repair.py]):
    the repairs a commit asks for, what a fact projects to, and the drift between
    facts and projection; and [append_commit] of [database/memory_ledger.py],
    which commits under retries and then asks for the repairs. *)
From stdpp Require Import sorting.
From S2P Require Import QueuePolicy.
From S2P Require Export MemoryHidden ContentionRetry.

(** ** Sorted names *)

(** [sorted(s)] *)
Definition py_sorted (s : gset string) : list string := merge_sort String.le (elements s).

Lemma elem_of_py_sorted s x : x ∈ py_sorted s <-> x ∈ s.
Proof. unfold py_sorted. by rewrite merge_sort_Permutation, elem_of_elements. Qed.

Lemma py_sorted_NoDup s : NoDup (py_sorted s).
Proof. unfold py_sorted. rewrite merge_sort_Permutation. apply NoDup_elements. Qed.

Lemma py_sorted_empty s : py_sorted s = [] <-> s = ∅.
Proof.
  split; [|by intros ->]. intros H. apply set_eq. intros x. rewrite <- elem_of_py_sorted, H.
  split; [by intros ?%not_elem_of_nil|by intros ?%not_elem_of_empty].
Qed.

(** [if x not in l: l.append(x)] *)
Definition append_new (l : list string) (x : string) : list string := if bool_decide (x ∈ l) then l else l ++ [x].

Lemma elem_of_append_new l x y : y ∈ append_new l x <-> y ∈ l \/ y = x.
Proof.
  unfold append_new. case_bool_decide as H; rewrite ?elem_of_app, ?list_elem_of_singleton; [|done].
  split; [by left|by intros [?| ->]].
Qed.

Lemma append_new_NoDup l x : NoDup l -> NoDup (append_new l x).
Proof.
  intros Hl. unfold append_new. case_bool_decide as H; [done|]. apply NoDup_app. split_and!; [done| |apply NoDup_singleton].
  by intros y Hy ->%list_elem_of_singleton.
Qed.

(** ** Repairs of a commit *)

Definition PROJECTION_VERSION : Z := 1.
Definition DANGEROUS_REASONS : list string := ["retract_fact"; "tombstone_evidence"; "source_tombstoned"].

(** [mutation.get('fact_id')], or the id of the fact it adds. *)
Definition mutation_fact_id (item : Mutation) : option string :=
  match item with
  | AddFact fact => nonempty_str (py_get fact "id")
  | _ => fact_id_of item
  end.

Definition mutation_type (item : Mutation) : string :=
  match item with
  | AddFact _ => "add_fact" | SupersedeFact _ _ _ _ => "supersede_fact" | RefineFact _ _ => "refine_fact"
  | RetractFact _ _ => "retract_fact" | AddEvidence _ _ => "add_evidence" | RemoveEvidence _ _ => "remove_evidence"
  | TombstoneEvidence _ _ _ _ => "tombstone_evidence" | MergeEntities _ _ _ _ => "merge_entities"
  | SplitEntity _ _ _ => "split_entity" | ReassignFactSubject _ _ _ => "reassign_fact_subject"
  end.

Definition affected_fact_ids (items : list Mutation) : list string :=
  foldl (fun ids item => match mutation_fact_id item with Some i => append_new ids i | None => ids end) [] items.

Definition repair_reason (item : Mutation) : string :=
  match item with
  | RetractFact _ reason => if String.eqb reason "source_tombstoned" then "source_tombstoned" else "retract_fact"
  | _ => mutation_type item
  end.

Definition _reasons_by_fact (items : list Mutation) : gmap string (list string) :=
  foldl (fun reasons item =>
    match mutation_fact_id item with
    | Some i => <[i := append_new (default [] (reasons !! i)) (repair_reason item)]> reasons
    | None => reasons
    end) ∅ items.

Definition repair_id (c : Commit) (fact_id : string) : string := commit_id c ++ ":" ++ fact_id.

Definition repair_row (c : Commit) (fact_id : string) (now : Z) : doc :=
  let reasons := default ["unknown"] (_reasons_by_fact (mutations c) !! fact_id) in
  doc_set [put_str "repair_id" (repair_id c fact_id); put_str "fact_id" fact_id;
           put_str "source_commit_id" (commit_id c); put_int "projection_version" PROJECTION_VERSION;
           ("reasons", Put (PList (PStr <$> reasons)));
           put_bool "dangerous" (existsb (fun r => bool_decide (r ∈ DANGEROUS_REASONS)) reasons);
           put_str "status" "queued"; put_time "created_at" now; put_time "updated_at" now].

(** The collection of repairs after the batch, and the ids answered. *)
Definition enqueue_projection_repairs (stored : gmap string doc) (c : Commit) (now : Z) : gmap string doc * list string :=
  let ids := affected_fact_ids (mutations c) in
  (foldl (fun repairs i => match stored !! repair_id c i with
                           | Some _ => repairs
                           | None => <[repair_id c i := repair_row c i now]> repairs
                           end) stored ids,
   repair_id c <$> ids).

(** ** What a pass over the repairs answers *)

(** [repair.get('repair_id') or doc.id] *)
Definition report_id (kd : string * doc) : pyval := py_or (py_get kd.2 "repair_id") (PStr kd.1).

Definition was_repaired (runs : string -> repair_run) (kd : string * doc) : bool :=
  match runs kd.1 with Repaired _ => true | _ => false end.

(** The repaired, the failed, and how many in all. *)
Definition pass_report (docs : repairs) (runs : string -> repair_run) (limit : nat) : list pyval * list pyval * nat :=
  let chosen := QueuePolicy.choose limit docs [] PROCESSABLE_REPAIR_STATUSES in
  let repaired := base.filter (fun kd => was_repaired runs kd = true) chosen in
  let failed := base.filter (fun kd => was_repaired runs kd = false) chosen in
  (report_id <$> repaired, report_id <$> failed, (length repaired + length failed)%nat).

(** ** What a fact projects to *)

(** [fact.get('qualifiers')] when it is a dictionary. *)
Definition _qualifiers (fact : doc) : doc := match py_get fact "qualifiers" with PDict q => dict_doc q | _ => ∅ end.

Definition projection_action_for_fact (fact : doc) : string :=
  let status := py_or (py_get fact "status") (py_get (_qualifiers fact) "status") in
  if negb (is_none (py_get fact "invalid_at")) then "delete"
  else if existsb (is_str (py_get fact "redaction_status")) ["payload_tombstoned"; "pending_tombstone"] then "delete"
  else if is_str status "pending_review" then "upsert_pending" else "upsert".

(** The ids are compared as Python compares them. *)
Definition _entity_ids (fact : doc) : result pyexc (list pyval) :=
  let subject := py_get fact "subject_entity_id" in
  let* objects := py_iter (py_or (py_get fact "object_entity_ids") (PList [])) in
  Ok (foldl (fun ids v => if truthy v && negb (existsb (py_eqb v) ids) then ids ++ [v] else ids)
        (if truthy subject then [subject] else []) objects).

Definition projection_metadata_for_fact (fact : doc) (source_commit_id : option string) : result pyexc doc :=
  let qualifiers := _qualifiers fact in
  let* entities := _entity_ids fact in
  Ok (doc_set [("fact_id", Put (py_get fact "id")); ("memory_id", Put (py_get fact "id"));
               ("source_commit_id", Put (str_or_none source_commit_id));
               put_int "projection_version" PROJECTION_VERSION; ("entity_ids", Put (PList entities));
               ("valid_time", Put (py_or (py_get qualifiers "valid_from") (py_get fact "valid_at")));
               ("scope", Put (py_or (py_or (py_get qualifiers "scope") (py_get fact "scope")) (PStr "global")));
               ("epistemic_status", Put (py_or (py_or (py_get fact "status") (py_get qualifiers "status")) (PStr "accepted")));
               ("source_tombstone_state", Put (default (PStr "active") (fact !! "redaction_status")))]).

(** ** Drift *)

Record Drift : Type := {
  missing_upserts : list string;
  stale_deletes : list string;
  drift_count : nat;
  projection_fail_count : nat;
}.

Definition facts_by_id (facts : list doc) : gmap string doc :=
  foldl (fun m fact => match nonempty_str (py_get fact "id") with Some i => <[i := fact]> m | None => m end) ∅ facts.

(** [projection_action_for_fact(fact).startswith('upsert')] *)
Definition upserts (fact : doc) : bool := String.prefix "upsert" (projection_action_for_fact fact).

Definition expected_active (facts : list doc) : gset string :=
  dom (base.filter (fun kv => upserts kv.2 = true) (facts_by_id facts)).

Definition reconcile_memory_projection (facts : list doc) (vector_fact_ids : list string) : Drift :=
  let expected := expected_active facts in
  let actual : gset string := list_to_set vector_fact_ids in
  let missing := py_sorted (expected ∖ actual) in
  let stale := py_sorted (actual ∖ expected) in
  {| missing_upserts := missing; stale_deletes := stale; drift_count := length missing + length stale;
     projection_fail_count := match missing, stale with [], [] => 0 | _, _ => length missing + length stale end |}.

(** ** Committing and asking for the repairs *)

Section AppendCommit.
Context (canonical_json : pyval -> string) {P : Type}.

Local Abbreviation Store := (LedgerStore P).

(** A transaction is refused by the ledger, or the provider raises. *)
Inductive AppendError : Type :=
| LedgerRefused (e : LedgerError)
| ProviderError (h : heap) (error : nat).

Definition append_contention (e : AppendError) : bool :=
  match e with ProviderError h i => default false (_is_transaction_contention h i) | LedgerRefused _ => false end.

(** What the provider does to an attempt: let it run, or raise in some state. *)
Context (provider : nat -> Store -> option (heap * nat * Store)).
Context (others : nat -> Store -> Store) (random_value : nat -> Q) (clock fence_clock : nat -> Z).

Definition append_operation (uid : string) (parent : option string) (items : list Mutation) (run : option string)
    (at_ : option Z) (writer : P -> P) (use_current_head : bool) (k : nat) (st : Store) : result AppendError Appended * Store :=
  match provider k st with
  | Some (h, i, st') => (Raise (ProviderError h i), st')
  | None =>
      match _append_commit_transaction canonical_json st uid parent items run at_ (clock k) (fence_clock k) writer use_current_head with
      | Ok (st', a) => (Ok a, st')
      | Raise e => (Raise (LedgerRefused e), st)
      end
  end.

Definition append_commit (st : Store) (repairs : gmap string doc) (uid : string) (parent : option string)
    (items : list Mutation) (run : option string) (at_ : option Z) (writer : P -> P) (use_current_head : bool) (now : Z)
    : result (RetryError AppendError) Appended * Store * gmap string doc :=
  let '(answer, st', _) :=
    run_with_transaction_contention_retry append_contention
      (append_operation uid parent items run at_ writer use_current_head) others random_value DEFAULT_MAX_ATTEMPTS st in
  (answer, st', match answer with
                | Ok (c, true) => (enqueue_projection_repairs repairs c now).1
                | _ => repairs
                end).
End AppendCommit.
Arguments append_commit _ {P}.
