(* ===== verification/ProjectionOps.v ===== *)
(** What the repairs of a commit cover, when facts and projection agree, and that a
    retried append commits once and asks for every repair. *)
From stdpp Require Import sorting.
From S2P Require Export ProjectionRepair.

(** ** The facts a commit names *)

Definition names_fact (i : string) (m : Mutation) : Prop := mutation_fact_id m = Some i.

Lemma affected_from ids items i :
  i ∈ foldl (fun l m => match mutation_fact_id m with Some j => append_new l j | None => l end) ids items <->
  i ∈ ids \/ exists m, m ∈ items /\ names_fact i m.
Proof.
  revert ids. induction items as [|m items IH]; intros ids; cbn [foldl].
  - split; [by left|]. by intros [?|(m & ?%not_elem_of_nil & _)].
  - rewrite IH. unfold names_fact in *. destruct (mutation_fact_id m) as [j|] eqn:Hm; rewrite ?elem_of_append_new.
    + split.
      * intros [[?| ->]|(m' & ? & ?)]; [by left|right; exists m; split; [left|done]|right; exists m'; split; [by right|done]].
      * intros [?|(m' & [->|?]%elem_of_cons & ?)]; [by left; left|left; right; congruence|right; by exists m'].
    + split.
      * intros [?|(m' & ? & ?)]; [by left|right; exists m'; split; [by right|done]].
      * intros [?|(m' & [->|?]%elem_of_cons & ?)]; [by left|congruence|right; by exists m'].
Qed.

Lemma elem_of_affected items i : i ∈ affected_fact_ids items <-> exists m, m ∈ items /\ names_fact i m.
Proof. unfold affected_fact_ids. rewrite affected_from. split; [by intros [?%not_elem_of_nil|]|by right]. Qed.

Lemma affected_NoDup items : NoDup (affected_fact_ids items).
Proof.
  unfold affected_fact_ids. assert (NoDup (@nil string)) as H by constructor. revert H. generalize (@nil string).
  induction items as [|m items IH]; intros ids Hids; [done|]. cbn [foldl]. apply IH.
  destruct (mutation_fact_id m); [by apply append_new_NoDup|done].
Qed.

(** ** Their reasons *)

Definition has_reason (reasons : gmap string (list string)) (i r : string) : Prop := r ∈ default [] (reasons !! i).

Lemma reasons_from reasons items i r :
  has_reason (foldl (fun m item => match mutation_fact_id item with
                | Some j => <[j := append_new (default [] (m !! j)) (repair_reason item)]> m | None => m end) reasons items) i r <->
  has_reason reasons i r \/ exists m, m ∈ items /\ names_fact i m /\ repair_reason m = r.
Proof.
  revert reasons. induction items as [|m items IH]; intros reasons; cbn [foldl].
  - split; [by left|]. by intros [?|(m & ?%not_elem_of_nil & _)].
  - rewrite IH. unfold names_fact, has_reason in *. destruct (mutation_fact_id m) as [j|] eqn:Hm.
    + destruct (decide (j = i)) as [->|Hne]; [rewrite lookup_insert_eq; cbn [from_option id]; rewrite elem_of_append_new|
                                               rewrite lookup_insert_ne by done].
      * split.
        -- intros [[?| ->]|(m' & ? & ?)]; [by left|right; exists m; split; [left|done]|right; exists m'; split; [by right|done]].
        -- intros [?|(m' & [->|?]%elem_of_cons & ? & <-)]; [by left; left|by left; right|right; by exists m'].
      * split.
        -- intros [?|(m' & ? & ?)]; [by left|right; exists m'; split; [by right|done]].
        -- intros [?|(m' & [->|?]%elem_of_cons & ? & ?)]; [by left|congruence|right; by exists m'].
    + split.
      * intros [?|(m' & ? & ?)]; [by left|right; exists m'; split; [by right|done]].
      * intros [?|(m' & [->|?]%elem_of_cons & ? & ?)]; [by left|congruence|right; by exists m'].
Qed.

Lemma reasons_spec items i r :
  has_reason (_reasons_by_fact items) i r <-> exists m, m ∈ items /\ names_fact i m /\ repair_reason m = r.
Proof.
  unfold _reasons_by_fact. rewrite reasons_from. unfold has_reason. rewrite lookup_empty.
  split; [by intros [?%not_elem_of_nil|]|by right].
Qed.

(** A mutation that takes something away. *)
Definition dangerous_mutation (m : Mutation) : bool :=
  match m with RetractFact _ _ | TombstoneEvidence _ _ _ _ => true | _ => false end.

Lemma dangerous_reason m : repair_reason m ∈ DANGEROUS_REASONS <-> dangerous_mutation m = true.
Proof.
  rewrite <- (bool_decide_eq_true (_ ∈ _)). destruct m; try done. cbn [repair_reason]. by destruct (String.eqb _ _).
Qed.

Lemma existsb_elem {A} (f : A -> bool) l : existsb f l = true <-> exists x, x ∈ l /\ f x = true.
Proof. rewrite existsb_exists. by setoid_rewrite list_elem_of_In. Qed.

(** ** The rows *)

Lemma reasons_of_affected items i :
  i ∈ affected_fact_ids items -> default ["unknown"] (_reasons_by_fact items !! i) = default [] (_reasons_by_fact items !! i).
Proof.
  intros (m & Hm & Hi)%elem_of_affected.
  assert (has_reason (_reasons_by_fact items) i (repair_reason m)) as H by (apply reasons_spec; by exists m).
  unfold has_reason in H. by destruct (_reasons_by_fact items !! i); [|apply not_elem_of_nil in H].
Qed.

(** What a fresh row says. *)
Definition fresh_row (c : Commit) (i : string) (row : doc) : Prop :=
  py_get row "fact_id" = PStr i /\ py_get row "source_commit_id" = PStr (commit_id c) /\
  py_get row "status" = PStr "queued" /\
  (py_get row "dangerous" = PBool true <-> exists m, m ∈ mutations c /\ names_fact i m /\ dangerous_mutation m = true).

Lemma row_is_fresh c i now : i ∈ affected_fact_ids (mutations c) -> fresh_row c i (repair_row c i now).
Proof.
  intros Hi. unfold repair_row, fresh_row, doc_set. rewrite (reasons_of_affected _ _ Hi).
  set (reasons := default [] _). split_and!; try by doc_simpl.
  assert (existsb (fun r => bool_decide (r ∈ DANGEROUS_REASONS)) reasons = true <->
          exists m, m ∈ mutations c /\ names_fact i m /\ dangerous_mutation m = true) as H.
  { rewrite existsb_elem. split.
    - intros (r & Hr & Hd%bool_decide_eq_true). apply reasons_spec in Hr as (m & ? & ? & <-).
      exists m. split_and!; [done..|]. by apply dangerous_reason.
    - intros (m & ? & ? & Hd%dangerous_reason). exists (repair_reason m). split; [|by apply bool_decide_eq_true].
      apply reasons_spec. by exists m. }
  doc_simpl. rewrite <- H. cbn. split; [by intros [= ->]|by intros ->].
Qed.

Lemma repair_id_inj c i j : repair_id c i = repair_id c j -> i = j.
Proof. unfold repair_id. intros H. by apply (inj (String.app (commit_id c))), (inj (String.app ":")) in H. Qed.

Lemma enqueue_lookup c (stored : gmap string doc) now ids (repairs : gmap string doc) k :
  NoDup ids ->
  foldl (fun repairs i => match stored !! repair_id c i with
                          | Some _ => repairs
                          | None => <[repair_id c i := repair_row c i now]> repairs
                          end) repairs ids !! k =
  match list_find (fun i => repair_id c i = k) ids with
  | Some (_, i) => match stored !! k with Some _ => repairs !! k | None => Some (repair_row c i now) end
  | None => repairs !! k
  end.
Proof.
  intros Hd. revert repairs. induction Hd as [|i ids Hi Hd IH]; intros repairs; [done|]. cbn [foldl list_find].
  rewrite IH. destruct (decide (repair_id c i = k)) as [<-|Hne].
  - assert (list_find (fun j => repair_id c j = repair_id c i) ids = None) as ->.
    { apply list_find_None, Forall_forall. intros j Hj Heq%repair_id_inj. congruence. }
    destruct (stored !! repair_id c i); [done|by rewrite lookup_insert_eq].
  - destruct (list_find _ ids) as [[n j]|]; cbn [fmap option_fmap option_map prod_map fst snd];
      destruct (stored !! repair_id c i); rewrite ?lookup_insert_ne by done; done.
Qed.

(** The rows after a commit's repairs were asked for. *)
Lemma enqueued c stored now k :
  (enqueue_projection_repairs stored c now).1 !! k =
  match stored !! k with
  | Some row => Some row
  | None => (fun p : nat * string => repair_row c p.2 now) <$> list_find (fun i => repair_id c i = k) (affected_fact_ids (mutations c))
  end.
Proof.
  cbn [enqueue_projection_repairs fst]. rewrite enqueue_lookup by apply affected_NoDup.
  destruct (list_find _ _) as [[n i]|]; cbn; by destruct (stored !! k).
Qed.

(** Every change of a commit is queued for its projection, once.  Asking for the
    repairs of a commit gives one row to each fact that a mutation of the commit
    names, queued, and marked dangerous exactly when a mutation of that fact takes
    something away; a row that exists, and every other row, is left as it is; and
    asking again changes nothing and answers the same ids. *)
Theorem every_change_is_queued stored c now now' :
  let '(repairs, ids) := enqueue_projection_repairs stored c now in
  NoDup ids /\
  (forall m i, m ∈ mutations c -> names_fact i m ->
     repair_id c i ∈ ids /\ exists row, repairs !! repair_id c i = Some row /\
       (stored !! repair_id c i = None -> fresh_row c i row)) /\
  (forall k, k ∈ ids \/ repairs !! k = stored !! k) /\ stored ⊆ repairs /\
  enqueue_projection_repairs repairs c now' = (repairs, ids).
Proof.
  destruct (enqueue_projection_repairs stored c now) as [repairs ids] eqn:E.
  pose proof (enqueued c stored now) as Hrow. rewrite E in Hrow. cbn [fst] in Hrow.
  assert (ids = repair_id c <$> affected_fact_ids (mutations c)) as -> by (by injection E).
  assert (forall i, i ∈ affected_fact_ids (mutations c) ->
            exists n, list_find (fun j => repair_id c j = repair_id c i) (affected_fact_ids (mutations c)) = Some (n, i)) as Hfind.
  { intros i Hi. destruct (list_find_elem_of (fun j => repair_id c j = repair_id c i) _ i Hi eq_refl) as [[n j] Hj].
    pose proof Hj as (_ & Heq%repair_id_inj & _)%list_find_Some. exists n. by rewrite Hj, Heq. }
  assert (stored ⊆ repairs) as Hsub.
  { apply map_subseteq_spec. intros k row Hk. by rewrite Hrow, Hk. }
  split_and!; [| | |done|].
  - apply (NoDup_fmap_2_strong (repair_id c)); [|apply affected_NoDup]. intros i j _ _. apply repair_id_inj.
  - intros m i Hm Hi. assert (i ∈ affected_fact_ids (mutations c)) as Hin by (apply elem_of_affected; by exists m).
    split; [by apply list_elem_of_fmap_2|]. rewrite Hrow. destruct (Hfind i Hin) as [n ->].
    destruct (stored !! _) as [row|]; cbn; [by exists row|]. exists (repair_row c i now). split; [done|]. intros _. by apply row_is_fresh.
  - intros k. rewrite Hrow. destruct (stored !! k); [by right|].
    destruct (list_find _ _) as [[n i]|] eqn:Hk; [left|by right].
    apply list_find_Some in Hk as (Hk & <- & _). apply list_elem_of_fmap_2. by eapply list_elem_of_lookup_2.
  - unfold enqueue_projection_repairs. f_equal. apply map_eq. intros k.
    etrans; [exact (enqueued c repairs now' k)|].
    destruct (repairs !! k) eqn:Hk; [done|]. rewrite Hrow in Hk. destruct (stored !! k); [done|]. by destruct (list_find _ _).
Qed.

(** ** Drift *)

(** Reconciling names exactly what the projection lacks and what it should not
    hold.  A fact is reported missing when the last fact under its id is to be
    shown and no vector has its id, and a vector stale when no fact under its id is
    to be shown; a fact out of the current view or with a removed payload is never
    to be shown; and once the missing were added and the stale deleted, nothing is
    reported. *)
Theorem reconciliation_converges facts ids :
  let r := reconcile_memory_projection facts ids in
  (forall i, i ∈ missing_upserts r <-> i ∉ ids /\ (exists f, facts_by_id facts !! i = Some f /\ upserts f = true)) /\
  (forall i, i ∈ stale_deletes r <-> i ∈ ids /\ (forall f, facts_by_id facts !! i = Some f -> upserts f = false)) /\
  (forall f, out_of_view f \/ py_get f "redaction_status" = PStr "payload_tombstoned" -> upserts f = false) /\
  drift_count r = projection_fail_count r /\
  forall ids', (forall i, i ∈ ids' <-> (i ∈ ids /\ i ∉ stale_deletes r) \/ i ∈ missing_upserts r) ->
    reconcile_memory_projection facts ids' = {| missing_upserts := []; stale_deletes := []; drift_count := 0; projection_fail_count := 0 |}.
Proof.
  assert (forall i, i ∈ expected_active facts <-> exists f, facts_by_id facts !! i = Some f /\ upserts f = true) as Hexp.
  { intros i. unfold expected_active. rewrite elem_of_dom. split.
    - intros [f [Hf Hu]%map_lookup_filter_Some]. by exists f.
    - intros (f & Hf & Hu). exists f. by apply map_lookup_filter_Some. }
  cbn zeta. cbn [reconcile_memory_projection missing_upserts stale_deletes drift_count projection_fail_count].
  split_and!.
  - intros i. rewrite elem_of_py_sorted, elem_of_difference, elem_of_list_to_set, Hexp. tauto.
  - intros i. rewrite elem_of_py_sorted, elem_of_difference, elem_of_list_to_set, Hexp. split; intros [Hi Hn]; (split; [done|]).
    + intros f Hf. apply not_true_is_false. intros Hu. apply Hn. by exists f.
    + intros (f & Hf & Hu). rewrite (Hn f Hf) in Hu. done.
  - intros f Hf. unfold upserts, projection_action_for_fact. destruct Hf as [Hf|Hf].
    + unfold out_of_view in Hf. by destruct (py_get f "invalid_at").
    + rewrite Hf. by destruct (negb _).
  - by destruct (py_sorted _), (py_sorted _).
  - intros ids' Hids. unfold reconcile_memory_projection.
    assert (expected_active facts = list_to_set ids') as ->.
    { apply set_eq. intros i. rewrite elem_of_list_to_set, Hids, !elem_of_py_sorted, !elem_of_difference, elem_of_list_to_set.
      destruct (decide (i ∈ ids)), (decide (i ∈ expected_active facts)); tauto. }
    by rewrite difference_diag_L.
Qed.

(** ** A retried append *)

Section AppendCommitOps.
Context (canonical_json : pyval -> string) {P : Type}.
Context (provider : nat -> LedgerStore P -> option (heap * nat * LedgerStore P)).
Context (others : nat -> LedgerStore P -> LedgerStore P) (random_value : nat -> Q) (clock fence_clock : nat -> Z).

(** Firestore: a transaction that it aborts has written nothing. *)
Context (aborts_are_atomic : forall k st h i st',
  provider k st = Some (h, i, st') -> _is_transaction_contention h i = Some true -> st' = st).

(** The other processes take steps of the ledger, too. *)
Context (others_step : forall k st, star (ledger_step canonical_json) st (others k st)).

Local Abbreviation step := (ledger_step canonical_json).

Lemma drift_steps k n st : star step st (drift others k n st).
Proof.
  revert k st. induction n as [|n IH]; intros k st; [constructor|]. cbn [drift].
  eapply star_trans; [apply others_step|apply IH].
Qed.

Local Abbreviation append st k uid parent items run at_ writer use_head :=
  (_append_commit_transaction canonical_json st uid parent items run at_ (clock k) (fence_clock k) writer use_head).

(** The provider aborts attempt [k]. *)
Definition aborted (k : nat) (st : LedgerStore P) : Prop :=
  exists h i, provider k st = Some (h, i, st) /\ _is_transaction_contention h i = Some true.

Lemma contention_aborts k st e st' uid parent items run at_ writer use_head :
  append_operation canonical_json provider clock fence_clock uid parent items run at_ writer use_head k st = (Raise e, st') ->
  append_contention e = true -> st' = st /\ aborted k st.
Proof.
  unfold append_operation, aborted. destruct (provider k st) as [[[h i] s]|] eqn:Hp.
  - intros [= <- <-]. cbn. destruct (_is_transaction_contention h i) as [[]|] eqn:Hc; [intros _|done..].
    pose proof (aborts_are_atomic _ _ _ _ _ Hp Hc) as ->. split; [done|]. by exists h, i.
  - destruct (append st k _ _ _ _ _ _ _) as [[]|]; [done|]. by intros [= <- <-].
Qed.

Lemma repairs_asked repairs c now :
  let repairs' := (enqueue_projection_repairs repairs c now).1 in
  (forall m i, m ∈ mutations c -> names_fact i m -> is_Some (repairs' !! repair_id c i)) /\ repairs ⊆ repairs'.
Proof.
  cbn zeta. split.
  - intros m i Hm Hi. rewrite enqueued. destruct (repairs !! _); [done|]. apply fmap_is_Some.
    assert (i ∈ affected_fact_ids (mutations c)) as Hin by (apply elem_of_affected; by exists m).
    destruct (list_find_elem_of (fun j => repair_id c j = repair_id c i) _ i Hin eq_refl) as [x ->]. by exists x.
  - apply map_subseteq_spec. intros k row Hk. by rewrite enqueued, Hk.
Qed.

(** C10: a retried append commits at most once, on the chain, and asks for every
    repair.  However often the provider aborts and whatever others commit between
    the attempts, one attempt decides: those before it were aborted, and it finds
    what the others, and nobody else, made of the ledger meanwhile.  A commit
    reported as applied was new to that attempt, which wrote it by a single step
    of the ledger, and every fact it names has its repair row.  A commit reported
    as known was there, with nothing written.  A refusal is the ledger's of that
    attempt, and exhaustion means that each of the allowed attempts was aborted:
    either way the ledger is as the others left it and no repair was asked for.
    Any other error is the provider's, and asks for no repair. *)
Theorem append_commit_applies_once st repairs uid parent items run at_ writer use_head now answer st' repairs' :
  append_commit canonical_json provider others random_value clock fence_clock st repairs uid parent items run at_ writer use_head now
    = (answer, st', repairs') ->
  exists n, (n < DEFAULT_MAX_ATTEMPTS)%nat /\ (forall i, (i < n)%nat -> aborted (1 + i) (drift others 1 i st)) /\
  let s := drift others 1 n st in
  let attempt := append s (1 + n)%nat uid parent items run at_ writer use_head in
  star step st s /\
  match answer with
  | Ok (c, true) =>
      provider (1 + n)%nat s = None /\ attempt = Ok (st', (c, true)) /\ step s st' /\
      commits s !! commit_id c = None /\ commits st' !! commit_id c = Some c /\
      (forall m i, m ∈ mutations c -> names_fact i m -> is_Some (repairs' !! repair_id c i)) /\ repairs ⊆ repairs'
  | Ok (c, false) =>
      provider (1 + n)%nat s = None /\ attempt = Ok (st', (c, false)) /\ (exists k, commits s !! k = Some c) /\
      st' = s /\ repairs' = repairs
  | Raise ContentionExhausted =>
      S n = DEFAULT_MAX_ATTEMPTS /\ aborted (1 + n) s /\ st' = s /\ repairs' = repairs
  | Raise (Propagated (LedgerRefused e)) =>
      provider (1 + n)%nat s = None /\ attempt = Raise e /\ st' = s /\ repairs' = repairs
  | Raise (Propagated (ProviderError h i)) =>
      provider (1 + n)%nat s = Some (h, i, st') /\ _is_transaction_contention h i <> Some true /\ repairs' = repairs
  | Raise MaxAttemptsNotPositive => False
  end.
Proof.
  unfold append_commit. destruct (run_with_transaction_contention_retry _ _ _ _ _ _) as [[a s'] slept] eqn:Hrun.
  intros [= <- <- <-]. unfold run_with_transaction_contention_retry, DEFAULT_MAX_ATTEMPTS in Hrun.
  apply attempts_spec in Hrun as (n & Hn & Hcont & Hd & _); [|intros; by eapply contention_aborts].
  exists n. split; [unfold DEFAULT_MAX_ATTEMPTS; lia|]. split.
  { intros i (e & Hop & He)%Hcont. by eapply contention_aborts. }
  cbn zeta. split; [apply drift_steps|]. unfold decided_by in Hd. set (s := drift others 1 n st) in *.
  destruct a as [[c applied]|[| |e]]; [|done| |].
  - unfold append_operation in Hd. destruct (provider _ s) as [[[h i] s2]|] eqn:Hp; [done|].
    destruct (append s _ _ _ _ _ _ _ _) as [[s1 a1]|e] eqn:Ha; [|done]. injection Hd as -> ->.
    pose proof (applied_is_new _ _ _ _ _ _ _ _ _ _ _ _ _ _ Ha) as Hnew. destruct applied.
    + pose proof (repairs_asked repairs c now) as [? ?]. split_and!; try done; [by eapply step_append|by eapply applied_is_stored].
    + split_and!; try done. by apply unapplied_is_known in Ha.
  - destruct Hd as ((e & Hop & He) & -> & ->). split_and!; [done| |done..]. by eapply contention_aborts.
  - destruct Hd as [Hop He]. unfold append_operation in Hop. destruct (provider _ s) as [[[h i] s2]|] eqn:Hp.
    + injection Hop as <- <-. cbn in He. split_and!; [done| |done]. intros H. by rewrite H in He.
    + destruct (append s _ _ _ _ _ _ _ _) as [[]|e'] eqn:Ha; [done|]. injection Hop as <- <-. by split_and!.
Qed.
End AppendCommitOps.
