(* ===== verification/MemoryPrivacy.v ===== *)
(** Removing deleted memories from the history ([database/memory_ledger.py]):
    [purge_legacy_memory_commits_for_memories],
    [purge_canonical_privacy_history_for_memories] and
    [finalize_canonical_privacy_tombstones].

    A query in the order of names reads a page of documents after a cursor; pages
    are read while the documents of the earlier ones are deleted.  An
    [operation_id] is hashable. *)
From stdpp Require Import sorting.
From S2P Require Export ProjectionRepair.

(** ** References *)

Fixpoint _value_references_memory_id (targets : gset string) (value : pyval) : bool :=
  match value with
  | PStr s => bool_decide (s ∈ targets)
  | PDict d => existsb (fun kv => _value_references_memory_id targets kv.2) d
  | PList l => existsb (_value_references_memory_id targets) l
  | _ => false
  end.

Definition references (targets : gset string) (d : doc) : bool := _value_references_memory_id targets (dict_value d).

(** [{memory_id for memory_id in memory_ids if memory_id}] *)
Definition target_set (memory_ids : list string) : gset string :=
  list_to_set (base.filter (fun i => i <> "") memory_ids).

(** ** Pages *)

Definition MEMORY_COMMIT_PRIVACY_PURGE_PAGE_SIZE : nat := 100.

Definition by_name (a b : string * doc) : Prop := String.le a.1 b.1.

#[export] Instance by_name_dec : RelDecision by_name.
Proof. intros a b. unfold by_name. apply _. Defined.

Definition after (cursor : option string) (k : string) : Prop :=
  match cursor with None => True | Some c => ~ String.le k c end.

#[export] Instance after_dec cursor k : Decision (after cursor k).
Proof. unfold after. destruct cursor; apply _. Defined.

(** [collection.order_by('__name__')], from a cursor on. *)
Definition ordered (coll : gmap string doc) (cursor : option string) : list (string * doc) :=
  merge_sort by_name (map_to_list (base.filter (fun kv => after cursor kv.1) coll)).

Definition next_page (coll : gmap string doc) (cursor : option string) : list (string * doc) :=
  take MEMORY_COMMIT_PRIVACY_PURGE_PAGE_SIZE (ordered coll cursor).

(** What is done with a document that was read. *)
Inductive Verdict : Type := Keep | Delete | Update (d : doc).

Section Iterate.
Context (visit : string -> doc -> Verdict).

Definition treat (coll : gmap string doc) (kd : string * doc) : gmap string doc :=
  match visit kd.1 kd.2 with
  | Keep => coll
  | Delete => delete kd.1 coll
  | Update d => <[kd.1 := d]> coll
  end.

Definition deleted_in (page : list (string * doc)) : list string :=
  (base.filter (fun kd => match visit kd.1 kd.2 with Delete => true | _ => false end = true) page).*1.

(** The loop over the pages of [_iter_collection_documents], its consumer doing
    [visit]: the collection after it and the names deleted, in the order of the
    deletions; [None] if it would read on for ever. *)
Fixpoint iter_documents (fuel : nat) (coll : gmap string doc) (cursor : option string)
    : option (gmap string doc * list string) :=
  let page := next_page coll cursor in
  match last page with
  | None => Some (coll, [])
  | Some (k, _) =>
      let coll' := foldl treat coll page in
      if (length page <? MEMORY_COMMIT_PRIVACY_PURGE_PAGE_SIZE)%nat then Some (coll', deleted_in page) else
      match fuel with
      | O => None
      | S fuel' =>
          match iter_documents fuel' coll' (Some k) with
          | Some (coll'', more) => Some (coll'', deleted_in page ++ more)
          | None => None
          end
      end
  end.

Definition _iter_collection_documents (coll : gmap string doc) : option (gmap string doc * list string) :=
  iter_documents (size coll) coll None.
End Iterate.

Definition delete_if (f : doc -> bool) (_ : string) (d : doc) : Verdict := if f d then Delete else Keep.

(** ** Purging *)

Definition purge_legacy_memory_commits_for_memories (commits : gmap string doc) (memory_ids : list string)
    : option (gmap string doc * list string) :=
  let targets := target_set memory_ids in
  if bool_decide (targets = ∅) then Some (commits, []) else
  _iter_collection_documents (delete_if (fun d =>
    match py_get d "mutations" with PList l => _value_references_memory_id targets (PList l) | _ => false end)) commits.

Record History : Type := {
  memory_operations : gmap string doc;
  memory_commits : gmap string doc;
  memory_outbox : gmap string doc;
  memory_ledger_reopens : gmap string doc;
  jit_trigger_feedback : gmap string doc;
  jit_proactivity_events : gmap string doc;
  jit_proactivity_daily_budgets : gmap string doc;
  memory_source_replacements : gmap string doc;
}.

(** [payload.get('operation_id') in deleted_operation_ids] *)
Definition of_operation (operations : gset string) (d : doc) : bool :=
  match py_get d "operation_id" with PStr i => bool_decide (i ∈ operations) | _ => false end.

Definition without_planned (targets : gset string) (_ : string) (d : doc) : Verdict :=
  match py_get d "planned_by_trigger" with
  | PDict planned =>
      if existsb (fun kv => bool_decide (kv.1 ∈ targets)) planned
      then Update (doc_update d [("planned_by_trigger", Put (PDict (base.filter (fun kv => kv.1 ∉ targets) planned)))])
      else Keep
  | _ => Keep
  end.

Definition purge_source_replacement_receipts_for_memories (receipts : gmap string doc) (memory_ids : list string)
    : option (gmap string doc * list string) :=
  let targets := target_set memory_ids in
  if bool_decide (targets = ∅) then Some (receipts, []) else
  '(receipts', removed) ← _iter_collection_documents (delete_if (references targets)) receipts;
  Some (receipts', merge_sort String.le removed).

(** The answer holds the names removed from each collection. *)
Definition purge_canonical_privacy_history_for_memories (h : History) (memory_ids : list string) (preserve_receipts : bool)
    : option (History * list (string * list string)) :=
  let targets := target_set memory_ids in
  if bool_decide (targets = ∅) then Some (h, []) else
  let report (name : string) (ids : list string) := match ids with [] => [] | _ => [(name, merge_sort String.le ids)] end in
  '(operations, removed_operations) ← _iter_collection_documents (delete_if (references targets)) (memory_operations h);
  let deleted : gset string := list_to_set removed_operations in
  let touched := delete_if (fun d => of_operation deleted d || references targets d) in
  '(commits', removed_commits) ← _iter_collection_documents touched (memory_commits h);
  '(outbox, removed_outbox) ← _iter_collection_documents touched (memory_outbox h);
  '(reopens, removed_reopens) ← _iter_collection_documents (delete_if (references targets)) (memory_ledger_reopens h);
  '(feedback, removed_feedback) ← _iter_collection_documents (delete_if (references targets)) (jit_trigger_feedback h);
  '(events, removed_events) ← _iter_collection_documents (delete_if (references targets)) (jit_proactivity_events h);
  '(budgets, _) ← _iter_collection_documents (without_planned targets) (jit_proactivity_daily_budgets h);
  '(receipts, removed_receipts) ←
    (if (preserve_receipts : bool) then Some (memory_source_replacements h, [])
     else purge_source_replacement_receipts_for_memories (memory_source_replacements h) (elements targets));
  Some ({| memory_operations := operations; memory_commits := commits'; memory_outbox := outbox;
           memory_ledger_reopens := reopens; jit_trigger_feedback := feedback; jit_proactivity_events := events;
           jit_proactivity_daily_budgets := budgets; memory_source_replacements := receipts |},
        report "memory_operations" removed_operations ++ report "memory_commits" removed_commits ++
        report "memory_outbox" removed_outbox ++ report "memory_ledger_reopens" removed_reopens ++
        report "jit_trigger_feedback" removed_feedback ++ report "jit_proactivity_events" removed_events ++
        match removed_receipts with [] => [] | _ => [("memory_source_replacements", removed_receipts)] end).

(** ** Finalization *)

Record Canonical : Type := {
  canonical_items : gmap string doc;
  canonical_assertions : gmap string doc;
  canonical_evidence : gmap string doc;
}.

(** The items and the evidence to delete, in the order they are found. *)
Definition Doomed : Type := list string * list string.

Definition doom_evidence (st : Canonical) (found : list string) (row : pyval) : list string :=
  match row with
  | PDict d =>
      match nonempty_str (py_get (dict_doc d) "evidence_id") with
      | Some e =>
          if bool_decide (e ∈ found) then found else
          match canonical_evidence st !! e with
          | Some payload => if is_str (py_get payload "source_state") "tombstoned" then found ++ [e] else found
          | None => found
          end
      | None => found
      end
  | _ => found
  end.

Definition doom_item (st : Canonical) (doomed : Doomed) (memory_id : string) : result pyexc Doomed :=
  match canonical_items st !! memory_id with
  | None => Ok doomed
  | Some payload =>
      if negb (is_str (py_get payload "status") "tombstoned")
      then Raise (RuntimeError "canonical privacy finalization requires a tombstoned item") else
      Ok (doomed.1 ++ [memory_id],
          match py_get payload "evidence" with
          | PList rows => foldl (doom_evidence st) doomed.2 rows
          | _ => doomed.2
          end)
  end.

Fixpoint doom_all (st : Canonical) (doomed : Doomed) (target_ids : list string) : result pyexc Doomed :=
  match target_ids with
  | [] => Ok doomed
  | i :: rest => let* doomed' := doom_item st doomed i in doom_all st doomed' rest
  end.

Definition delete_all (ids : list string) (coll : gmap string doc) : gmap string doc := foldr delete coll ids.

Definition _finalize_canonical_privacy_tombstones_transaction (st : Canonical) (target_ids : list string) : result pyexc Canonical :=
  let* doomed := doom_all st ([], []) target_ids in
  Ok {| canonical_items := delete_all doomed.1 (canonical_items st);
        canonical_assertions := delete_all doomed.1 (canonical_assertions st);
        canonical_evidence := delete_all doomed.2 (canonical_evidence st) |}.

(** [list(dict.fromkeys(memory_id for memory_id in memory_ids if memory_id))] *)
Definition unique_ids (memory_ids : list string) : list string := foldl append_new [] (base.filter (fun i => i <> "") memory_ids).

(** The history is purged whatever the transaction answers. *)
Definition finalize_canonical_privacy_tombstones (h : History) (st : Canonical) (memory_ids : list string) (preserve_receipts : bool)
    : option (History * result pyexc Canonical) :=
  let target_ids := unique_ids memory_ids in
  match target_ids with
  | [] => Some (h, Ok st)
  | _ =>
      '(h', _) ← purge_canonical_privacy_history_for_memories h target_ids preserve_receipts;
      Some (h', _finalize_canonical_privacy_tombstones_transaction st target_ids)
  end.
