(* ===== verification/MemoryPrivacyOps.v ===== *)
(** What a purge removes and leaves: the pages cover a collection once, nothing
    that names a deleted memory stays, and everything else does. *)
From stdpp Require Import sorting.
From S2P Require Export MemoryPrivacy.

(** ** Pages cover the collection *)

#[export] Instance by_name_trans : Transitive by_name.
Proof. intros a b c. unfold by_name. apply transitivity. Qed.

#[export] Instance by_name_total : Total by_name.
Proof. intros a b. unfold by_name. apply total, _. Qed.

(** Strictly increasing names. *)
Definition ascending : list (string * doc) -> Prop := StronglySorted (fun a b => after (Some a.1) b.1).

Lemma ascending_of_sorted l : NoDup l.*1 -> StronglySorted by_name l -> ascending l.
Proof.
  intros Hd Hs. unfold ascending. induction Hs as [|a l Hs IH Ha]; [constructor|].
  cbn in Hd. apply NoDup_cons in Hd as [Hn Hd]. constructor; [by apply IH|].
  apply Forall_forall. intros b Hb Hle. rewrite Forall_forall in Ha. pose proof (Ha b Hb) as Hab. unfold by_name in Hab.
  apply Hn. assert (a.1 = b.1) as -> by (by apply (anti_symm String.le)). by apply list_elem_of_fmap_2.
Qed.

Lemma ordered_perm coll cursor : ordered coll cursor ≡ₚ map_to_list (base.filter (fun kv => after cursor kv.1) coll).
Proof. apply merge_sort_Permutation. Qed.

Lemma ordered_NoDup coll cursor : NoDup (ordered coll cursor).*1.
Proof. rewrite ordered_perm. apply NoDup_fst_map_to_list. Qed.

Lemma ordered_ascending coll cursor : ascending (ordered coll cursor).
Proof. apply ascending_of_sorted; [apply ordered_NoDup|apply (StronglySorted_merge_sort by_name)]. Qed.

Lemma elem_of_ordered coll cursor k d : (k, d) ∈ ordered coll cursor <-> coll !! k = Some d /\ after cursor k.
Proof. by rewrite ordered_perm, elem_of_map_to_list, map_lookup_filter_Some. Qed.

Lemma ascending_unique l1 l2 : ascending l1 -> ascending l2 -> l1 ≡ₚ l2 -> l1 = l2.
Proof.
  assert (forall l, ascending l -> NoDup l.*1 /\ StronglySorted by_name l) as Hweak.
  { induction 1 as [|a l Hs [IHd IHs] Ha]; [split; constructor|]. rewrite Forall_forall in Ha. split.
    - cbn. apply NoDup_cons. split; [|done]. intros (b & Heq & Hb)%list_elem_of_fmap.
      pose proof (Ha b Hb) as Hab. unfold after in Hab. rewrite Heq in Hab. by apply Hab.
    - constructor; [done|]. apply Forall_forall. intros b Hb. pose proof (Ha b Hb) as Hab. unfold after, by_name in *.
      by destruct (total String.le a.1 b.1). }
  intros [Hd1 Hs1]%Hweak [_ Hs2]%Hweak Hp. apply (StronglySorted_unique_strong by_name); [|done..].
  intros [k d] [k' d'] Ha Hb Hab Hba. rewrite <- Hp in Hb. assert (k = k') as <- by (by apply (anti_symm String.le)).
  f_equal. apply list_elem_of_lookup in Ha as [i Hi], Hb as [j Hj].
  assert (i = j) as <-; [|congruence]. eapply (NoDup_lookup _ _ _ k Hd1); rewrite list_lookup_fmap; [by rewrite Hi|by rewrite Hj].
Qed.

(** Behind the last name of a page comes the rest. *)
Lemma ascending_split page rest k d x :
  ascending (page ++ rest) -> last page = Some (k, d) -> x ∈ page ++ rest -> (after (Some k) x.1 <-> x ∈ rest).
Proof.
  intros Hs [l ->]%last_Some Hx. pose proof Hs as (Hcross & Hpage & _)%StronglySorted_app. split.
  - intros Ha. apply elem_of_app in Hx as [Hx|Hx]; [|done]. exfalso. apply Ha.
    apply elem_of_app in Hx as [Hx| ->%list_elem_of_singleton]; [|done].
    assert (~ String.le k x.1) as Hk by (apply (StronglySorted_app_1_elem_of _ _ _ x (k, d) Hpage Hx); by apply list_elem_of_singleton).
    by destruct (total String.le x.1 k).
  - intros Hr. apply (Hcross (k, d) x); [apply elem_of_app; right; by apply list_elem_of_singleton|done].
Qed.

Lemma after_step cursor k j : after cursor k -> after (Some k) j -> after cursor j.
Proof.
  destruct cursor as [c|]; [|done]. cbn. intros Hk Hj Hle. destruct (total String.le j k) as [H|H]; [done|].
  apply Hk. by etrans.
Qed.

Lemma ordered_rest coll coll' cursor page rest k d :
  ordered coll cursor = page ++ rest -> last page = Some (k, d) ->
  (forall j, after (Some k) j -> coll' !! j = coll !! j) -> ordered coll' (Some k) = rest.
Proof.
  intros Ho Hl Hagree. pose proof (ordered_ascending coll cursor) as Hs. rewrite Ho in Hs.
  pose proof Hs as (_ & _ & Hrest)%StronglySorted_app.
  apply ascending_unique; [apply ordered_ascending|done|]. apply NoDup_Permutation.
  - eapply (NoDup_fmap_1 fst), ordered_NoDup.
  - pose proof (ordered_NoDup coll cursor) as Hd%NoDup_fmap_1. rewrite Ho in Hd. by apply NoDup_app in Hd as (_ & _ & ?).
  - intros [j x]. rewrite elem_of_ordered. split.
    + intros [Hj Ha]. apply (ascending_split page rest k d (j, x) Hs Hl); [|done].
      rewrite <- Ho, elem_of_ordered. rewrite Hagree in Hj by done. split; [done|]. eapply after_step; [|done].
      apply last_Some in Hl as [l ->]. apply (elem_of_ordered coll cursor k d). rewrite Ho. set_solver.
    + intros Hj. assert ((j, x) ∈ page ++ rest) as Hin by (apply elem_of_app; by right).
      pose proof (proj2 (ascending_split page rest k d (j, x) Hs Hl Hin) Hj) as Ha.
      rewrite <- Ho, elem_of_ordered in Hin. rewrite Hagree by done. by destruct Hin.
Qed.

(** ** What the loop does *)

Section Loop.
Context (visit : string -> doc -> Verdict).

(** The document a visit leaves. *)
Definition left_by (k : string) (d : doc) : option doc :=
  match visit k d with Keep => Some d | Delete => None | Update d' => Some d' end.

Definition deletes (kd : string * doc) : Prop := match visit kd.1 kd.2 with Delete => true | _ => false end = true.

#[local] Instance deletes_dec kd : Decision (deletes kd).
Proof. unfold deletes. apply _. Defined.

Lemma treat_other coll kd j : j <> kd.1 -> treat visit coll kd !! j = coll !! j.
Proof. intros Hj. unfold treat. destruct (visit _ _); [done|by rewrite lookup_delete_ne|by rewrite lookup_insert_ne]. Qed.

Lemma treat_page_other coll page j : j ∉ page.*1 -> foldl (treat visit) coll page !! j = coll !! j.
Proof.
  revert coll. induction page as [|kd page IH]; intros coll Hj; [done|]. cbn [foldl fmap list_fmap] in *.
  apply not_elem_of_cons in Hj as [Hne Hj]. rewrite IH by done. by apply treat_other.
Qed.

Lemma treat_page coll page k d :
  NoDup page.*1 -> (k, d) ∈ page -> (forall j x, (j, x) ∈ page -> coll !! j = Some x) ->
  foldl (treat visit) coll page !! k = left_by k d.
Proof.
  revert coll. induction page as [|[k' d'] page IH]; intros coll Hd Hin Hc; [by apply not_elem_of_nil in Hin|].
  cbn [foldl]. cbn in Hd. apply NoDup_cons in Hd as [Hn Hd]. apply elem_of_cons in Hin as [[= <- <-]|Hin].
  - rewrite treat_page_other by done. unfold treat, left_by. cbn [fst snd].
    destruct (visit k d); [apply Hc; left|by rewrite lookup_delete_eq|by rewrite lookup_insert_eq].
  - apply IH; [done..|]. intros j x Hj. rewrite treat_other; [apply Hc; by right|]. cbn. intros ->.
    apply Hn. by apply (list_elem_of_fmap_2 fst _ (k', x)).
Qed.

(** Behind the cursor every document is visited once, the others are not read. *)
Definition visited (coll coll' : gmap string doc) (cursor : option string) : Prop :=
  forall k, coll' !! k = if decide (after cursor k) then d ← coll !! k; left_by k d else coll !! k.

(** One page treated. *)
Lemma page_left coll cursor page rest j :
  ordered coll cursor = page ++ rest ->
  foldl (treat visit) coll page !! j = if decide (j ∈ page.*1) then d ← coll !! j; left_by j d else coll !! j.
Proof.
  intros Ho. destruct (decide _) as [Hj|Hj]; [|by apply treat_page_other].
  apply list_elem_of_fmap in Hj as ([k d] & -> & Hin). cbn [fst].
  assert (forall i x, (i, x) ∈ page -> coll !! i = Some x) as Hc.
  { intros i x Hi. apply (elem_of_ordered coll cursor). rewrite Ho. apply elem_of_app. by left. }
  rewrite (Hc k d Hin). cbn [mbind option_bind]. apply treat_page; [|done..].
  pose proof (ordered_NoDup coll cursor) as Hd. rewrite Ho, fmap_app in Hd. by apply NoDup_app in Hd as [? _].
Qed.

(** The names of the rest are those behind the page. *)
Lemma in_page coll cursor page rest k d j x :
  ordered coll cursor = page ++ rest -> last page = Some (k, d) -> coll !! j = Some x ->
  (j ∈ page.*1 <-> after cursor j /\ ~ after (Some k) j).
Proof.
  intros Ho Hl Hj. pose proof (ordered_ascending coll cursor) as Hs. rewrite Ho in Hs.
  pose proof (ordered_NoDup coll cursor) as Hd. rewrite Ho, fmap_app in Hd. apply NoDup_app in Hd as (_ & Hdis & _).
  split.
  - intros Hin. pose proof Hin as ([j' x'] & -> & Hp)%list_elem_of_fmap. cbn [fst] in *.
    assert ((j', x') ∈ page ++ rest) as Hin' by (apply elem_of_app; by left). split.
    + rewrite <- Ho in Hin'. by apply elem_of_ordered in Hin' as [_ ?].
    + intros Ha. apply (Hdis j' Hin). apply (list_elem_of_fmap_2 fst _ (j', x')).
      by apply (ascending_split page rest k d (j', x') Hs Hl Hin').
  - intros [Ha Hn]. assert ((j, x) ∈ page ++ rest) as Hin by (rewrite <- Ho; by apply elem_of_ordered).
    pose proof (ascending_split page rest k d (j, x) Hs Hl Hin) as Hiff. apply elem_of_app in Hin as [Hin|Hin].
    + by apply (list_elem_of_fmap_2 fst _ (j, x)).
    + by destruct Hn; apply Hiff.
Qed.

Lemma nothing_behind coll cursor : ordered coll cursor = [] -> visited coll coll cursor.
Proof.
  intros Ho k. destruct (decide _) as [Ha|]; [|done]. destruct (coll !! k) as [d|] eqn:Hk; [|done].
  exfalso. apply (not_elem_of_nil (k, d)). rewrite <- Ho. by apply elem_of_ordered.
Qed.

Lemma behind_untouched coll cursor page rest k d j :
  ordered coll cursor = page ++ rest -> last page = Some (k, d) -> after (Some k) j ->
  foldl (treat visit) coll page !! j = coll !! j.
Proof.
  intros Ho Hl Ha. rewrite (page_left coll cursor page rest j Ho). destruct (decide _) as [Hp|]; [|done].
  destruct (coll !! j) as [x|] eqn:Hj; [|done]. by apply (in_page coll cursor page rest k d j x Ho Hl Hj) in Hp as [_ ?].
Qed.

Lemma visited_compose coll coll2 cursor page rest k d :
  ordered coll cursor = page ++ rest -> last page = Some (k, d) ->
  visited (foldl (treat visit) coll page) coll2 (Some k) -> visited coll coll2 cursor.
Proof.
  intros Ho Hl Hv j. rewrite (Hv j), (page_left coll cursor page rest j Ho).
  assert (after cursor k) as Hk.
  { apply (elem_of_ordered coll cursor k d). rewrite Ho. apply last_Some in Hl as [l ->].
    apply elem_of_app. left. apply elem_of_app. right. by apply list_elem_of_singleton. }
  destruct (coll !! j) as [x|] eqn:Hj; [|by repeat destruct (decide _)].
  pose proof (in_page coll cursor page rest k d j x Ho Hl Hj) as Hin.
  destruct (decide (after (Some k) j)) as [Hak|Hak].
  - rewrite decide_False by tauto. rewrite decide_True by (by eapply after_step). done.
  - destruct (decide (after cursor j)) as [Ha|Ha].
    + by rewrite decide_True by tauto.
    + by rewrite decide_False by tauto.
Qed.

Lemma deleted_app l k : deleted_in visit (l ++ k) = deleted_in visit l ++ deleted_in visit k.
Proof. unfold deleted_in. by rewrite filter_app, fmap_app. Qed.

Lemma iter_spec fuel coll cursor :
  (length (ordered coll cursor) <= fuel)%nat ->
  exists coll', iter_documents visit fuel coll cursor = Some (coll', deleted_in visit (ordered coll cursor)) /\
    visited coll coll' cursor.
Proof.
  revert coll cursor. induction fuel as [|fuel IH]; intros coll cursor Hf.
  { assert (ordered coll cursor = []) as Ho by (by destruct (ordered coll cursor); [|cbn in Hf; lia]).
    exists coll. split; [|by apply nothing_behind]. cbn [iter_documents]. unfold next_page. by rewrite Ho, take_nil. }
  cbn [iter_documents]. set (page := next_page coll cursor).
  set (rest := drop MEMORY_COMMIT_PRIVACY_PURGE_PAGE_SIZE (ordered coll cursor)).
  assert (ordered coll cursor = page ++ rest) as Ho by (by unfold page, rest, next_page; rewrite take_drop).
  destruct (last page) as [[k d]|] eqn:Hl.
  2: { apply last_None in Hl. rewrite Hl in Ho. assert (ordered coll cursor = []) as Ho'.
       { unfold page, next_page in Hl. by destruct (ordered coll cursor). }
       exists coll. split; [by rewrite Ho'|by apply nothing_behind]. }
  set (coll1 := foldl (treat visit) coll page).
  destruct (Nat.ltb_spec (length page) MEMORY_COMMIT_PRIVACY_PURGE_PAGE_SIZE) as [Hshort|Hlong].
  - assert (rest = []) as Hr.
    { unfold page, next_page in Hshort. rewrite length_take in Hshort. apply drop_ge. lia. }
    exists coll1. rewrite Ho, Hr, app_nil_r. split; [done|]. intros j. unfold coll1. rewrite (page_left coll cursor page rest j Ho).
    destruct (coll !! j) as [x|] eqn:Hj; [|by destruct (decide _), (decide _)].
    pose proof (in_page coll cursor page rest k d j x Ho Hl Hj) as Hin.
    destruct (decide (after cursor j)) as [Ha|Ha], (decide (j ∈ page.*1)) as [Hp|Hp]; try done; [|tauto].
    exfalso. apply Hp. apply (list_elem_of_fmap_2 fst _ (j, x)).
    assert ((j, x) ∈ ordered coll cursor) as H by (by apply elem_of_ordered). by rewrite Ho, Hr, app_nil_r in H.
  - assert (ordered coll1 (Some k) = rest) as Hnext.
    { eapply ordered_rest; [exact Ho|exact Hl|]. intros j. by eapply behind_untouched. }
    destruct (IH coll1 (Some k)) as (coll2 & Hrun & Hv).
    { rewrite Hnext. rewrite Ho, length_app in Hf. unfold MEMORY_COMMIT_PRIVACY_PURGE_PAGE_SIZE in Hlong. lia. }
    rewrite Hrun, Hnext, Ho, deleted_app. exists coll2. split; [done|]. by eapply visited_compose.
Qed.
End Loop.

Lemma iter_collection visit coll :
  exists coll', _iter_collection_documents visit coll = Some (coll', deleted_in visit (ordered coll None)) /\
    forall k, coll' !! k = d ← coll !! k; left_by visit k d.
Proof.
  destruct (iter_spec visit (size coll) coll None) as (coll' & Hrun & Hv).
  - rewrite ordered_perm, length_map_to_list. apply map_size_filter.
  - exists coll'. split; [exact Hrun|]. intros k. rewrite (Hv k). by rewrite decide_True.
Qed.

Lemma elem_of_deleted visit coll k :
  k ∈ deleted_in visit (ordered coll None) <-> exists d, coll !! k = Some d /\ left_by visit k d = None.
Proof.
  unfold deleted_in, left_by. rewrite list_elem_of_fmap. split.
  - intros ([k' d] & -> & [Hd [Hk _]%elem_of_ordered]%list_elem_of_filter). exists d. split; [done|]. cbn in *. by destruct (visit k' d).
  - intros (d & Hk & Hd). exists (k, d). split; [done|]. apply list_elem_of_filter. split; [|by apply elem_of_ordered].
    cbn. by destruct (visit k d).
Qed.
