(* ===== verification/MemoryPurge.v ===== *)
(** No trace of a deleted memory: what a purge leaves, that later commits cannot
    bring the memory back, and the atomic removal of its last rows. *)
From stdpp Require Import sorting.
From S2P Require Export MemoryPrivacyOps.

(** ** Where an id occurs *)

(** The id is a value somewhere inside the value. *)
Inductive occurs (i : string) : pyval -> Prop :=
| occurs_here : occurs i (PStr i)
| occurs_in_list l v : v ∈ l -> occurs i v -> occurs i (PList l)
| occurs_in_dict d k v : (k, v) ∈ d -> occurs i v -> occurs i (PDict d).

(** A document names one of the ids. *)
Definition names_any (targets : gset string) (d : doc) : Prop := exists i, i ∈ targets /\ occurs i (dict_value d).

Lemma references_occurs targets v :
  _value_references_memory_id targets v = true <-> exists i, i ∈ targets /\ occurs i v.
Proof.
  split.
  - revert v. fix IH 1. intros [| | | |s| |l|d]; cbn; try done.
    + intros H%bool_decide_eq_true. exists s. by split; [|constructor].
    + induction l as [|v l IHl]; cbn; [done|]. intros [H|H]%orb_true_iff.
      * destruct (IH v H) as (i & Hi & Ho). exists i. split; [done|]. apply (occurs_in_list i _ v); [left|done].
      * destruct (IHl H) as (i & Hi & Ho). exists i. split; [done|]. inversion Ho; subst.
        eapply occurs_in_list; [by right|done].
    + induction d as [|[k v] d IHd]; cbn; [done|]. intros [H|H]%orb_true_iff.
      * destruct (IH v H) as (i & Hi & Ho). exists i. split; [done|]. apply (occurs_in_dict i _ k v); [left|done].
      * destruct (IHd H) as (i & Hi & Ho). exists i. split; [done|]. inversion Ho; subst.
        eapply occurs_in_dict; [by right|done].
  - intros (i & Hi & Ho). induction Ho as [|l v Hv _ IH|d k v Hv _ IH]; cbn.
    + by apply bool_decide_eq_true.
    + apply existsb_exists. exists v. by split; [apply list_elem_of_In|].
    + apply existsb_exists. exists (k, v). by split; [apply list_elem_of_In|].
Qed.

Lemma references_names targets d : references targets d = true <-> names_any targets d.
Proof. apply references_occurs. Qed.

Lemma names_nothing d : ~ names_any ∅ d.
Proof. by intros (i & ?%not_elem_of_empty & _). Qed.

(** ** What a sweep with a condition leaves *)

Lemma sweep_if f coll :
  exists coll' removed, _iter_collection_documents (delete_if f) coll = Some (coll', removed) /\
    (forall k d, coll' !! k = Some d <-> coll !! k = Some d /\ f d = false) /\
    (forall k, k ∈ removed <-> exists d, coll !! k = Some d /\ f d = true).
Proof.
  destruct (iter_collection (delete_if f) coll) as (coll' & Hrun & Hv). eexists _, _. split; [exact Hrun|]. split.
  - intros k d. rewrite Hv. unfold left_by, delete_if. destruct (coll !! k) as [x|]; cbn [mbind option_bind]; [|naive_solver].
    destruct (f x) eqn:Hf; naive_solver congruence.
  - intros k. rewrite elem_of_deleted. unfold left_by, delete_if. split; intros (d & Hk & Hd); exists d; (split; [done|]); by destruct (f d).
Qed.

(** The documents of [coll] that do not satisfy [Q]. *)
Definition exactly_without (Q : doc -> Prop) (coll coll' : gmap string doc) : Prop :=
  forall k d, coll' !! k = Some d <-> coll !! k = Some d /\ ~ Q d.

Lemma sweep_names targets coll :
  exists coll' removed, _iter_collection_documents (delete_if (references targets)) coll = Some (coll', removed) /\
    exactly_without (names_any targets) coll coll' /\
    (forall k, k ∈ removed <-> exists d, coll !! k = Some d /\ names_any targets d).
Proof.
  destruct (sweep_if (references targets) coll) as (coll' & removed & Hrun & Hl & Hr). exists coll', removed. split; [done|]. split.
  - intros k d. by rewrite Hl, <- references_names, not_true_iff_false.
  - intros k. rewrite Hr. by setoid_rewrite references_names.
Qed.

(** ** The purge *)

(** The document belongs to an operation that names one of the ids. *)
Definition of_named_operation (h : History) (targets : gset string) (d : doc) : Prop :=
  exists o od, memory_operations h !! o = Some od /\ names_any targets od /\ py_get d "operation_id" = PStr o.

(** A budget without the plans of the ids, and otherwise as it was. *)
Definition unplanned (targets : gset string) (d d' : doc) : Prop :=
  (forall k, k <> "planned_by_trigger" -> d' !! k = d !! k) /\
  match py_get d "planned_by_trigger" with
  | PDict planned => exists kept, py_get d' "planned_by_trigger" = PDict kept /\
      forall k v, (k, v) ∈ kept <-> (k, v) ∈ planned /\ k ∉ targets
  | _ => d' = d
  end.

Lemma without_planned_spec targets k d : exists d', left_by (without_planned targets) k d = Some d' /\ unplanned targets d d'.
Proof.
  unfold left_by, without_planned, unplanned. destruct (py_get d "planned_by_trigger") as [| | | | | | |planned] eqn:Hp; try (exists d; by split_and!).
  destruct (existsb _ planned) eqn:He.
  - eexists. split; [done|]. split.
    + intros j Hj. unfold doc_update. cbn. by rewrite lookup_insert_ne.
    + eexists. split; [by doc_simpl|]. intros j v. rewrite list_elem_of_filter. cbn. tauto.
  - exists d. split_and!; [done..|]. exists planned. split; [done|]. intros j v. split; [|by intros []].
    intros Hin. split; [done|]. intros Hj. apply not_true_iff_false in He. apply He. apply existsb_exists.
    exists (j, v). split; [by apply list_elem_of_In|by apply bool_decide_eq_true].
Qed.

Lemma sweep_planned targets coll :
  exists coll' removed, _iter_collection_documents (without_planned targets) coll = Some (coll', removed) /\
    (forall k, match coll !! k with Some d => exists d', coll' !! k = Some d' /\ unplanned targets d d' | None => coll' !! k = None end).
Proof.
  destruct (iter_collection (without_planned targets) coll) as (coll' & Hrun & Hv). eexists _, _. split; [exact Hrun|].
  intros k. rewrite Hv. destruct (coll !! k) as [d|]; [|done]. apply without_planned_spec.
Qed.

Lemma target_set_again ids : target_set (elements (target_set ids)) = target_set ids.
Proof.
  apply set_eq. intros i. unfold target_set at 1. rewrite elem_of_list_to_set, list_elem_of_filter, elem_of_elements.
  split; [by intros []|]. intros Hi. split; [|done]. unfold target_set in Hi. rewrite elem_of_list_to_set, list_elem_of_filter in Hi. by destruct Hi.
Qed.

Lemma sweep_touched h targets removed coll :
  (forall k, k ∈ removed <-> exists d, memory_operations h !! k = Some d /\ names_any targets d) ->
  exists coll' gone,
    _iter_collection_documents (delete_if (fun d => of_operation (list_to_set removed) d || references targets d)) coll = Some (coll', gone) /\
    exactly_without (fun d => names_any targets d \/ of_named_operation h targets d) coll coll'.
Proof.
  intros Hrem. destruct (sweep_if (fun d => of_operation (list_to_set removed) d || references targets d) coll) as (coll' & gone & Hrun & Hl & _).
  exists coll', gone. split; [done|]. intros k d. rewrite Hl, orb_false_iff, <- !not_true_iff_false, references_names.
  assert (of_operation (list_to_set removed) d = true <-> of_named_operation h targets d) as ->; [|tauto].
  unfold of_operation, of_named_operation. destruct (py_get d "operation_id"); try (split; [done|by intros (? & ? & _ & _ & ?)]).
  rewrite bool_decide_eq_true, elem_of_list_to_set, Hrem. split; [intros (od & ? & ?); by exists s, od|].
  intros (o & od & ? & ? & [= ->]). by exists od.
Qed.

Lemma receipts_swept coll ids :
  exists coll' removed, purge_source_replacement_receipts_for_memories coll ids = Some (coll', removed) /\
    exactly_without (names_any (target_set ids)) coll coll'.
Proof.
  unfold purge_source_replacement_receipts_for_memories. case_bool_decide as He.
  - exists coll, []. split; [done|]. rewrite He. intros k d. split; [intros ?; split; [done|apply names_nothing]|by intros []].
  - destruct (sweep_names (target_set ids) coll) as (coll' & removed & -> & Hl & _). by eexists _, _.
Qed.

(** C14: a purge ends and leaves no trace.  After the history was purged for some
    memories, the operations, commits, outbox rows, ledger reopens, feedback,
    proactivity events and, unless they are to be preserved, replacement receipts
    are exactly those that name none of the memories at any depth and, for commits
    and outbox rows, that belong to no operation that was removed; the daily
    budgets lost exactly the plans of the memories; nothing else changed. *)
Theorem purge_leaves_no_trace h ids preserve :
  let targets := target_set ids in
  exists h' report, purge_canonical_privacy_history_for_memories h ids preserve = Some (h', report) /\
    exactly_without (names_any targets) (memory_operations h) (memory_operations h') /\
    exactly_without (fun d => names_any targets d \/ of_named_operation h targets d) (memory_commits h) (memory_commits h') /\
    exactly_without (fun d => names_any targets d \/ of_named_operation h targets d) (memory_outbox h) (memory_outbox h') /\
    exactly_without (names_any targets) (memory_ledger_reopens h) (memory_ledger_reopens h') /\
    exactly_without (names_any targets) (jit_trigger_feedback h) (jit_trigger_feedback h') /\
    exactly_without (names_any targets) (jit_proactivity_events h) (jit_proactivity_events h') /\
    (forall k, match jit_proactivity_daily_budgets h !! k with
               | Some d => exists d', jit_proactivity_daily_budgets h' !! k = Some d' /\ unplanned targets d d'
               | None => jit_proactivity_daily_budgets h' !! k = None
               end) /\
    (if (preserve : bool) then memory_source_replacements h' = memory_source_replacements h
     else exactly_without (names_any targets) (memory_source_replacements h) (memory_source_replacements h')).
Proof.
  cbn zeta. unfold purge_canonical_privacy_history_for_memories. case_bool_decide as He.
  - eexists h, []. split; [done|]. rewrite He.
    assert (forall Q coll, (forall d, ~ Q d) -> exactly_without Q coll coll) as Hsame.
    { intros Q coll HQ k d. split; [by intros ?|by intros []]. }
    assert (forall d, ~ of_named_operation h ∅ d) as Hno by (intros d (o & od & _ & Hn & _); by apply names_nothing in Hn).
    pose proof names_nothing as Hn.
    split_and!; try (apply Hsame; intros d; specialize (Hno d); specialize (Hn d); tauto).
    + intros k. destruct (_ !! k) as [d|]; [|done]. exists d. split; [done|]. unfold unplanned. split; [done|].
      destruct (py_get d _); try done. eexists. split; [done|]. intros j v. split; [intros ?; split; [done|by apply not_elem_of_empty]|by intros []].
    + destruct preserve; [done|]. apply Hsame, Hn.
  - set (targets := target_set ids) in *.
    destruct (sweep_names targets (memory_operations h)) as (ops & gone_ops & -> & Hops & Hgone). cbn [mbind option_bind].
    destruct (sweep_touched h targets gone_ops (memory_commits h) Hgone) as (cs & ? & -> & Hcs). cbn [mbind option_bind].
    destruct (sweep_touched h targets gone_ops (memory_outbox h) Hgone) as (ob & ? & -> & Hob). cbn [mbind option_bind].
    destruct (sweep_names targets (memory_ledger_reopens h)) as (ro & ? & -> & Hro & _). cbn [mbind option_bind].
    destruct (sweep_names targets (jit_trigger_feedback h)) as (fb & ? & -> & Hfb & _). cbn [mbind option_bind].
    destruct (sweep_names targets (jit_proactivity_events h)) as (ev & ? & -> & Hev & _). cbn [mbind option_bind].
    destruct (sweep_planned targets (jit_proactivity_daily_budgets h)) as (bu & ? & -> & Hbu). cbn [mbind option_bind].
    destruct preserve.
    + cbn [mbind option_bind]. eexists _, _. by split_and!.
    + destruct (receipts_swept (memory_source_replacements h) (elements targets)) as (re & ? & -> & Hre). cbn [mbind option_bind].
      unfold targets in Hre. rewrite target_set_again in Hre. eexists _, _. by split_and!.
Qed.

(** ** Commits after a purge *)

(** The document of a commit. *)
Definition commit_document (c : Commit) : doc :=
  doc_set [put_str "commit_id" (commit_id c); ("parent_commit_id", Put (str_or_none (parent_commit_id c)));
           ("commit_time", Put (time_or_none (commit_time c))); ("run_id", Put (str_or_none (run_id c)));
           ("mutations", Put (PList (mutation_dict <$> mutations c)))].

Lemma occurs_payload i type_ payload k v : (k, v) ∈ payload -> occurs i v -> occurs i (typed type_ payload).
Proof. intros Hin Ho. eapply occurs_in_dict; [right; exact Hin|done]. Qed.

Lemma occurs_id i type_ k payload : (k, PStr i) ∈ payload -> occurs i (typed type_ payload).
Proof. intros Hin. eapply occurs_payload; [exact Hin|constructor]. Qed.

Lemma nonempty_str_eq v s : nonempty_str v = Some s -> v = PStr s.
Proof. destruct v; cbn; try done. by case_match; intros [= ->]. Qed.

Lemma elem_of_option_list {A} (o : option A) x : x ∈ option_list o <-> o = Some x.
Proof. destruct o as [y|]; cbn; [rewrite list_elem_of_singleton|rewrite elem_of_nil]; naive_solver. Qed.

Lemma fact_id_occurs i m : fact_id_of m = Some i -> occurs i (mutation_dict m).
Proof.
  destruct m; cbn [fact_id_of mutation_dict]; try done; (destruct (String.eqb _ ""); [done|intros [= <-]]);
    apply (occurs_id _ _ "fact_id"); left.
Qed.

(** What the fences read of a mutation occurs in it. *)
Lemma fence_id_occurs i m : i ∈ ids_of_mutation m -> occurs i (mutation_dict m).
Proof.
  destruct m as [fact|j by_ kind iv| | | | | | | |] eqn:E;
    try (intros Hi%elem_of_option_list; by apply fact_id_occurs).
  - intros Hi%elem_of_option_list%nonempty_str_eq. cbn [mutation_dict].
    apply (occurs_payload i _ _ "fact" (dict_value fact)); [left|]. apply (occurs_in_dict i _ "id" (PStr i)); [|constructor].
    apply elem_of_map_to_list. unfold py_get in Hi. destruct (fact !! "id"); [|done]. cbn in Hi. by rewrite Hi.
  - intros [Hi%elem_of_option_list|Hi%elem_of_option_list]%elem_of_app; [by apply fact_id_occurs|].
    destruct by_ as [b|]; [|done]. cbn in Hi. destruct (String.eqb b ""); [done|]. injection Hi as ->.
    apply (occurs_id i _ "by"). right. left.
Qed.

(** The commit names the memory where the fences look. *)
Definition commit_names (i : string) (c : Commit) : Prop := i ∈ _mutation_memory_ids (mutations c).

Lemma commit_names_occurs i c : commit_names i c -> occurs i (PList (mutation_dict <$> mutations c)).
Proof.
  unfold commit_names, _mutation_memory_ids. rewrite elem_of_list_to_set. intros (m & Hm & Hi)%elem_of_concat_fmap.
  eapply occurs_in_list; [by apply list_elem_of_fmap_2|by apply fence_id_occurs].
Qed.

(** The purge of the legacy commits, on the commits themselves. *)
Lemma legacy_purge cs i :
  i <> "" ->
  exists kept removed,
    purge_legacy_memory_commits_for_memories (commit_document <$> cs) [i] = Some (commit_document <$> kept, removed) /\
    kept ⊆ cs /\ (forall k c, kept !! k = Some c -> ~ commit_names i c) /\
    (forall k c, cs !! k = Some c -> ~ occurs i (PList (mutation_dict <$> mutations c)) -> kept !! k = Some c).
Proof.
  intros Hi. unfold purge_legacy_memory_commits_for_memories.
  assert (target_set [i] = {[i]}) as -> by (unfold target_set; rewrite filter_cons_True by done; set_solver).
  rewrite bool_decide_false by set_solver. match goal with |- context [delete_if ?g] => set (f := g) end.
  assert (forall c, f (commit_document c) = true <-> occurs i (PList (mutation_dict <$> mutations c))) as Hf.
  { intros c. unfold f, commit_document, doc_set. doc_simpl. unfold id. rewrite references_occurs. split.
    - by intros (j & ->%elem_of_singleton & Ho).
    - intros Ho. exists i. by split; [apply elem_of_singleton|]. }
  destruct (sweep_if f (commit_document <$> cs)) as (docs & removed & -> & Hl & _).
  set (kept := base.filter (fun kv => f (commit_document kv.2) = false) cs).
  assert (docs = commit_document <$> kept) as ->.
  { apply map_eq. intros k. apply option_eq. intros d. rewrite Hl, !lookup_fmap_Some. unfold kept.
    setoid_rewrite map_lookup_filter_Some. cbn. naive_solver. }
  exists kept, removed. split_and!; [done|apply map_filter_subseteq| |].
  - intros k c [_ Hc]%map_lookup_filter_Some Hn. cbn in Hc. apply not_true_iff_false in Hc. by apply Hc, Hf, commit_names_occurs.
  - intros k c Hk Hno. apply map_lookup_filter_Some. split; [done|]. cbn. apply not_true_iff_false. intros Ht. by apply Hno, Hf.
Qed.

(** ** The memory stays out *)

Section StaysOut.
Context (canonical_json : pyval -> string) {P : Type} (i : string).

(** The memory is tombstoned or suppressed. *)
Definition hidden_memory (st : LedgerStore P) : Prop :=
  tombstoned (memory_items st !! i) || tombstoned (memory_overrides st !! i) = true.

(** A step of the ledger that leaves it so. *)
Definition hidden_step (st st' : LedgerStore P) : Prop := ledger_step canonical_json st st' /\ hidden_memory st'.

Definition unnamed (st : LedgerStore P) : Prop := forall k c, commits st !! k = Some c -> ~ commit_names i c.

Lemma fenced st now items : hidden_memory st -> _assert_legacy_commit_privacy_fences st now items = Ok tt -> i ∉ _mutation_memory_ids items.
Proof. intros Hh Hf Hi. destruct (fences_pass _ _ _ _ Hf Hi) as [H1 H2]. unfold hidden_memory in Hh. by rewrite H1, H2 in Hh. Qed.

Lemma unnamed_step st st' : ledger_step canonical_json st st' -> hidden_memory st -> unnamed st -> unnamed st'.
Proof.
  intros Hs Hh Hu. unfold unnamed. destruct (step_fenced _ _ _ Hs) as [-> |(c & now & Hf & ->)]; [done|].
  intros k d [[<- <-]|[_ Hd]]%lookup_insert_Some; [by eapply fenced|by eapply Hu].
Qed.

(** C6: a deleted memory stays out of the ledger.  Purging the legacy commits of a
    memory removes every commit whose mutations name it and keeps those it occurs
    nowhere in; and from then on, as long as the memory is tombstoned or suppressed,
    no append, retried or rebuilt or under any parent, and nothing another process
    does stores a commit that names it. *)
Theorem deleted_memory_stays_out (st : LedgerStore P) :
  i <> "" ->
  exists kept removed,
    purge_legacy_memory_commits_for_memories (commit_document <$> commits st) [i] = Some (commit_document <$> kept, removed) /\
    kept ⊆ commits st /\
    (forall k c, commits st !! k = Some c -> ~ occurs i (PList (mutation_dict <$> mutations c)) -> kept !! k = Some c) /\
    forall st1 st2, commits st1 = kept -> hidden_memory st1 -> star hidden_step st1 st2 ->
      forall k c, commits st2 !! k = Some c -> ~ commit_names i c.
Proof.
  intros Hi. destruct (legacy_purge (commits st) i Hi) as (kept & removed & Hp & Hs & Hk & Hrest).
  exists kept, removed. split_and!; [done..|]. intros st1 st2 Hc1 Hh1 Hst.
  assert (unnamed st1) as Hu by (unfold unnamed; by rewrite Hc1). clear Hc1.
  induction Hst as [s|s1 s2 s3 [Hstep Hh2] _ IH]; [exact Hu|]. apply IH; [done|]. by eapply unnamed_step.
Qed.
End StaysOut.
