(* ===== verification/MemoryTombstones.v ===== *)
(** The last step of a deletion: removing the tombstoned rows of a lineage at
    once, after its history was purged. *)
From stdpp Require Import sorting.
From S2P Require Export MemoryPurge.

Section Finalize.
Context (st : Canonical).

(** An evidence row that may be deleted. *)
Definition tombstoned_evidence (e : string) : Prop :=
  exists p, canonical_evidence st !! e = Some p /\ py_get p "source_state" = PStr "tombstoned".

(** The row cites the evidence. *)
Definition row_cites (row : pyval) (e : string) : Prop :=
  exists r, row = PDict r /\ nonempty_str (py_get (dict_doc r) "evidence_id") = Some e.

Definition item_cites (i e : string) : Prop :=
  exists d rows row, canonical_items st !! i = Some d /\ py_get d "evidence" = PList rows /\ row ∈ rows /\ row_cites row e.

Lemma doom_evidence_spec found row e :
  e ∈ doom_evidence st found row <-> e ∈ found \/ (row_cites row e /\ tombstoned_evidence e).
Proof.
  unfold doom_evidence, row_cites, tombstoned_evidence.
  destruct row as [| | | | | | |r]; try (split; [by left|by intros [?|[(? & ? & _) _]]]).
  destruct (nonempty_str _) as [e'|] eqn:He.
  2: { split; [by left|]. intros [?|[(r' & [= <-] & Hr) _]]; [done|congruence]. }
  assert (forall x, (exists r', PDict r = PDict r' /\ nonempty_str (py_get (dict_doc r') "evidence_id") = Some x) <-> x = e') as Hc.
  { intros x. split; [intros (r' & [= <-] & Hr); congruence|intros ->; by exists r]. }
  rewrite Hc. case_bool_decide as Hin.
  - split; [by left|]. by intros [?|[-> _]].
  - destruct (canonical_evidence st !! e') as [p|] eqn:Hp.
    + destruct (is_str _ _) eqn:Hs.
      * apply is_str_spec in Hs. rewrite elem_of_app, list_elem_of_singleton. split; [|by intros [?|[-> _]]; [left|right]].
        intros [?| ->]; [by left|right]. split; [done|]. by exists p.
      * split; [by left|]. intros [?|[-> (q & Hq & Ht)]]; [done|]. apply is_str_spec in Ht. congruence.
    + split; [by left|]. intros [?|[-> (q & Hq & _)]]; [done|congruence].
Qed.

Lemma doom_rows_spec found rows e :
  e ∈ foldl (doom_evidence st) found rows <-> e ∈ found \/ (exists row, row ∈ rows /\ row_cites row e) /\ tombstoned_evidence e.
Proof.
  revert found. induction rows as [|row rows IH]; intros found; cbn [foldl].
  - split; [by left|]. by intros [?|[(r & ?%not_elem_of_nil & _) _]].
  - rewrite IH, doom_evidence_spec. split.
    + intros [[?|[? ?]]|[(r & ? & ?) ?]]; [by left| |]; right; (split; [|done]); [exists row|exists r]; (split; [|done]); [left|by right].
    + intros [?|[(r & [->|Hr]%elem_of_cons & ?) ?]]; [by left; left|by left; right|right]. split; [by exists r|done].
Qed.

(** The item may be finalized. *)
Definition finalizable (i : string) : Prop :=
  forall d, canonical_items st !! i = Some d -> py_get d "status" = PStr "tombstoned".

Lemma doom_item_spec doomed i :
  match doom_item st doomed i with
  | Raise e => e = RuntimeError "canonical privacy finalization requires a tombstoned item" /\ ~ finalizable i
  | Ok doomed' =>
      finalizable i /\
      (forall k, k ∈ doomed'.1 <-> k ∈ doomed.1 \/ (k = i /\ is_Some (canonical_items st !! i))) /\
      (forall e, e ∈ doomed'.2 <-> e ∈ doomed.2 \/ (item_cites i e /\ tombstoned_evidence e))
  end.
Proof.
  unfold doom_item, finalizable, item_cites. destruct (canonical_items st !! i) as [d|] eqn:Hd.
  2: { split_and!; [done|..]; intros k; (split; [by left|]); [by intros [?|[_ [? ?]]]|by intros [?|[(? & ? & ? & ? & _) _]]]. }
  destruct (is_str _ _) eqn:Hs; cbn [negb]; [apply is_str_spec in Hs|].
  2: { split; [done|]. intros H. rewrite (proj2 (is_str_spec _ _) (H d eq_refl)) in Hs. done. }
  cbn [fst snd]. split_and!; [by intros ? [= <-]| |].
  - intros k. rewrite elem_of_app, list_elem_of_singleton. split; [|by intros [?|[-> _]]; [left|right]].
    intros [?| ->]; [by left|right]. by split; [|exists d].
  - intros e. assert (forall rows, py_get d "evidence" = PList rows ->
        (exists row, row ∈ rows /\ row_cites row e) <->
        exists d' rows row, Some d = Some d' /\ py_get d' "evidence" = PList rows /\ row ∈ rows /\ row_cites row e) as Hc.
    { intros rows Hr. split; [intros (row & ? & ?); by exists d, rows, row|].
      intros (d' & rows' & row & [= <-] & Hr' & ? & ?). exists row. split; [congruence|done]. }
    destruct (py_get d "evidence") as [| | | | | |rows|] eqn:He;
      try (split; [by left|]; intros [?|[(d' & rows & row & [= <-] & Hr & _) _]]; [done|congruence]).
    by rewrite doom_rows_spec, (Hc rows eq_refl).
Qed.

Lemma doom_all_spec doomed ids :
  match doom_all st doomed ids with
  | Raise e => e = RuntimeError "canonical privacy finalization requires a tombstoned item" /\ exists i, i ∈ ids /\ ~ finalizable i
  | Ok doomed' =>
      (forall i, i ∈ ids -> finalizable i) /\
      (forall k, k ∈ doomed'.1 <-> k ∈ doomed.1 \/ (k ∈ ids /\ is_Some (canonical_items st !! k))) /\
      (forall e, e ∈ doomed'.2 <-> e ∈ doomed.2 \/ (exists i, i ∈ ids /\ item_cites i e) /\ tombstoned_evidence e)
  end.
Proof.
  revert doomed. induction ids as [|i ids IH]; intros doomed; cbn [doom_all].
  - split_and!; [by intros i ?%not_elem_of_nil|..]; intros k; (split; [by left|]);
      [by intros [?|[?%not_elem_of_nil _]]|by intros [?|[(? & ?%not_elem_of_nil & _) _]]].
  - pose proof (doom_item_spec doomed i) as Hi. destruct (doom_item st doomed i) as [d1|e]; cbn [rbind].
    2: { destruct Hi as [-> Hi]. split; [done|]. exists i. by split; [left|]. }
    destruct Hi as (Hf & Hk & He). specialize (IH d1). destruct (doom_all st d1 ids) as [d2|e].
    2: { destruct IH as (-> & j & ? & ?). split; [done|]. exists j. by split; [right|]. }
    destruct IH as (Hf2 & Hk2 & He2). split_and!.
    + by intros j [->|Hj]%elem_of_cons; [|apply Hf2].
    + intros k. rewrite Hk2, Hk, elem_of_cons. naive_solver.
    + intros e. rewrite He2, He. setoid_rewrite elem_of_cons. naive_solver.
Qed.

Lemma lookup_delete_all ids coll k : delete_all ids coll !! k = if decide (k ∈ ids) then None else coll !! k.
Proof.
  unfold delete_all. induction ids as [|i ids IH]; cbn [foldr]; [done|].
  destruct (decide (k = i)) as [->|Hne].
  - rewrite lookup_delete_eq, decide_True by left. done.
  - rewrite lookup_delete_ne, IH by done. destruct (decide (k ∈ ids)) as [Hi|Hi].
    + by rewrite decide_True by (by right).
    + rewrite decide_False; [done|]. by rewrite elem_of_cons; intros [?|?].
Qed.
End Finalize.

Lemma elem_of_unique_ids ids i : i ∈ unique_ids ids <-> i ∈ ids /\ i <> "".
Proof.
  unfold unique_ids. assert (forall l acc, i ∈ foldl append_new acc l <-> i ∈ acc \/ i ∈ l) as H.
  { induction l as [|x l IH]; intros acc; cbn [foldl]; [rewrite elem_of_nil; tauto|]. rewrite IH, elem_of_append_new, elem_of_cons. tauto. }
  rewrite H, elem_of_nil, list_elem_of_filter. tauto.
Qed.

(** A collection without some keys. *)
Definition lost (Q : string -> Prop) (coll coll' : gmap string doc) : Prop :=
  forall k, (Q k -> coll' !! k = None) /\ (~ Q k -> coll' !! k = coll !! k).

Lemma delete_all_lost ids Q coll : (forall k, is_Some (coll !! k) -> (k ∈ ids <-> Q k)) -> lost Q coll (delete_all ids coll).
Proof.
  intros Hq k. rewrite lookup_delete_all. destruct (coll !! k) as [d|] eqn:Hk; [|by destruct (decide _)].
  specialize (Hq k ltac:(rewrite Hk; by eexists)). split; intros H; [rewrite decide_True by tauto|rewrite decide_False by tauto]; done.
Qed.

Lemma purge_total h ids preserve : exists h' report, purge_canonical_privacy_history_for_memories h ids preserve = Some (h', report).
Proof.
  unfold purge_canonical_privacy_history_for_memories, purge_source_replacement_receipts_for_memories.
  case_bool_decide; [by eexists _, _|].
  repeat match goal with
  | |- context [_iter_collection_documents ?v ?c] =>
      destruct (iter_collection v c) as (? & -> & _); cbn [mbind option_bind]
  | |- context [if ?b then _ else _] => destruct b
  end; by eexists _, _.
Qed.

(** The ids a finalization is asked for. *)
Definition requested (ids : list string) (i : string) : Prop := i ∈ ids /\ i <> "".

(** C35: the last rows of a deletion go at once or not at all.  Finalizing ends and
    has then purged the history.  If one of the memories has an item that is not
    tombstoned, an error is raised and no row goes; otherwise exactly the items of
    the memories go, their assertions, and of the evidence their items cite exactly
    the rows whose source is tombstoned, so that evidence which is alive stays. *)
Theorem finalization_is_all_or_nothing h st ids preserve :
  exists h' report answer,
    finalize_canonical_privacy_tombstones h st ids preserve = Some (h', answer) /\
    purge_canonical_privacy_history_for_memories h (unique_ids ids) preserve = Some (h', report) /\
    ((exists i, requested ids i /\ ~ finalizable st i) ->
       answer = Raise (RuntimeError "canonical privacy finalization requires a tombstoned item")) /\
    ((forall i, requested ids i -> finalizable st i) -> exists st', answer = Ok st' /\
       lost (requested ids) (canonical_items st) (canonical_items st') /\
       lost (fun i => requested ids i /\ is_Some (canonical_items st !! i)) (canonical_assertions st) (canonical_assertions st') /\
       lost (fun e => (exists i, requested ids i /\ item_cites st i e) /\ tombstoned_evidence st e)
         (canonical_evidence st) (canonical_evidence st')).
Proof.
  destruct (purge_total h (unique_ids ids) preserve) as (h' & report & Hp).
  assert (finalize_canonical_privacy_tombstones h st ids preserve =
          Some (h', _finalize_canonical_privacy_tombstones_transaction st (unique_ids ids))) as Hf.
  { unfold finalize_canonical_privacy_tombstones. destruct (unique_ids ids) eqn:Hu; [|by rewrite Hp].
    unfold purge_canonical_privacy_history_for_memories in Hp. cbn in Hp. injection Hp as <- _. by destruct st. }
  exists h', report. eexists. split; [exact Hf|]. split; [done|].
  unfold _finalize_canonical_privacy_tombstones_transaction.
  pose proof (doom_all_spec st ([], []) (unique_ids ids)) as Hd.
  assert (forall i, i ∈ unique_ids ids <-> requested ids i) as Hids by (intros i; apply elem_of_unique_ids).
  destruct (doom_all _ _ _) as [[items evidence]|e]; cbn [rbind fst snd] in *.
  - destruct Hd as (Hall & Hi & He). split; [intros (i & Hr & Hn); by destruct Hn; apply Hall, Hids|].
    intros _. eexists. split; [done|]. cbn [canonical_items canonical_assertions canonical_evidence].
    split_and!; apply delete_all_lost; intros k Hk.
    + rewrite Hi, Hids, elem_of_nil. tauto.
    + rewrite Hi, Hids, elem_of_nil. tauto.
    + rewrite He, elem_of_nil. setoid_rewrite Hids. tauto.
  - destruct Hd as [-> (i & Hi & Hn)]. split; [done|]. intros Hall. by destruct Hn; apply Hall, Hids.
Qed.
