(* ===== verification/MemoryDemo.v ===== *)
(** A ledger at which the theorems are instantiated: a fact is added and retracted,
    under a provider that aborts and another process that commits in between. *)
From stdpp Require Import sorting.
From S2P Require Import ContentionRetry MemoryTombstones ProjectionOps.

(** A text for [json.dumps], different for a first and a later commit; the theorems
    ask nothing of it. *)
Definition show (v : pyval) : string :=
  match v with PDict ((_, PNone) :: _) => "first" | _ => "later" end.

(** The value of a call that succeeds. *)
Definition got {E A} (otherwise : A) (r : result E A) : A := match r with Ok a => a | Raise _ => otherwise end.

Lemma got_ok {E A} (otherwise : A) (r : result E A) : is_ok r = true -> r = Ok (got otherwise r).
Proof. by destruct r. Qed.

Definition nothing_yet : LedgerStore unit :=
  {| state_head := None; apply_control := None; commits := ∅; memory_items := ∅; memory_overrides := ∅;
     account_deletion := None; deletion_gate := None; projection := tt |}.

Definition tea : doc := dict_doc [("id", PStr "m1"); ("content", PStr "likes tea"); ("valid_at", PTime 3)].
Definition learn : list Mutation := [AddFact tea].
Definition forget : list Mutation := [RetractFact "m1" "user asked"].

Definition add_to (st : LedgerStore unit) (items : list Mutation) (t : Z) : result LedgerError (LedgerStore unit * Appended) :=
  _append_commit_transaction show st "u" None items None (Some t) 0 0 id true.

Definition stored_after (st : LedgerStore unit) (items : list Mutation) (t : Z) : LedgerStore unit :=
  match add_to st items t with Ok (st', _) => st' | Raise _ => st end.

Definition learned : LedgerStore unit := stored_after nothing_yet learn 10.
Definition forgotten : LedgerStore unit := stored_after learned forget 20.

Lemma stored_after_step st items t : star (ledger_step show) st (stored_after st items t).
Proof.
  unfold stored_after. destruct (add_to st items t) as [[st' a]|] eqn:H; [|constructor].
  econstructor; [by eapply step_append|constructor].
Qed.

Definition c1 : Commit := build_commit show None learn None (Some 10) 0.
Definition c2 : Commit := build_commit show (Some (commit_id c1)) forget None (Some 20) 0.

Lemma ledger_is_a_chain_witness :
  exists h, chain (current_head forgotten) (commits forgotten) h /\
    forall st', star (ledger_step show) forgotten st' -> exists k, chain (current_head st') (commits st') (h ++ k).
Proof.
  apply (ledger_is_a_chain show forgotten). apply (reachable_star _ _ nothing_yet); [by apply reach_init|].
  eapply star_trans; apply stored_after_step.
Defined.

(** A first append under an explicit parent, and its answer. *)
Definition first_append : LedgerStore unit * Appended :=
  got (nothing_yet, (c1, false)) (_append_commit_transaction show nothing_yet "u" None learn None (Some 10) 0 0 id false).

Lemma append_is_idempotent_witness :
  let later := stored_after first_append.1 forget 20 in
  _append_commit_transaction show later "u" None learn None (Some 99) 0 0 id false = Ok (later, (first_append.2.1, false)).
Proof.
  apply (append_is_idempotent show nothing_yet "u" None learn None (Some 10) 0 0 id first_append.1 first_append.2.1 first_append.2.2);
    [|apply stored_after_step].
  rewrite <- !surjective_pairing. apply got_ok. by vm_compute.
Defined.

(** The same two commits under short ids. *)
Definition d1 : Commit :=
  {| commit_id := "d1"; parent_commit_id := None; commit_time := Some 10; run_id := None; mutations := learn |}.
Definition d2 : Commit :=
  {| commit_id := "d2"; parent_commit_id := Some "d1"; commit_time := Some 20; run_id := None; mutations := forget |}.

Lemma demo_sorted : StronglySorted before [d1; d2].
Proof. repeat constructor. Qed.

Lemma replay_follows_the_chain_witness :
  exists earlier later, [d1; d2] = earlier ++ later /\
    Forall (included (Some 15)) earlier /\ Forall (fun c => ~ included (Some 15) c) later /\
    replay_to [d2; d1] (Some 15) None = (let* facts := fold_in_order ∅ earlier in view facts None).
Proof. apply (replay_follows_the_chain [d1; d2] [d2; d1]); [apply demo_sorted|apply perm_swap]. Defined.

Lemma diff_between_commits_witness :
  exists out, diff_commits [d2; d1] (Some "d1") "d2" = Some out /\
    (forall between, lies_after [d1; d2] (Some "d1") "d2" between -> out = concat (mutations <$> between)) /\
    ((forall between, ~ lies_after [d1; d2] (Some "d1") "d2" between) -> out = []).
Proof.
  apply (diff_between_commits [d1; d2] [d2; d1]); [by split_and!| |apply perm_swap].
  apply (bool_decide_unpack _). by vm_compute.
Defined.

(** The view of the past, after the fact was retracted. *)
Definition past_view : gmap string doc := got ∅ (replay_to [d2; d1] None (Some 5)).

Lemma retracted_fact_stays_hidden_witness :
  is_Some (past_view !! "m1") /\ forall f, past_view !! "m1" = Some f -> payload_gone f.
Proof.
  split; [apply (bool_decide_unpack _); by vm_compute|].
  destruct (retracted_fact_stays_hidden [d1; d2] [d2; d1] None (Some 5) "m1" [d1] d2 [] [] (RetractFact "m1" "user asked") [] past_view)
    as [_ H].
  - apply demo_sorted.
  - apply perm_swap.
  - intros d [->|[->|?%not_elem_of_nil]%elem_of_cons]%elem_of_cons; [by eexists..|done].
  - reflexivity.
  - reflexivity.
  - reflexivity.
  - reflexivity.
  - by intros m ?%not_elem_of_nil.
  - apply got_ok. by vm_compute.
  - apply (H "user asked"); [reflexivity|by intros m ?%not_elem_of_nil].
Defined.

(** The provider aborts twice. *)
Definition flaky (k : nat) (st : nat) : result unit nat * nat :=
  if (k <=? 2)%nat then (Raise tt, st) else (Ok st, S st).

Lemma retry_applies_once_witness :
  let run := run_with_transaction_contention_retry (fun _ => true) flaky (fun _ st => 10 + st)%nat (fun _ => 1 # 2)%Q 5 0%nat in
  run.1 = (Ok 20%nat, 21%nat) /\ length run.2 = 2%nat /\ Forall (fun d => 1 # 10 <= d <= 1)%Q run.2.
Proof.
  split; [by vm_compute|].
  destruct (retry_applies_once (fun _ => true) flaky (fun _ st => 10 + st)%nat (fun _ => 1 # 2)%Q) with
    (max_attempts := 5%nat) (st := 0%nat) (answer := Ok (E := RetryError unit) 20%nat) (st' := 21%nat)
    (slept := (run_with_transaction_contention_retry (fun _ => true) flaky (fun _ st => 10 + st)%nat (fun _ => 1 # 2)%Q 5 0%nat).2)
    as [(H & _)|(n & Hn & _ & Hd & Hl & Hs)].
  - intros k st e st' H _. unfold flaky in H. destruct (k <=? 2)%nat; congruence.
  - by vm_compute.
  - done.
  - split; [by vm_compute|exact Hs].
Defined.

(** An abort inside a wrapper of the client library. *)
Definition wrapped_abort : heap := {[ 0%nat := {| is_aborted := false; __cause__ := Some 1%nat |};
                                      1%nat := {| is_aborted := true; __cause__ := None |} ]}.

Definition aborts_first (k : nat) (st : LedgerStore unit) : option (heap * nat * LedgerStore unit) :=
  if (k =? 1)%nat then Some (wrapped_abort, 0%nat, st) else None.

Definition another_learns (k : nat) (st : LedgerStore unit) : LedgerStore unit := stored_after st learn 10.

Definition forgetting :=
  append_commit show aborts_first another_learns (fun _ => 0)%Q (fun _ => 0) (fun _ => 0) nothing_yet ∅ "u" None forget None (Some 20) id true 21.

Lemma append_commit_applies_once_witness :
  exists c, forgetting.1.1 = Ok (c, true) /\ commits forgetting.1.2 !! commit_id c = Some c /\
    forall m i, m ∈ mutations c -> names_fact i m -> is_Some (forgetting.2 !! repair_id c i).
Proof.
  assert (match forgetting.1.1 with Ok (_, b) => b | Raise _ => false end = true) as Hok by (by vm_compute).
  pose proof (append_commit_applies_once show aborts_first another_learns (fun _ => 0)%Q (fun _ => 0) (fun _ => 0)) as H.
  assert (forgetting = (forgetting.1.1, forgetting.1.2, forgetting.2)) as Hrun by (by rewrite <- (surjective_pairing forgetting.1), <- surjective_pairing).
  apply H in Hrun; [|intros k st h i st' Hp _; unfold aborts_first in Hp; destruct (k =? 1)%nat; [by injection Hp|done]
                     |intros k st; apply stored_after_step].
  destruct forgetting.1.1 as [[c b]|]; [|done]. subst b. destruct Hrun as (n & _ & _ & _ & _ & _ & _ & _ & Hc & Hr & _).
  exists c. by split_and!.
Defined.

(** The ledger after the purge, the memory being tombstoned. *)
Definition purged (kept : gmap string Commit) : LedgerStore unit :=
  {| state_head := state_head forgotten; apply_control := None; commits := kept;
     memory_items := {[ "m1" := dict_doc [("status", PStr "tombstoned")] ]}; memory_overrides := ∅;
     account_deletion := None; deletion_gate := None; projection := tt |}.

Lemma deleted_memory_stays_out_witness :
  exists kept removed,
    purge_legacy_memory_commits_for_memories (commit_document <$> commits forgotten) ["m1"] = Some (commit_document <$> kept, removed) /\
    forall st, star (hidden_step show "m1") (purged kept) st -> forall k c, commits st !! k = Some c -> ~ commit_names "m1" c.
Proof.
  destruct (deleted_memory_stays_out show "m1" forgotten) as (kept & removed & Hp & _ & _ & H); [done|].
  exists kept, removed. split; [exact Hp|]. intros st Hst. apply (H (purged kept) st); [reflexivity|reflexivity|exact Hst].
Defined.

(** ** Two limits of replay *)

Definition at_time (c : Commit) (t : Z) : Commit :=
  {| commit_id := commit_id c; parent_commit_id := parent_commit_id c; commit_time := Some t; run_id := run_id c;
     mutations := mutations c |}.

(** Replay goes by the clock, not by the chain: a retraction whose clock was behind
    that of the commit it follows is undone. *)
Lemma late_clock_revives :
  linked None [at_time d1 20; at_time d2 10] /\
  is_ok (replay_to [at_time d1 20; at_time d2 10] None None) = true /\
  currently_valid <$> got ∅ (replay_to [at_time d1 20; at_time d2 10] None None) !! "m1" = Some true.
Proof. split_and!; [by split_and!|by vm_compute..]. Qed.

(** A fact with a declared end: superseding it moves the end, retracting it does not. *)
Definition until_100 : doc := <["qualifiers" := dict_value (dict_doc [("valid_to", PTime 100)])]> tea.

Definition ended_at_20 (m : Mutation) : gmap string doc :=
  got ∅ (fold_commits [at_time d1 10; {| commit_id := "e"; parent_commit_id := Some "d1"; commit_time := Some 20;
                                         run_id := None; mutations := [AddFact until_100; m] |}] (Some 50)).

Lemma retracted_still_in_valid_time_view :
  bool_decide (is_Some (ended_at_20 (RetractFact "m1" "user asked") !! "m1")) = true /\
  bool_decide (is_Some (ended_at_20 (SupersedeFact "m1" None "contradict" ∅) !! "m1")) = false.
Proof. by vm_compute. Qed.
