(* ===== verification/OutboxWorker.v ===== *)
(** The consumer of the canonical memory outbox
    ([database/memory_outbox_worker.py], with the fence of
    [database/account_deletion_projection_fence.py]): events are leased, the
    provider is brought to the canonical state of a memory, and the lease is
    settled.

    Reading a document back into a model is pydantic's and an argument; a model
    here is a record of the fields the worker uses.  [user_review] of a promotion
    is a boolean or absent; the type, status, action and error code of an event
    are hashable; the lease fields of an event are timestamps or
    strings, whose ISO form is read by an argument.  Firestore queries compare
    values of one type only. *)
From stdpp Require Import sorting.
From S2P Require Import QueuePolicy.
From S2P Require Export MemoryLedger.

(** ** Models *)

Inductive MemoryTier : Type := short_term | long_term | archive.
Inductive MemoryItemStatus : Type := item_active | superseded | hidden | item_tombstoned.
Inductive ProcessingState : Type := state_pending | processed | blocked.
Inductive SourceState : Type := source_active | source_missing | source_tombstoned | source_purged.

#[export] Instance memory_tier_eq_dec : EqDecision MemoryTier.
Proof. solve_decision. Defined.
#[export] Instance memory_item_status_eq_dec : EqDecision MemoryItemStatus.
Proof. solve_decision. Defined.
#[export] Instance processing_state_eq_dec : EqDecision ProcessingState.
Proof. solve_decision. Defined.
#[export] Instance source_state_eq_dec : EqDecision SourceState.
Proof. solve_decision. Defined.

Record MemoryItem : Type := {
  item_memory_id : string;
  item_uid : string;
  item_account_generation : Z;
  item_revision : Z;
  content_hash : option string;
  ledger_commit_id : option string;
  tier : MemoryTier;
  item_status : MemoryItemStatus;
  processing_state : ProcessingState;
  source_state : SourceState;
  sensitivity_labels : list string;
  user_review : option bool;
  content : option string;
}.

Record MemoryControlState : Type := { control_account_generation : Z; control_source_generation : Z }.

Inductive MemoryOutboxEventType : Type := projection_sync | vector_sync | export_sync | delete_sync.

#[export] Instance outbox_event_type_eq_dec : EqDecision MemoryOutboxEventType.
Proof. solve_decision. Defined.

Record MemoryOutboxEvent : Type := {
  event_id : string;
  event_uid : string;
  event_type : MemoryOutboxEventType;
  event_commit_id : string;
  event_memory_id : option string;
  event_account_generation : Z;
  event_source_generation : Z;
  payload : doc;
}.

Record LeasedMemoryOutboxEvent : Type := {
  lease_path : string;
  document_id : string;
  raw_event : doc;
  lease_worker_id : string;
  lease_epoch : Z;
}.

Record _ProcessOutcome : Type := {
  settled_reason : string;
  side_effect_action : option string;
  stale : bool;
  barrier : bool;
}.

(** A [_ProcessingFailure] with its code, or any other exception. *)
Inductive Failure : Type := Coded (code : string) | Unexpected.

(** ** The canonical state of a memory *)

Record AuthState : Type := {
  account_generation : Z;
  state_item : option MemoryItem;
  projection_writes_blocked : bool;
}.

Definition ItemFence : Type :=
  string * Z * Z * option string * option string * MemoryTier * MemoryItemStatus * ProcessingState * SourceState *
  list string * option bool.

Definition item_fence (i : MemoryItem) : ItemFence :=
  (item_uid i, item_account_generation i, item_revision i, content_hash i, ledger_commit_id i, tier i, item_status i,
   processing_state i, source_state i, merge_sort String.le (sensitivity_labels i), user_review i).

Definition fence (s : AuthState) : Z * bool * option ItemFence :=
  (account_generation s, projection_writes_blocked s, item_fence <$> state_item s).

Definition RESTRICTED_SENSITIVITY_LABELS : list string :=
  ["credential"; "secret"; "financial"; "health"; "intimate"; "minor"; "minors"; "workplace_confidential";
   "identity_authentication"].

Definition blank (text : option string) : bool :=
  match text with Some s => String.eqb (py_strip s) "" | None => true end.

Definition _is_search_projection_indexable (i : MemoryItem) : bool :=
  bool_decide (tier i ∈ [short_term; long_term]) && bool_decide (item_status i = item_active)
  && bool_decide (processing_state i = processed) && bool_decide (source_state i = source_active)
  && negb (bool_decide (user_review i = Some false))
  && forallb (fun l => negb (bool_decide (l ∈ RESTRICTED_SENSITIVITY_LABELS))) (sensitivity_labels i)
  && negb (blank (content i)).

Definition _is_vector_indexable (i : MemoryItem) : bool := _is_search_projection_indexable i.

(** ** Timestamps and numbers of a raw event *)

Section Worker.
Context (parse_iso : string -> option Z).

Definition _coerce_timestamp (v : pyval) : option Z :=
  match v with PTime t => Some t | PStr s => parse_iso s | _ => None end.

Definition _safe_nonnegative_int (v : pyval) : Z :=
  match v with PInt z => if z <? 0 then 0 else z | _ => 0 end.

Definition _SUPPORTED_EVENT_TYPES : list string := ["projection_sync"; "vector_sync"].
Definition _DUE_STATUSES : list string := ["pending"; "retryable_failure"].

Definition one_of (names : list string) (v : pyval) : bool := existsb (is_str v) names.

(** ** Leasing *)

Definition _is_claimable (raw : doc) (now : Z) : bool :=
  if negb (one_of _SUPPORTED_EVENT_TYPES (py_get raw "event_type")) then false else
  if one_of _DUE_STATUSES (py_get raw "status") then
    match _coerce_timestamp (py_get raw "available_at") with Some t => t <=? now | None => false end
  else if is_str (py_get raw "status") "processing" then
    match _coerce_timestamp (py_get raw "lease_expires_at") with Some t => t <=? now | None => false end
  else false.

Definition claimed_fields (worker_id : string) (epoch now lease_expires_at : Z) : list (string * field_write) :=
  [put_str "status" "processing"; put_str "lease_owner" worker_id; put_int "lease_epoch" epoch; put_time "leased_at" now;
   put_time "lease_expires_at" lease_expires_at; put_time "updated_at" now].

(** The last component of a path. *)
Definition last_part (path : string) : string := default path (last (split_on "/" path)).

Definition _claim_event_transaction (outbox : gmap string doc) (path worker_id : string) (now lease_expires_at : Z)
    : gmap string doc * option LeasedMemoryOutboxEvent :=
  match outbox !! path with
  | None => (outbox, None)
  | Some raw =>
      if negb (_is_claimable raw now) then (outbox, None) else
      let epoch := _safe_nonnegative_int (py_get raw "lease_epoch") + 1 in
      (<[path := doc_update raw (claimed_fields worker_id epoch now lease_expires_at)]> outbox,
       Some {| lease_path := path; document_id := last_part path; raw_event := raw; lease_worker_id := worker_id;
               lease_epoch := epoch |})
  end.

(** The rows of a query: those that pass, in the order of a timestamp and then of
    their names, up to the limit. *)
Definition by_time_and_name (a b : Z * (string * doc)) : Prop :=
  (a.1 <? b.1) || ((a.1 =? b.1) && String.leb a.2.1 b.2.1) = true.

#[local] Instance by_time_and_name_dec : RelDecision by_time_and_name.
Proof. intros a b. unfold by_time_and_name. apply _. Defined.

Definition query (outbox : gmap string doc) (passes : doc -> bool) (field : string) (now : Z) (limit : nat)
    : list (string * doc) :=
  take limit (merge_sort by_time_and_name
    (omap (fun kd => if passes kd.2 then match as_time (py_get kd.2 field) with
                                         | Some t => if t <=? now then Some (t, kd) else None
                                         | None => None
                                         end
                     else None) (map_to_list outbox))).*2.

Definition due_events (outbox : gmap string doc) (now : Z) (limit : nat) : list (string * doc) :=
  concat ((fun s => query outbox (fun d => is_str (py_get d "status") s) "available_at" now limit) <$> _DUE_STATUSES).

Definition expired_leases (outbox : gmap string doc) (now : Z) (limit : nat) : list (string * doc) :=
  concat ((fun t => query outbox (fun d => is_str (py_get d "event_type") t && is_str (py_get d "status") "processing")
                      "lease_expires_at" now limit) <$> _SUPPORTED_EVENT_TYPES).

Definition _collect_supported_snapshots (rows : list (string * doc)) : gmap string doc :=
  foldl (fun output kd => if one_of _SUPPORTED_EVENT_TYPES (py_get kd.2 "event_type") then <[kd.1 := kd.2]> output else output) ∅ rows.

(** [datetime.max], in microseconds since the epoch. *)
Definition DATETIME_MAX : Z := 253402300800 * 1000000 - 1.

Definition _candidate_sort_key (path : string) (raw : doc) : Z * Z * string :=
  (default DATETIME_MAX (match _coerce_timestamp (py_get raw "available_at") with
                         | Some t => Some t
                         | None => _coerce_timestamp (py_get raw "lease_expires_at")
                         end),
   _safe_nonnegative_int (py_get raw "commit_sequence"), path).

Definition candidate_order (a b : string * doc) : Prop :=
  let '(ta, sa, pa) := _candidate_sort_key a.1 a.2 in
  let '(tb, sb, pb) := _candidate_sort_key b.1 b.2 in
  (ta <? tb) || ((ta =? tb) && ((sa <? sb) || ((sa =? sb) && String.leb pa pb))) = true.

#[local] Instance candidate_order_dec : RelDecision candidate_order.
Proof. intros a b. unfold candidate_order. repeat destruct (_candidate_sort_key _ _) as [[? ?] ?]. apply _. Defined.

Fixpoint claim_in_order (limit : nat) (outbox : gmap string doc) (paths : list string) (worker_id : string) (now lease_expires_at : Z)
    : gmap string doc * list LeasedMemoryOutboxEvent :=
  match paths, limit with
  | [], _ | _, O => (outbox, [])
  | path :: rest, S limit' =>
      let '(outbox', lease) := _claim_event_transaction outbox path worker_id now lease_expires_at in
      match lease with
      | None => claim_in_order limit outbox' rest worker_id now lease_expires_at
      | Some l =>
          let '(outbox'', more) := claim_in_order limit' outbox' rest worker_id now lease_expires_at in (outbox'', l :: more)
      end
  end.

Record CanonicalMemoryOutboxWorkerConfig : Type := {
  worker_id : string;
  limit : Z;
  scan_limit : Z;
  lease_seconds : Z;
  config_max_attempts : Z;
  config_base_backoff_seconds : Z;
  config_max_backoff_seconds : Z;
}.

Definition lease_canonical_memory_outbox_events (outbox : gmap string doc) (uid worker_id : string) (limit scan_limit lease_seconds now : Z)
    : result pyexc (gmap string doc * list LeasedMemoryOutboxEvent) :=
  if String.eqb (py_strip uid) "" then Raise (ValueError "uid is required") else
  if String.eqb (py_strip worker_id) "" then Raise (ValueError "worker_id is required") else
  if limit <? 1 then Raise (ValueError "limit must be positive") else
  if scan_limit <? limit then Raise (ValueError "scan_limit must be at least limit") else
  if lease_seconds <? 1 then Raise (ValueError "lease_seconds must be positive") else
  let scan := Z.to_nat scan_limit in
  let found := _collect_supported_snapshots (due_events outbox now scan ++ expired_leases outbox now scan) in
  let ordered := merge_sort candidate_order (map_to_list found) in
  Ok (claim_in_order (Z.to_nat limit) outbox ordered.*1 worker_id now (now + lease_seconds * 1000000)).

(** ** Reading the canonical state *)

(** The documents a read finds; [None] when the provider raises. *)
Record Documents : Type := {
  deletion_marker : option doc;
  control_document : option doc;
  item_document : option doc;
}.

Context (parse_control : doc -> option MemoryControlState) (parse_item : doc -> option MemoryItem)
        (parse_event : doc -> option MemoryOutboxEvent).

Definition _load_control_state (found : option doc) : result Failure MemoryControlState :=
  match found with
  | None => Raise (Coded "missing_control_state")
  | Some d => match parse_control d with Some c => Ok c | None => Raise (Coded "invalid_control_state") end
  end.

Definition _load_memory_item (found : option doc) : result Failure (option MemoryItem) :=
  match found with
  | None => Ok None
  | Some d => match parse_item d with Some i => Ok (Some i) | None => Raise (Coded "invalid_authoritative_item") end
  end.

(** [read_account_deletion_projection_fence(...).blocks_projection_writes] *)
Definition blocks_projection_writes (marker : option doc) : bool :=
  account_deletion_blocks_access (normalize_account_deletion_status marker).

Definition _load_authoritative_projection_state (uid : string) (read : option Documents) : result Failure AuthState :=
  match read with
  | None => Raise Unexpected
  | Some d =>
      let* control := _load_control_state (control_document d) in
      let* item := _load_memory_item (item_document d) in
      if match item with Some i => negb (String.eqb (item_uid i) uid) | None => false end
      then Raise (Coded "authoritative_item_uid_mismatch")
      else Ok {| account_generation := control_account_generation control; state_item := item;
                 projection_writes_blocked := blocks_projection_writes (deletion_marker d) |}
  end.

(** ** What an event asks for *)

Inductive Plan : Type :=
| Barrier (e : MemoryOutboxEvent)
| Project (e : MemoryOutboxEvent) (memory_id : string) (revision : Z) (hash : string).

(** The checks before anything is read. *)
Definition event_plan (requested_uid : string) (l : LeasedMemoryOutboxEvent) : result Failure Plan :=
  let fail code := Raise (Coded code) in
  match parse_event (raw_event l) with
  | None => fail "invalid_event"
  | Some e =>
      let action := py_get (payload e) "action" in
      if negb (String.eqb (event_uid e) requested_uid) then fail "event_uid_mismatch" else
      if negb (String.eqb (event_id e) (document_id l)) then fail "event_id_mismatch" else
      if is_str action "barrier" then
        match event_memory_id e with Some _ => fail "invalid_barrier_event" | None => Ok (Barrier e) end
      else if negb (one_of ["upsert"; "delete"] action) then fail "invalid_event_action" else
      match event_memory_id e with
      | None => fail "event_memory_id_mismatch"
      | Some m =>
          if negb (is_str (py_get (payload e) "memory_id") m) then fail "event_memory_id_mismatch" else
          match py_get (payload e) "item_revision", py_get (payload e) "content_hash" with
          | PInt r, PStr h => if (r <? 1) || String.eqb (py_strip h) "" then fail "invalid_event_fence" else Ok (Project e m r h)
          | _, _ => fail "invalid_event_fence"
          end
      end
  end.

Definition settled (reason : string) (is_stale is_barrier : bool) : _ProcessOutcome :=
  {| settled_reason := reason; side_effect_action := None; stale := is_stale; barrier := is_barrier |}.

Definition barrier_outcome (e : MemoryOutboxEvent) (c : MemoryControlState) : _ProcessOutcome :=
  if negb (event_account_generation e =? control_account_generation c) then settled "stale_account_generation" true true else
  if negb (event_source_generation e =? control_source_generation c) then settled "stale_source_generation" true true
  else settled "barrier" false true.

Definition _PROVIDER_STATE_RACE_ERROR : string := "provider_state_changed_during_delivery".

Definition _PROVIDER_REPAIR_REQUIRED_ERROR_CODES : list string :=
  [_PROVIDER_STATE_RACE_ERROR; "projection_upsert_failed"; "projection_delete_failed"; "vector_upsert_failed";
   "vector_delete_failed"].

Definition repair_authoritative_state (raw : doc) : bool :=
  is_str (py_get raw "status") "processing" || one_of _PROVIDER_REPAIR_REQUIRED_ERROR_CODES (py_get raw "last_error_code").

(** Why an event is settled without a projection, unless it has to repair. *)
Definition stale_reason (e : MemoryOutboxEvent) (revision : Z) (hash : string) (s : AuthState) : option string :=
  if negb (event_account_generation e =? account_generation s) then Some "stale_account_generation" else
  match state_item s with
  | None => None
  | Some i =>
      if negb (item_account_generation i =? event_account_generation e) then Some "stale_item_account_generation" else
      if negb (item_revision i =? revision) then Some "stale_item_revision" else
      if negb (bool_decide (content_hash i = Some hash)) then Some "stale_content_hash" else None
  end.

Definition event_fence_matches_item (e : MemoryOutboxEvent) (revision : Z) (hash : string) (s : AuthState) : bool :=
  match state_item s with
  | None => false
  | Some i => (item_account_generation i =? event_account_generation e) && (item_revision i =? revision)
              && bool_decide (content_hash i = Some hash)
  end.

(** ** Effects on the provider *)

Inductive Effect : Type :=
| ProjectionUpsert (i : MemoryItem) (generation : Z)
| ProjectionDelete (uid memory_id : string) (generation : Z)
| VectorUpsert (i : MemoryItem) (commit : string)
| VectorDelete (uid memory_id : string).

(** The item that may be shown. *)
Definition visible_item (s : AuthState) : option MemoryItem :=
  match state_item s with
  | Some i => if negb (projection_writes_blocked s) && (item_account_generation i =? account_generation s) then Some i else None
  | None => None
  end.

(** [a or b] on optional texts. *)
Definition commit_or (a : option string) (b : string) : string :=
  match a with Some s => if String.eqb s "" then b else s | None => b end.

Definition effect_of (e : MemoryOutboxEvent) (uid memory_id : string) (s : AuthState) (use_event_commit_id : bool) : result Failure Effect :=
  match event_type e with
  | projection_sync =>
      match visible_item s with
      | Some i => if _is_search_projection_indexable i then Ok (ProjectionUpsert i (account_generation s))
                  else Ok (ProjectionDelete uid memory_id (account_generation s))
      | None => Ok (ProjectionDelete uid memory_id (account_generation s))
      end
  | vector_sync =>
      match visible_item s with
      | Some i =>
          if _is_vector_indexable i
          then Ok (VectorUpsert i (if use_event_commit_id then event_commit_id e
                                   else commit_or (ledger_commit_id i) (event_commit_id e)))
          else Ok (VectorDelete uid memory_id)
      | None => Ok (VectorDelete uid memory_id)
      end
  | export_sync | delete_sync => Raise (Coded "unsupported_event_type")
  end.

Definition effect_action (x : Effect) : string :=
  match x with
  | ProjectionUpsert _ _ => "projection_upsert" | ProjectionDelete _ _ _ => "projection_delete"
  | VectorUpsert _ _ => "vector_upsert" | VectorDelete _ _ => "vector_delete"
  end.

Definition effect_failure (x : Effect) : Failure := Coded (effect_action x ++ "_failed").

Definition _PROVIDER_CONVERGENCE_ATTEMPTS : nat := 5.

(** The environment of one processing: the [n]-th read, and whether the provider
    answers [True] to the [n]-th effect. *)
Context (reads : nat -> option Documents) (accepts : nat -> Effect -> bool).

(** The loop from attempt [k] on; also the effects sent, the last first. *)
Fixpoint deliver_from (more k : nat) (e : MemoryOutboxEvent) (uid memory_id : string) (s : AuthState) (use_first : bool) (sent : list Effect)
    : result Failure _ProcessOutcome * list Effect :=
  match more with
  | O => (Raise (Coded _PROVIDER_STATE_RACE_ERROR), sent)
  | S more' =>
      match effect_of e uid memory_id s (use_first && (k =? 0)%nat) with
      | Raise f => (Raise f, sent)
      | Ok x =>
          if negb (accepts k x) then (Raise (effect_failure x), x :: sent) else
          match _load_authoritative_projection_state uid (reads (S k)) with
          | Raise (Coded _) => (Raise (Coded _PROVIDER_STATE_RACE_ERROR), x :: sent)
          | Raise Unexpected => (Raise Unexpected, x :: sent)
          | Ok observed =>
              if bool_decide (fence observed = fence s)
              then (Ok {| settled_reason := "projected"; side_effect_action := Some (effect_action x); stale := false;
                          barrier := false |}, x :: sent)
              else deliver_from more' (S k) e uid memory_id observed use_first (x :: sent)
          end
      end
  end.

Definition _deliver_authoritative_projection_state (e : MemoryOutboxEvent) (uid memory_id : string) (initial : AuthState) (use_first : bool)
    : result Failure _ProcessOutcome * list Effect :=
  deliver_from _PROVIDER_CONVERGENCE_ATTEMPTS 0 e uid memory_id initial use_first [].

Definition _process_leased_event (requested_uid : string) (l : LeasedMemoryOutboxEvent) : result Failure _ProcessOutcome * list Effect :=
  match event_plan requested_uid l with
  | Raise f => (Raise f, [])
  | Ok (Barrier e) =>
      (match reads 0%nat with
       | None => Raise Unexpected
       | Some d => let* c := _load_control_state (control_document d) in Ok (barrier_outcome e c)
       end, [])
  | Ok (Project e m revision hash) =>
      match _load_authoritative_projection_state requested_uid (reads 0%nat) with
      | Raise f => (Raise f, [])
      | Ok s =>
          match (if repair_authoritative_state (raw_event l) then None else stale_reason e revision hash s) with
          | Some reason => (Ok (settled reason true false), [])
          | None => _deliver_authoritative_projection_state e requested_uid m s (event_fence_matches_item e revision hash s)
          end
      end
  end.
End Worker.

(** ** Settling *)

Definition owns (raw : doc) (worker_id : string) (epoch : Z) : bool :=
  is_str (py_get raw "status") "processing" && is_str (py_get raw "lease_owner") worker_id
  && (_safe_nonnegative_int (py_get raw "lease_epoch") =? epoch).

Definition _ack_event_transaction (outbox : gmap string doc) (path worker_id : string) (epoch : Z) (patch : list (string * field_write))
    : gmap string doc * bool :=
  match outbox !! path with
  | Some raw => if owns raw worker_id epoch then (<[path := doc_update raw patch]> outbox, true) else (outbox, false)
  | None => (outbox, false)
  end.

Definition delivered_fields (o : _ProcessOutcome) (now : Z) : list (string * field_write) :=
  [put_str "status" "delivered"; put_time "delivered_at" now; put_time "updated_at" now;
   put_str "settled_reason" (settled_reason o);
   (match side_effect_action o with Some a => put_str "side_effect_action" a | None => put_none "side_effect_action" end);
   put_none "last_error"; put_none "last_error_code"; put_none "lease_owner"; put_none "lease_expires_at"].

Definition policy_of (c : CanonicalMemoryOutboxWorkerConfig) : QueuePolicy :=
  {| max_attempts := config_max_attempts c; base_backoff_seconds := inject_Z (config_base_backoff_seconds c);
     max_backoff_seconds := inject_Z (config_max_backoff_seconds c) |}.

Definition event_failed_fields (d : AttemptDecision) (error_code : string) (now : Z) : list (string * field_write) :=
  [put_str "status" (if terminal d then "dead_letter" else "retryable_failure"); put_int "attempt_count" (attempt_count d);
   put_none "last_error"; put_str "last_error_code" error_code; put_str "last_error_text" (decision_error_text d);
   put_time "failed_at" now; put_time "updated_at" now; put_none "lease_owner"; put_none "lease_expires_at"] ++
  (match available_at d with Some t => [put_time "available_at" t] | None => [] end) ++
  (if terminal d then [put_str "dead_letter_reason" (decision_reason d)] else []).

Definition failure_code (f : Failure) : string := match f with Coded c => c | Unexpected => "processing_failed" end.

(** The decision of [_settle_failure]. *)
Definition failure_decision (l : LeasedMemoryOutboxEvent) (c : CanonicalMemoryOutboxWorkerConfig) (code : string) (now : Z)
    : result pyexc AttemptDecision :=
  decide_attempt (_safe_nonnegative_int (py_get (raw_event l) "attempt_count") + 1) (retry code code) (policy_of c) now.

(** How one lease ends. *)
Inductive LeaseEnd : Type :=
| Delivered (o : _ProcessOutcome)
| Failed (code : string) (dead : bool)
| AckFailed (stage : string)
| Escaped.

(** [process_one] on the outbox; [reaches] tells whether the settling transaction
    reaches the provider. *)
Definition settle_one (c : CanonicalMemoryOutboxWorkerConfig) (now : Z) (reaches : bool) (outbox : gmap string doc)
    (l : LeasedMemoryOutboxEvent) (processed : result Failure _ProcessOutcome) : gmap string doc * LeaseEnd :=
  let ack patch := if reaches then _ack_event_transaction outbox (lease_path l) (lease_worker_id l) (lease_epoch l) patch
                   else (outbox, false) in
  match processed with
  | Ok o => let '(outbox', ok) := ack (delivered_fields o now) in (outbox', if (ok : bool) then Delivered o else AckFailed "delivered_ack")
  | Raise f =>
      match failure_decision l c (failure_code f) now with
      | Raise _ => (outbox, Escaped)
      | Ok d =>
          let '(outbox', ok) := ack (event_failed_fields d (failure_code f) now) in
          (outbox', if (ok : bool) then Failed (failure_code f) (terminal d) else AckFailed "failure_ack")
      end
  end.

(** ** A tick *)

Record Counts : Type := {
  delivered_count : nat;
  stale_settled_count : nat;
  barrier_count : nat;
  retryable_failure_count : nat;
  dead_letter_count : nat;
  ack_failed_count : nat;
}.

(** [actions] holds the id of an event with what was done, [errors] a stage, the
    id of its event and a code. *)
Record Summary : Type := {
  leased_count : nat;
  oldest_age : option Q;
  counts : Counts;
  actions : list (string * string);
  errors : list (string * option string * string);
}.

Definition _empty_summary : Summary :=
  {| leased_count := 0; oldest_age := None; actions := []; errors := [];
     counts := {| delivered_count := 0; stale_settled_count := 0; barrier_count := 0; retryable_failure_count := 0;
                  dead_letter_count := 0; ack_failed_count := 0 |} |}.

Definition count_end (c : Counts) (x : LeaseEnd) : Counts :=
  match x with
  | Delivered o =>
      {| delivered_count := S (delivered_count c); stale_settled_count := stale_settled_count c + Nat.b2n (stale o);
         barrier_count := barrier_count c + Nat.b2n (barrier o); retryable_failure_count := retryable_failure_count c;
         dead_letter_count := dead_letter_count c; ack_failed_count := ack_failed_count c |}
  | Failed _ dead =>
      {| delivered_count := delivered_count c; stale_settled_count := stale_settled_count c; barrier_count := barrier_count c;
         retryable_failure_count := retryable_failure_count c + Nat.b2n (negb dead);
         dead_letter_count := dead_letter_count c + Nat.b2n dead; ack_failed_count := ack_failed_count c |}
  | AckFailed _ =>
      {| delivered_count := delivered_count c; stale_settled_count := stale_settled_count c; barrier_count := barrier_count c;
         retryable_failure_count := retryable_failure_count c; dead_letter_count := dead_letter_count c;
         ack_failed_count := S (ack_failed_count c) |}
  | Escaped => c
  end.

Definition record_end (s : Summary) (l : LeasedMemoryOutboxEvent) (x : LeaseEnd) : Summary :=
  let with_lists acts errs :=
    {| leased_count := leased_count s; oldest_age := oldest_age s; counts := count_end (counts s) x;
       actions := actions s ++ acts; errors := errors s ++ errs |} in
  match x with
  | Delivered o => with_lists [(document_id l, text_or (side_effect_action o) (settled_reason o))] []
  | Failed code _ => with_lists [] [("process", Some (document_id l), code)]
  | AckFailed stage => with_lists [] [(stage, Some (document_id l), "lease_ownership_lost")]
  | Escaped => s
  end.

Definition _validate_tick_inputs (uid : string) (c : CanonicalMemoryOutboxWorkerConfig) : result pyexc unit :=
  let bad what := Raise (ValueError what) in
  if String.eqb (py_strip uid) "" then bad "uid is required" else
  if String.eqb (py_strip (worker_id c)) "" then bad "config.worker_id is required" else
  if limit c <? 1 then bad "config.limit must be positive" else
  if scan_limit c <? limit c then bad "config.scan_limit must be at least config.limit" else
  if lease_seconds c <? 1 then bad "config.lease_seconds must be positive" else
  if config_max_attempts c <? 1 then bad "config.max_attempts must be positive" else
  if config_base_backoff_seconds c <? 1 then bad "config.base_backoff_seconds must be positive" else
  if config_max_backoff_seconds c <? config_base_backoff_seconds c then bad "config.max_backoff_seconds must be at least base_backoff_seconds"
  else Ok tt.

(** The age of the oldest lease whose event says when it was made. *)
Definition oldest_lease_age (leases : list LeasedMemoryOutboxEvent) (now : Z) : option Q :=
  oldest_ready_age_seconds (Some <$> omap (fun l => as_time (py_get (raw_event l) "created_at")) leases) now.

(** The leases one after the other, [process] being what each one's processing
    gives and [reaches] whether its settlement arrives. *)
Fixpoint settle_all (c : CanonicalMemoryOutboxWorkerConfig) (now : Z) (reaches : nat -> bool) (process : LeasedMemoryOutboxEvent -> result Failure _ProcessOutcome)
    (n : nat) (outbox : gmap string doc) (s : Summary) (leases : list LeasedMemoryOutboxEvent) : gmap string doc * Summary :=
  match leases with
  | [] => (outbox, s)
  | l :: rest =>
      let '(outbox', x) := settle_one c now (reaches n) outbox l (process l) in
      settle_all c now reaches process (S n) outbox' (record_end s l x) rest
  end.

Definition run_canonical_memory_outbox_worker_tick (parse_iso : string -> option Z) (c : CanonicalMemoryOutboxWorkerConfig)
    (uid : string) (now : Z) (reaches : nat -> bool) (process : LeasedMemoryOutboxEvent -> result Failure _ProcessOutcome)
    (outbox : gmap string doc) : result pyexc (gmap string doc * Summary) :=
  let* _ := _validate_tick_inputs uid c in
  match lease_canonical_memory_outbox_events parse_iso outbox uid (worker_id c) (limit c) (scan_limit c) (lease_seconds c) now with
  | Raise _ =>
      Ok (outbox, {| leased_count := 0; oldest_age := None; counts := counts _empty_summary; actions := [];
                     errors := [("lease", None, "lease_query_failed")] |})
  | Ok (outbox', leases) =>
      Ok (settle_all c now reaches process 0 outbox'
            {| leased_count := length leases; oldest_age := oldest_lease_age leases now; counts := counts _empty_summary;
               actions := []; errors := [] |} leases)
  end.
