(* ===== verification/OutboxOps.v ===== *)
(** The outbox worker, part by part: its loop as phases, what an acknowledged lease
    is, and that a lease settles its event at most once. *)
From stdpp Require Import sorting.
From S2P Require Import QueuePolicy.
From S2P Require Export OutboxWorker.

(** ** The loop as phases *)

(** Where a worker stands with the event it leased. *)
Inductive Phase : Type :=
| Claimed
| Writing (e : MemoryOutboxEvent) (m : string) (s : AuthState) (use_first : bool) (k : nat)
| Verifying (e : MemoryOutboxEvent) (m : string) (s : AuthState) (use_first : bool) (k : nat) (x : Effect)
| Finishing (r : result Failure _ProcessOutcome).

Section Phases.
Context (parse_control : doc -> option MemoryControlState) (parse_item : doc -> option MemoryItem)
        (parse_event : doc -> option MemoryOutboxEvent) (uid : string).

Local Abbreviation load := (_load_authoritative_projection_state parse_control parse_item uid).

Definition start_phase (l : LeasedMemoryOutboxEvent) (loaded : result Failure AuthState) (control : result Failure MemoryControlState) : Phase :=
  match event_plan parse_event uid l with
  | Raise f => Finishing (Raise f)
  | Ok (Barrier e) => Finishing (let* c := control in Ok (barrier_outcome e c))
  | Ok (Project e m revision hash) =>
      match loaded with
      | Raise f => Finishing (Raise f)
      | Ok s =>
          match (if repair_authoritative_state (raw_event l) then None else stale_reason e revision hash s) with
          | Some reason => Finishing (Ok (settled reason true false))
          | None => Writing e m s (event_fence_matches_item e revision hash s) 0
          end
      end
  end.

Definition write_phase (e : MemoryOutboxEvent) (m : string) (s : AuthState) (use_first : bool) (k : nat) (accepted : bool) : Phase :=
  match effect_of e uid m s (use_first && (k =? 0)%nat) with
  | Raise f => Finishing (Raise f)
  | Ok x => if accepted then Verifying e m s use_first k x else Finishing (Raise (effect_failure x))
  end.

Definition verify_phase (e : MemoryOutboxEvent) (m : string) (s : AuthState) (use_first : bool) (k : nat) (x : Effect)
    (loaded : result Failure AuthState) : Phase :=
  match loaded with
  | Raise (Coded _) => Finishing (Raise (Coded _PROVIDER_STATE_RACE_ERROR))
  | Raise Unexpected => Finishing (Raise Unexpected)
  | Ok observed =>
      if bool_decide (fence observed = fence s)
      then Finishing (Ok {| settled_reason := "projected"; side_effect_action := Some (effect_action x); stale := false; barrier := false |})
      else if (S k <? _PROVIDER_CONVERGENCE_ATTEMPTS)%nat then Writing e m observed use_first (S k)
      else Finishing (Raise (Coded _PROVIDER_STATE_RACE_ERROR))
  end.

Context (reads : nat -> option Documents) (accepts : nat -> Effect -> bool).

(** One step of a worker that is alone. *)
Definition next_phase (l : LeasedMemoryOutboxEvent) (p : Phase) : Phase :=
  match p with
  | Claimed =>
      start_phase l (load (reads 0%nat))
        (match reads 0%nat with None => Raise Unexpected | Some d => _load_control_state parse_control (control_document d) end)
  | Writing e m s use_first k =>
      write_phase e m s use_first k
        (match effect_of e uid m s (use_first && (k =? 0)%nat) with Ok x => accepts k x | Raise _ => false end)
  | Verifying e m s use_first k x => verify_phase e m s use_first k x (load (reads (S k)))
  | Finishing r => Finishing r
  end.

Lemma finished_stays l r n : Nat.iter n (next_phase l) (Finishing r) = Finishing r.
Proof. induction n as [|n IH]; [done|]. by rewrite Nat.iter_succ, IH. Qed.

Lemma iter_next l n p : Nat.iter (S n) (next_phase l) p = Nat.iter n (next_phase l) (next_phase l p).
Proof. apply Nat.iter_succ_r. Qed.

Lemma deliver_phases l more k e m s use_first sent n :
  (more + k = _PROVIDER_CONVERGENCE_ATTEMPTS)%nat -> (1 <= more)%nat -> (2 * more <= n)%nat ->
  Nat.iter n (next_phase l) (Writing e m s use_first k) =
    Finishing (deliver_from parse_control parse_item reads accepts more k e uid m s use_first sent).1.
Proof.
  revert k s sent n. induction more as [|more IH]; intros k s sent n Hk Hm Hn; [lia|].
  destruct n as [|[|n]]; [lia..|]. rewrite 2!iter_next. cbn [deliver_from]. cbn [next_phase]. unfold write_phase.
  destruct (effect_of e uid m s (use_first && (k =? 0)%nat)) as [x|f]; cbn [next_phase]; [|apply finished_stays].
  destruct (accepts k x); cbn [negb next_phase]; [|apply finished_stays]. unfold verify_phase.
  destruct (load (reads (S k))) as [o|[c|]]; [|apply finished_stays..].
  case_bool_decide; [apply finished_stays|]. destruct (Nat.ltb_spec (S k) _PROVIDER_CONVERGENCE_ATTEMPTS) as [Hlt|Hge].
  - apply IH; lia.
  - assert (more = O) as -> by lia. apply finished_stays.
Qed.

(** The processing of an event is its phases run to the end: eleven suffice. *)
Lemma processing_is_phases l :
  Nat.iter 11 (next_phase l) Claimed = Finishing (_process_leased_event parse_control parse_item parse_event reads accepts uid l).1.
Proof.
  rewrite iter_next. cbn [next_phase]. unfold start_phase, _process_leased_event.
  destruct (event_plan parse_event uid l) as [[e|e m r h]|f]; [rewrite finished_stays; by destruct (reads 0%nat)| |by rewrite finished_stays].
  destruct (load (reads 0%nat)) as [s|f]; [|by rewrite finished_stays].
  destruct (if repair_authoritative_state _ then _ else _); [by rewrite finished_stays|].
  unfold _deliver_authoritative_projection_state. apply (deliver_phases l 5 0 e m s _ [] 10); cbv; lia.
Qed.
End Phases.

(** ** Leases *)

Lemma NoDup_fmap_inv {A B} (f : A -> B) (l : list A) x y : NoDup (f <$> l) -> x ∈ l -> y ∈ l -> f x = f y -> x = y.
Proof.
  induction l as [|a l IH]; [by intros _ ?%not_elem_of_nil|]. rewrite fmap_cons, NoDup_cons.
  intros [Ha Hd] [->|Hx]%elem_of_cons [->|Hy]%elem_of_cons Heq; [done| | |by apply IH].
  - destruct Ha. rewrite Heq. by apply list_elem_of_fmap_2.
  - destruct Ha. rewrite <- Heq. by apply list_elem_of_fmap_2.
Qed.

Lemma safe_int_nonneg v : 0 <= _safe_nonnegative_int v.
Proof. destruct v; cbn; try lia. destruct (Z.ltb_spec z 0); lia. Qed.

Lemma safe_int z : 0 <= z -> _safe_nonnegative_int (PInt z) = z.
Proof. intros Hz. cbn. destruct (Z.ltb_spec z 0); lia. Qed.

Definition row_epoch (raw : doc) : Z := _safe_nonnegative_int (py_get raw "lease_epoch").

Definition row_status_is (s : string) (raw : doc) : bool := is_str (py_get raw "status") s.

Lemma owns_spec raw w e :
  owns raw w e = true <->
  py_get raw "status" = PStr "processing" /\ py_get raw "lease_owner" = PStr w /\ row_epoch raw = e.
Proof. unfold owns, row_epoch. rewrite !andb_true_iff, !is_str_spec, Z.eqb_eq. tauto. Qed.

(** The row of a granted lease. *)
Lemma claimed_row raw w e now exp :
  0 <= e ->
  let row := doc_update raw (claimed_fields w e now exp) in
  py_get row "status" = PStr "processing" /\ py_get row "lease_owner" = PStr w /\ row_epoch row = e.
Proof. intros He row. subst row. unfold row_epoch. split_and!; [by doc_simpl..|]. doc_simpl. by apply safe_int. Qed.

(** A settlement leaves the epoch and takes the row out of processing. *)
Definition settling (patch : list (string * field_write)) : Prop :=
  forall raw, row_epoch (doc_update raw patch) = row_epoch raw /\ row_status_is "processing" (doc_update raw patch) = false.

Lemma delivered_settles o now : settling (delivered_fields o now).
Proof.
  intros raw. unfold row_epoch, row_status_is, delivered_fields. destruct (side_effect_action o); by split; doc_simpl.
Qed.

Lemma failed_settles d code now : settling (event_failed_fields d code now).
Proof.
  intros raw. unfold row_epoch, row_status_is, event_failed_fields.
  destruct (available_at d), (terminal d); cbn [app]; by split; doc_simpl.
Qed.

(** Failing always has a decision: the attempt is counted from one, and a retry is
    not an acknowledgement. *)
Lemma failure_decided l c code now : exists d, failure_decision l c code now = Ok d /\ (terminal d = true <->
  config_max_attempts c <= _safe_nonnegative_int (py_get (raw_event l) "attempt_count") + 1).
Proof.
  unfold failure_decision, decide_attempt. pose proof (safe_int_nonneg (py_get (raw_event l) "attempt_count")) as Hn.
  cbn [kind retry]. rewrite bool_decide_eq_false_2 by done.
  destruct (Z.ltb_spec (_safe_nonnegative_int (py_get (raw_event l) "attempt_count") + 1) 1); [lia|].
  rewrite bool_decide_eq_false_2 by done. cbn [orb max_attempts policy_of].
  destruct (Z.leb_spec (config_max_attempts c) (_safe_nonnegative_int (py_get (raw_event l) "attempt_count") + 1));
    eexists; (split; [done|]); cbn [terminal]; split; intros; try done; lia.
Qed.

(** Whether a settlement took place. *)
Definition took_place (x : LeaseEnd) : bool := match x with Delivered _ | Failed _ _ => true | AckFailed _ | Escaped => false end.

(** What a settlement does: the row of the lease is settled if the lease still owns it
    and the transaction arrives; otherwise nothing happens. *)
Lemma settle_one_spec c now reaches outbox l r :
  exists patch, settling patch /\
    settle_one c now reaches outbox l r =
      match outbox !! lease_path l with
      | Some raw =>
          if (reaches && owns raw (lease_worker_id l) (lease_epoch l))%bool
          then (<[lease_path l := doc_update raw patch]> outbox, (settle_one c now reaches outbox l r).2)
          else (outbox, (settle_one c now reaches outbox l r).2)
      | None => (outbox, (settle_one c now reaches outbox l r).2)
      end /\
    took_place (settle_one c now reaches outbox l r).2 =
      match outbox !! lease_path l with
      | Some raw => reaches && owns raw (lease_worker_id l) (lease_epoch l)
      | None => false
      end%bool.
Proof.
  unfold settle_one, _ack_event_transaction. destruct r as [o|f].
  - exists (delivered_fields o now). split; [apply delivered_settles|].
    destruct reaches, (outbox !! lease_path l) as [raw|]; cbn [andb]; try done. by destruct (owns _ _ _).
  - destruct (failure_decided l c (failure_code f) now) as (d & -> & _).
    exists (event_failed_fields d (failure_code f) now). split; [apply failed_settles|].
    destruct reaches, (outbox !! lease_path l) as [raw|]; cbn [andb]; try done. by destruct (owns _ _ _).
Qed.

(** Rows are enqueued unprocessed, claimed, and settled by the workers that claimed
    them; [granted] and [settled_leases] are the leases so far, the last first. *)
Record LeaseState : Type := {
  rows : gmap string doc;
  granted : list LeasedMemoryOutboxEvent;
  settled_leases : list LeasedMemoryOutboxEvent;
}.

Inductive lease_step (parse_iso : string -> option Z) (s : LeaseState) : LeaseState -> Prop :=
| enqueue_row path raw :
    rows s !! path = None -> row_status_is "processing" raw = false ->
    lease_step parse_iso s {| rows := <[path := raw]> (rows s); granted := granted s; settled_leases := settled_leases s |}
| claim_row path w now exp rows' l :
    _claim_event_transaction parse_iso (rows s) path w now exp = (rows', Some l) ->
    lease_step parse_iso s {| rows := rows'; granted := l :: granted s; settled_leases := settled_leases s |}
| settle_row l c now reaches r rows' x :
    l ∈ granted s -> settle_one c now reaches (rows s) l r = (rows', x) ->
    lease_step parse_iso s {| rows := rows'; granted := granted s;
                              settled_leases := if took_place x then l :: settled_leases s else settled_leases s |}.

Definition lease_key (l : LeasedMemoryOutboxEvent) : string * Z := (lease_path l, lease_epoch l).

(** Epochs only grow, the owner of a row is a lease of its epoch, and a settled lease
    owns nothing. *)
Record leases_sound (s : LeaseState) : Prop := {
  grants_distinct : NoDup (lease_key <$> granted s);
  grants_behind l : l ∈ granted s -> exists raw, rows s !! lease_path l = Some raw /\ lease_epoch l <= row_epoch raw;
  processing_granted path raw : rows s !! path = Some raw -> row_status_is "processing" raw = true ->
    exists l, l ∈ granted s /\ lease_path l = path /\ py_get raw "lease_owner" = PStr (lease_worker_id l) /\ lease_epoch l = row_epoch raw;
  settled_granted : settled_leases s ⊆ granted s;
  settlements_distinct : NoDup (lease_key <$> settled_leases s);
  settled_left l raw : l ∈ settled_leases s -> rows s !! lease_path l = Some raw -> lease_epoch l = row_epoch raw ->
    row_status_is "processing" raw = false;
  newest_live l raw : l ∈ granted s -> rows s !! lease_path l = Some raw ->
    exists l', l' ∈ granted s /\ lease_path l' = lease_path l /\ lease_epoch l' = row_epoch raw /\
      (l' ∈ settled_leases s \/ owns raw (lease_worker_id l') (lease_epoch l') = true);
}.

Section Leases.
Context (parse_iso : string -> option Z).

Lemma claim_spec outbox path w now exp outbox' l :
  _claim_event_transaction parse_iso outbox path w now exp = (outbox', Some l) ->
  exists raw, outbox !! path = Some raw /\ _is_claimable parse_iso raw now = true /\
    outbox' = <[path := doc_update raw (claimed_fields w (row_epoch raw + 1) now exp)]> outbox /\
    l = {| lease_path := path; document_id := last_part path; raw_event := raw; lease_worker_id := w; lease_epoch := row_epoch raw + 1 |}.
Proof.
  unfold _claim_event_transaction. destruct (outbox !! path) as [raw|]; [|done].
  destruct (_is_claimable parse_iso raw now) eqn:Hc; [|done]. cbn [negb]. intros [= <- <-]. by exists raw.
Qed.

Lemma elem_of_key l (ls : list LeasedMemoryOutboxEvent) : lease_key l ∈ lease_key <$> ls -> exists l', l' ∈ ls /\ lease_path l' = lease_path l /\ lease_epoch l' = lease_epoch l.
Proof. intros (l' & [= Hp He] & Hin)%list_elem_of_fmap. by exists l'. Qed.

Lemma claim_sound s path w now exp rows' l :
  leases_sound s -> _claim_event_transaction parse_iso (rows s) path w now exp = (rows', Some l) ->
  leases_sound {| rows := rows'; granted := l :: granted s; settled_leases := settled_leases s |}.
Proof.
  intros [Hd Hb Hp Hg Hs Hl Hn] (raw & Hraw & _ & -> & ->)%claim_spec.
  destruct (claimed_row raw w (row_epoch raw + 1) now exp) as (Hst & Hw & He); [pose proof (safe_int_nonneg (py_get raw "lease_epoch")); unfold row_epoch; lia|].
  set (row := doc_update raw _) in *.
  split; cbn [rows granted settled_leases].
  - rewrite fmap_cons. apply NoDup_cons. split; [|done]. intros (l' & Hin & Hp' & He')%elem_of_key. cbn in Hp', He'.
    destruct (Hb l' Hin) as (raw' & Hr' & Hle). rewrite Hp', Hraw in Hr'. injection Hr' as <-. lia.
  - intros l' [->|Hin]%elem_of_cons; cbn [lease_path lease_epoch].
    + exists row. rewrite lookup_insert_eq. split; [done|lia].
    + destruct (Hb l' Hin) as (raw' & Hr' & Hle). destruct (decide (lease_path l' = path)) as [Heq|Hne].
      * exists row. rewrite Heq, lookup_insert_eq. split; [done|]. rewrite Heq, Hraw in Hr'. injection Hr' as <-. lia.
      * exists raw'. by rewrite lookup_insert_ne by done.
  - intros p raw' [[<- <-]|[Hne Hr']]%lookup_insert_Some Hpr.
    + eexists. split; [by left|]. cbn [lease_path lease_worker_id lease_epoch]. by rewrite He.
    + destruct (Hp p raw' Hr' Hpr) as (l' & ? & ?). exists l'. split; [by right|done].
  - intros l' ?. right. by apply Hg.
  - done.
  - intros l' raw' Hin [[Heq <-]|[Hne Hr']]%lookup_insert_Some Hep.
    + destruct (Hb l' (Hg _ Hin)) as (raw' & Hr' & Hle). rewrite <- Heq, Hraw in Hr'. injection Hr' as <-. lia.
    + by eapply Hl.
  - intros l' raw' Hin [[Heq <-]|[Hne Hr']]%lookup_insert_Some.
    + eexists. split; [by left|]. cbn [lease_path lease_worker_id lease_epoch]. split_and!; [done..|right].
      by apply owns_spec.
    + apply elem_of_cons in Hin as [->|Hin]; [done|].
      destruct (Hn l' raw' Hin Hr') as (n & ? & ? & ? & ?). exists n. split; [by right|done].
Qed.

Lemma settle_sound s l c now reaches r :
  leases_sound s -> l ∈ granted s ->
  leases_sound {| rows := (settle_one c now reaches (rows s) l r).1; granted := granted s;
    settled_leases := if took_place (settle_one c now reaches (rows s) l r).2 then l :: settled_leases s else settled_leases s |}.
Proof.
  intros [Hd Hb Hp Hg Hs Hl Hn] Hin. destruct (settle_one_spec c now reaches (rows s) l r) as (patch & Hpatch & Heq & Htook).
  rewrite Htook. rewrite Heq. clear Heq Htook. destruct (rows s !! lease_path l) as [raw|] eqn:Hraw; [|by split].
  destruct (reaches && _) eqn:Hown; [|by split]. apply andb_true_iff in Hown as [_ (Hst & Hw & He)%owns_spec].
  destruct (Hpatch raw) as [He' Hst']. split; cbn [rows granted settled_leases fst]; [done|..].
  - intros l' Hin'. destruct (Hb l' Hin') as (raw' & Hr' & Hle). destruct (decide (lease_path l' = lease_path l)) as [Hq|Hne].
    + exists (doc_update raw patch). rewrite Hq, lookup_insert_eq. split; [done|]. rewrite Hq, Hraw in Hr'. injection Hr' as <-. lia.
    + exists raw'. by rewrite lookup_insert_ne by done.
  - intros p raw' [[<- <-]|[Hne Hr']]%lookup_insert_Some Hpr; [congruence|by eapply Hp].
  - intros l' [->|?]%elem_of_cons; [done|by apply Hg].
  - rewrite fmap_cons. apply NoDup_cons. split; [|done]. intros (l' & Hin' & Hp' & He2)%elem_of_key.
    assert (row_status_is "processing" raw = false) as Hf by (eapply Hl; [done|by rewrite Hp'|congruence]).
    unfold row_status_is in Hf. by rewrite Hst in Hf.
  - intros l' raw' [->|Hin']%elem_of_cons [[Hq <-]|[Hne Hr']]%lookup_insert_Some Hep; try done.
    by eapply Hl.
  - intros l' raw' Hin' [[Hq <-]|[Hne Hr']]%lookup_insert_Some.
    + exists l. rewrite He'. split_and!; [done..|]. left. by left.
    + destruct (Hn l' raw' Hin' Hr') as (n & ? & ? & ? & [?|?]); exists n; (split_and!; [done..|]); [left; by right|by right].
Qed.

Lemma leases_stay_sound s s' : lease_step parse_iso s s' -> leases_sound s -> leases_sound s'.
Proof.
  intros [path raw Hnew Hst|path w now exp rows' l Hc|l c now reaches r rows' x Hin Hx] Hs.
  - destruct Hs as [Hd Hb Hp Hg Hsd Hl Hn]. split; cbn [rows granted settled_leases]; try done.
    + intros l Hin. destruct (Hb l Hin) as (raw' & Hr & ?). exists raw'. split; [|done]. rewrite lookup_insert_ne; [done|congruence].
    + intros p raw' [[<- <-]|[Hne Hr']]%lookup_insert_Some Hpr; [congruence|by eapply Hp].
    + intros l raw' Hin [[_ <-]|[Hne Hr']]%lookup_insert_Some Hep; [done|by eapply Hl].
    + intros l raw' Hin [[-> <-]|[Hne Hr']]%lookup_insert_Some; [|by apply Hn].
      destruct (Hb l Hin) as (raw' & Hr & ?). congruence.
  - by eapply claim_sound.
  - pose proof (settle_sound s l c now reaches r Hs Hin) as H. by rewrite Hx in H.
Qed.

Definition no_leases : LeaseState := {| rows := ∅; granted := []; settled_leases := [] |}.

Lemma reached_sound s : rtc (lease_step parse_iso) no_leases s -> leases_sound s.
Proof.
  intros H. remember no_leases as s0 eqn:E. assert (leases_sound s0) as H0.
  { subst. split; cbn; intros; try done; try constructor; set_solver. }
  clear E. induction H as [|? ? ? Hstep _ IH]; [done|]. apply IH. by eapply leases_stay_sound.
Qed.

(** An event that is over. *)
Definition over (raw : doc) : Prop := row_status_is "delivered" raw = true \/ row_status_is "dead_letter" raw = true.

Lemma over_not_claimable raw now : over raw -> _is_claimable parse_iso raw now = false.
Proof.
  unfold over, row_status_is. rewrite !is_str_spec. unfold _is_claimable. destruct (one_of _ _); [|done].
  by intros [-> | ->].
Qed.

Lemma over_not_processing raw : over raw -> row_status_is "processing" raw = false.
Proof. unfold over, row_status_is. rewrite !is_str_spec. by intros [-> | ->]. Qed.

Lemma over_stays s s' path raw : rtc (lease_step parse_iso) s s' -> rows s !! path = Some raw -> over raw -> rows s' !! path = Some raw.
Proof.
  intros H. induction H as [|s s1 s2 Hstep _ IH]; [done|]. intros Hraw Hover. apply IH; [|done]. clear IH.
  destruct Hstep as [p new Hnew _|p w now exp rows' l (raw' & Hraw' & Hc & -> & _)%claim_spec|l c now reaches r rows' x Hin Hx]; cbn [rows].
  - rewrite lookup_insert_ne; [done|congruence].
  - rewrite lookup_insert_ne; [done|]. intros ->. rewrite Hraw in Hraw'. injection Hraw' as <-. by rewrite over_not_claimable in Hc.
  - destruct (settle_one_spec c now reaches (rows s) l r) as (patch & _ & Heq & _). rewrite Hx in Heq. cbn [snd] in Heq.
    destruct (rows s !! lease_path l) as [raw'|] eqn:Hr; [|by injection Heq as ->].
    destruct (reaches && _) eqn:Hown; injection Heq as ->; [|done]. rewrite lookup_insert_ne; [done|]. intros Heq.
    rewrite Heq, Hraw in Hr. injection Hr as <-. apply andb_true_iff in Hown as [_ (Hst & _)%owns_spec].
    pose proof (over_not_processing _ Hover) as Hp. unfold row_status_is in Hp. by rewrite Hst in Hp.
Qed.

(** C11: an event is settled only by its newest lease, and only once.  Whatever was
    enqueued, claimed and settled before, no two leases of an event have one epoch and no
    lease is settled twice; the settlement of a lease takes place exactly when its transaction
    arrives, no later lease of the event was granted and this one was not settled; a
    settlement that does not take place changes nothing; and an event that is delivered
    or dead-lettered keeps its document for good. *)
Theorem settlement_is_fenced s l c now reaches r :
  rtc (lease_step parse_iso) no_leases s -> l ∈ granted s ->
  let '(rows', x) := settle_one c now reaches (rows s) l r in
  NoDup (lease_key <$> granted s) /\ NoDup (lease_key <$> settled_leases s) /\
  (took_place x = true <->
     reaches = true /\ (forall l', l' ∈ granted s -> lease_path l' = lease_path l -> lease_epoch l' <= lease_epoch l) /\
     l ∉ settled_leases s) /\
  (took_place x = false -> rows' = rows s) /\
  forall path raw s', rows s !! path = Some raw -> over raw -> rtc (lease_step parse_iso) s s' -> rows s' !! path = Some raw.
Proof.
  intros Hs%reached_sound Hin. destruct Hs as [Hd Hb Hp Hg Hsd Hl Hn].
  destruct (settle_one_spec c now reaches (rows s) l r) as (patch & _ & Heq & Htook).
  destruct (settle_one c now reaches (rows s) l r) as [rows' x]. cbn [snd] in *.
  destruct (Hb l Hin) as (raw & Hraw & Hle). rewrite Hraw in Heq, Htook.
  split_and!; [done|done|..].
  - rewrite Htook, andb_true_iff. split.
    + intros [-> (Hst & Hw & He)%owns_spec]. split_and!; [done|..].
      * intros l' Hin' Hp'. destruct (Hb l' Hin') as (raw' & Hr' & ?). rewrite Hp', Hraw in Hr'. injection Hr' as <-. lia.
      * intros Hset. assert (row_status_is "processing" raw = false) as Hf by (by eapply Hl).
        unfold row_status_is in Hf. by rewrite Hst in Hf.
    + intros (-> & Hnew & Hnot). split; [done|]. destruct (Hn l raw Hin Hraw) as (n & Hnin & Hnp & Hne & Hlive).
      specialize (Hnew n Hnin Hnp). assert (n = l) as ->; [|by destruct Hlive].
      apply (NoDup_fmap_inv lease_key (granted s) n l Hd); [done|done|]. unfold lease_key. rewrite Hnp. f_equal. lia.
  - intros Hx. rewrite Htook in Hx. rewrite Hx in Heq. by injection Heq.
  - intros path raw' s' Hr' Ho Hstar. by eapply over_stays.
Qed.
End Leases.

(** ** A tick *)

Lemma claim_in_order_length parse_iso limit ob paths w now exp : (length (claim_in_order parse_iso limit ob paths w now exp).2 <= limit)%nat.
Proof.
  revert limit ob. induction paths as [|p paths IH]; intros [|limit] ob; cbn [claim_in_order]; try (cbn; lia).
  destruct (_claim_event_transaction _ _ _ _ _ _) as [ob' [l|]]; [|apply (IH (S limit))].
  specialize (IH limit ob'). destruct (claim_in_order _ _ _ _ _ _ _) as [ob'' more]. cbn in *. lia.
Qed.

(** Rows that may not be claimed are left alone. *)
Lemma claim_in_order_keeps parse_iso limit ob paths w now exp path raw :
  ob !! path = Some raw -> _is_claimable parse_iso raw now = false -> 
  (claim_in_order parse_iso limit ob paths w now exp).1 !! path = Some raw /\
  forall l, l ∈ (claim_in_order parse_iso limit ob paths w now exp).2 -> lease_path l <> path.
Proof.
  intros Hr Hc. revert limit ob Hr. induction paths as [|p paths IH]; intros [|limit] ob Hr; cbn [claim_in_order];
    try (split; [done|by intros l ?%not_elem_of_nil]).
  destruct (_claim_event_transaction parse_iso ob p w now exp) as [ob' [l|]] eqn:Hcl.
  - apply claim_spec in Hcl as (raw' & Hr' & Hc' & -> & ->).
    assert (p <> path) as Hne by (intros ->; rewrite Hr in Hr'; injection Hr' as <-; by rewrite Hc in Hc').
    specialize (IH limit (<[p := doc_update raw' (claimed_fields w (row_epoch raw' + 1) now exp)]> ob)).
    rewrite lookup_insert_ne in IH by done. specialize (IH Hr).
    destruct (claim_in_order _ _ _ _ _ _ _) as [ob'' more]. destruct IH as [? Hmore]. split; [done|].
    intros l [->|?]%elem_of_cons; [done|by apply Hmore].
  - assert (ob' = ob) as ->; [|by apply (IH (S limit))].
    revert Hcl. unfold _claim_event_transaction. destruct (ob !! p) as [r|]; [|by intros [= <-]]. by destruct (negb _); intros [= <-].
Qed.

Definition endings (c : Counts) : nat := delivered_count c + retryable_failure_count c + dead_letter_count c + ack_failed_count c.

Lemma settle_all_counts c now reaches process n ob s leases :
  let s' := (settle_all c now reaches process n ob s leases).2 in
  leased_count s' = leased_count s /\ endings (counts s') = (endings (counts s) + length leases)%nat /\
  (stale_settled_count (counts s) <= delivered_count (counts s) -> stale_settled_count (counts s') <= delivered_count (counts s'))%nat /\
  (barrier_count (counts s) <= delivered_count (counts s) -> barrier_count (counts s') <= delivered_count (counts s'))%nat.
Proof.
  revert n ob s. induction leases as [|l leases IH]; intros n ob s; cbn [settle_all].
  - cbn. split_and!; [done|lia|done..].
  - assert (forall x, x <> Escaped -> endings (count_end (counts s) x) = S (endings (counts s)) /\
      (stale_settled_count (counts s) <= delivered_count (counts s) -> stale_settled_count (count_end (counts s) x) <= delivered_count (count_end (counts s) x))%nat /\
      (barrier_count (counts s) <= delivered_count (counts s) -> barrier_count (count_end (counts s) x) <= delivered_count (count_end (counts s) x))%nat) as Hcount.
    { intros [o|code dead|stage|] Hx; [| | |done]; unfold endings; cbn;
        [destruct (stale o), (barrier o)|destruct dead|]; cbn; lia. }
    assert ((settle_one c now (reaches n) ob l (process l)).2 <> Escaped) as Hnot.
    { unfold settle_one. destruct (process l) as [o|f].
      - destruct (if reaches n then _ else _) as [? []]; done.
      - destruct (failure_decided l c (failure_code f) now) as (d & -> & _). destruct (if reaches n then _ else _) as [? []]; done. }
    destruct (settle_one c now (reaches n) ob l (process l)) as [ob' x]. cbn [snd] in Hnot.
    destruct (IH (S n) ob' (record_end s l x)) as (Hl & He & Hs & Hb). destruct (Hcount x Hnot) as (He' & Hs' & Hb').
    assert (counts (record_end s l x) = count_end (counts s) x /\ leased_count (record_end s l x) = leased_count s) as [Hc Hl'] by (by destruct x).
    rewrite Hc, Hl' in *. cbn zeta. split_and!; [done|cbn [length]; lia|by intros ?%Hs'%Hs|by intros ?%Hb'%Hb].
Qed.

Lemma settle_all_keeps c now reaches process n ob s leases path :
  (forall l, l ∈ leases -> lease_path l <> path) -> (settle_all c now reaches process n ob s leases).1 !! path = ob !! path.
Proof.
  revert n ob s. induction leases as [|l leases IH]; intros n ob s Hl; cbn [settle_all]; [done|].
  destruct (settle_one_spec c now (reaches n) ob l (process l)) as (patch & _ & Heq & _).
  destruct (settle_one c now (reaches n) ob l (process l)) as [ob' x]. rewrite IH; [|intros l' ?; apply Hl; by right].
  assert (lease_path l <> path) as Hne by (apply Hl; by left).
  destruct (ob !! lease_path l); [destruct (_ && _)%bool|]; injection Heq as ->; by rewrite ?lookup_insert_ne.
Qed.

(** A tick takes no more leases than it may and answers for every one of them: each is
    delivered, to be retried, dead-lettered or lost to another worker, whatever became
    of its processing and of its transaction; and an event that is not due, or
    leased to someone else, is not touched. *)
Theorem tick_answers_for_its_leases parse_iso c uid now reaches process ob :
  _validate_tick_inputs uid c = Ok tt ->
  exists ob' s, run_canonical_memory_outbox_worker_tick parse_iso c uid now reaches process ob = Ok (ob', s) /\
    Z.of_nat (leased_count s) <= limit c /\ endings (counts s) = leased_count s /\
    (stale_settled_count (counts s) <= delivered_count (counts s))%nat /\ (barrier_count (counts s) <= delivered_count (counts s))%nat /\
    forall path raw, ob !! path = Some raw -> _is_claimable parse_iso raw now = false -> ob' !! path = Some raw.
Proof.
  intros Hv. unfold run_canonical_memory_outbox_worker_tick. rewrite Hv. cbn [rbind].
  assert (1 <= limit c) as Hlim.
  { unfold _validate_tick_inputs in Hv. do 2 (destruct (String.eqb _ _); [done|]). destruct (Z.ltb_spec (limit c) 1); [done|lia]. }
  destruct (lease_canonical_memory_outbox_events _ _ _ _ _ _ _ _) as [[ob1 leases]|x] eqn:Hl.
  - unfold lease_canonical_memory_outbox_events in Hl. do 5 (destruct (_ : bool) in Hl; [done|]). apply ok_inj in Hl.
    set (s0 := {| leased_count := length leases |}). destruct (settle_all c now reaches process 0 ob1 s0 leases) as [ob' s] eqn:Hs.
    destruct (settle_all_counts c now reaches process 0 ob1 s0 leases) as (Hcount & Hends & Hst & Hba). rewrite Hs in *. cbn [snd] in *.
    exists ob', s. split_and!; [done| |rewrite Hends, Hcount; done|by apply Hst; cbn; lia|by apply Hba; cbn; lia|].
    + rewrite Hcount. subst s0. cbn [leased_count]. 
      match type of Hl with claim_in_order _ ?n ?o ?p ?w ?t ?e = _ => pose proof (claim_in_order_length parse_iso n o p w t e) as Hlen end.
      rewrite Hl in Hlen. cbn [snd] in Hlen. lia.
    + intros path raw Hr Hc.
      match type of Hl with claim_in_order _ ?n ?o ?p ?w ?t ?e = _ => destruct (claim_in_order_keeps parse_iso n o p w t e path raw Hr Hc) as [Hk Hno] end.
      rewrite Hl in Hk, Hno. cbn [fst snd] in Hk, Hno.
      pose proof (settle_all_keeps c now reaches process 0 ob1 s0 leases path Hno) as Hsame. rewrite Hs in Hsame. cbn [fst] in Hsame. by rewrite Hsame.
  - eexists _, _. split; [done|]. cbn. split_and!; [lia|done|lia|lia|done].
Qed.
