(* ===== verification/OutboxConvergence.v ===== *)
(** Many workers on one projection of one memory: what the provider shows is the
    canonical state, or an event that is not delivered will bring it there.

    The provider holds the fence of the item it was last told to show, or nothing.
    An item changes together with a fresh event; the account's generation and its
    deletion marker stay.  Workers take turns in any order, may stop at any point,
    and events of other memories and other projections come and go. *)
From stdpp Require Import sorting.
From S2P Require Import QueuePolicy.
From S2P Require Export OutboxOps.

(** ** What the provider shows *)

Definition shown_fence (s : AuthState) : option ItemFence :=
  match visible_item s with
  | Some i => if _is_search_projection_indexable i then Some (item_fence i) else None
  | None => None
  end.

(** The provider after an effect. *)
Definition effect_result (x : Effect) : option ItemFence :=
  match x with
  | ProjectionUpsert i _ | VectorUpsert i _ => Some (item_fence i)
  | ProjectionDelete _ _ _ | VectorDelete _ _ => None
  end.

Lemma effect_shows e uid m s b x : effect_of e uid m s b = Ok x -> effect_result x = shown_fence s.
Proof.
  unfold effect_of, shown_fence, _is_vector_indexable. destruct (event_type e); [| |done|done];
    destruct (visible_item s) as [i|]; try destruct (_is_search_projection_indexable i); by intros [= <-].
Qed.

Lemma forallb_perm {A} (f : A -> bool) l l' : l ≡ₚ l' -> forallb f l = forallb f l'.
Proof.
  induction 1 as [|x l l' _ IH|x y l|l l' l'' _ IH1 _ IH2]; cbn [forallb]; [done|by rewrite IH| |by rewrite IH1].
  by destruct (f x), (f y).
Qed.

(** Items of one fence and equally blank texts are shown alike. *)
Lemma fence_indexable i j :
  item_fence i = item_fence j -> blank (content i) = blank (content j) ->
  _is_search_projection_indexable i = _is_search_projection_indexable j.
Proof.
  unfold item_fence. intros [= _ _ _ _ _ Ht Hst Hp Hso Hl Hr] Hb. unfold _is_search_projection_indexable.
  rewrite Ht, Hst, Hp, Hso, Hr, Hb. f_equal. f_equal. apply forallb_perm.
  by rewrite <- (merge_sort_Permutation String.le (sensitivity_labels i)), Hl, merge_sort_Permutation.
Qed.

Lemma fence_visible s s' :
  fence s = fence s' ->
  (forall i j, state_item s = Some i -> state_item s' = Some j -> blank (content i) = blank (content j)) ->
  shown_fence s = shown_fence s'.
Proof.
  intros Hf Hblank. pose proof (f_equal (fun p => p.1.1) Hf) as Hg. pose proof (f_equal (fun p => p.1.2) Hf) as Hb.
  pose proof (f_equal snd Hf) as Hi. cbn in Hg, Hb, Hi. unfold shown_fence, visible_item. rewrite <- Hg, <- Hb.
  destruct (state_item s) as [i|], (state_item s') as [j|]; try done. apply (inj Some) in Hi.
  pose proof (fence_indexable i j Hi (Hblank i j eq_refl eq_refl)) as Hx.
  assert (item_account_generation i = item_account_generation j) as <- by (by apply (f_equal (fun f => f.1.1.1.1.1.1.1.1.1.2)) in Hi).
  destruct (negb _ && _); [|done]. rewrite Hx, Hi. done.
Qed.

(** ** The world *)

Record World : Type := {
  item_doc : option doc;
  provider : option ItemFence;
  outbox : gmap string doc;
  workers : gmap nat (LeasedMemoryOutboxEvent * Phase);
}.

Definition row_lease (path : string) (raw : doc) : LeasedMemoryOutboxEvent :=
  {| lease_path := path; document_id := last_part path; raw_event := raw; lease_worker_id := ""; lease_epoch := 0 |}.

(** What the worker itself writes on an event. *)
Inductive bookkeeping : list (string * field_write) -> Prop :=
| claiming w e now exp : bookkeeping (claimed_fields w e now exp)
| delivering o now : bookkeeping (delivered_fields o now)
| failing d code now : bookkeeping (event_failed_fields d code now).

Section Convergence.
Context (parse_iso : string -> option Z) (parse_control : doc -> option MemoryControlState) (parse_item : doc -> option MemoryItem)
        (parse_event : doc -> option MemoryOutboxEvent) (uid memory_id : string) (projection : MemoryOutboxEventType)
        (marker control : option doc).

Definition load_item (item : option doc) : result Failure AuthState :=
  _load_authoritative_projection_state parse_control parse_item uid
    (Some {| deletion_marker := marker; control_document := control; item_document := item |}).

(** A lease of an event of this memory and this projection. *)
Definition concerns (l : LeasedMemoryOutboxEvent) (e : MemoryOutboxEvent) (revision : Z) (hash : string) : Prop :=
  event_plan parse_event uid l = Ok (Project e memory_id revision hash) /\ event_type e = projection.

(** A read finds the documents, or fails. *)
Definition came_from (item : option doc) (loaded : result Failure AuthState) : Prop :=
  loaded = load_item item \/ exists f, loaded = Raise f.

Definition with_worker (w : World) (n : nat) (l : LeasedMemoryOutboxEvent) (ph : Phase) : World :=
  {| item_doc := item_doc w; provider := provider w; outbox := outbox w; workers := <[n := (l, ph)]> (workers w) |}.

(** [careful]: a worker writes only while it owns its event, a verification read
    raises nothing but what it may raise, and the first read of a repair works. *)
Inductive world_step (careful : bool) (w : World) : World -> Prop :=
| change item path raw e revision hash s :
    outbox w !! path = None -> py_get raw "status" = PStr "pending" -> concerns (row_lease path raw) e revision hash ->
    load_item item = Ok s -> stale_reason e revision hash s = None ->
    world_step careful w {| item_doc := item; provider := provider w; outbox := <[path := raw]> (outbox w); workers := workers w |}
| enqueue path raw :
    outbox w !! path = None -> row_status_is "processing" raw = false ->
    world_step careful w {| item_doc := item_doc w; provider := provider w; outbox := <[path := raw]> (outbox w); workers := workers w |}
| claim n path wid now exp outbox' l :
    workers w !! n = None -> _claim_event_transaction parse_iso (outbox w) path wid now exp = (outbox', Some l) ->
    world_step careful w {| item_doc := item_doc w; provider := provider w; outbox := outbox'; workers := <[n := (l, Claimed)]> (workers w) |}
| start n l e revision hash loaded :
    workers w !! n = Some (l, Claimed) -> concerns l e revision hash -> came_from (item_doc w) loaded ->
    (careful = true -> repair_authoritative_state (raw_event l) = true -> is_ok loaded = true) ->
    world_step careful w (with_worker w n l (start_phase parse_event uid l loaded (Raise Unexpected)))
| write n l e revision hash s use_first k x (accepted landed : bool) :
    workers w !! n = Some (l, Writing e memory_id s use_first k) -> concerns l e revision hash ->
    effect_of e uid memory_id s (use_first && (k =? 0)%nat) = Ok x ->
    (careful = true -> exists raw, outbox w !! lease_path l = Some raw /\ owns raw (lease_worker_id l) (lease_epoch l) = true) ->
    (accepted = true -> landed = true) ->
    world_step careful w {| item_doc := item_doc w; provider := if landed then effect_result x else provider w; outbox := outbox w;
                            workers := <[n := (l, write_phase uid e memory_id s use_first k accepted)]> (workers w) |}
| verify n l e s use_first k x loaded :
    workers w !! n = Some (l, Verifying e memory_id s use_first k x) -> came_from (item_doc w) loaded ->
    (careful = true -> loaded <> Raise Unexpected) ->
    world_step careful w (with_worker w n l (verify_phase e memory_id s use_first k x loaded))
| settle n l ph r c now reaches :
    workers w !! n = Some (l, ph) ->
    ph = Finishing r \/ (ph = Claimed /\ forall e revision hash, ~ concerns l e revision hash) ->
    world_step careful w {| item_doc := item_doc w; provider := provider w; outbox := (settle_one c now reaches (outbox w) l r).1;
                            workers := delete n (workers w) |}
| crash n :
    world_step careful w {| item_doc := item_doc w; provider := provider w; outbox := outbox w; workers := delete n (workers w) |}.

(** A calm beginning: nobody works, and the provider shows the canonical state. *)
Definition calm (w : World) : Prop :=
  workers w = ∅ /\ exists s, load_item (item_doc w) = Ok s /\ provider w = shown_fence s.

(** ** The invariant *)

(** What the owner of an event that must bring the provider up to date may be doing:
    an event [fresh] for the state, or one to repair. *)
Definition on_course (fresh : bool) (shown : option ItemFence) (l : LeasedMemoryOutboxEvent) (ph : Phase) : Prop :=
  match ph with
  | Claimed => fresh = true \/ repair_authoritative_state (raw_event l) = true
  | Writing _ _ _ _ _ => True
  | Verifying _ _ s _ _ _ => fresh = false /\ shown = shown_fence s
  | Finishing (Raise (Coded code)) => fresh = true \/ one_of _PROVIDER_REPAIR_REQUIRED_ERROR_CODES (PStr code) = true
  | Finishing (Raise Unexpected) => fresh = true
  | Finishing (Ok _) => False
  end.

Definition pending_for (s : AuthState) (fresh : bool) (raw : doc) (e : MemoryOutboxEvent) (revision : Z) (hash : string) : Prop :=
  row_status_is "delivered" raw = false /\
  if fresh then stale_reason e revision hash s = None else repair_authoritative_state raw = true.

Record pursued (w : World) (s : AuthState) (fresh : bool) (path : string) (raw : doc) (e : MemoryOutboxEvent) (revision : Z) (hash : string) : Prop := {
  pursued_row : outbox w !! path = Some raw;
  pursued_event : concerns (row_lease path raw) e revision hash;
  pursued_pending : pending_for s fresh raw e revision hash;
  pursued_owner n l ph : workers w !! n = Some (l, ph) -> lease_path l = path -> owns raw (lease_worker_id l) (lease_epoch l) = true ->
    concerns l e revision hash /\ on_course fresh (provider w) l ph;
}.

Definition provider_covered (w : World) (s : AuthState) : Prop :=
  provider w = shown_fence s \/ exists fresh path raw e revision hash, pursued w s fresh path raw e revision hash.

(** A state some read gave. *)
Definition known (s : AuthState) : Prop := exists item, load_item item = Ok s.

Definition phase_known (ph : Phase) : Prop :=
  match ph with Writing _ _ s _ _ | Verifying _ _ s _ _ _ => known s | Claimed | Finishing _ => True end.

Record world_sound (w : World) : Prop := {
  workers_behind n l ph : workers w !! n = Some (l, ph) -> exists raw, outbox w !! lease_path l = Some raw /\ lease_epoch l <= row_epoch raw /\
    forall e revision hash, concerns l e revision hash -> concerns (row_lease (lease_path l) raw) e revision hash;
  workers_distinct n n' l l' ph ph' : workers w !! n = Some (l, ph) -> workers w !! n' = Some (l', ph') -> lease_key l = lease_key l' -> n = n';
  workers_know n l ph : workers w !! n = Some (l, ph) -> phase_known ph;
  item_loads : exists s, load_item (item_doc w) = Ok s /\ provider_covered w s;
}.

Context (keeps : forall raw e ws, bookkeeping ws -> parse_event raw = Some e -> parse_event (doc_update raw ws) = Some e)
        (hash_tells_blank : forall d d' i j, parse_item d = Some i -> parse_item d' = Some j -> content_hash i = content_hash j ->
                              blank (content i) = blank (content j)).

(** ** Events and reads *)

Lemma plan_parsed l p : event_plan parse_event uid l = Ok p -> exists e, parse_event (raw_event l) = Some e.
Proof. unfold event_plan. destruct (parse_event (raw_event l)) as [e|]; [by exists e|done]. Qed.

Lemma concerns_kept path raw ws e revision hash :
  bookkeeping ws -> concerns (row_lease path raw) e revision hash -> concerns (row_lease path (doc_update raw ws)) e revision hash.
Proof.
  intros Hws [Hp He]. split; [|done]. destruct (plan_parsed _ _ Hp) as [e' He']. cbn [raw_event row_lease] in He'.
  unfold event_plan in *. cbn [raw_event row_lease document_id] in *. rewrite (keeps _ _ _ Hws He'). by rewrite He' in Hp.
Qed.

Lemma concerns_lease path raw w e0 e revision hash :
  concerns {| lease_path := path; document_id := last_part path; raw_event := raw; lease_worker_id := w; lease_epoch := e0 |} e revision hash <->
  concerns (row_lease path raw) e revision hash.
Proof. done. Qed.

Lemma loaded_item item s : load_item item = Ok s -> forall i, state_item s = Some i -> exists d, parse_item d = Some i.
Proof.
  unfold load_item, _load_authoritative_projection_state. cbn [control_document item_document deletion_marker].
  destruct (_load_control_state parse_control control) as [c|]; [|done]. cbn [rbind].
  unfold _load_memory_item. destruct item as [d|]; cbn [rbind]; [|by intros [= <-]].
  destruct (parse_item d) as [i|] eqn:Hd; cbn [rbind]; [|done]. destruct (negb _); [done|]. intros [= <-] i' [= <-]. by exists d.
Qed.

Lemma same_fence_same_view s s' : known s -> known s' -> fence s = fence s' -> shown_fence s = shown_fence s'.
Proof.
  intros [it Hs] [it' Hs'] Hf. apply fence_visible; [done|]. intros i j Hi Hj.
  destruct (loaded_item _ _ Hs i Hi) as [d Hd], (loaded_item _ _ Hs' j Hj) as [d' Hd'].
  apply (hash_tells_blank d d'); [done..|]. apply (f_equal snd) in Hf. cbn in Hf. rewrite Hi, Hj in Hf. cbn in Hf.
  apply (inj Some) in Hf. by apply (f_equal (fun f => f.1.1.1.1.1.1.1.2)) in Hf.
Qed.

(** ** Settlements *)

Lemma settle_one_case c now reaches ob l r :
  (settle_one c now reaches ob l r).1 = ob \/
  exists raw ws, ob !! lease_path l = Some raw /\ owns raw (lease_worker_id l) (lease_epoch l) = true /\ bookkeeping ws /\ settling ws /\
    (settle_one c now reaches ob l r).1 = <[lease_path l := doc_update raw ws]> ob /\
    forall f, r = Raise f -> exists d, ws = event_failed_fields d (failure_code f) now.
Proof.
  unfold settle_one, _ack_event_transaction. destruct r as [o|f].
  - destruct reaches, (ob !! lease_path l) as [raw|]; try by left. destruct (owns raw _ _) eqn:Hown; [right|by left].
    exists raw, (delivered_fields o now). split_and!; [done..|constructor|apply delivered_settles|done|done].
  - destruct (failure_decided l c (failure_code f) now) as (d & -> & _).
    destruct reaches, (ob !! lease_path l) as [raw|]; try by left. destruct (owns raw _ _) eqn:Hown; [right|by left].
    exists raw, (event_failed_fields d (failure_code f) now). split_and!; [done..|constructor|apply failed_settles|done|].
    intros f' [= <-]. by exists d.
Qed.

Lemma failed_row raw d code now :
  row_status_is "delivered" (doc_update raw (event_failed_fields d code now)) = false /\
  py_get (doc_update raw (event_failed_fields d code now)) "last_error_code" = PStr code.
Proof.
  unfold row_status_is, event_failed_fields. destruct (available_at d), (terminal d); cbn [app]; by split; doc_simpl.
Qed.

Lemma owned_processing raw w e : owns raw w e = true -> row_status_is "processing" raw = true /\ row_epoch raw = e.
Proof. intros (Hs & _ & He)%owns_spec. unfold row_status_is. by rewrite Hs. Qed.

Lemma processing_repairs raw : row_status_is "processing" raw = true -> repair_authoritative_state raw = true.
Proof. unfold repair_authoritative_state, row_status_is. by intros ->. Qed.

(** ** What a step leaves *)

(** Rows stay, or are written by a worker with an epoch that does not fall. *)
Definition evolves (ob ob' : gmap string doc) : Prop :=
  forall path raw, ob !! path = Some raw ->
    ob' !! path = Some raw \/
    exists ws, bookkeeping ws /\ ob' !! path = Some (doc_update raw ws) /\ row_epoch raw <= row_epoch (doc_update raw ws).

Lemma evolves_insert (ob : gmap string doc) path raw : ob !! path = None -> evolves ob (<[path := raw]> ob).
Proof. intros Hnew p r Hr. left. rewrite lookup_insert_ne; [done|congruence]. Qed.

Lemma row_write_evolves (ob : gmap string doc) path raw ws :
  ob !! path = Some raw -> bookkeeping ws -> row_epoch raw <= row_epoch (doc_update raw ws) -> evolves ob (<[path := doc_update raw ws]> ob).
Proof.
  intros Hr Hws Hle p r Hp. destruct (decide (p = path)) as [->|Hne]; [|left; by rewrite lookup_insert_ne].
  right. exists ws. rewrite Hr in Hp. injection Hp as <-. by rewrite lookup_insert_eq.
Qed.

Lemma claimed_epoch raw w now exp :
  let row := doc_update raw (claimed_fields w (row_epoch raw + 1) now exp) in
  row_epoch row = row_epoch raw + 1 /\ row_status_is "processing" row = true /\ row_status_is "delivered" row = false.
Proof.
  destruct (claimed_row raw w (row_epoch raw + 1) now exp) as (Hs & _ & He); [pose proof (safe_int_nonneg (py_get raw "lease_epoch")); unfold row_epoch; lia|].
  unfold row_status_is. cbn zeta. by rewrite Hs.
Qed.

Lemma step_evolves careful w w' : world_step careful w w' -> evolves (outbox w) (outbox w').
Proof.
  intros H. destruct H as [| |n path wid now exp ob' l _ (raw & Hr & _ & -> & _)%claim_spec| | | |n l ph r c now reaches|]; cbn [outbox with_worker];
    try (by left); try by apply evolves_insert.
  - apply row_write_evolves; [done|constructor|]. destruct (claimed_epoch raw wid now exp) as [-> _]. lia.
  - destruct (settle_one_case c now reaches (outbox w) l r) as [->|(raw & ws & Hr & _ & Hws & Hset & -> & _)]; [by left|].
    apply row_write_evolves; [done..|]. destruct (Hset raw) as [-> _]. done.
Qed.

Definition behind (ob : gmap string doc) (l : LeasedMemoryOutboxEvent) : Prop :=
  exists raw, ob !! lease_path l = Some raw /\ lease_epoch l <= row_epoch raw /\
    forall e revision hash, concerns l e revision hash -> concerns (row_lease (lease_path l) raw) e revision hash.

Lemma behind_evolves ob ob' l : evolves ob ob' -> behind ob l -> behind ob' l.
Proof.
  intros Hev (raw & Hr & Hle & Hc). destruct (Hev _ _ Hr) as [Hr'|(ws & Hws & Hr' & Hle')]; [by exists raw|].
  exists (doc_update raw ws). split_and!; [done|lia|]. intros e revision hash ?. by apply concerns_kept, Hc.
Qed.

Lemma start_known l loaded item control' : came_from item loaded -> phase_known (start_phase parse_event uid l loaded control').
Proof.
  intros Hcame. unfold start_phase. destruct (event_plan parse_event uid l) as [[|]|]; try done.
  destruct loaded as [s|]; [|done]. destruct (if repair_authoritative_state _ then _ else _); [done|]. cbn.
  destruct Hcame as [Heq|[f Hf]]; [by exists item|done].
Qed.

Lemma verify_known e m s u k x loaded item : came_from item loaded -> phase_known (verify_phase e m s u k x loaded).
Proof.
  intros Hcame. unfold verify_phase. destruct loaded as [s'|[|]]; [|done..]. case_bool_decide; [done|].
  destruct (_ <? _)%nat; [|done]. cbn. destruct Hcame as [Heq|[f Hf]]; [by exists item|done].
Qed.

Lemma write_known e m s u k accepted : known s -> phase_known (write_phase uid e m s u k accepted).
Proof. intros Hs. unfold write_phase. destruct (effect_of _ _ _ _ _); [|done]. by destruct accepted. Qed.

(** Where the workers after a step come from. *)
Lemma step_worker careful w w' n l ph :
  world_sound w -> world_step careful w w' -> workers w' !! n = Some (l, ph) ->
  phase_known ph /\
  ((exists ph0, workers w !! n = Some (l, ph0)) \/
   (workers w !! n = None /\ behind (outbox w') l /\ exists raw, outbox w !! lease_path l = Some raw /\ row_epoch raw < lease_epoch l)).
Proof.
  intros [_ _ Hk _] H. revert H.
  assert (forall l0 ph0 n0 ph1, workers w !! n0 = Some (l0, ph0) -> phase_known ph1 -> <[n0 := (l0, ph1)]> (workers w) !! n = Some (l, ph) ->
            phase_known ph /\ exists ph0, workers w !! n = Some (l, ph0)) as Hupd.
  { intros l0 ph0 n0 ph1 Hn0 Hph [[<- [= <- <-]]|[Hne Hn]]%lookup_insert_Some; [split; [done|by exists ph0]|].
    split; [by eapply Hk|by exists ph]. }
  intros [item path raw e revision hash s|path raw|n0 path wid now exp ob' l0 Hfree Hc|n0 l0 e revision hash loaded Hn0 _ Hcame _
    |n0 l0 e revision hash s u k x accepted landed Hn0|n0 l0 e s u k x loaded Hn0 Hcame _|n0 l0 ph0 r c now reaches Hn0|n0]; cbn [workers with_worker].
  - intros Hn. split; [by eapply Hk|left; by exists ph].
  - intros Hn. split; [by eapply Hk|left; by exists ph].
  - apply claim_spec in Hc as (raw & Hr & _ & -> & ->). intros [[<- [= <- <-]]|[Hne Hn]]%lookup_insert_Some.
    + split; [done|]. right. destruct (claimed_epoch raw wid now exp) as [He _]. split_and!; [done|..].
      * eexists. cbn [outbox lease_path lease_epoch]. rewrite lookup_insert_eq. split_and!; [done|lia|].
        intros e revision hash ?. by apply concerns_kept; [constructor|].
      * exists raw. cbn. split; [done|lia].
    + split; [by eapply Hk|left; by exists ph].
  - intros Hn. edestruct Hupd as [? ?]; [exact Hn0| |exact Hn|by split; [|left]]. by eapply start_known.
  - intros Hn. edestruct Hupd as [? ?]; [exact Hn0| |exact Hn|by split; [|left]]. apply write_known. exact (Hk _ _ _ Hn0).
  - intros Hn. edestruct Hupd as [? ?]; [exact Hn0| |exact Hn|by split; [|left]]. by eapply verify_known.
  - intros [_ Hn]%lookup_delete_Some. split; [by eapply Hk|left; by exists ph].
  - intros [_ Hn]%lookup_delete_Some. split; [by eapply Hk|left; by exists ph].
Qed.

(** A step brings at most one worker. *)
Lemma one_newcomer careful w w' n n' :
  world_step careful w w' -> workers w !! n = None -> workers w !! n' = None -> is_Some (workers w' !! n) -> is_Some (workers w' !! n') -> n = n'.
Proof.
  assert (forall n0 x, workers w !! n = None -> workers w !! n' = None -> is_Some (<[n0 := x]> (workers w) !! n) ->
            is_Some (<[n0 := x]> (workers w) !! n') -> n = n') as Hins.
  { intros n0 x Hn Hn' [? [[<- _]|[_ H]]%lookup_insert_Some]; [|by rewrite H in Hn].
    by intros [? [[<- _]|[_ H']]%lookup_insert_Some]; [|rewrite H' in Hn']. }
  assert (forall n0, workers w !! n = None -> is_Some (delete n0 (workers w) !! n) -> n = n') as Hdel.
  { intros n0 Hn [? [_ H]%lookup_delete_Some]. by rewrite H in Hn. }
  intros Hstep. destruct Hstep; cbn [workers with_worker]; try (by intros -> _ []%is_Some_None); try apply Hins; intros Hn _ Hs _; by eapply Hdel.
Qed.

(** ** The provider stays covered *)

Lemma concerns_fun l e r h e' r' h' : concerns l e r h -> concerns l e' r' h' -> e = e' /\ r = r' /\ h = h'.
Proof. intros [Hp _] [Hp' _]. rewrite Hp in Hp'. by injection Hp'. Qed.

Lemma pursued_frame w w' s fresh path raw e r h :
  pursued w s fresh path raw e r h -> outbox w' !! path = Some raw -> provider w' = provider w ->
  (forall n l ph, workers w' !! n = Some (l, ph) -> lease_path l = path -> owns raw (lease_worker_id l) (lease_epoch l) = true ->
     workers w !! n = Some (l, ph) \/ concerns l e r h /\ on_course fresh (provider w) l ph) ->
  pursued w' s fresh path raw e r h.
Proof.
  intros [Hr Hc Hp Ho] Hr' Hprov Hw. split; [done..|]. intros n l ph Hn Hpath Hown. rewrite Hprov.
  destruct (Hw n l ph Hn Hpath Hown); [by eapply Ho|done].
Qed.

(** A worker goes on with its event. *)
Lemma pursued_advance w n l ph ph' s fresh path raw e r h :
  workers w !! n = Some (l, ph) ->
  (concerns l e r h -> pending_for s fresh raw e r h -> on_course fresh (provider w) l ph -> on_course fresh (provider w) l ph') ->
  pursued w s fresh path raw e r h -> pursued (with_worker w n l ph') s fresh path raw e r h.
Proof.
  intros Hn Hgo Hpur. pose proof Hpur as [Hr Hc Hp Ho]. eapply pursued_frame; [done..|]. cbn [workers with_worker].
  intros n' l' ph1 [[<- [= <- <-]]|[Hne Hn']]%lookup_insert_Some Hpath Hown; [right|by left].
  destruct (Ho n l ph Hn Hpath Hown) as [? ?]. split; [done|by apply Hgo].
Qed.

(** A worker is gone. *)
Lemma pursued_delete w n s fresh path raw e r h ob :
  ob !! path = Some raw -> pursued w s fresh path raw e r h ->
  pursued {| item_doc := item_doc w; provider := provider w; outbox := ob; workers := delete n (workers w) |} s fresh path raw e r h.
Proof. intros Hr Hpur. eapply pursued_frame; [done..|]. cbn [workers]. intros n' l ph [_ Hn']%lookup_delete_Some _ _. by left. Qed.

Lemma start_on_course l e r h loaded s fresh item shown raw :
  concerns l e r h -> came_from item loaded -> load_item item = Ok s -> pending_for s fresh raw e r h ->
  (repair_authoritative_state (raw_event l) = true -> is_ok loaded = true) ->
  on_course fresh shown l Claimed -> on_course fresh shown l (start_phase parse_event uid l loaded (Raise Unexpected)).
Proof.
  intros [Hplan _] Hcame Hs [_ Hpend] Hfirst Hcourse. unfold start_phase. rewrite Hplan. cbn [on_course] in Hcourse.
  destruct loaded as [s'|f].
  - assert (s' = s) as -> by (destruct Hcame as [Heq|[f Hf]]; [congruence|done]).
    destruct (repair_authoritative_state (raw_event l)) eqn:Hrep; [done|].
    destruct Hcourse as [->|?]; [|done]. by rewrite Hpend.
  - destruct Hcourse as [->|Hrep%Hfirst]; [|done]. by destruct f; cbn; [left|].
Qed.

Lemma verify_on_course l e m s' u k x loaded s fresh item shown :
  came_from item loaded -> load_item item = Ok s -> known s' -> shown <> shown_fence s -> loaded <> Raise Unexpected ->
  on_course fresh shown l (Verifying e m s' u k x) -> on_course fresh shown l (verify_phase e m s' u k x loaded).
Proof.
  intros Hcame Hs Hknown Hstale Hcalm [-> Hshown]. unfold verify_phase.
  destruct loaded as [o|[code|]]; [|right; by vm_compute|done].
  assert (o = s) as -> by (destruct Hcame as [Heq|[f Hf]]; [congruence|done]).
  case_bool_decide as Hf; [|destruct (_ <? _)%nat; [done|right; by vm_compute]].
  destruct Hstale. rewrite Hshown. symmetry. apply same_fence_same_view; [by exists item|done..].
Qed.

Lemma write_failed_code x : one_of _PROVIDER_REPAIR_REQUIRED_ERROR_CODES (PStr (effect_action x ++ "_failed")) = true.
Proof. by destruct x. Qed.

(** A write that lands: its own event is now to be repaired until it is verified. *)
Lemma landed_pursued w n l e r h s' u k x accepted s raw :
  world_sound w -> workers w !! n = Some (l, Writing e memory_id s' u k) -> concerns l e r h ->
  effect_of e uid memory_id s' (u && (k =? 0)%nat) = Ok x ->
  outbox w !! lease_path l = Some raw -> owns raw (lease_worker_id l) (lease_epoch l) = true ->
  pursued {| item_doc := item_doc w; provider := effect_result x; outbox := outbox w;
             workers := <[n := (l, write_phase uid e memory_id s' u k accepted)]> (workers w) |} s false (lease_path l) raw e r h.
Proof.
  intros [Hb Hd _ _] Hn Hc Hx Hr Hown. destruct (Hb n l _ Hn) as (raw' & Hr' & _ & Hrow).
  rewrite Hr in Hr'. injection Hr' as <-. destruct (owned_processing _ _ _ Hown) as [Hproc Hep]. split; cbn [outbox provider workers].
  - done.
  - by apply Hrow.
  - split; [|by apply processing_repairs]. unfold row_status_is in *. apply is_str_spec in Hproc. by rewrite Hproc.
  - intros n' l' ph' Hn' Hpath Hown'. assert (n' = n) as ->.
    { apply lookup_insert_Some in Hn' as [[? _]|[Hne Hn']]; [done|]. eapply Hd; [exact Hn'|exact Hn|].
      unfold lease_key. rewrite Hpath. f_equal. destruct (owned_processing _ _ _ Hown') as [_ Hep']. congruence. }
    rewrite lookup_insert_eq in Hn'. injection Hn' as <- <-. split; [done|]. unfold write_phase. rewrite Hx.
    destruct accepted; [split; [done|by eapply effect_shows]|right; apply write_failed_code].
Qed.

Lemma covered_write w n l e r h s' u k x accepted landed s :
  world_sound w -> workers w !! n = Some (l, Writing e memory_id s' u k) -> concerns l e r h ->
  effect_of e uid memory_id s' (u && (k =? 0)%nat) = Ok x ->
  (exists raw, outbox w !! lease_path l = Some raw /\ owns raw (lease_worker_id l) (lease_epoch l) = true) ->
  (accepted = true -> landed = true) -> provider_covered w s ->
  provider_covered {| item_doc := item_doc w; provider := if (landed : bool) then effect_result x else provider w; outbox := outbox w;
             workers := <[n := (l, write_phase uid e memory_id s' u k accepted)]> (workers w) |} s.
Proof.
  intros Hs Hn Hc Hx (raw & Hr & Hown) Hland Hcov. destruct landed.
  - right. eexists false, _, _, _, _, _. by eapply landed_pursued.
  - destruct Hcov as [Hcov|(fresh & path & row & e' & r' & h' & Hpur)]; [by left|right].
    exists fresh, path, row, e', r', h'. apply (pursued_advance w n l (Writing e memory_id s' u k) _ s); [done| |done].
    intros _ _ _. unfold write_phase. rewrite Hx. destruct accepted; [by specialize (Hland eq_refl)|]. right. apply write_failed_code.
Qed.

Lemma claimed_pursued w n path wid now exp ob' l s fresh p raw e r h :
  world_sound w -> workers w !! n = None -> _claim_event_transaction parse_iso (outbox w) path wid now exp = (ob', Some l) ->
  pursued w s fresh p raw e r h ->
  exists raw', pursued {| item_doc := item_doc w; provider := provider w; outbox := ob'; workers := <[n := (l, Claimed)]> (workers w) |} s fresh p raw' e r h.
Proof.
  intros [Hb _ _ _] Hfree (row & Hrow & _ & -> & ->)%claim_spec Hpur. pose proof Hpur as [Hr Hc [Hdel Hp] Ho].
  destruct (decide (p = path)) as [->|Hne].
  - rewrite Hr in Hrow. injection Hrow as <-. destruct (claimed_epoch raw wid now exp) as (Hep & Hproc & Hdel').
    exists (doc_update raw (claimed_fields wid (row_epoch raw + 1) now exp)). split; cbn [outbox provider workers].
    + by rewrite lookup_insert_eq.
    + apply concerns_kept; [constructor|done].
    + split; [done|]. destruct fresh; [done|by apply processing_repairs].
    + intros n' l' ph [[<- [= <- <-]]|[Hne Hn']]%lookup_insert_Some Hpath Hown.
      * split; [by apply concerns_lease|]. destruct fresh; [by left|by right].
      * destruct (owned_processing _ _ _ Hown) as [_ Hep']. destruct (Hb n' l' ph Hn') as (raw' & Hr' & Hle & _).
        rewrite Hpath, Hr in Hr'. injection Hr' as <-. lia.
  - exists raw. eapply pursued_frame; [done|..]; cbn [outbox provider workers].
    + by rewrite lookup_insert_ne.
    + done.
    + intros n' l' ph [[<- [= <- <-]]|[_ Hn']]%lookup_insert_Some Hpath _; [|by left]. cbn in Hpath. congruence.
Qed.

Lemma settled_pursued w n l ph rs c now reaches s fresh p raw e r h :
  workers w !! n = Some (l, ph) -> ph = Finishing rs \/ (ph = Claimed /\ forall e r h, ~ concerns l e r h) ->
  pursued w s fresh p raw e r h ->
  exists raw', pursued {| item_doc := item_doc w; provider := provider w; outbox := (settle_one c now reaches (outbox w) l rs).1;
                          workers := delete n (workers w) |} s fresh p raw' e r h.
Proof.
  intros Hn Hph Hpur. pose proof Hpur as [Hr Hc [Hdel Hp] Ho].
  destruct (settle_one_case c now reaches (outbox w) l rs) as [->|(row & ws & Hrow & Hown & Hws & Hset & -> & Hfail)];
    [exists raw; by apply pursued_delete|].
  destruct (decide (p = lease_path l)) as [->|Hne]; [|exists raw; apply pursued_delete; [by rewrite lookup_insert_ne|done]].
  rewrite Hr in Hrow. injection Hrow as <-. destruct (Ho n l ph Hn eq_refl Hown) as [Hcl Hcourse].
  destruct Hph as [->|[_ Hno]]; [|by destruct (Hno _ _ _ Hcl)]. destruct rs as [o|f]; [done|].
  destruct (Hfail f eq_refl) as [d ->]. destruct (failed_row raw d (failure_code f) now) as [Hdel' Hcode].
  exists (doc_update raw (event_failed_fields d (failure_code f) now)). split; cbn [outbox provider workers].
  - by rewrite lookup_insert_eq.
  - by apply concerns_kept.
  - split; [done|]. destruct fresh; [done|]. unfold repair_authoritative_state. rewrite Hcode. apply orb_true_iff. right.
    destruct f as [code|]; [by destruct Hcourse|done].
  - intros n' l' ph' _ _ [Hproc _]%owned_processing. destruct (Hset raw) as [_ Hout]. congruence.
Qed.

Lemma change_pursued w item path raw e r h s :
  world_sound w -> outbox w !! path = None -> py_get raw "status" = PStr "pending" -> concerns (row_lease path raw) e r h ->
  stale_reason e r h s = None ->
  pursued {| item_doc := item; provider := provider w; outbox := <[path := raw]> (outbox w); workers := workers w |} s true path raw e r h.
Proof.
  intros [Hb _ _ _] Hnew Hst Hc Hfresh. split; cbn [outbox provider workers].
  - by rewrite lookup_insert_eq.
  - done.
  - split; [|done]. unfold row_status_is. by rewrite Hst.
  - intros n l ph Hn Hpath _. destruct (Hb n l ph Hn) as (raw' & Hr' & _). congruence.
Qed.

Lemma covered_step w w' :
  world_sound w -> world_step true w w' -> exists s, load_item (item_doc w') = Ok s /\ provider_covered w' s.
Proof.
  intros Hsound H. pose proof Hsound as [Hb Hd Hk (s & Hload & Hcov)].
  destruct H as [item path raw e r h s' Hnew Hst Hc Hs' Hfresh|path raw Hnew _|n path wid now exp ob' l Hfree Hclaim
    |n l e r h loaded Hn Hc Hcame Hcalm|n l e r h s' u k x accepted landed Hn Hc Hx Howned Hland
    |n l e s' u k x loaded Hn Hcame Hcalm|n l ph rs c now reaches Hn Hph|n]; cbn [item_doc with_worker]; [exists s'|exists s..]; (split; [done|]).
  - right. eexists true, _, _, _, _, _. by eapply change_pursued.
  - destruct Hcov as [Hcov|(fresh & p & row & e & r & h & Hpur)]; [by left|right].
    exists fresh, p, row, e, r, h. eapply pursued_frame; [done| |done|by left].
    cbn [outbox]. rewrite lookup_insert_ne; [apply Hpur|]. intros ->. destruct Hpur as [Hr _ _ _]. congruence.
  - destruct Hcov as [Hcov|(fresh & p & row & e & r & h & Hpur)]; [by left|right].
    destruct (claimed_pursued w n path wid now exp ob' l s fresh p row e r h) as [row' ?]; [done..|]. by exists fresh, p, row', e, r, h.
  - destruct Hcov as [Hcov|(fresh & p & row & e' & r' & h' & Hpur)]; [by left|right].
    exists fresh, p, row, e', r', h'. eapply pursued_advance; [exact Hn| |exact Hpur]. intros Hc' Hp. eapply start_on_course; [done..|].
    by apply Hcalm.
  - eapply covered_write; [done..|by apply Howned|done|done].
  - destruct (decide (provider w = shown_fence s)) as [Heq|Hstale]; [by left|].
    destruct Hcov as [Hcov|(fresh & p & row & e' & r' & h' & Hpur)]; [done|right].
    exists fresh, p, row, e', r', h'. eapply pursued_advance; [exact Hn| |exact Hpur]. intros _ _.
    eapply verify_on_course; [done..|exact (Hk _ _ _ Hn)|done|by apply Hcalm].
  - destruct Hcov as [Hcov|(fresh & p & row & e & r & h & Hpur)]; [by left|right].
    destruct (settled_pursued w n l ph rs c now reaches s fresh p row e r h) as [row' ?]; [done..|]. by exists fresh, p, row', e, r, h.
  - destruct Hcov as [Hcov|(fresh & p & row & e & r & h & Hpur)]; [by left|right].
    exists fresh, p, row, e, r, h. apply pursued_delete; [apply Hpur|done].
Qed.

Lemma step_keeps_sound w w' : world_step true w w' -> world_sound w -> world_sound w'.
Proof.
  intros Hstep Hsound. pose proof (step_evolves _ _ _ Hstep) as Hev. pose proof Hsound as [Hb Hd Hk _].
  assert (forall n l ph, workers w' !! n = Some (l, ph) -> behind (outbox w') l) as Hb'.
  { intros n l ph Hn. destruct (step_worker _ _ _ _ _ _ Hsound Hstep Hn) as [_ [[ph0 Hn0]|(_ & ? & _)]]; [|done].
    eapply behind_evolves; [done|by eapply Hb]. }
  split; [done| | |by eapply covered_step].
  - intros n n' l l' ph ph' Hn Hn' Hkey.
    destruct (step_worker _ _ _ _ _ _ Hsound Hstep Hn) as [_ [[ph0 Hn0]|(Hnone & _ & raw & Hr & Hlt)]],
      (step_worker _ _ _ _ _ _ Hsound Hstep Hn') as [_ [[ph0' Hn0']|(Hnone' & _ & raw' & Hr' & Hlt')]].
    + by eapply Hd.
    + destruct (Hb _ _ _ Hn0) as (row & Hrow & Hle & _). injection Hkey as Hp He. rewrite <- Hp, Hrow in Hr'. injection Hr' as <-. lia.
    + destruct (Hb _ _ _ Hn0') as (row & Hrow & Hle & _). injection Hkey as Hp He. rewrite Hp, Hrow in Hr. injection Hr as <-. lia.
    + by eapply one_newcomer.
  - intros n l ph Hn. by destruct (step_worker _ _ _ _ _ _ Hsound Hstep Hn).
Qed.

Lemma calm_sound w : calm w -> world_sound w.
Proof.
  intros (Hw & s & Hs & Hshown). split.
  - intros n l ph. by rewrite Hw, lookup_empty.
  - intros n n' l l' ph ph'. by rewrite Hw, lookup_empty.
  - intros n l ph. by rewrite Hw, lookup_empty.
  - exists s. split; [done|by left].
Qed.

Lemma reached_world_sound w w' : rtc (world_step true) w w' -> world_sound w -> world_sound w'.
Proof. induction 1 as [|? ? ? Hstep _ IH]; [done|]. intros Hw. by eapply IH, step_keeps_sound. Qed.

(** C5: no stale projection is forgotten.  From a calm beginning, after any careful steps
    of any number of workers, with changes of the item, other events, lost leases and
    crashes in between, the provider shows the canonical state of the memory, or there
    is an event of that memory, not delivered, that is fresh for the state or whose
    next lease repairs it; so once every event of the memory is delivered, what is
    shown is the canonical state. *)
Theorem no_stale_projection_is_forgotten w w' s :
  calm w -> rtc (world_step true) w w' -> load_item (item_doc w') = Ok s ->
  (provider w' = shown_fence s \/
   exists path raw e revision hash, outbox w' !! path = Some raw /\ concerns (row_lease path raw) e revision hash /\
     row_status_is "delivered" raw = false /\
     (stale_reason e revision hash s = None \/ repair_authoritative_state raw = true)) /\
  ((forall path raw e revision hash, outbox w' !! path = Some raw -> concerns (row_lease path raw) e revision hash ->
      row_status_is "delivered" raw = true) -> provider w' = shown_fence s).
Proof using keeps hash_tells_blank.
  intros Hcalm%calm_sound Hrun Hs. pose proof (reached_world_sound _ _ Hrun Hcalm) as [_ _ _ (s' & Hs' & Hcov)].
  rewrite Hs in Hs'. injection Hs' as <-. split.
  - destruct Hcov as [?|(fresh & path & raw & e & r & h & [Hr Hc [Hd Hp] _])]; [by left|right].
    exists path, raw, e, r, h. split_and!; [done..|]. destruct fresh; [by left|by right].
  - intros Hall. destruct Hcov as [?|(fresh & path & raw & e & r & h & [Hr Hc [Hd _] _])]; [done|].
    by rewrite (Hall _ _ _ _ _ Hr Hc) in Hd.
Qed.
End Convergence.
