(* ===== verification/OutboxPrivacy.v ===== *)
(** The outbox events of a deleted memory ([_privacy_tombstoned_memory_item],
    [_privacy_delete_events] and [_replacement_delete_events] of
    [database/memory_apply_store.py], [deterministic_contract_id] of
    [models/memory_contracts.py]) and what the worker makes of them.

    The text of [json.dumps] is a parameter. *)
From stdpp Require Import sorting.
From S2P Require Import QueuePolicy.
From S2P Require Export OutboxOps Sha256.

(** ** The tombstone and its events *)

(** The shape a privacy deletion leaves, on the fields the worker reads. *)
Definition _privacy_tombstoned_memory_item (i : MemoryItem) (commit : string) (generation : Z) : MemoryItem :=
  {| item_memory_id := item_memory_id i; item_uid := item_uid i; item_account_generation := generation;
     item_revision := item_revision i + 1; content_hash := None; ledger_commit_id := Some commit; tier := tier i;
     item_status := item_tombstoned; processing_state := processing_state i; source_state := source_tombstoned;
     sensitivity_labels := []; user_review := None; content := None |}.

Definition event_type_value (t : MemoryOutboxEventType) : string :=
  match t with
  | projection_sync => "projection_sync" | vector_sync => "vector_sync" | export_sync => "export_sync" | delete_sync => "delete_sync"
  end.

Definition tier_value (t : MemoryTier) : string :=
  match t with short_term => "short_term" | long_term => "long_term" | archive => "archive" end.

Section Events.
Context (canonical_json : pyval -> string).

Definition deterministic_contract_id (namespace : string) (payload : pyval) : string :=
  hex (sha256 (namespace ++ "|" ++ canonical_json payload)).

Definition outbox_event_id (t : MemoryOutboxEventType) (commit : string) (memory_id : option string) (operation_id : string) : string :=
  "evt_" ++ substring 0 32 (deterministic_contract_id "memory-outbox"
    (PDict [("event_type", PStr (event_type_value t)); ("commit_id", PStr commit); ("memory_id", str_or_none memory_id);
            ("operation_id", PStr operation_id)])).

(** The control after a commit: its head and its generations. *)
Record CommittedControl : Type := {
  head_commit_id : string;
  committed_generation : Z;
  committed_source_generation : Z;
}.

Definition delete_payload (i : MemoryItem) (reason : string) : doc :=
  dict_doc [("memory_id", PStr (item_memory_id i)); ("tier", PStr (tier_value (tier i))); ("action", PStr "delete");
            ("item_revision", PInt (item_revision i)); ("content_hash", str_or_none (content_hash i)); ("reason", PStr reason)].

Definition delete_event (uid : string) (i : MemoryItem) (c : CommittedControl) (operation_id reason : string) (t : MemoryOutboxEventType)
    : MemoryOutboxEvent :=
  {| event_id := outbox_event_id t (head_commit_id c) (Some (item_memory_id i)) operation_id; event_uid := uid; event_type := t;
     event_commit_id := head_commit_id c; event_memory_id := Some (item_memory_id i); event_account_generation := committed_generation c;
     event_source_generation := committed_source_generation c; payload := delete_payload i reason |}.

Definition _privacy_delete_events (uid : string) (i : MemoryItem) (c : CommittedControl) (operation_id reason : string) : list MemoryOutboxEvent :=
  delete_event uid i c operation_id reason <$> [projection_sync; vector_sync].

Definition _replacement_delete_events (uid : string) (i : MemoryItem) (c : CommittedControl) (operation_id : string) : list MemoryOutboxEvent :=
  delete_event uid i c operation_id "conversation_reprocess_retract" <$> [projection_sync; vector_sync].

(** The events the two deletions give to an item's tombstone. *)
Definition deletion_events (uid : string) (i : MemoryItem) (c : CommittedControl) (operation_id reason : string) : list MemoryOutboxEvent :=
  let tombstone := _privacy_tombstoned_memory_item i (head_commit_id c) (committed_generation c) in
  _privacy_delete_events uid tombstone c operation_id reason ++ _replacement_delete_events uid tombstone c operation_id.
End Events.

(** ** What the worker makes of them *)

Section Worker.
Context (parse_control : doc -> option MemoryControlState) (parse_item : doc -> option MemoryItem)
        (parse_event : doc -> option MemoryOutboxEvent) (canonical_json : pyval -> string).

Lemma delete_event_invalid uid i c op reason t l :
  content_hash i = None -> parse_event (raw_event l) = Some (delete_event canonical_json uid i c op reason t) ->
  document_id l = event_id (delete_event canonical_json uid i c op reason t) ->
  event_plan parse_event uid l = Raise (Coded "invalid_event_fence").
Proof.
  intros Hh Hp Hid. unfold event_plan. rewrite Hp, Hid. cbn [event_uid event_memory_id payload delete_event event_id].
  rewrite !String.eqb_refl. cbn [negb].
  assert (py_get (delete_payload i reason) "action" = PStr "delete") as -> by done.
  assert (py_get (delete_payload i reason) "memory_id" = PStr (item_memory_id i)) as -> by done.
  assert (py_get (delete_payload i reason) "item_revision" = PInt (item_revision i)) as -> by done.
  assert (py_get (delete_payload i reason) "content_hash" = PNone) as -> by (unfold delete_payload; by rewrite Hh).
  cbn. by rewrite String.eqb_refl.
Qed.

(** C34: a deleted memory is never taken out of the projections through its outbox
    events.  The tombstone of a privacy deletion has no content hash, its events carry
    that absence as their fence, and the worker takes it for an invalid event: whatever
    it would read, it tells the provider nothing, and the settlement that owns the
    event leaves it to be tried again, or dead-lettered when its attempts are used up. *)
Theorem deletion_events_are_never_projected reads accepts uid i c op reason e l cfg now (ob : gmap string doc) raw :
  e ∈ deletion_events canonical_json uid i c op reason ->
  parse_event (raw_event l) = Some e -> document_id l = event_id e ->
  ob !! lease_path l = Some raw -> owns raw (lease_worker_id l) (lease_epoch l) = true ->
  let processed := _process_leased_event parse_control parse_item parse_event reads accepts uid l in
  let '(ob', ending) := settle_one cfg now true ob l processed.1 in
  processed = (Raise (Coded "invalid_event_fence"), []) /\
  (exists row, ob' !! lease_path l = Some row /\ py_get row "last_error_code" = PStr "invalid_event_fence" /\
     py_get row "status" = PStr (if config_max_attempts cfg <=? _safe_nonnegative_int (py_get (raw_event l) "attempt_count") + 1
                                 then "dead_letter" else "retryable_failure")) /\
  repair_authoritative_state (default ∅ (ob' !! lease_path l)) = false.
Proof.
  intros He Hp Hid Hr Hown. cbn zeta.
  assert (_process_leased_event parse_control parse_item parse_event reads accepts uid l = (Raise (Coded "invalid_event_fence"), [])) as ->.
  { unfold _process_leased_event. set (tomb := _privacy_tombstoned_memory_item i (head_commit_id c) (committed_generation c)) in *.
    assert (exists reason' t, e = delete_event canonical_json uid tomb c op reason' t) as (reason' & t & ->).
    { unfold deletion_events, _privacy_delete_events, _replacement_delete_events in He. fold tomb in He.
      apply elem_of_app in He as [(t & -> & _)%list_elem_of_fmap|(t & -> & _)%list_elem_of_fmap]; by eexists _, _. }
    by rewrite (delete_event_invalid uid tomb c op reason' t l). }
  cbn [fst]. unfold settle_one, _ack_event_transaction. cbn [failure_code].
  destruct (failure_decided l cfg "invalid_event_fence" now) as (d & -> & Hd). rewrite Hr, Hown.
  set (row := doc_update raw (event_failed_fields d "invalid_event_fence" now)).
  assert (py_get row "last_error_code" = PStr "invalid_event_fence" /\
          py_get row "status" = PStr (if terminal d then "dead_letter" else "retryable_failure")) as [Hcode Hst].
  { subst row. unfold event_failed_fields. destruct (available_at d), (terminal d); cbn [app]; by split; doc_simpl. }
  split_and!; [done| |].
  - exists row. rewrite lookup_insert_eq. split_and!; [done..|]. rewrite Hst. f_equal.
    destruct (Z.leb_spec (config_max_attempts cfg) (_safe_nonnegative_int (py_get (raw_event l) "attempt_count") + 1)) as [Hle|Hgt].
    + by rewrite (proj2 Hd Hle).
    + destruct (terminal d); [by apply Z.lt_nge in Hgt; destruct Hgt; apply Hd|done].
  - rewrite lookup_insert_eq. change (repair_authoritative_state row = false). unfold repair_authoritative_state. rewrite Hst, Hcode. by destruct (terminal d).
Qed.
End Worker.
