(* ===== verification/OutboxDemo.v ===== *)
(** The outbox worker on concrete events: an executable scheduler of the steps of
    [OutboxConvergence], the witnesses, and runs that show why the steps must be
    careful. *)
From stdpp Require Import sorting.
From S2P Require SyncJobs.
From S2P Require Import QueuePolicy.
From S2P Require Export OutboxConvergence OutboxPrivacy.

(** ** A scheduler *)

#[local] Existing Instance SyncJobs.pyval_eq_dec.

#[local] Instance outbox_event_eq_dec : EqDecision MemoryOutboxEvent.
Proof. solve_decision. Defined.

Inductive Action : Type :=
| Change (item : option doc) (path : string) (raw : doc)
| Claim (n : nat) (path wid : string) (now exp : Z)
| Start (n : nat) (fails : option Failure)
| Write (n : nat) (accepted landed : bool)
| Verify (n : nat) (fails : option Failure)
| Settle (n : nat) (c : CanonicalMemoryOutboxWorkerConfig) (now : Z) (reaches : bool)
| Crash (n : nat).

Section Scheduler.
Context (parse_iso : string -> option Z) (parse_control : doc -> option MemoryControlState) (parse_item : doc -> option MemoryItem)
        (parse_event : doc -> option MemoryOutboxEvent) (uid memory_id : string) (projection : MemoryOutboxEventType)
        (marker control : option doc) (careful : bool).

Local Abbreviation load := (load_item parse_control parse_item uid marker control).
Local Abbreviation step := (world_step parse_iso parse_control parse_item parse_event uid memory_id projection marker control careful).
Local Abbreviation concerns := (concerns parse_event uid memory_id projection).

Definition concern_of (l : LeasedMemoryOutboxEvent) : option (MemoryOutboxEvent * Z * string) :=
  match event_plan parse_event uid l with
  | Ok (Project e m revision hash) => if bool_decide (m = memory_id /\ event_type e = projection) then Some (e, revision, hash) else None
  | _ => None
  end.

Lemma concern_of_spec l e revision hash : concern_of l = Some (e, revision, hash) -> concerns l e revision hash.
Proof.
  unfold concern_of, OutboxConvergence.concerns. destruct (event_plan _ _ _) as [[|e' m r h]|]; [done| |done].
  case_bool_decide as H; [|done]. destruct H as [-> Ht]. by intros [= <- <- <-].
Qed.

Definition read_item (item : option doc) (fails : option Failure) : result Failure AuthState :=
  match fails with None => load item | Some f => Raise f end.

Lemma read_came item fails : came_from parse_control parse_item uid marker control item (read_item item fails).
Proof. destruct fails as [f|]; [right; by exists f|by left]. Qed.

Definition owned (w : World) (l : LeasedMemoryOutboxEvent) : bool :=
  match outbox w !! lease_path l with Some raw => owns raw (lease_worker_id l) (lease_epoch l) | None => false end.

(** A value under a condition. *)
Definition guarded {A} (b : bool) (x : A) : option A := if b then Some x else None.

Definition act (w : World) (a : Action) : option World :=
  match a with
  | Change item path raw =>
      match outbox w !! path, concern_of (row_lease path raw), load item with
      | None, Some (e, revision, hash), Ok s =>
          guarded (is_str (py_get raw "status") "pending" && bool_decide (stale_reason e revision hash s = None))
            {| item_doc := item; provider := provider w; outbox := <[path := raw]> (outbox w); workers := workers w |}
      | _, _, _ => None
      end
  | Claim n path wid now exp =>
      let '(ob, lease) := _claim_event_transaction parse_iso (outbox w) path wid now exp in
      match workers w !! n, lease with
      | None, Some l => Some {| item_doc := item_doc w; provider := provider w; outbox := ob; workers := <[n := (l, Claimed)]> (workers w) |}
      | _, _ => None
      end
  | Start n fails =>
      match workers w !! n with
      | Some (l, Claimed) =>
          match concern_of l with
          | Some _ =>
              guarded (negb careful || negb (repair_authoritative_state (raw_event l)) || is_ok (read_item (item_doc w) fails))
                (with_worker w n l (start_phase parse_event uid l (read_item (item_doc w) fails) (Raise Unexpected)))
          | None => None
          end
      | _ => None
      end
  | Write n accepted landed =>
      match workers w !! n with
      | Some (l, Writing e m s u k) =>
          match concern_of l, effect_of e uid m s (u && (k =? 0)%nat) with
          | Some (e', _, _), Ok x =>
              guarded (bool_decide (e' = e /\ m = memory_id) && (negb careful || owned w l) && (negb accepted || landed))
                {| item_doc := item_doc w; provider := if landed then effect_result x else provider w; outbox := outbox w;
                   workers := <[n := (l, write_phase uid e m s u k accepted)]> (workers w) |}
          | _, _ => None
          end
      | _ => None
      end
  | Verify n fails =>
      match workers w !! n with
      | Some (l, Verifying e m s u k x) =>
          guarded (bool_decide (m = memory_id) && (negb careful || match fails with Some Unexpected => false | _ => true end))
            (with_worker w n l (verify_phase e m s u k x (read_item (item_doc w) fails)))
      | _ => None
      end
  | Settle n c now reaches =>
      match workers w !! n with
      | Some (l, Finishing r) =>
          Some {| item_doc := item_doc w; provider := provider w; outbox := (settle_one c now reaches (outbox w) l r).1;
                  workers := delete n (workers w) |}
      | _ => None
      end
  | Crash n => Some {| item_doc := item_doc w; provider := provider w; outbox := outbox w; workers := delete n (workers w) |}
  end.

Fixpoint run (w : World) (actions : list Action) : option World :=
  match actions with
  | [] => Some w
  | a :: rest => match act w a with Some w' => run w' rest | None => None end
  end.

Lemma guarded_some {A} b (x y : A) : guarded b x = Some y -> b = true /\ x = y.
Proof. unfold guarded. destruct b; [|done]. by intros [= ->]. Qed.

Lemma act_sound w a w' : act w a = Some w' -> step w w'.
Proof.
  destruct a as [item path raw|n path wid now exp|n fails|n accepted landed|n fails|n c now reaches|n]; cbn [act].
  - destruct (outbox w !! path) eqn:Hnew; [done|]. destruct (concern_of _) as [[[e r] h]|] eqn:Hc; [|done].
    destruct (load item) as [s|] eqn:Hs; [|done]. intros [[Hst Hfresh]%andb_true_iff <-]%guarded_some.
    apply is_str_spec in Hst. apply bool_decide_eq_true in Hfresh. by eapply change; [..|apply concern_of_spec| |].
  - destruct (_claim_event_transaction _ _ _ _ _ _) as [ob [l|]] eqn:Hc; destruct (workers w !! n) eqn:Hn; try done.
    intros [= <-]. by eapply claim.
  - destruct (workers w !! n) as [[l []]|] eqn:Hn; try done. destruct (concern_of l) as [[[e r] h]|] eqn:Hc; [|done].
    intros [Hok <-]%guarded_some. eapply start; [done|by apply concern_of_spec|apply read_came|].
    intros Hcareful Hrep. by rewrite Hcareful, Hrep in Hok.
  - destruct (workers w !! n) as [[l []]|] eqn:Hn; try done. destruct (concern_of l) as [[[e' r] h]|] eqn:Hc; [|done].
    destruct (effect_of _ _ _ _ _) as [x|] eqn:Hx; [|done]. intros [[[[-> ->]%bool_decide_eq_true Hown]%andb_true_iff Hland]%andb_true_iff <-]%guarded_some.
    eapply write; [done|by apply concern_of_spec|done|..].
    + intros Hcareful. rewrite Hcareful in Hown. cbn in Hown. unfold owned in Hown. destruct (outbox w !! lease_path l) as [raw|]; [by exists raw|done].
    + intros ->. by destruct landed.
  - destruct (workers w !! n) as [[l []]|] eqn:Hn; try done. intros [[->%bool_decide_eq_true Hok]%andb_true_iff <-]%guarded_some.
    eapply verify; [done|apply read_came|]. intros Hcareful. rewrite Hcareful in Hok. cbn in Hok.
    destruct fails as [[|]|]; cbn; [done|done|]. intros Hraise. unfold load_item, _load_authoritative_projection_state in Hraise.
    revert Hraise. cbn [control_document item_document deletion_marker]. unfold _load_control_state, _load_memory_item.
    destruct control as [d|]; [|done]. destruct (parse_control d); [|done]. cbn [rbind].
    destruct (item_doc w) as [d'|]; cbn [rbind]; [|done]. destruct (parse_item d'); cbn [rbind]; [|done]. by destruct (negb _).
  - destruct (workers w !! n) as [[l []]|] eqn:Hn; try done. intros [= <-]. eapply settle; [done|by left].
  - intros [= <-]. apply crash.
Qed.

(** What the scheduler does are steps. *)
Lemma run_sound w actions w' : run w actions = Some w' -> rtc step w w'.
Proof.
  revert w. induction actions as [|a rest IH]; intros w; cbn [run]; [by intros [= ->]|].
  destruct (act w a) as [w1|] eqn:Ha; [|done]. intros Hr. eapply rtc_l; [exact (act_sound _ _ _ Ha)|by apply IH].
Qed.
End Scheduler.

(** ** A memory *)

Module Demo.

Definition no_iso (s : string) : option Z := None.

Definition parse_control (d : doc) : option MemoryControlState :=
  match py_get d "account_generation", py_get d "source_generation" with
  | PInt a, PInt s => Some {| control_account_generation := a; control_source_generation := s |}
  | _, _ => None
  end.

Definition parse_item (d : doc) : option MemoryItem :=
  match py_get d "uid", py_get d "item_revision", py_get d "content" with
  | PStr u, PInt r, PStr c =>
      Some {| item_memory_id := "mem"; item_uid := u; item_account_generation := 1; item_revision := r; content_hash := Some c;
              ledger_commit_id := Some "c0"; tier := long_term; item_status := item_active; processing_state := processed;
              source_state := source_active; sensitivity_labels := []; user_review := None; content := Some c |}
  | _, _, _ => None
  end.

Definition parse_event (d : doc) : option MemoryOutboxEvent :=
  match py_get d "event_id", py_get d "uid", py_get d "payload" with
  | PStr i, PStr u, PDict p =>
      Some {| event_id := i; event_uid := u; event_type := vector_sync; event_commit_id := "c0"; event_memory_id := Some "mem";
              event_account_generation := 1; event_source_generation := 1; payload := dict_doc p |}
  | _, _, _ => None
  end.

Definition control : doc := doc_set [put_int "account_generation" 1; put_int "source_generation" 1].
Definition item (revision : Z) (text : string) : doc := doc_set [put_str "uid" "u"; put_int "item_revision" revision; put_str "content" text].
Definition event (id text : string) (revision : Z) : doc :=
  doc_set [put_str "event_id" id; put_str "uid" "u"; put_str "event_type" "vector_sync"; put_str "status" "pending"; put_time "available_at" 0;
           ("payload", Put (PDict [("action", PStr "upsert"); ("memory_id", PStr "mem"); ("item_revision", PInt revision);
                                   ("content_hash", PStr text)]))].

Lemma bookkeeping_other ws raw k :
  bookkeeping ws -> k ∈ ["event_id"; "uid"; "payload"] -> py_get (doc_update raw ws) k = py_get raw k.
Proof.
  intros Hws Hk. apply py_get_update_other. rewrite !elem_of_cons, elem_of_nil in Hk.
  destruct Hws as [w e now exp|o now|d code now]; destruct_or?; subst; try done;
    unfold claimed_fields, delivered_fields, event_failed_fields; try destruct (side_effect_action o);
    try destruct (available_at d), (terminal d); repeat constructor.
Qed.

Lemma parse_event_kept raw e ws : bookkeeping ws -> parse_event raw = Some e -> parse_event (doc_update raw ws) = Some e.
Proof. intros Hws. unfold parse_event. rewrite !(bookkeeping_other ws raw) by (done || set_solver). done. Qed.

Lemma parse_item_blank d d' i j :
  parse_item d = Some i -> parse_item d' = Some j -> content_hash i = content_hash j -> blank (content i) = blank (content j).
Proof.
  unfold parse_item. repeat case_match; try done. intros [= <-] [= <-]. cbn. by intros [= <-].
Qed.

Definition config : CanonicalMemoryOutboxWorkerConfig :=
  {| worker_id := "w"; limit := 10; scan_limit := 10; lease_seconds := 300; config_max_attempts := 5; config_base_backoff_seconds := 30;
     config_max_backoff_seconds := 1800 |}.

Definition shown_item (revision : Z) (text : string) : option ItemFence := item_fence <$> parse_item (item revision text).

Definition start_world : World :=
  {| item_doc := Some (item 1 "tea"); provider := shown_item 1 "tea"; outbox := ∅; workers := ∅ |}.

Local Abbreviation run_world careful := (run no_iso parse_control parse_item parse_event "u" "mem" vector_sync None (Some control) careful).

(** The item changes twice; the worker of the first event is overtaken between its
    read and its write, writes the old state, and repairs it. *)
Definition overtaken : list Action :=
  [Change (Some (item 2 "milk")) "o/e1" (event "e1" "milk" 2); Claim 1 "o/e1" "a" 10 20; Start 1 None;
   Change (Some (item 3 "juice")) "o/e2" (event "e2" "juice" 3); Claim 2 "o/e2" "b" 11 21; Start 2 None; Write 2 true true; Verify 2 None;
   Settle 2 config 12 true; Write 1 true true].

Definition repaired : list Action := overtaken ++ [Verify 1 None; Write 1 true true; Verify 1 None; Settle 1 config 13 true].

(** The same, but the verification read of the overtaken worker raises. *)
Definition raised : list Action :=
  overtaken ++ [Verify 1 (Some Unexpected); Settle 1 config 13 true; Claim 3 "o/e1" "a" 100000000 100000300; Start 3 None;
                Settle 3 config 100000001 true].

(** The provider call fails, and the next first read fails otherwise. *)
Definition forgotten_code : list Action :=
  overtaken ++ [Verify 1 (Some (Coded "missing_control_state")); Settle 1 config 13 true; Claim 3 "o/e1" "a" 100000000 100000300;
                Start 3 (Some Unexpected); Settle 3 config 100000001 true; Claim 4 "o/e1" "a" 900000000 900000300; Start 4 None;
                Settle 4 config 900000001 true].

Definition all_delivered (w : World) : bool := forallb (fun kd => row_status_is "delivered" kd.2) (map_to_list (outbox w)).

Definition shows_item (w : World) (revision : Z) (text : string) : bool := bool_decide (provider w = shown_item revision text).

Definition ends (careful : bool) (actions : list Action) (check : World -> bool) : bool :=
  match run_world careful start_world actions with Some w => check w | None => false end.

Example repaired_run : ends true repaired (fun w => all_delivered w && shows_item w 3 "juice") = true.
Proof. vm_compute. reflexivity. Qed.

Example overtaken_run : ends true overtaken (fun w => shows_item w 2 "milk") = true.
Proof. vm_compute. reflexivity. Qed.

Example raised_run : ends false raised (fun w => all_delivered w && shows_item w 2 "milk") = true.
Proof. vm_compute. reflexivity. Qed.

Example forgotten_code_run : ends false forgotten_code (fun w => all_delivered w && shows_item w 2 "milk") = true.
Proof. vm_compute. reflexivity. Qed.
End Demo.

(** ** Witnesses *)

Section Runs.
Local Abbreviation steps careful := (world_step Demo.no_iso Demo.parse_control Demo.parse_item Demo.parse_event "u" "mem" vector_sync None (Some Demo.control) careful).
Local Abbreviation reads := (load_item Demo.parse_control Demo.parse_item "u" None (Some Demo.control)).

Lemma start_calm : calm Demo.parse_control Demo.parse_item "u" None (Some Demo.control) Demo.start_world.
Proof. split; [done|]. by eexists. Qed.

(** What a run that ends well gives. *)
Lemma run_ends careful actions check :
  Demo.ends careful actions check = true -> exists w, rtc (steps careful) Demo.start_world w /\ check w = true.
Proof.
  unfold Demo.ends. destruct (run _ _ _ _ _ _ _ _ _ _ _ _) as [w|] eqn:Hrun; [|done]. intros Hc. exists w. split; [|done]. by eapply run_sound.
Qed.

Lemma delivered_all w path raw : Demo.all_delivered w = true -> outbox w !! path = Some raw -> row_status_is "delivered" raw = true.
Proof.
  unfold Demo.all_delivered. rewrite forallb_forall. intros Hall Hr. apply (Hall (path, raw)), list_elem_of_In. by apply elem_of_map_to_list.
Qed.

(** An exception in a verification read, or a failed first read of a repair, and the
    provider keeps an old state with every event delivered. *)
Lemma careless_steps_forget actions :
  actions = Demo.raised \/ actions = Demo.forgotten_code ->
  exists w, rtc (steps false) Demo.start_world w /\ (forall path raw, outbox w !! path = Some raw -> row_status_is "delivered" raw = true) /\
    provider w = Demo.shown_item 2 "milk".
Proof.
  intros Hactions. assert (Demo.ends false actions (fun w => Demo.all_delivered w && Demo.shows_item w 2 "milk") = true) as H.
  { destruct Hactions as [-> | ->]; [apply Demo.raised_run|apply Demo.forgotten_code_run]. }
  apply run_ends in H as (w & Hrun & [Hall Hshow%bool_decide_eq_true]%andb_true_iff). exists w. split_and!; [done| |done].
  intros path raw. by apply delivered_all.
Qed.

Lemma no_stale_projection_is_forgotten_witness :
  exists w s, rtc (steps true) Demo.start_world w /\ reads (item_doc w) = Ok s /\ provider w = shown_fence s /\ provider w = Demo.shown_item 3 "juice".
Proof.
  destruct (run_ends true Demo.repaired _ Demo.repaired_run) as (w & Hrun & [Hall Hshow%bool_decide_eq_true]%andb_true_iff).
  destruct (reached_world_sound _ _ _ _ _ _ _ _ _ Demo.parse_event_kept Demo.parse_item_blank _ _ Hrun
              (calm_sound _ _ _ _ _ _ _ _ _ start_calm)) as [_ _ _ (s & Hs & _)].
  exists w, s. split_and!; [done..| |done].
  apply (no_stale_projection_is_forgotten Demo.no_iso Demo.parse_control Demo.parse_item Demo.parse_event "u" "mem" vector_sync None (Some Demo.control)
           Demo.parse_event_kept Demo.parse_item_blank Demo.start_world w s start_calm Hrun Hs).
  intros path raw e revision hash Hr _. by eapply delivered_all.
Defined.
End Runs.

(** An event is enqueued and claimed. *)
Definition claimed_event : option (LeaseState * LeasedMemoryOutboxEvent) :=
  match _claim_event_transaction Demo.no_iso {["o/e1" := Demo.event "e1" "milk" 2]} "o/e1" "a" 10 20 with
  | (rows', Some l) => Some ({| rows := rows'; granted := [l]; settled_leases := [] |}, l)
  | (_, None) => None
  end.

Lemma event_is_claimed : match claimed_event with Some _ => true | None => false end = true.
Proof. vm_compute. reflexivity. Qed.

Lemma claimed_reached s l : claimed_event = Some (s, l) -> rtc (lease_step Demo.no_iso) no_leases s /\ l ∈ granted s.
Proof.
  unfold claimed_event. destruct (_claim_event_transaction _ _ _ _ _ _) as [rows' [l'|]] eqn:Hc; [|done]. intros [= <- <-].
  split; [|by left]. eapply rtc_l; [apply (enqueue_row _ no_leases "o/e1" (Demo.event "e1" "milk" 2)); by vm_compute|].
  apply rtc_once. by eapply (claim_row _ {| rows := _; granted := []; settled_leases := [] |}).
Qed.

Lemma settlement_is_fenced_witness :
  match claimed_event with
  | Some (s, l) => took_place (settle_one Demo.config 12 true (rows s) l (Raise Unexpected)).2 = true
  | None => False
  end.
Proof.
  pose proof event_is_claimed as Hsome. destruct claimed_event as [[s l]|] eqn:He; [clear Hsome|done].
  destruct (claimed_reached s l He) as [Hrun Hin].
  pose proof (settlement_is_fenced Demo.no_iso s l Demo.config 12 true (Raise Unexpected) Hrun Hin) as H.
  destruct (settle_one _ _ _ _ _ _) as [rows' x]. destruct H as (_ & _ & Hx & _). apply Hx.
  unfold claimed_event in He. destruct (_claim_event_transaction _ _ _ _ _ _) as [? [l'|]]; [|done]. injection He as <- <-.
  split_and!; [done| |by apply not_elem_of_nil]. cbn. by intros l'' ->%list_elem_of_singleton.
Defined.

(** ** A deleted memory *)

Module Deleted.
Definition json (v : pyval) : string := "json".
Definition deleted_item : MemoryItem :=
  {| item_memory_id := "mem"; item_uid := "u"; item_account_generation := 1; item_revision := 2; content_hash := Some "h";
     ledger_commit_id := Some "c0"; tier := long_term; item_status := item_active; processing_state := processed;
     source_state := source_active; sensitivity_labels := []; user_review := None; content := Some "milk" |}.
Definition committed : CommittedControl := {| head_commit_id := "c1"; committed_generation := 1; committed_source_generation := 1 |}.
Definition the_event : MemoryOutboxEvent :=
  delete_event json "u" (_privacy_tombstoned_memory_item deleted_item "c1" 1) committed "op" "asked" vector_sync.
Definition parse (d : doc) : option MemoryOutboxEvent := if is_str (py_get d "event_id") "it" then Some the_event else None.
Definition lease (attempts : Z) : LeasedMemoryOutboxEvent :=
  {| lease_path := "o/it"; document_id := event_id the_event;
     raw_event := doc_set [put_str "event_id" "it"; put_int "attempt_count" attempts]; lease_worker_id := "a"; lease_epoch := 5 |}.
Definition leased_row : doc := doc_set [put_str "status" "processing"; put_str "lease_owner" "a"; put_int "lease_epoch" 5].
End Deleted.

Lemma deletion_events_are_never_projected_witness :
  exists row, (settle_one Demo.config 12 true {["o/it" := Deleted.leased_row]} (Deleted.lease 4)
                 (_process_leased_event Demo.parse_control Demo.parse_item Deleted.parse (fun _ => None) (fun _ _ => true) "u" (Deleted.lease 4)).1).1
                !! "o/it" = Some row /\ py_get row "status" = PStr "dead_letter".
Proof.
  pose proof (deletion_events_are_never_projected Demo.parse_control Demo.parse_item Deleted.parse Deleted.json (fun _ => None) (fun _ _ => true) "u"
                Deleted.deleted_item Deleted.committed "op" "asked" Deleted.the_event (Deleted.lease 4) Demo.config 12
                {["o/it" := Deleted.leased_row]} Deleted.leased_row) as H.
  cbn zeta in H. destruct (settle_one _ _ _ _ _ _) as [ob ending]. destruct H as (_ & (row & Hrow & _ & Hst) & _).
  - right. by left.
  - done.
  - done.
  - apply lookup_insert_eq.
  - by vm_compute.
  - exists row. split; [done|]. rewrite Hst. done.
Defined.
