(* ===== verification/LegalHolds.v ===== *)
(** Legal holds and the gate of destructive work ([database/legal_holds.py]): one
    hold document and one gate document per account, on which the hold writer,
    every deletion and every fenced write contend.

    The documents are those of one account.  A schema version, issuer, state and kind
    are hashable; the account document is written by other code. *)
From stdpp Require Import sorting.
From S2P Require Export MemoryLedger.

(** ** Documents and errors *)

Record HoldStore : Type := {
  hold : option doc;
  gate : option doc;
  account : option doc;
}.

Inductive HoldError : Type :=
| LegalHoldActive
| Authority (e : LedgerError)
| BadOutcome (e : pyexc)
| ProviderError.

Definition unavailable {A} (what : string) : result HoldError A := Raise (Authority (LegalHoldAuthorityUnavailable what)).
Definition in_progress {A} : result HoldError A := Raise (Authority DestructiveOperationInProgress).

Definition lift {A} (m : result LedgerError A) : result HoldError A :=
  match m with Ok a => Ok a | Raise e => Raise (Authority e) end.

Definition LEGAL_HOLD_SCHEMA_VERSION : string := "legal_hold.v1".
Definition LEGAL_HOLD_DELETION_GATE_SCHEMA_VERSION : string := "legal_hold_deletion_gate.v1".
Definition _AUTHORIZED_ISSUERS : list string := ["admin"; "legal_hold_service"].
Definition _OBSOLETE_WRITER_GATE_KIND : string := "external_data_write".

Definition _validated_hold (found : option doc) : result HoldError (option doc) :=
  match found with
  | None => Ok None
  | Some h =>
      if negb (is_str (py_get h "schema_version") LEGAL_HOLD_SCHEMA_VERSION) then unavailable "legal-hold authority schema is unsupported" else
      if negb (existsb (is_str (py_get h "issuer")) _AUTHORIZED_ISSUERS) then unavailable "legal-hold authority issuer is not trusted" else
      match py_get h "active" with
      | PBool _ => Ok (Some h)
      | _ => unavailable "legal-hold authority active state is malformed"
      end
  end.

Definition _assert_hold_inactive (found : option doc) : result HoldError unit :=
  let* h := _validated_hold found in
  match h with
  | Some d => match py_get d "active" with PBool true => Raise LegalHoldActive | _ => Ok tt end
  | None => Ok tt
  end.

(** [found] is [None] when the read raises. *)
Definition assert_account_deletion_permitted (uid : string) (found : option (option doc)) : result HoldError unit :=
  if String.eqb uid "" then unavailable "account deletion legal-hold lookup requires a uid" else
  match found with
  | None => unavailable "legal-hold authority unavailable"
  | Some d => _assert_hold_inactive d
  end.

(** ** The hold writer *)

Definition wipe_running (account : option doc) : bool :=
  match account with Some d => is_str (py_get d "wipe_status") "running" | None => false end.

Definition _place_legal_hold_transaction (s : HoldStore) (issuer : string) (active : bool) (now : Z) : result HoldError HoldStore :=
  let* g := lift (_validated_gate (gate s)) in
  if active && (_gate_blocks g now || wipe_running (account s)) then in_progress else
  Ok {| hold := Some (doc_update (default ∅ (hold s))
                        [put_str "schema_version" LEGAL_HOLD_SCHEMA_VERSION; put_str "issuer" issuer; put_bool "active" active;
                         put_time "updated_at" now]);
        gate := gate s; account := account s |}.

Definition place_legal_hold (s : HoldStore) (uid issuer : string) (active : bool) (now : Z) : result HoldError HoldStore :=
  if String.eqb uid "" || negb (bool_decide (issuer ∈ _AUTHORIZED_ISSUERS)) then unavailable "legal-hold placement authority is invalid"
  else _place_legal_hold_transaction s issuer active now.

(** ** The gate *)

(** Whether the gate is of this operation. *)
Definition gate_of (g : doc) (uid kind token : string) : bool :=
  is_str (py_get g "uid") uid && is_str (py_get g "kind") kind && is_str (py_get g "token") token.

Definition gate_running (g : doc) : bool := is_str (py_get g "state") "running".

Definition opened_gate (uid kind token : string) (now : Z) : doc :=
  doc_set [put_str "schema_version" LEGAL_HOLD_DELETION_GATE_SCHEMA_VERSION; put_str "uid" uid; put_str "kind" kind; put_str "token" token;
           put_str "state" "running"; put_time "started_at" now; put_none "finished_at"].

Definition _acquire_destructive_operation_transaction (s : HoldStore) (uid kind token : string) (now : Z) : result HoldError HoldStore :=
  let* _ := if String.eqb kind _OBSOLETE_WRITER_GATE_KIND
            then (if account_deletion_blocks_access (normalize_account_deletion_status (account s)) then in_progress else Ok tt)
            else _assert_hold_inactive (hold s) in
  let* g := lift (_validated_gate (gate s)) in
  let opened := Ok {| hold := hold s; gate := Some (opened_gate uid kind token now); account := account s |} in
  match g with
  | Some d =>
      if gate_running d then
        if gate_of d uid kind token then Ok s
        else if _gate_blocks g now then in_progress else opened
      else opened
  | None => opened
  end.

Definition acquire_destructive_operation (s : HoldStore) (uid kind token : string) (now : Z) : result HoldError HoldStore :=
  if String.eqb uid "" || String.eqb (py_strip kind) "" || String.eqb (py_strip token) ""
  then unavailable "destructive operation identity is invalid"
  else _acquire_destructive_operation_transaction s uid kind token now.

Definition _finish_destructive_operation_transaction (s : HoldStore) (uid kind token outcome : string) (now : Z) : result HoldError HoldStore :=
  let* g := lift (_validated_gate (gate s)) in
  match g with
  | Some d =>
      if negb (gate_of d uid kind token) then unavailable "destructive operation gate ownership changed" else
      if negb (gate_running d) then
        if is_str (py_get d "state") outcome then Ok s else unavailable "destructive operation gate is already terminal"
      else Ok {| hold := hold s; gate := Some (doc_update d [put_str "state" outcome; put_time "finished_at" now]); account := account s |}
  | None => unavailable "destructive operation gate ownership changed"
  end.

Definition finish_destructive_operation (s : HoldStore) (uid kind token outcome : string) (now : Z) : result HoldError HoldStore :=
  if negb (bool_decide (outcome ∈ ["failed"; "completed"]))
  then Raise (BadOutcome (ValueError "destructive operation outcome must be failed or completed"))
  else _finish_destructive_operation_transaction s uid kind token outcome now.

(** Inside an irreversible transaction. *)
Definition assert_destructive_operation_transaction (s : HoldStore) (uid kind token : string) : result HoldError unit :=
  let* _ := _assert_hold_inactive (hold s) in
  let* g := lift (_validated_gate (gate s)) in
  match g with
  | Some d => if gate_running d && gate_of d uid kind token then Ok tt
              else unavailable "destructive operation transaction lacks gate authority"
  | None => unavailable "destructive operation transaction lacks gate authority"
  end.

(** [external_write_fence] before it yields; the account and then the gate are read. *)
Definition external_write_fence (uid : string) (account gate : option doc) (now : Z) : result HoldError unit :=
  if String.eqb uid "" then unavailable "external write fence requires a uid" else
  if account_deletion_blocks_access (normalize_account_deletion_status account) then in_progress else
  let* g := lift (_validated_gate gate) in
  if _gate_blocks g now then in_progress else Ok tt.

(** ** The context manager *)

Definition ActiveGate : Type := option (string * string * string).

Definition current_destructive_operation_token (active : ActiveGate) (uid kind : string) : result HoldError string :=
  match active with
  | Some (u, k, t) => if String.eqb u uid && String.eqb k kind then Ok t else unavailable "destructive operation gate is not active in this context"
  | None => unavailable "destructive operation gate is not active in this context"
  end.

(** How a block under the gate ends: the authority's error or the body's own. *)
Inductive GateExit (E : Type) : Type := AuthorityError (e : HoldError) | BodyError (e : E).
Arguments AuthorityError {E} e.
Arguments BodyError {E} e.

(** [with destructive_operation_gate(uid, kind)]: [fresh] is the token drawn, [body] the
    block, which sees the active gate and may change the documents along with
    everything that happens meanwhile; [reaches] tells whether the finishing
    transaction reaches the provider. *)
Definition destructive_operation_gate {E A} (active : ActiveGate) (s : HoldStore) (uid kind fresh : string) (now finished : Z) (reaches : bool)
    (body : ActiveGate -> string -> HoldStore -> HoldStore * result E A) : HoldStore * result (GateExit E) A :=
  match active with
  | Some (u, k, t) =>
      if negb (String.eqb u uid && String.eqb k kind) then (s, Raise (AuthorityError (Authority DestructiveOperationInProgress)))
      else let '(s', r) := body active t s in (s', match r with Ok a => Ok a | Raise e => Raise (BodyError e) end)
  | None =>
      match acquire_destructive_operation s uid kind fresh now with
      | Raise e => (s, Raise (AuthorityError e))
      | Ok s1 =>
          let '(s2, r) := body (Some (uid, kind, fresh)) fresh s1 in
          let finish outcome := if reaches then finish_destructive_operation s2 uid kind fresh outcome finished
                                else Raise ProviderError in
          match r with
          | Raise e => (match finish "failed" with Ok s3 => s3 | Raise _ => s2 end, Raise (BodyError e))
          | Ok a => match finish "completed" with Ok s3 => (s3, Ok a) | Raise e => (s2, Raise (AuthorityError e)) end
          end
      end
  end.
