(* ===== verification/LegalHoldOps.v ===== *)
(** Holds and deletions exclude each other, an abandoned gate is taken over, and the
    context manager gives its gate back. *)
From stdpp Require Import sorting.
From S2P Require Export LegalHolds.

(** ** Histories *)

(** Calls on the documents of an account, each at its time; other code writes the
    account document. *)
Inductive HoldOp : Type :=
| Place (issuer : string) (active : bool) (now : Z)
| Acquire (kind token : string) (now : Z)
| Finish (kind token outcome : string) (now : Z)
| WriteAccount (d : option doc) (now : Z).

Definition op_time (op : HoldOp) : Z :=
  match op with Place _ _ now | Acquire _ _ now | Finish _ _ _ now | WriteAccount _ now => now end.

Definition apply_op (uid : string) (s : HoldStore) (op : HoldOp) : result HoldError HoldStore :=
  match op with
  | Place issuer active now => place_legal_hold s uid issuer active now
  | Acquire kind token now => acquire_destructive_operation s uid kind token now
  | Finish kind token outcome now => finish_destructive_operation s uid kind token outcome now
  | WriteAccount d _ => Ok {| hold := hold s; gate := gate s; account := d |}
  end.

(** A call that raises leaves the documents. *)
Definition do_op (uid : string) (s : HoldStore) (op : HoldOp) : HoldStore :=
  match apply_op uid s op with Ok s' => s' | Raise _ => s end.

Definition history (uid : string) (s : HoldStore) (ops : list HoldOp) : HoldStore := foldl (do_op uid) s ops.

Lemma history_invariant uid (P : HoldStore -> Prop) (may : HoldOp -> Prop) s ops :
  (forall s op s', P s -> may op -> apply_op uid s op = Ok s' -> P s') -> P s -> Forall may ops -> P (history uid s ops).
Proof.
  intros Hstep Hs Hops. revert s Hs. induction Hops as [|op ops Hop _ IH]; intros s Hs; [done|]. cbn. apply IH.
  unfold do_op. destruct (apply_op uid s op) as [s'|] eqn:Ho; [by eapply Hstep|done].
Qed.

(** ** What each call does *)

Lemma validated_same found g : _validated_gate found = Ok g -> g = found.
Proof.
  unfold _validated_gate. destruct found as [d|]; [|by intros [= <-]]. cbn zeta.
  repeat (match goal with |- context [if ?b then _ else _] => destruct b end; [done|]).
  destruct (List.find _ _); [done|]. destruct (as_time _); [|done]. by intros [= <-].
Qed.

Lemma lift_ok {A} (m : result LedgerError A) a : lift m = Ok a <-> m = Ok a.
Proof. destruct m; cbn; split; congruence. Qed.

Lemma place_ok s uid issuer active now s' :
  place_legal_hold s uid issuer active now = Ok s' ->
  issuer ∈ _AUTHORIZED_ISSUERS /\ gate s' = gate s /\ account s' = account s /\
  (exists h, hold s' = Some h /\ _validated_hold (hold s') = Ok (Some h) /\ py_get h "active" = PBool active) /\
  exists g, _validated_gate (gate s) = Ok g /\ (active = true -> _gate_blocks g now = false /\ wipe_running (account s) = false).
Proof.
  unfold place_legal_hold. destruct (String.eqb uid ""); [done|]. case_bool_decide as Hi; [|done]. cbn [orb negb].
  unfold _place_legal_hold_transaction. intros (g & Hg%lift_ok & H)%rbind_ok.
  destruct (active && _) eqn:Hb; [done|]. apply ok_inj in H as <-. cbn [hold gate account]. split_and!; [done..| |].
  - eexists. split; [done|]. split; [|by doc_simpl]. unfold _validated_hold. doc_simpl. cbn [is_str].
    unfold _AUTHORIZED_ISSUERS in Hi. rewrite !elem_of_cons, elem_of_nil in Hi. by destruct Hi as [-> |[-> |[]]].
  - exists g. split; [done|]. intros ->. by apply orb_false_iff in Hb.
Qed.

(** An acquisition that succeeds found its gate open already or opens it. *)
Lemma acquire_ok s uid kind token now s' :
  acquire_destructive_operation s uid kind token now = Ok s' ->
  uid <> "" /\ py_strip kind <> "" /\ py_strip token <> "" /\
  (kind <> _OBSOLETE_WRITER_GATE_KIND -> _assert_hold_inactive (hold s) = Ok tt) /\
  ((s' = s /\ exists g, gate s = Some g /\ _validated_gate (gate s) = Ok (Some g) /\ gate_running g = true /\ gate_of g uid kind token = true) \/
   (s' = {| hold := hold s; gate := Some (opened_gate uid kind token now); account := account s |} /\
    forall g, gate s = Some g -> gate_running g = true -> _gate_blocks (Some g) now = false)).
Proof.
  unfold acquire_destructive_operation. destruct (String.eqb_spec uid "") as [|Hu]; [done|].
  destruct (String.eqb_spec (py_strip kind) "") as [|Hk]; [done|]. destruct (String.eqb_spec (py_strip token) "") as [|Ht]; [done|]. cbn [orb].
  unfold _acquire_destructive_operation_transaction. intros ([] & Hfirst & (g & Hg%lift_ok & H)%rbind_ok)%rbind_ok.
  split_and!; [done..| |].
  - intros Hkind. by destruct (String.eqb_spec kind _OBSOLETE_WRITER_GATE_KIND).
  - assert (g = gate s) as ->.
    { by apply validated_same in Hg. }
    destruct (gate s) as [d|]; [|right; apply ok_inj in H as <-; by split].
    destruct (gate_running d) eqn:Hrun; [|right; apply ok_inj in H as <-; split; [done|intros ? [= <-]; congruence]].
    destruct (gate_of d uid kind token) eqn:Hof; [left; apply ok_inj in H as <-; split; [done|by exists d]|].
    destruct (_gate_blocks (Some d) now) eqn:Hb; [done|]. right. apply ok_inj in H as <-. split; [done|]. by intros ? [= <-].
Qed.

Lemma finish_ok s uid kind token outcome now s' :
  finish_destructive_operation s uid kind token outcome now = Ok s' ->
  hold s' = hold s /\ account s' = account s /\ exists g, gate s = Some g /\ gate_of g uid kind token = true /\
    (s' = s \/ gate s' = Some (doc_update g [put_str "state" outcome; put_time "finished_at" now])).
Proof.
  unfold finish_destructive_operation. destruct (negb _); [done|]. unfold _finish_destructive_operation_transaction.
  intros (g & ->%lift_ok%validated_same & H)%rbind_ok. destruct (gate s) as [d|]; [|done].
  destruct (gate_of d uid kind token) eqn:Hof; [|done]. cbn [negb] in H. destruct (gate_running d); cbn [negb] in H.
  - apply ok_inj in H as <-. split_and!; [done..|]. exists d. split_and!; [done..|by right].
  - destruct (is_str _ _); [|done]. apply ok_inj in H as <-. split_and!; [done..|]. exists d. split_and!; [done..|by left].
Qed.

(** ** A hold in force *)

Definition held (s : HoldStore) : Prop := exists h, hold s = Some h /\ _validated_hold (hold s) = Ok (Some h) /\ py_get h "active" = PBool true.

Lemma held_active s : held s -> _assert_hold_inactive (hold s) = Raise LegalHoldActive.
Proof. intros (h & _ & Hv & Ha). unfold _assert_hold_inactive. rewrite Hv. cbn [rbind]. by rewrite Ha. Qed.

Definition releases (op : HoldOp) : bool := match op with Place _ false _ => true | _ => false end.

Lemma held_stays uid s ops : held s -> Forall (fun op => releases op = false) ops -> held (history uid s ops).
Proof.
  apply (history_invariant uid held). clear s ops. intros s [issuer active now|kind token now|kind token outcome now|d now] s' Hheld Hop Ho; cbn in Ho.
  - destruct active; [|done]. apply place_ok in Ho as (_ & _ & _ & Hh & _). exact Hh.
  - apply acquire_ok in Ho as (_ & _ & _ & _ & [[-> _]|[-> _]]); done.
  - apply finish_ok in Ho as (Hh & _). unfold held. by rewrite Hh.
  - by apply ok_inj in Ho as <-.
Qed.

(** ** A deletion under way *)

(** The gate [g] is open for the operation since [t0]. *)
Record open_gate (uid kind token : string) (g : doc) (t0 : Z) : Prop := {
  open_valid : _validated_gate (Some g) = Ok (Some g);
  open_running : gate_running g = true;
  open_identity : gate_of g uid kind token = true;
  open_since : py_get g "started_at" = PTime t0;
}.

Lemma valid_started g : _validated_gate (Some g) = Ok (Some g) -> exists t, py_get g "started_at" = PTime t.
Proof.
  unfold _validated_gate. cbn zeta. repeat (match goal with |- context [if ?b then _ else _] => destruct b end; [done|]).
  destruct (List.find _ _); [done|]. destruct (py_get g "started_at"); try done. intros _. by eexists.
Qed.

Lemma opened_open uid kind token now :
  py_strip uid <> "" -> py_strip kind <> "" -> py_strip token <> "" -> open_gate uid kind token (opened_gate uid kind token now) now.
Proof.
  intros Hu Hk Ht. unfold opened_gate, doc_set. split.
  - set (g := doc_update _ _). assert (py_get g "schema_version" = PStr LEGAL_HOLD_DELETION_GATE_SCHEMA_VERSION) as Hs by done.
    assert (py_get g "state" = PStr "running") as Hst by done. assert (py_get g "started_at" = PTime now) as Hsince by done.
    assert (filled (py_get g "uid") = true /\ filled (py_get g "kind") = true /\ filled (py_get g "token") = true) as (Hu' & Hk' & Ht').
    { apply String.eqb_neq in Hu, Hk, Ht. unfold filled. assert (py_get g "uid" = PStr uid) as -> by done.
      assert (py_get g "kind" = PStr kind) as -> by done. assert (py_get g "token" = PStr token) as -> by done.
      cbn [as_str]. by rewrite Hu, Hk, Ht. }
    unfold _validated_gate. rewrite Hs, Hst, Hsince. cbn [List.find]. by rewrite Hu', Hk', Ht'.
  - unfold gate_running. by doc_simpl.
  - unfold gate_of. doc_simpl. cbn. by rewrite !String.eqb_refl.
  - by doc_simpl.
Qed.

Lemma open_blocks uid kind token g t0 now :
  open_gate uid kind token g t0 -> kind <> _OBSOLETE_WRITER_GATE_KIND -> now < t0 + GATE_STALE_AFTER_SECONDS * 1000000 -> _gate_blocks (Some g) now = true.
Proof.
  intros [_ Hrun Hof Hs] Hk Hnow. unfold _gate_blocks, gate_running, gate_of in *. rewrite Hrun, Hs. cbn [as_time].
  apply andb_true_iff in Hof as [[_ Hkind]%andb_true_iff _]. apply is_str_spec in Hkind. rewrite Hkind. cbn [is_str].
  apply String.eqb_neq in Hk. unfold _OBSOLETE_WRITER_GATE_KIND in Hk. rewrite Hk. apply Z.ltb_lt. lia.
Qed.

Lemma gate_of_fun g uid kind token kind' token' : gate_of g uid kind token = true -> gate_of g uid kind' token' = true -> kind' = kind /\ token' = token.
Proof. unfold gate_of. rewrite !andb_true_iff, !is_str_spec. intros [[_ H1] H2] [[_ H3] H4]. split; congruence. Qed.

(** A call of another, before the gate is stale. *)
Definition by_another (kind token : string) (t0 : Z) (op : HoldOp) : Prop :=
  op_time op < t0 + GATE_STALE_AFTER_SECONDS * 1000000 /\
  match op with Finish k t _ _ => (k, t) <> (kind, token) | _ => True end.

Lemma open_stays uid kind token g t0 s ops :
  open_gate uid kind token g t0 -> kind <> _OBSOLETE_WRITER_GATE_KIND ->
  gate s = Some g -> _assert_hold_inactive (hold s) = Ok tt -> Forall (by_another kind token t0) ops ->
  gate (history uid s ops) = Some g /\ _assert_hold_inactive (hold (history uid s ops)) = Ok tt.
Proof.
  intros Hopen Hk Hg Hh. apply (history_invariant uid (fun s => gate s = Some g /\ _assert_hold_inactive (hold s) = Ok tt)); [|done].
  clear s ops Hg Hh. intros s [issuer active now|kind' token' now|kind' token' outcome now|d now] s' [Hg Hh] [Ht Hop] Ho; cbn in Ho, Ht.
  - apply place_ok in Ho as (_ & Hg' & _ & (h & Hh' & Hv & Ha) & (g' & Hval & Hblock)). rewrite Hg', Hg. split; [done|].
    rewrite Hg in Hval. apply validated_same in Hval as ->. destruct active.
    + destruct (Hblock eq_refl) as [Hb _]. by rewrite (open_blocks _ _ _ _ _ _ Hopen Hk Ht) in Hb.
    + unfold _assert_hold_inactive. rewrite Hv. cbn [rbind]. by rewrite Ha.
  - apply acquire_ok in Ho as (_ & _ & _ & _ & [[-> _]|[-> Hb]]); [done|].
    specialize (Hb g Hg (open_running _ _ _ _ _ Hopen)). by rewrite (open_blocks _ _ _ _ _ _ Hopen Hk Ht) in Hb.
  - apply finish_ok in Ho as (Hh' & _ & g' & Hg' & Hof & _). rewrite Hg in Hg'. injection Hg' as <-.
    destruct (gate_of_fun _ _ _ _ _ _ (open_identity _ _ _ _ _ Hopen) Hof) as [-> ->]. by destruct Hop.
  - by apply ok_inj in Ho as <-.
Qed.

Lemma acquired_open s uid kind token now s1 :
  py_strip uid <> "" -> acquire_destructive_operation s uid kind token now = Ok s1 ->
  hold s1 = hold s /\ exists g t0, gate s1 = Some g /\ open_gate uid kind token g t0 /\ (t0 = now \/ gate s = Some g).
Proof.
  intros Hu (_ & Hk & Ht & _ & [[-> (g & Hg & Hv & Hrun & Hof)]|[-> _]])%acquire_ok.
  - split; [done|]. rewrite Hg in Hv. destruct (valid_started g Hv) as [t0 Hs]. exists g, t0. split_and!; [done| |by right]. by split.
  - split; [done|]. eexists _, now. split_and!; [done|by apply opened_open|by left].
Qed.

(** C15: a legal hold and a deletion exclude each other.  Once a hold was placed, whatever
    calls follow in whatever order, until one releases it no deletion may begin and no
    irreversible transaction passes its check; and once a deletion has its gate,
    whatever the others call before the gate is stale, the gate stays its own, no hold
    can be placed, no other deletion can begin or pass the check, every fenced write is
    refused, and the deletion's own transactions pass. *)
Theorem hold_and_deletion_exclude_each_other uid s s1 ops :
  py_strip uid <> "" ->
  let s2 := history uid s1 ops in
  (forall issuer now, place_legal_hold s uid issuer true now = Ok s1 -> Forall (fun op => releases op = false) ops ->
     (forall found, found = Some (hold s2) -> assert_account_deletion_permitted uid found = Raise LegalHoldActive) /\
     forall kind token now', assert_destructive_operation_transaction s2 uid kind token = Raise LegalHoldActive /\
       (kind <> _OBSOLETE_WRITER_GATE_KIND -> is_ok (acquire_destructive_operation s2 uid kind token now') = false)) /\
  (forall kind token now, kind <> _OBSOLETE_WRITER_GATE_KIND -> acquire_destructive_operation s uid kind token now = Ok s1 ->
     exists g t0, gate s1 = Some g /\ open_gate uid kind token g t0 /\ (t0 = now \/ gate s = Some g) /\
     (Forall (by_another kind token t0) ops ->
        gate s2 = Some g /\ assert_destructive_operation_transaction s2 uid kind token = Ok tt /\
        forall now', now' < t0 + GATE_STALE_AFTER_SECONDS * 1000000 ->
          (forall issuer, is_ok (place_legal_hold s2 uid issuer true now') = false) /\
          (forall kind' token', (kind', token') <> (kind, token) ->
             is_ok (acquire_destructive_operation s2 uid kind' token' now') = false /\
             is_ok (assert_destructive_operation_transaction s2 uid kind' token') = false) /\
          assert_no_destructive_operation_transaction (gate s2) now' = Raise DestructiveOperationInProgress /\
          is_ok (external_write_fence uid (account s2) (gate s2) now') = false)).
Proof.
  intros Hu s2. assert (String.eqb uid "" = false) as Hne by (apply String.eqb_neq; intros ->; by destruct Hu). split.
  - intros issuer now (_ & _ & _ & Hh & _)%place_ok Hops. pose proof (held_stays uid s1 ops Hh Hops) as Hheld%held_active.
    fold s2 in Hheld. split.
    + intros found ->. unfold assert_account_deletion_permitted. by rewrite Hne.
    + intros kind token now'. unfold assert_destructive_operation_transaction. rewrite Hheld. split; [done|]. intros Hk.
      destruct (acquire_destructive_operation s2 uid kind token now') eqn:Ha; [|done].
      apply acquire_ok in Ha as (_ & _ & _ & Hin & _). specialize (Hin Hk). by rewrite Hheld in Hin.
  - intros kind token now Hk Hacq. pose proof Hacq as (Hh & g & t0 & Hg & Hopen & Hsince)%acquired_open; [|done].
    exists g, t0. split_and!; [done..|]. intros Hops. apply acquire_ok in Hacq as (_ & _ & _ & Hin & _). specialize (Hin Hk). rewrite <- Hh in Hin.
    destruct (open_stays uid kind token g t0 s1 ops Hopen Hk Hg Hin Hops) as [Hg2 Hh2]. fold s2 in Hg2, Hh2.
    pose proof Hopen as [Hv Hrun Hof _]. split_and!; [done| |].
    { unfold assert_destructive_operation_transaction. rewrite Hh2, Hg2, Hv. cbn [rbind lift]. by rewrite Hrun, Hof. }
    intros now' Hnow'. pose proof (open_blocks _ _ _ _ _ now' Hopen Hk Hnow') as Hb. split_and!.
    + intros issuer. destruct (place_legal_hold s2 uid issuer true now') eqn:Hp; [|done].
      apply place_ok in Hp as (_ & _ & _ & _ & g' & Hv' & Hnot). rewrite Hg2 in Hv'. apply validated_same in Hv' as ->.
      destruct (Hnot eq_refl) as [Hb' _]. by rewrite Hb in Hb'.
    + intros kind' token' Hdiff. assert (gate_of g uid kind' token' = false) as Hno.
      { destruct (gate_of g uid kind' token') eqn:Hof'; [|done]. destruct (gate_of_fun _ _ _ _ _ _ Hof Hof') as [-> ->]. by destruct Hdiff. }
      split.
      * destruct (acquire_destructive_operation s2 uid kind' token' now') eqn:Ha; [|done].
        apply acquire_ok in Ha as (_ & _ & _ & _ & [[_ (g' & Hg' & _ & _ & Hof')]|[_ Hnb]]).
        -- rewrite Hg2 in Hg'. injection Hg' as <-. by rewrite Hno in Hof'.
        -- specialize (Hnb g Hg2 Hrun). by rewrite Hb in Hnb.
      * unfold assert_destructive_operation_transaction. rewrite Hh2, Hg2, Hv. cbn [rbind lift]. by rewrite Hno, andb_false_r.
    + unfold assert_no_destructive_operation_transaction. rewrite Hg2, Hv. cbn [rbind]. by rewrite Hb.
    + unfold external_write_fence. rewrite Hne. destruct (account_deletion_blocks_access _); [done|].
      rewrite Hg2, Hv. cbn [rbind lift]. by rewrite Hb.
Qed.

(** An abandoned gate does not block the account: when it is stale, or of the obsolete
    kind, a deletion that no hold forbids takes it over, and who held it before can
    neither finish it nor commit. *)
Theorem abandoned_gate_is_taken_over uid s g kind0 token0 t0 kind token now :
  py_strip uid <> "" -> py_strip kind <> "" -> py_strip token <> "" -> kind <> _OBSOLETE_WRITER_GATE_KIND ->
  gate s = Some g -> open_gate uid kind0 token0 g t0 -> _assert_hold_inactive (hold s) = Ok tt ->
  kind0 = _OBSOLETE_WRITER_GATE_KIND \/ t0 + GATE_STALE_AFTER_SECONDS * 1000000 <= now -> (kind, token) <> (kind0, token0) ->
  exists s1, acquire_destructive_operation s uid kind token now = Ok s1 /\
    assert_destructive_operation_transaction s1 uid kind token = Ok tt /\
    is_ok (assert_destructive_operation_transaction s1 uid kind0 token0) = false /\
    forall outcome now', is_ok (finish_destructive_operation s1 uid kind0 token0 outcome now') = false.
Proof.
  intros Hu Hk Ht Hkind Hg Hopen Hh Hstale Hdiff. pose proof Hopen as [Hv Hrun Hof Hs].
  assert (gate_of g uid kind token = false) as Hno.
  { destruct (gate_of g uid kind token) eqn:Hof'; [|done]. destruct (gate_of_fun _ _ _ _ _ _ Hof Hof') as [-> ->]. by destruct Hdiff. }
  assert (_gate_blocks (Some g) now = false) as Hb.
  { unfold _gate_blocks. rewrite Hs. cbn [as_time]. unfold gate_of in Hof. apply andb_true_iff in Hof as [[_ Hk0%is_str_spec]%andb_true_iff _].
    rewrite Hk0. destruct Hstale as [->|Hle]; [by rewrite andb_false_r|].
    apply andb_false_iff. right. apply Z.ltb_ge. lia. }
  exists {| hold := hold s; gate := Some (opened_gate uid kind token now); account := account s |}.
  pose proof (opened_open uid kind token now Hu Hk Ht) as [Hv1 Hrun1 Hof1 _].
  assert (gate_of (opened_gate uid kind token now) uid kind0 token0 = false) as Hno1.
  { destruct (gate_of (opened_gate uid kind token now) uid kind0 token0) eqn:Hof'; [|done].
    destruct (gate_of_fun _ _ _ _ _ _ Hof1 Hof') as [-> ->]. by destruct Hdiff. }
  split_and!.
  - unfold acquire_destructive_operation. assert (String.eqb uid "" = false) as -> by (apply String.eqb_neq; intros ->; by destruct Hu).
    apply String.eqb_neq in Hk, Ht. rewrite Hk, Ht. cbn [orb]. unfold _acquire_destructive_operation_transaction.
    apply String.eqb_neq in Hkind. rewrite Hkind, Hh, Hg, Hv. cbn [rbind lift]. by rewrite Hrun, Hno, Hb.
  - unfold assert_destructive_operation_transaction. cbn [hold gate]. rewrite Hh, Hv1. cbn [rbind lift]. by rewrite Hrun1, Hof1.
  - unfold assert_destructive_operation_transaction. cbn [hold gate]. rewrite Hh, Hv1. cbn [rbind lift]. by rewrite Hno1, andb_false_r.
  - intros outcome now'. unfold finish_destructive_operation. destruct (negb _); [done|].
    unfold _finish_destructive_operation_transaction. cbn [gate]. rewrite Hv1. cbn [rbind lift]. by rewrite Hno1.
Qed.

(** ** The context manager *)

Lemma finish_own s g uid kind token t0 outcome now :
  gate s = Some g -> open_gate uid kind token g t0 -> outcome ∈ ["failed"; "completed"] ->
  finish_destructive_operation s uid kind token outcome now =
    Ok {| hold := hold s; gate := Some (doc_update g [put_str "state" outcome; put_time "finished_at" now]); account := account s |}.
Proof.
  intros Hg [Hv Hrun Hof _] Ho. unfold finish_destructive_operation. rewrite bool_decide_eq_true_2 by done. cbn [negb].
  unfold _finish_destructive_operation_transaction. rewrite Hg, Hv. cbn [rbind lift]. by rewrite Hof, Hrun.
Qed.

Lemma finished_blocks g outcome now now' :
  outcome ∈ ["failed"; "completed"] -> _gate_blocks (Some (doc_update g [put_str "state" outcome; put_time "finished_at" now])) now' = false.
Proof.
  intros Ho. rewrite !elem_of_cons, elem_of_nil in Ho. unfold _gate_blocks. doc_simpl. by destruct Ho as [-> |[-> |[]]].
Qed.

(** A block under the gate gives it back.  The block runs only with the gate of its
    account open under its own token; when it leaves the gate alone and the provider
    is reached, the gate is closed afterwards with what became of the block, and the
    answer or the error is the block's; a block inside another of the same kind runs
    under the outer token and leaves the gate to it, and one of another kind does not
    run. *)
Theorem gate_is_given_back {E A} uid kind fresh s now finished (body : ActiveGate -> string -> HoldStore -> HoldStore * result E A) :
  py_strip uid <> "" ->
  (forall active_token,
     destructive_operation_gate (Some (uid, kind, active_token)) s uid kind fresh now finished true body =
       let '(s', r) := body (Some (uid, kind, active_token)) active_token s in
       (s', match r with Ok a => Ok a | Raise e => Raise (BodyError e) end)) /\
  (forall u k t, (u, k) <> (uid, kind) -> is_ok (destructive_operation_gate (Some (u, k, t)) s uid kind fresh now finished true body).2 = false /\
     (destructive_operation_gate (Some (u, k, t)) s uid kind fresh now finished true body).1 = s) /\
  match acquire_destructive_operation s uid kind fresh now with
  | Raise e => destructive_operation_gate None s uid kind fresh now finished true body = (s, Raise (AuthorityError e))
  | Ok s1 =>
      let '(s2, r) := body (Some (uid, kind, fresh)) fresh s1 in
      gate s2 = gate s1 ->
      let '(s3, answer) := destructive_operation_gate None s uid kind fresh now finished true body in
      hold s3 = hold s2 /\ (forall now', _gate_blocks (gate s3) now' = false) /\
      py_get (default ∅ (gate s3)) "state" = PStr (if is_ok r then "completed" else "failed") /\
      answer = match r with Ok a => Ok a | Raise e => Raise (BodyError e) end
  end.
Proof.
  intros Hu. split_and!.
  - intros t. unfold destructive_operation_gate. by rewrite !String.eqb_refl.
  - intros u k t Hne. unfold destructive_operation_gate. destruct (String.eqb_spec u uid) as [->|], (String.eqb_spec k kind) as [->|]; cbn; done.
  - destruct (acquire_destructive_operation s uid kind fresh now) as [s1|e] eqn:Ha; [|unfold destructive_operation_gate; by rewrite Ha].
    destruct (body (Some (uid, kind, fresh)) fresh s1) as [s2 r] eqn:Hbody. intros Hsame. unfold destructive_operation_gate. rewrite Ha, Hbody.
    apply acquired_open in Ha as (_ & g & t0 & Hg & Hopen & _); [|done]. rewrite Hg in Hsame.
    destruct r as [a|e].
    + rewrite (finish_own s2 g uid kind fresh t0) by (done || set_solver). cbn [hold gate]. split_and!; [done| | |done].
      * intros now'. apply finished_blocks. set_solver.
      * cbn [default]. unfold id. by doc_simpl.
    + rewrite (finish_own s2 g uid kind fresh t0) by (done || set_solver). cbn [hold gate]. split_and!; [done| | |done].
      * intros now'. apply finished_blocks. set_solver.
      * cbn [default]. unfold id. by doc_simpl.
Qed.

(** ** Concrete histories *)

Definition no_documents : HoldStore := {| hold := None; gate := None; account := None |}.
Definition hour : Z := 3600 * 1000000.
Definition wipe_token : string := "account-deletion:u".

Definition ok_store (m : result HoldError HoldStore) : HoldStore := match m with Ok s => s | Raise _ => no_documents end.

Definition ok_store_of (m : result HoldError HoldStore) : is_ok m = true -> m = Ok (ok_store m).
Proof. by destruct m. Defined.

(** The wipe of an account begins, stops without finishing its gate, and begins again
    after the gate became stale: the second acquisition finds its own gate and leaves
    its start as it was, so a hold can be placed while the wipe goes on. *)
Definition stale_wipe : HoldStore :=
  history "u" no_documents [Acquire "account_deletion" wipe_token 0; Acquire "account_deletion" wipe_token (7 * hour)].

Lemma reacquired_gate_lets_a_hold_in :
  is_ok (acquire_destructive_operation stale_wipe "u" "account_deletion" wipe_token (7 * hour)) = true /\
  is_ok (place_legal_hold stale_wipe "u" "admin" true (7 * hour + 1)) = true /\
  is_ok (acquire_destructive_operation stale_wipe "u" "explicit_memory_deletion" "other" (7 * hour + 1)) = true.
Proof. vm_compute. done. Qed.

Definition held_store : HoldStore := ok_store (place_legal_hold no_documents "u" "admin" true 0).
Definition wiping_store : HoldStore := ok_store (acquire_destructive_operation no_documents "u" "account_deletion" wipe_token 0).

Lemma hold_and_deletion_exclude_each_other_witness :
  is_ok (acquire_destructive_operation (history "u" held_store [Acquire "account_deletion" wipe_token 5]) "u" "account_deletion" wipe_token 10) = false /\
  is_ok (place_legal_hold (history "u" wiping_store [Acquire "explicit_memory_deletion" "other" 5]) "u" "admin" true 10) = false.
Proof.
  split.
  - destruct (hold_and_deletion_exclude_each_other "u" no_documents held_store [Acquire "account_deletion" wipe_token 5]) as [Hheld _]; [done|].
    destruct (Hheld "admin" 0) as [_ H]; [apply ok_store_of; by vm_compute|by repeat constructor|].
    by apply (H "account_deletion" wipe_token 10).
  - destruct (hold_and_deletion_exclude_each_other "u" no_documents wiping_store [Acquire "explicit_memory_deletion" "other" 5]) as [_ Hwipe]; [done|].
    destruct (Hwipe "account_deletion" wipe_token 0) as (g & t0 & _ & _ & [->|Hnone] & H); [done|apply ok_store_of; by vm_compute| |done].
    destruct H as (_ & _ & H); [by repeat constructor|]. by apply (H 10).
Defined.

Lemma abandoned_gate_is_taken_over_witness :
  exists s1, acquire_destructive_operation wiping_store "u" "explicit_memory_deletion" "other" (7 * hour) = Ok s1 /\
    is_ok (assert_destructive_operation_transaction s1 "u" "account_deletion" wipe_token) = false.
Proof.
  destruct (abandoned_gate_is_taken_over "u" wiping_store (opened_gate "u" "account_deletion" wipe_token 0) "account_deletion" wipe_token 0
              "explicit_memory_deletion" "other" (7 * hour)) as (s1 & Ha & _ & Hold & _); [done..|by apply opened_open|done|right; by vm_compute|done|].
  by exists s1.
Defined.

Lemma gate_is_given_back_witness :
  exists s1, acquire_destructive_operation no_documents "u" "k" "t" 0 = Ok s1 /\
    (destructive_operation_gate None no_documents "u" "k" "t" 0 1 true (fun _ _ s => (s, @Ok unit Z 7))).2 = Ok 7.
Proof.
  destruct (gate_is_given_back "u" "k" "t" no_documents 0 1 (fun _ _ s => (s, @Ok unit Z 7))) as (_ & _ & H); [done|].
  exists (ok_store (acquire_destructive_operation no_documents "u" "k" "t" 0)).
  assert (acquire_destructive_operation no_documents "u" "k" "t" 0 = Ok (ok_store (acquire_destructive_operation no_documents "u" "k" "t" 0))) as Ha
    by (apply ok_store_of; by vm_compute).
  split; [done|]. rewrite Ha in H. specialize (H eq_refl). destruct (destructive_operation_gate _ _ _ _ _ _ _ _ _) as [s3 answer].
  by destruct H as (_ & _ & _ & ->).
Defined.
