(* ===== verification/LoopCollapse.v ===== *)
(** Decoding loops of the speech model ([collapse_decoder_loops] of
    [utils/stt/window_anchor.py]): a phrase that is repeated three times or more in
    a row is collapsed to one copy.

    A text is the list of its code points; the classes of [split] and of [\w], and
    [lower], are parameters. *)
From S2P Require Export Prelude.
From S2P Require TranscriptSegments.

Definition LOOP_MIN_REPEATS : nat := 3.
Definition LOOP_MAX_NGRAM : nat := 6.
Definition APOSTROPHE : Z := 39.

(** [l[a:b]] and [del l[a:b]] *)
Definition slice {A} (l : list A) (a b : nat) : list A := take (b - a) (drop a l).
Definition del_range {A} (l : list A) (a b : nat) : list A := take a l ++ drop b l.

Section Collapse.
Context (isspace isword : Z -> bool) (lower : list Z -> list Z).

(** [text.split()] *)
Fixpoint split_words (cur t : list Z) : list (list Z) :=
  match t with
  | [] => if TranscriptSegments.nonempty cur then [cur] else []
  | c :: r => if isspace c then (if TranscriptSegments.nonempty cur then [cur] else []) ++ split_words [] r else split_words (cur ++ [c]) r
  end.

Definition _loop_key (token : list Z) : list Z := List.filter (fun c => isword c || (c =? APOSTROPHE)) (lower token).

(** A token with its key; the two lists of the code are cut alike. *)
Abbreviation Token := (list Z * list Z)%type.

(** The copies of the phrase at [i] from the [reps]-th on. *)
Fixpoint count_reps (fuel : nat) (keys : list (list Z)) (i n reps : nat) : nat :=
  match fuel with
  | O => reps
  | S fuel' =>
      if bool_decide (slice keys (i + reps * n) (i + (reps + 1) * n) = slice keys i (i + n))
      then count_reps fuel' keys i n (S reps) else reps
  end.

(** The inner loop: the tokens, how many runs were collapsed, whether any was. *)
Fixpoint scan (fuel n i : nat) (ts : list Token) (collapsed : nat) (changed : bool) : list Token * nat * bool :=
  match fuel with
  | O => (ts, collapsed, changed)
  | S fuel' =>
      if (i + 2 * n <=? length ts)%nat then
        let reps := count_reps (length ts) ts.*2 i n 1 in
        if (LOOP_MIN_REPEATS <=? reps)%nat && existsb TranscriptSegments.nonempty (slice ts.*2 i (i + n))
        then scan fuel' n (S i) (del_range ts (i + n) (i + reps * n)) (S collapsed) true
        else scan fuel' n (S i) ts collapsed changed
      else (ts, collapsed, changed)
  end.

(** [range(LOOP_MAX_NGRAM, 1, -1)] *)
Definition phrase_lengths : list nat := [6; 5; 4; 3; 2]%nat.

Definition pass (ts : list Token) (collapsed : nat) : list Token * nat * bool :=
  foldl (fun '(ts, collapsed, changed) n => scan (S (length ts)) n 0 ts collapsed changed) (ts, collapsed, false) phrase_lengths.

(** [while changed]; [None] when the fuel does not last. *)
Fixpoint collapse_loop (fuel : nat) (ts : list Token) (collapsed : nat) : option (list Token * nat) :=
  match fuel with
  | O => None
  | S fuel' =>
      let '(ts', collapsed', changed) := pass ts collapsed in
      if (changed : bool) then collapse_loop fuel' ts' collapsed' else Some (ts', collapsed')
  end.

Definition tokens_of (t : list Z) : list Token := (fun w => (w, _loop_key w)) <$> split_words [] t.

Definition collapse_decoder_loops (t : list Z) : option (list Z * nat) :=
  let ts := tokens_of t in
  match collapse_loop (S (length ts)) ts 0 with
  | Some (ts', collapsed) => Some (if (0 <? collapsed)%nat then (TranscriptSegments.join_spaced ts'.*1, collapsed) else (t, 0%nat))
  | None => None
  end.

(** ** What a run is *)

(** A phrase of two to six tokens, not all without a key, followed by two copies of
    it or more, and the same with the copies gone. *)
Inductive collapse_step : list Token -> list Token -> Prop :=
| collapse_run a u copies b k :
    (2 <= length u <= LOOP_MAX_NGRAM)%nat -> existsb TranscriptSegments.nonempty u.*2 = true ->
    (2 <= k)%nat -> copies.*2 = concat (replicate k u.*2) ->
    collapse_step (a ++ u ++ copies ++ b) (a ++ u ++ b).

Definition has_run (ts : list Token) : Prop := exists ts', collapse_step ts ts'.

(** ** Lists *)

Lemma slice_app {A} (a u b : list A) : slice (a ++ u ++ b) (length a) (length a + length u) = u.
Proof. unfold slice. rewrite drop_app_length. replace (length a + length u - length a)%nat with (length u) by lia. by rewrite take_app_length. Qed.

Lemma slice_fmap {A B} (f : A -> B) l a b : slice (f <$> l) a b = f <$> slice l a b.
Proof. unfold slice. by rewrite fmap_take, fmap_drop. Qed.

Lemma slice_length {A} (l : list A) a b : (b <= length l)%nat -> length (slice l a b) = (b - a)%nat.
Proof. intros. unfold slice. rewrite length_take, length_drop. lia. Qed.

Lemma slice_full {A} (l : list A) a n : length (slice l a (a + n)) = n -> (n = 0 \/ a + n <= length l)%nat.
Proof. unfold slice. rewrite length_take, length_drop. lia. Qed.

Lemma slice_split {A} (l : list A) a b c : (a <= b <= c)%nat -> slice l a c = slice l a b ++ slice l b c.
Proof.
  intros Hle. unfold slice. replace (c - a)%nat with ((b - a) + (c - b))%nat by lia.
  rewrite <- take_take_drop, drop_drop. by replace (a + (b - a))%nat with b by lia.
Qed.

Lemma cut_at {A} (l : list A) a b : (a <= b)%nat -> l = take a l ++ slice l a b ++ drop b l.
Proof.
  intros Hle. unfold slice. rewrite <- (take_drop a l) at 1. f_equal. rewrite <- (take_drop (b - a) (drop a l)) at 1. f_equal.
  rewrite drop_drop. f_equal. lia.
Qed.

(** ** Counting copies *)

Lemma count_reps_copies fuel keys i n reps j :
  (forall j, (1 <= j < reps)%nat -> slice keys (i + j * n) (i + (j + 1) * n) = slice keys i (i + n)) ->
  (1 <= j < count_reps fuel keys i n reps)%nat -> slice keys (i + j * n) (i + (j + 1) * n) = slice keys i (i + n).
Proof.
  revert reps. induction fuel as [|fuel IH]; intros reps Hall; cbn [count_reps]; [apply Hall|].
  case_bool_decide as Heq; [|apply Hall]. apply IH. intros j' Hj'. destruct (decide (j' = reps)) as [->|]; [done|]. apply Hall. lia.
Qed.

Lemma count_reps_ends fuel keys i n reps :
  (1 <= n)%nat -> (length keys < reps + fuel)%nat -> length (slice keys i (i + n)) = n -> 
  slice keys (i + count_reps fuel keys i n reps * n) (i + (count_reps fuel keys i n reps + 1) * n) <> slice keys i (i + n).
Proof.
  intros Hn Hfuel Hlen. revert reps Hfuel. induction fuel as [|fuel IH]; intros reps Hfuel; cbn [count_reps].
  - intros Heq. apply (f_equal length) in Heq. rewrite Hlen in Heq.
    replace (i + (reps + 1) * n)%nat with (i + reps * n + n)%nat in Heq by lia. apply slice_full in Heq. nia.
  - case_bool_decide; [|done]. apply IH. lia.
Qed.

Lemma count_reps_ge fuel keys i n reps : (reps <= count_reps fuel keys i n reps)%nat.
Proof. revert reps. induction fuel as [|fuel IH]; intros reps; cbn [count_reps]; [done|]. case_bool_decide; [specialize (IH (S reps)); lia|done]. Qed.

Lemma copies_concat (keys : list (list Z)) i n r :
  (forall j, (1 <= j < S r)%nat -> slice keys (i + j * n) (i + (j + 1) * n) = slice keys i (i + n)) ->
  slice keys (i + n) (i + S r * n) = concat (replicate r (slice keys i (i + n))).
Proof.
  induction r as [|r IH]; intros Hall.
  - unfold slice at 1. replace (i + 1 * n - (i + n))%nat with 0%nat by lia. done.
  - rewrite (slice_split keys (i + n) (i + S r * n)) by nia. rewrite IH by (intros j Hj; apply Hall; lia).
    replace (i + S (S r) * n)%nat with (i + (S r + 1) * n)%nat by lia. rewrite (Hall (S r)) by lia.
    rewrite replicate_S_end, concat_app. cbn. by rewrite app_nil_r.
Qed.

(** ** Scanning *)

Definition phrase_length (n : nat) : Prop := (2 <= n <= LOOP_MAX_NGRAM)%nat.

(** Three copies at a place. *)
Definition run_at (ts : list Token) (i n : nat) : Prop :=
  (i + 3 * n <= length ts)%nat /\ slice ts.*2 (i + n) (i + 2 * n) = slice ts.*2 i (i + n) /\
  slice ts.*2 (i + 2 * n) (i + 3 * n) = slice ts.*2 i (i + n) /\ existsb TranscriptSegments.nonempty (slice ts.*2 i (i + n)) = true.

Lemma run_found ts : has_run ts -> exists i n, phrase_length n /\ run_at ts i n.
Proof.
  intros [ts' H]. destruct H as [a u copies b k Hu Hne Hk Hc]. exists (length a), (length u). split; [done|].
  destruct k as [|[|k]]; [lia..|]. cbn [replicate concat] in Hc.
  assert (exists c1 c2 c3, copies = c1 ++ c2 ++ c3 /\ c1.*2 = u.*2 /\ c2.*2 = u.*2) as (c1 & c2 & c3 & -> & H1 & H2).
  { apply fmap_app_inv in Hc as (c1 & r & H1 & Hc & ->). symmetry in Hc.
    apply fmap_app_inv in Hc as (c2 & c3 & H2 & _ & ->). by exists c1, c2, c3. }
  pose proof (f_equal length H1) as L1. pose proof (f_equal length H2) as L2. rewrite !length_fmap in L1, L2.
  assert (forall x y z : list Token, slice (x ++ y ++ z).*2 (length x) (length x + length y) = y.*2) as Hslice.
  { intros x y z. rewrite slice_fmap. f_equal. apply slice_app. }
  assert (slice (a ++ u ++ (c1 ++ c2 ++ c3) ++ b).*2 (length a) (length a + length u) = u.*2) as Hu0 by apply Hslice.
  unfold run_at. rewrite Hu0. split_and!.
  - rewrite !length_app. lia.
  - pose proof (Hslice (a ++ u) c1 (c2 ++ c3 ++ b)) as H. rewrite length_app, L1 in H. rewrite <- !app_assoc in H. rewrite <- !app_assoc.
    replace (length a + 2 * length u)%nat with (length a + length u + length u)%nat by lia. by rewrite H.
  - pose proof (Hslice (a ++ u ++ c1) c2 (c3 ++ b)) as H. rewrite !length_app, L1, L2 in H. rewrite <- !app_assoc in H. rewrite <- !app_assoc.
    replace (length a + 2 * length u)%nat with (length a + (length u + length u))%nat by lia.
    replace (length a + 3 * length u)%nat with (length a + (length u + length u) + length u)%nat by lia. by rewrite H.
  - done.
Qed.

(** Three copies are counted. *)
Lemma run_counted ts i n : phrase_length n -> run_at ts i n -> (LOOP_MIN_REPEATS <= count_reps (length ts) ts.*2 i n 1)%nat.
Proof.
  intros [Hn _] (Hlen & H1 & H2 & _).
  pose proof (count_reps_ge (length ts) ts.*2 i n 1) as Hge.
  pose proof (count_reps_ends (length ts) ts.*2 i n 1) as Hends. rewrite length_fmap in Hends.
  specialize (Hends ltac:(lia) ltac:(lia)). rewrite slice_length in Hends by (rewrite length_fmap; lia). specialize (Hends ltac:(lia)).
  unfold LOOP_MIN_REPEATS. destruct (count_reps (length ts) ts.*2 i n 1) as [|[|[|r]]]; [lia|..|lia]; exfalso; apply Hends.
  - rewrite <- H1. f_equal; lia.
  - rewrite <- H2. f_equal; lia.
Qed.

Lemma collapsed_step ts i n :
  phrase_length n -> (i + 2 * n <= length ts)%nat ->
  let reps := count_reps (length ts) ts.*2 i n 1 in
  (LOOP_MIN_REPEATS <= reps)%nat -> existsb TranscriptSegments.nonempty (slice ts.*2 i (i + n)) = true ->
  collapse_step ts (del_range ts (i + n) (i + reps * n)).
Proof.
  intros Hn Hlen reps Hreps Hne. destruct reps as [|[|r]] eqn:Er; [unfold LOOP_MIN_REPEATS in Hreps; lia..|].
  assert (forall j, (1 <= j < reps)%nat -> slice ts.*2 (i + j * n) (i + (j + 1) * n) = slice ts.*2 i (i + n)) as Hall.
  { intros j Hj. apply (count_reps_copies (length ts) ts.*2 i n 1); [lia|exact Hj]. }
  rewrite Er in Hall. pose proof (copies_concat ts.*2 i n (S r) Hall) as Hc. unfold LOOP_MIN_REPEATS in Hreps.
  assert (ts = take i ts ++ slice ts i (i + n) ++ slice ts (i + n) (i + S (S r) * n) ++ drop (i + S (S r) * n) ts) as Hcut.
  { rewrite (app_assoc (slice ts i (i + n))), <- slice_split by lia. apply cut_at. lia. }
  assert (del_range ts (i + n) (i + S (S r) * n) = take i ts ++ slice ts i (i + n) ++ drop (i + S (S r) * n) ts) as ->.
  { unfold del_range, slice. rewrite (app_assoc (take i ts)), take_take_drop. f_equal. f_equal. lia. }
  rewrite Hcut at 1. apply (collapse_run _ _ _ _ (S r)).
  - destruct Hn. unfold LOOP_MAX_NGRAM in *. rewrite slice_length by lia. lia.
  - by rewrite <- slice_fmap.
  - lia.
  - by rewrite <- !slice_fmap.
Qed.

(** A scan does steps, as many as it counts, and says whether there were any. *)
Lemma scan_steps fuel n i ts collapsed changed :
  phrase_length n ->
  exists k, nsteps collapse_step k ts (scan fuel n i ts collapsed changed).1.1 /\
    (scan fuel n i ts collapsed changed).1.2 = (collapsed + k)%nat /\
    (scan fuel n i ts collapsed changed).2 = changed || (0 <? k)%nat.
Proof.
  intros Hn. assert (exists k, nsteps collapse_step k ts ts /\ collapsed = (collapsed + k)%nat /\ changed = changed || (0 <? k)%nat) as Hstop.
  { exists 0%nat. split_and!; [constructor|lia|by rewrite orb_false_r]. }
  revert i ts collapsed changed Hstop. induction fuel as [|fuel IH]; intros i ts collapsed changed Hstop; cbn [scan]; [done|].
  destruct (Nat.leb_spec (i + 2 * n) (length ts)) as [Hle|]; [|done].
  destruct ((LOOP_MIN_REPEATS <=? _)%nat && _) eqn:Hrun; [|by apply IH].
  apply andb_true_iff in Hrun as [Hreps%Nat.leb_le Hne].
  edestruct (IH (S i) (del_range ts (i + n) (i + count_reps (length ts) ts.*2 i n 1 * n)) (S collapsed) true) as (k & Hk & Hc & Hch).
  { exists 0%nat. split_and!; [constructor|lia|done]. }
  exists (S k). split_and!.
  - eapply nsteps_l; [by apply collapsed_step|done].
  - rewrite Hc. lia.
  - rewrite Hch. cbn. by rewrite orb_true_r.
Qed.

(** A scan that changes nothing found no run. *)
Lemma scan_quiet fuel n i ts collapsed :
  phrase_length n -> (length ts < fuel + i)%nat -> (scan fuel n i ts collapsed false).2 = false ->
  (scan fuel n i ts collapsed false).1.1 = ts /\ forall j, (i <= j)%nat -> ~ run_at ts j n.
Proof.
  intros Hn. revert i. induction fuel as [|fuel IH]; intros i Hfuel; cbn [scan].
  - intros _. split; [done|]. intros j Hj (Hlen & _). lia.
  - destruct (Nat.leb_spec (i + 2 * n) (length ts)) as [Hle|Hgt].
    + destruct ((LOOP_MIN_REPEATS <=? _)%nat && _) eqn:Hrun.
      * destruct (scan_steps fuel n (S i) (del_range ts (i + n) (i + count_reps (length ts) ts.*2 i n 1 * n)) (S collapsed) true Hn) as (k & _ & _ & ->).
        done.
      * intros Hq. destruct (IH (S i) ltac:(lia) Hq) as [-> Hno]. split; [done|]. intros j Hj Hat.
        destruct (decide (j = i)) as [->|]; [|apply (Hno j); [lia|done]].
        pose proof (run_counted ts i n Hn Hat) as Hc. destruct Hat as (_ & _ & _ & Hne). apply Nat.leb_le in Hc. by rewrite Hc, Hne in Hrun.
    + intros _. split; [done|]. intros j Hj (Hlen & _). lia.
Qed.

Lemma passes_spec ns ts collapsed changed :
  Forall phrase_length ns ->
  let out := foldl (fun '(ts, collapsed, changed) n => scan (S (length ts)) n 0 ts collapsed changed) (ts, collapsed, changed) ns in
  (exists k, nsteps collapse_step k ts out.1.1 /\ out.1.2 = (collapsed + k)%nat /\ out.2 = changed || (0 <? k)%nat) /\
  (out.2 = false -> out.1.1 = ts /\ forall n j, n ∈ ns -> ~ run_at ts j n).
Proof.
  intros Hns. revert ts collapsed changed. induction Hns as [|n ns Hn _ IH]; intros ts collapsed changed; cbn [foldl].
  - cbn. split; [exists 0%nat; split_and!; [constructor|lia|by rewrite orb_false_r]|]. intros _. split; [done|]. by intros n j ?%not_elem_of_nil.
  - destruct (scan_steps (S (length ts)) n 0 ts collapsed changed Hn) as (k & Hk & Hc & Hch).
    pose proof (scan_quiet (S (length ts)) n 0 ts collapsed Hn ltac:(lia)) as Hquiet.
    destruct (scan (S (length ts)) n 0 ts collapsed changed) as [[ts1 c1] ch1] eqn:Hscan. cbn [fst snd] in *.
    destruct (IH ts1 c1 ch1) as [(k' & Hk' & Hc' & Hch') Hno]. split.
    + exists (k + k')%nat. split_and!; [by eapply nsteps_trans|rewrite Hc', Hc; lia|].
      rewrite Hch', Hch, <- orb_assoc. f_equal. by destruct k, k'.
    + intros Hout. destruct (Hno Hout) as [Hts Hruns]. rewrite Hch' in Hout. apply orb_false_iff in Hout as [-> _].
      symmetry in Hch. apply orb_false_iff in Hch as [-> _]. rewrite Hscan in Hquiet. cbn [fst snd] in Hquiet. destruct (Hquiet eq_refl) as [-> Hq].
      split; [done|]. intros n' j [->|?]%elem_of_cons; [apply Hq; lia|by apply Hruns].
Qed.

Lemma step_shrinks ts ts' : collapse_step ts ts' -> (length ts' < length ts)%nat.
Proof.
  intros [a u copies b k Hu _ Hk Hc]. apply (f_equal length) in Hc. rewrite length_fmap in Hc.
  destruct k as [|[|k]]; [lia..|]. cbn [replicate concat] in Hc. rewrite !length_app, length_fmap in Hc. rewrite !length_app. lia.
Qed.

Lemma steps_shrink k ts ts' : nsteps collapse_step k ts ts' -> (length ts' + k <= length ts)%nat.
Proof. induction 1 as [|k x y z Hs _ IH]; [lia|]. apply step_shrinks in Hs. lia. Qed.

Lemma phrases_are_lengths : Forall phrase_length phrase_lengths.
Proof. repeat constructor; unfold LOOP_MAX_NGRAM; lia. Qed.

Lemma all_phrases n : phrase_length n -> n ∈ phrase_lengths.
Proof.
  intros [Hlo Hhi]. unfold LOOP_MAX_NGRAM in Hhi. unfold phrase_lengths. rewrite !elem_of_cons. lia.
Qed.

Lemma collapse_loop_ends fuel ts collapsed :
  (length ts < fuel)%nat ->
  exists ts' k, collapse_loop fuel ts collapsed = Some (ts', (collapsed + k)%nat) /\ nsteps collapse_step k ts ts' /\ ~ has_run ts'.
Proof.
  revert ts collapsed. induction fuel as [|fuel IH]; intros ts collapsed Hfuel; [lia|]. cbn [collapse_loop]. unfold pass.
  destruct (passes_spec phrase_lengths ts collapsed false phrases_are_lengths) as [(k & Hk & Hc & Hch) Hno].
  destruct (foldl _ _ _) as [[ts1 c1] ch1]. cbn [fst snd] in *. destruct ch1.
  - assert (k <> 0%nat) as Hne by (intros ->; done). apply steps_shrink in Hk as Hlen.
    destruct (IH ts1 c1 ltac:(lia)) as (ts' & k' & Hl & Hk' & Hrun). exists ts', (k + k')%nat. split_and!; [|by eapply nsteps_trans|done].
    rewrite Hl, Hc. do 2 f_equal. lia.
  - destruct (Hno eq_refl) as [-> Hruns]. exists ts, 0%nat. split_and!; [|constructor|].
    + rewrite Hc. symmetry in Hch. apply Nat.ltb_ge in Hch. do 2 f_equal. lia.
    + intros (i & n & Hn & Hat)%run_found. by eapply Hruns; [apply all_phrases|].
Qed.

(** ** Words and texts *)

Definition solid (w : list Z) : Prop := w <> [] /\ Forall (fun c => isspace c = false) w.

Lemma split_words_solid cur t : Forall (fun c => isspace c = false) cur -> Forall solid (split_words cur t).
Proof.
  revert cur. induction t as [|c t IH]; intros cur Hcur; cbn [split_words].
  - destruct cur; cbn; [constructor|]. by apply Forall_singleton.
  - destruct (isspace c) eqn:Hc; [|apply IH; apply Forall_app; split; [done|by repeat constructor]].
    apply Forall_app. split; [|by apply IH]. destruct cur; cbn; [constructor|]. by apply Forall_singleton.
Qed.

Lemma split_words_app cur w t : Forall (fun c => isspace c = false) w -> split_words cur (w ++ t) = split_words (cur ++ w) t.
Proof.
  intros Hw. revert cur. induction Hw as [|c w Hc _ IH]; intros cur; cbn; [by rewrite app_nil_r|]. rewrite Hc, IH, <- app_assoc. done.
Qed.

Lemma split_joined ws : isspace TranscriptSegments.SPACE = true -> Forall solid ws -> split_words [] (TranscriptSegments.join_spaced ws) = ws.
Proof.
  intros Hsp. induction 1 as [|w ws [Hne Hw] Hws IH]; [done|]. cbn [TranscriptSegments.join_spaced]. destruct ws as [|w' ws].
  - rewrite <- (app_nil_r w) at 1. rewrite split_words_app by done. cbn. by destruct w.
  - rewrite split_words_app by done. cbn [app split_words]. rewrite Hsp, IH. by destruct w.
Qed.

Definition token_sound (tk : Token) : Prop := solid tk.1 /\ tk.2 = _loop_key tk.1.

Lemma tokens_sound t : Forall token_sound (tokens_of t).
Proof.
  apply Forall_fmap, Forall_forall. intros w Hw. split; [|done].
  pose proof (split_words_solid [] t (Forall_nil_2 _)) as H. rewrite Forall_forall in H. by apply H.
Qed.

Lemma steps_sound k ts ts' : nsteps collapse_step k ts ts' -> Forall token_sound ts -> Forall token_sound ts'.
Proof.
  induction 1 as [|k x y z Hs _ IH]; [done|]. intros Hx. apply IH. destruct Hs as [a u copies b n _ _ _ _].
  rewrite !Forall_app in *. naive_solver.
Qed.

Lemma tokens_of_joined ts : isspace TranscriptSegments.SPACE = true -> Forall token_sound ts -> tokens_of (TranscriptSegments.join_spaced ts.*1) = ts.
Proof.
  intros Hsp Hts. unfold tokens_of. rewrite split_joined; [|done|].
  - rewrite <- list_fmap_compose. rewrite <- (list_fmap_id ts) at 2. apply list_fmap_ext. intros i tk Hi. cbn.
    rewrite Forall_forall in Hts. destruct (Hts tk) as [_ Hk]; [by eapply list_elem_of_lookup_2|]. destruct tk. cbn in *. by rewrite Hk.
  - apply Forall_fmap. eapply Forall_impl; [done|]. by intros tk [? _].
Qed.

(** C33: collapsing the decoding loops of a text ends, for every text and however the
    runs nest.  The tokens that remain come from those of the text by replacing runs, a
    phrase of two to six tokens said three times or more, by one copy, as many times as
    it counts; no run remains; a text without a run is handed back as it was; and
    collapsing again changes nothing. *)
Theorem collapse_leaves_no_loop t :
  isspace TranscriptSegments.SPACE = true ->
  exists ts k, nsteps collapse_step k (tokens_of t) ts /\ ~ has_run ts /\
    let out := if (0 <? k)%nat then TranscriptSegments.join_spaced ts.*1 else t in
    collapse_decoder_loops t = Some (out, k) /\ tokens_of out = ts /\ collapse_decoder_loops out = Some (out, 0%nat) /\
    (k = 0%nat <-> ~ has_run (tokens_of t)).
Proof.
  intros Hsp. destruct (collapse_loop_ends (S (length (tokens_of t))) (tokens_of t) 0 ltac:(lia)) as (ts & k & Hl & Hk & Hrun).
  exists ts, k. split_and!; [done..|]. intros out.
  assert (tokens_of out = ts) as Hout.
  { subst out. destruct k as [|k]; cbn; [by inversion Hk|]. apply tokens_of_joined; [done|]. eapply steps_sound; [done|apply tokens_sound]. }
  split_and!.
  - unfold collapse_decoder_loops. rewrite Hl. cbn [plus]. unfold out. clear. by destruct k.
  - done.
  - unfold collapse_decoder_loops. rewrite Hout.
    destruct (collapse_loop_ends (S (length ts)) ts 0 ltac:(lia)) as (ts2 & k2 & Hl2 & Hk2 & _). rewrite Hl2.
    destruct k2 as [|k2]; [done|]. inversion Hk2 as [|? ? y ? Hstep]. destruct Hrun. by exists y.
  - split.
    + intros Hk0. rewrite Hk0 in Hk. assert (tokens_of t = ts) as -> by (clear - Hk; by inversion Hk). exact Hrun.
    + intros Hno. clear - Hk Hno. destruct k as [|k]; [done|]. inversion Hk as [|? ? y ? Hstep]. destruct Hno. by exists y.
Qed.
End Collapse.

(** On a text: a phrase said three times between other words. *)
Definition blank_at (c : Z) : bool := c =? 32.
Definition letter (c : Z) : bool := (97 <=? c) && (c <=? 122).
Definition said : list Z := [104; 105; 32; 97; 32; 98; 32; 97; 32; 98; 32; 97; 32; 98; 32; 104; 105].

Lemma collapse_leaves_no_loop_witness :
  collapse_decoder_loops blank_at letter id said = Some ([104; 105; 32; 97; 32; 98; 32; 104; 105], 1%nat) /\
  collapse_decoder_loops blank_at letter id [104; 105; 32; 97; 32; 98; 32; 104; 105] = Some ([104; 105; 32; 97; 32; 98; 32; 104; 105], 0%nat).
Proof.
  assert (collapse_decoder_loops blank_at letter id said = Some ([104; 105; 32; 97; 32; 98; 32; 104; 105], 1%nat)) as H by (vm_compute; done).
  split; [done|]. destruct (collapse_leaves_no_loop blank_at letter id said eq_refl) as (ts & k & _ & _ & Hc & _ & Hagain & _).
  rewrite H in Hc. injection Hc as Hout Hk. rewrite <- Hout in Hagain. exact Hagain.
Defined.
