(* ===== verification/LiveWindow.v ===== *)
(** Live transcription windows ([utils/stt/parakeet_window.py] and
    [utils/stt/window_anchor.py]): audio is buffered from an anchor on, windows of it
    are posted, and the anchor moves behind what was emitted.

    Positions count bytes from the start of the session; seconds are exact rationals.
    The clock and the answers of the speech service are arguments; what a session
    emits is modelled by its times and texts. *)
From Stdlib Require Import Qround.
From S2P Require Export LoopCollapse.
From S2P Require TranscriptSegments.

(** ** Segments and decisions ([window_anchor.py]) *)

Record RawSegment : Type := { raw_text : list Z; raw_start : Q; raw_end : Q }.
Record WindowDecision : Type := { emit : list RawSegment; new_anchor : option Q; forced_cut : bool }.

Definition PACE_MIN_SECONDS : Q := 1.
Definition PACE_MAX_SECONDS : Q := 15.
Definition MAX_CONTEXT_MIN_SECONDS : Q := 6.
Definition MAX_CONTEXT_MAX_SECONDS : Q := 30.
Definition LEAD_IN_SECONDS : Q := 3 # 10.
Definition SILENCE_FLUSH_SECONDS : Q := 3 # 2.
Definition IDLE_FLUSH_SECONDS : Q := 2.
Definition TRAILING_COMPLETE_GAP_SECONDS : Q := 6 # 5.
Definition TERMINAL_PUNCTUATION : list Z := [46; 63; 33].
Definition EMPTY_CAP_SLIDE_SECONDS : Q := 6.
Definition HEAD_RECOVERY_MIN_GAP_SECONDS : Q := 3.
Definition HEAD_RECOVERY_MIN_SPEECH_SECONDS : Q := 2.

Definition Qminb (a b : Q) : Q := if Qle_bool a b then a else b.
Definition Qmaxb (a b : Q) : Q := if Qle_bool a b then b else a.

Definition clamp_pace_seconds (v : Q) : Q := Qminb PACE_MAX_SECONDS (Qmaxb PACE_MIN_SECONDS v).
Definition clamp_max_context_seconds (v : Q) : Q := Qminb MAX_CONTEXT_MAX_SECONDS (Qmaxb MAX_CONTEXT_MIN_SECONDS v).
Definition buffer_cap_seconds (pace max_context : Q) : Q := (2 * max_context + 2 * pace)%Q.

Section Windows.
Context (isspace : Z -> bool) (sample_rate : Z) (pace_seconds max_context_seconds : Q).

(** [segment.text.rstrip()[-1:] in '.?!'], which the empty text satisfies. *)
Definition is_terminal_sentence (s : RawSegment) : bool :=
  match TranscriptSegments.drop_space isspace (reverse (raw_text s)) with
  | [] => true
  | c :: _ => bool_decide (c ∈ TERMINAL_PUNCTUATION)
  end.

Definition is_trailing_complete (s : RawSegment) (duration : Q) : bool :=
  if negb (Qle_bool TRAILING_COMPLETE_GAP_SECONDS (duration - raw_end s)) then false else is_terminal_sentence s.

Definition _held_emit (segments : list RawSegment) (duration : Q) (pause : bool) : list RawSegment :=
  match last segments with
  | None => []
  | Some l =>
      if (if pause then is_terminal_sentence l else is_trailing_complete l duration) then segments
      else removelast segments
  end.

Definition decision (e : list RawSegment) (a : option Q) (cut : bool) : WindowDecision :=
  {| emit := e; new_anchor := a; forced_cut := cut |}.

Definition decide_window (segments : list RawSegment) (duration : Q) (force pause : bool) (empty_cap_slide : Q) : WindowDecision :=
  let at_cap := Qle_bool max_context_seconds duration in
  if force then decision segments (Some duration) false else
  let e := _held_emit segments duration pause in
  if at_cap then
    match segments with
    | [] => let slide := Qminb (Qmaxb 0 empty_cap_slide) duration in
            decision [] (if Qle_bool slide 0 then None else Some slide) true
    | [only] => decision [only] (Some (raw_end only)) true
    | _ => decision e (raw_end <$> last e) false
    end
  else match segments with [] => decision [] None false | _ => decision e (raw_end <$> last e) false end.

(** ** The buffer *)

Record Window : Type := {
  buf : list Z;
  received_bytes : Z;
  speech_spans : list (Z * Z);
  anchor_bytes : Z;
  now_bytes : Z;
  last_post_anchor : Z;
  last_post_end : Z;
  pause_requested : bool;
  idle_flushed : bool;
  next_send_speech : bool;
  closed : bool;
  dead : bool;
  last_accepted_at : Q;
  last_emitted_end : Q;
}.

Record WindowJob : Type := {
  pcm : list Z;
  start : Q;
  duration : Q;
  start_bytes : Z;
  end_bytes : Z;
  force : bool;
  pause : bool;
}.

(** [int(x)], towards zero. *)
Definition py_trunc (q : Q) : Z := Z.quot (Qnum q) (Zpos (Qden q)).

Definition _to_seconds (n : Z) : Q := (inject_Z n / inject_Z (2 * sample_rate))%Q.
Definition _to_bytes (seconds : Q) : Z := py_trunc (seconds * inject_Z sample_rate) * 2.
Definition pace_bytes : Z := py_trunc (inject_Z (sample_rate * 2) * pace_seconds).
Definition max_context_bytes : Z := _to_bytes max_context_seconds.
Definition lead_in_bytes : Z := _to_bytes LEAD_IN_SECONDS.
Definition silence_bytes : Z := _to_bytes SILENCE_FLUSH_SECONDS.
Definition _buffer_cap : Z := _to_bytes (buffer_cap_seconds pace_seconds max_context_seconds).

Definition blen (s : Window) : Z := Z.of_nat (length (buf s)).
Definition _origin_bytes (s : Window) : Z := received_bytes s - blen s.

Definition _pcm_range (s : Window) (from to : Z) : list Z :=
  let origin := _origin_bytes s in
  let a := Z.max 0 (from - origin) in
  let b := Z.max a (Z.min (blen s) (to - origin)) in
  take (Z.to_nat (b - a)) (drop (Z.to_nat a) (buf s)).

Definition _last_speech_end (spans : list (Z * Z)) (from to : Z) : option Z :=
  foldl (fun l ab => if (ab.2 <=? from) || (to <=? ab.1) then l
                     else Some (match l with None => Z.min to ab.2 | Some m => Z.max m (Z.min to ab.2) end)) None spans.

(** [while spans and spans[0][1] <= bound: popleft()] *)
Fixpoint pop_spans (bound : Z) (spans : list (Z * Z)) : list (Z * Z) :=
  match spans with
  | ab :: rest => if ab.2 <=? bound then pop_spans bound rest else spans
  | [] => []
  end.

(** The buffer without its first [n] bytes, and what follows from it. *)
Definition with_cut (s : Window) (n : Z) (anchor : Z -> Z) (bound : Z -> Z -> Z) : Window :=
  let b := if 0 <? n then drop (Z.to_nat (Z.min n (blen s))) (buf s) else buf s in
  let origin := received_bytes s - Z.of_nat (length b) in
  {| buf := b; received_bytes := received_bytes s; speech_spans := pop_spans (bound origin (anchor origin)) (speech_spans s);
     anchor_bytes := anchor origin; now_bytes := now_bytes s; last_post_anchor := last_post_anchor s; last_post_end := last_post_end s;
     pause_requested := pause_requested s; idle_flushed := idle_flushed s; next_send_speech := next_send_speech s; closed := closed s;
     dead := dead s; last_accepted_at := last_accepted_at s; last_emitted_end := last_emitted_end s |}.

(** The first speech in the buffer. *)
Definition first_speech (origin : Z) (spans : list (Z * Z)) : option Z :=
  foldl (fun f ab => if ab.2 <=? origin then f
                     else Some (match f with None => Z.max ab.1 origin | Some m => Z.min m (Z.max ab.1 origin) end)) None spans.

Definition _trim_leading_nonspeech (s : Window) : Window :=
  let origin := _origin_bytes s in
  let keep_from := match first_speech origin (speech_spans s) with
                   | None => Z.max origin (received_bytes s - lead_in_bytes)
                   | Some first => Z.max origin (first - lead_in_bytes)
                   end in
  with_cut s (keep_from - origin) (fun origin => Z.max (anchor_bytes s) origin) (fun origin _ => origin).

Definition _trim_idle_nonspeech (s : Window) : Window :=
  match _last_speech_end (speech_spans s) (anchor_bytes s) (received_bytes s) with
  | Some _ => s
  | None => _trim_leading_nonspeech s
  end.

Definition _advance_anchor (s : Window) (to : Z) : Window :=
  with_cut s (to - _origin_bytes s) (fun origin => Z.max to origin) (fun _ anchor => anchor).

(** [fail] and [finish]: nothing is kept. *)
Definition fail (s : Window) : Window :=
  {| buf := []; received_bytes := received_bytes s; speech_spans := []; anchor_bytes := anchor_bytes s; now_bytes := now_bytes s;
     last_post_anchor := last_post_anchor s; last_post_end := last_post_end s; pause_requested := pause_requested s;
     idle_flushed := idle_flushed s; next_send_speech := next_send_speech s; closed := true; dead := true;
     last_accepted_at := last_accepted_at s; last_emitted_end := last_emitted_end s |}.

(** The spans when speech arrives up to [to]; [None] when there are too many. *)
Definition add_speech (s : Window) (to : Z) : option (list (Z * Z)) :=
  match last (speech_spans s) with
  | Some (a, b) =>
      if b =? received_bytes s then Some (removelast (speech_spans s) ++ [(a, to)])
      else if (length (speech_spans s) <? 1024)%nat then Some (speech_spans s ++ [(received_bytes s, to)]) else None
  | None => Some [(received_bytes s, to)]
  end.

Definition send (s : Window) (data : list Z) (now : Q) : Window * bool :=
  if closed s || dead s then (s, false) else
  match data with
  | [] => (s, true)
  | _ =>
      let s := if next_send_speech s then s else _trim_idle_nonspeech s in
      let n := Z.of_nat (length data) in
      if _buffer_cap <? blen s + n then (fail s, false) else
      match (if next_send_speech s then add_speech s (received_bytes s + n) else Some (speech_spans s)) with
      | None => (fail s, false)
      | Some spans =>
          ({| buf := buf s ++ data; received_bytes := received_bytes s + n; speech_spans := spans; anchor_bytes := anchor_bytes s;
              now_bytes := now_bytes s; last_post_anchor := last_post_anchor s; last_post_end := last_post_end s;
              pause_requested := pause_requested s; idle_flushed := false; next_send_speech := false; closed := closed s;
              dead := dead s; last_accepted_at := now; last_emitted_end := last_emitted_end s |}, true)
      end
  end.

(** ** The flags *)

Definition with_flags (s : Window) (pause idle speech close : bool) : Window :=
  {| buf := buf s; received_bytes := received_bytes s; speech_spans := speech_spans s; anchor_bytes := anchor_bytes s;
     now_bytes := now_bytes s; last_post_anchor := last_post_anchor s; last_post_end := last_post_end s;
     pause_requested := pause; idle_flushed := idle; next_send_speech := speech; closed := close; dead := dead s;
     last_accepted_at := last_accepted_at s; last_emitted_end := last_emitted_end s |}.

Definition mark_speech (s : Window) : Window := with_flags s (pause_requested s) (idle_flushed s) true (closed s).
Definition finalize (s : Window) : Window := with_flags s true (idle_flushed s) (next_send_speech s) (closed s).
(** The first step of [drain_and_close]. *)
Definition close (s : Window) : Window := with_flags s (pause_requested s) (idle_flushed s) (next_send_speech s) true.
Definition without_pause (s : Window) : Window := with_flags s false (idle_flushed s) (next_send_speech s) (closed s).

(** ** Jobs *)

Definition _has_unemitted_speech (s : Window) : bool :=
  if received_bytes s <=? anchor_bytes s then false
  else match _last_speech_end (speech_spans s) (anchor_bytes s) (received_bytes s) with Some _ => true | None => false end.

(** Whether the window is forced and whether it closes at a pause; [None] when it is
    too early for one. *)
Definition job_mode (s : Window) (silence_flush idle_flush : bool) : option (bool * bool) :=
  let end_ := Z.min (received_bytes s) (anchor_bytes s + max_context_bytes) in
  let stepped := if now_bytes s <=? anchor_bytes s then anchor_bytes s + pace_bytes else now_bytes s + pace_bytes in
  if silence_flush || idle_flush then Some (true, false)
  else if closed s then Some (received_bytes s <=? end_, false)
  else if max_context_bytes <=? received_bytes s - anchor_bytes s then Some (false, pause_requested s)
  else if pause_requested s then Some (false, true)
  else if received_bytes s <? stepped then None else Some (false, false).

Definition _next_job (s0 : Window) (now : Q) : Window * option WindowJob :=
  let s := _trim_leading_nonspeech s0 in
  let received := received_bytes s in
  if received <=? anchor_bytes s then (without_pause s, None) else
  match _last_speech_end (speech_spans s) (anchor_bytes s) received with
  | None => (without_pause s, None)
  | Some speech_end =>
      let idle_flush := negb (idle_flushed s) && Qle_bool IDLE_FLUSH_SECONDS (now - last_accepted_at s) in
      let end_ := Z.min received (anchor_bytes s + max_context_bytes) in
      match job_mode s (silence_bytes <=? received - speech_end) idle_flush with
      | None => (s, None)
      | Some (force, pause) =>
          if end_ <=? anchor_bytes s then (s, None) else
          if negb force && (anchor_bytes s =? last_post_anchor s) && (end_ <=? last_post_end s) then (without_pause s, None) else
          let idle := (idle_flush && (received <=? end_)) || idle_flushed s in
          let requested := pause_requested s && negb (pause || force || (received <=? end_)) in
          (with_flags s requested idle (next_send_speech s) (closed s),
           Some {| pcm := _pcm_range s (anchor_bytes s) end_; start := _to_seconds (anchor_bytes s);
                   duration := _to_seconds (end_ - anchor_bytes s); start_bytes := anchor_bytes s; end_bytes := end_;
                   force := force; pause := pause |})
      end
  end.

(** The speech between two positions. *)
Definition _speech_bytes (spans : list (Z * Z)) (from to : Z) : Z :=
  foldl (fun total ab => let lo := Z.max ab.1 from in let hi := Z.min ab.2 to in if lo <? hi then total + (hi - lo) else total) 0 spans.

(** [recovered] is what the second post of a skipped head answers; the head posted is
    [job.pcm[:head_bytes]]. *)
Definition _recover_skipped_head (s : Window) (job : WindowJob) (segments recovered : list RawSegment) : list RawSegment :=
  match segments with
  | [] => segments
  | first :: _ =>
      if negb (Qle_bool HEAD_RECOVERY_MIN_GAP_SECONDS (raw_start first)) then segments else
      let head := Qminb (duration job) (raw_start first) in
      if negb (Qle_bool HEAD_RECOVERY_MIN_SPEECH_SECONDS
                 (_to_seconds (_speech_bytes (speech_spans s) (start_bytes job) (start_bytes job + _to_bytes head))))
      then segments
      else List.filter (fun r => negb (Qle_bool head (raw_start r))) recovered ++ segments
  end.

(** What is handed on: from, to and text. *)
Definition Emitted : Type := Q * Q * list Z.

Definition _materialize (segments : list RawSegment) (start dur last_emitted_end : Q) : list Emitted :=
  (fun r =>
     let now := (start + dur)%Q in
     let rel_start := Qminb dur (Qmaxb 0 (raw_start r)) in
     let rel_end := Qminb dur (Qmaxb rel_start (raw_end r)) in
     let abs_start := Qminb now (Qmaxb (Qmaxb start last_emitted_end) (start + rel_start)%Q) in
     let abs_end := Qminb now (Qmaxb abs_start (start + rel_end)%Q) in
     (abs_start, abs_end, raw_text r)) <$> segments.

Definition latest (e : list Emitted) (default_ : Q) : Q := foldl (fun m x => Qmaxb m x.1.2) default_ e.

(** [_run_job] once the posts have answered. *)
Definition _run_job (s : Window) (job : WindowJob) (segments recovered : list RawSegment) : Window * list Emitted :=
  let segments := _recover_skipped_head s job segments recovered in
  let d := decide_window segments (duration job) (force job) (pause job) EMPTY_CAP_SLIDE_SECONDS in
  let emitted := _materialize (emit d) (start job) (duration job) (last_emitted_end s) in
  let s1 := {| buf := buf s; received_bytes := received_bytes s; speech_spans := speech_spans s; anchor_bytes := anchor_bytes s;
               now_bytes := end_bytes job; last_post_anchor := start_bytes job; last_post_end := end_bytes job;
               pause_requested := pause_requested s; idle_flushed := idle_flushed s; next_send_speech := next_send_speech s;
               closed := closed s; dead := dead s; last_accepted_at := last_accepted_at s;
               last_emitted_end := latest emitted (last_emitted_end s) |} in
  (match new_anchor d with
   | None => s1
   | Some a => _advance_anchor s1 (start_bytes job + Z.min (end_bytes job - start_bytes job) (Z.max 0 (_to_bytes a)))
   end, emitted).
End Windows.
