(* ===== verification/LiveWindowOps.v ===== *)
(** What the live windows guarantee: no speech is dropped before it was posted, what is
    posted is what was received, and what is handed on goes forward in time. *)
From Stdlib Require Import Qround.
From S2P Require Export LiveWindow.

(** ** Spans *)

Definition inside (spans : list (Z * Z)) (p : Z) : Prop := exists ab, ab ∈ spans /\ ab.1 <= p < ab.2.

Lemma inside_cons ab spans p : inside (ab :: spans) p <-> ab.1 <= p < ab.2 \/ inside spans p.
Proof.
  unfold inside. setoid_rewrite elem_of_cons. split; [intros (x & [->|?] & ?); [by left|right; by exists x]|].
  intros [?|(x & ? & ?)]; [exists ab; by split; [left|]|exists x; by split; [right|]].
Qed.

Lemma inside_app l l' p : inside (l ++ l') p <-> inside l p \/ inside l' p.
Proof.
  induction l as [|ab l IH]; cbn [app]; [split; [by right|by intros [(? & ?%not_elem_of_nil & _)|]]|].
  rewrite !inside_cons, IH. tauto.
Qed.

Lemma pop_spans_inside bound spans p : bound <= p -> inside spans p -> inside (pop_spans bound spans) p.
Proof.
  intros Hp. induction spans as [|ab spans IH]; [done|]. cbn [pop_spans]. rewrite inside_cons.
  destruct (Z.leb_spec ab.2 bound); [intros [?|?]; [lia|by apply IH]|]. by rewrite inside_cons.
Qed.

Lemma pop_spans_subset bound spans : pop_spans bound spans ⊆ spans.
Proof. induction spans as [|ab spans IH]; cbn [pop_spans]; [done|]. destruct (ab.2 <=? bound); [set_solver|done]. Qed.

Lemma first_speech_from origin spans acc :
  let r := foldl (fun f ab => if ab.2 <=? origin then f
                     else Some (match f with None => Z.max ab.1 origin | Some m => Z.min m (Z.max ab.1 origin) end)) acc spans in
  (forall m, acc = Some m -> exists x, r = Some x /\ x <= m) /\
  (forall p, origin <= p -> inside spans p -> exists x, r = Some x /\ x <= p).
Proof.
  revert acc. induction spans as [|ab spans IH]; intros acc; cbn [foldl].
  - split; [intros m ->; by exists m|]. by intros p _ (? & ?%not_elem_of_nil & _).
  - destruct (IH (if ab.2 <=? origin then acc else Some (match acc with None => Z.max ab.1 origin | Some m => Z.min m (Z.max ab.1 origin) end)))
      as [Hacc Hin]. split.
    + intros m ->. destruct (ab.2 <=? origin); [by apply Hacc|]. destruct (Hacc _ eq_refl) as (x & -> & Hx). exists x. split; [done|lia].
    + intros p Hp. rewrite inside_cons. intros [Hab|?]; [|by apply Hin]. destruct (Z.leb_spec ab.2 origin); [lia|].
      destruct acc as [m|]; destruct (Hacc _ eq_refl) as (x & -> & Hx); exists x; (split; [done|lia]).
Qed.

Lemma first_speech_spec origin spans p : origin <= p -> inside spans p -> exists x, first_speech origin spans = Some x /\ x <= p.
Proof. apply (first_speech_from origin spans None). Qed.

Lemma last_speech_from spans from to acc :
  let r := foldl (fun l ab => if (ab.2 <=? from) || (to <=? ab.1) then l
                     else Some (match l with None => Z.min to ab.2 | Some m => Z.max m (Z.min to ab.2) end)) acc spans in
  (forall m, acc = Some m -> exists x, r = Some x /\ m <= x) /\
  (forall p, from <= p < to -> inside spans p -> exists x, r = Some x /\ p < x).
Proof.
  revert acc. induction spans as [|ab spans IH]; intros acc; cbn [foldl].
  - split; [intros m ->; by exists m|]. by intros p _ (? & ?%not_elem_of_nil & _).
  - destruct (IH (if (ab.2 <=? from) || (to <=? ab.1) then acc else Some (match acc with None => Z.min to ab.2 | Some m => Z.max m (Z.min to ab.2) end)))
      as [Hacc Hin]. split.
    + intros m ->. destruct (_ || _); [by apply Hacc|]. destruct (Hacc _ eq_refl) as (x & -> & Hx). exists x. split; [done|lia].
    + intros p Hp. rewrite inside_cons. intros [Hab|?]; [|by apply Hin].
      destruct (Z.leb_spec ab.2 from), (Z.leb_spec to ab.1); try lia. cbn [orb] in *.
      destruct acc as [m|]; destruct (Hacc _ eq_refl) as (x & -> & Hx); exists x; (split; [done|lia]).
Qed.

(** No speech is behind [from] when no end of speech is found. *)
Lemma no_speech_end spans from to p : _last_speech_end spans from to = None -> from <= p < to -> ~ inside spans p.
Proof.
  intros Hnone Hp Hin. destruct (last_speech_from spans from to None) as [_ H]. destruct (H p Hp Hin) as (x & Hx & _).
  unfold _last_speech_end in Hnone. congruence.
Qed.

Lemma add_speech_inside s to spans p :
  Forall (fun ab => ab.1 <= ab.2) (speech_spans s) -> received_bytes s <= to -> add_speech s to = Some spans ->
  inside (speech_spans s) p \/ received_bytes s <= p < to -> inside spans p.
Proof.
  intros Hwf Hto. unfold add_speech. destruct (last (speech_spans s)) as [[a b]|] eqn:Hl.
  - apply last_Some in Hl as [l Hl]. rewrite Hl, removelast_last. rewrite Hl, Forall_app, Forall_singleton in Hwf. destruct Hwf as [_ Hab]. cbn [fst snd] in Hab.
    destruct (Z.eqb_spec b (received_bytes s)) as [->|].
    + intros [= <-]. rewrite !inside_app, !inside_cons. cbn [fst snd].
      intros [[?|[?|(? & ?%not_elem_of_nil & _)]]|?]; [by left|right; left; lia..].
    + destruct (_ <? _)%nat; [|done]. intros [= <-]. rewrite (inside_app (l ++ _)), inside_cons. cbn [fst snd]. intros [?|?]; [by left|right; by left].
  - apply last_None in Hl. rewrite Hl. intros [= <-]. rewrite inside_cons. cbn [fst snd].
    intros [(? & ?%not_elem_of_nil & _)|?]; [done|by left].
Qed.

Lemma add_speech_wf s n spans :
  0 < n -> Forall (fun ab => ab.1 < ab.2 <= received_bytes s) (speech_spans s) -> add_speech s (received_bytes s + n) = Some spans ->
  Forall (fun ab => ab.1 < ab.2 <= received_bytes s + n) spans.
Proof.
  intros Hn Hwf. assert (Forall (fun ab => ab.1 < ab.2 <= received_bytes s + n) (speech_spans s)) as Hwf'.
  { eapply Forall_impl; [done|]. cbn. intros ab ?. lia. }
  unfold add_speech. destruct (last (speech_spans s)) as [[a b]|] eqn:Hl; [|intros [= <-]; repeat constructor; cbn; lia].
  apply last_Some in Hl as [l Hl]. rewrite Hl in *. rewrite removelast_last. apply Forall_app in Hwf' as [Hwl Hwb]. rewrite Forall_singleton in Hwb.
  destruct (_ =? _); [intros [= <-]|destruct (_ <? _)%nat; [|done]; intros [= <-]].
  - apply Forall_app. split; [done|]. apply Forall_singleton. cbn in *. lia.
  - rewrite !Forall_app, !Forall_singleton. cbn in *. split; [done|lia].
Qed.

(** ** The buffer is the end of what was received *)

Record buffered (stream : list Z) (s : Window) : Prop := {
  stream_received : Z.of_nat (length stream) = received_bytes s;
  stream_buf : exists o, (o <= length stream)%nat /\ buf s = drop o stream;
  anchor_inside : _origin_bytes s <= anchor_bytes s <= received_bytes s;
  spans_inside : Forall (fun ab => ab.1 < ab.2 <= received_bytes s) (speech_spans s);
}.

Lemma origin_of stream s o : Z.of_nat (length stream) = received_bytes s -> (o <= length stream)%nat -> buf s = drop o stream -> _origin_bytes s = Z.of_nat o.
Proof. intros Hr Ho Hb. unfold _origin_bytes, blen. rewrite Hb, length_drop. lia. Qed.

(** Cutting the buffer. *)
Lemma with_cut_buffered stream s n anchor bound :
  buffered stream s ->
  let s' := with_cut s n anchor bound in
  let origin' := Z.max (_origin_bytes s) (Z.min (_origin_bytes s + n) (received_bytes s)) in
  _origin_bytes s' = origin' /\ anchor_bytes s' = anchor origin' /\
  speech_spans s' = pop_spans (bound origin' (anchor origin')) (speech_spans s) /\
  (origin' <= anchor origin' <= received_bytes s -> buffered stream s').
Proof.
  intros [Hr (o & Ho & Hb) Ha Hsp] s' origin'. pose proof (origin_of stream s o Hr Ho Hb) as Horig.
  assert (exists o', (o' <= length stream)%nat /\ buf s' = drop o' stream /\ Z.of_nat o' = origin') as (o' & Ho' & Hb' & Heq).
  { subst s' origin'. cbn [with_cut buf]. rewrite Horig. unfold blen. rewrite Hb, length_drop. destruct (Z.ltb_spec 0 n).
    - exists (o + Z.to_nat (Z.min n (Z.of_nat (length stream - o))))%nat. rewrite drop_drop. split_and!; [lia|done|lia].
    - exists o. split_and!; [done..|lia]. }
  assert (_origin_bytes s' = origin') as Horig' by (rewrite <- Heq; by apply (origin_of stream)).
  assert (received_bytes s' - Z.of_nat (length (buf s')) = origin') as Hcut by exact Horig'.
  split_and!; [done|..].
  - subst s'. cbn [with_cut anchor_bytes]. f_equal. exact Hcut.
  - subst s'. cbn [with_cut speech_spans]. cbn [with_cut received_bytes buf] in Hcut. by rewrite Hcut.
  - intros Hin. split; [done|by exists o'| |].
    + rewrite Horig'. subst s'. cbn [with_cut anchor_bytes received_bytes] in *. cbn [with_cut received_bytes buf] in Hcut. by rewrite Hcut.
    + subst s'. cbn [with_cut speech_spans received_bytes]. apply Forall_forall. intros ab Hab%pop_spans_subset.
      rewrite Forall_forall in Hsp. by apply Hsp.
Qed.

Section Rate.
Context (isspace : Z -> bool) (sample_rate : Z) (pace max_context : Q).
Hypothesis rate_pos : 0 < sample_rate.
Hypothesis context_pos : 0 < max_context_bytes sample_rate max_context.

Lemma py_trunc_nonneg q : (0 <= q)%Q -> 0 <= py_trunc q.
Proof. intros Hq. unfold py_trunc. apply Z.quot_pos; [|lia]. destruct q as [a b]. unfold Qle in Hq. cbn in *. lia. Qed.

Lemma lead_in_nonneg : 0 <= lead_in_bytes sample_rate.
Proof.
  unfold lead_in_bytes, _to_bytes. apply Z.mul_nonneg_nonneg; [|lia]. apply py_trunc_nonneg. unfold LEAD_IN_SECONDS.
  apply Qmult_le_0_compat; [done|]. change 0%Q with (inject_Z 0). rewrite <- Zle_Qle. lia.
Qed.

(** What an operation that receives and posts nothing may do: move the anchor over
    silence. *)
Record trims (s s' : Window) : Prop := {
  trims_received : received_bytes s' = received_bytes s;
  trims_anchor : anchor_bytes s <= anchor_bytes s';
  trims_speech p : anchor_bytes s <= p -> inside (speech_spans s) p -> anchor_bytes s' <= p /\ inside (speech_spans s') p;
  trims_now : now_bytes s' = now_bytes s;
  trims_end : last_emitted_end s' = last_emitted_end s;
  trims_buf : blen s' <= blen s;
  trims_dead : dead s' = dead s;
  trims_next : next_send_speech s' = next_send_speech s;
  trims_origin : _origin_bytes s <= _origin_bytes s';
  trims_by : anchor_bytes s' <= Z.max (anchor_bytes s) (_origin_bytes s');
}.

Lemma trims_refl s : trims s s.
Proof. split; try done; lia. Qed.

Lemma trim_leading stream s : buffered stream s -> buffered stream (_trim_leading_nonspeech sample_rate s) /\ trims s (_trim_leading_nonspeech sample_rate s).
Proof.
  intros Hb. pose proof Hb as [Hr _ Ha Hsp]. unfold _trim_leading_nonspeech.
  set (keep := match first_speech _ _ with Some _ => _ | None => _ end).
  destruct (with_cut_buffered stream s (keep - _origin_bytes s) (fun origin => Z.max (anchor_bytes s) origin) (fun origin _ => origin) Hb)
    as (Ho & Han & Hspans & Hbuf).
  set (origin' := Z.max (_origin_bytes s) (Z.min (_origin_bytes s + (keep - _origin_bytes s)) (received_bytes s))) in *.
  pose proof lead_in_nonneg as Hlead. assert (origin' <= received_bytes s) as Hle by (subst origin'; lia).
  assert (forall p, anchor_bytes s <= p -> inside (speech_spans s) p -> keep <= p) as Hkeep.
  { intros p Hp Hin. destruct (first_speech_spec (_origin_bytes s) (speech_spans s) p ltac:(lia) Hin) as (x & Hx & Hxp). subst keep. rewrite Hx. lia. }
  set (s' := with_cut _ _ _ _) in *. assert (received_bytes s' = received_bytes s) as Hrec by done.
  split; [apply Hbuf; lia|]. split; try done.
  - rewrite Han. lia.
  - intros p Hp Hin. specialize (Hkeep p Hp Hin). rewrite Han, Hspans. assert (origin' <= p) as Hop by (subst origin'; lia).
    split; [lia|]. by apply pop_spans_inside.
  - assert (_origin_bytes s <= origin') as Hge by (subst origin'; lia). clearbody s'. clear -Ho Hge Hrec. unfold _origin_bytes in *. lia.
  - rewrite Ho. subst origin'. lia.
Qed.

Lemma trim_idle stream s : buffered stream s -> buffered stream (_trim_idle_nonspeech sample_rate s) /\ trims s (_trim_idle_nonspeech sample_rate s).
Proof.
  intros Hb. unfold _trim_idle_nonspeech. destruct (_last_speech_end _ _ _); [|by apply trim_leading]. split; [done|apply trims_refl].
Qed.

(** ** Sessions *)

(** [stream] is all audio accepted, [spoken] where it was marked as speech, [answered] the
    windows whose posts were answered, [handed] what each of them gave. *)
Record Session : Type := {
  win : Window;
  flight : option WindowJob;
  stream : list Z;
  spoken : list (Z * Z);
  answered : list (Z * Z);
  handed : list (list Emitted);
}.

Definition with_win (w : Session) (s : Window) : Session :=
  {| win := s; flight := flight w; stream := stream w; spoken := spoken w; answered := answered w; handed := handed w |}.

(** A whole number of samples. *)
Definition whole (n : Z) : Prop := exists k, n = 2 * k.

(** The calls of a session in any order; at most one window is in flight, and audio
    arrives meanwhile, in whole samples: the level meter raises on others. *)
Inductive session_step (w : Session) : Session -> Prop :=
| sends data now s' ok :
    whole (Z.of_nat (length data)) ->
    send sample_rate pace max_context (win w) data now = (s', ok) ->
    session_step w {| win := s'; flight := flight w; stream := if ok then stream w ++ data else stream w;
                      spoken := if ok && next_send_speech (win w) then (received_bytes (win w), received_bytes s') :: spoken w else spoken w;
                      answered := answered w; handed := handed w |}
| marks : session_step w (with_win w (mark_speech (win w)))
| finalizes : session_step w (with_win w (finalize (win w)))
| closes : session_step w (with_win w (close (win w)))
| fails : session_step w (with_win w (fail (win w)))
| takes now s' job :
    flight w = None -> dead (win w) = false -> _has_unemitted_speech (win w) = true ->
    _next_job sample_rate pace max_context (win w) now = (s', job) ->
    session_step w {| win := s'; flight := job; stream := stream w; spoken := spoken w; answered := answered w; handed := handed w |}
| answers job segments recovered s' emitted :
    flight w = Some job -> dead (win w) = false ->
    _run_job isspace sample_rate max_context (win w) job segments recovered = (s', emitted) ->
    session_step w {| win := s'; flight := None; stream := stream w; spoken := spoken w;
                      answered := (start_bytes job, end_bytes job) :: answered w; handed := handed w ++ [emitted] |}.

Definition fresh_window : Window :=
  {| buf := []; received_bytes := 0; speech_spans := []; anchor_bytes := 0; now_bytes := 0; last_post_anchor := -1; last_post_end := -1;
     pause_requested := false; idle_flushed := false; next_send_speech := false; closed := false; dead := false;
     last_accepted_at := 0; last_emitted_end := 0 |}.

Definition fresh_session : Session :=
  {| win := fresh_window; flight := None; stream := []; spoken := []; answered := []; handed := [] |}.

(** ** The invariant *)

(** [l[a:b]] of the audio received. *)
Definition audio (stream : list Z) (a b : Z) : list Z := take (Z.to_nat (b - a)) (drop (Z.to_nat a) stream).

Record job_sound (stream : list Z) (s : Window) (job : WindowJob) : Prop := {
  job_pcm : pcm job = audio stream (start_bytes job) (end_bytes job);
  job_range : 0 <= start_bytes job < end_bytes job /\ end_bytes job <= received_bytes s /\
              end_bytes job - start_bytes job <= max_context_bytes sample_rate max_context;
  job_anchor : start_bytes job <= anchor_bytes s <= Z.max (start_bytes job) (_origin_bytes s);
  job_later : now_bytes s <= end_bytes job;
  job_start : start job = _to_seconds sample_rate (start_bytes job);
  job_duration : duration job = _to_seconds sample_rate (end_bytes job - start_bytes job);
}.

(** Each list is in its window, and no list begins before an earlier one ended. *)
Definition in_order (bound : Q) (handed : list (list Emitted)) : Prop :=
  forall k e, handed !! k = Some e ->
    Forall (fun x => (x.1.1 <= x.1.2 /\ x.1.2 <= bound)%Q) e /\
    forall j e', handed !! j = Some e' -> (j < k)%nat -> Forall (fun x => Forall (fun y => (y.1.2 <= x.1.1)%Q) e') e.

Record session_sound (w : Session) : Prop := {
  sound_buffer : buffered (stream w) (win w);
  sound_speech p : inside (spoken w) p -> p < received_bytes (win w) /\
    (anchor_bytes (win w) <= p /\ inside (speech_spans (win w)) p \/ p < anchor_bytes (win w) /\ inside (answered w) p);
  sound_flight job : flight w = Some job -> job_sound (stream w) (win w) job;
  sound_now : 0 <= now_bytes (win w) <= Z.min (received_bytes (win w)) (anchor_bytes (win w) + max_context_bytes sample_rate max_context);
  sound_end : (0 <= last_emitted_end (win w) <= _to_seconds sample_rate (now_bytes (win w)))%Q;
  sound_cap : blen (win w) <= Z.max 0 (_buffer_cap sample_rate pace max_context);
  sound_handed : in_order (last_emitted_end (win w)) (handed w);
}.

(** The audio a job is given. *)
Lemma pcm_range stream s from to :
  buffered stream s -> _origin_bytes s <= from -> from <= to <= received_bytes s -> _pcm_range s from to = audio stream from to.
Proof.
  intros [Hr (o & Ho & Hb) _ _] Hfrom Hto. pose proof (origin_of stream s o Hr Ho Hb) as Horig.
  unfold _pcm_range, audio. rewrite Horig in *. unfold blen. rewrite Hb, length_drop.
  rewrite drop_drop. f_equal; [|f_equal]; lia.
Qed.

Lemma audio_app stream data a b : 0 <= a -> b <= Z.of_nat (length stream) -> audio (stream ++ data) a b = audio stream a b.
Proof.
  intros Ha Hb. unfold audio. destruct (decide (Z.to_nat a <= length stream)%nat).
  - rewrite drop_app_le by done. rewrite take_app_le; [done|]. rewrite length_drop. lia.
  - replace (Z.to_nat (b - a)) with 0%nat by lia. done.
Qed.

Lemma job_moves stream stream' s s' job :
  job_sound stream s job -> received_bytes s <= received_bytes s' -> anchor_bytes s <= anchor_bytes s' -> now_bytes s' = now_bytes s ->
  _origin_bytes s <= _origin_bytes s' -> anchor_bytes s' <= Z.max (anchor_bytes s) (_origin_bytes s') ->
  (forall a b, 0 <= a -> b <= received_bytes s -> audio stream' a b = audio stream a b) -> job_sound stream' s' job.
Proof.
  intros [Hp Hr Ha Hl Hs Hd] Hrec Hanc Hnow Horig Hby Haudio. split; try done; try lia.
  rewrite Hp. symmetry. apply Haudio; lia.
Qed.

(** A change of the window that only trims keeps a session sound. *)
Lemma session_trims w s' : session_sound w -> buffered (stream w) s' -> trims (win w) s' -> session_sound (with_win w s').
Proof.
  intros [Hb Hsp Hf Hn He Hc Ho] Hb' [Tr Ta Ts Tn Te Tb Td Tx Tor Tby]. split; cbn [with_win win flight stream spoken answered handed].
  - done.
  - intros p Hp. destruct (Hsp p Hp) as [Hlt [[Hle Hin]|[Hlt' Hans]]]; (split; [by rewrite Tr|]).
    + left. by apply Ts.
    + right. split; [lia|done].
  - intros job Hjob. eapply job_moves; [by apply Hf|lia|done..].
  - rewrite Tn, Tr. lia.
  - by rewrite Te, Tn.
  - lia.
  - by rewrite Te.
Qed.

Lemma trims_flags s p i n c : trims s (with_flags s p i (next_send_speech s) c) /\ trims (with_flags s p i n c) (with_flags s p i n c).
Proof. split; [|apply trims_refl]. split; try done; cbn; lia. Qed.

Lemma session_flags w p i n c : session_sound w -> session_sound (with_win w (with_flags (win w) p i n c)).
Proof.
  intros [Hb Hsp Hf Hn He Hc Ho]. split; try done.
  - destruct Hb as [Hr Hs Ha Hsp']. by split.
  - intros job Hjob. destruct (Hf job Hjob) as [? ? ? ? ? ?]. by split.
Qed.

Lemma send_sound w data now s' ok :
  session_sound w -> dead s' = false -> send sample_rate pace max_context (win w) data now = (s', ok) ->
  session_sound {| win := s'; flight := flight w; stream := if ok then stream w ++ data else stream w;
                   spoken := if ok && next_send_speech (win w) then (received_bytes (win w), received_bytes s') :: spoken w else spoken w;
                   answered := answered w; handed := handed w |}.
Proof.
  intros Hw Hdead. unfold send. destruct (closed (win w) || dead (win w)) eqn:Hcd.
  { intros [= <- <-]. by destruct w. }
  destruct data as [|d data0] eqn:Hdata.
  { intros [= <- <-]. rewrite app_nil_r. cbn [andb]. destruct (next_send_speech (win w)); [|by destruct w].
    destruct Hw as [Hb Hsp Hf Hn He Hc Ho]. split; try done. cbn [spoken]. intros p. rewrite inside_cons. cbn [fst snd].
    intros [?|?]; [lia|by apply Hsp]. }
  rewrite <- Hdata.
  set (s1 := if next_send_speech (win w) then win w else _). set (n := Z.of_nat (length data)).
  assert (buffered (stream w) s1 /\ trims (win w) s1) as [Hb1 Ht1].
  { subst s1. destruct (next_send_speech (win w)); [split; [apply Hw|apply trims_refl]|]. apply trim_idle; apply Hw. }
  pose proof (session_trims w s1 Hw Hb1 Ht1) as Hw1. clearbody s1. destruct (Z.ltb_spec (_buffer_cap sample_rate pace max_context) (blen s1 + n)) as [|Hcap]; [by intros [= <- <-]|].
  destruct (if next_send_speech s1 then _ else _) as [spans|] eqn:Hspans; [|by intros [= <- <-]]. intros [= <- <-]. cbn [andb].
  destruct Hw1 as [Hb Hsp Hf Hn He Hc Ho]. cbn [with_win win flight stream spoken answered handed] in *.
  destruct Hb as [Hr (o & Hol & Hbuf) Ha Hwf]. assert (0 < n) as Hnn by (subst n; rewrite Hdata; cbn; lia).
  rewrite <- (trims_next _ _ Ht1), <- (trims_received _ _ Ht1).
  split; cbn [win flight stream spoken answered handed received_bytes anchor_bytes now_bytes last_emitted_end speech_spans].
  - split; cbn [received_bytes anchor_bytes speech_spans].
    + rewrite length_app. lia.
    + exists o. rewrite length_app. split; [lia|]. cbn [buf]. by rewrite Hbuf, drop_app_le.
    + unfold _origin_bytes, blen in *. cbn [received_bytes buf]. rewrite length_app. lia.
    + destruct (next_send_speech s1); [by apply (add_speech_wf s1 n)|injection Hspans as <-].
      eapply Forall_impl; [done|]. cbn. intros ab ?. lia.
  - assert (forall p, inside (speech_spans s1) p \/ next_send_speech s1 = true /\ received_bytes s1 <= p < received_bytes s1 + n -> inside spans p) as Hins.
    { intros p. destruct (next_send_speech s1).
      - intros Hp. eapply (add_speech_inside s1 (received_bytes s1 + n)); [|lia|done|tauto]. eapply Forall_impl; [done|]. cbn. intros ab ?. lia.
      - injection Hspans as <-. intros [?|[? _]]; done. }
    assert (forall p, inside (spoken w) p -> p < received_bytes s1 + n /\
       (anchor_bytes s1 <= p /\ inside spans p \/ p < anchor_bytes s1 /\ inside (answered w) p)) as Hold.
    { intros p Hp. destruct (Hsp p Hp) as [Hlt Hor]. split; [lia|]. destruct Hor as [[? ?]|?]; [left; split; [done|apply Hins; by left]|by right]. }
    intros p. destruct (next_send_speech s1) eqn:Hns; [|apply Hold]. rewrite inside_cons. cbn [fst snd]. intros [Hp|Hp]; [|by apply Hold].
    split; [lia|]. left. split; [lia|]. apply Hins. by right.
  - intros job Hjob. eapply job_moves; [by apply Hf|cbn; lia|done|done| | |].
    1,2: unfold _origin_bytes, blen; cbn [received_bytes buf anchor_bytes]; rewrite length_app; lia.
    intros a b Hab Hbr. apply audio_app; [done|]. lia.
  - lia.
  - done.
  - unfold blen in *. cbn [buf]. rewrite length_app. lia.
  - done.
Qed.

(** ** Taking a job *)

Lemma next_job_sound w now s' job :
  session_sound w -> flight w = None -> _next_job sample_rate pace max_context (win w) now = (s', job) ->
  session_sound {| win := s'; flight := job; stream := stream w; spoken := spoken w; answered := answered w; handed := handed w |}.
Proof.
  intros Hw Hidle. unfold _next_job. set (s := _trim_leading_nonspeech sample_rate (win w)).
  destruct (trim_leading (stream w) (win w) (sound_buffer w Hw)) as [Hb Ht]. fold s in Hb, Ht.
  pose proof (session_trims w s Hw Hb Ht) as Hw1. clearbody s.
  assert (forall p i n c, session_sound {| win := with_flags s p i n c; flight := None; stream := stream w; spoken := spoken w; answered := answered w; handed := handed w |}) as Hflags.
  { intros p i n c. pose proof (session_flags (with_win w s) p i n c Hw1) as H. unfold with_win in H. cbn in H. by rewrite Hidle in H. }
  assert (session_sound {| win := s; flight := None; stream := stream w; spoken := spoken w; answered := answered w; handed := handed w |}) as Hsame.
  { unfold with_win in Hw1. by rewrite Hidle in Hw1. }
  destruct (Z.leb_spec (received_bytes s) (anchor_bytes s)); [intros [= <- <-]; apply Hflags|].
  destruct (_last_speech_end _ _ _); [|intros [= <- <-]; apply Hflags].
  set (end_ := Z.min (received_bytes s) (anchor_bytes s + max_context_bytes sample_rate max_context)).
  destruct (job_mode _ _ _ _ _ _) as [[force pause]|]; [|by intros [= <- <-]].
  destruct (Z.leb_spec end_ (anchor_bytes s)); [by intros [= <- <-]|].
  destruct (_ && _ && _); [intros [= <- <-]; apply Hflags|]. intros [= <- <-].
  destruct (Hflags (pause_requested s && negb (pause || force || (received_bytes s <=? end_)))
    ((negb (idle_flushed s) && Qle_bool IDLE_FLUSH_SECONDS (now - last_accepted_at s)) && (received_bytes s <=? end_) || idle_flushed s)
    (next_send_speech s) (closed s)) as [Hbf Hsp Hf Hn He Hc Ho].
  split; try done. cbn [win flight stream]. intros job [= <-].
  pose proof (anchor_inside _ _ Hb) as Ha. cbn in Hn.
  assert (0 <= _origin_bytes s) as Horig.
  { destruct Hb as [Hr (o & Hol & Hbu) _ _]. rewrite (origin_of (stream w) s o) by done. lia. }
  split; cbn [pcm start_bytes end_bytes start duration with_flags anchor_bytes received_bytes now_bytes]; try done; try lia.
  apply pcm_range; [done|lia|lia].
Qed.

(** ** Answering one *)

Lemma Qminb_le_l a b : (Qminb a b <= a)%Q.
Proof. unfold Qminb. destruct (Qle_bool a b) eqn:E; [apply Qle_refl|]. apply Qnot_lt_le. intros H%Qlt_le_weak%Qle_bool_iff. congruence. Qed.

Lemma Qmaxb_le_l a b : (a <= Qmaxb a b)%Q.
Proof. unfold Qmaxb. destruct (Qle_bool a b) eqn:E; [by apply Qle_bool_iff|apply Qle_refl]. Qed.

Lemma Qmaxb_le_r a b : (b <= Qmaxb a b)%Q.
Proof. unfold Qmaxb. destruct (Qle_bool a b) eqn:E; [apply Qle_refl|]. apply Qnot_lt_le. intros H%Qlt_le_weak%Qle_bool_iff. congruence. Qed.

Lemma Qmaxb_lub a b c : (a <= c -> b <= c -> Qmaxb a b <= c)%Q.
Proof. unfold Qmaxb. by destruct (Qle_bool a b). Qed.

Lemma Qminb_glb a b c : (c <= a -> c <= b -> c <= Qminb a b)%Q.
Proof. unfold Qminb. by destruct (Qle_bool a b). Qed.

(** Each item is forward, ends within the window and begins no earlier than the last. *)
Lemma materialize_order segments from dur last_end :
  (last_end <= from + dur)%Q ->
  Forall (fun x => last_end <= x.1.1 /\ x.1.1 <= x.1.2 /\ x.1.2 <= from + dur)%Q (_materialize segments from dur last_end).
Proof.
  intros Hlast. apply Forall_fmap, Forall_forall. intros r _. cbn [compose fst snd]. split_and!.
  - apply Qminb_glb; [done|]. apply Qle_trans with (Qmaxb from last_end); [apply Qmaxb_le_r|apply Qmaxb_le_l].
  - apply Qminb_glb; [apply Qminb_le_l|]. apply Qmaxb_le_l.
  - apply Qminb_le_l.
Qed.

Lemma latest_spec emitted last_end bound :
  (last_end <= bound)%Q -> Forall (fun x => x.1.2 <= bound)%Q emitted ->
  (last_end <= latest emitted last_end <= bound)%Q /\ Forall (fun x => x.1.2 <= latest emitted last_end)%Q emitted.
Proof.
  unfold latest. revert last_end. induction emitted as [|x emitted IH]; intros last_end Hl Hx; cbn [foldl]; [by repeat split; try apply Qle_refl|].
  inversion Hx as [|? ? Hx1 Hx2]; subst. destruct (IH (Qmaxb last_end x.1.2)) as [[H1 H2] H3]; [by apply Qmaxb_lub|done|].
  split; [split; [|done]|].
  - eapply Qle_trans; [apply Qmaxb_le_l|done].
  - constructor; [|done]. eapply Qle_trans; [|done]. unfold Qmaxb. destruct (Qle_bool _ _) eqn:E; [apply Qle_refl|].
    apply Qnot_lt_le. intros H%Qlt_le_weak%Qle_bool_iff. congruence.
Qed.

Lemma to_seconds_le a b : a <= b -> (_to_seconds sample_rate a <= _to_seconds sample_rate b)%Q.
Proof.
  intros H. unfold _to_seconds. apply Qmult_le_compat_r; [by rewrite <- Zle_Qle|]. apply Qinv_le_0_compat.
  change 0%Q with (inject_Z 0). rewrite <- Zle_Qle. lia.
Qed.

Lemma to_seconds_split a b : (_to_seconds sample_rate a + _to_seconds sample_rate (b - a) == _to_seconds sample_rate b)%Q.
Proof. unfold _to_seconds, Qdiv. rewrite <- Qmult_plus_distr_l, <- inject_Z_plus. by replace (a + (b - a)) with b by lia. Qed.

(** Another window's items follow the others. *)
Lemma handed_more bound bound' handed e :
  in_order bound handed -> (bound <= bound')%Q ->
  Forall (fun x => bound <= x.1.1 /\ x.1.1 <= x.1.2 /\ x.1.2 <= bound')%Q e -> in_order bound' (handed ++ [e]).
Proof.
  intros Ho Hb He k e0. destruct (decide (k < length handed)%nat).
  - rewrite lookup_app_l by done. intros Hk. destruct (Ho k e0 Hk) as [H1 H2]. split.
    + eapply Forall_impl; [exact H1|]. cbn. intros x [? ?]. split; [done|]. by eapply Qle_trans.
    + intros j e' Hj Hlt. rewrite lookup_app_l in Hj by by apply (Nat.lt_trans _ k). by apply (H2 j).
  - rewrite lookup_app_r by by apply Nat.nlt_ge. intros Hk%list_lookup_singleton_Some. destruct Hk as [Hk <-].
    assert (k = length handed) as -> by (apply Nat.sub_0_le in Hk; apply Nat.le_antisymm; [done|by apply Nat.nlt_ge]). split.
    + eapply Forall_impl; [exact He|]. by intros x (_ & ? & ?).
    + intros j e' Hj Hlt. rewrite lookup_app_l in Hj by done. destruct (Ho j e' Hj) as [H1 _].
      eapply Forall_impl; [exact He|]. cbn. intros x (Hx & _). eapply Forall_impl; [exact H1|]. cbn. intros y [_ Hy]. by eapply Qle_trans.
Qed.

(** The anchor moves over the posted window only, or over what was already cut. *)
Lemma advance_buffered stream s to :
  buffered stream s -> to <= received_bytes s ->
  let s' := _advance_anchor s to in
  buffered stream s' /\ anchor_bytes s' = Z.max to (_origin_bytes s) /\ _origin_bytes s <= _origin_bytes s' /\
  speech_spans s' = pop_spans (Z.max to (_origin_bytes s)) (speech_spans s).
Proof.
  intros Hb Hto s'. pose proof (anchor_inside _ _ Hb) as Ha.
  destruct (with_cut_buffered stream s (to - _origin_bytes s) (fun origin => Z.max to origin) (fun _ anchor => anchor) Hb) as (Ho & Han & Hsp & Hbuf).
  fold (_advance_anchor s to) in Ho, Han, Hsp, Hbuf. fold s' in Ho, Han, Hsp, Hbuf. clearbody s'.
  assert (forall m, m = Z.max (_origin_bytes s) (Z.min (_origin_bytes s + (to - _origin_bytes s)) (received_bytes s)) ->
    Z.max to m = Z.max to (_origin_bytes s)) as Hm by (intros m ->; lia).
  specialize (Hm _ eq_refl). rewrite Hm in Han, Hsp. split_and!; [apply Hbuf; lia|done|lia|done].
Qed.

Lemma run_job_sound w job segments recovered s' emitted :
  session_sound w -> flight w = Some job -> _run_job isspace sample_rate max_context (win w) job segments recovered = (s', emitted) ->
  session_sound {| win := s'; flight := None; stream := stream w; spoken := spoken w;
                   answered := (start_bytes job, end_bytes job) :: answered w; handed := handed w ++ [emitted] |}.
Proof.
  intros Hw Hjob. unfold _run_job.
  set (d := decide_window _ _ _ _ _ _ _). set (e := _materialize _ _ _ _). clearbody d.
  set (s1 := {| buf := _ |}).
  destruct Hw as [Hb Hsp Hf Hn He Hc Ho]. destruct (Hf _ Hjob) as [Jp [Jr [Jrec Jmax]] Ja Jl Js Jd].
  assert (last_emitted_end (win w) <= start job + duration job)%Q as Hend.
  { rewrite Js, Jd, to_seconds_split. eapply Qle_trans; [apply He|by apply to_seconds_le]. }
  pose proof (materialize_order (emit d) (start job) (duration job) (last_emitted_end (win w)) Hend) as He1. fold e in He1.
  destruct (latest_spec e (last_emitted_end (win w)) _ Hend) as [[Hl1 Hl2] Hl3]; [eapply Forall_impl; [exact He1|]; by intros x (_ & _ & ?)|].
  clearbody e.
  assert (buffered (stream w) s1) as Hb1 by (destruct Hb; by split).
  assert (forall s', buffered (stream w) s' -> received_bytes s' = received_bytes (win w) -> anchor_bytes (win w) <= anchor_bytes s' ->
    now_bytes s' = end_bytes job -> last_emitted_end s' = latest e (last_emitted_end (win w)) -> blen s' <= blen (win w) ->
    (forall p, anchor_bytes (win w) <= p -> inside (speech_spans (win w)) p -> anchor_bytes s' <= p /\ inside (speech_spans s') p \/ p < anchor_bytes s' /\ p < end_bytes job) ->
    session_sound {| win := s'; flight := None; stream := stream w; spoken := spoken w;
                     answered := (start_bytes job, end_bytes job) :: answered w; handed := handed w ++ [e] |}) as Hall.
  { intros s2 Hb2 Er Ea En El Ec Hin. split; cbn [win flight stream spoken answered handed]; try done; try lia.
    - intros p Hp. rewrite Er. destruct (Hsp p Hp) as [Hlt [[Hle Hins]|[Hlt' Hans]]]; (split; [done|]); rewrite inside_cons; cbn [fst snd].
      + destruct (Hin p Hle Hins) as [?|[? ?]]; [by left|right]. split; [done|]. left. lia.
      + right. split; [lia|by right].
    - rewrite En, El. split; [eapply Qle_trans; [apply He|done]|]. eapply Qle_trans; [exact Hl2|].
      rewrite Js, Jd, to_seconds_split. apply Qle_refl.
    - rewrite El. apply (handed_more (last_emitted_end (win w))); [done..|]. rewrite Forall_forall in He1, Hl3. apply Forall_forall. intros x Hx.
      destruct (He1 x Hx) as (? & ? & _). split_and!; [done..|by apply Hl3]. }
  destruct (new_anchor d) as [a|]; intros [= <- <-].
  - set (to := start_bytes job + Z.min (end_bytes job - start_bytes job) (Z.max 0 (_to_bytes sample_rate a))).
    assert (start_bytes job <= to <= end_bytes job) as Hto by (subst to; lia).
    destruct (advance_buffered (stream w) s1 to Hb1) as (Hb2 & Ea & Eo & Esp); [cbn; lia|].
    assert (_origin_bytes s1 = _origin_bytes (win w)) as Eo1 by done. rewrite Eo1 in *.
    apply Hall; try done.
    + rewrite Ea. lia.
    + assert (received_bytes (_advance_anchor s1 to) = received_bytes (win w)) as Er by done.
      clear -Eo Er. unfold _origin_bytes in Eo. lia.
    + intros p Hp Hins. rewrite Ea, Esp. pose proof (anchor_inside _ _ Hb).
      destruct (decide (Z.max to (_origin_bytes (win w)) <= p)); [left; split; [done|]; by apply pop_spans_inside|right; lia].
  - apply Hall; try done. intros p Hp Hins. by left.
Qed.

(** ** Every session is sound *)

Lemma fresh_sound : session_sound fresh_session.
Proof.
  split; cbn [fresh_session win fresh_window flight stream spoken answered handed received_bytes anchor_bytes now_bytes last_emitted_end]; try done.
  - split; [done|by exists 0%nat|unfold _origin_bytes, blen; cbn; lia|constructor].
  - by intros p (? & ?%not_elem_of_nil & _).
  - lia.
  - unfold blen. cbn [fresh_window buf length]. lia.
Qed.

Lemma send_dead s data now s' ok : send sample_rate pace max_context s data now = (s', ok) -> dead s' = false -> dead s = false.
Proof.
  unfold send. destruct (dead s) eqn:Hd; [|done]. rewrite orb_true_r. intros [= <- <-]. congruence.
Qed.

Lemma step_alive w w' : session_step w w' -> dead (win w') = false -> dead (win w) = false.
Proof.
  intros Hs. destruct Hs as [data now s' ok _ Hsend| | | | |now s' job ? Hd'|job segments recovered s' emitted ? Hd' ?]; cbn [win with_win]; try done.
  intros Hd. by apply (send_dead _ _ _ _ _ Hsend).
Qed.

Lemma step_sound w w' : session_step w w' -> dead (win w') = false -> session_sound w -> dead (win w) = false /\ session_sound w'.
Proof.
  intros Hstep Hdead Hw. destruct Hstep as [data now s' ok _ Hs| | | | |now s' job Hidle Hd _ Hn|job segments recovered s' emitted Hf Hd Hr].
  - split; [by apply (send_dead _ _ _ _ _ Hs)|]. by apply (send_sound _ data now).
  - split; [done|]. by apply session_flags.
  - split; [done|]. by apply session_flags.
  - split; [done|]. by apply session_flags.
  - done.
  - split; [done|]. by apply (next_job_sound _ now).
  - split; [done|]. by apply (run_job_sound w job segments recovered s' emitted).
Qed.

Lemma sessions_sound w : rtc session_step fresh_session w -> dead (win w) = false -> session_sound w.
Proof.
  revert w. apply (rtc_ind_r (fun w => dead (win w) = false -> session_sound w)); [|intros w1 w2 _ Hs IH Hd].
  - intros _. apply fresh_sound.
  - pose proof (step_alive w1 w2 Hs Hd) as Hd1. by destruct (step_sound w1 w2 Hs Hd (IH Hd1)).
Qed.

(** C9: no speech goes unheard while a session lives.  After any sends, marks, pauses,
    posts and answers, each speech byte ever accepted lies in a window the service
    answered or is still buffered at its place; a window in flight is exactly the audio
    received between its ends and no longer than the context; each item
    handed on goes forward in time and starts no earlier than the end of what earlier
    windows handed on (the items of one window come in the order of the service); and
    the buffer stays within its cap. *)
Theorem no_speech_goes_unheard w :
  rtc session_step fresh_session w -> dead (win w) = false ->
  (forall p, inside (spoken w) p -> inside (answered w) p \/
     anchor_bytes (win w) <= p /\ buf (win w) !! Z.to_nat (p - _origin_bytes (win w)) = stream w !! Z.to_nat p /\ inside (speech_spans (win w)) p) /\
  (forall job, flight w = Some job -> pcm job = audio (stream w) (start_bytes job) (end_bytes job) /\
     Z.of_nat (length (pcm job)) = end_bytes job - start_bytes job /\ 0 < end_bytes job - start_bytes job <= max_context_bytes sample_rate max_context) /\
  in_order (last_emitted_end (win w)) (handed w) /\
  blen (win w) <= Z.max 0 (_buffer_cap sample_rate pace max_context).
Proof.
  intros Hsteps Hd. destruct (sessions_sound w Hsteps Hd) as [Hb Hsp Hf Hn He Hc Ho]. split_and!; [| |done..].
  - intros p Hp. destruct (Hsp p Hp) as [Hlt [[Hle Hin]|[_ ?]]]; [right|by left]. split_and!; [done| |done].
    destruct Hb as [Hr (o & Hol & Hbuf) Ha _]. pose proof (origin_of (stream w) (win w) o Hr Hol Hbuf) as Horig.
    rewrite Hbuf, lookup_drop. f_equal. lia.
  - intros job Hjob. destruct (Hf job Hjob) as [Jp [Jr [Jrec Jmax]] _ _ _ _]. split_and!; [done| |lia..].
    rewrite Jp. unfold audio. rewrite length_take, length_drop. pose proof (stream_received _ _ Hb). lia.
Qed.
End Rate.
