(* ===== verification/LiveWindowClose.v ===== *)
(** What the end of a live session guarantees: audio stays in whole samples, and closing
    posts window after window until all speech was answered. *)
From S2P Require Export LiveWindowOps.

(** ** Whole samples *)

Create HintDb samples.

Lemma whole_add a b : whole a -> whole b -> whole (a + b).
Proof. intros [x ->] [y ->]. exists (x + y). lia. Qed.
Lemma whole_sub a b : whole a -> whole b -> whole (a - b).
Proof. intros [x ->] [y ->]. exists (x - y). lia. Qed.
Lemma whole_min a b : whole a -> whole b -> whole (Z.min a b).
Proof. intros [x ->] [y ->]. exists (Z.min x y). lia. Qed.
Lemma whole_max a b : whole a -> whole b -> whole (Z.max a b).
Proof. intros [x ->] [y ->]. exists (Z.max x y). lia. Qed.
Lemma whole_zero : whole 0.
Proof. by exists 0. Qed.
Lemma whole_to_bytes rate q : whole (_to_bytes rate q).
Proof. exists (py_trunc (q * inject_Z rate)). unfold _to_bytes. lia. Qed.
#[export] Hint Resolve whole_add whole_sub whole_min whole_max whole_zero whole_to_bytes : samples.

(** A span from whole sample to whole sample. *)
Definition whole_span (ab : Z * Z) : Prop := whole ab.1 /\ whole ab.2.

Record on_samples (s : Window) : Prop := {
  whole_received : whole (received_bytes s);
  whole_buf : whole (blen s);
  whole_anchor : whole (anchor_bytes s);
  whole_spans : Forall whole_span (speech_spans s);
}.

Lemma whole_origin s : on_samples s -> whole (_origin_bytes s).
Proof. intros [? ? ? ?]. unfold _origin_bytes. eauto with samples. Qed.

Lemma with_cut_samples s n anchor bound :
  on_samples s -> whole n -> (forall o, whole o -> whole (anchor o)) -> on_samples (with_cut s n anchor bound).
Proof.
  intros [Hr Hb Ha Hs] Hn Hanchor.
  assert (whole (blen (with_cut s n anchor bound))) as Hb'.
  { unfold blen. cbn [with_cut buf]. destruct (Z.ltb_spec 0 n); [|done]. rewrite length_drop.
    replace (Z.of_nat _) with (blen s - Z.min n (blen s)) by (unfold blen; lia). eauto with samples. }
  split; [done|done| |].
  - cbn [with_cut anchor_bytes]. apply Hanchor. apply whole_sub; [done|exact Hb'].
  - cbn [with_cut speech_spans]. apply Forall_forall. intros ab Hab%pop_spans_subset. rewrite Forall_forall in Hs. by apply Hs.
Qed.

Lemma first_speech_whole origin spans :
  whole origin -> Forall whole_span spans -> forall first, first_speech origin spans = Some first -> whole first.
Proof.
  intros Ho. unfold first_speech.
  assert (forall m, None = Some m -> whole m) as Hacc by done. revert Hacc. generalize (None : option Z).
  induction spans as [|ab spans IH]; intros acc Hacc Hwf first; cbn [foldl]; [apply Hacc|].
  inversion Hwf as [|? ? [Ha _] Hwf']; subst. apply IH; [|done]. intros m. destruct (_ <=? _); [apply Hacc|]. intros [= <-].
  destruct acc as [m|]; [specialize (Hacc m eq_refl)|]; eauto with samples.
Qed.

Section Rate.
Context (isspace : Z -> bool) (sample_rate : Z) (pace max_context : Q).

Lemma trim_leading_samples s : on_samples s -> on_samples (_trim_leading_nonspeech sample_rate s).
Proof.
  intros Hs. pose proof (whole_origin s Hs) as Ho. pose proof Hs as [Hr _ Ha Hsp]. unfold _trim_leading_nonspeech.
  apply with_cut_samples; [done| |intros o ?; eauto with samples].
  apply whole_sub; [|done]. unfold lead_in_bytes. destruct (first_speech _ _) eqn:Hf; [|eauto with samples].
  apply (first_speech_whole _ _ Ho Hsp) in Hf. eauto with samples.
Qed.

Lemma trim_idle_samples s : on_samples s -> on_samples (_trim_idle_nonspeech sample_rate s).
Proof. intros Hs. unfold _trim_idle_nonspeech. destruct (_last_speech_end _ _ _); [done|by apply trim_leading_samples]. Qed.

Lemma add_speech_samples s to spans : on_samples s -> whole to -> add_speech s to = Some spans -> Forall whole_span spans.
Proof.
  intros [Hr _ _ Hs] Hto. unfold add_speech. destruct (last (speech_spans s)) as [[a b]|] eqn:Hl; [|intros [= <-]; by repeat constructor].
  apply last_Some in Hl as [l Hl]. rewrite Hl in *. rewrite removelast_last. pose proof Hs as [Hwl Hab]%Forall_app.
  rewrite Forall_singleton in Hab. destruct Hab as [Hwa _].
  destruct (_ =? _); [intros [= <-]|destruct (_ <? _)%nat; [|done]; intros [= <-]].
  - apply Forall_app. split; [done|]. by apply Forall_singleton.
  - apply Forall_app. split; [done|]. by apply Forall_singleton.
Qed.

Lemma send_samples s data now s' ok :
  on_samples s -> whole (Z.of_nat (length data)) -> send sample_rate pace max_context s data now = (s', ok) -> dead s' = false -> on_samples s'.
Proof.
  intros Hs Hdata. unfold send. destruct (closed s || dead s); [by intros [= <- _]|]. destruct data as [|d data0] eqn:Hd; [by intros [= <- _]|].
  rewrite <- Hd in *. set (s1 := if next_send_speech s then s else _).
  assert (on_samples s1) as Hs1 by (subst s1; destruct (next_send_speech s); [done|by apply trim_idle_samples]). clearbody s1.
  destruct (_ <? _); [by intros [= <- _]|].
  destruct (if next_send_speech s1 then _ else _) as [spans|] eqn:Hspans; [|by intros [= <- _]]. intros [= <- _] _.
  assert (Forall whole_span spans) as Hsp.
  { destruct (next_send_speech s1); [|injection Hspans as <-; apply Hs1].
    apply (add_speech_samples s1 (received_bytes s1 + Z.of_nat (length data))); [done| |done]. destruct Hs1. eauto with samples. }
  destruct Hs1 as [Hr Hb Ha _]. split; cbn [received_bytes anchor_bytes speech_spans]; [eauto with samples| |done..].
  unfold blen in *. cbn [buf]. rewrite length_app, Nat2Z.inj_add. eauto with samples.
Qed.

Lemma with_flags_samples s p i n c : on_samples s -> on_samples (with_flags s p i n c).
Proof. intros [? ? ? ?]. by split. Qed.

(** A job is cut at samples. *)
Definition on_samples_job (job : WindowJob) : Prop := whole (start_bytes job) /\ whole (end_bytes job).

Lemma next_job_samples s now s' job :
  on_samples s -> _next_job sample_rate pace max_context s now = (s', job) -> on_samples s' /\ (forall j, job = Some j -> on_samples_job j).
Proof.
  intros Hs. apply trim_leading_samples in Hs. unfold _next_job. set (s1 := _trim_leading_nonspeech _ _) in *. clearbody s1.
  destruct (_ <=? _); [intros [= <- <-]; split; [by apply with_flags_samples|done]|].
  destruct (_last_speech_end _ _ _); [|intros [= <- <-]; split; [by apply with_flags_samples|done]].
  destruct (job_mode _ _ _ _ _ _) as [[force pause]|]; [|by intros [= <- <-]].
  destruct (_ <=? _); [by intros [= <- <-]|].
  destruct (_ && _ && _); [intros [= <- <-]; split; [by apply with_flags_samples|done]|].
  intros [= <- <-]. split; [by apply with_flags_samples|]. intros j [= <-]. unfold on_samples_job. cbn [start_bytes end_bytes].
  destruct Hs as [? ? ? ?]. unfold max_context_bytes. eauto with samples.
Qed.

Lemma run_job_samples s job segments recovered s' emitted :
  on_samples s -> on_samples_job job -> _run_job isspace sample_rate max_context s job segments recovered = (s', emitted) -> on_samples s'.
Proof.
  intros Hs [Hj1 Hj2]. unfold _run_job. set (s1 := {| buf := _ |}). assert (on_samples s1) as Hs1 by (destruct Hs; by split).
  clearbody s1. destruct (new_anchor _) as [a|]; intros [= <- _]; [|done]. pose proof (whole_origin s1 Hs1).
  unfold _advance_anchor. apply with_cut_samples; [done|..]; eauto 8 with samples.
Qed.

(** All of a session is cut at samples: the level meter accepts every window. *)
Lemma session_samples w :
  rtc (session_step isspace sample_rate pace max_context) fresh_session w -> dead (win w) = false ->
  on_samples (win w) /\ (forall job, flight w = Some job -> on_samples_job job).
Proof.
  revert w. apply (rtc_ind_r (fun w => dead (win w) = false -> on_samples (win w) /\ (forall job, flight w = Some job -> on_samples_job job))).
  - intros _. split; [|done]. split; cbn; [apply whole_zero..|constructor].
  - intros w1 w2 _ Hstep IH Hd. pose proof (step_alive _ _ _ _ _ _ Hstep Hd) as Hd1. specialize (IH Hd1) as [Hs Hf].
    destruct Hstep as [data now s' ok He Hs'| | | | |now s' job Hidle _ _ Hn|job segments recovered s' emitted Hj _ Hr]; cbn [win flight with_win] in *; try done.
    + split; [by apply (send_samples _ _ _ _ _ Hs He Hs')|done].
    + split; [by apply with_flags_samples|done].
    + split; [by apply with_flags_samples|done].
    + split; [by apply with_flags_samples|done].
    + by apply (next_job_samples _ _ _ _ Hs Hn).
    + split; [|done]. apply (run_job_samples _ _ _ _ _ _ Hs (Hf _ Hj) Hr).
Qed.

(** ** Closing *)

(** The loop of [_pump] once the session is closed, with the answers of the service. *)
Fixpoint _pump_closed (fuel : nat) (now : nat -> Q) (answer : nat -> WindowJob -> list RawSegment * list RawSegment) (w : Session) : option Session :=
  if dead (win w) || negb (_has_unemitted_speech (win w)) then Some w else
  match fuel with
  | O => None
  | S fuel =>
      match _next_job sample_rate pace max_context (win w) (now fuel) with
      | (s1, None) => Some {| win := s1; flight := None; stream := stream w; spoken := spoken w; answered := answered w; handed := handed w |}
      | (s1, Some job) =>
          let '(s2, emitted) := _run_job isspace sample_rate max_context s1 job (answer fuel job).1 (answer fuel job).2 in
          _pump_closed fuel now answer
            {| win := s2; flight := None; stream := stream w; spoken := spoken w;
               answered := (start_bytes job, end_bytes job) :: answered w; handed := handed w ++ [emitted] |}
      end
  end.

Hypothesis rate_pos : 0 < sample_rate.
Hypothesis context_pos : 0 < max_context_bytes sample_rate max_context.

Lemma py_trunc_int q k : (q == inject_Z k)%Q -> py_trunc q = k.
Proof.
  unfold py_trunc, Qeq. cbn [Qnum Qden inject_Z]. intros H. replace (Qnum q) with (k * Z.pos (Qden q)) by lia. apply Z.quot_mul. lia.
Qed.

Lemma bytes_of_seconds n : whole n -> _to_bytes sample_rate (_to_seconds sample_rate n) = n.
Proof.
  intros [k ->]. unfold _to_bytes. rewrite (py_trunc_int _ k); [lia|]. unfold _to_seconds. rewrite !inject_Z_mult.
  assert (~ inject_Z sample_rate == 0)%Q by (change 0%Q with (inject_Z 0); rewrite inject_Z_injective; lia).
  by field.
Qed.

Definition sample_ended (r : RawSegment) : Prop := 2 <= _to_bytes sample_rate (raw_end r).

Lemma held_emit_last segments dur pause :
  (2 <= length segments)%nat -> exists r, r ∈ segments /\ last (_held_emit isspace segments dur pause) = Some r.
Proof.
  intros Hlen. unfold _held_emit. destruct (last segments) as [l|] eqn:Hl; [|apply last_None in Hl; subst; cbn in Hlen; lia].
  pose proof Hl as [init ->]%last_Some. destruct (if pause then _ else _); [exists l; split; [set_solver|done]|].
  rewrite removelast_last. destruct (last init) as [r|] eqn:Hr; [|apply last_None in Hr; subst; cbn in Hlen; lia].
  apply last_Some in Hr as [init' ->]. exists r. split; [set_solver|done].
Qed.

(** A window that is forced or at the cap moves the anchor. *)
Lemma decision_moves segments dur force pause :
  force = true \/ Qle_bool max_context dur = true -> 2 <= _to_bytes sample_rate dur -> Forall sample_ended segments ->
  exists a, new_anchor (decide_window isspace max_context segments dur force pause EMPTY_CAP_SLIDE_SECONDS) = Some a /\ 2 <= _to_bytes sample_rate a.
Proof.
  intros Hmode Hdur Hends. unfold decide_window. destruct force; [by exists dur|]. destruct Hmode as [|Hcap]; [done|]. rewrite Hcap.
  destruct segments as [|r [|r' segments]].
  - set (slide := Qminb _ _). assert (2 <= _to_bytes sample_rate slide) as Hslide.
    { subst slide. change (Qmaxb 0 EMPTY_CAP_SLIDE_SECONDS) with 6%Q. unfold Qminb. destruct (Qle_bool 6 dur); [|done].
      unfold _to_bytes. rewrite (py_trunc_int _ (6 * sample_rate)); [lia|]. rewrite inject_Z_mult. reflexivity. }
    clearbody slide. destruct (Qle_bool slide 0) eqn:E; [|by exists slide]. exfalso. apply Qle_bool_iff in E.
    revert Hslide. unfold _to_bytes. enough (py_trunc (slide * inject_Z sample_rate) <= 0) by lia.
    unfold py_trunc. destruct slide as [x y]. unfold Qle in E. cbn in *. apply Z.quot_le_upper_bound; [lia|]. nia.
  - exists (raw_end r). split; [done|]. by inversion Hends.
  - destruct (held_emit_last (r :: r' :: segments) dur pause) as (x & Hx & Hlast); [cbn; lia|]. rewrite Forall_forall in Hends.
    exists (raw_end x). split; [|by apply Hends]. cbn [decision new_anchor]. by rewrite Hlast.
Qed.

Lemma speech_end_inside spans from to :
  Forall (fun ab => ab.1 < ab.2) spans -> from < to -> is_Some (_last_speech_end spans from to) -> exists p, from <= p < to /\ inside spans p.
Proof.
  intros Hwf Hlt. unfold _last_speech_end. intros Hsome.
  enough (forall acc, is_Some (foldl (fun l ab => if (ab.2 <=? from) || (to <=? ab.1) then l
      else Some (match l with None => Z.min to ab.2 | Some m => Z.max m (Z.min to ab.2) end)) acc spans) -> is_Some acc \/ exists p, from <= p < to /\ inside spans p) as H.
  { destruct (H _ Hsome) as [[? ?]|?]; done. }
  clear Hsome. induction spans as [|ab spans IH]; intros acc; cbn [foldl]; [by left|]. inversion Hwf as [|? ? Hab Hwf']; subst. cbn in Hab.
  destruct (Z.leb_spec ab.2 from); cbn [orb]; [|destruct (Z.leb_spec to ab.1)].
  3: { intros _. right. exists (Z.max ab.1 from). rewrite inside_cons. split; [lia|]. left. lia. }
  1,2: intros [?|(p & ? & ?)]%(IH Hwf'); [by left|right; exists p; rewrite inside_cons; tauto].
Qed.

Lemma unemitted_inside strm s : buffered strm s -> _has_unemitted_speech s = true -> exists p, anchor_bytes s <= p < received_bytes s /\ inside (speech_spans s) p.
Proof.
  intros [_ _ _ Hwf]. unfold _has_unemitted_speech. destruct (Z.leb_spec (received_bytes s) (anchor_bytes s)); [done|].
  destruct (_last_speech_end _ _ _) eqn:E; [|done]. intros _. apply speech_end_inside; [|done|by rewrite E].
  eapply Forall_impl; [exact Hwf|]. cbn. intros ab ?. lia.
Qed.

(** The window at the cap was not posted from this anchor. *)
Definition cap_not_posted (s : Window) : Prop := last_post_anchor s < anchor_bytes s \/ last_post_end s < anchor_bytes s + max_context_bytes sample_rate max_context.

Lemma job_mode_closed s silence idle :
  closed s = true ->
  exists f, job_mode sample_rate pace max_context s silence idle = Some (f, false) /\
    (f = true \/ Z.min (received_bytes s) (anchor_bytes s + max_context_bytes sample_rate max_context) < received_bytes s).
Proof.
  intros Hc. unfold job_mode. rewrite Hc. destruct (silence || idle); [exists true; split; [done|by left]|].
  eexists. split; [done|]. destruct (Z.leb_spec (received_bytes s) (Z.min (received_bytes s) (anchor_bytes s + max_context_bytes sample_rate max_context))); [by left|by right].
Qed.

(** A closed session with speech left has a job, which ends with what was received or is
    a whole context. *)
Lemma next_job_closed strm s now :
  buffered strm s -> closed s = true -> _has_unemitted_speech s = true -> cap_not_posted s ->
  exists s1 job, _next_job sample_rate pace max_context s now = (s1, Some job) /\ closed s1 = true /\
    (force job = true \/ end_bytes job - start_bytes job = max_context_bytes sample_rate max_context) /\
    start_bytes job = anchor_bytes s1 /\ anchor_bytes s <= anchor_bytes s1 /\ received_bytes s1 = received_bytes s /\ dead s1 = dead s.
Proof.
  intros Hb Hc Hun Hcap. destruct (trim_leading sample_rate rate_pos strm s Hb) as [Hb' Ht].
  destruct (unemitted_inside strm s Hb Hun) as (p & Hp & Hin). destruct (trims_speech _ _ Ht p ltac:(lia) Hin) as [Hp' Hin'].
  unfold _next_job. assert (closed (_trim_leading_nonspeech sample_rate s) = true /\ last_post_anchor (_trim_leading_nonspeech sample_rate s) = last_post_anchor s /\
    last_post_end (_trim_leading_nonspeech sample_rate s) = last_post_end s) as (Hc' & Hla & Hle) by (unfold _trim_leading_nonspeech; done).
  set (s' := _trim_leading_nonspeech sample_rate s) in *. clearbody s'. pose proof (trims_received _ _ Ht) as Hr. pose proof (trims_anchor _ _ Ht) as Ha.
  destruct (Z.leb_spec (received_bytes s') (anchor_bytes s')); [lia|].
  destruct (_last_speech_end _ _ _) as [speech_end|] eqn:E; [|exfalso; apply (no_speech_end _ _ _ p E); [lia|done]].
  destruct (job_mode_closed s' (silence_bytes sample_rate <=? received_bytes s' - speech_end)
    (negb (idle_flushed s') && Qle_bool IDLE_FLUSH_SECONDS (now - last_accepted_at s')) Hc') as (f & -> & Hf).
  set (end_ := Z.min _ _) in *. destruct (Z.leb_spec end_ (anchor_bytes s')); [lia|].
  assert (negb f && (anchor_bytes s' =? last_post_anchor s') && (end_ <=? last_post_end s') = false) as ->.
  { destruct Hf as [->|Hf]; [done|]. unfold cap_not_posted in Hcap. rewrite <- Hla, <- Hle in Hcap.
    destruct (Z.eqb_spec (anchor_bytes s') (last_post_anchor s')), (Z.leb_spec end_ (last_post_end s')); rewrite ?andb_false_r; try done; lia. }
  eexists _, _. split; [done|]. cbn [with_flags closed force start_bytes end_bytes anchor_bytes received_bytes]. split_and!; try done; [|by apply trims_dead in Ht].
  destruct Hf as [?|?]; [by left|right; lia].
Qed.

(** The context is a whole number of samples. *)
Hypothesis context_exact : Qle_bool max_context (_to_seconds sample_rate (max_context_bytes sample_rate max_context)) = true.

Lemma run_job_advances s job segments recovered s' emitted :
  on_samples_job job -> duration job = _to_seconds sample_rate (end_bytes job - start_bytes job) -> start_bytes job < end_bytes job ->
  force job = true \/ end_bytes job - start_bytes job = max_context_bytes sample_rate max_context ->
  Forall sample_ended segments -> Forall sample_ended recovered ->
  _run_job isspace sample_rate max_context s job segments recovered = (s', emitted) ->
  start_bytes job + 2 <= anchor_bytes s' /\ cap_not_posted s' /\ received_bytes s' = received_bytes s /\ closed s' = closed s /\ dead s' = dead s.
Proof.
  intros [Hj1 Hj2] Hd Hlt Hmode Hsegs Hrec. unfold _run_job. set (segs := _recover_skipped_head _ _ _ _ _).
  assert (Forall sample_ended segs) as Hends.
  { subst segs. unfold _recover_skipped_head. destruct segments as [|r segments]; [done|]. destruct (negb _); [done|]. destruct (negb _); [done|].
    apply Forall_app. split; [|done]. rewrite Forall_forall in Hrec. apply Forall_forall. intros x Hx%list_elem_of_In%filter_In. apply Hrec, list_elem_of_In, Hx. }
  clearbody segs. assert (whole (end_bytes job - start_bytes job)) as Hw by eauto with samples.
  destruct (decision_moves segs (duration job) (force job) (pause job)) as (a & -> & Ha); [| |done|].
  - destruct Hmode as [|Hcap]; [by left|right]. by rewrite Hd, Hcap.
  - rewrite Hd, bytes_of_seconds by done. destruct Hw. lia.
  - assert (2 <= end_bytes job - start_bytes job) by (destruct Hw; lia).
    intros [= <- _]. assert (forall s to, to <= anchor_bytes (_advance_anchor s to)) as Hadv by (intros; cbn; lia).
    match goal with |- context [_advance_anchor ?s1 ?to] => pose proof (Hadv s1 to) as Hto end. unfold cap_not_posted.
    split_and!; [lia|left; cbn [last_post_anchor _advance_anchor with_cut] in *; lia|done..].
Qed.

(** Without speech left, all of it was answered. *)
Lemma all_answered w : session_sound sample_rate pace max_context w -> _has_unemitted_speech (win w) = false ->
  forall p, inside (spoken w) p -> inside (answered w) p.
Proof.
  intros Hs Hun p Hp. destruct (sound_speech _ _ _ _ Hs p Hp) as [Hlt [[Hle Hin]|[_ ?]]]; [exfalso|done]. revert Hun. unfold _has_unemitted_speech.
  destruct (Z.leb_spec (received_bytes (win w)) (anchor_bytes (win w))); [lia|]. destruct (_last_speech_end _ _ _) eqn:E; [done|].
  intros _. by apply (no_speech_end _ _ _ p E).
Qed.

(** C29: closing a session leaves no speech unheard.  If the service answers, each segment
    with an end at least a sample into its window, and the window last posted was not
    already the whole context at the present anchor, the closing loop ends within a turn
    per byte of the audio left, its turns are steps of the session, and afterwards
    every speech byte ever accepted lies in an answered window. *)
Theorem closing_hears_everything w now answer :
  rtc (session_step isspace sample_rate pace max_context) fresh_session w -> dead (win w) = false -> closed (win w) = true -> flight w = None ->
  cap_not_posted (win w) -> (forall k job, Forall sample_ended (answer k job).1 /\ Forall sample_ended (answer k job).2) ->
  exists w', _pump_closed (Z.to_nat (received_bytes (win w) - anchor_bytes (win w))) now answer w = Some w' /\
    rtc (session_step isspace sample_rate pace max_context) w w' /\ dead (win w') = false /\ spoken w' = spoken w /\
    forall p, inside (spoken w) p -> inside (answered w') p.
Proof.
  intros Hreach Hd Hc Hf Hcap Hans.
  assert (received_bytes (win w) - anchor_bytes (win w) <= Z.of_nat (Z.to_nat (received_bytes (win w) - anchor_bytes (win w)))) as Hfuel by lia.
  revert Hfuel. generalize (Z.to_nat (received_bytes (win w) - anchor_bytes (win w))) as fuel. intros fuel. revert w Hreach Hd Hc Hf Hcap.
  induction fuel as [|fuel IH]; intros w Hreach Hd Hc Hf Hcap Hfuel.
  all: pose proof (sessions_sound _ _ _ _ rate_pos context_pos w Hreach Hd) as Hs.
  all: cbn [_pump_closed]; rewrite Hd; cbn [orb].
  all: destruct (_has_unemitted_speech (win w)) eqn:Hun; cbn [negb].
  2,4: exists w; split_and!; [done..|by apply all_answered].
  - exfalso. destruct (unemitted_inside _ _ (sound_buffer _ _ _ _ Hs) Hun) as (p & Hp & _). lia.
  - destruct (next_job_closed (stream w) (win w) (now fuel) (sound_buffer _ _ _ _ Hs) Hc Hun Hcap) as (s1 & job & Hn & Hc1 & Hmode & Hstart & Ha & Hr & Hd1).
    rewrite Hn. rewrite Hd in Hd1.
    set (w1 := {| win := s1; flight := Some job; stream := stream w; spoken := spoken w; answered := answered w; handed := handed w |}).
    assert (session_step isspace sample_rate pace max_context w w1) as Hstep1 by by apply (takes _ _ _ _ w (now fuel) s1 (Some job)).
    assert (rtc (session_step isspace sample_rate pace max_context) fresh_session w1) as Hreach1 by by eapply rtc_r.
    destruct (session_samples w1 Hreach1 Hd1) as [_ Hon]. specialize (Hon job eq_refl).
    destruct (sound_flight _ _ _ _ (sessions_sound _ _ _ _ rate_pos context_pos w1 Hreach1 Hd1) job eq_refl) as [_ [[_ Hlt] _] _ _ _ Hdur].
    destruct (_run_job _ _ _ _ _ _ _) as [s2 emitted] eqn:Hrun. destruct (Hans fuel job) as [Ha1 Ha2].
    destruct (run_job_advances s1 job _ _ s2 emitted Hon Hdur Hlt Hmode Ha1 Ha2 Hrun) as (Hmoved & Hcap2 & Hr2 & Hc2 & Hd2).
    set (w2 := {| win := s2; flight := None; stream := stream w; spoken := spoken w;
                  answered := (start_bytes job, end_bytes job) :: answered w; handed := handed w ++ [emitted] |}).
    assert (session_step isspace sample_rate pace max_context w1 w2) as Hstep2 by by apply (answers _ _ _ _ w1 job (answer fuel job).1 (answer fuel job).2).
    destruct (IH w2) as (w' & Hloop & Hsteps & Hd' & Hsp & Hall); [by eapply rtc_r|cbn; congruence|cbn; congruence|done|done|cbn [w2 win]; lia|].
    exists w'. split_and!; [done|by do 2 (eapply rtc_l; [done|])|done..].
Qed.
End Rate.

(** ** A session on concrete audio: four samples a second, a context of two seconds *)
Definition blank_char (c : Z) : bool := c =? 32.
Definition RATE : Z := 4.
Definition PACE : Q := 1.
Definition CONTEXT : Q := 2.

Definition sent (w : Session) (data : list Z) (now : Q) : Session :=
  let '(s, ok) := send RATE PACE CONTEXT (win w) data now in
  {| win := s; flight := flight w; stream := if ok then stream w ++ data else stream w;
     spoken := if ok && next_send_speech (win w) then (received_bytes (win w), received_bytes s) :: spoken w else spoken w;
     answered := answered w; handed := handed w |}.

Definition taken (w : Session) (now : Q) : Session :=
  let '(s, job) := _next_job RATE PACE CONTEXT (win w) now in
  {| win := s; flight := job; stream := stream w; spoken := spoken w; answered := answered w; handed := handed w |}.

Definition answered_with (w : Session) (segments : list RawSegment) : Session :=
  match flight w with
  | None => w
  | Some job =>
      let '(s, emitted) := _run_job blank_char RATE CONTEXT (win w) job segments [] in
      {| win := s; flight := None; stream := stream w; spoken := spoken w;
         answered := (start_bytes job, end_bytes job) :: answered w; handed := handed w ++ [emitted] |}
  end.

Lemma sent_step w data now : Z.even (Z.of_nat (length data)) = true -> session_step blank_char RATE PACE CONTEXT w (sent w data now).
Proof.
  intros He. unfold sent. destruct (send _ _ _ _ _ _) as [s ok] eqn:Hs. eapply sends; [|exact Hs].
  apply Z.even_spec in He as [k ->]. by exists k.
Qed.

Lemma taken_step w now : flight w = None -> dead (win w) = false -> _has_unemitted_speech (win w) = true -> session_step blank_char RATE PACE CONTEXT w (taken w now).
Proof. intros Hf Hd Hu. unfold taken. destruct (_next_job _ _ _ _ _) as [s job] eqn:Hj. by eapply takes. Qed.

Lemma answered_step w segments : is_Some (flight w) -> dead (win w) = false -> session_step blank_char RATE PACE CONTEXT w (answered_with w segments).
Proof.
  intros [job Hf] Hd. unfold answered_with. rewrite Hf. destruct (_run_job _ _ _ _ _ _ _) as [s emitted] eqn:Hr. by eapply answers.
Qed.

Definition say (t : list Z) (from to : Q) : RawSegment := {| raw_text := t; raw_start := from; raw_end := to |}.

(** Two and a half seconds of speech, of which the service answers the first context
    with two sentences; the second is held back. *)
Definition talking : Session := sent (with_win fresh_session (mark_speech fresh_window)) (repeat 1 20) 0.
Definition posting : Session := taken talking 0.
Definition heard : Session := answered_with posting [say [72; 105; 46] (1 # 4) 1; say [83; 111] (5 # 4) 2].
Definition closing : Session := with_win heard (close (win heard)).

Lemma posting_reached : rtc (session_step blank_char RATE PACE CONTEXT) fresh_session posting.
Proof.
  eapply rtc_l; [apply marks|]. eapply rtc_l; [apply (sent_step _ (repeat 1 20) 0); reflexivity|].
  eapply rtc_l; [apply (taken_step talking 0); reflexivity|]. apply rtc_refl.
Qed.

Lemma closing_reached : rtc (session_step blank_char RATE PACE CONTEXT) fresh_session closing.
Proof.
  eapply rtc_r; [|apply closes]. eapply rtc_r; [apply posting_reached|]. apply answered_step; [by eexists|reflexivity].
Qed.

Lemma rates_fit : 0 < RATE /\ 0 < max_context_bytes RATE CONTEXT /\ Qle_bool CONTEXT (_to_seconds RATE (max_context_bytes RATE CONTEXT)) = true.
Proof. by vm_compute. Qed.

(** The held sentence stays buffered behind the anchor, all of it speech. *)
Lemma no_speech_goes_unheard_witness :
  anchor_bytes (win closing) = 8 /\ List.map (List.map (fun e => (Qred e.1.1, Qred e.1.2, e.2))) (handed closing) = [[((1 # 4)%Q, 1%Q, [72; 105; 46])]] /\
  (forall p, inside (spoken closing) p -> inside (answered closing) p \/
     anchor_bytes (win closing) <= p /\ buf (win closing) !! Z.to_nat (p - _origin_bytes (win closing)) = stream closing !! Z.to_nat p /\ inside (speech_spans (win closing)) p) /\
  (forall job, flight posting = Some job -> pcm job = audio (stream posting) (start_bytes job) (end_bytes job) /\
     Z.of_nat (length (pcm job)) = end_bytes job - start_bytes job /\ 0 < end_bytes job - start_bytes job <= max_context_bytes RATE CONTEXT).
Proof.
  split; [reflexivity|]. split; [vm_compute; reflexivity|]. split.
  - apply (no_speech_goes_unheard blank_char RATE PACE CONTEXT (proj1 rates_fit) (proj1 (proj2 rates_fit)) closing closing_reached). reflexivity.
  - apply (no_speech_goes_unheard blank_char RATE PACE CONTEXT (proj1 rates_fit) (proj1 (proj2 rates_fit)) posting posting_reached). reflexivity.
Defined.

(** The service says nothing to the rest. *)
Lemma closing_hears_everything_witness :
  spoken closing = [(0, 20)] /\
  exists w', _pump_closed blank_char RATE PACE CONTEXT (Z.to_nat (received_bytes (win closing) - anchor_bytes (win closing))) (fun _ => 0%Q) (fun _ _ => ([], [])) closing = Some w' /\
    rtc (session_step blank_char RATE PACE CONTEXT) closing w' /\ dead (win w') = false /\ spoken w' = spoken closing /\
    forall p, inside (spoken closing) p -> inside (answered w') p.
Proof.
  split; [reflexivity|].
  apply (closing_hears_everything blank_char RATE PACE CONTEXT (proj1 rates_fit) (proj1 (proj2 rates_fit)) (proj2 (proj2 rates_fit)) closing (fun _ => 0%Q) (fun _ _ => ([], []))).
  - apply closing_reached.
  - reflexivity.
  - reflexivity.
  - reflexivity.
  - left. reflexivity.
  - by split.
Defined.
