(* ===== verification/VadGate.v ===== *)
(** The voice gate in front of a speech provider ([utils/stt/vad_gate.py]): silence is
    kept back, speech is sent with what came just before and after it, and the
    provider's times, which count sent audio only, are mapped back to the clock.

    Times are exact rationals.  What the voice model says of the windows a chunk
    completes is an argument, as is whether it raises. *)
From S2P Require Export Prelude.

Definition VAD_GATE_PRE_ROLL_MS : Q := 300.
Definition VAD_GATE_HANGOVER_MS : Q := 4000.
Definition VAD_GATE_SPEECH_THRESHOLD : Q := 65 # 100.
Definition VAD_GATE_FINALIZE_SILENCE_MS : Q := 300.
Definition VAD_GATE_KEEPALIVE_SEC : Q := 5.

Inductive GateState : Type := SILENCE | SPEECH | HANGOVER.
Inductive GateMode : Type := Off | Shadow | Active.

Record GateOutput : Type := {
  audio_to_send : list Z;
  should_finalize : bool;
  out_state : GateState;
  out_speech : bool;
}.

(** ** Mapping times *)

Record WallTimeMapper : Type := {
  _checkpoints : list (Q * Q);
  _provider_cursor_sec : Q;
  _sending : bool;
}.

Definition _MAX_CHECKPOINTS : nat := 500.

Definition Qmaximum (a b : Q) : Q := if Qle_bool b a then a else b.

(** [[cps[0]] + cps[-499:]] once there are more than 500. *)
Definition compact {A} (cps : list A) : list A :=
  if (_MAX_CHECKPOINTS <? length cps)%nat then take 1 cps ++ drop (length cps - (_MAX_CHECKPOINTS - 1)) cps else cps.

(** The moment of a new checkpoint. *)
Definition checkpoint_wall (w : WallTimeMapper) (wall_rel : Q) : Q :=
  match last (_checkpoints w) with
  | None => wall_rel
  | Some (prev_dg, prev_wall) => Qmaximum wall_rel (prev_wall + (_provider_cursor_sec w - prev_dg))
  end.

Definition on_audio_sent (w : WallTimeMapper) (duration wall_rel : Q) : WallTimeMapper :=
  {| _checkpoints := if _sending w then _checkpoints w
                     else compact (_checkpoints w ++ [(_provider_cursor_sec w, checkpoint_wall w wall_rel)]);
     _provider_cursor_sec := _provider_cursor_sec w + duration;
     _sending := true |}.

Definition on_silence_skipped (w : WallTimeMapper) : WallTimeMapper :=
  {| _checkpoints := _checkpoints w; _provider_cursor_sec := _provider_cursor_sec w; _sending := false |}.

(** [bisect.bisect_right]: the interval halves until it is empty. *)
Fixpoint bisect_right (fuel : nat) (marks : list Q) (x : Q) (lo hi : nat) : nat :=
  match fuel with
  | O => lo
  | S fuel =>
      if (lo <? hi)%nat then
        let mid := ((lo + hi) / 2)%nat in
        if negb (Qle_bool (default 0%Q (marks !! mid)) x) then bisect_right fuel marks x lo mid else bisect_right fuel marks x (S mid) hi
      else lo
  end.

Definition dg_to_wall_rel (w : WallTimeMapper) (dg : Q) : Q :=
  let marks := (_checkpoints w).*1 in
  let i := (bisect_right (length marks) marks dg 0 (length marks) - 1)%nat in
  match _checkpoints w !! i with
  | Some (cp_dg, cp_wall) => cp_wall + (dg - cp_dg)
  | None => dg
  end.

(** ** The gate *)

Record Gate : Type := {
  mode : GateMode;
  state : GateState;
  _audio_cursor_ms : Q;
  _last_speech_ms : Q;
  _hangover_finalized : bool;
  _pre_roll : list (list Z);
  _pre_roll_total_ms : Q;
  dg_wall_mapper : WallTimeMapper;
  _finalize_count : Z;
  _bytes_received : Z;
  _bytes_sent : Z;
  _first_audio_wall_time : option Q;
  _last_send_wall_time : option Q;
  _speech_ms_delta : Q;
  _prometheus_bytes_sent : Z;
  _prometheus_bytes_skipped : Z;
}.

Definition fresh_mapper : WallTimeMapper := {| _checkpoints := []; _provider_cursor_sec := 0; _sending := false |}.

Definition fresh_gate (m : GateMode) : Gate :=
  {| mode := m; state := SILENCE; _audio_cursor_ms := 0; _last_speech_ms := 0; _hangover_finalized := false; _pre_roll := [];
     _pre_roll_total_ms := 0; dg_wall_mapper := fresh_mapper; _finalize_count := 0; _bytes_received := 0; _bytes_sent := 0;
     _first_audio_wall_time := None; _last_send_wall_time := None; _speech_ms_delta := 0; _prometheus_bytes_sent := 0;
     _prometheus_bytes_skipped := 0 |}.

Section Gate.
Context (sample_rate channels : Z) (hangover_ms speech_threshold continue_threshold : Q).

Definition bytes_per_second : Z := 2 * channels * sample_rate.
Definition byte_seconds (n : Z) : Q := (inject_Z n / inject_Z bytes_per_second)%Q.
Definition millis (n : Z) : Q := (byte_seconds n * 1000)%Q.
Definition size (pcm : list Z) : Z := Z.of_nat (length pcm).

(** [activate], from shadow to active. *)
Definition activate (g : Gate) : Gate :=
  match mode g with
  | Shadow =>
      {| mode := Active; state := SILENCE; _audio_cursor_ms := _audio_cursor_ms g; _last_speech_ms := _last_speech_ms g;
         _hangover_finalized := false; _pre_roll := []; _pre_roll_total_ms := 0;
         dg_wall_mapper := {| _checkpoints := _checkpoints (dg_wall_mapper g); _provider_cursor_sec := (_audio_cursor_ms g / 1000)%Q;
                              _sending := _sending (dg_wall_mapper g) |};
         _finalize_count := _finalize_count g; _bytes_received := _bytes_received g; _bytes_sent := _bytes_sent g;
         _first_audio_wall_time := _first_audio_wall_time g; _last_send_wall_time := _last_send_wall_time g;
         _speech_ms_delta := _speech_ms_delta g; _prometheus_bytes_sent := _prometheus_bytes_sent g;
         _prometheus_bytes_skipped := _prometheus_bytes_skipped g |}
  | _ => g
  end.

Definition needs_keepalive (g : Gate) (wall_time : Q) : bool :=
  match mode g with
  | Active =>
      let sent := match _last_send_wall_time g with Some t => if Qeq_bool t 0 then None else Some t | None => None end in
      match (match sent with Some t => Some t | None => _first_audio_wall_time g end) with
      | Some t => Qle_bool VAD_GATE_KEEPALIVE_SEC (wall_time - t)
      | None => false
      end
  | _ => false
  end.

(** The start threshold in silence, the threshold to go on with otherwise. *)
Definition _decision_threshold (s : GateState) : Q :=
  match s with SILENCE => speech_threshold | _ => if Qle_bool speech_threshold continue_threshold then speech_threshold else continue_threshold end.

(** [probabilities] of the windows completed. *)
Definition _run_vad (s : GateState) (probabilities : list Q) : bool :=
  existsb (fun p => negb (Qle_bool p (_decision_threshold s))) probabilities.

Definition pending (g : Gate) : Z := foldr (fun chunk n => size chunk + n) 0 (_pre_roll g).

(** What the two counters are raised by, and the gate after it. *)
Definition prometheus_deltas (g : Gate) : Z * Z :=
  (_bytes_sent g - _prometheus_bytes_sent g,
   Z.max 0 (_bytes_received g - _bytes_sent g - pending g) - _prometheus_bytes_skipped g).

Definition with_counters (g : Gate) (sent skipped : Z) : Gate :=
  {| mode := mode g; state := state g; _audio_cursor_ms := _audio_cursor_ms g; _last_speech_ms := _last_speech_ms g;
     _hangover_finalized := _hangover_finalized g; _pre_roll := _pre_roll g; _pre_roll_total_ms := _pre_roll_total_ms g;
     dg_wall_mapper := dg_wall_mapper g; _finalize_count := _finalize_count g; _bytes_received := _bytes_received g;
     _bytes_sent := _bytes_sent g; _first_audio_wall_time := _first_audio_wall_time g; _last_send_wall_time := _last_send_wall_time g;
     _speech_ms_delta := _speech_ms_delta g; _prometheus_bytes_sent := sent; _prometheus_bytes_skipped := skipped |}.

Definition _record_prometheus_audio (g : Gate) : Gate :=
  match mode g with
  | Off => g
  | _ => with_counters g (_bytes_sent g) (Z.max 0 (_bytes_received g - _bytes_sent g - pending g))
  end.

(** What a transition sets. *)
Definition moved (g : Gate) (s : GateState) (finalized : bool) (roll : list (list Z)) (roll_ms : Q) (w : WallTimeMapper) (finalizes sent : Z) (send_wall : option Q) : Gate :=
  {| mode := mode g; state := s; _audio_cursor_ms := _audio_cursor_ms g; _last_speech_ms := _last_speech_ms g;
     _hangover_finalized := finalized; _pre_roll := roll; _pre_roll_total_ms := roll_ms; dg_wall_mapper := w;
     _finalize_count := _finalize_count g + finalizes; _bytes_received := _bytes_received g; _bytes_sent := _bytes_sent g + sent;
     _first_audio_wall_time := _first_audio_wall_time g;
     _last_send_wall_time := match send_wall with Some t => Some t | None => _last_send_wall_time g end;
     _speech_ms_delta := _speech_ms_delta g; _prometheus_bytes_sent := _prometheus_bytes_sent g;
     _prometheus_bytes_skipped := _prometheus_bytes_skipped g |}.

(** Eviction from the front while more than the pre-roll is kept, but for one chunk. *)
Fixpoint evict (roll : list (list Z)) (total : Q) : list (list Z) * Q :=
  match roll with
  | chunk :: (_ :: _) as rest => if negb (Qle_bool total VAD_GATE_PRE_ROLL_MS) then evict rest (total - millis (size chunk)) else (roll, total)
  | _ => (roll, total)
  end.

Definition answer (audio : list Z) (finalize_ : bool) (s : GateState) (speech : bool) : GateOutput :=
  {| audio_to_send := audio; should_finalize := finalize_; out_state := s; out_speech := speech |}.

Definition wall_rel_of (g : Gate) (wall_time : Q) : Q :=
  match _first_audio_wall_time g with
  | Some t => if Qeq_bool t 0 then 0%Q else (wall_time - t)%Q
  | None => 0%Q
  end.

Definition _update_state (g : Gate) (pcm : list Z) (is_speech : bool) (wall_time : Q) : Gate * GateOutput :=
  let wall_rel := wall_rel_of g wall_time in
  let duration := byte_seconds (size pcm) in
  let w := dg_wall_mapper g in
  match state g with
  | SILENCE =>
      let '(roll, total) := evict (_pre_roll g ++ [pcm]) (_pre_roll_total_ms g + duration * 1000)%Q in
      if is_speech then
        let audio := concat roll in
        let roll_duration := byte_seconds (size audio) in
        (moved g SPEECH (_hangover_finalized g) [] 0%Q (on_audio_sent w roll_duration (Qmaximum 0 (wall_rel - roll_duration + duration)))
               0 (size audio) (Some wall_time),
         answer audio false SPEECH true)
      else (moved g SILENCE (_hangover_finalized g) roll total (on_silence_skipped w) 0 0 None, answer [] false SILENCE false)
  | SPEECH =>
      let s := if is_speech then SPEECH else HANGOVER in
      (moved g s (is_speech && _hangover_finalized g) (_pre_roll g) (_pre_roll_total_ms g) (on_audio_sent w duration wall_rel) 0 (size pcm) (Some wall_time),
       answer pcm false s is_speech)
  | HANGOVER =>
      let since := (_audio_cursor_ms g - _last_speech_ms g)%Q in
      if is_speech then
        (moved g SPEECH false (_pre_roll g) (_pre_roll_total_ms g) (on_audio_sent w duration wall_rel) 0 (size pcm) (Some wall_time), answer pcm false SPEECH true)
      else if negb (Qle_bool since hangover_ms) then
        let need := negb (_hangover_finalized g) in
        (moved g SILENCE false [pcm] (duration * 1000)%Q (on_silence_skipped w) (if need then 1 else 0) 0 None, answer [] need SILENCE false)
      else
        let now := negb (_hangover_finalized g) && Qle_bool VAD_GATE_FINALIZE_SILENCE_MS since in
        (moved g HANGOVER (now || _hangover_finalized g) (_pre_roll g) (_pre_roll_total_ms g) (on_audio_sent w duration wall_rel)
               (if now then 1 else 0) (size pcm) (Some wall_time),
         answer pcm now HANGOVER false)
  end.

(** The length of the whole samples of a chunk. *)
Definition frame_ms (pcm : list Z) : Q := (inject_Z (size pcm / (2 * channels)) * 1000 / inject_Z sample_rate)%Q.

(** What a chunk does before the gate decides. *)
Definition arrived (g : Gate) (pcm : list Z) (wall_time : Q) (is_speech : bool) : Gate :=
  let ms := frame_ms pcm in
  let cursor := (_audio_cursor_ms g + ms)%Q in
  {| mode := mode g; state := state g; _audio_cursor_ms := cursor; _last_speech_ms := if is_speech then cursor else _last_speech_ms g;
     _hangover_finalized := _hangover_finalized g; _pre_roll := _pre_roll g; _pre_roll_total_ms := _pre_roll_total_ms g;
     dg_wall_mapper := dg_wall_mapper g; _finalize_count := _finalize_count g; _bytes_received := _bytes_received g + size pcm;
     _bytes_sent := _bytes_sent g; _first_audio_wall_time := Some (default wall_time (_first_audio_wall_time g));
     _last_send_wall_time := _last_send_wall_time g;
     _speech_ms_delta := match mode g with Active => if is_speech then (_speech_ms_delta g + ms)%Q else _speech_ms_delta g | _ => _speech_ms_delta g end;
     _prometheus_bytes_sent := _prometheus_bytes_sent g; _prometheus_bytes_skipped := _prometheus_bytes_skipped g |}.

(** The decision on a chunk, before the counters are raised. *)
Definition decided (g : Gate) (pcm : list Z) (wall_time : Q) (probabilities : list Q) : Gate * GateOutput :=
  let is_speech := _run_vad (state g) probabilities in
  let g1 := arrived g pcm wall_time is_speech in
  match mode g with
  | Shadow =>
      (moved g1 (state g1) (_hangover_finalized g1) (_pre_roll g1) (_pre_roll_total_ms g1) (dg_wall_mapper g1) 0 (size pcm) (Some wall_time),
       answer pcm false (state g1) is_speech)
  | _ => _update_state g1 pcm is_speech wall_time
  end.

Definition process_audio (g : Gate) (pcm : list Z) (wall_time : Q) (probabilities : list Q) : Gate * GateOutput :=
  let '(g2, out) := decided g pcm wall_time probabilities in (_record_prometheus_audio g2, out).

Definition record_keepalive (g : Gate) (wall_time : Q) : Gate :=
  moved g (state g) (_hangover_finalized g) (_pre_roll g) (_pre_roll_total_ms g) (dg_wall_mapper g) 0 0 (Some wall_time).

(** The fair-use accumulator is handed out in whole milliseconds and reset. *)
Definition consume_speech_ms_delta (g : Gate) : Gate * Z :=
  ({| mode := mode g; state := state g; _audio_cursor_ms := _audio_cursor_ms g; _last_speech_ms := _last_speech_ms g;
      _hangover_finalized := _hangover_finalized g; _pre_roll := _pre_roll g; _pre_roll_total_ms := _pre_roll_total_ms g;
      dg_wall_mapper := dg_wall_mapper g; _finalize_count := _finalize_count g; _bytes_received := _bytes_received g;
      _bytes_sent := _bytes_sent g; _first_audio_wall_time := _first_audio_wall_time g; _last_send_wall_time := _last_send_wall_time g;
      _speech_ms_delta := 0; _prometheus_bytes_sent := _prometheus_bytes_sent g; _prometheus_bytes_skipped := _prometheus_bytes_skipped g |},
   Z.quot (Qnum (_speech_ms_delta g)) (Zpos (Qden (_speech_ms_delta g)))).

(** [remap_segments] on the times of a segment. *)
Definition remap_segments (g : Gate) (segments : list (Q * Q)) : list (Q * Q) :=
  match mode g with
  | Active => (fun se => (dg_to_wall_rel (dg_wall_mapper g) se.1, dg_to_wall_rel (dg_wall_mapper g) se.2)) <$> segments
  | _ => segments
  end.

(** ** The gated socket *)

Section Socket.
Context {C : Type} (conn_send : C -> list Z -> C * bool) (conn_finalize : C -> C * bool) (conn_dead : C -> bool) (conn_finish : C -> C).

(** [conn_finalize] tells whether it returned; the gate of the rest of a session is
    [None] after it raised. *)
Record GatedSTTSocket : Type := { _conn : C; _gate : option Gate; finalize_errors : Z }.

Definition socket_send (passthrough_audio : bool) (s : GatedSTTSocket) (data : list Z) (now : Q) (vad : option (list Q)) : GatedSTTSocket * bool :=
  if conn_dead (_conn s) then (s, false) else
  let direct := let '(c, ok) := conn_send (_conn s) data in ({| _conn := c; _gate := None; finalize_errors := finalize_errors s |}, ok) in
  match _gate s, vad with
  | None, _ => direct
  | Some _, None => direct
  | Some g, Some probabilities =>
      let '(g, out) := process_audio g data now probabilities in
      let '(c, accepted) := if passthrough_audio then conn_send (_conn s) data
                            else match audio_to_send out with [] => (_conn s, true) | audio => conn_send (_conn s) audio end in
      if should_finalize out then
        let '(c, returned) := conn_finalize c in
        if (returned : bool) then ({| _conn := c; _gate := Some g; finalize_errors := finalize_errors s |}, accepted)
        else ({| _conn := c; _gate := Some g; finalize_errors := finalize_errors s + 1 |}, false)
      else ({| _conn := c; _gate := Some g; finalize_errors := finalize_errors s |}, accepted)
  end.

Definition socket_finish (s : GatedSTTSocket) : GatedSTTSocket :=
  match _gate s with
  | Some g =>
      match mode g with
      | Active => let '(c, returned) := conn_finalize (_conn s) in
                  {| _conn := conn_finish c; _gate := Some g; finalize_errors := finalize_errors s + (if (returned : bool) then 0 else 1) |}
      | _ => {| _conn := conn_finish (_conn s); _gate := Some g; finalize_errors := finalize_errors s |}
      end
  | None => {| _conn := conn_finish (_conn s); _gate := None; finalize_errors := finalize_errors s |}
  end.
End Socket.
End Gate.
