(* ===== verification/VadGateOps.v ===== *)
(** What the voice gate guarantees: times keep their order, speech passes, and no counter
    runs backwards. *)
From Stdlib Require Import Lqa Sorting.Sorted.
From stdpp Require Import sorting.
From S2P Require Export VadGate.

(** ** Searching the marks *)

Lemma bisect_right_spec fuel marks x lo hi :
  (forall i j a b, (i <= j)%nat -> marks !! i = Some a -> marks !! j = Some b -> a <= b)%Q ->
  (hi - lo <= fuel)%nat -> (lo <= hi <= length marks)%nat ->
  (forall i a, (i < lo)%nat -> marks !! i = Some a -> a <= x)%Q -> (forall i a, (hi <= i)%nat -> marks !! i = Some a -> x < a)%Q ->
  let n := bisect_right fuel marks x lo hi in
  (n <= length marks)%nat /\ (forall i a, (i < n)%nat -> marks !! i = Some a -> a <= x)%Q /\ (forall i a, (n <= i)%nat -> marks !! i = Some a -> x < a)%Q.
Proof.
  intros Hsorted. revert lo hi. induction fuel as [|fuel IH]; intros lo hi Hfuel Hle Hlo Hhi; cbn [bisect_right].
  { replace hi with lo in * by lia. split_and!; [lia|done..]. }
  destruct (Nat.ltb_spec lo hi); [|replace hi with lo in * by lia; split_and!; [lia|done..]].
  set (mid := ((lo + hi) / 2)%nat). assert (lo <= mid < hi)%nat as Hmid.
  { subst mid. pose proof (Nat.div_mod_eq (lo + hi) 2). pose proof (Nat.mod_upper_bound (lo + hi) 2). lia. }
  clearbody mid. destruct (lookup_lt_is_Some_2 marks mid ltac:(lia)) as [m Hm]. rewrite Hm. cbn [default]. unfold id.
  destruct (Qle_bool m x) eqn:E; cbn [negb].
  - apply Qle_bool_iff in E. apply IH; [lia|lia| |done]. intros i a Hi Ha. eapply Qle_trans; [|exact E]. by apply (Hsorted i mid); [lia|..].
  - assert (x < m)%Q as Hxm by (apply Qnot_le_lt; intros H'; apply Qle_bool_iff in H'; congruence).
    apply IH; [lia|lia|done|]. intros i a Hi Ha. eapply Qlt_le_trans; [exact Hxm|]. by apply (Hsorted mid i).
Qed.

(** ** Order *)

(** A later checkpoint is at least as much later on the clock as in the audio. *)
Definition follows (a b : Q * Q) : Prop := (a.1 <= b.1 /\ a.2 + (b.1 - a.1) <= b.2)%Q.

Lemma sorted_lookup {A} (R : relation A) l i j a b : StronglySorted R l -> (i < j)%nat -> l !! i = Some a -> l !! j = Some b -> R a b.
Proof.
  intros Hs Hij Ha Hb. rewrite <- (take_drop j l) in Hs. apply (StronglySorted_app_1_elem_of _ _ _ _ _ Hs).
  - apply list_elem_of_lookup. exists i. by rewrite lookup_take_lt.
  - apply list_elem_of_lookup. exists 0%nat. rewrite lookup_drop. by rewrite Nat.add_0_r.
Qed.

Lemma sorted_compact {A} (R : relation A) l : StronglySorted R l -> StronglySorted R (compact l).
Proof.
  intros Hs. unfold compact. destruct (Nat.ltb_spec _MAX_CHECKPOINTS (length l)) as [Hlen|]; [|done]. unfold _MAX_CHECKPOINTS in *.
  set (k := (length l - (500 - 1))%nat). assert (1 <= k)%nat by lia. clearbody k. pose proof Hs as Hs'. rewrite <- (take_drop k l) in Hs.
  apply StronglySorted_app in Hs as (Hcross & Htake & Hdrop). apply StronglySorted_app. split_and!; [|by destruct l; repeat constructor|done].
  intros x y Hx Hy. apply Hcross; [|done]. apply list_elem_of_lookup in Hx as [i Hi]. apply lookup_take_Some in Hi as [Hi Hlt].
  apply list_elem_of_lookup. exists i. rewrite lookup_take_lt; [done|lia].
Qed.

Record mapper_ok (w : WallTimeMapper) : Prop := {
  cps_follow : StronglySorted follows (_checkpoints w);
  cursor_last cp : cp ∈ _checkpoints w -> (cp.1 <= _provider_cursor_sec w)%Q;
}.

Lemma Qmaximum_l a b : (a <= Qmaximum a b)%Q.
Proof. unfold Qmaximum. destruct (Qle_bool b a) eqn:E; [lra|]. apply Qnot_lt_le. intros H%Qlt_le_weak%Qle_bool_iff. congruence. Qed.

Lemma Qmaximum_r a b : (b <= Qmaximum a b)%Q.
Proof. unfold Qmaximum. destruct (Qle_bool b a) eqn:E; [by apply Qle_bool_iff|lra]. Qed.

Lemma follows_trans a b c : follows a b -> follows b c -> follows a c.
Proof. unfold follows. intros [? ?] [? ?]. split; lra. Qed.

Lemma sent_ok w duration wall_rel : (0 <= duration)%Q -> mapper_ok w -> mapper_ok (on_audio_sent w duration wall_rel).
Proof.
  intros Hd [Hs Hc]. unfold on_audio_sent. split; cbn [_checkpoints _provider_cursor_sec]; destruct (_sending w).
  - done.
  - apply sorted_compact, StronglySorted_app. split_and!; [|done|by repeat constructor]. intros cp x Hcp Hx%list_elem_of_singleton. subst x.
    unfold checkpoint_wall. destruct (last (_checkpoints w)) as [[d wl]|] eqn:Hl; [|apply last_None in Hl; rewrite Hl in Hcp; by apply not_elem_of_nil in Hcp].
    pose proof Hl as [init Hi]%last_Some. pose proof (Qmaximum_r wall_rel (wl + (_provider_cursor_sec w - d))) as Hmax.
    assert (follows (d, wl) (_provider_cursor_sec w, Qmaximum wall_rel (wl + (_provider_cursor_sec w - d)))) as Hnew.
    { specialize (Hc (d, wl)). rewrite Hi in Hc. specialize (Hc ltac:(set_solver)). split; cbn in *; lra. }
    rewrite Hi in Hcp, Hs. apply elem_of_app in Hcp as [Hcp|Hcp%list_elem_of_singleton]; [|by subst cp].
    eapply follows_trans; [|exact Hnew]. apply (StronglySorted_app_1_elem_of _ _ _ _ _ Hs Hcp). set_solver.
  - intros cp Hcp. specialize (Hc cp Hcp). lra.
  - intros cp Hcp. assert (cp ∈ _checkpoints w ++ [(_provider_cursor_sec w, checkpoint_wall w wall_rel)]) as Hin.
    { revert Hcp. unfold compact. destruct (_ <? _)%nat; [|done]. rewrite elem_of_app.
      intros [(k & Hk & _)%elem_of_take|[k Hk]%list_elem_of_lookup]; [|rewrite lookup_drop in Hk]; by eapply list_elem_of_lookup_2. }
    apply elem_of_app in Hin as [Hin|Hin%list_elem_of_singleton]; [specialize (Hc cp Hin); lra|subst cp; cbn; lra].
Qed.

(** The checkpoint a time is counted from: the last whose mark is not after it, or the
    first. *)
Lemma dg_to_wall_rel_spec w dg :
  StronglySorted follows (_checkpoints w) ->
  (_checkpoints w = [] /\ dg_to_wall_rel w dg = dg) \/
  exists i cp, _checkpoints w !! i = Some cp /\ dg_to_wall_rel w dg = (cp.2 + (dg - cp.1))%Q /\
    (i = 0%nat \/ cp.1 <= dg)%Q /\ forall j cp', (i < j)%nat -> _checkpoints w !! j = Some cp' -> (dg < cp'.1)%Q.
Proof.
  intros Hs. set (marks := (_checkpoints w).*1). set (n := bisect_right (length marks) marks dg 0 (length marks)).
  assert (forall i, marks !! i = fst <$> _checkpoints w !! i) as Hm by (intros; apply list_lookup_fmap).
  assert (length marks = length (_checkpoints w)) as Hlen by apply length_fmap.
  destruct (bisect_right_spec (length marks) marks dg 0 (length marks)) as (Hn & Hbefore & Hafter); [|lia|lia|intros; lia|intros i a Hi%lookup_ge_None_2; congruence|].
  { intros i j a b Hij. rewrite !Hm. destruct (_checkpoints w !! i) as [x|] eqn:Hx; [|done]. destruct (_checkpoints w !! j) as [y|] eqn:Hy; [|done]. intros [= <-] [= <-].
    destruct (decide (i = j)) as [->|]; [rewrite Hx in Hy; injection Hy as <-; lra|].
    destruct (sorted_lookup _ _ i j x y Hs) as [? _]; [lia|done..]. }
  fold n in Hn, Hbefore, Hafter. unfold dg_to_wall_rel. fold marks. fold n.
  destruct (_checkpoints w !! (n - 1)%nat) as [cp|] eqn:Hcp.
  - right. exists (n - 1)%nat, cp. split_and!; [done|by destruct cp| |].
    + destruct (decide (n = 0)%nat) as [->|]; [by left|right]. apply (Hbefore (n - 1)%nat); [lia|]. by rewrite Hm, Hcp.
    + intros j cp' Hj Hcp'. apply (Hafter j); [lia|]. by rewrite Hm, Hcp'.
  - left. split; [|done]. apply lookup_ge_None in Hcp. destruct (_checkpoints w); [done|]. cbn in *. lia.
Qed.

(** Mapping keeps the order of times and never brings two closer. *)
Lemma mapping_expands w dg dg' : mapper_ok w -> (dg <= dg')%Q -> (dg_to_wall_rel w dg + (dg' - dg) <= dg_to_wall_rel w dg')%Q.
Proof.
  intros [Hs _] Hle. destruct (dg_to_wall_rel_spec w dg Hs) as [[Hnil ->]|(i & cp & Hi & -> & Hb & Ha)];
    destruct (dg_to_wall_rel_spec w dg' Hs) as [[Hnil' ->]|(i' & cp' & Hi' & -> & Hb' & Ha')]; try (rewrite Hnil in *; done); try (rewrite Hnil' in *; done); [lra|].
  destruct (Nat.lt_trichotomy i i') as [Hlt|[->|Hgt]].
  - destruct (sorted_lookup _ _ i i' cp cp' Hs Hlt Hi Hi') as [H1 H2]. lra.
  - rewrite Hi in Hi'. injection Hi' as <-. lra.
  - exfalso. specialize (Ha' i cp Hgt Hi). destruct Hb as [->|Hb]; [lia|]. lra.
Qed.

(** ** Histories *)

Section Rate.
Context (sample_rate channels : Z) (hangover_ms speech_threshold continue_threshold : Q).
Hypothesis rate_pos : 0 < sample_rate.
Hypothesis channels_pos : 0 < channels.

Notation decide_chunk := (decided sample_rate channels hangover_ms speech_threshold continue_threshold).
Notation process := (process_audio sample_rate channels hangover_ms speech_threshold continue_threshold).

Inductive GateOp : Type := Hears (pcm : list Z) (wall_time : Q) (probabilities : list Q) | Activates | Consumes | KeepsAlive (wall_time : Q).

Definition gate_op (g : Gate) (op : GateOp) : Gate :=
  match op with
  | Hears pcm wall_time probabilities => (process g pcm wall_time probabilities).1
  | Activates => activate g
  | Consumes => (consume_speech_ms_delta g).1
  | KeepsAlive wall_time => record_keepalive g wall_time
  end.

Lemma bps_pos : 0 < bytes_per_second sample_rate channels.
Proof. unfold bytes_per_second. nia. Qed.

Lemma seconds_le a b : a <= b -> (byte_seconds sample_rate channels a <= byte_seconds sample_rate channels b)%Q.
Proof.
  intros H. unfold byte_seconds. apply Qmult_le_compat_r; [by rewrite <- Zle_Qle|]. apply Qinv_le_0_compat.
  change 0%Q with (inject_Z 0). rewrite <- Zle_Qle. pose proof bps_pos. lia.
Qed.

Lemma seconds_zero : (byte_seconds sample_rate channels 0 == 0)%Q.
Proof. unfold byte_seconds, Qdiv. apply Qmult_0_l. Qed.

Lemma seconds_add a b : (byte_seconds sample_rate channels (a + b) == byte_seconds sample_rate channels a + byte_seconds sample_rate channels b)%Q.
Proof. unfold byte_seconds, Qdiv. rewrite inject_Z_plus. apply Qmult_plus_distr_l. Qed.

Lemma seconds_sub a b : (byte_seconds sample_rate channels (a - b) == byte_seconds sample_rate channels a - byte_seconds sample_rate channels b)%Q.
Proof. pose proof (seconds_add (a - b) b) as H. replace (a - b + b) with a in H by lia. lra. Qed.

Lemma seconds_nonneg a : 0 <= a -> (0 <= byte_seconds sample_rate channels a)%Q.
Proof. intros H%seconds_le. pose proof seconds_zero. lra. Qed.

(** How the decision moves the mapper: it sends some audio, skips, or (in shadow)
    leaves it. *)
Lemma decided_mapper g pcm wall_time probabilities :
  let w := dg_wall_mapper g in let w' := dg_wall_mapper (decide_chunk g pcm wall_time probabilities).1 in
  mode g = Shadow /\ w' = w \/ mode g <> Shadow /\ (w' = on_silence_skipped w \/ exists n x, 0 <= n /\ w' = on_audio_sent w (byte_seconds sample_rate channels n) x).
Proof.
  unfold decided. set (sp := _run_vad _ _ _ _). set (g1 := arrived _ _ _ _ _ _).
  assert (dg_wall_mapper g1 = dg_wall_mapper g) as Hw by done. assert (forall l, 0 <= size l) as Hsize by (intros; unfold size; lia).
  destruct (mode g) eqn:Hm; [right|by left|right]; (split; [done|]); unfold _update_state; rewrite <- Hw.
  all: destruct (state g1); [destruct (evict _ _ _ _) as [roll total]|..]; destruct sp; cbn [fst dg_wall_mapper moved].
  all: try (right; eexists _, _; split; [apply Hsize|done]); try (by left).
  all: destruct (negb _); cbn [fst dg_wall_mapper moved]; [by left|right; eexists _, _; split; [apply Hsize|done]].
Qed.

(** What the gate makes of a chunk, as far as audio and times go. *)
Inductive moves (g : Gate) (pcm : list Z) (is_speech : bool) (wall_time : Q) (g' : Gate) (out : GateOutput) : Prop :=
| begins roll total :
    state g = SILENCE -> is_speech = true -> state g' = SPEECH ->
    evict sample_rate channels (_pre_roll g ++ [pcm]) (_pre_roll_total_ms g + byte_seconds sample_rate channels (size pcm) * 1000)%Q = (roll, total) ->
    audio_to_send out = concat roll -> _pre_roll g' = [] -> _bytes_sent g' = _bytes_sent g + size (concat roll) ->
    dg_wall_mapper g' = on_audio_sent (dg_wall_mapper g) (byte_seconds sample_rate channels (size (concat roll)))
      (Qmaximum 0 (wall_rel_of g wall_time - byte_seconds sample_rate channels (size (concat roll)) + byte_seconds sample_rate channels (size pcm))) ->
    moves g pcm is_speech wall_time g' out
| waits roll total :
    state g = SILENCE -> is_speech = false -> state g' = SILENCE ->
    evict sample_rate channels (_pre_roll g ++ [pcm]) (_pre_roll_total_ms g + byte_seconds sample_rate channels (size pcm) * 1000)%Q = (roll, total) ->
    audio_to_send out = [] -> _pre_roll g' = roll -> _bytes_sent g' = _bytes_sent g -> dg_wall_mapper g' = on_silence_skipped (dg_wall_mapper g) ->
    moves g pcm is_speech wall_time g' out
| goes_on :
    state g <> SILENCE -> state g' <> SILENCE -> (is_speech = true -> state g' = SPEECH) ->
    audio_to_send out = pcm -> _pre_roll g' = _pre_roll g -> _bytes_sent g' = _bytes_sent g + size pcm ->
    dg_wall_mapper g' = on_audio_sent (dg_wall_mapper g) (byte_seconds sample_rate channels (size pcm)) (wall_rel_of g wall_time) ->
    moves g pcm is_speech wall_time g' out
| falls_silent :
    state g = HANGOVER -> is_speech = false -> (hangover_ms < _audio_cursor_ms g - _last_speech_ms g)%Q -> state g' = SILENCE ->
    audio_to_send out = [] -> _pre_roll g' = [pcm] -> _bytes_sent g' = _bytes_sent g -> dg_wall_mapper g' = on_silence_skipped (dg_wall_mapper g) ->
    moves g pcm is_speech wall_time g' out.

(** What no transition changes. *)
Record steady (g g' : Gate) : Prop := {
  steady_mode : mode g' = mode g;
  steady_first : _first_audio_wall_time g' = _first_audio_wall_time g;
  steady_cursor : _audio_cursor_ms g' = _audio_cursor_ms g;
  steady_speech : _last_speech_ms g' = _last_speech_ms g;
  steady_received : _bytes_received g' = _bytes_received g;
  steady_counted : _prometheus_bytes_sent g' = _prometheus_bytes_sent g /\ _prometheus_bytes_skipped g' = _prometheus_bytes_skipped g;
}.

Lemma update_moves g pcm is_speech wall_time g' out :
  _update_state sample_rate channels hangover_ms g pcm is_speech wall_time = (g', out) -> moves g pcm is_speech wall_time g' out /\ steady g g'.
Proof.
  unfold _update_state. destruct (state g) eqn:Hs.
  - destruct (evict _ _ _ _) as [roll total] eqn:Hev. destruct is_speech; intros [= <- <-]; (split; [|by split]).
    + by eapply begins.
    + eapply waits; try done. cbn. lia.
  - intros [= <- <-]. split; [|by split]. apply goes_on; cbn; try done; [by rewrite Hs|by destruct is_speech|by destruct is_speech].
  - destruct is_speech; [intros [= <- <-]; (split; [|by split]); apply goes_on; cbn; try done; by rewrite Hs|].
    destruct (Qle_bool _ hangover_ms) eqn:E; cbn [negb]; intros [= <- <-]; (split; [|by split]).
    + apply goes_on; cbn; try done. by rewrite Hs.
    + apply falls_silent; cbn; try done; [|lia]. apply Qnot_le_lt. intros H%Qle_bool_iff. congruence.
Qed.

Lemma evict_keeps roll total roll' total' :
  roll <> [] -> evict sample_rate channels roll total = (roll', total') -> roll' <> [] /\ exists pre, roll = pre ++ roll'.
Proof.
  revert total. induction roll as [|c roll IH]; intros total Hne; [done|]. cbn [evict]. destruct roll as [|c' roll].
  - intros [= <- _]. split; [done|by exists []].
  - destruct (negb _); [|intros [= <- _]; split; [done|by exists []]]. intros Hev. destruct (IH _ ltac:(done) Hev) as (Hne' & pre & Hpre).
    split; [done|]. exists (c :: pre). cbn. by rewrite Hpre.
Qed.

Record gate_ok (g : Gate) : Prop := {
  ok_mapper : mapper_ok (dg_wall_mapper g);
  ok_shadow : mode g = Shadow -> _checkpoints (dg_wall_mapper g) = [] /\ _sending (dg_wall_mapper g) = false;
}.

Lemma decided_mode g pcm wall_time probabilities : mode (decide_chunk g pcm wall_time probabilities).1 = mode g.
Proof.
  unfold decided. set (sp := _run_vad _ _ _ _). set (g1 := arrived _ _ _ _ _ _). assert (mode g1 = mode g) as <- by done.
  destruct (mode g1) eqn:Hm; [|by cbn|]; unfold _update_state; (destruct (state g1); [destruct (evict _ _ _ _) as [roll total]|..]; destruct sp; try done; by destruct (negb _)).
Qed.

Lemma process_mapper g pcm wall_time probabilities :
  dg_wall_mapper (process g pcm wall_time probabilities).1 = dg_wall_mapper (decide_chunk g pcm wall_time probabilities).1 /\
  mode (process g pcm wall_time probabilities).1 = mode g.
Proof.
  unfold process_audio. pose proof (decided_mode g pcm wall_time probabilities) as Hm. destruct (decided _ _ _ _ _ _ _ _ _) as [g2 out]. cbn [fst] in *.
  unfold _record_prometheus_audio. destruct (mode g2) eqn:E; split; solve [reflexivity | cbn; congruence].
Qed.

Lemma op_ok g op : gate_ok g -> gate_ok (gate_op g op).
Proof.
  intros [Hm Hs]. destruct op as [pcm wall_time probabilities| | |wall_time]; cbn [gate_op].
  - destruct (process_mapper g pcm wall_time probabilities) as [Hw Hmode]. split; rewrite Hw, ?Hmode.
    + destruct (decided_mapper g pcm wall_time probabilities) as [[_ ->]|[_ [->|(n & x & Hn & ->)]]]; [done|by destruct Hm|].
      apply sent_ok; [by apply seconds_nonneg|done].
    + intros Hsh. destruct (decided_mapper g pcm wall_time probabilities) as [[_ ->]|[? _]]; [by apply Hs|done].
  - unfold activate. destruct (mode g) eqn:E; [by split; rewrite ?E|destruct (Hs eq_refl) as [Hc Hsend]|by split; rewrite ?E].
    split; cbn [dg_wall_mapper mode]; [|done]. split; cbn [_checkpoints _provider_cursor_sec]; rewrite Hc; [constructor|by intros cp ?%not_elem_of_nil].
  - by split.
  - by split.
Qed.

(** C36: mapping the provider's times back to the clock keeps their order.  Whatever the
    gate hears and decides, whether it starts in shadow or not, whenever it is
    activated and however the clock jumps: a time that is not before another is not
    mapped before it, and no two times are brought closer together; so no segment is
    turned around or shortened, and none is moved before one it follows. *)
Theorem remapped_times_keep_order m ops a b :
  (a <= b)%Q ->
  exists a' b', remap_segments (foldl gate_op (fresh_gate m) ops) [(a, b)] = [(a', b')] /\ (a' + (b - a) <= b')%Q.
Proof.
  intros Hle. assert (gate_ok (foldl gate_op (fresh_gate m) ops)) as [Hok _].
  { assert (gate_ok (fresh_gate m)) as H.
    { split; [|done]. split; cbn; [constructor|by intros cp ?%not_elem_of_nil]. }
    revert H. generalize (fresh_gate m). induction ops as [|op ops IH]; intros g Hg; [done|]. cbn [foldl]. by apply IH, op_ok. }
  unfold remap_segments. destruct (mode _); eexists _, _; (split; [reflexivity|]); cbn [fst snd]; [lra..|]. by apply mapping_expands.
Qed.

(** ** The counters *)

Lemma pending_app l l' : foldr (fun chunk n => size chunk + n) 0 (l ++ l') = foldr (fun chunk n => size chunk + n) 0 l + foldr (fun chunk n => size chunk + n) 0 l'.
Proof. induction l as [|c l IH]; cbn; [done|]. rewrite IH. lia. Qed.

Lemma pending_nonneg g : 0 <= pending g.
Proof. unfold pending. induction (_pre_roll g) as [|c l IH]; cbn; [done|]. assert (0 <= size c) by (unfold size; lia). lia. Qed.

Lemma pending_concat l : foldr (fun chunk n => size chunk + n) 0 l = size (concat l).
Proof. induction l as [|c l IH]; cbn; [done|]. rewrite IH. unfold size. rewrite length_app. lia. Qed.

(** Every byte received was sent, waits, or was skipped; and the counters have it. *)
Record counted (g : Gate) : Prop := {
  counted_sum : _bytes_received g = _bytes_sent g + pending g + _prometheus_bytes_skipped g;
  counted_sent : _prometheus_bytes_sent g = _bytes_sent g;
  counted_skipped : 0 <= _prometheus_bytes_skipped g;
  counted_idle : mode g = Shadow \/ state g <> SILENCE -> _pre_roll g = [];
  counted_mode : mode g <> Off;
}.

(** A decision sends no less and leaves no less out. *)
Lemma decided_counts g pcm wall_time probabilities :
  counted g ->
  let g2 := (decide_chunk g pcm wall_time probabilities).1 in
  _bytes_received g2 = _bytes_received g + size pcm /\ _bytes_sent g <= _bytes_sent g2 /\
  _bytes_sent g2 + pending g2 <= _bytes_sent g + pending g + size pcm /\
  _prometheus_bytes_sent g2 = _prometheus_bytes_sent g /\ _prometheus_bytes_skipped g2 = _prometheus_bytes_skipped g /\
  (mode g2 = Shadow \/ state g2 <> SILENCE -> _pre_roll g2 = []).
Proof.
  intros [_ _ _ Hidle Hoff]. unfold decided. set (sp := _run_vad _ _ _ _). set (g1 := arrived _ _ _ _ _ _).
  assert (mode g1 = mode g /\ state g1 = state g /\ _pre_roll g1 = _pre_roll g /\ _bytes_sent g1 = _bytes_sent g /\ _bytes_received g1 = _bytes_received g + size pcm /\
    _prometheus_bytes_sent g1 = _prometheus_bytes_sent g /\ _prometheus_bytes_skipped g1 = _prometheus_bytes_skipped g) as (Em & Es & Ep & Eb & Er & Ec & Ek) by done.
  assert (0 <= size pcm) as Hpcm by (unfold size; lia). clearbody g1 sp. destruct (mode g) eqn:Hm; [done| |].
  - cbn. unfold pending in *. cbn [_pre_roll]. rewrite Ep, Eb, Er, Ec, Ek. split_and!; try done; try lia. intros _. apply Hidle. by left.
  - destruct (_update_state _ _ _ _ _ _ _) as [g2 out] eqn:Hu. destruct (update_moves _ _ _ _ _ _ Hu) as [Hmv [Sm _ _ _ Sr [Sc Sk]]]. cbn [fst].
    rewrite Sr, Sc, Sk, Sm, Er, Ec, Ek, Em. unfold pending.
    destruct Hmv as [roll total Hs _ Hs' Hev _ Hp Hb _|roll total Hs _ Hs' Hev _ Hp Hb _|Hs Hs' _ _ Hp Hb _|Hs _ _ Hs' _ Hp Hb _]; rewrite ?Hp, ?Hb, ?Ep, ?Eb; rewrite Es in Hs.
    + rewrite Ep in Hev. apply evict_keeps in Hev as (_ & pre & Hpre); [|by destruct (_pre_roll g)]. apply (f_equal (foldr (fun chunk n => size chunk + n) 0)) in Hpre.
      rewrite !pending_app, (pending_concat pre), (pending_concat roll) in Hpre. cbn in Hpre. cbn [foldr]. assert (0 <= size (concat pre)) by (unfold size; lia). assert (0 <= size (concat roll)) by (unfold size; lia).
      split_and!; try done; lia.
    + rewrite Ep in Hev. apply evict_keeps in Hev as (_ & pre & Hpre); [|by destruct (_pre_roll g)]. apply (f_equal (foldr (fun chunk n => size chunk + n) 0)) in Hpre.
      rewrite !pending_app, (pending_concat pre) in Hpre. cbn in Hpre. assert (0 <= size (concat pre)) by (unfold size; lia).
      split_and!; try done; try lia. intros [?|?]; [done|congruence].
    + rewrite Hidle by by right. split_and!; try done; cbn; lia.
    + rewrite Hidle by (right; congruence). cbn. split_and!; try done; try lia. intros [?|?]; [done|congruence].
Qed.

Lemma counted_op g op : counted g -> counted (gate_op g op).
Proof.
  intros Hg. pose proof Hg as [Hsum Hsent Hskip Hidle Hoff]. destruct op as [pcm wall_time probabilities| | |wall_time]; cbn [gate_op].
  - pose proof (decided_counts g pcm wall_time probabilities Hg) as H. pose proof (decided_mode g pcm wall_time probabilities) as Hm. cbv zeta in H.
    unfold process_audio. destruct (decided _ _ _ _ _ _ _ _ _) as [g2 out]. cbn [fst] in *. destruct H as (Hr & Hb & Hpend & _ & _ & Hroll).
    pose proof (pending_nonneg g2). unfold _record_prometheus_audio. destruct (mode g2) eqn:E; [congruence|..].
    all: assert (forall a b, pending (with_counters g2 a b) = pending g2) as Hp by done.
    all: split; rewrite ?Hp; cbn [with_counters _bytes_received _bytes_sent _prometheus_bytes_sent _prometheus_bytes_skipped mode state _pre_roll]; rewrite ?E; try done; try lia.
  - unfold activate. destruct (mode g) eqn:E; [done| |done]. split; cbn; try done.
    unfold pending in Hsum. rewrite Hidle in Hsum by by left. exact Hsum.
  - by split.
  - unfold pending in Hsum. split; cbn; unfold pending; cbn; try done; lia.
Qed.

(** No counter of the gate runs backwards.  At any time every byte received was
    sent, waits in the pre-roll or is counted as skipped, and the counters have these
    numbers; and whatever chunk comes next, neither is asked to fall, so silence that
    was buffered is never counted as skipped and sent afterwards. *)
Theorem counters_only_rise m ops pcm wall_time probabilities :
  m <> Off ->
  let g := foldl gate_op (fresh_gate m) ops in
  let d := prometheus_deltas (decide_chunk g pcm wall_time probabilities).1 in
  _bytes_received g = _bytes_sent g + pending g + _prometheus_bytes_skipped g /\ _prometheus_bytes_sent g = _bytes_sent g /\ 0 <= d.1 /\ 0 <= d.2.
Proof.
  intros Hm g d. assert (counted g) as Hg.
  { subst g d. assert (counted (fresh_gate m)) as H by by split. revert H. generalize (fresh_gate m). induction ops as [|op ops IH]; intros g Hg; [done|].
    cbn [foldl]. by apply IH, counted_op. }
  destruct (decided_counts g pcm wall_time probabilities Hg) as (Hr & Hb & Hpend & Hps & Hpk & _). pose proof Hg as [Hsum Hsent _ _ _].
  subst d. unfold prometheus_deltas. cbn [fst snd]. rewrite Hps, Hpk, Hr. split_and!; [done|done|lia|lia].
Qed.
End Rate.
