(* ===== verification/VadGateTime.v ===== *)
(** When chunks arrive as they are spoken, a time of the provider is mapped to the moment
    the audio there was captured; speech is sent with its hangover; and the provider of a
    gated socket is sent what the gate lets pass.  The end instantiates the theorems. *)
From Stdlib Require Import Lqa Sorting.Sorted.
From stdpp Require Import sorting.
From S2P Require Export VadGateOps.

(** ** Compaction *)

Lemma compact_short {A} (l : list A) : (length l <= 500)%nat -> compact l = l.
Proof. intros H. unfold compact, _MAX_CHECKPOINTS. by destruct (Nat.ltb_spec 500 (length l)); [lia|]. Qed.

Lemma compact_long {A} (l : list A) : (500 < length l)%nat -> compact l = take 1 l ++ drop (length l - 499) l.
Proof. intros H. unfold compact, _MAX_CHECKPOINTS. destruct (Nat.ltb_spec 500 (length l)); [done|lia]. Qed.

Lemma compact_again {A} (l : list A) x : compact (compact l ++ [x]) = compact (l ++ [x]).
Proof.
  destruct (Nat.le_gt_cases (length l) 500) as [Hs|Hl]; [by rewrite (compact_short l)|]. rewrite (compact_long l) by done.
  destruct l as [|a l]; [cbn in Hl; lia|]. cbn [length] in Hl.
  remember (length (a :: l) - 499)%nat as k eqn:Hk. cbn [length] in Hk. assert (length (drop k (a :: l)) = 499%nat) as Hd by (rewrite length_drop; cbn [length]; lia).
  rewrite !compact_long; [|rewrite length_app; cbn [length]; lia|rewrite !length_app, Hd; cbn [length take]; lia].
  rewrite !length_app, Hd. cbn [length take app]. replace (1 + 499 + 1 - 499)%nat with 2%nat by lia. replace (S (length l) + 1 - 499)%nat with (S k) by lia.
  f_equal. change (drop 1 (drop k (a :: l) ++ [x]) = drop k (l ++ [x])).
  rewrite (drop_app_le (drop k (a :: l))) by (rewrite Hd; lia). rewrite drop_app_le by lia. rewrite drop_drop.
  replace (k + 1)%nat with (S k) by lia. done.
Qed.

Lemma compact_last {A} (l : list A) : last (compact l) = last l.
Proof.
  destruct (Nat.le_gt_cases (length l) 500) as [Hs|Hl]; [by rewrite compact_short|]. rewrite compact_long by done.
  set (k := (length l - 499)%nat). destruct (last (drop k l)) as [x|] eqn:E.
  - assert (last (take k l ++ drop k l) = Some x) as H by by rewrite last_app, E. rewrite take_drop in H. by rewrite last_app, E, H.
  - apply last_None in E. apply (f_equal length) in E. rewrite length_drop in E. cbn in E. lia.
Qed.

Lemma Forall2_compact {A B} (R : A -> B -> Prop) l l' : Forall2 R l l' -> Forall2 R (compact l) (compact l').
Proof.
  intros H. pose proof (Forall2_length _ _ _ H) as Hlen. unfold compact. rewrite <- Hlen.
  destruct (_ <? _)%nat; [|done]. apply Forall2_app; [by apply Forall2_take|by apply Forall2_drop].
Qed.

Section Rate.
Context (sample_rate channels : Z) (hangover_ms speech_threshold continue_threshold : Q).
Hypothesis rate_pos : 0 < sample_rate.
Hypothesis channels_pos : 0 < channels.

Notation secs := (byte_seconds sample_rate channels).
Notation process := (process_audio sample_rate channels hangover_ms speech_threshold continue_threshold).

(** ** What passes *)

(** A session with what it heard, what it sent, and where each onset of speech put the
    cut: the place in the audio sent and the place in the audio heard. *)
Record Trace : Type := {
  t_gate : Gate;
  t_heard : list Z;
  t_sent : list Z;
  t_onsets : list (Z * Z);
}.

Definition Chunk : Type := list Z * Q * list Q.

Definition trace_step (t : Trace) (c : Chunk) : Trace :=
  let '(g, out) := process (t_gate t) c.1.1 c.1.2 c.2 in
  {| t_gate := g; t_heard := t_heard t ++ c.1.1; t_sent := t_sent t ++ audio_to_send out;
     t_onsets := match state (t_gate t), state g with
                 | SILENCE, SPEECH => t_onsets t ++ [(size (t_sent t), size (t_heard t ++ c.1.1) - size (audio_to_send out))]
                 | _, _ => t_onsets t
                 end |}.

Definition fresh_trace : Trace := {| t_gate := fresh_gate Active; t_heard := []; t_sent := []; t_onsets := [] |}.
Definition trace (chunks : list Chunk) : Trace := foldl trace_step fresh_trace chunks.

Lemma trace_extends t chunks : exists more, t_sent (foldl trace_step t chunks) = t_sent t ++ more.
Proof.
  revert t. induction chunks as [|c chunks IH]; intros t; cbn [foldl]; [exists []; by rewrite app_nil_r|].
  destruct (IH (trace_step t c)) as [more ->]. unfold trace_step. destruct (process_audio _ _ _ _ _ _ _ _ _) as [g out]. cbn [t_sent].
  exists (audio_to_send out ++ more). by rewrite app_assoc.
Qed.

(** Each chunk arrives at the moment its first byte was captured. *)
Fixpoint in_time (t0 : Q) (n : Z) (chunks : list Chunk) : Prop :=
  match chunks with
  | [] => True
  | c :: rest => (c.1.2 == t0 + secs n)%Q /\ in_time t0 (n + size c.1.1) rest
  end.

(** ** The mapper against the audio *)

(** The onset a place in the audio sent is counted from. *)
Definition onset_of (onsets : list (Z * Z)) (q : Z) (m : Z * Z) : Prop :=
  exists i, onsets !! i = Some m /\ m.1 <= q /\ forall j m', (i < j)%nat -> onsets !! j = Some m' -> q < m'.1.

Definition near (cp : Q * Q) (m : Z * Z) : Prop := (cp.1 == secs m.1 /\ cp.2 == secs m.2)%Q.

Record mapped (w : WallTimeMapper) (sent heard : list Z) (onsets : list (Z * Z)) : Prop := {
  mapped_cursor : (_provider_cursor_sec w == secs (size sent))%Q;
  mapped_cps : Forall2 near (_checkpoints w) (compact onsets);
  mapped_sorted : StronglySorted (fun a b => a.1 <= b.1) onsets;
  mapped_within : Forall (fun m => 0 <= m.1 <= size sent /\ 0 <= m.2) onsets;
  mapped_audio q m : onset_of onsets q m -> q < size sent -> exists b, sent !! Z.to_nat q = Some b /\ heard !! Z.to_nat (m.2 + (q - m.1)) = Some b;
  mapped_start q : 0 <= q < size sent -> exists m, onset_of onsets q m;
}.

Lemma mapped_hears w sent heard pcm onsets : mapped w sent heard onsets -> mapped w sent (heard ++ pcm) onsets.
Proof.
  intros [? ? ? ? Ha ?]. split; try done. intros q m Hm Hq. destruct (Ha q m Hm Hq) as (b & ? & Hb). exists b. split; [done|].
  by apply lookup_app_l_Some.
Qed.

Lemma mapped_skips w sent heard onsets : mapped w sent heard onsets -> mapped (on_silence_skipped w) sent heard onsets.
Proof. by intros []. Qed.

Lemma last_onset_of onsets q m : last onsets = Some m -> m.1 <= q -> onset_of onsets q m.
Proof.
  intros Hl Hq. exists (pred (length onsets)). rewrite <- last_lookup. split_and!; [done..|]. intros j m' Hj Hm'.
  apply lookup_lt_Some in Hm'. lia.
Qed.

(** Audio that follows what was sent last. *)
Lemma mapped_goes_on w sent heard onsets pcm x m :
  mapped w sent heard onsets -> _sending w = true -> last onsets = Some m -> m.2 + (size sent - m.1) = size heard ->
  mapped (on_audio_sent w (secs (size pcm)) x) (sent ++ pcm) (heard ++ pcm) onsets.
Proof.
  intros Hmap Hs Hl Hcont. pose proof Hmap as [Hc Hcps Hsort Hw Ha Hst]. unfold on_audio_sent. rewrite Hs.
  assert (size (sent ++ pcm) = size sent + size pcm) as Hsize by (unfold size; rewrite length_app; lia).
  assert (m ∈ onsets) as Hin by (apply last_Some in Hl as [? ->]; set_solver). rewrite Forall_forall in Hw. pose proof (Hw m Hin) as Hm. cbn in Hm.
  split; cbn [_checkpoints _provider_cursor_sec]; try done.
  - rewrite Hsize, seconds_add. lra.
  - apply Forall_forall. intros m' Hm'. specialize (Hw m' Hm'). cbn in *. rewrite Hsize. unfold size in *. lia.
  - intros q m' Hq Hlt. destruct (decide (q < size sent)) as [Hold|Hnew].
    + destruct (Ha q m' Hq Hold) as (b & ? & ?). exists b. split; by apply lookup_app_l_Some.
    + assert (m' = m) as ->.
      { destruct Hq as (i & Hi & Hle & Hlater). destruct (decide (i = pred (length onsets))) as [->|Hne].
        - rewrite <- last_lookup in Hi. congruence.
        - exfalso. pose proof (lookup_lt_Some _ _ _ Hi). rewrite last_lookup in Hl. specialize (Hlater (pred (length onsets)) m ltac:(lia) Hl). lia. }
      destruct (lookup_lt_is_Some_2 pcm (Z.to_nat (q - size sent))) as [b Hb]; [unfold size in *; lia|]. exists b.
      split; (rewrite lookup_app_r by (unfold size in *; lia)); rewrite <- Hb; f_equal; unfold size in *; lia.
  - intros q Hq. destruct (decide (q < size sent)); [apply Hst; lia|]. exists m. apply last_onset_of; [done|]. lia.
Qed.

Lemma Qmaximum_eq a b : (b <= a -> Qmaximum a b == a)%Q.
Proof. intros H. unfold Qmaximum. apply Qle_bool_iff in H. rewrite H. reflexivity. Qed.

Lemma Forall2_last {A B} (R : A -> B -> Prop) l l' y : Forall2 R l l' -> last l' = Some y -> exists x, last l = Some x /\ R x y.
Proof.
  intros H [init ->]%last_Some. apply Forall2_app_inv_r in H as (l1 & l2 & _ & H2 & ->). inversion H2 as [|x ? ? ? Hx Hnil]; subst.
  inversion Hnil; subst. exists x. by rewrite last_snoc.
Qed.

(** Audio after a silence: what the mapper is told of its start is right. *)
Lemma mapped_onset w sent heard onsets audio x k :
  mapped w sent heard onsets -> _sending w = false -> 0 <= k -> audio = drop (Z.to_nat k) heard -> k <= size heard -> (x == secs k)%Q ->
  (forall m, last onsets = Some m -> m.2 + (size sent - m.1) <= k) ->
  mapped (on_audio_sent w (secs (size audio)) x) (sent ++ audio) heard (onsets ++ [(size sent, k)]).
Proof.
  intros [Hc Hcps Hsort Hw Ha Hst] Hs Hk Haudio Hkle Hx Hlast. unfold on_audio_sent. rewrite Hs.
  assert (size (sent ++ audio) = size sent + size audio) as Hsize by (unfold size; rewrite length_app; lia).
  assert (0 <= size sent /\ 0 <= size audio) as [Hs0 Ha0] by (unfold size; lia).
  assert (forall m, m ∈ onsets -> 0 <= m.1 <= size sent /\ 0 <= m.2) as Hw' by (by rewrite Forall_forall in Hw).
  split; cbn [_checkpoints _provider_cursor_sec].
  - rewrite Hsize, seconds_add. lra.
  - rewrite <- (compact_again onsets). apply Forall2_compact. apply Forall2_app; [done|]. constructor; [|constructor]. split; cbn [fst snd]; [done|].
    unfold checkpoint_wall. destruct (last onsets) as [m|] eqn:Hm.
    + rewrite <- compact_last in Hm. destruct (Forall2_last _ _ _ _ Hcps Hm) as ([d wl] & -> & Hd & Hwl). cbn [fst snd] in *.
      rewrite compact_last in Hm. specialize (Hlast m eq_refl). rewrite Qmaximum_eq; [done|].
      apply (seconds_le sample_rate channels rate_pos channels_pos) in Hlast. rewrite seconds_add, seconds_sub in Hlast. lra.
    + apply last_None in Hm. rewrite Hm in Hcps. change (compact []) with (@nil (Z * Z)) in Hcps. by inversion Hcps.
  - apply StronglySorted_app. split_and!; [|done|by repeat constructor]. intros m y Hm ->%list_elem_of_singleton. cbn. by apply Hw'.
  - apply Forall_app. rewrite Forall_singleton. cbn. split; [|lia]. apply Forall_forall. intros m Hm. specialize (Hw' m Hm). rewrite Hsize. lia.
  - intros q m (i & Hi & Hle & Hlater) Hlt. apply lookup_app_Some in Hi as [Hi|[Hge Hi]].
    + assert (q < size sent) as Hq by (apply (Hlater (length onsets) (size sent, k)); [by eapply lookup_lt_Some|by rewrite list_lookup_middle]).
      destruct (Ha q m) as (b & ? & ?); [|done|exists b; split; [by apply lookup_app_l_Some|done]].
      exists i. split_and!; [done..|]. intros j m' Hj Hm'. apply (Hlater j m' Hj). by apply lookup_app_l_Some.
    + apply list_lookup_singleton_Some in Hi as [_ <-]. cbn [fst snd] in *.
      destruct (lookup_lt_is_Some_2 audio (Z.to_nat (q - size sent))) as [b Hb]; [unfold size in *; lia|]. exists b. split.
      * rewrite lookup_app_r by (unfold size in *; lia). rewrite <- Hb. f_equal. unfold size in *; lia.
      * rewrite <- Hb, Haudio, lookup_drop. f_equal. lia.
  - intros q Hq. destruct (decide (q < size sent)) as [Hold|Hnew].
    + destruct (Hst q ltac:(lia)) as (m & i & Hi & Hle & Hlater). exists m, i. split_and!; [by apply lookup_app_l_Some|done|].
      intros j m' Hj Hm'. apply lookup_app_Some in Hm' as [Hm'|[_ Hm']]; [by apply (Hlater j)|]. apply list_lookup_singleton_Some in Hm' as [_ <-]. done.
    + eexists. apply last_onset_of; [by rewrite last_snoc|]. cbn. lia.
Qed.

(** ** Reading a time *)

(** The 499 newest onsets are remembered, and all as long as they are 500. *)
Definition remembered (onsets : list (Z * Z)) (q : Z) : Prop :=
  (length onsets <= 500)%nat \/ exists m, onsets !! (length onsets - 499)%nat = Some m /\ m.1 <= q.

#[local] Instance remembered_dec onsets q : Decision (remembered onsets q).
Proof.
  unfold remembered. destruct (decide (length onsets <= 500)%nat); [by left; left|].
  destruct (onsets !! (length onsets - 499)%nat) as [m|] eqn:E; [destruct (decide (m.1 <= q))|].
  - left. right. by exists m.
  - right. intros [?|(m' & [= <-] & ?)]; done.
  - right. intros [?|(m' & ? & _)]; done.
Qed.

Lemma secs_lt a b : (secs a < secs b)%Q -> a < b.
Proof. intros H. apply Z.nle_gt. intros Hle%(seconds_le sample_rate channels rate_pos channels_pos). lra. Qed.

Lemma secs_le_lt a b : a < b -> (secs a < secs b)%Q.
Proof.
  intros H. unfold byte_seconds. apply Qmult_lt_compat_r; [|by rewrite <- Zlt_Qlt]. apply Qinv_lt_0_compat.
  change 0%Q with (inject_Z 0). rewrite <- Zlt_Qlt. by apply bps_pos.
Qed.

(** The last kept checkpoint not after a time is that of its onset. *)
Lemma onset_of_kept onsets q m i :
  remembered onsets q -> compact onsets !! i = Some m -> (i = 0%nat \/ m.1 <= q) -> 0 <= q ->
  (forall j m', (i < j)%nat -> compact onsets !! j = Some m' -> q < m'.1) ->
  (exists m0, onset_of onsets q m0) -> StronglySorted (fun a b => a.1 <= b.1) onsets -> onset_of onsets q m.
Proof.
  intros Hrem Hi Hle Hq Hlater (m0 & i0 & Hi0 & Hle0 & Hlater0) Hsort. destruct (decide (length onsets <= 500)%nat) as [Hs|Hl].
  - rewrite compact_short in * by done. exists i. split_and!; [done| |done]. destruct Hle as [->|?]; [|done].
    destruct (decide (i0 = 0)%nat) as [->|]; [congruence|]. specialize (Hlater i0 m0 ltac:(lia) Hi0). lia.
  - destruct Hrem as [?|(m1 & Hm1 & Hq1)]; [done|]. rewrite compact_long in * by lia. set (k := (length onsets - 499)%nat) in *.
    assert (length (take 1 onsets) = 1%nat) as H1 by (rewrite length_take; lia).
    assert (forall j, (take 1 onsets ++ drop k onsets) !! S j = onsets !! (k + j)%nat) as Hk.
    { intros j. rewrite lookup_app_r by lia. rewrite H1, lookup_drop. f_equal. lia. }
    destruct i as [|i].
    + exfalso. specialize (Hlater 1%nat m1 ltac:(lia)). rewrite Hk, Nat.add_0_r in Hlater. specialize (Hlater Hm1). lia.
    + rewrite Hk in Hi. destruct Hle as [|Hle]; [done|]. exists (k + i)%nat. split_and!; [done..|]. intros j m' Hj Hm'.
      apply (Hlater (S (j - k))%nat); [lia|]. rewrite Hk. by replace (k + (j - k))%nat with j by lia.
Qed.

Lemma mapped_reads w sent heard onsets q :
  StronglySorted follows (_checkpoints w) -> mapped w sent heard onsets -> 0 <= q < size sent -> remembered onsets q ->
  exists b o, 0 <= o /\ sent !! Z.to_nat q = Some b /\ heard !! Z.to_nat o = Some b /\ (dg_to_wall_rel w (secs q) == secs o)%Q.
Proof.
  intros Hfol [_ Hcps Hsort Hw Ha Hst] Hq Hrem. destruct (Hst q Hq) as [m0 Hm0].
  destruct (dg_to_wall_rel_spec w (secs q) Hfol) as [[Hnil _]|(i & cp & Hi & -> & Hle & Hlater)].
  - exfalso. rewrite Hnil in Hcps. destruct Hm0 as (i & Hi & _). assert (is_Some (last onsets)) as [x Hx].
    { apply last_is_Some. intros ->. by rewrite lookup_nil in Hi. }
    rewrite <- compact_last in Hx. destruct (Forall2_last _ _ _ _ Hcps Hx) as (? & Hl & _). done.
  - destruct (Forall2_lookup_l _ _ _ _ _ Hcps Hi) as (m & Hm & Hn1 & Hn2).
    assert (onset_of onsets q m) as Hon.
    { apply (onset_of_kept onsets q m i); try done; [|lia| |by exists m0].
      - destruct Hle as [?|Hle]; [by left|right]. apply Z.nlt_ge. intros Hlt. apply (secs_le_lt q m.1) in Hlt. lra.
      - intros j m' Hj Hm'. destruct (Forall2_lookup_r _ _ _ _ _ Hcps Hm') as (cp' & Hcp' & Hn1' & _).
        specialize (Hlater j cp' Hj Hcp'). apply secs_lt. lra. }
    destruct (Ha q m Hon ltac:(lia)) as (b & Hb & Hb'). exists b, (m.2 + (q - m.1)).
    destruct Hon as (i' & Hi' & Hmle & _). rewrite Forall_forall in Hw. specialize (Hw m ltac:(by eapply list_elem_of_lookup_2)). cbn in Hw.
    split_and!; [lia|done..|]. rewrite seconds_add, seconds_sub. lra.
Qed.

(** ** Each chunk *)

(** The pre-roll with the chunk is the end of what was heard, and ends with the chunk. *)
Lemma evicted_roll heard k roll pcm total roll' total' :
  0 <= k <= size heard -> concat roll = drop (Z.to_nat k) heard -> evict sample_rate channels (roll ++ [pcm]) total = (roll', total') ->
  (exists r, roll' = r ++ [pcm]) /\ exists k', k <= k' <= size (heard ++ pcm) /\ concat roll' = drop (Z.to_nat k') (heard ++ pcm) /\
    size (concat roll') = size (heard ++ pcm) - k'.
Proof.
  intros Hk Hroll Hev. apply (evict_keeps sample_rate channels) in Hev as (Hne & pre & Hpre); [|by destruct roll]. split.
  - destruct roll' as [|x roll' _] using rev_ind; [done|]. rewrite app_assoc in Hpre. apply app_inj_tail in Hpre as [_ ->]. by exists roll'.
  - assert (concat pre ++ concat roll' = drop (Z.to_nat k) (heard ++ pcm)) as Hcat.
    { rewrite <- concat_app, <- Hpre, concat_app, Hroll. cbn [concat]. rewrite app_nil_r, drop_app_le; [done|]. unfold size in Hk. lia. }
    pose proof (f_equal length Hcat) as Hlen. rewrite length_app, length_drop, length_app in Hlen. unfold size in *. rewrite !length_app.
    exists (k + Z.of_nat (length (concat pre))). split_and!; [lia|lia| |lia].
    replace (Z.to_nat (k + Z.of_nat (length (concat pre)))) with (Z.to_nat k + length (concat pre))%nat by lia.
    by rewrite <- drop_drop, <- Hcat, drop_app_length.
Qed.

Record timed (t0 : Q) (t : Trace) : Prop := {
  td_mode : mode (t_gate t) = Active;
  td_first : (_first_audio_wall_time (t_gate t) = None -> t_heard t = []) /\ forall x, _first_audio_wall_time (t_gate t) = Some x -> (x == t0)%Q;
  td_ok : gate_ok (t_gate t);
  td_map : mapped (dg_wall_mapper (t_gate t)) (t_sent t) (t_heard t) (t_onsets t);
  td_silence : state (t_gate t) = SILENCE -> _sending (dg_wall_mapper (t_gate t)) = false /\
    exists k, 0 <= k <= size (t_heard t) /\ concat (_pre_roll (t_gate t)) = drop (Z.to_nat k) (t_heard t) /\
      forall m, last (t_onsets t) = Some m -> m.2 + (size (t_sent t) - m.1) <= k;
  td_talk : state (t_gate t) <> SILENCE -> _sending (dg_wall_mapper (t_gate t)) = true /\
    exists m, last (t_onsets t) = Some m /\ m.2 + (size (t_sent t) - m.1) = size (t_heard t);
}.

(** Raising the counters changes nothing else. *)
Lemma recorded_same g :
  let g' := _record_prometheus_audio g in
  mode g' = mode g /\ state g' = state g /\ dg_wall_mapper g' = dg_wall_mapper g /\ _pre_roll g' = _pre_roll g /\
  _first_audio_wall_time g' = _first_audio_wall_time g.
Proof. unfold _record_prometheus_audio. by destruct (mode g) eqn:E. Qed.

Lemma wall_of_chunk t0 t pcm wall_time sp :
  (~ t0 == 0)%Q -> timed t0 t -> (wall_time == t0 + secs (size (t_heard t)))%Q ->
  (wall_rel_of (arrived sample_rate channels (t_gate t) pcm wall_time sp) wall_time == secs (size (t_heard t)))%Q /\
  forall x, _first_audio_wall_time (arrived sample_rate channels (t_gate t) pcm wall_time sp) = Some x -> (x == t0)%Q.
Proof.
  intros H0 Ht Hw. destruct (td_first _ _ Ht) as [Hnone Hsome]. unfold wall_rel_of, arrived. cbn [_first_audio_wall_time].
  destruct (_first_audio_wall_time (t_gate t)) as [x|]; cbn [default]; unfold id.
  - specialize (Hsome x eq_refl). split; [|by intros y [= <-]]. destruct (Qeq_bool x 0) eqn:E; [apply Qeq_bool_iff in E; exfalso; apply H0; lra|]. lra.
  - rewrite (Hnone eq_refl) in *. change (size []) with 0 in *. pose proof (seconds_zero sample_rate channels) as Hz. split; [|intros y [= <-]; lra].
    destruct (Qeq_bool wall_time 0) eqn:E; [lra|]. lra.
Qed.

(** One transition of an active gate. *)
Lemma active_step t pcm wall probs :
  mode (t_gate t) = Active ->
  exists g2 out, let g1 := arrived sample_rate channels (t_gate t) pcm wall (_run_vad speech_threshold continue_threshold (state (t_gate t)) probs) in
    moves sample_rate channels hangover_ms g1 pcm (_run_vad speech_threshold continue_threshold (state (t_gate t)) probs) wall g2 out /\ steady g1 g2 /\
    trace_step t (pcm, wall, probs) =
      {| t_gate := _record_prometheus_audio g2; t_heard := t_heard t ++ pcm; t_sent := t_sent t ++ audio_to_send out;
         t_onsets := match state (t_gate t), state g2 with
                     | SILENCE, SPEECH => t_onsets t ++ [(size (t_sent t), size (t_heard t ++ pcm) - size (audio_to_send out))]
                     | _, _ => t_onsets t
                     end |}.
Proof.
  intros Hm. unfold trace_step. cbn [fst snd]. unfold process_audio, decided. rewrite Hm. set (g1 := arrived _ _ _ _ _ _). cbv zeta.
  destruct (_update_state _ _ _ _ _ _ _) as [g2 out] eqn:Hu. destruct (update_moves _ _ _ _ _ _ _ _ _ Hu) as [Hmv Hst].
  exists g2, out. split_and!; [done..|]. by destruct (recorded_same g2) as (_ & -> & _).
Qed.

(** The speech of an onset is timed from its first byte. *)
Lemma onset_wall rel heard pcm audio k :
  (rel == secs (size heard))%Q -> 0 <= k -> size audio = size (heard ++ pcm) - k ->
  (Qmaximum 0 (rel - secs (size audio) + secs (size pcm)) == secs k)%Q.
Proof.
  intros Hrel Hk Hsize. assert (0 <= secs k)%Q as H0 by by apply seconds_nonneg.
  assert (rel - secs (size audio) + secs (size pcm) == secs k)%Q as He.
  { rewrite Hsize, seconds_sub. replace (size (heard ++ pcm)) with (size heard + size pcm) by (unfold size; rewrite length_app; lia). rewrite seconds_add. lra. }
  unfold Qmaximum. destruct (Qle_bool _ 0) eqn:E; [apply Qle_bool_iff in E; lra|done].
Qed.

Lemma timed_step t0 t c :
  (~ t0 == 0)%Q -> timed t0 t -> (c.1.2 == t0 + secs (size (t_heard t)))%Q -> timed t0 (trace_step t c).
Proof.
  intros H0 Ht Hc. destruct c as [[pcm wall] probs]. cbn [fst snd] in Hc. pose proof Ht as [Hmode _ Hok Hmap Hsil Htalk].
  pose proof (op_ok sample_rate channels hangover_ms speech_threshold continue_threshold rate_pos channels_pos (t_gate t) (Hears pcm wall probs) Hok) as Hok'.
  destruct (active_step t pcm wall probs Hmode) as (g2 & out & Hmv & Hst & Hstep). set (sp := _run_vad _ _ _ _) in *.
  destruct (wall_of_chunk t0 t pcm wall sp H0 Ht Hc) as [Hwall Hfirst]. set (g1 := arrived _ _ _ _ _ _) in *.
  assert (t_gate (trace_step t (pcm, wall, probs)) = gate_op sample_rate channels hangover_ms speech_threshold continue_threshold (t_gate t) (Hears pcm wall probs)) as Hg.
  { unfold trace_step. cbn [fst snd gate_op]. by destruct (process_audio _ _ _ _ _ _ _ _ _). }
  rewrite <- Hg, Hstep in Hok'. cbn [t_gate] in Hok'. rewrite Hstep. clear Hg Hstep.
  assert (mode g1 = Active /\ state g1 = state (t_gate t) /\ dg_wall_mapper g1 = dg_wall_mapper (t_gate t) /\ _pre_roll g1 = _pre_roll (t_gate t) /\
    is_Some (_first_audio_wall_time g1)) as (Hm1 & Hs1 & Hw1 & Hp1 & [x1 Hf1]) by (split_and!; try done; by eexists).
  rewrite <- Hs1, <- Hw1, <- ?Hp1 in *. clearbody g1. destruct (recorded_same g2) as (Rm & Rs & Rw & Rp & Rf).
  destruct Hst as [Sm Sf _ _ _ _].
  assert (size (t_heard t ++ pcm) = size (t_heard t) + size pcm) as Hsize by (unfold size; rewrite length_app; lia).
  assert (0 <= size pcm) by (unfold size; lia).
  split; cbn [t_gate t_heard t_sent t_onsets]; rewrite ?Rm, ?Rs, ?Rw, ?Rp, ?Rf; [congruence|rewrite Sf; split; [congruence|done]|done|..].
  - (* the mapper *)
    destruct Hmv as [roll total Hs _ Hs' Hev Hout _ _ Hw|roll total Hs _ Hs' _ Hout _ _ Hw|Hs Hs' _ Hout _ _ Hw|Hs _ _ Hs' Hout _ _ Hw]; rewrite Hout, Hw.
    + rewrite Hs, Hs'. destruct (Hsil Hs) as (Hsend & k & Hk & Hroll & Hlast).
      destruct (evicted_roll _ _ _ _ _ _ _ Hk Hroll Hev) as (_ & k' & Hk' & Hroll' & Hn). replace (size (t_heard t ++ pcm) - size (concat roll)) with k' by lia.
      apply mapped_onset; [by apply mapped_hears|done|lia|done|lia|by apply (onset_wall _ (t_heard t)); [|lia|]|].
      intros m Hm. specialize (Hlast m Hm). lia.
    + rewrite Hs, Hs', app_nil_r. by apply mapped_skips, mapped_hears.
    + destruct (Htalk Hs) as (Hsend & m & Hm & Hcont). destruct (state g1); [done|..]; by apply (mapped_goes_on _ _ _ _ _ _ m).
    + rewrite Hs, app_nil_r. by apply mapped_skips, mapped_hears.
  - (* in silence *)
    intros Hs2. destruct Hmv as [roll total Hs _ Hs' Hev Hout _ _ Hw|roll total Hs _ Hs' Hev Hout Hpr _ Hw|Hs Hs' _ Hout _ _ Hw|Hs _ _ Hs' Hout Hpr _ Hw]; [congruence| |done|]; rewrite Hw, Hout, app_nil_r; (split; [done|]).
    + rewrite Hs, Hs', Hpr. destruct (Hsil Hs) as (_ & k & Hk & Hroll & Hlast).
      destruct (evicted_roll _ _ _ _ _ _ _ Hk Hroll Hev) as (_ & k' & Hk' & Hroll' & _). exists k'. split_and!; [lia|lia|done|].
      intros m Hm. specialize (Hlast m Hm). lia.
    + rewrite Hs, Hpr. destruct (Htalk ltac:(congruence)) as (_ & m & Hm & Hcont). exists (size (t_heard t)). split_and!; [unfold size; lia|lia| |].
      * cbn [concat]. rewrite app_nil_r. unfold size. by rewrite Nat2Z.id, drop_app_length.
      * intros m'. rewrite Hm. intros [= <-]. lia.
  - (* while talking *)
    intros Hs2. destruct Hmv as [roll total Hs _ Hs' Hev Hout _ _ Hw|roll total Hs _ Hs' Hev Hout Hpr _ Hw|Hs Hs' _ Hout _ _ Hw|Hs _ _ Hs' Hout Hpr _ Hw]; [|done| |done]; rewrite Hw, Hout; (split; [done|]).
    + rewrite Hs, Hs'. eexists. split; [by rewrite last_snoc|]. cbn [fst snd]. unfold size in *. rewrite !length_app. lia.
    + destruct (Htalk Hs) as (_ & m & Hm & Hcont). exists m. split; [by destruct (state g1)|]. unfold size in *. rewrite !length_app. lia.
Qed.

(** ** Speech is sent *)

Notation frames := (frame_ms sample_rate channels).

Definition total_ms (chunks : list Chunk) : Q := foldr (fun c ms => frames c.1.1 + ms)%Q 0%Q chunks.
Definition pcm_of (chunks : list Chunk) : list Z := concat ((fun c => c.1.1) <$> chunks).

Lemma frames_nonneg pcm : (0 <= frames pcm)%Q.
Proof.
  unfold frame_ms. assert (0 <= size pcm / (2 * channels)) as H by (apply Z.div_pos; [unfold size; lia|lia]).
  apply Qmult_le_0_compat; [apply Qmult_le_0_compat; [|done]; change 0%Q with (inject_Z 0); by rewrite <- Zle_Qle|].
  apply Qinv_le_0_compat. change 0%Q with (inject_Z 0). rewrite <- Zle_Qle. lia.
Qed.

Lemma total_nonneg chunks : (0 <= total_ms chunks)%Q.
Proof. induction chunks as [|c chunks IH]; cbn [total_ms foldr]; [done|]. fold (total_ms chunks). pose proof (frames_nonneg c.1.1). lra. Qed.

Definition hears_speech (t : Trace) (c : Chunk) : bool := _run_vad speech_threshold continue_threshold (state (t_gate t)) c.2.

(** What an active gate knows after a chunk. *)
Lemma step_clock t c :
  mode (t_gate t) = Active ->
  mode (t_gate (trace_step t c)) = Active /\ t_heard (trace_step t c) = t_heard t ++ c.1.1 /\
  (_audio_cursor_ms (t_gate (trace_step t c)) == _audio_cursor_ms (t_gate t) + frames c.1.1)%Q /\
  _last_speech_ms (t_gate (trace_step t c)) = (if hears_speech t c then _audio_cursor_ms (t_gate (trace_step t c)) else _last_speech_ms (t_gate t)) /\
  (hears_speech t c = true -> state (t_gate (trace_step t c)) <> SILENCE /\ exists a, t_sent (trace_step t c) = t_sent t ++ a ++ c.1.1) /\
  (state (t_gate t) <> SILENCE -> (_audio_cursor_ms (t_gate t) - _last_speech_ms (t_gate t) + frames c.1.1 <= hangover_ms)%Q ->
     state (t_gate (trace_step t c)) <> SILENCE /\ t_sent (trace_step t c) = t_sent t ++ c.1.1).
Proof.
  intros Hm. destruct c as [[pcm wall] probs]. unfold hears_speech. cbn [fst snd]. destruct (active_step t pcm wall probs Hm) as (g2 & out & Hmv & Hst & ->).
  set (sp := _run_vad _ _ _ _) in *. cbn [t_gate t_sent t_heard].
  assert (mode (_record_prometheus_audio g2) = mode g2 /\ state (_record_prometheus_audio g2) = state g2 /\
    _audio_cursor_ms (_record_prometheus_audio g2) = _audio_cursor_ms g2 /\ _last_speech_ms (_record_prometheus_audio g2) = _last_speech_ms g2) as (-> & -> & -> & ->)
    by (unfold _record_prometheus_audio; destruct (mode g2) eqn:E; cbn; by rewrite ?E).
  destruct Hst as [Sm _ Sc Sl _ _]. rewrite Sm, Sc, Sl. cbn [arrived mode _audio_cursor_ms _last_speech_ms].
  split_and!; [done|done|reflexivity|done| |].
  - intros Hsp. destruct Hmv as [roll total Hs _ Hs' Hev Hout _ _ _|? ? _ Hno _ _ _ _ _ _|_ Hs' _ Hout _ _ _|_ Hno _ _ _ _ _ _]; [|congruence| |congruence]; rewrite Hout.
    + split; [by rewrite Hs'|]. apply (evict_keeps sample_rate channels) in Hev as (Hne & pre & Hpre); [|by destruct (_pre_roll _)].
      destruct roll as [|x roll _] using rev_ind; [done|]. rewrite app_assoc in Hpre. apply app_inj_tail in Hpre as [_ <-].
      exists (concat roll). rewrite concat_app. cbn [concat]. by rewrite app_nil_r.
    + split; [done|]. by exists [].
  - intros Hs Hle. destruct Hmv as [? ? Hs1 _ _ _ _ _ _ _|? ? Hs1 _ _ _ _ _ _ _|_ Hs' _ Hout _ _ _|_ Hno Hlong _ _ _ _ _]; [done|done|by rewrite Hout|].
    exfalso. cbn [arrived _audio_cursor_ms _last_speech_ms] in Hlong. rewrite Hno in Hlong. lra.
Qed.

Lemma talks_on t chunks :
  mode (t_gate t) = Active -> state (t_gate t) <> SILENCE ->
  (_audio_cursor_ms (t_gate t) - _last_speech_ms (t_gate t) + total_ms chunks <= hangover_ms)%Q -> (0 <= _audio_cursor_ms (t_gate t) - _last_speech_ms (t_gate t))%Q ->
  t_sent (foldl trace_step t chunks) = t_sent t ++ pcm_of chunks.
Proof.
  revert t. induction chunks as [|c chunks IH]; intros t Hm Hs Hle Hpos; cbn [foldl]; [by rewrite app_nil_r|].
  unfold total_ms in Hle. cbn [foldr] in Hle. fold (total_ms chunks) in Hle. pose proof (total_nonneg chunks). pose proof (frames_nonneg c.1.1).
  destruct (step_clock t c Hm) as (Hm' & _ & Hcur & Hlast & _ & Hgo). destruct (Hgo Hs) as [Hs' Hsent]; [lra|].
  rewrite (IH (trace_step t c)); [|done|done|destruct (hears_speech t c); rewrite Hlast; lra..].
  rewrite Hsent. unfold pcm_of. cbn [fmap list_fmap concat]. by rewrite app_assoc.
Qed.

Lemma trace_timed t0 chunks : (~ t0 == 0)%Q -> in_time t0 0 chunks -> timed t0 (trace chunks) /\ t_heard (trace chunks) = pcm_of chunks.
Proof.
  intros H0 Hin. assert (timed t0 fresh_trace) as Hfresh.
  { split; cbn; try done.
    - split; [|done]. split; cbn; [constructor|by intros cp ?%not_elem_of_nil].
    - split; cbn [fresh_trace t_gate t_sent t_heard t_onsets fresh_gate dg_wall_mapper fresh_mapper _provider_cursor_sec _checkpoints]; [|constructor..| |].
      + symmetry. apply seconds_zero.
      + intros q m (i & Hi & _). by rewrite lookup_nil in Hi.
      + intros q. change (size []) with 0. lia.
    - intros _. split; [done|]. exists 0. split_and!; done. }
  unfold trace. assert (forall t, timed t0 t -> in_time t0 (size (t_heard t)) chunks ->
    timed t0 (foldl trace_step t chunks) /\ t_heard (foldl trace_step t chunks) = t_heard t ++ pcm_of chunks) as H; [|by apply (H fresh_trace)].
  clear Hin Hfresh. induction chunks as [|c chunks IH]; intros t Ht Hin; cbn [foldl]; [split; [done|by rewrite app_nil_r]|].
  destruct Hin as [Hc Hin]. destruct (step_clock t c (td_mode _ _ Ht)) as (_ & Hheard & _).
  destruct (IH (trace_step t c)) as [Ht' Hh]; [by apply timed_step|rewrite Hheard; unfold size in *; by rewrite length_app, Nat2Z.inj_add|].
  split; [done|]. rewrite Hh, Hheard. unfold pcm_of. cbn [fmap list_fmap concat]. by rewrite app_assoc.
Qed.

Lemma in_time_app t0 n l l' : in_time t0 n (l ++ l') -> in_time t0 n l.
Proof. revert n. induction l as [|c l IH]; intros n; [done|]. cbn [in_time app]. intros [? ?]. split; [done|]. by apply IH. Qed.

(** C16: the gate keeps speech and tells its time.  When the gate is active from the
    start and chunks arrive as they are spoken, each byte the provider was sent is a byte that was heard, and a time the provider
    gives for it is mapped to exactly the moment it was captured, however much silence
    was kept back in between, as far back as 499 onsets of speech; and from a chunk
    with speech on, everything within the hangover is sent, right after audio that came
    before it. *)
Theorem gate_tells_time t0 chunks :
  (~ t0 == 0)%Q -> in_time t0 0 chunks ->
  let t := trace chunks in
  (forall q, 0 <= q < size (t_sent t) ->
     exists b o, 0 <= o /\ t_sent t !! Z.to_nat q = Some b /\ pcm_of chunks !! Z.to_nat o = Some b /\
       (remembered (t_onsets t) q -> dg_to_wall_rel (dg_wall_mapper (t_gate t)) (secs q) == secs o)%Q) /\
  (forall before c after, chunks = before ++ c :: after -> hears_speech (trace before) c = true -> (total_ms after <= hangover_ms)%Q ->
     exists a, t_sent t = t_sent (trace before) ++ a ++ c.1.1 ++ pcm_of after).
Proof.
  intros H0 Hin t. destruct (trace_timed t0 chunks H0 Hin) as [Ht Hheard]. fold t in Ht, Hheard. split.
  - intros q Hq. rewrite <- Hheard. destruct (mapped_start _ _ _ _ (td_map _ _ Ht) q Hq) as [m Hm].
    destruct (decide (remembered (t_onsets t) q)) as [Hrem|Hno].
    + destruct (mapped_reads _ _ _ _ q (cps_follow _ (ok_mapper _ (td_ok _ _ Ht))) (td_map _ _ Ht) Hq Hrem) as (b & o & ? & ? & ? & ?). by exists b, o.
    + destruct (mapped_audio _ _ _ _ (td_map _ _ Ht) q m Hm ltac:(lia)) as (b & ? & ?). exists b, (m.2 + (q - m.1)). split_and!; [|done..].
      destruct Hm as (i & Hi & ? & _). pose proof (mapped_within _ _ _ _ (td_map _ _ Ht)) as Hw. rewrite Forall_forall in Hw.
      specialize (Hw m ltac:(by eapply list_elem_of_lookup_2)). cbn in Hw. lia.
  - intros before c after -> Hsp Hle. subst t. unfold trace. rewrite foldl_app. cbn [foldl]. fold (trace before).
    assert (mode (t_gate (trace before)) = Active) as Hm by (apply (trace_timed t0); [done|]; by apply in_time_app in Hin).
    destruct (step_clock (trace before) c Hm) as (Hm' & _ & _ & Hlast & Hstart & _). destruct (Hstart Hsp) as (Hs & a & Hsent). rewrite Hsp in Hlast.
    exists a. rewrite talks_on; [|done|done|rewrite Hlast; lra..]. by rewrite Hsent, <- !app_assoc.
Qed.
End Rate.

(** ** The socket sends what the gate lets pass *)

Section Socket.
Context (sample_rate channels : Z) (hangover_ms speech_threshold continue_threshold : Q).
Context {C : Type} (conn_send : C -> list Z -> C * bool) (conn_finalize : C -> C * bool) (conn_dead : C -> bool) (log : C -> list Z).

(** A live connection keeps what it is sent, in order; finalizing sends nothing. *)
Hypothesis send_logs : forall c data, log (conn_send c data).1 = log c ++ data /\ conn_dead (conn_send c data).1 = conn_dead c.
Hypothesis finalize_logs : forall c, log (conn_finalize c).1 = log c /\ conn_dead (conn_finalize c).1 = conn_dead c.

Notation send_chunk := (socket_send sample_rate channels hangover_ms speech_threshold continue_threshold conn_send conn_finalize conn_dead).
Notation step := (trace_step sample_rate channels hangover_ms speech_threshold continue_threshold).

Lemma socket_step pass s t c :
  conn_dead (_conn s) = false -> _gate s = Some (t_gate t) ->
  let s' := (send_chunk pass s c.1.1 c.1.2 (Some c.2)).1 in
  conn_dead (_conn s') = false /\ _gate s' = Some (t_gate (step t c)) /\
  exists sent, log (_conn s') = log (_conn s) ++ sent /\ if (pass : bool) then sent = c.1.1 else t_sent (step t c) = t_sent t ++ sent.
Proof.
  intros Hd Hg. unfold socket_send, trace_step. rewrite Hd, Hg. destruct (process_audio _ _ _ _ _ _ _ _ _) as [g out]. cbn [t_gate t_sent].
  set (r := if pass then _ else _). assert (conn_dead r.1 = false /\ exists sent, log r.1 = log (_conn s) ++ sent /\
    if pass then sent = c.1.1 else t_sent t ++ audio_to_send out = t_sent t ++ sent) as (Hr & sent & Hlog & Hpass).
  { subst r. destruct pass; [destruct (send_logs (_conn s) c.1.1) as [-> ->]; split; [done|by exists c.1.1]|].
    destruct (audio_to_send out) as [|b audio] eqn:E; [split; [done|exists []; by rewrite app_nil_r]|].
    destruct (send_logs (_conn s) (b :: audio)) as [-> ->]. split; [done|by exists (b :: audio)]. }
  destruct r as [c1 accepted]. cbn [fst] in *. destruct (should_finalize out); [|split_and!; [done..|by exists sent]].
  destruct (finalize_logs c1) as [Hf1 Hf2]. destruct (conn_finalize c1) as [c2 returned]. cbn [fst] in *.
  destruct returned; (split_and!; [cbn; congruence|done|exists sent; split; [cbn; congruence|done]]).
Qed.

(** The provider is sent exactly what the gate lets pass, or in passthrough all of it,
    whatever it answers and whether or not a flush raises. *)
Theorem provider_hears_what_passes pass c0 chunks :
  conn_dead c0 = false ->
  let s := foldl (fun s c => (send_chunk pass s c.1.1 c.1.2 (Some c.2)).1) {| _conn := c0; _gate := Some (fresh_gate Active); finalize_errors := 0 |} chunks in
  log (_conn s) = log c0 ++ (if (pass : bool) then pcm_of chunks else t_sent (trace sample_rate channels hangover_ms speech_threshold continue_threshold chunks)).
Proof.
  intros Hd s. enough (forall s t, conn_dead (_conn s) = false -> _gate s = Some (t_gate t) ->
    log (_conn (foldl (fun s c => (send_chunk pass s c.1.1 c.1.2 (Some c.2)).1) s chunks)) =
      log (_conn s) ++ (if pass then pcm_of chunks else drop (length (t_sent t)) (t_sent (foldl step t chunks)))) as H.
  { exact (H {| _conn := c0; _gate := Some (fresh_gate Active); finalize_errors := 0 |} fresh_trace Hd eq_refl). }
  clear s. induction chunks as [|c chunks IH]; intros s t Hs Hg; cbn [foldl].
  - destruct pass; [by rewrite app_nil_r|]. by rewrite drop_ge, app_nil_r.
  - destruct (socket_step pass s t c Hs Hg) as (Hs' & Hg' & sent & Hlog & Hp). rewrite (IH _ _ Hs' Hg'), Hlog, <- app_assoc. f_equal.
    destruct pass; [subst sent; unfold pcm_of; by cbn [fmap list_fmap concat]|]. rewrite Hp, length_app.
    assert (t_sent (foldl step (step t c) chunks) = t_sent t ++ sent ++ drop (length (t_sent t) + length sent) (t_sent (foldl step (step t c) chunks))) as Hsplit.
    { destruct (trace_extends sample_rate channels hangover_ms speech_threshold continue_threshold (step t c) chunks) as [more ->]. rewrite Hp, <- !app_assoc. 
      rewrite !app_assoc, drop_app_length'; [done|]. by rewrite length_app. }
    rewrite Hsplit at 2. by rewrite drop_app_length.
Qed.
End Socket.

(** ** Concrete chunks: ten samples a second *)

Definition heard (n : nat) (wall : Q) (probability : Q) : Chunk := (replicate n 1, wall, [probability]).
Definition VOICE : Q := 9 # 10.
Definition NOISE : Q := 1 # 10.

(** A second of speech, two of noise, a second of speech. *)
Definition chat : list Chunk := [heard 20 100 VOICE; heard 20 101 NOISE; heard 20 102 NOISE; heard 20 103 NOISE; heard 20 104 VOICE].
Notation chat_trace := (trace 10 1 1500 (65 # 100) (65 # 100) chat).

Lemma chat_in_time : in_time 10 1 100 0 chat.
Proof. vm_compute. repeat split. Qed.

(** The second speech is sent at two seconds and mapped to four. *)
Lemma gate_tells_time_witness :
  size (t_sent chat_trace) = 60 /\ t_onsets chat_trace = [(0, 0); (40, 80)] /\
  (exists b o, 0 <= o /\ t_sent chat_trace !! Z.to_nat 45 = Some b /\ pcm_of chat !! Z.to_nat o = Some b /\
     (remembered (t_onsets chat_trace) 45 -> dg_to_wall_rel (dg_wall_mapper (t_gate chat_trace)) (byte_seconds 10 1 45) == byte_seconds 10 1 o)%Q) /\
  exists a, t_sent chat_trace = t_sent (trace 10 1 1500 (65 # 100) (65 # 100) (take 4 chat)) ++ a ++ replicate 20 1 ++ pcm_of [].
Proof.
  destruct (gate_tells_time 10 1 1500 (65 # 100) (65 # 100) ltac:(reflexivity) ltac:(reflexivity) 100 chat ltac:(vm_compute; discriminate) chat_in_time) as [Htime Hspeech].
  split; [vm_compute; reflexivity|]. split; [vm_compute; reflexivity|]. split.
  - apply Htime. vm_compute. split; [discriminate|reflexivity].
  - apply (Hspeech (take 4 chat) (heard 20 104 VOICE) []); vm_compute; [reflexivity..|discriminate].
Defined.

Definition ops_of (chunks : list Chunk) : list GateOp := (fun c => Hears c.1.1 c.1.2 c.2) <$> chunks.

Lemma remapped_times_keep_order_witness :
  exists a' b', remap_segments (foldl (gate_op 10 1 1500 (65 # 100) (65 # 100)) (fresh_gate Active) (ops_of chat)) [(1 # 2, 5 # 2)]%Q = [(a', b')] /\
    (a' + ((5 # 2) - (1 # 2)) <= b')%Q.
Proof. apply (remapped_times_keep_order 10 1 1500 (65 # 100) (65 # 100)); vm_compute; [reflexivity..|discriminate]. Defined.

Lemma counters_only_rise_witness :
  let g := foldl (gate_op 10 1 1500 (65 # 100) (65 # 100)) (fresh_gate Shadow) ([Activates] ++ ops_of chat) in
  _bytes_received g = 100 /\ _bytes_sent g = 60 /\ _prometheus_bytes_skipped g = 40 /\
  _bytes_received g = _bytes_sent g + pending g + _prometheus_bytes_skipped g.
Proof.
  intros g. split; [vm_compute; reflexivity|]. split; [vm_compute; reflexivity|]. split; [vm_compute; reflexivity|].
  by destruct (counters_only_rise 10 1 1500 (65 # 100) (65 # 100) Shadow ([Activates] ++ ops_of chat) [] 0%Q []).
Defined.

(** A segment that ends where the audio was cut is stretched over the silence. *)
Lemma end_at_the_cut_jumps :
  (fun se => (Qred se.1, Qred se.2)) <$> remap_segments (t_gate chat_trace) [(0, 2)]%Q = [(0, 4)]%Q.
Proof. vm_compute. reflexivity. Qed.

(** A second in shadow, activation, ten seconds of silence, speech: times of the shadow
    phase are moved by the silence. *)
Lemma shadow_times_shift :
  let g := foldl (gate_op 10 1 1500 (65 # 100) (65 # 100)) (fresh_gate Shadow)
             ([Hears (replicate 20 1) 100%Q [VOICE]; Activates] ++ ops_of [heard 20 101 NOISE; heard 20 106 NOISE; heard 20 111 VOICE]) in
  Qred (dg_to_wall_rel (dg_wall_mapper g) (1 # 2)) = (21 # 2)%Q.
Proof. vm_compute. reflexivity. Qed.
